(* ===== verification/_CoqProject ===== *)
-Q . S2P
Prelude.v
CLib.v
Nvram.v
NvramFacts.v
NvramCommit.v
NvramProps.v
KExpr.v
KExprFacts.v
KExprJoin.v
KExprDups.v
KExprTransform.v
KExprProps.v
KSymbol.v
KSymOps.v
KSymSpec.v
KSymSpecFacts.v
KSymCalc.v
KSymBody.v
KSymChoice.v
KSymRun.v
KSymProps.v
KSymTypes.v
KSymCheck.v
KSymCheckProps.v
KConf.v
KConfRead.v
KConfWrite.v
KConfProps.v
KPre.v
KPreSpec.v
KPreProps.v
Bits.v
Owip.v
OwipFacts.v
OwipProps.v
OwipMain.v
OwipRun.v
MapCalc.v
MapProps.v
MapPd.v
SixRd.v
Micrond.v
MicrondProps.v
MicrondRun.v
Crc32.v
Mtd.v
MtdGood.v
MtdNor.v
Jffs2.v
Jffs2Spec.v
Jffs2Facts.v
Jffs2Log.v
Jffs2Write.v
Jffs2Props.v
Jffs2Scan.v
Jffs2Append.v
MtdWrite.v
MtdWriteProps.v
MtdJffs2.v
MtdTrx.v
MtdTool.v
MtdToolProps.v
Padjffs2.v
MtdDemo.v
Siit.v
SiitFacts.v
SiitProps.v
SiitFrag.v
SiitDemo.v
Lmo.v
Po2lmo.v
Po2lmoFacts.v
LmoProps.v
Udptunnel.v
UdptunnelProps.v
TemplateUtils.v
TemplateUtf8.v
TemplateProps.v
TemplateParser.v
TemplateParserProps.v
