(* ===== verification/Prelude.v ===== *)
(** * ROOterSource2203: a verification library

    ROOter is an OpenWrt distribution for routers with cellular modems.  Its
    repository is a build system with many small C programs: host tools that
    decide what goes into an image, and target programs that keep the router's
    configuration and compute addresses for its network scripts.  This library
    models the programs that carry such logic of their own, one group of files
    per program, and proves what makes them correct.

    ** The programs and the files that model them

    - Shared layer.  [Prelude]: machine words as [Z] with their wrap-around
      written out ([wrap], [u8] ... [u64], [signed]), byte order ([endian],
      [enc], [dec]), byte buffers whose accesses outside the bounds are [None]
      ([mem_read], [mem_write], [get32], [put32]), C strings, tactics and the
      rewrite database [len].  [CLib]: strtoul, strtol, printf conversions,
      strcmp, character classes.

    - The NVRAM library (src/package/utils/nvram/src).  [Nvram]: the hash table
      of variables ([nvram_get], [nvram_set], [nvram_unset], [_nvram_realloc]),
      the serialisation of the table into the mapped partition ([nvram_commit]),
      reading it back ([_nvram_rehash], [nvram_open]), the CRC ([hndcrc8]) and
      the commands of cli.c.  [NvramFacts]: the table implements a finite map.
      [NvramCommit]: layout of the committed image.  [NvramProps]: theorems.

    - Kconfig dependency expressions (src/scripts/config/expr.c), which decide
      what the build contains.  [KExpr]: expressions, their three-valued
      evaluation, constant elimination, equality up to order, the rewriting
      rules for pairs of operands, in-place removal of duplicates (the two
      pointers into one tree are positions of slots), negation normal form,
      comparison with constants, dependency tests.  [KExprFacts], [KExprJoin],
      [KExprDups], [KExprTransform]: each stage keeps the value and terminates.
      [KExprProps]: theorems.

    - Kconfig symbols (src/scripts/config/symbol.c).  [KSymbol]: the calculation
      of visibility and value of a symbol, with selects, implies, choices and
      ranges, over a store of symbol states.  [KSymOps]: what the front ends do
      to symbols.  [KSymSpec]: the reference semantics, an equation per symbol;
      [KSymSpecFacts]: it has one solution.  [KSymCalc], [KSymBody],
      [KSymChoice], [KSymRun]: the calculation computes that solution.
      [KSymProps]: theorems and a small configuration.  [KSymTypes]:
      the front ends as a step relation with an invariant.  [KSymCheck],
      [KSymCheckProps]: the check for recursive dependencies.

    - The symbol table and the file .config (symbol.c, confdata.c).  [KConf]: the
      hash table, the reader, and the writer with its walk over the menus.
      [KConfRead], [KConfWrite]: lines and files; [KConfProps]: theorems.

    - The macro language of Kconfig files (preprocess.c).  [KPre]: variables, functions,
      the environment and the expansion of strings; the environment and the shell
      are arguments.  [KPreSpec]: an expansion ends and keeps the variables;
      templates, their text and their values.  [KPreProps]: expansion
      computes these values; the states between two calls; concrete runs.

    - The address calculator owipcalc (src/feeds/packages/net/owipcalc/src), used
      by network scripts.  [Owip]: all operations on IPv4 and IPv6 prefixes, the
      parsers and printers, and the stack machine of main.c; the class [Target]
      holds what comes from the platform (byte order, width of long,
      inet_pton and inet_ntop) and [TargetLaws] the
      documented behaviour of the conversions.  [OwipFacts]: byte loops as
      128-bit arithmetic.  [OwipProps]: operations.  [OwipMain]: text and a
      concrete target.  [OwipRun]: the command line interpreter.

    - MAP and 6rd (src/package/network/ipv6/map/src, 6rd/src).  [Bits]: bit
      strings of byte buffers.  [MapCalc]: the rule parser, the bit copies, the
      port sets and the output of mapcalc.c.  [MapProps]: the copies as
      bit strings, rules and ports.  [MapPd]: the choice of the
      delegated prefix.  [SixRd]: 6rdcalc.c.

    - The cron daemon micrond (src/feeds/packages/utils/micrond/src).
      [Micrond]: the parser of a crontab and the minute loop.  [MicrondProps]:
      fields as sets of numbers.  [MicrondRun]: what is run and when.

    - The flash tool mtd (src/package/system/mtd/src), which writes images and keeps
      the configuration across an upgrade.  [Mtd]: results of a run, files that
      are read in pieces, the class [Flash] (what mtd.c asks of the kernel) with
      [FlashLaws] (what it relies on), and the commands on whole blocks of mtd.c.
      [MtdGood]: the good blocks in order; [MtdNor]: an instance of the class.
      [Crc32]: crc32.c and the polynomial.  [Jffs2]: the file-system
      writer and parser of jffs2.c with its static variables as state.
      [Jffs2Spec]: a reference reader of jffs2 logs; [Jffs2Facts],
      [Jffs2Log]: it reads back what the bytes of a log hold; [Jffs2Write],
      [Jffs2Props]: the writer adds nodes to the log; [Jffs2Scan],
      [Jffs2Append]: a file is appended to an existing file system.  [MtdWrite]: the
      loop of mtd_write over image, device and file;
      [MtdWriteProps]: images; [MtdJffs2]: an image with a file in place of its end
      marker.  [MtdTrx]: mtd_fixtrx of trx.c.  [MtdTool]: the check of an image, dumps
      and main with its options; [MtdToolProps]: an image written and dumped.
      [Padjffs2]: the host tool src/tools/padjffs2, which puts the end marker that
      mtd looks for behind an image.
      [MtdDemo]: concrete devices.

    - The translator between IPv4 and IPv6 (src/feeds/packages/net/siit/src), a network
      device of the kernel.  [Siit]: the two translations on byte buffers,
      fragmentation, and the transmit function with its counters; the class [Csum] holds
      the checksum functions of the kernel and [CsumLaws] what they compute.
      [SiitFacts]: buffers, headers, extension headers and sums modulo 65535.
      [SiitProps]: whole packets.  [SiitFrag]: fragments.  [SiitDemo]: an instance of the class
      and concrete packets.

    - The translation catalogues of the web interface
      (src/feeds/luci/modules/luci-base/src).  [Lmo]: hash, canonical keys,
      archives, binary search, catalogues and plural forms of template_lmo.c.
      [Po2lmo]: the compiler po2lmo.c, with undefined behaviour and [die] as
      separate results; the class [QSort] is the C library's sorting function.
      [Po2lmoFacts], [LmoProps]: from PO file to translation.

    - The template compiler of the web interface (same directory).
      [TemplateUtils]: the output buffer, UTF-8 validation, escaping for XML and
      for Lua string literals, removal of markup (template_utils.c).
      [TemplateParser]: tags, strip marks, chunks and the reader of
      template_parser.c, which uses the buffer and the catalogues.
      [TemplateUtf8]: the buffer, byte tests and code points.
      [TemplateProps]: the text functions.  [TemplateParserProps]: the reader
      against a reference translation.

    - The UDP tunnel (src/package/rooter/0optionalapps/udp-tunnel/src).
      [Udptunnel]: the relay of udptunnel.c, its receive state machine, its
      event loop and its set-up; the results of the system calls are arguments.
      [UdptunnelProps]: client and server joined by a byte stream that is read in
      arbitrary pieces, as a step relation with its invariant.

    ** What the theorems show

    - Refinement and round trips: the NVRAM table is a finite map and survives
      commit and reopening when it fits the partition; printed prefixes parse back; a PO file compiled by
      po2lmo and opened by lmo_open translates the messages po2lmo keeps and no others; the tunnel
      delivers every datagram in order whatever the sizes of the reads, for datagrams that fit its
      buffer and while sending them does not fail; the
      Lua source read from a template is its reference translation (but for the tag
      <%-%>, where the reader leaves the template), and text
      in a string literal is read back unchanged; calculating Kconfig symbols in
      any order gives the one solution of their equations; a configuration that
      is written and read back is the same; the symbol table is a map; the text of
      a Kconfig macro expands to the value of the template it denotes.
    - Flash: an image whose header is read in one piece is stored in the good blocks in order, padded to whole
      blocks, and a dump gives it back; an image that is
      not accepted or does not fit ends with status 1; a file passed with -j or appended to a file system is found
      with its content by a reader of the log, and no block of the device changes but those
      of the file, its end marker and what is left of the image behind them;
      the TRX header matches the flash after it was fixed, and fixing it
      again changes nothing; erasing spares exactly the bad blocks; an image padded by
      padjffs2 has a block that starts with the end marker for every block size asked for.
    - Address mapping: the ports of a MAP rule are those the standard assigns to
      its port set identifier, two different identifiers share no port, the
      addresses computed from a rule carry the bits the rule names, and
      the chosen delegated prefix is a longest match; the 6rd prefix is the
      provider prefix followed by the host part of the IPv4 address.
    - Packets: what the translator sends as IPv6 comes back as the same IPv4 packet;
      checksums stay right without being touched, because the prefixes sum to zero, and are added
      where UDP has none;
      the fragments of a long packet fit 1280 bytes and join to the packet;
      extension headers are skipped.
    - Schedules: in every minute micrond starts exactly the jobs whose fields
      contain that minute, once, in the order of the file.
    - Equivalence: the Kconfig simplifier returns for every expression and keeps
      its value in every consistent symbol table; the IPv6 byte loops are 128-bit
      arithmetic; the table-driven CRCs are the polynomial ones.
    - Invariants and termination: values keep the type of their symbol whatever
      the front ends do; the check for recursive dependencies finds exactly the
      cycles when they are errors (conf --fatalrecursive), and a configuration it then accepts can be calculated; toggling a
      symbol reaches every value its bounds allow; every macro expansion ends,
      however variables refer to each other, and between two calls no variable is
      being expanded.
    - Safety and bounds: commit stays inside a mapping below 2^31; owipcalc runs without
      undefined behaviour on the operations that only compute, for IPv4 prefixes of length 2 and more; a successful
      superset test of menu_finalize is an implication; pcdata and striptags escape all markup
      of every input; utf8 and pcdata replace the sequences their byte tests reject, which gives
      well-formed UTF-8 but for encodings above U+10FFFF.
    - Errors: the exit codes of owipcalc; and, proved on concrete inputs, the
      places where the code does not do what it means to (carry in the wrong
      direction on little-endian hosts, reads outside an archive with an empty
      index, a dependency changed by simplification, a datagram that does not
      fit the tunnel's buffer, a UDP checksum of zero, image blocks behind a new end marker, and others).

    ** Modelling conventions

    Functions that rewrite memory return the new value; functions that can
    leave a buffer, dereference NULL or read uninitialised memory return
    [option] (or [res]) and the safe results are proved to be [Some].  Loops
    that are not structural take fuel and running out of it is [None], so a
    theorem that states a result also states that the fuel is enough: one step
    per byte for scans of a buffer, one step per argument for the command line,
    [S (size e1 + size e2)] for [expr_eq], [2 * (size e + 1)^2] for a pass of
    duplicate removal, [S (weight e)] for [expr_transform], 64 for the binary
    search over at most 2^31 entries, two per byte received for the tunnel, two
    calls of the template reader per tag, one more than a bound of the ranks for
    the calculation of Kconfig symbols, [N + 1] for the check of [N] symbols,
    three attempts to toggle a symbol, the length of the text for the parsers of
    MAP rules and crontab fields, [2^offset] for the ports of a MAP rule, 32 and
    128 for the bit loops of 6rdcalc, one step per number of a crontab range.  In the flash
    tool and the Kconfig preprocessor, where a run can also end with [exit], running out of
    fuel is [Undef]: [expand_fuel] for an expansion (every variable is entered at most 1001
    times at once, and between two entries a call works on a shorter string), one
    more than the number of blocks for loops over a device, two rounds to find room
    for data in a block, one round per byte of the device for a dump, one level of recursion between add_data and
    prep_eraseblock, one more than the bytes of a packet for its extension headers and
    fragments, one more than the bytes and read events left for the
    loops over a file, one more than the words of a block for its nodes, 33 rounds for the
    32 bits of the block sizes of padjffs2 and one step per missing byte in a round.
    Allocation failure is not modelled.

    ** What is not modelled

    Kernel and boot loader code (target/linux, package/kernel, package/boot),
    vendored libraries and programs, code that only moves data between the
    system and a library (ubus, netlink, terminal interfaces), and generated
    parsers; PROJECT.json lists the parts with the reason.
    Next in order of interest: the other image formats of
    package/system/mtd (seama, wrg, imagetag), the protocol of sahara.c, the menus of Kconfig and the address library of LuCI. *)
From stdpp Require Export base list numbers decidable strings.
From stdpp Require Import options.
From Stdlib Require Export ZArith Lia.

Declare Scope word_scope.
Delimit Scope word_scope with word.
#[global] Open Scope Z_scope.

(** ** Machine words *)

(** A [w]-bit unsigned word is a [Z] in [0, 2^w); a C assignment to such a
    variable reduces modulo [2^w]. *)
Definition wrap (w x : Z) : Z := x mod 2 ^ w.
Definition u8 (x : Z) : Z := wrap 8 x.
Definition u16 (x : Z) : Z := wrap 16 x.
Definition u32 (x : Z) : Z := wrap 32 x.
Definition u64 (x : Z) : Z := wrap 64 x.

(** Conversion of a [w]-bit pattern to the signed type of that width. *)
Definition signed (w x : Z) : Z :=
  let y := wrap w x in if y <? 2 ^ (w - 1) then y else y - 2 ^ w.
Definition s32 (x : Z) : Z := signed 32 x.

Infix "&.&" := Z.land (at level 40, left associativity) : word_scope.
Infix "|.|" := Z.lor (at level 50, left associativity) : word_scope.
Infix "^.^" := Z.lxor (at level 45, left associativity) : word_scope.

(** A word type of width [w] as a predicate on [Z]. *)
Definition is_word (w x : Z) : Prop := 0 <= x < 2 ^ w.
#[export] Instance is_word_dec w x : Decision (is_word w x).
Proof. unfold is_word. apply _. Defined.

(** ** Byte order *)

Inductive endian := LE | BE.
#[export] Instance endian_eq_dec : EqDecision endian.
Proof. solve_decision. Defined.

Fixpoint le_bytes (n : nat) (z : Z) : list Z :=
  match n with
  | O => []
  | S n' => z mod 256 :: le_bytes n' (z / 256)
  end.

Fixpoint le_val (l : list Z) : Z :=
  match l with
  | [] => 0
  | b :: l' => b + 256 * le_val l'
  end.

(** The in-memory representation of an [n]-byte unsigned integer. *)
Definition enc (e : endian) (n : nat) (z : Z) : list Z :=
  match e with LE => le_bytes n z | BE => rev (le_bytes n z) end.
Definition dec (e : endian) (l : list Z) : Z :=
  match e with LE => le_val l | BE => le_val (rev l) end.

(** ** Byte-addressed memory *)

(** A buffer is the list of its bytes.  An access outside the buffer is
    undefined behaviour in C: it is [None] here. *)
Definition mem_read (m : list Z) (p n : nat) : option (list Z) :=
  if decide (p + n <= length m)%nat then Some (take n (drop p m)) else None.

Definition mem_write (m : list Z) (p : nat) (bs : list Z) : option (list Z) :=
  if decide (p + length bs <= length m)%nat
  then Some (take p m ++ bs ++ drop (p + length bs) m)
  else None.

Definition mem_set (m : list Z) (p : nat) (v : Z) (n : nat) : option (list Z) :=
  mem_write m p (replicate n v).

Definition get32 (e : endian) (m : list Z) (p : nat) : option Z :=
  bs ← mem_read m p 4; Some (dec e bs).

Definition put32 (e : endian) (m : list Z) (p : nat) (v : Z) : option (list Z) :=
  mem_write m p (enc e 4 v).

(** ** Results of functions that may end the process *)

(** A function returns, ends the process with [exit], or
    has no defined result (an access outside a buffer, an overflow, a loop that
    does not end). *)
Inductive outcome (A : Type) :=
| Done (a : A)
| Exit (code : Z)
| Undef.
Arguments Done {A} a.
Arguments Exit {A} code.
Arguments Undef {A}.

#[export] Instance outcome_ret : MRet outcome := fun A a => Done a.
#[export] Instance outcome_bind : MBind outcome := fun A B f m =>
  match m with Done a => f a | Exit c => Exit c | Undef => Undef end.

Definition defined {A} (o : option A) : outcome A :=
  match o with Some a => Done a | None => Undef end.

(** ** C strings *)

(** A C string without its terminator: bytes different from NUL. *)
Abbreviation cstr := (list Z).

(** The bytes of a C string literal. *)
Definition str (s : String.string) : cstr :=
  map (fun a => Z.of_N (Ascii.N_of_ascii a)) (String.list_ascii_of_string s).
Arguments str s%_string.

Definition no_nul (s : cstr) : Prop := Forall (fun c => c <> 0) s.

(** The string that starts at the head of [m], and what follows its NUL;
    [None] when the scan leaves the buffer. *)
Fixpoint c_string (m : list Z) : option (cstr * list Z) :=
  match m with
  | [] => None
  | c :: m' =>
      if c =? 0 then Some ([], m')
      else '(s, r) ← c_string m'; Some (c :: s, r)
  end.

(** [strchr]: what precedes and what follows the first [c] of [s]. *)
Fixpoint str_split (c : Z) (s : cstr) : option (cstr * cstr) :=
  match s with
  | [] => None
  | x :: s' =>
      if x =? c then Some ([], s')
      else '(a, b) ← str_split c s'; Some (x :: a, b)
  end.

Definition strlen (s : cstr) : nat := length s.

(** ** Tactics *)



(** Case analysis on the first [match] or [if] of the goal or of [H]. *)
Ltac dmatch :=
  match goal with
  | |- context [match ?x with _ => _ end] => destruct x eqn:?
  end.
Ltac dmatch_in H :=
  match type of H with
  | context [match ?x with _ => _ end] => destruct x eqn:?
  end.

(** Turn boolean comparisons on [Z] and [nat] into propositions. *)
Ltac b2p :=
  repeat match goal with
  | H : (_ && _)%bool = true |- _ => apply andb_prop in H as [? ?]
  | H : (_ || _)%bool = false |- _ => apply orb_false_iff in H as [? ?]
  | H : negb _ = true |- _ => apply negb_true_iff in H
  | H : negb _ = false |- _ => apply negb_false_iff in H
  | H : (_ =? _)%Z = true |- _ => apply Z.eqb_eq in H
  | H : (_ =? _)%Z = false |- _ => apply Z.eqb_neq in H
  | H : (_ <? _)%Z = true |- _ => apply Z.ltb_lt in H
  | H : (_ <? _)%Z = false |- _ => apply Z.ltb_ge in H
  | H : (_ <=? _)%Z = true |- _ => apply Z.leb_le in H
  | H : (_ <=? _)%Z = false |- _ => apply Z.leb_gt in H
  | H : (_ >? _)%Z = _ |- _ => rewrite Z.gtb_ltb in H
  | H : (_ >=? _)%Z = _ |- _ => rewrite Z.geb_leb in H
  end.

(** [lia] with division and remainder by constants. *)
Ltac dlia := zify; Z.to_euclidean_division_equations; lia.

(** Lengths of the list operations of the models. *)
Create Rewrite HintDb len.
#[export] Hint Rewrite @length_app @length_take @length_drop @length_replicate
  @length_insert @length_rev @length_map @length_fmap : len.
Ltac slen := repeat (progress (autorewrite with len in *; simpl in *)); try lia.

(** ** Word lemmas *)

Lemma wrap_range w x : 0 <= w -> is_word w (wrap w x).
Proof. intros. unfold is_word, wrap. apply Z.mod_pos_bound. lia. Qed.

Lemma wrap_small w x : is_word w x -> wrap w x = x.
Proof. intros []. by apply Z.mod_small. Qed.

Lemma wrap_idemp w x : 0 <= w -> wrap w (wrap w x) = wrap w x.
Proof. intros. by apply wrap_small, wrap_range. Qed.

Lemma land_ones_wrap w x : 0 <= w -> Z.land x (Z.ones w) = wrap w x.
Proof. intros. by rewrite Z.land_ones. Qed.

Lemma lor_disjoint_add a b n :
  0 <= n -> 0 <= a < 2 ^ n -> Z.lor a (Z.shiftl b n) = a + b * 2 ^ n.
Proof.
  intros Hn Ha.
  rewrite <- Z.shiftl_mul_pow2 by lia.
  symmetry. apply Z.add_nocarry_lor, Z.bits_inj'. intros i Hi.
  rewrite Z.land_spec, Z.bits_0.
  destruct (Z.lt_ge_cases i n) as [Hlt|Hge].
  - rewrite (Z.shiftl_spec_low _ _ _ Hlt). apply andb_false_r.
  - rewrite <- (Z.mod_small a (2 ^ n)) by lia.
    by rewrite Z.mod_pow2_bits_high.
Qed.

Lemma wrap_lor w a b : 0 <= w -> wrap w (Z.lor a b) = Z.lor (wrap w a) (wrap w b).
Proof. intros. rewrite <- !land_ones_wrap by done. apply Z.land_lor_distr_l. Qed.

Lemma wrap_land w a b : 0 <= w -> wrap w (Z.land a b) = Z.land (wrap w a) (wrap w b).
Proof.
  intros. rewrite <- !land_ones_wrap by done. apply Z.bits_inj'. intros i Hi.
  rewrite !Z.land_spec. by destruct (Z.testbit a i), (Z.testbit b i), (Z.testbit (Z.ones w) i).
Qed.

Lemma is_word_lor w a b : 0 <= w -> is_word w a -> is_word w b -> is_word w (Z.lor a b).
Proof.
  intros Hw Ha Hb. rewrite <- (wrap_small w a), <- (wrap_small w b), <- wrap_lor by done.
  by apply wrap_range.
Qed.

Lemma is_word_land w a b : 0 <= w -> is_word w a -> is_word w b -> is_word w (Z.land a b).
Proof.
  intros Hw Ha Hb. rewrite <- (wrap_small w a), <- (wrap_small w b), <- wrap_land by done.
  by apply wrap_range.
Qed.

Lemma wrap_lxor w a b : 0 <= w -> wrap w (Z.lxor a b) = Z.lxor (wrap w a) (wrap w b).
Proof.
  intros. rewrite <- !land_ones_wrap by done. apply Z.bits_inj'. intros i Hi.
  rewrite !Z.land_spec, !Z.lxor_spec, !Z.land_spec.
  by destruct (Z.testbit a i), (Z.testbit b i), (Z.testbit (Z.ones w) i).
Qed.

Lemma is_word_lxor w a b : 0 <= w -> is_word w a -> is_word w b -> is_word w (Z.lxor a b).
Proof.
  intros Hw Ha Hb. rewrite <- (wrap_small w a), <- (wrap_small w b), <- wrap_lxor by done.
  by apply wrap_range.
Qed.

Lemma is_word_mono v w x : 0 <= v <= w -> is_word v x -> is_word w x.
Proof. intros ? []. split; [done|]. pose proof (Z.pow_le_mono_r 2 v w). lia. Qed.

(** ** Encoding lemmas *)

Lemma length_le_bytes n z : length (le_bytes n z) = n.
Proof. revert z. induction n; simpl; auto. Qed.
#[export] Hint Rewrite length_le_bytes : len.

Lemma length_enc e n z : length (enc e n z) = n.
Proof. destruct e; simpl; slen. Qed.
#[export] Hint Rewrite length_enc : len.

Lemma le_bytes_range n z : Forall (is_word 8) (le_bytes n z).
Proof.
  revert z. induction n; simpl; intros z; constructor; auto.
  unfold is_word. apply Z.mod_pos_bound. lia.
Qed.

Lemma enc_range e n z : Forall (is_word 8) (enc e n z).
Proof.
  destruct e; simpl; auto using le_bytes_range.
  apply Forall_rev, le_bytes_range.
Qed.

Lemma le_val_le_bytes n z : le_val (le_bytes n z) = z mod 256 ^ Z.of_nat n.
Proof.
  revert z. induction n as [|n IH]; intros z; simpl le_bytes; cbn [le_val].
  { symmetry. apply Z.mod_1_r. }
  rewrite IH, Nat2Z.inj_succ, Z.pow_succ_r by lia.
  rewrite Z.rem_mul_r by lia. lia.
Qed.

Lemma le_val_range l :
  Forall (is_word 8) l -> 0 <= le_val l < 256 ^ Z.of_nat (length l).
Proof.
  induction 1 as [|b l Hb _ IH]; cbn [le_val length]; [lia|].
  unfold is_word in Hb.
  rewrite Nat2Z.inj_succ, Z.pow_succ_r by lia. lia.
Qed.

Lemma le_bytes_le_val l :
  Forall (is_word 8) l -> le_bytes (length l) (le_val l) = l.
Proof.
  induction 1 as [|b l Hb _ IH]; cbn [le_val length le_bytes]; [done|].
  unfold is_word in Hb.
  rewrite Z.mul_comm, Z.mod_add, Z.div_add, Z.div_small, Z.mod_small by lia.
  by rewrite Z.add_0_l, IH.
Qed.

Lemma dec_enc e n z : dec e (enc e n z) = z mod 256 ^ Z.of_nat n.
Proof. destruct e; simpl; rewrite ?rev_involutive; apply le_val_le_bytes. Qed.

Lemma enc_dec e l : Forall (is_word 8) l -> enc e (length l) (dec e l) = l.
Proof.
  intros H. destruct e; simpl; [by apply le_bytes_le_val|].
  rewrite <- length_rev, le_bytes_le_val; [by rewrite rev_involutive|].
  by apply Forall_rev.
Qed.

(** ** Memory lemmas *)

Lemma mem_write_length m p bs m' :
  mem_write m p bs = Some m' -> length m' = length m.
Proof. unfold mem_write. case_decide; intros; simplify_eq. slen. Qed.

Lemma mem_write_some m p bs :
  (p + length bs <= length m)%nat -> exists m', mem_write m p bs = Some m'.
Proof. intros. unfold mem_write. rewrite decide_True by done. eauto. Qed.

Lemma mem_write_lookup_in m p bs m' i :
  mem_write m p bs = Some m' ->
  (p <= i < p + length bs)%nat -> m' !! i = bs !! (i - p)%nat.
Proof.
  unfold mem_write. case_decide as Hd; intros; simplify_eq.
  rewrite lookup_app_r by slen.
  rewrite lookup_app_l by slen. f_equal. slen.
Qed.

Lemma mem_write_lookup_out m p bs m' i :
  mem_write m p bs = Some m' ->
  (i < p \/ p + length bs <= i)%nat -> m' !! i = m !! i.
Proof.
  unfold mem_write. case_decide as Hd; intros Hw [Hi|Hi]; simplify_eq.
  - rewrite lookup_app_l by slen. by rewrite lookup_take_lt.
  - rewrite lookup_app_r, lookup_app_r by slen.
    rewrite lookup_drop. f_equal. slen.
Qed.

Lemma mem_read_lookup m p n bs i :
  mem_read m p n = Some bs -> (i < n)%nat -> bs !! i = m !! (p + i)%nat.
Proof.
  unfold mem_read. case_decide; intros; simplify_eq.
  by rewrite lookup_take_lt, lookup_drop by lia.
Qed.

Lemma mem_read_length m p n bs : mem_read m p n = Some bs -> length bs = n.
Proof. unfold mem_read. case_decide; intros; simplify_eq. slen. Qed.

Lemma mem_read_ext m m' p n :
  length m = length m' ->
  (forall i, (p <= i < p + n)%nat -> m !! i = m' !! i) ->
  mem_read m p n = mem_read m' p n.
Proof.
  intros Hl Hi. unfold mem_read. rewrite <- Hl. case_decide; [|done].
  f_equal. apply list_eq. intros i.
  destruct (decide (i < n)%nat).
  - rewrite !lookup_take_lt, !lookup_drop by lia. apply Hi. lia.
  - rewrite !lookup_take_ge by lia. done.
Qed.

Lemma mem_read_write_eq m p bs m' :
  mem_write m p bs = Some m' -> mem_read m' p (length bs) = Some bs.
Proof.
  intros Hw. pose proof (mem_write_length _ _ _ _ Hw) as Hl.
  unfold mem_write in Hw. case_decide as Hd; [|done]. simplify_eq.
  unfold mem_read. rewrite decide_True by slen. f_equal.
  rewrite drop_app_length' by slen. by rewrite take_app_length' by done.
Qed.

Lemma mem_read_write_ne m p bs m' q n :
  mem_write m p bs = Some m' ->
  (q + n <= p \/ p + length bs <= q)%nat ->
  mem_read m' q n = mem_read m q n.
Proof.
  intros Hw Hd. apply mem_read_ext; [by eapply mem_write_length|].
  intros i Hi. eapply mem_write_lookup_out; [done|]. lia.
Qed.

Lemma put32_length e m p v m' : put32 e m p v = Some m' -> length m' = length m.
Proof. apply mem_write_length. Qed.

Lemma put32_some e m p v :
  (p + 4 <= length m)%nat -> exists m', put32 e m p v = Some m'.
Proof. intros. apply mem_write_some. slen. Qed.

Lemma get_put32_eq e m p v m' :
  put32 e m p v = Some m' -> get32 e m' p = Some (u32 v).
Proof.
  intros Hw. unfold get32. apply mem_read_write_eq in Hw. rewrite length_enc in Hw.
  rewrite Hw. simpl. by rewrite dec_enc.
Qed.

Lemma get_put32_ne e m p v m' q :
  put32 e m p v = Some m' -> (q + 4 <= p \/ p + 4 <= q)%nat ->
  get32 e m' q = get32 e m q.
Proof.
  intros Hw Hd. unfold get32.
  erewrite mem_read_write_ne; [done|exact Hw|slen].
Qed.

(** ** C string lemmas *)

Lemma c_string_app s m : no_nul s -> c_string (s ++ 0 :: m) = Some (s, m).
Proof.
  induction 1 as [|c s Hc _ IH]; simpl; [done|].
  rewrite (proj2 (Z.eqb_neq _ _) Hc). by rewrite IH.
Qed.

Lemma c_string_inv m s r : c_string m = Some (s, r) -> m = s ++ 0 :: r /\ no_nul s.
Proof.
  revert s r. induction m as [|c m IH]; simpl; intros s r H; [done|].
  destruct (Z.eqb_spec c 0).
  - simplify_eq. split; [done|constructor].
  - destruct (c_string m) as [[s' r']|]; simpl in H; [|done]. simplify_eq.
    destruct (IH _ _ eq_refl) as [-> ?]. split; [done|by constructor].
Qed.

Lemma str_split_app c a b :
  Forall (fun x => x <> c) a -> str_split c (a ++ c :: b) = Some (a, b).
Proof.
  induction 1 as [|x a Hx _ IH]; simpl; [by rewrite Z.eqb_refl|].
  rewrite (proj2 (Z.eqb_neq _ _) Hx). by rewrite IH.
Qed.

Lemma str_split_inv c s a b :
  str_split c s = Some (a, b) -> s = a ++ c :: b /\ Forall (fun x => x <> c) a.
Proof.
  revert a b. induction s as [|x s IH]; simpl; intros a b H; [done|].
  destruct (Z.eqb_spec x c).
  - simplify_eq. split; [done|constructor].
  - destruct (str_split c s) as [[a' b']|]; simpl in H; [|done]. simplify_eq.
    destruct (IH _ _ eq_refl) as [-> ?]. split; [done|by constructor].
Qed.

(** ** List lemmas *)

Lemma elem_of_concat {A} (x : A) (ll : list (list A)) :
  x ∈ concat ll <-> exists i l, ll !! i = Some l /\ x ∈ l.
Proof.
  induction ll as [|l ll IH]; cbn [concat].
  - split; [intros []%not_elem_of_nil|]. intros (i & l & Hl & _). by destruct i.
  - rewrite elem_of_app, IH. split.
    + intros [Hx|(i & l' & Hi & Hx)]; [by exists O, l|by exists (S i), l'].
    + intros ([|i] & l' & Hi & Hx); simpl in Hi; simplify_eq; eauto 6.
Qed.

Lemma mem_write_app m p a b m' :
  mem_write m p (a ++ b) = Some m' <->
  exists m1, mem_write m p a = Some m1 /\ mem_write m1 (p + length a) b = Some m'.
Proof.
  unfold mem_write. split.
  - case_decide as Hd; intros; simplify_eq. rewrite length_app in Hd.
    eexists. split; [by rewrite decide_True by lia|].
    rewrite decide_True by slen. f_equal.
    rewrite (app_assoc (take p m) a).
    rewrite take_app_length' by slen.
    rewrite <- !app_assoc. do 3 f_equal.
    rewrite drop_app_ge, drop_app_ge, drop_drop by slen. f_equal. slen.
  - intros (m1 & H1 & H2). case_decide as Hd; [|done]. simplify_eq.
    case_decide as Hd2; [|done]. simplify_eq.
    rewrite decide_True by slen. f_equal.
    rewrite (app_assoc (take p m) a).
    rewrite take_app_length' by slen.
    rewrite <- !app_assoc. do 3 f_equal.
    rewrite drop_app_ge, drop_app_ge, drop_drop by slen. f_equal. slen.
Qed.

Lemma mem_write_nil m p : (p <= length m)%nat -> mem_write m p [] = Some m.
Proof.
  intros. unfold mem_write. rewrite decide_True by (simpl; lia). simpl.
  by rewrite Nat.add_0_r, take_drop.
Qed.

Lemma mem_read_app m p n k a b :
  mem_read m p n = Some a -> mem_read m (p + n) k = Some b ->
  mem_read m p (n + k) = Some (a ++ b).
Proof.
  unfold mem_read. repeat case_decide; intros; simplify_eq; [|lia].
  f_equal. by rewrite <- drop_drop, take_take_drop.
Qed.

Lemma mem_read_drop m p n bs :
  mem_read m p n = Some bs -> drop p m = bs ++ drop (p + n) m.
Proof.
  unfold mem_read. case_decide; intros; simplify_eq.
  by rewrite <- drop_drop, take_drop.
Qed.

Lemma mem_read_sub m p n a k bs :
  mem_read m p n = Some bs -> (a + k <= n)%nat ->
  mem_read m (p + a) k = Some (take k (drop a bs)).
Proof.
  unfold mem_read. case_decide; intros; simplify_eq. rewrite decide_True by lia.
  f_equal. rewrite skipn_firstn_comm, drop_drop, take_take. f_equal. lia.
Qed.

(** A decidable property of all numbers below [n], by evaluation. *)
Lemma below_dec (P : Z -> Prop) `{!forall z, Decision (P z)} n z :
  forallb (fun z => bool_decide (P z)) (seqZ 0 n) = true -> 0 <= z < n -> P z.
Proof.
  intros Hall Hz. rewrite forallb_forall in Hall.
  apply (bool_decide_eq_true (P z)), Hall, list_elem_of_In, elem_of_seqZ. lia.
Qed.
