(* ===== verification/CLib.v ===== *)
(** * C library functions used by several components

    [strtoul], [strtoull] and [strtoll] as ISO C describes them (white space,
    sign, base prefix, longest digit sequence, clamping with [ERANGE]), the
    [%0nX] conversion of [printf], and [strcmp].  Characters are unsigned byte
    values. *)
From stdpp Require Import options.
From S2P Require Import Prelude.

Definition isspace (c : Z) : bool := (c =? 32) || ((9 <=? c) && (c <=? 13)).
Definition isdigit (c : Z) : bool := (48 <=? c) && (c <=? 57).

(** The value of [c] as a digit of some base up to 36. *)
Definition digit_val (c : Z) : option Z :=
  if isdigit c then Some (c - 48)
  else if (97 <=? c) && (c <=? 122) then Some (c - 87)
  else if (65 <=? c) && (c <=? 90) then Some (c - 55)
  else None.

Definition isxdigit (c : Z) : bool :=
  match digit_val c with Some d => d <? 16 | None => false end.

Definition digit_of (base c : Z) : option Z :=
  match digit_val c with
  | Some d => if d <? base then Some d else None
  | None => None
  end.

Fixpoint skip_space (s : cstr) : nat * cstr :=
  match s with
  | c :: s' => if isspace c then let '(n, r) := skip_space s' in (S n, r) else (O, s)
  | [] => (O, [])
  end.

(** The longest digit sequence: its value (on top of [acc]) and length. *)
Fixpoint scan_digits (base acc : Z) (s : cstr) : Z * nat :=
  match s with
  | c :: s' =>
      match digit_of base c with
      | Some d => let '(v, n) := scan_digits base (acc * base + d) s' in (v, S n)
      | None => (acc, O)
      end
  | [] => (acc, O)
  end.

(** A ["0x"] prefix counts only when a hexadecimal digit follows. *)
Definition hex_prefix (s : cstr) : bool :=
  match s with
  | z :: x :: d :: _ => (z =? 48) && ((x =? 120) || (x =? 88)) && isxdigit d
  | _ => false
  end.

(** Sign, magnitude and number of characters consumed ([0]: no conversion). *)
Definition strto_core (base : Z) (s : cstr) : bool * Z * nat :=
  let '(nsp, s1) := skip_space s in
  let '(neg, nsg, s2) :=
    match s1 with
    | c :: r => if c =? 45 then (true, 1%nat, r)
                else if c =? 43 then (false, 1%nat, r) else (false, O, s1)
    | [] => (false, O, [])
    end in
  let '(b, npre, s3) :=
    if ((base =? 0) || (base =? 16)) && hex_prefix s2 then (16, 2%nat, drop 2 s2)
    else if base =? 0
         then match s2 with
              | c :: _ => if c =? 48 then (8, O, s2) else (10, O, s2)
              | [] => (10, O, s2)
              end
         else (base, O, s2) in
  let '(v, n) := scan_digits b 0 s3 in
  match n with
  | O => (false, 0, O)
  | _ => (neg, v, nsp + nsg + npre + n)%nat
  end.

(** [strtoul] on [w]-bit [unsigned long]: value, characters consumed, [ERANGE]. *)
Definition strtoul (w base : Z) (s : cstr) : Z * nat * bool :=
  let '(neg, v, n) := strto_core base s in
  if 2 ^ w <=? v then (2 ^ w - 1, n, true)
  else (wrap w (if neg then - v else v), n, false).

Definition strtol (w base : Z) (s : cstr) : Z * nat * bool :=
  let '(neg, v, n) := strto_core base s in
  if neg
  then if 2 ^ (w - 1) <? v then (- 2 ^ (w - 1), n, true) else (- v, n, false)
  else if 2 ^ (w - 1) <=? v then (2 ^ (w - 1) - 1, n, true) else (v, n, false).

(** [printf("%0nX")] for a value below [16^n]. *)
Definition hexdigit (d : Z) : Z := if d <? 10 then 48 + d else 55 + d.
Fixpoint hexX (n : nat) (v : Z) : cstr :=
  match n with
  | O => []
  | S n' => hexX n' (v / 16) ++ [hexdigit (v mod 16)]
  end.

(** [printf("%u")]. *)
Fixpoint dec_digits (fuel : nat) (v : Z) (acc : cstr) : cstr :=
  match fuel with
  | O => acc
  | S f => if v <? 10 then (48 + v) :: acc
           else dec_digits f (v / 10) ((48 + v mod 10) :: acc)
  end.
Definition print_u (v : Z) : cstr := dec_digits 20 v [].

(** [strcmp]: the sign of the first difference. *)
Fixpoint strcmp (a b : cstr) : Z :=
  match a, b with
  | [], [] => 0
  | [], _ :: _ => -1
  | _ :: _, [] => 1
  | x :: a', y :: b' => if x <? y then -1 else if y <? x then 1 else strcmp a' b'
  end.

(** ** Lemmas *)

Lemma strcmp_refl s : strcmp s s = 0.
Proof. induction s; simpl; [done|]. by rewrite Z.ltb_irrefl. Qed.

Lemma strcmp_eq_0 a b : strcmp a b = 0 <-> a = b.
Proof.
  split; [|intros ->; apply strcmp_refl].
  revert b. induction a as [|x a IH]; intros [|y b]; simpl; intros H; try done.
  destruct (Z.ltb_spec x y); [done|]. destruct (Z.ltb_spec y x); [done|].
  f_equal; [lia|auto].
Qed.

Lemma digit_val_hexdigit d : 0 <= d < 16 -> digit_val (hexdigit d) = Some d.
Proof.
  intros H.
  assert (d = 0 \/ d = 1 \/ d = 2 \/ d = 3 \/ d = 4 \/ d = 5 \/ d = 6 \/ d = 7 \/
          d = 8 \/ d = 9 \/ d = 10 \/ d = 11 \/ d = 12 \/ d = 13 \/ d = 14 \/ d = 15)
    as Hd by lia.
  repeat (destruct Hd as [->|Hd]; [reflexivity|]). by subst.
Qed.

Lemma digit_of_hexdigit d : 0 <= d < 16 -> digit_of 16 (hexdigit d) = Some d.
Proof.
  intros H. unfold digit_of. rewrite digit_val_hexdigit by done.
  by rewrite (proj2 (Z.ltb_lt _ _)) by lia.
Qed.

Lemma length_hexX n v : length (hexX n v) = n.
Proof. revert v. induction n; intros; simpl; slen. rewrite IHn. lia. Qed.

Lemma scan_digits_app_16 l d acc :
  Forall (fun c => digit_of 16 c <> None) l -> 0 <= d < 16 ->
  scan_digits 16 acc (l ++ [hexdigit d]) =
  let '(v, n) := scan_digits 16 acc l in (v * 16 + d, S n).
Proof.
  intros Hl Hd. revert acc. induction Hl as [|c l Hc _ IH]; intros acc.
  - cbn [app scan_digits]. by rewrite digit_of_hexdigit by done.
  - cbn [app scan_digits]. destruct (digit_of 16 c) as [dc|]; [|done].
    rewrite IH. by destruct (scan_digits 16 (acc * 16 + dc) l).
Qed.

Lemma hexX_digits n v : 0 <= v -> Forall (fun c => digit_of 16 c <> None) (hexX n v).
Proof.
  revert v. induction n; intros v Hv; simpl; [constructor|].
  apply Forall_app_2.
  - apply IHn. apply Z.div_pos; lia.
  - repeat constructor. rewrite digit_of_hexdigit; [done|].
    apply Z.mod_pos_bound. lia.
Qed.

Lemma scan_hexX n v :
  0 <= v < 16 ^ Z.of_nat n -> scan_digits 16 0 (hexX n v) = (v, n).
Proof.
  revert v. induction n as [|n IH]; intros v Hv.
  { simpl in *. f_equal. lia. }
  rewrite Nat2Z.inj_succ, Z.pow_succ_r in Hv by lia.
  cbn [hexX]. rewrite scan_digits_app_16.
  - rewrite IH; [f_equal|].
    + pose proof (Z.div_mod v 16). lia.
    + split; [apply Z.div_pos; lia|apply Z.div_lt_upper_bound; lia].
  - apply hexX_digits, Z.div_pos; lia.
  - apply Z.mod_pos_bound. lia.
Qed.

(** [strtoul] with base 0 reads back what ["0x%0nX"] prints. *)
Lemma strtoul_hexX w n v :
  (0 < n)%nat -> 0 <= v < 16 ^ Z.of_nat n -> v < 2 ^ w -> 0 <= w ->
  strtoul w 0 (48 :: 120 :: hexX n v) = (v, (n + 2)%nat, false).
Proof.
  intros Hn Hv Hw Hw0.
  assert (hex_prefix (48 :: 120 :: hexX n v) = true) as Hp.
  { pose proof (hexX_digits n v ltac:(lia)) as Hf.
    pose proof (length_hexX n v) as Hl.
    destruct (hexX n v) as [|c l]; simpl in Hl; [lia|].
    inversion Hf as [|? ? Hc ?]; subst.
    unfold hex_prefix, isxdigit. unfold digit_of in Hc.
    destruct (digit_val c) as [d|]; [|done].
    by destruct (d <? 16). }
  unfold strtoul, strto_core.
  change (skip_space (48 :: 120 :: hexX n v)) with (O, 48 :: 120 :: hexX n v).
  cbn -[hex_prefix hexX scan_digits Z.pow].
  rewrite Hp. cbn -[hexX scan_digits Z.pow].
  rewrite drop_0, scan_hexX by done. destruct n as [|n]; [lia|].
  rewrite (proj2 (Z.leb_gt _ _)) by lia.
  rewrite wrap_small by (unfold is_word; lia).
  f_equal. f_equal. lia.
Qed.

Lemma digit_of_nonneg base c d : digit_of base c = Some d -> 0 <= d.
Proof.
  unfold digit_of, digit_val, isdigit. intros H.
  repeat case_match; simplify_eq; b2p; lia.
Qed.

Lemma scan_digits_nonneg base acc s v n :
  0 <= base -> 0 <= acc -> scan_digits base acc s = (v, n) -> 0 <= v.
Proof.
  intros Hb. revert acc v n. induction s as [|c s IH]; simpl; intros acc v n Ha H; [by simplify_eq|].
  destruct (digit_of base c) as [d|] eqn:Hc; [|by simplify_eq].
  apply digit_of_nonneg in Hc.
  destruct (scan_digits base (acc * base + d) s) as [v' n'] eqn:Hs. simplify_eq.
  eapply (IH (acc * base + d)); [nia|done].
Qed.
