(* ===== verification/Nvram.v ===== *)
(** * Broadcom nvram variables: package/utils/nvram/src

    The model of [nvram.c], [crc.c] and the commands of [cli.c].  A handle owns
    the mapped flash partition (a byte buffer), the hash table of 257 buckets
    and the dead list.  Memory allocation is taken to succeed; the file
    descriptor and the calls that flush the mapping carry no state the code
    reads back.  Parameters of the target: the byte order, whether [char] is
    signed, the width of [unsigned long], the address of the mapping. *)
From stdpp Require Import options.
From S2P Require Import Prelude CLib.

(** ** crc.c *)

Definition crc8_table : list Z := [
  0x00; 0xF7; 0xB9; 0x4E; 0x25; 0xD2; 0x9C; 0x6B;
  0x4A; 0xBD; 0xF3; 0x04; 0x6F; 0x98; 0xD6; 0x21;
  0x94; 0x63; 0x2D; 0xDA; 0xB1; 0x46; 0x08; 0xFF;
  0xDE; 0x29; 0x67; 0x90; 0xFB; 0x0C; 0x42; 0xB5;
  0x7F; 0x88; 0xC6; 0x31; 0x5A; 0xAD; 0xE3; 0x14;
  0x35; 0xC2; 0x8C; 0x7B; 0x10; 0xE7; 0xA9; 0x5E;
  0xEB; 0x1C; 0x52; 0xA5; 0xCE; 0x39; 0x77; 0x80;
  0xA1; 0x56; 0x18; 0xEF; 0x84; 0x73; 0x3D; 0xCA;
  0xFE; 0x09; 0x47; 0xB0; 0xDB; 0x2C; 0x62; 0x95;
  0xB4; 0x43; 0x0D; 0xFA; 0x91; 0x66; 0x28; 0xDF;
  0x6A; 0x9D; 0xD3; 0x24; 0x4F; 0xB8; 0xF6; 0x01;
  0x20; 0xD7; 0x99; 0x6E; 0x05; 0xF2; 0xBC; 0x4B;
  0x81; 0x76; 0x38; 0xCF; 0xA4; 0x53; 0x1D; 0xEA;
  0xCB; 0x3C; 0x72; 0x85; 0xEE; 0x19; 0x57; 0xA0;
  0x15; 0xE2; 0xAC; 0x5B; 0x30; 0xC7; 0x89; 0x7E;
  0x5F; 0xA8; 0xE6; 0x11; 0x7A; 0x8D; 0xC3; 0x34;
  0xAB; 0x5C; 0x12; 0xE5; 0x8E; 0x79; 0x37; 0xC0;
  0xE1; 0x16; 0x58; 0xAF; 0xC4; 0x33; 0x7D; 0x8A;
  0x3F; 0xC8; 0x86; 0x71; 0x1A; 0xED; 0xA3; 0x54;
  0x75; 0x82; 0xCC; 0x3B; 0x50; 0xA7; 0xE9; 0x1E;
  0xD4; 0x23; 0x6D; 0x9A; 0xF1; 0x06; 0x48; 0xBF;
  0x9E; 0x69; 0x27; 0xD0; 0xBB; 0x4C; 0x02; 0xF5;
  0x40; 0xB7; 0xF9; 0x0E; 0x65; 0x92; 0xDC; 0x2B;
  0x0A; 0xFD; 0xB3; 0x44; 0x2F; 0xD8; 0x96; 0x61;
  0x55; 0xA2; 0xEC; 0x1B; 0x70; 0x87; 0xC9; 0x3E;
  0x1F; 0xE8; 0xA6; 0x51; 0x3A; 0xCD; 0x83; 0x74;
  0xC1; 0x36; 0x78; 0x8F; 0xE4; 0x13; 0x5D; 0xAA;
  0x8B; 0x7C; 0x32; 0xC5; 0xAE; 0x59; 0x17; 0xE0;
  0x2A; 0xDD; 0x93; 0x64; 0x0F; 0xF8; 0xB6; 0x41;
  0x60; 0x97; 0xD9; 0x2E; 0x45; 0xB2; 0xFC; 0x0B;
  0xBE; 0x49; 0x07; 0xF0; 0x9B; 0x6C; 0x22; 0xD5;
  0xF4; 0x03; 0x4D; 0xBA; 0xD1; 0x26; 0x68; 0x9F ].

(** One iteration of the [while] loop; the index is masked to 8 bits. *)
Definition crc8_step (crc b : Z) : Z :=
  nth (Z.to_nat (Z.land (Z.lxor crc b) 0xff)) crc8_table 0.

Fixpoint hndcrc8 (pdata : list Z) (crc : Z) : Z :=
  match pdata with
  | [] => crc
  | b :: r => hndcrc8 r (crc8_step crc b)
  end.

(** ** nvram.h, sdinitvals.h *)

Definition NVRAM_MIN_SPACE : Z := 0x8000.
Definition NVRAM_MAGIC : Z := 0x48534C46.
Definition NVRAM_VERSION : Z := 1.
Definition NVRAM_CRC_START_POSITION : nat := 9.
Definition NVRAM_HASHSIZE : Z := 257.
Definition NVRAM_HEADER_SIZE : nat := 20.
Definition NVRAM_ROUNDUP (x y : Z) : Z := ((x + (y - 1)) / y) * y.
Definition SDRAM_INIT : Z := 0x419.
Definition SDRAM_CONFIG : Z := 0x0000.
Definition SDRAM_REFRESH : Z := Z.lor (Z.land 0x40 0xff) 0x8000.

Record nvram_tuple := Tuple { t_name : cstr; t_value : cstr }.

Record nvram_handle := Handle {
  nv_mmap : list Z;
  nv_length : Z;
  nv_offset : Z;
  nv_hash : list (list nvram_tuple);
  nv_dead : list nvram_tuple }.

Definition set_mmap (h : nvram_handle) (m : list Z) : nvram_handle :=
  Handle m (nv_length h) (nv_offset h) (nv_hash h) (nv_dead h).
Definition set_tables (h : nvram_handle) (t : list (list nvram_tuple))
    (d : list nvram_tuple) : nvram_handle :=
  Handle (nv_mmap h) (nv_length h) (nv_offset h) t d.

Definition header_pos (h : nvram_handle) : nat := Z.to_nat (nv_offset h).

#[export] Instance tuple_eq_dec : EqDecision nvram_tuple.
Proof. solve_decision. Defined.

Section Nvram.
Context (char_signed : bool) (e : endian) (ulong_w : Z) (base : Z).

(** [hash = 31 * hash + *s++] on [uint32_t], [*s] of type [char]. *)
Fixpoint hash_from (acc : Z) (s : cstr) : Z :=
  match s with
  | [] => acc
  | c :: s' => hash_from (u32 (31 * acc + (if char_signed then signed 8 c else c))) s'
  end.
Definition hash (s : cstr) : Z := hash_from 0 s.

(** [hash(name) % NVRAM_ARRAYSIZE(h->nvram_hash)]: the macro is the text [sizeof(a)/sizeof(a[0])]
    without parentheses, so the remainder modulo the size of the table in bytes is divided
    by the size of a pointer, which has the width of [unsigned long]. *)
Definition bucket (s : cstr) : nat :=
  let sizeof_ptr := ulong_w / 8 in
  Z.to_nat (hash s mod (NVRAM_HASHSIZE * sizeof_ptr) / sizeof_ptr).

(** Free all tuples: both tables end empty. *)
Definition _nvram_free (h : nvram_handle) : nvram_handle :=
  set_tables h (replicate (length (nv_hash h)) []) [].

(** What [_nvram_realloc] returns: [NULL], the tuple it was given with its
    value replaced, or a newly allocated tuple. *)
Inductive realloc_res := RNull | RSame (t : nvram_tuple) | RNew (t : nvram_tuple).

Definition _nvram_realloc (h : nvram_handle) (t : option nvram_tuple)
    (name value : cstr) : realloc_res :=
  if Z.of_nat (strlen value) + 1 >? u32 (nv_length h - nv_offset h) then RNull
  else match t with
       | None => RNew (Tuple name value)
       | Some t =>
           RSame (if decide (t_value t = value) then t else Tuple (t_name t) value)
       end.

(** The scan [t && strcmp(t->name, name)] along a bucket: the tuples before
    the match, the match, the tuples after it. *)
Fixpoint find_tuple (name : cstr) (l : list nvram_tuple) :
    list nvram_tuple * option nvram_tuple * list nvram_tuple :=
  match l with
  | [] => ([], None, [])
  | t :: l' =>
      if decide (t_name t = name) then ([], Some t, l')
      else let '(pre, r, post) := find_tuple name l' in (t :: pre, r, post)
  end.

Definition nv_bucket (h : nvram_handle) (i : nat) : list nvram_tuple :=
  default [] (nv_hash h !! i).

Definition nvram_get (h : nvram_handle) (name : option cstr) : option cstr :=
  match name with
  | None => None
  | Some name =>
      let '(_, t, _) := find_tuple name (nv_bucket h (bucket name)) in
      t_value <$> t
  end.

(** Returns the handle and the code: 0, or -12 when the value cannot fit. *)
Definition nvram_set (h : nvram_handle) (name value : cstr) : nvram_handle * Z :=
  let i := bucket name in
  let '(pre, t, post) := find_tuple name (nv_bucket h i) in
  match _nvram_realloc h t name value, t with
  | RNull, _ => (h, -12)
  | RSame u, _ => (set_tables h (<[i := pre ++ u :: post]> (nv_hash h)) (nv_dead h), 0)
  | RNew u, Some t =>
      (set_tables h (<[i := u :: pre ++ post]> (nv_hash h)) (t :: nv_dead h), 0)
  | RNew u, None => (set_tables h (<[i := u :: pre ++ post]> (nv_hash h)) (nv_dead h), 0)
  end.

Definition nvram_unset (h : nvram_handle) (name : option cstr) : nvram_handle * Z :=
  match name with
  | None => (h, 0)
  | Some name =>
      let i := bucket name in
      let '(pre, t, post) := find_tuple name (nv_bucket h i) in
      match t with
      | Some t => (set_tables h (<[i := pre ++ post]> (nv_hash h)) (t :: nv_dead h), 0)
      | None => (h, 0)
      end
  end.

(** The list is built by pushing each tuple in front. *)
Definition nvram_getall (h : nvram_handle) : list nvram_tuple :=
  fold_left (fun l t => t :: l) (concat (nv_hash h)) [].

(** ["name=value\0 ... \0\0"] from the position after the header. *)
Fixpoint rehash_loop (fuel : nat) (h : nvram_handle) (rest : list Z) :
    option nvram_handle :=
  match fuel with
  | O => None
  | S f =>
      match rest with
      | [] => None
      | c :: _ =>
          if c =? 0 then Some h
          else
            '(s, rest') ← c_string rest;
            match str_split 61 s with
            | None => Some h
            | Some (name, value) => rehash_loop f (nvram_set h name value).1 rest'
            end
      end
  end.

(** [if (!nvram_get(h, name)) nvram_set(h, name, buf);] *)
Definition set_if_unset (h : nvram_handle) (name value : cstr) : nvram_handle :=
  match nvram_get h (Some name) with
  | None => (nvram_set h name value).1
  | Some _ => h
  end.

Definition hex4 (v : Z) : cstr := str "0x" ++ hexX 4 (u16 v).
Definition hex8 (v : Z) : cstr := str "0x" ++ hexX 8 (u32 v).

Definition _nvram_rehash (h0 : nvram_handle) : option nvram_handle :=
  let h := _nvram_free h0 in
  let p := header_pos h in
  h ← rehash_loop (S (length (nv_mmap h))) h (drop (p + NVRAM_HEADER_SIZE) (nv_mmap h));
  crc_ver_init ← get32 e (nv_mmap h) (p + 8);
  config_refresh ← get32 e (nv_mmap h) (p + 12);
  config_ncdl ← get32 e (nv_mmap h) (p + 16);
  let h := set_if_unset h (str "sdram_init") (hex4 (Z.shiftr crc_ver_init 16)) in
  let h := set_if_unset h (str "sdram_config") (hex4 (Z.land config_refresh 0xffff)) in
  let h := set_if_unset h (str "sdram_refresh")
             (hex4 (Z.land (Z.shiftr config_refresh 16) 0xffff)) in
  Some (set_if_unset h (str "sdram_ncdl") (hex8 config_ncdl)).

Definition strtoul0 (s : cstr) : Z := (strtoul ulong_w 0 s).1.1.

(** The three header words [nvram_commit] computes before the CRC:
    [crc_ver_init], [config_refresh], [config_ncdl]. *)
Definition commit_words (h : nvram_handle) : Z * Z * Z :=
  let v := u32 (Z.shiftl NVRAM_VERSION 8) in
  match nvram_get h (Some (str "sdram_init")), nvram_get h (Some (str "sdram_config")),
        nvram_get h (Some (str "sdram_refresh")), nvram_get h (Some (str "sdram_ncdl")) with
  | Some init, Some config, Some refresh, Some ncdl =>
      (u32 (Z.lor v (Z.shiftl (Z.land (strtoul0 init) 0xffff) 16)),
       u32 (Z.lor (Z.land (strtoul0 config) 0xffff)
                  (Z.shiftl (Z.land (strtoul0 refresh) 0xffff) 16)),
       u32 (strtoul0 ncdl))
  | _, _, _, _ =>
      (u32 (Z.lor v (Z.shiftl SDRAM_INIT 16)),
       u32 (Z.lor SDRAM_CONFIG (Z.shiftl SDRAM_REFRESH 16)), 0)
  end.

(** ["%s=%s"] and its terminator. *)
Definition tuple_bytes (t : nvram_tuple) : list Z :=
  t_name t ++ 61 :: t_value t ++ [0].

(** The inner loop over one bucket: stops ([break]) at the first tuple that
    does not fit below [end]. *)
Fixpoint write_bucket (m : list Z) (ptr end_ : nat) (l : list nvram_tuple) :
    option (list Z * nat) :=
  match l with
  | [] => Some (m, ptr)
  | t :: l' =>
      if decide (end_ < ptr + strlen (t_name t) + 1 + strlen (t_value t) + 1)%nat
      then Some (m, ptr)
      else m' ← mem_write m ptr (tuple_bytes t);
           write_bucket m' (ptr + length (tuple_bytes t)) end_ l'
  end.

Fixpoint write_table (m : list Z) (ptr end_ : nat) (tbl : list (list nvram_tuple)) :
    option (list Z * nat) :=
  match tbl with
  | [] => Some (m, ptr)
  | b :: tbl' => '(m, ptr) ← write_bucket m ptr end_ b; write_table m ptr end_ tbl'
  end.

(** [nvram_commit]: [None] is an access outside the mapping.  [ptr] is the
    position in the mapping, [base + ptr] the address whose [int] conversion
    the padding code divides. *)
Definition nvram_commit (nvram_part_size : nat) (h : nvram_handle) :
    option nvram_handle :=
  let p := header_pos h in
  let '(cvi, cr, cn) := commit_words h in
  m ← put32 e (nv_mmap h) p NVRAM_MAGIC;
  m ← put32 e m (p + 8) cvi;
  m ← put32 e m (p + 12) cr;
  m ← put32 e m (p + 16) cn;
  let ptr := (p + NVRAM_HEADER_SIZE)%nat in
  m ← mem_set m ptr 0xFF (nvram_part_size - p - NVRAM_HEADER_SIZE);
  let end_ := (p + nvram_part_size - p - 2)%nat in
  '(m, ptr) ← write_table m ptr end_ (nv_hash h);
  m ← mem_set m ptr 0 1;
  let ptr := S ptr in
  let r := Z.rem (s32 (base + Z.of_nat ptr)) 4 in
  m ← (if r =? 0 then Some m else mem_set m ptr 0 (Z.to_nat (4 - r)));
  let ptr := S ptr in
  let len := NVRAM_ROUNDUP (Z.of_nat ptr - Z.of_nat p) 4 in
  m ← put32 e m (p + 4) len;
  let tmp := replicate 8 0 ++ enc e 4 cvi ++ enc e 4 cr ++ enc e 4 cn in
  let crc := hndcrc8 (drop NVRAM_CRC_START_POSITION tmp) 0xff in
  data ← mem_read m (p + NVRAM_HEADER_SIZE) (Z.to_nat len - NVRAM_HEADER_SIZE);
  let crc := hndcrc8 data crc in
  m ← put32 e m (p + 8) (Z.lor cvi crc);
  _nvram_rehash (set_mmap h m).

(** The scan of [nvram_open] for the magic, word by word up to index [bound];
    a word outside the mapping ends it, so one step per byte is enough fuel. *)
Fixpoint find_magic (fuel : nat) (m : list Z) (i : nat) (bound : Z) : option nat :=
  match fuel with
  | O => None
  | S f =>
      if Z.of_nat i <=? bound then
        w ← get32 e m (4 * i);
        if w =? NVRAM_MAGIC then Some (4 * i)%nat else find_magic f m (S i) bound
      else None
  end.

(** [nvram_open] from the mapped partition on; the loop bound is computed on
    [size_t] of [ulong_w] bits.  [None]: the call returns [NULL] (or, for a
    malformed partition, leaves the mapping). *)
Definition nvram_open (mmap_area : list Z) (rdonly : bool) : option nvram_handle :=
  let size := Z.of_nat (length mmap_area) in
  offset ← find_magic (S (length mmap_area)) mmap_area 0
             (wrap ulong_w (size - NVRAM_MIN_SPACE) / 4);
  let h := Handle mmap_area size (Z.of_nat offset)
             (replicate (Z.to_nat NVRAM_HASHSIZE) []) [] in
  magic ← get32 e mmap_area offset;
  len ← get32 e mmap_area (offset + 4);
  if (magic =? NVRAM_MAGIC) && (rdonly || (len <? u32 (nv_length h - nv_offset h)))
  then _nvram_rehash h
  else None.

(** ** cli.c *)

Definition do_show (h : nvram_handle) : cstr * Z :=
  match nvram_getall h with
  | [] => ([], 1)
  | l => (concat (map (fun t => t_name t ++ 61 :: t_value t ++ [10]) l), 0)
  end.

Definition do_get (h : nvram_handle) (var : cstr) : cstr * Z :=
  match nvram_get h (Some var) with
  | Some v => (v ++ [10], 0)
  | None => ([], 1)
  end.

Definition do_unset (h : nvram_handle) (var : cstr) : nvram_handle * Z :=
  nvram_unset h (Some var).

Definition do_set (h : nvram_handle) (pair : cstr) : nvram_handle * Z :=
  match str_split 61 pair with
  | None => (h, 1)
  | Some (var, val) => nvram_set h var val
  end.

(** The two numbers of the ["CRC8: ... (calculated: ...)"] line of [do_info]. *)
Definition do_info_crc (h : nvram_handle) : option (Z * Z) :=
  let p := header_pos h in
  len ← get32 e (nv_mmap h) (p + 4);
  cvi ← get32 e (nv_mmap h) (p + 8);
  data ← mem_read (nv_mmap h) (p + NVRAM_CRC_START_POSITION)
           (Z.to_nat len - NVRAM_CRC_START_POSITION);
  Some (Z.land cvi 0xFF, hndcrc8 data 0xff).
End Nvram.
