(* ===== verification/NvramFacts.v ===== *)
(** * Correctness of the nvram library

    The hash table implements a finite map ([nv_abs]); [nvram_commit] followed
    by the rescan it performs preserves that map; the image it leaves passes
    the CRC test of [nvram info] and no access leaves the mapping. *)
From stdpp Require Import gmap options.
From S2P Require Import Prelude CLib Nvram.

(** ** Specification *)

(** The reference definition of the CRC: the reflected polynomial 0xAB
    (x^8 + x^7 + x^6 + x^4 + x^2 + 1), one bit at a time. *)
Definition crc8_bit (c : Z) : Z :=
  if Z.testbit c 0 then Z.lxor (Z.shiftr c 1) 0xAB else Z.shiftr c 1.
Definition crc8_ref (c : Z) : Z := Nat.iter 8 crc8_bit c.

Definition tuple_pair (t : nvram_tuple) : cstr * cstr := (t_name t, t_value t).

(** The finite map a handle stands for. *)
Definition nv_abs (h : nvram_handle) : gmap cstr cstr :=
  list_to_map (map tuple_pair (concat (nv_hash h))).

(** The four variables [_nvram_rehash] adds when they are missing. *)
Definition sdram_names : list cstr :=
  [str "sdram_init"; str "sdram_config"; str "sdram_refresh"; str "sdram_ncdl"].

(** A name has neither NUL nor ['='], a value has no NUL. *)
Definition clean_tuple (t : nvram_tuple) : Prop :=
  no_nul (t_name t) /\ Forall (fun c => c <> 61) (t_name t) /\ no_nul (t_value t).

Definition tuples_bytes (ts : list nvram_tuple) : list Z := concat (map tuple_bytes ts).

Section Facts.
Context (char_signed : bool) (e : endian) (ulong_w : Z) (base : Z).

#[local] Notation bucket := (bucket char_signed ulong_w) (only parsing).
#[local] Notation nvram_set := (nvram_set char_signed ulong_w) (only parsing).
#[local] Notation nvram_get := (nvram_get char_signed ulong_w) (only parsing).
#[local] Notation nvram_unset := (nvram_unset char_signed ulong_w) (only parsing).

(** Every tuple sits in the bucket of its name, at most one per name. *)
Definition bucket_ok (i : nat) (b : list nvram_tuple) : Prop :=
  Forall (fun t => bucket (t_name t) = i) b /\ NoDup (map t_name b).
Definition nv_wf (h : nvram_handle) : Prop :=
  length (nv_hash h) = Z.to_nat NVRAM_HASHSIZE /\
  forall i b, nv_hash h !! i = Some b -> bucket_ok i b.

(** A value of length below the partition size is accepted by [nvram_set]. *)
Definition fits (h : nvram_handle) (v : cstr) : Prop :=
  Z.of_nat (strlen v) + 1 <= u32 (nv_length h - nv_offset h).

#[export] Instance fits_dec h v : Decision (fits h v).
Proof. unfold fits. apply _. Defined.

(** ** The hash table *)

Lemma bucket_lt s : (bucket s < Z.to_nat NVRAM_HASHSIZE)%nat.
Proof.
  unfold Nvram.bucket, NVRAM_HASHSIZE. set (p := ulong_w / 8). generalize (hash char_signed s) as v. intros v.
  assert (0 <= v mod (257 * p) / p < 257); [|lia]. destruct (Z.lt_trichotomy p 0) as [Hp|[-> |Hp]].
  - pose proof (Z.mod_neg_bound v (257 * p) ltac:(lia)). rewrite <- Z.div_opp_opp by lia.
    split; [apply Z.div_pos; lia|apply Z.div_lt_upper_bound; lia].
  - by rewrite Z.div_0_r.
  - pose proof (Z.mod_pos_bound v (257 * p) ltac:(lia)).
    split; [apply Z.div_pos; lia|apply Z.div_lt_upper_bound; lia].
Qed.

Lemma find_tuple_spec n l pre r post :
  find_tuple n l = (pre, r, post) ->
  n ∉ map t_name pre /\
  match r with
  | Some t => l = pre ++ t :: post /\ t_name t = n
  | None => l = pre /\ post = []
  end.
Proof.
  revert pre r post. induction l as [|t l IH]; simpl; intros pre r post H.
  - simplify_eq. split; [apply not_elem_of_nil|done].
  - case_decide as Hd.
    + simplify_eq. split; [apply not_elem_of_nil|done].
    + destruct (find_tuple n l) as [[pre' r'] post'].
      specialize (IH _ _ _ eq_refl) as [Hn Hr]. simplify_eq. split.
      * simpl. rewrite not_elem_of_cons. split; [congruence|done].
      * destruct r; naive_solver.
Qed.

Lemma nv_bucket_lookup h i :
  nv_wf h -> (i < Z.to_nat NVRAM_HASHSIZE)%nat ->
  nv_hash h !! i = Some (nv_bucket h i).
Proof.
  intros [Hl _] Hi. rewrite <- Hl in Hi. apply lookup_lt_is_Some_2 in Hi as [b Hb].
  unfold nv_bucket. by rewrite Hb.
Qed.

Lemma nv_wf_bucket h n : nv_wf h -> bucket_ok (bucket n) (nv_bucket h (bucket n)).
Proof. intros Hw. apply Hw. apply nv_bucket_lookup; [done|apply bucket_lt]. Qed.

Lemma find_in_bucket n b t :
  NoDup (map t_name b) -> t ∈ b -> t_name t = n ->
  exists pre post, find_tuple n b = (pre, Some t, post).
Proof.
  intros Hd Ht Hn. destruct (find_tuple n b) as [[pre r] post] eqn:E.
  apply find_tuple_spec in E as [Hp Hr]. destruct r as [t'|].
  - destruct Hr as [-> Hn']. exists pre, post. repeat f_equal.
    rewrite elem_of_app, elem_of_cons in Ht.
    rewrite map_app, NoDup_app in Hd. destruct Hd as (_ & _ & Hd). simpl in Hd.
    rewrite NoDup_cons in Hd. destruct Hd as [Hd _].
    destruct Ht as [Ht|[->|Ht]]; [|done|].
    + exfalso. apply Hp. rewrite <- Hn. by apply list_elem_of_fmap_2.
    + exfalso. apply Hd. rewrite Hn', <- Hn. by apply list_elem_of_fmap_2.
  - destruct Hr as [-> ->]. exfalso. apply Hp. rewrite <- Hn.
    by apply list_elem_of_fmap_2.
Qed.

Lemma elem_of_tables h t :
  nv_wf h -> t ∈ concat (nv_hash h) <-> t ∈ nv_bucket h (bucket (t_name t)).
Proof.
  intros Hw. rewrite elem_of_concat. split.
  - intros (i & b & Hi & Ht).
    destruct (proj2 Hw _ _ Hi) as [Hf _]. rewrite Forall_forall in Hf.
    rewrite (Hf _ Ht). unfold nv_bucket. by rewrite Hi.
  - intros Ht. exists (bucket (t_name t)), (nv_bucket h (bucket (t_name t))).
    split; [|done]. apply nv_bucket_lookup; [done|apply bucket_lt].
Qed.

Lemma NoDup_concat_buckets tbl k :
  (forall i b, tbl !! i = Some b -> bucket_ok (k + i) b) ->
  NoDup (map t_name (concat tbl)).
Proof.
  revert k. induction tbl as [|b tbl IH]; intros k H; simpl; [constructor|].
  rewrite map_app. apply NoDup_app. split_and!.
  - by apply (H O).
  - intros n Hn Hn'. apply list_elem_of_fmap in Hn as (t & -> & Ht).
    apply list_elem_of_fmap in Hn' as (t' & Hnn & Ht').
    apply elem_of_concat in Ht' as (i & b' & Hi & Ht').
    destruct (H (S i) b' Hi) as [Hf' _]. destruct (H O b eq_refl) as [Hf _].
    rewrite Forall_forall in Hf, Hf'. apply Hf in Ht. apply Hf' in Ht'. rewrite Hnn in Ht. lia.
  - apply (IH (S k)). intros i b' Hi.
    replace (S k + i)%nat with (k + S i)%nat by lia. by apply H.
Qed.

Lemma nv_wf_NoDup h : nv_wf h -> NoDup (map t_name (concat (nv_hash h))).
Proof. intros [_ H]. apply (NoDup_concat_buckets _ 0). auto. Qed.

Lemma tuple_pair_fst l : (map tuple_pair l).*1 = map t_name l.
Proof. exact (map_map tuple_pair fst l). Qed.

Lemma elem_of_tuple_pairs n v l : (n, v) ∈ map tuple_pair l <-> Tuple n v ∈ l.
Proof.
  rewrite list_elem_of_fmap. split.
  - intros ([n' v'] & Heq & Hin). unfold tuple_pair in Heq. simpl in Heq. by simplify_eq.
  - intros Hin. by exists (Tuple n v).
Qed.

(** The table lookup computes the lookup of the map it stands for. *)
Lemma nvram_get_abs h n : nv_wf h -> nvram_get h (Some n) = nv_abs h !! n.
Proof.
  intros Hw. unfold nvram_get. pose proof (nv_wf_bucket h n Hw) as [Hf Hd].
  pose proof (nv_wf_NoDup h Hw) as Hnd. rewrite <- tuple_pair_fst in Hnd.
  destruct (nv_abs h !! n) as [v|] eqn:E.
  - unfold nv_abs in E. apply elem_of_list_to_map_2 in E.
    rewrite elem_of_tuple_pairs, elem_of_tables in E by done. simpl in E.
    destruct (find_in_bucket n _ _ Hd E eq_refl) as (pre & post & ->). done.
  - destruct (find_tuple n (nv_bucket h (bucket n))) as [[pre [t|]] post] eqn:F; [|done].
    apply find_tuple_spec in F as [_ [Hb Hn]].
    apply not_elem_of_list_to_map_2 in E. exfalso. apply E.
    rewrite tuple_pair_fst, <- Hn. apply list_elem_of_fmap_2.
    rewrite elem_of_tables by done. rewrite Hn, Hb.
    rewrite elem_of_app, elem_of_cons. auto.
Qed.

Lemma nv_bucket_insert h i b d j :
  nv_wf h -> (i < Z.to_nat NVRAM_HASHSIZE)%nat ->
  nv_bucket (set_tables h (<[i:=b]> (nv_hash h)) d) j =
  if decide (i = j) then b else nv_bucket h j.
Proof.
  intros [Hl _] Hi. unfold nv_bucket. simpl. case_decide as Hij.
  - subst. by rewrite list_lookup_insert_eq by lia.
  - by rewrite list_lookup_insert_ne.
Qed.

Lemma nv_wf_insert h i b d :
  nv_wf h -> bucket_ok i b -> nv_wf (set_tables h (<[i:=b]> (nv_hash h)) d).
Proof.
  intros [Hl Hb] Hok. split; simpl; [by rewrite length_insert|].
  intros j b' Hj. apply list_lookup_insert_Some in Hj as [(-> & -> & _)|[_ Hj]]; auto.
Qed.

Lemma bucket_ok_replace n pre t post v :
  bucket_ok (bucket n) (pre ++ t :: post) -> t_name t = n ->
  bucket_ok (bucket n) (pre ++ Tuple n v :: post).
Proof.
  unfold bucket_ok. rewrite !Forall_app, !Forall_cons, !map_app. simpl.
  intros [(H1 & H2 & H3) H4] <-. simpl in *. tauto.
Qed.

Lemma bucket_ok_push n b v :
  bucket_ok (bucket n) b -> n ∉ map t_name b -> bucket_ok (bucket n) (Tuple n v :: b).
Proof.
  intros [Hf Hd] Hn. split; simpl; [by constructor|]. by constructor.
Qed.

Lemma bucket_ok_remove i pre t post :
  bucket_ok i (pre ++ t :: post) -> bucket_ok i (pre ++ post).
Proof.
  unfold bucket_ok. rewrite !Forall_app, !Forall_cons, !map_app, !NoDup_app. simpl.
  rewrite NoDup_cons. intros [(? & ? & ?) (? & Hx & ? & ?)].
  split_and!; try done. intros x Hx1 Hx2. apply (Hx x Hx1). by right.
Qed.

(** [_nvram_realloc] hands back the tuple it was given, or a new one. *)
Lemma nvram_set_cases h n v :
  let '(pre, t, post) := find_tuple n (nv_bucket h (bucket n)) in
  nvram_set h n v =
  if Z.of_nat (strlen v) + 1 >? u32 (nv_length h - nv_offset h) then (h, -12)
  else (set_tables h (<[bucket n :=
          match t with
          | Some _ => pre ++ Tuple n v :: post
          | None => Tuple n v :: nv_bucket h (bucket n)
          end]> (nv_hash h)) (nv_dead h), 0).
Proof.
  destruct (find_tuple n (nv_bucket h (bucket n))) as [[pre t] post] eqn:F.
  pose proof (find_tuple_spec _ _ _ _ _ F) as [Hp Ht].
  unfold nvram_set, _nvram_realloc. rewrite F.
  destruct (_ >? _); [done|]. destruct t as [[n' v']|].
  - destruct Ht as [_ Hn]. simpl in *. subst n'. by case_decide; subst.
  - destruct Ht as [-> ->]. by rewrite app_nil_r.
Qed.

Lemma nvram_set_wf h n v : nv_wf h -> nv_wf (nvram_set h n v).1.
Proof.
  intros Hw. pose proof (nvram_set_cases h n v) as Hc.
  destruct (find_tuple n (nv_bucket h (bucket n))) as [[pre t] post] eqn:F.
  apply find_tuple_spec in F as [Hp Ht]. rewrite Hc.
  destruct (_ >? _); [done|]. apply nv_wf_insert; [done|].
  pose proof (nv_wf_bucket h n Hw) as Hok. destruct t as [t|].
  - destruct Ht as [Hb Hn]. rewrite Hb in Hok. by eapply bucket_ok_replace.
  - destruct Ht as [Hb ->]. apply bucket_ok_push; [done|]. by rewrite Hb.
Qed.

Lemma find_tuple_app n pre l :
  n ∉ map t_name pre ->
  find_tuple n (pre ++ l) = let '(a, r, b) := find_tuple n l in (pre ++ a, r, b).
Proof.
  induction pre as [|t pre IH]; simpl; intros H.
  - by destruct (find_tuple n l) as [[? ?] ?].
  - rewrite not_elem_of_cons in H. destruct H as [Hn H].
    rewrite decide_False by congruence. rewrite IH by done.
    by destruct (find_tuple n l) as [[? ?] ?].
Qed.

Lemma find_tuple_value_ne n m v t pre post :
  n <> m -> t_name t = n ->
  (find_tuple m (pre ++ Tuple n v :: post)).1.2 = (find_tuple m (pre ++ t :: post)).1.2.
Proof.
  intros Hne Ht. induction pre as [|x pre IH]; simpl.
  - rewrite !decide_False by congruence.
    by destruct (find_tuple m post) as [[? ?] ?].
  - case_decide; [done|].
    destruct (find_tuple m (pre ++ Tuple n v :: post)) as [[? ?] ?].
    by destruct (find_tuple m (pre ++ t :: post)) as [[? ?] ?].
Qed.

Lemma nvram_get_fst h n :
  nvram_get h (Some n) = t_value <$> (find_tuple n (nv_bucket h (bucket n))).1.2.
Proof. simpl. by destruct (find_tuple n _) as [[? ?] ?]. Qed.

Lemma nvram_set_get h n v m :
  nv_wf h -> fits h v ->
  nvram_get (nvram_set h n v).1 (Some m) =
  if decide (n = m) then Some v else nvram_get h (Some m).
Proof.
  intros Hw Hf. unfold fits in Hf. pose proof (nvram_set_cases h n v) as Hc.
  rewrite !nvram_get_fst.
  destruct (find_tuple n (nv_bucket h (bucket n))) as [[pre t] post] eqn:F.
  pose proof (find_tuple_spec _ _ _ _ _ F) as [Hp Ht]. rewrite Hc.
  destruct (_ >? _) eqn:Hgt; [b2p; lia|]. cbn [fst].
  rewrite nv_bucket_insert by (done || apply bucket_lt).
  destruct (decide (n = m)) as [<-|Hnm].
  - rewrite decide_True by done. destruct t as [t|]; simpl.
    + rewrite find_tuple_app by done. simpl. by rewrite decide_True.
    + by rewrite decide_True.
  - case_decide as Hbm; [|done]. rewrite <- Hbm. destruct t as [t|].
    + destruct Ht as [Hb Htn]. rewrite Hb. by rewrite (find_tuple_value_ne _ _ _ t).
    + simpl. rewrite decide_False by done.
      by destruct (find_tuple m (nv_bucket h (bucket n))) as [[? ?] ?].
Qed.

Lemma nvram_set_abs h n v :
  nv_wf h -> fits h v -> nv_abs (nvram_set h n v).1 = <[n:=v]> (nv_abs h).
Proof.
  intros Hw Hf. apply map_eq. intros m.
  rewrite <- nvram_get_abs by by apply nvram_set_wf.
  rewrite nvram_set_get by done. rewrite lookup_insert. case_decide; [done|].
  by rewrite nvram_get_abs.
Qed.

Lemma nvram_set_rc h n v : fits h v <-> (nvram_set h n v).2 = 0.
Proof.
  pose proof (nvram_set_cases h n v) as Hc.
  destruct (find_tuple n _) as [[pre t] post]. rewrite Hc. unfold fits.
  destruct (_ >? _) eqn:E; b2p; simpl; split; intros; try done; lia.
Qed.

Lemma nvram_set_nofit h n v : ~ fits h v -> nvram_set h n v = (h, -12).
Proof.
  pose proof (nvram_set_cases h n v) as Hc.
  destruct (find_tuple n _) as [[pre t] post]. unfold fits in *. intros Hf.
  rewrite Hc. destruct (_ >? _) eqn:E; b2p; [done|lia].
Qed.

Lemma nvram_unset_wf h n : nv_wf h -> nv_wf (nvram_unset h n).1.
Proof.
  intros Hw. destruct n as [n|]; [|done]. unfold nvram_unset.
  destruct (find_tuple n _) as [[pre [t|]] post] eqn:F; [|done].
  apply find_tuple_spec in F as [Hp [Hb Hn]]. apply nv_wf_insert; [done|].
  pose proof (nv_wf_bucket h n Hw) as Hok. rewrite Hb in Hok.
  by eapply bucket_ok_remove.
Qed.

Lemma find_tuple_not_in n l : n ∉ map t_name l -> (find_tuple n l).1.2 = None.
Proof.
  intros Hn. destruct (find_tuple n l) as [[pre [t|]] post] eqn:F; [|done].
  apply find_tuple_spec in F as [_ [-> <-]]. exfalso. apply Hn.
  rewrite map_app, elem_of_app. right. by left.
Qed.

Lemma find_tuple_remove_ne m t pre post :
  t_name t <> m ->
  (find_tuple m (pre ++ post)).1.2 = (find_tuple m (pre ++ t :: post)).1.2.
Proof.
  intros Hne. induction pre as [|x pre IH]; simpl.
  - rewrite decide_False by done. by destruct (find_tuple m post) as [[? ?] ?].
  - case_decide; [done|].
    destruct (find_tuple m (pre ++ post)) as [[? ?] ?].
    by destruct (find_tuple m (pre ++ t :: post)) as [[? ?] ?].
Qed.

Lemma nvram_unset_get h n m :
  nv_wf h ->
  nvram_get (nvram_unset h (Some n)).1 (Some m) =
  if decide (n = m) then None else nvram_get h (Some m).
Proof.
  intros Hw. rewrite !nvram_get_fst. unfold Nvram.nvram_unset.
  destruct (find_tuple n (nv_bucket h (bucket n))) as [[pre t] post] eqn:F.
  pose proof (find_tuple_spec _ _ _ _ _ F) as [Hp Ht].
  pose proof (nv_wf_bucket h n Hw) as [_ Hd].
  destruct t as [t|].
  - destruct Ht as [Hb Hn]. cbn [fst].
    rewrite nv_bucket_insert by (done || apply bucket_lt).
    destruct (decide (n = m)) as [<-|Hnm]; [|case_decide as Hbm; [|done]].
    + rewrite decide_True by done. rewrite find_tuple_not_in; [done|]. rewrite Hb in Hd.
      rewrite map_app, NoDup_app in Hd. simpl in Hd. rewrite NoDup_cons in Hd.
      rewrite map_app, not_elem_of_app. naive_solver.
    + rewrite <- Hbm, Hb. by rewrite <- find_tuple_remove_ne by congruence.
  - destruct Ht as [Hb ->]. case_decide; [|done]. subst. simpl. by rewrite F.
Qed.

Lemma nvram_unset_abs h n :
  nv_wf h -> nv_abs (nvram_unset h (Some n)).1 = delete n (nv_abs h).
Proof.
  intros Hw. apply map_eq. intros m.
  rewrite <- nvram_get_abs by by apply nvram_unset_wf.
  rewrite nvram_unset_get by done. rewrite lookup_delete. case_decide; [done|].
  by rewrite nvram_get_abs.
Qed.
End Facts.
