(* ===== verification/NvramCommit.v ===== *)
(** * nvram: the image written by [nvram_commit]

    What the tuple writer leaves in the mapping, what the scanner reads back
    from it, and the bounds of every access in between. *)
From stdpp Require Import gmap options.
From S2P Require Import Prelude CLib Nvram NvramFacts.

Lemma length_tuple_bytes t :
  length (tuple_bytes t) = (strlen (t_name t) + 1 + strlen (t_value t) + 1)%nat.
Proof. unfold tuple_bytes, strlen. slen. Qed.

Lemma tuples_bytes_app a b : tuples_bytes (a ++ b) = tuples_bytes a ++ tuples_bytes b.
Proof. unfold tuples_bytes. by rewrite map_app, concat_app. Qed.

Lemma tuples_bytes_cons t ts : tuples_bytes (t :: ts) = tuple_bytes t ++ tuples_bytes ts.
Proof. done. Qed.

(** ** The writer *)

(** [ts] is what reaches the image from [l]: all of it when it fits. *)
Definition written (m : list Z) (ptr end_ : nat) (l ts : list nvram_tuple)
    (res : option (list Z * nat)) : Prop :=
  exists m', res = Some (m', (ptr + length (tuples_bytes ts))%nat) /\
    mem_write m ptr (tuples_bytes ts) = Some m' /\
    (ptr + length (tuples_bytes ts) <= end_)%nat /\
    ((ptr + length (tuples_bytes l) <= end_)%nat -> ts = l).

Lemma write_bucket_spec l m ptr end_ :
  (ptr <= end_ <= length m)%nat ->
  exists ts, ts `prefix_of` l /\ written m ptr end_ l ts (write_bucket m ptr end_ l).
Proof.
  revert m ptr. induction l as [|t l IH]; intros m ptr Hp; simpl.
  { exists []. split; [done|]. exists m. cbn. rewrite Nat.add_0_r.
    split_and!; auto; [|lia]. apply mem_write_nil. lia. }
  pose proof (length_tuple_bytes t) as Hlt.
  case_decide as Hd.
  - exists []. split; [apply prefix_nil|]. exists m. cbn. rewrite Nat.add_0_r.
    split_and!; auto; [apply mem_write_nil; lia|lia|].
    rewrite length_app. lia.
  - destruct (mem_write_some m ptr (tuple_bytes t)) as [m1 Hm1]; [lia|].
    rewrite Hm1. cbn [mbind option_bind].
    pose proof (mem_write_length _ _ _ _ Hm1) as Hl.
    destruct (IH m1 (ptr + length (tuple_bytes t))%nat) as (ts & Hpre & m' & H1 & H2 & H3 & H4);
      [lia|].
    exists (t :: ts). split; [by apply prefix_cons|]. exists m'.
    rewrite tuples_bytes_cons, length_app, Nat.add_assoc. split_and!; auto.
    + apply mem_write_app. eauto.
    + rewrite tuples_bytes_cons, length_app. intros. f_equal. apply H4. lia.
Qed.

Lemma write_table_spec tbl m ptr end_ :
  (ptr <= end_ <= length m)%nat ->
  exists ts, ts `sublist_of` concat tbl /\
    written m ptr end_ (concat tbl) ts (write_table m ptr end_ tbl).
Proof.
  revert m ptr. induction tbl as [|b tbl IH]; intros m ptr Hp; simpl.
  { exists []. split; [done|]. exists m. cbn. rewrite Nat.add_0_r.
    split_and!; auto; [apply mem_write_nil|]; lia. }
  destruct (write_bucket_spec b m ptr end_ Hp) as (ts1 & Hpre1 & m1 & -> & Hw1 & He1 & Ha1).
  cbn [mbind option_bind]. pose proof (mem_write_length _ _ _ _ Hw1) as Hl.
  destruct (IH m1 (ptr + length (tuples_bytes ts1))%nat)
    as (ts2 & Hsub & m2 & -> & Hw2 & He2 & Ha2); [lia|].
  exists (ts1 ++ ts2). split.
  { destruct Hpre1 as [k ->]. apply sublist_app; [by apply sublist_inserts_r|done]. }
  exists m2. rewrite !tuples_bytes_app, !length_app. split_and!; [f_equal; f_equal; lia| |lia|].
  - apply mem_write_app. eauto.
  - intros. rewrite Ha1 in Ha2 by lia. by rewrite Ha1, Ha2 by lia.
Qed.

(** ** The scanner *)

Section Scan.
Context (char_signed : bool) (e : endian) (ulong_w : Z) (base : Z).

#[local] Notation nvram_set := (nvram_set char_signed ulong_w) (only parsing).
#[local] Notation nv_wf := (nv_wf char_signed ulong_w) (only parsing).
#[local] Notation set_if_unset := (set_if_unset char_signed ulong_w) (only parsing).

Definition load (h : nvram_handle) (ts : list nvram_tuple) : nvram_handle :=
  fold_left (fun h t => (nvram_set h (t_name t) (t_value t)).1) ts h.

Lemma rehash_loop_spec ts h r fuel :
  Forall clean_tuple ts -> (length ts < fuel)%nat ->
  rehash_loop char_signed ulong_w fuel h (tuples_bytes ts ++ 0 :: r) = Some (load h ts).
Proof.
  intros Hc. revert h fuel. induction Hc as [|t ts (Hn & Hne & Hv) _ IH];
    intros h fuel Hf; (destruct fuel as [|fuel]; [simpl in Hf; lia|]); [done|].
  cbn [rehash_loop]. rewrite tuples_bytes_cons. unfold tuple_bytes.
  rewrite <- !app_assoc. cbn [app]. rewrite <- !app_assoc. cbn [app].
  change (t_name t ++ 61 :: t_value t ++ 0 :: tuples_bytes ts ++ 0 :: r) with
    (t_name t ++ (61 :: t_value t) ++ 0 :: tuples_bytes ts ++ 0 :: r).
  rewrite app_assoc.
  rewrite c_string_app by (apply Forall_app; split; [done|by constructor]).
  cbn [mbind option_bind]. rewrite str_split_app by done.
  destruct ((t_name t ++ 61 :: t_value t) ++ 0 :: tuples_bytes ts ++ 0 :: r)
    as [|c l] eqn:E.
  { destruct (t_name t); done. }
  assert (c <> 0).
  { destruct (t_name t) as [|x l']; simpl in E; simplify_eq; [done|].
    by inversion Hn. }
  rewrite (proj2 (Z.eqb_neq _ _)) by done. apply IH. simpl in Hf. lia.
Qed.

Lemma set_frame h n v :
  nv_length (nvram_set h n v).1 = nv_length h /\
  nv_offset (nvram_set h n v).1 = nv_offset h /\
  nv_mmap (nvram_set h n v).1 = nv_mmap h.
Proof.
  unfold nvram_set. destruct (find_tuple _ _) as [[pre [t|]] post];
    by destruct (_nvram_realloc h _ n v).
Qed.

Lemma load_frame ts h :
  nv_length (load h ts) = nv_length h /\ nv_offset (load h ts) = nv_offset h /\
  nv_mmap (load h ts) = nv_mmap h.
Proof.
  revert h. induction ts as [|t ts IH]; intros h; [done|].
  unfold load. cbn [fold_left]. destruct (set_frame h (t_name t) (t_value t)) as (<- & <- & <-).
  apply IH.
Qed.

Lemma load_wf ts h : nv_wf h -> nv_wf (load h ts).
Proof. revert h. induction ts; simpl; auto using nvram_set_wf. Qed.

Lemma load_abs ts h :
  nv_wf h -> Forall (fun t => fits h (t_value t)) ts -> NoDup (map t_name ts) ->
  nv_abs (load h ts) = list_to_map (map tuple_pair ts) ∪ nv_abs h.
Proof.
  revert h. induction ts as [|t ts IH]; intros h Hw Hf Hd; simpl.
  { by rewrite (left_id_L ∅ (∪)). }
  inversion Hf as [|? ? Ht Hts]; subst. simpl in Hd. apply NoDup_cons in Hd as [Hn Hd].
  rewrite IH; [|by apply nvram_set_wf| |done].
  - rewrite nvram_set_abs by done. rewrite <- insert_union_l, insert_union_r; [done|].
    apply not_elem_of_list_to_map_1. by rewrite tuple_pair_fst.
  - eapply Forall_impl; [exact Hts|]. intros x. unfold fits.
    by destruct (set_frame h (t_name t) (t_value t)) as (-> & -> & _).
Qed.

Lemma free_abs h : nv_abs (_nvram_free h) = ∅.
Proof.
  unfold nv_abs, _nvram_free. simpl. by induction (length (nv_hash h)).
Qed.

Lemma free_wf h : length (nv_hash h) = Z.to_nat NVRAM_HASHSIZE -> nv_wf (_nvram_free h).
Proof.
  intros Hl. split; simpl; [by rewrite length_replicate|].
  intros i b Hb. apply lookup_replicate in Hb as [-> _]. split; constructor.
Qed.

(** [set_if_unset] only ever adds its own name. *)
Definition extends (names : list cstr) (h h' : nvram_handle) : Prop :=
  nv_wf h' /\ nv_mmap h' = nv_mmap h /\ nv_length h' = nv_length h /\
  nv_offset h' = nv_offset h /\
  (forall n v, nv_abs h !! n = Some v -> nv_abs h' !! n = Some v) /\
  (forall n, n ∉ names -> nv_abs h' !! n = nv_abs h !! n).

Lemma extends_refl h names : nv_wf h -> extends names h h.
Proof. done. Qed.

Lemma extends_trans names h1 h2 h3 :
  extends names h1 h2 -> extends names h2 h3 -> extends names h1 h3.
Proof.
  intros (? & E1 & E2 & E3 & ? & G1) (? & F1 & F2 & F3 & ? & G2).
  split_and!; try congruence; auto. intros n Hn. by rewrite G2, G1.
Qed.

Lemma set_if_unset_extends names h n v :
  nv_wf h -> n ∈ names -> extends names h (set_if_unset h n v).
Proof.
  intros Hw Hn. unfold Nvram.set_if_unset. rewrite nvram_get_abs by done.
  destruct (nv_abs h !! n) as [w|] eqn:E; [by apply extends_refl|].
  destruct (set_frame h n v) as (E1 & E2 & E3).
  destruct (decide (fits h v)) as [Hf|Hf].
  - split_and!; auto using nvram_set_wf; rewrite nvram_set_abs by done.
    + intros m w Hm. rewrite lookup_insert_ne; [done|]. congruence.
    + intros m Hm. rewrite lookup_insert_ne; [done|]. by intros ->.
  - rewrite nvram_set_nofit by done. by apply extends_refl.
Qed.

Lemma set_if_unset_mmap h n v : nv_mmap (set_if_unset h n v) = nv_mmap h.
Proof.
  unfold Nvram.set_if_unset. destruct (nvram_get char_signed ulong_w h (Some n)); [done|].
  apply set_frame.
Qed.

Lemma rehash_loop_mmap fuel h r h' :
  rehash_loop char_signed ulong_w fuel h r = Some h' -> nv_mmap h' = nv_mmap h.
Proof.
  revert h r. induction fuel as [|f IH]; intros h r H; [done|]. cbn [rehash_loop] in H.
  destruct r as [|c r]; [done|]. destruct (c =? 0); [by simplify_eq|].
  destruct (c_string (c :: r)) as [[s r']|]; [|done]. cbn [mbind option_bind] in H.
  destruct (str_split 61 s) as [[n v]|]; [|by simplify_eq].
  apply IH in H. rewrite H. apply set_frame.
Qed.

(** The rescan leaves the mapping as it is. *)
Lemma rehash_mmap h h' : _nvram_rehash char_signed e ulong_w h = Some h' -> nv_mmap h' = nv_mmap h.
Proof.
  unfold Nvram._nvram_rehash. intros H.
  destruct (rehash_loop _ _ _ _) as [h1|] eqn:E1; [|done]. cbn [mbind option_bind] in H.
  apply rehash_loop_mmap in E1.
  do 3 apply bind_Some in H as (? & _ & H).
  simplify_eq. by rewrite !set_if_unset_mmap, E1.
Qed.

(** The rescan of an image that holds the tuples [ts]. *)
Lemma rehash_spec h ts rest :
  length (nv_hash h) = Z.to_nat NVRAM_HASHSIZE ->
  (header_pos h + NVRAM_HEADER_SIZE <= length (nv_mmap h))%nat ->
  drop (header_pos h + NVRAM_HEADER_SIZE) (nv_mmap h) = tuples_bytes ts ++ 0 :: rest ->
  Forall clean_tuple ts -> Forall (fun t => fits h (t_value t)) ts ->
  NoDup (map t_name ts) ->
  exists h', _nvram_rehash char_signed e ulong_w h = Some h' /\
    extends sdram_names (load (_nvram_free h) ts) h' /\
    nv_abs (load (_nvram_free h) ts) = list_to_map (map tuple_pair ts).
Proof.
  intros Hl Hp Hm Hc Hf Hd. unfold Nvram._nvram_rehash.
  change (header_pos (_nvram_free h)) with (header_pos h).
  change (nv_mmap (_nvram_free h)) with (nv_mmap h).
  rewrite Hm, rehash_loop_spec; [|done|].
  2:{ apply (f_equal length) in Hm. rewrite length_drop, length_app in Hm.
      assert (length ts <= length (tuples_bytes ts))%nat; [|simpl in *; lia].
      clear. induction ts as [|t ts IH]; [done|].
      rewrite tuples_bytes_cons, length_app, length_tuple_bytes. simpl. lia. }
  cbn [mbind option_bind].
  destruct (load_frame ts (_nvram_free h)) as (_ & _ & Hmm). rewrite Hmm.
  change (nv_mmap (_nvram_free h)) with (nv_mmap h).
  unfold get32, mem_read. unfold NVRAM_HEADER_SIZE in Hp.
  rewrite !decide_True by lia. cbn [mbind option_bind].
  eexists. split; [done|]. split.
  - pose proof (load_wf ts _ (free_wf h Hl)) as Hw.
    eapply extends_trans; [apply (set_if_unset_extends _ _ (str "sdram_init")); [done|set_solver]|].
    eapply extends_trans; [eapply (set_if_unset_extends _ _ (str "sdram_config")); [|set_solver]|].
    { by apply (set_if_unset_extends sdram_names); [|set_solver]. }
    eapply extends_trans; [eapply (set_if_unset_extends _ _ (str "sdram_refresh")); [|set_solver]|].
    { apply (set_if_unset_extends sdram_names); [|set_solver].
      by apply (set_if_unset_extends sdram_names); [|set_solver]. }
    apply set_if_unset_extends; [|set_solver].
    apply (set_if_unset_extends sdram_names); [|set_solver].
    apply (set_if_unset_extends sdram_names); [|set_solver].
    by apply (set_if_unset_extends sdram_names); [|set_solver].
  - rewrite load_abs; [|by apply free_wf|done|done].
    by rewrite free_abs, (right_id_L ∅ (∪)).
Qed.
End Scan.

(** ** CRC *)

Lemma hndcrc8_app a b c : hndcrc8 (a ++ b) c = hndcrc8 b (hndcrc8 a c).
Proof. revert c. induction a; simpl; auto. Qed.

Lemma crc8_step_range c b : is_word 8 (crc8_step c b).
Proof.
  unfold crc8_step.
  assert (Forall (is_word 8) crc8_table) as Ht by (vm_compute; repeat constructor; done).
  destruct (decide (Z.to_nat (Z.land (Z.lxor c b) 0xff) < length crc8_table)%nat).
  - rewrite Forall_forall in Ht. apply Ht. rewrite list_elem_of_In. by apply nth_In.
  - rewrite nth_overflow by lia. done.
Qed.

Lemma hndcrc8_range l c : is_word 8 c -> is_word 8 (hndcrc8 l c).
Proof. revert c. induction l; simpl; auto using crc8_step_range. Qed.

(** ** The whole commit *)

(** What [nvram_open] establishes about a handle, and the placement of the
    mapping: an address range that [int] represents without sign change. *)
Record commit_pre (base : Z) (size : nat) (h : nvram_handle) : Prop := {
  cp_len : length (nv_mmap h) = size;
  cp_length : nv_length h = Z.of_nat size;
  cp_offset : 0 <= nv_offset h;
  cp_room : (header_pos h + NVRAM_HEADER_SIZE + 2 <= size)%nat;
  cp_align_p : nv_offset h mod 4 = 0;
  cp_align_s : Z.of_nat size mod 4 = 0;
  cp_align_b : base mod 4 = 0;
  cp_addr : 0 <= base /\ base + Z.of_nat size <= 2 ^ 31 }.

Lemma pad_in_bounds base size ptr :
  Z.of_nat size mod 4 = 0 -> base mod 4 = 0 ->
  0 <= base /\ base + Z.of_nat size <= 2 ^ 31 -> (ptr < size)%nat ->
  let r := Z.rem (s32 (base + Z.of_nat ptr)) 4 in
  0 <= r < 4 /\ (r <> 0 -> (ptr + Z.to_nat (4 - r) <= size)%nat).
Proof.
  intros Hs Hb [Hb0 Hb1] Hp r.
  assert (r = (base + Z.of_nat ptr) mod 4) as Hr.
  { subst r. unfold s32, signed. rewrite wrap_small by (unfold is_word; lia).
    rewrite (proj2 (Z.ltb_lt _ _)) by lia. apply Z.rem_mod_nonneg; lia. }
  rewrite Hr. clear Hr r.
  split; [apply Z.mod_pos_bound; lia|]. intros. dlia.
Qed.

Lemma roundup4_bounds x :
  x <= NVRAM_ROUNDUP x 4 < x + 4 /\ NVRAM_ROUNDUP x 4 mod 4 = 0.
Proof. unfold NVRAM_ROUNDUP. rewrite Z.mod_mul by lia. dlia. Qed.

Lemma commit_words_low h char_signed ulong_w cvi cr cn :
  commit_words char_signed ulong_w h = (cvi, cr, cn) ->
  is_word 32 cvi /\ cvi mod 256 = 0.
Proof.
  assert (forall x, is_word 32 (u32 (Z.lor (u32 (Z.shiftl NVRAM_VERSION 8)) (Z.shiftl x 16)))
    /\ u32 (Z.lor (u32 (Z.shiftl NVRAM_VERSION 8)) (Z.shiftl x 16)) mod 256 = 0) as Hx.
  { intros x. split; [by apply wrap_range|].
    rewrite lor_disjoint_add by done.
    change (u32 (Z.shiftl NVRAM_VERSION 8)) with 256. unfold u32, wrap. dlia. }
  unfold commit_words. intros H.
  repeat dmatch_in H; simplify_eq; apply Hx.
Qed.

Lemma enc_crc_byte cvi crc :
  cvi mod 256 = 0 -> is_word 8 crc ->
  enc LE 4 (Z.lor cvi crc) = crc :: drop 1 (enc LE 4 cvi).
Proof.
  intros Hc Hw. unfold is_word in Hw.
  assert (Z.lor cvi crc = crc + (cvi / 256) * 256) as ->.
  { rewrite Z.lor_comm. change 256 with (2 ^ 8) at 2. rewrite <- (lor_disjoint_add _ _ 8) by lia.
    f_equal. rewrite Z.shiftl_mul_pow2 by lia. dlia. }
  cbn [enc le_bytes drop]. rewrite Z.mod_add, Z.div_add, (Z.mod_small crc), (Z.div_small crc) by lia.
  by rewrite Z.add_0_l.
Qed.

(** The stored CRC byte equals the one [nvram info] recomputes. *)
Definition image_crc_ok (m : list Z) (p : nat) : Prop :=
  exists len cvi data,
    get32 LE m (p + 4) = Some len /\ get32 LE m (p + 8) = Some cvi /\
    mem_read m (p + NVRAM_CRC_START_POSITION)
      (Z.to_nat len - NVRAM_CRC_START_POSITION) = Some data /\
    Z.land cvi 0xFF = hndcrc8 data 0xff.

(** The header and data of a finished image determine the CRC test. *)
Lemma image_crc_intro m p len cvi cr cn data crc :
  22 <= len < 2 ^ 32 -> cvi mod 256 = 0 -> is_word 32 cvi ->
  get32 LE m (p + 4) = Some len ->
  mem_read m (p + 8) 4 = Some (enc LE 4 (Z.lor cvi crc)) ->
  mem_read m (p + 12) 4 = Some (enc LE 4 cr) ->
  mem_read m (p + 16) 4 = Some (enc LE 4 cn) ->
  mem_read m (p + 20) (Z.to_nat len - 20) = Some data ->
  crc = hndcrc8 data (hndcrc8
          (drop 9 (replicate 8 0 ++ enc LE 4 cvi ++ enc LE 4 cr ++ enc LE 4 cn)) 0xff) ->
  image_crc_ok m p.
Proof.
  intros Hlen Hlow Hcvi Hl H8 H12 H16 Hd Hcrc.
  assert (is_word 8 crc) as Hr by (subst crc; do 2 apply hndcrc8_range; done).
  rewrite enc_crc_byte in H8 by done.
  pose proof (mem_read_app _ _ _ _ _ _ H8 ltac:(by rewrite <- Nat.add_assoc)) as H8a.
  pose proof (mem_read_app _ _ _ _ _ _ H8a ltac:(by rewrite <- Nat.add_assoc)) as Hh.
  pose proof (mem_read_sub _ _ _ 1 11 _ Hh ltac:(lia)) as H9.
  rewrite <- Nat.add_assoc in H9. cbn [Nat.add] in H9.
  pose proof (mem_read_app m (p + 9) 11 _ _ data H9 ltac:(by rewrite <- Nat.add_assoc)) as Ha.
  exists len, (Z.lor cvi crc). eexists. split_and!; [done| | |].
  - unfold get32. rewrite H8. cbn [mbind option_bind]. f_equal.
    rewrite <- enc_crc_byte, dec_enc by done.
    change (256 ^ Z.of_nat 4) with (2 ^ 32). apply Z.mod_small.
    apply is_word_lor; [done|done|]. by apply (is_word_mono 8).
  - unfold NVRAM_CRC_START_POSITION.
    replace (Z.to_nat len - 9)%nat with (11 + (Z.to_nat len - 20))%nat by lia. exact Ha.
  - rewrite hndcrc8_app. unfold is_word in Hr.
    change 0xFF with (Z.ones 8) at 1. rewrite Z.land_ones by lia.
    assert (Z.lor cvi crc mod 2 ^ 8 = crc) as ->.
    { rewrite <- Z.land_ones, Z.land_lor_distr_l, !Z.land_ones by lia.
      change (2 ^ 8) with 256. rewrite Hlow, Z.lor_0_l. apply Z.mod_small. lia. }
    exact Hcrc.
Qed.

(** Performs the next write of a chain, keeping the length of the buffer. *)
Ltac wstep m H :=
  match goal with
  | |- context [mem_write ?m0 ?p ?bs ≫= _] =>
      let L := fresh "L" in
      destruct (mem_write_some m0 p bs) as [m H];
      [slen|rewrite H; cbn [mbind option_bind];
            pose proof (mem_write_length _ _ _ _ H) as L]
  end.

(** Moves a read back over a write to another place. *)
Ltac rskip H := rewrite (mem_read_write_ne _ _ _ _ _ _ H) by slen.

Section Commit.
Context (char_signed : bool) (e : endian) (ulong_w : Z) (base : Z).

(** The padding is a run of zero bytes, possibly none. *)
Lemma pad_write m q r :
  (q <= length m)%nat -> (r <> 0 -> (q + Z.to_nat (4 - r) <= length m)%nat) ->
  exists m' k, (if r =? 0 then Some m else mem_write m q (replicate (Z.to_nat (4 - r)) 0)) = Some m' /\
    mem_write m q (replicate k 0) = Some m'.
Proof.
  intros Hq Hpad. destruct (Z.eqb_spec r 0) as [|Hr].
  - exists m, O. split; [done|]. by apply mem_write_nil.
  - destruct (mem_write_some m q (replicate (Z.to_nat (4 - r)) 0)) as [m' H'].
    { rewrite length_replicate. by apply Hpad. }
    eauto.
Qed.

Lemma commit_image size h :
  commit_pre base size h ->
  exists m ts rest,
    nvram_commit char_signed e ulong_w base size h =
      _nvram_rehash char_signed e ulong_w (set_mmap h m) /\
    length m = size /\ ts `sublist_of` concat (nv_hash h) /\
    ((header_pos h + NVRAM_HEADER_SIZE
        + length (tuples_bytes (concat (nv_hash h))) + 2 <= size)%nat ->
     ts = concat (nv_hash h)) /\
    (header_pos h + NVRAM_HEADER_SIZE + length (tuples_bytes ts) + 2 <= size)%nat /\
    drop (header_pos h + NVRAM_HEADER_SIZE) m = tuples_bytes ts ++ 0 :: rest /\
    (e = LE -> image_crc_ok m (header_pos h)) /\
    get32 e m (header_pos h) = Some NVRAM_MAGIC /\
    (exists len, get32 e m (header_pos h + 4) = Some len /\
       len < Z.of_nat (NVRAM_HEADER_SIZE + length (tuples_bytes ts) + 6)) /\
    (forall q n, (q + n <= header_pos h)%nat -> mem_read m q n = mem_read (nv_mmap h) q n).
Proof.
  intros [Hm Hlen Hoff Hroom Hap Has Hab Haddr]. unfold nvram_commit.
  unfold NVRAM_HEADER_SIZE in *. set (p := header_pos h) in *.
  assert (Z.of_nat p mod 4 = 0) as Hp4 by (subst p; unfold header_pos; by rewrite Z2Nat.id).
  destruct (commit_words char_signed ulong_w h) as [[cvi cr] cn] eqn:Ecw.
  apply commit_words_low in Ecw as [Hcw Hlow].
  unfold put32, mem_set. rewrite <- Hm in *.
  wstep m1 H1. wstep m2 H2. wstep m3 H3. wstep m4 H4. wstep m5 H5.
  destruct (write_table_spec (nv_hash h) m5 (p + 20) (p + length (nv_mmap h) - p - 2))
    as (ts & Hsub & m6 & -> & Hw6 & He & Hall); [lia|].
  cbn [mbind option_bind]. set (q := (p + 20 + length (tuples_bytes ts))%nat) in *.
  pose proof (mem_write_length _ _ _ _ Hw6) as L6.
  wstep m7 H7.
  assert (mem_write m5 (p + 20) (tuples_bytes ts ++ [0]) = Some m7) as Hw7
    by (apply mem_write_app; eauto).
  destruct (pad_in_bounds base (length (nv_mmap h)) (S q)) as [Hr Hpad]; [done..|lia|].
  cbn zeta. set (r := Z.rem (s32 (base + Z.of_nat (S q))) 4) in *.
  destruct (pad_write m7 (S q) r) as (m8 & k & E8 & H8);
    [lia|intros Hr0; specialize (Hpad Hr0); lia|].
  rewrite E8. cbn [mbind option_bind]. pose proof (mem_write_length _ _ _ _ H8) as L8.
  pose proof (roundup4_bounds (Z.of_nat (S (S q)) - Z.of_nat p)) as [Hlb Hl4].
  set (len := NVRAM_ROUNDUP (Z.of_nat (S (S q)) - Z.of_nat p) 4) in *.
  assert (Z.of_nat p + len <= Z.of_nat (length (nv_mmap h))) as Hend by dlia.
  wstep m9 H9.
  destruct (mem_read m9 (p + 20) (Z.to_nat len - 20)) as [data|] eqn:Hdata.
  2:{ unfold mem_read in Hdata. case_decide as Hd; [done|]. lia. }
  cbn [mbind option_bind].
  wstep m10 H10.
  assert (mem_read m10 (p + 20) (length (tuples_bytes ts ++ [0])) =
          Some (tuples_bytes ts ++ [0])) as Hread.
  { rskip H10. rskip H9. rskip H8. by apply mem_read_write_eq in Hw7. }
  exists m10, ts, (drop (p + 20 + length (tuples_bytes ts ++ [0])) m10).
  assert (get32 e m10 (p + 4) = Some len) as Hglen.
  { unfold get32. rskip H10. apply mem_read_write_eq in H9. rewrite length_enc in H9.
    rewrite H9. cbn [mbind option_bind]. rewrite dec_enc.
    f_equal. apply Z.mod_small. lia. }
  split_and!; [done|lia|done|intros; apply Hall; lia|lia| | | | |].
  - apply mem_read_drop in Hread. by rewrite Hread, <- app_assoc.
  - intros ->.
    eapply (image_crc_intro m10 p len cvi cr cn data); [lia|done|done|done| | | | |done].
    + by apply mem_read_write_eq in H10.
    + rskip H10. rskip H9. rskip H8. rskip Hw7. rskip H5. rskip H4.
      by apply mem_read_write_eq in H3.
    + rskip H10. rskip H9. rskip H8. rskip Hw7. rskip H5.
      by apply mem_read_write_eq in H4.
    + by rskip H10.
  - unfold get32. rskip H10. rskip H9. rskip H8. rskip Hw7. rskip H5. rskip H4.
    rskip H3. rskip H2. apply mem_read_write_eq in H1. rewrite length_enc in H1.
    rewrite H1. cbn [mbind option_bind]. by rewrite dec_enc.
  - exists len. split; [done|]. slen.
  - intros q' n Hq. rskip H10. rskip H9. rskip H8. rskip Hw7. rskip H5. rskip H4.
    rskip H3. rskip H2. by rskip H1.
Qed.
End Commit.

(** ** The scan for the header *)

Lemma find_magic_spec e fuel m i bound p :
  find_magic e fuel m i bound = Some p -> exists k, p = (4 * k)%nat /\ (i <= k)%nat.
Proof.
  revert i. induction fuel as [|f IH]; intros i H; [done|]. cbn [find_magic] in H.
  destruct (Z.of_nat i <=? bound); [|done].
  destruct (get32 e m (4 * i)) as [w|]; [|done]. cbn [mbind option_bind] in H.
  destruct (w =? NVRAM_MAGIC).
  - simplify_eq. eauto.
  - apply IH in H as (k & -> & Hk). exists k. split; [done|lia].
Qed.

(** The scan only looks at the words up to the one it returns. *)
Lemma find_magic_ext e fuel m m' i bound p :
  find_magic e fuel m i bound = Some p ->
  (forall q, (q + 4 <= p)%nat -> get32 e m' q = get32 e m q) ->
  get32 e m' p = Some NVRAM_MAGIC ->
  find_magic e fuel m' i bound = Some p.
Proof.
  revert i. induction fuel as [|f IH]; intros i H Hq Hp; [done|].
  cbn [find_magic] in H |- *. destruct (Z.of_nat i <=? bound); [|done].
  destruct (get32 e m (4 * i)) as [w|] eqn:E; [|done]. cbn [mbind option_bind] in H.
  destruct (Z.eqb_spec w NVRAM_MAGIC).
  - simplify_eq. rewrite Hp. cbn [mbind option_bind]. by rewrite Z.eqb_refl.
  - pose proof (find_magic_spec _ _ _ _ _ _ H) as (k & -> & Hk).
    rewrite Hq, E by lia. cbn [mbind option_bind].
    rewrite (proj2 (Z.eqb_neq _ _)) by done. by apply IH.
Qed.
