(* ===== verification/NvramProps.v ===== *)
(** * Properties of the nvram library *)
From stdpp Require Import gmap options.
From S2P Require Import Prelude CLib Nvram NvramFacts NvramCommit.

Abbreviation tuples_map ts := (list_to_map (map tuple_pair ts) : gmap cstr cstr).

(** ** The table *)

Lemma crc8_table_ref :
  forallb (fun i => nth (Z.to_nat i) crc8_table 0 =? crc8_ref i) (seqZ 0 256) = true.
Proof. vm_compute. reflexivity. Qed.

Lemma crc8_step_ref c b :
  is_word 8 c -> is_word 8 b -> crc8_step c b = crc8_ref (Z.lxor c b).
Proof.
  intros Hc Hb. unfold crc8_step.
  pose proof (is_word_lxor 8 c b ltac:(done) Hc Hb) as Hx.
  change 0xff with (Z.ones 8). rewrite land_ones_wrap, wrap_small by done.
  pose proof crc8_table_ref as Ht. rewrite forallb_forall in Ht.
  apply Z.eqb_eq, Ht, list_elem_of_In, elem_of_seqZ. exact Hx.
Qed.

Section Persist.
Context (char_signed : bool) (e : endian) (ulong_w : Z) (base : Z).
#[local] Notation nv_wf := (nv_wf char_signed ulong_w) (only parsing).

Lemma tuple_bytes_le t ts :
  t ∈ ts -> (length (tuple_bytes t) <= length (tuples_bytes ts))%nat.
Proof.
  induction ts as [|x ts IH]; [by intros []%not_elem_of_nil|].
  rewrite tuples_bytes_cons, length_app, elem_of_cons. intros [->|?]; [lia|].
  specialize (IH ltac:(done)). lia.
Qed.

(** Values that fit in the image fit in a handle on the same partition. *)
Lemma image_values_fit size h ts :
  commit_pre base size h ->
  (header_pos h + NVRAM_HEADER_SIZE + length (tuples_bytes ts) + 2 <= size)%nat ->
  Forall (fun t => fits h (t_value t)) ts.
Proof.
  intros Hpre Hroom. apply Forall_forall. intros t Ht.
  apply tuple_bytes_le in Ht. rewrite length_tuple_bytes in Ht.
  destruct Hpre. unfold fits, u32. rewrite cp_length.
  assert (nv_offset h = Z.of_nat (header_pos h)) as -> by (unfold header_pos; lia).
  rewrite wrap_small; [lia|]. unfold is_word. lia.
Qed.

Lemma tuples_map_lookup h ts n v :
  nv_wf h -> ts `sublist_of` concat (nv_hash h) ->
  (tuples_map ts) !! n = Some v ->
  nv_abs h !! n = Some v.
Proof.
  intros Hw Hs Hl. apply elem_of_list_to_map_2, elem_of_tuple_pairs in Hl.
  unfold nv_abs. apply elem_of_list_to_map_1.
  - rewrite tuple_pair_fst. by apply (nv_wf_NoDup char_signed ulong_w).
  - apply elem_of_tuple_pairs. by eapply sublist_subseteq.
Qed.

(** The commit of any handle on a well-placed mapping: it returns, and the
    new table holds [ts], the tuples that reached the image. *)
Lemma commit_spec size h :
  nv_wf h -> Forall clean_tuple (concat (nv_hash h)) -> commit_pre base size h ->
  exists h' ts,
    nvram_commit char_signed e ulong_w base size h = Some h' /\
    nv_wf h' /\ length (nv_mmap h') = size /\
    nv_length h' = nv_length h /\ nv_offset h' = nv_offset h /\
    ts `sublist_of` concat (nv_hash h) /\
    ((header_pos h + NVRAM_HEADER_SIZE
        + length (tuples_bytes (concat (nv_hash h))) + 2 <= size)%nat ->
     ts = concat (nv_hash h)) /\
    (forall n v, (tuples_map ts) !! n = Some v ->
                 nv_abs h' !! n = Some v) /\
    (forall n, n ∉ sdram_names -> nv_abs h' !! n = (tuples_map ts) !! n) /\
    (e = LE -> image_crc_ok (nv_mmap h') (header_pos h)).
Proof.
  intros Hw Hc Hpre.
  destruct (commit_image char_signed e ulong_w base size h Hpre)
    as (m & ts & rest & -> & Hlm & Hsub & Hall & Hroom & Hdrop & Hcrc & _).
  destruct (rehash_spec char_signed e ulong_w (set_mmap h m) ts rest)
    as (h' & -> & (Hw' & Hmm & Hlen & Hoff & Hkeep & Hother) & Habs).
  - apply Hw.
  - simpl. unfold header_pos in *. simpl. lia.
  - exact Hdrop.
  - rewrite Forall_forall in Hc |- *. intros t Ht. by eapply Hc, sublist_subseteq.
  - exact (image_values_fit _ _ _ Hpre Hroom).
  - apply (nv_wf_NoDup char_signed ulong_w) in Hw. eapply sublist_NoDup; [exact Hw|].
    by apply (fmap_sublist t_name).
  - rewrite Habs in Hkeep, Hother.
    destruct (load_frame char_signed ulong_w ts (_nvram_free (set_mmap h m))) as (F1 & F2 & F3).
    rewrite F3 in Hmm. rewrite F1 in Hlen. rewrite F2 in Hoff. simpl in Hmm, Hlen, Hoff.
    exists h', ts. rewrite Hmm. split_and!; auto.
Qed.
End Persist.

(** ** Claims *)

(** C4: the hash table of a well-formed handle implements a finite map from
    names to values: [nvram_get] is the lookup; [nvram_set] keeps the handle
    well formed and either inserts (code 0) or, exactly when the value is too
    long for the partition, returns -12 and changes nothing; [nvram_unset]
    keeps it well formed and deletes. *)
Theorem nvram_refines_map (char_signed : bool) (ulong_w : Z) (h : nvram_handle) (n v : cstr) :
  nv_wf char_signed ulong_w h ->
  nvram_get char_signed ulong_w h (Some n) = nv_abs h !! n /\
  nv_wf char_signed ulong_w (nvram_set char_signed ulong_w h n v).1 /\
  (fits h v -> (nvram_set char_signed ulong_w h n v).2 = 0 /\
               nv_abs (nvram_set char_signed ulong_w h n v).1 = <[n:=v]> (nv_abs h)) /\
  (~ fits h v -> nvram_set char_signed ulong_w h n v = (h, -12)) /\
  nv_wf char_signed ulong_w (nvram_unset char_signed ulong_w h (Some n)).1 /\
  (nvram_unset char_signed ulong_w h (Some n)).2 = 0 /\
  nv_abs (nvram_unset char_signed ulong_w h (Some n)).1 = delete n (nv_abs h).
Proof.
  intros Hw. split_and!.
  - by apply nvram_get_abs.
  - by apply nvram_set_wf.
  - intros Hf. split; [by apply nvram_set_rc|by apply nvram_set_abs].
  - apply nvram_set_nofit.
  - by apply nvram_unset_wf.
  - simpl. by destruct (find_tuple _ _) as [[? [?|]] ?].
  - by apply nvram_unset_abs.
Qed.

(** C1: [nvram_commit] is a round trip.  Let the partition be mapped at an address below 2^31,
    with address, size and header offset divisible by 4 (see [nvram_commit_high_mapping] for higher
    addresses), let no name contain an equals sign, and let all variables
    fit in the partition with two bytes to spare.  Then [nvram_commit] returns a
    well-formed handle, rebuilt from the bytes it wrote, in which every variable has the value
    it had; the only variables it can add are the four SDRAM parameters of the header. *)
Theorem nvram_commit_roundtrip (char_signed : bool) (e : endian) (ulong_w base : Z)
    (size : nat) (h : nvram_handle) :
  nv_wf char_signed ulong_w h -> Forall clean_tuple (concat (nv_hash h)) ->
  commit_pre base size h ->
  (header_pos h + NVRAM_HEADER_SIZE
     + length (tuples_bytes (concat (nv_hash h))) + 2 <= size)%nat ->
  exists h', nvram_commit char_signed e ulong_w base size h = Some h' /\
    nv_wf char_signed ulong_w h' /\
    (forall n v, nvram_get char_signed ulong_w h (Some n) = Some v ->
                 nvram_get char_signed ulong_w h' (Some n) = Some v) /\
    (forall n, n ∉ sdram_names ->
               nvram_get char_signed ulong_w h' (Some n) = nvram_get char_signed ulong_w h (Some n)).
Proof.
  intros Hw Hc Hpre Hfit.
  destruct (commit_spec char_signed e ulong_w base size h Hw Hc Hpre)
    as (h' & ts & Hcm & Hw' & _ & _ & _ & _ & Hall & Hkeep & Hother & _).
  specialize (Hall Hfit) as ->. exists h'. split_and!; [done|done| |].
  - intros n v. rewrite !nvram_get_abs by done. apply Hkeep.
  - intros n Hn. rewrite !nvram_get_abs by done. by apply Hother.
Qed.

(** C37: when the partition is mapped at an address below 2^31, with address, size and header offset
    divisible by 4, and no name contains an equals sign, [nvram_commit]
    never accesses memory outside the mapping (it returns) however large the table is, and a
    variable found afterwards was there before with that value, the SDRAM parameters apart:
    tuples that do not fit are left out, never truncated or mixed up.  The bound on the
    address is needed: [nvram_commit_high_mapping]. *)
Theorem nvram_commit_in_bounds (char_signed : bool) (e : endian) (ulong_w base : Z)
    (size : nat) (h : nvram_handle) :
  nv_wf char_signed ulong_w h -> Forall clean_tuple (concat (nv_hash h)) ->
  commit_pre base size h ->
  exists h', nvram_commit char_signed e ulong_w base size h = Some h' /\
    nv_wf char_signed ulong_w h' /\ length (nv_mmap h') = size /\
    (forall n v, n ∉ sdram_names -> nvram_get char_signed ulong_w h' (Some n) = Some v ->
                 nvram_get char_signed ulong_w h (Some n) = Some v).
Proof.
  intros Hw Hc Hpre.
  destruct (commit_spec char_signed e ulong_w base size h Hw Hc Hpre)
    as (h' & ts & Hcm & Hw' & Hl & _ & _ & Hsub & _ & _ & Hother & _).
  exists h'. split_and!; [done|done|done|]. intros n v Hn.
  rewrite !nvram_get_abs by done. rewrite Hother by done.
  by apply tuples_map_lookup with (char_signed := char_signed) (ulong_w := ulong_w).
Qed.

(** On a little-endian target the image left by [nvram_commit] passes the
    test of [nvram info]: the CRC stored in the header equals the CRC recomputed
    over the header after the CRC byte and over the data. *)
Theorem nvram_commit_crc_valid (char_signed : bool) (ulong_w base : Z)
    (size : nat) (h : nvram_handle) :
  nv_wf char_signed ulong_w h -> Forall clean_tuple (concat (nv_hash h)) ->
  commit_pre base size h ->
  exists h' c, nvram_commit char_signed LE ulong_w base size h = Some h' /\
    do_info_crc LE h' = Some (c, c).
Proof.
  intros Hw Hc Hpre.
  destruct (commit_spec char_signed LE ulong_w base size h Hw Hc Hpre)
    as (h' & ts & Hcm & _ & _ & _ & Hoff & _ & _ & _ & _ & Hcrc).
  destruct (Hcrc eq_refl) as (len & cvi & data & H4 & H8 & Hd & Heq).
  exists h', (hndcrc8 data 0xff). split; [done|].
  unfold do_info_crc.
  assert (header_pos h' = header_pos h) as -> by (unfold header_pos; by rewrite Hoff).
  rewrite H4. cbn [mbind option_bind]. rewrite H8. cbn [mbind option_bind].
  rewrite Hd. cbn [mbind option_bind]. by rewrite Heq.
Qed.

(** The table-driven CRC-8 step is eight steps of the bitwise division by
    x^8 + x^7 + x^6 + x^4 + x^2 + 1 (reflected), so [hndcrc8] computes that CRC
    and may be applied piecewise to a divided buffer. *)
Theorem hndcrc8_polynomial (a b : list Z) (c : Z) :
  is_word 8 c -> Forall (is_word 8) (a ++ b) ->
  hndcrc8 (a ++ b) c = fold_left (fun c x => crc8_ref (Z.lxor c x)) (a ++ b) c /\
  hndcrc8 (a ++ b) c = hndcrc8 b (hndcrc8 a c).
Proof.
  intros Hc Hab. split; [|apply hndcrc8_app]. generalize dependent (a ++ b).
  intros l Hl. revert c Hc.
  induction Hl as [|x l Hx _ IH]; intros c Hc; [done|]. cbn [hndcrc8 fold_left].
  rewrite IH by apply crc8_step_range. f_equal.
  by apply crc8_step_ref.
Qed.

(** C33: what [nvram_commit] writes is durable.  For a mapping below 2^31 with address, size and
    header offset divisible by 4, when the header of the handle is the first one in the partition, no
    name contains an equals sign, and the variables leave six bytes free,
    opening the committed image again, read-only or for writing, finds the same header and
    yields every variable with its value. *)
Theorem nvram_commit_reopen (char_signed : bool) (e : endian) (ulong_w base : Z)
    (size : nat) (h : nvram_handle) (rdonly : bool) :
  nv_wf char_signed ulong_w h -> Forall clean_tuple (concat (nv_hash h)) ->
  commit_pre base size h ->
  find_magic e (S size) (nv_mmap h) 0
    (wrap ulong_w (Z.of_nat size - NVRAM_MIN_SPACE) / 4) = Some (header_pos h) ->
  (header_pos h + NVRAM_HEADER_SIZE
     + length (tuples_bytes (concat (nv_hash h))) + 6 <= size)%nat ->
  exists h' h'', nvram_commit char_signed e ulong_w base size h = Some h' /\
    nvram_open char_signed e ulong_w (nv_mmap h') rdonly = Some h'' /\
    (forall n v, nvram_get char_signed ulong_w h (Some n) = Some v ->
                 nvram_get char_signed ulong_w h'' (Some n) = Some v) /\
    (forall n, n ∉ sdram_names ->
               nvram_get char_signed ulong_w h'' (Some n) = nvram_get char_signed ulong_w h (Some n)).
Proof.
  intros Hw Hc Hpre Hfm Hfit.
  destruct (commit_image char_signed e ulong_w base size h Hpre)
    as (m & ts & rest & Hcm & Hlm & _ & Hall & _ & Hdrop & _ & Hmagic & (len & Hlen & Hlt) & Hsame).
  specialize (Hall ltac:(lia)) as ->.
  destruct (commit_spec char_signed e ulong_w base size h Hw Hc Hpre)
    as (h' & _ & Hcm' & _).
  pose proof (nv_wf_NoDup char_signed ulong_w h Hw) as Hnd.
  pose proof Hpre as [Hl1 Hl2 Ho Hr _ _ _ Haddr].
  assert (nv_offset h = Z.of_nat (header_pos h)) as Hoff by (unfold header_pos; lia).
  pose proof (image_values_fit base size h (concat (nv_hash h)) Hpre ltac:(lia)) as Hvals.
  exists h'.
  assert (nv_mmap h' = m) as ->.
  { rewrite Hcm in Hcm'. eapply rehash_mmap in Hcm'. done. }
  set (h2 := Handle m (Z.of_nat (length m)) (Z.of_nat (header_pos h))
               (replicate (Z.to_nat NVRAM_HASHSIZE) []) []).
  assert (header_pos h2 = header_pos h) as Hp2 by (unfold header_pos; simpl; lia).
  destruct (rehash_spec char_signed e ulong_w h2 (concat (nv_hash h)) rest)
    as (h'' & Hre & (Hw'' & _ & _ & _ & Hkeep & Hother) & Habs).
  { apply length_replicate. }
  { rewrite Hp2. simpl. lia. }
  { rewrite Hp2. exact Hdrop. }
  { done. }
  { unfold fits in *. simpl. by rewrite Hlm, <- Hoff, <- Hl2. }
  { done. }
  rewrite Habs in Hkeep, Hother. exists h''. split; [done|]. split.
  - unfold nvram_open. rewrite Hlm.
    erewrite find_magic_ext; [|exact Hfm| |exact Hmagic].
    2:{ intros q Hq. unfold get32. by rewrite Hsame. }
    cbn [mbind option_bind]. rewrite Hmagic. cbn [mbind option_bind].
    rewrite Hlen. cbn [mbind option_bind]. rewrite Z.eqb_refl. simpl nv_length. simpl nv_offset.
    rewrite (proj2 (Z.ltb_lt _ _)), orb_true_r.
    + subst h2. rewrite Hlm in Hre. exact Hre.
    + unfold u32. rewrite wrap_small by (unfold is_word; lia).
      unfold NVRAM_HEADER_SIZE in *. lia.
  - split.
    + intros n v. rewrite !nvram_get_abs by done. apply Hkeep.
    + intros n Hn. rewrite !nvram_get_abs by done. by apply Hother.
Qed.

(** ** Findings *)

(** An empty table on a partition of [size] bytes whose header is at 0. *)
Definition blank_handle (size : nat) : nvram_handle :=
  Handle (enc LE 4 NVRAM_MAGIC ++ replicate (size - 4) 0) (Z.of_nat size) 0
    (replicate (Z.to_nat NVRAM_HASHSIZE) []) [].

(** A handle with the one variable [n=v]. *)
Definition one_var (size : nat) (n v : cstr) : nvram_handle :=
  (nvram_set true 32 (blank_handle size) n v).1.

(** Whether [nvram_open] returns a handle. *)
Definition opens (m : list Z) (rdonly : bool) : bool :=
  match nvram_open true LE 32 m rdonly with Some _ => true | None => false end.

(** the padding of [nvram_commit] takes the remainder of a signed [int]
    address.  When the mapping lies at or above 2^31 the remainder is negative
    and up to seven bytes are cleared: a table that fills the partition makes
    the write leave the mapping, while the same table commits at a low address. *)
Theorem nvram_commit_high_mapping :
  nvram_commit true LE 32 0xB6F00000 32 (one_var 32 (str "abc") (str "12345")) = None /\
  is_Some (nvram_commit true LE 32 0x2AAA0000 32 (one_var 32 (str "abc") (str "12345"))).
Proof. split; [vm_compute; reflexivity|]. eexists. vm_compute. reflexivity. Qed.

(** a commit that fills the partition stores a length equal to the space
    from the header on, and [nvram_open] accepts for writing only a length
    strictly below it: the image can no longer be opened for writing, only
    read. *)
Theorem nvram_full_commit_not_reopened :
  option_map (fun h' => (opens (nv_mmap h') false, opens (nv_mmap h') true))
    (nvram_commit true LE 32 0x2AAA0000 (Z.to_nat 0x8000)
       (one_var (Z.to_nat 0x8000) (str "a") (replicate (Z.to_nat 32743) 120))) = Some (false, true).
Proof. vm_compute. reflexivity. Qed.

(** the macro for the length of the table has no parentheses, so the index of a name is its
    hash modulo the table's size in bytes, divided by the size of a pointer: neighbouring hash
    values share a bucket. *)
Theorem bucket_neighbours :
  map (bucket true 32) [str "a"; str "b"; str "c"; str "d"] = [24; 24; 24; 25]%nat /\
  map (bucket true 64) [str "a"; str "b"; str "c"; str "d"] = [12; 12; 12; 12]%nat.
Proof. split; reflexivity. Qed.

(** ** Witnesses *)

Lemma one_var_wf size n v : nv_wf true 32 (one_var size n v).
Proof. apply nvram_set_wf. exact (free_wf true 32 (blank_handle size) eq_refl). Qed.

Lemma one_var_clean :
  Forall clean_tuple (concat (nv_hash (one_var 64 (str "wan_if") (str "wwan0")))).
Proof. vm_compute. repeat constructor; done. Qed.

Lemma one_var_pre size n v :
  (24 <= size)%nat -> Z.of_nat size mod 4 = 0 -> Z.of_nat size <= 2 ^ 16 ->
  commit_pre 0x2AAA0000 size (one_var size n v).
Proof.
  intros Hs H4 Hs2. destruct (set_frame true 32 (blank_handle size) n v) as (E1 & E2 & E3).
  fold (one_var size n v) in E1, E2, E3.
  split; unfold header_pos; rewrite ?E1, ?E2, ?E3; simpl; try done; slen.
Qed.

Lemma nvram_refines_map_witness :
  nv_abs (nvram_unset true 32 (one_var 64 (str "wan_if") (str "wwan0")) (Some (str "wan_if"))).1
    = delete (str "wan_if") (nv_abs (one_var 64 (str "wan_if") (str "wwan0"))) /\
  nvram_get true 32 (one_var 64 (str "wan_if") (str "wwan0")) (Some (str "wan_if"))
    = Some (str "wwan0").
Proof.
  pose proof (nvram_refines_map true 32 (one_var 64 (str "wan_if") (str "wwan0"))
    (str "wan_if") (str "x") (one_var_wf _ _ _)) as (_ & _ & _ & _ & _ & _ & H).
  split; [exact H|vm_compute; reflexivity].
Defined.

Lemma nvram_commit_roundtrip_witness :
  exists h', nvram_commit true LE 32 0x2AAA0000 64
      (one_var 64 (str "wan_if") (str "wwan0")) = Some h' /\
    nvram_get true 32 h' (Some (str "wan_if")) = Some (str "wwan0").
Proof.
  destruct (nvram_commit_roundtrip true LE 32 0x2AAA0000 64
    (one_var 64 (str "wan_if") (str "wwan0")) (one_var_wf _ _ _) one_var_clean
    (one_var_pre 64 _ _ ltac:(lia) eq_refl ltac:(lia)))
    as (h' & H1 & _ & H2 & _).
  { vm_compute. lia. }
  exists h'. split; [exact H1|]. apply H2. vm_compute. reflexivity.
Defined.

Lemma nvram_commit_in_bounds_witness :
  exists h', nvram_commit true LE 32 0x2AAA0000 64
      (one_var 64 (str "wan_if") (str "wwan0")) = Some h' /\ length (nv_mmap h') = 64%nat.
Proof.
  destruct (nvram_commit_in_bounds true LE 32 0x2AAA0000 64
    (one_var 64 (str "wan_if") (str "wwan0")) (one_var_wf _ _ _) one_var_clean
    (one_var_pre 64 _ _ ltac:(lia) eq_refl ltac:(lia)))
    as (h' & H1 & _ & H2 & _).
  exists h'. split; [exact H1|exact H2].
Defined.

Lemma nvram_commit_crc_valid_witness :
  exists h' c, nvram_commit true LE 32 0x2AAA0000 64
      (one_var 64 (str "wan_if") (str "wwan0")) = Some h' /\ do_info_crc LE h' = Some (c, c).
Proof.
  exact (nvram_commit_crc_valid true 32 0x2AAA0000 64
    (one_var 64 (str "wan_if") (str "wwan0")) (one_var_wf _ _ _) one_var_clean
    (one_var_pre 64 _ _ ltac:(lia) eq_refl ltac:(lia))).
Defined.

Lemma hndcrc8_polynomial_witness :
  hndcrc8 ([1; 2] ++ [3]) 0xff = hndcrc8 [3] (hndcrc8 [1; 2] 0xff).
Proof.
  destruct (hndcrc8_polynomial [1; 2] [3] 0xff) as [_ H];
    [done|repeat constructor; done|exact H].
Defined.

Definition part_32k : nat := Z.to_nat 0x8000.

Lemma part_32k_ge : (24 <= part_32k)%nat.
Proof. unfold part_32k. lia. Qed.
Lemma part_32k_mod : Z.of_nat part_32k mod 4 = 0.
Proof. unfold part_32k. by rewrite Z2Nat.id. Qed.
Lemma part_32k_le : Z.of_nat part_32k <= 2 ^ 16.
Proof. unfold part_32k. by rewrite Z2Nat.id. Qed.

Lemma reopen_clean :
  Forall clean_tuple (concat (nv_hash (one_var part_32k (str "wan_if") (str "wwan0")))).
Proof. vm_compute. repeat constructor; done. Qed.

Lemma nvram_commit_reopen_witness :
  exists h' h'', nvram_commit true LE 32 0x2AAA0000 part_32k
      (one_var part_32k (str "wan_if") (str "wwan0")) = Some h' /\
    nvram_open true LE 32 (nv_mmap h') false = Some h'' /\
    nvram_get true 32 h'' (Some (str "wan_if")) = Some (str "wwan0").
Proof.
  destruct (nvram_commit_reopen true LE 32 0x2AAA0000 part_32k
    (one_var part_32k (str "wan_if") (str "wwan0")) false
    (one_var_wf _ _ _) reopen_clean
    (one_var_pre part_32k _ _ part_32k_ge part_32k_mod part_32k_le)) as (h' & h'' & H1 & H2 & H3 & _).
  { vm_compute. reflexivity. }
  { apply Nat.leb_le. vm_compute. reflexivity. }
  exists h', h''. split; [exact H1|]. split; [exact H2|]. apply H3. vm_compute. reflexivity.
Defined.
