(* ===== verification/KExpr.v ===== *)
(** * Kconfig dependency expressions: scripts/config/expr.c

    The tristate expressions of the build configuration, their value, and the
    simplifier that [menu_finalize] runs over every dependency.

    An expression is a tree; a NULL expression is [None].  The model covers the
    node types that occur in dependencies: symbols, [!], [&&], [||] and the six
    comparisons (E_LIST and E_RANGE only occur in choice and range properties,
    which no function below receives).  Functions that rewrite a tree in place
    return the new tree; [expr_eliminate_dups1], which is called with two
    pointers into the same tree, receives the tree and the two positions.
    Recursion that is not structural takes fuel, and running out is [None]. *)
From stdpp Require Import options.
From S2P Require Import Prelude CLib.

(** ** expr.h *)

Inductive tristate := no | mod_ | yes.
#[export] Instance tristate_eq_dec : EqDecision tristate.
Proof. solve_decision. Defined.

Definition tri_val (t : tristate) : Z := match t with no => 0 | mod_ => 1 | yes => 2 end.
Definition EXPR_OR (a b : tristate) : tristate := if tri_val a >? tri_val b then a else b.
Definition EXPR_AND (a b : tristate) : tristate := if tri_val a <? tri_val b then a else b.
Definition EXPR_NOT (a : tristate) : tristate :=
  match a with no => yes | mod_ => mod_ | yes => no end.

Inductive symbol_type := S_UNKNOWN | S_BOOLEAN | S_TRISTATE | S_INT | S_HEX | S_STRING.
#[export] Instance symbol_type_eq_dec : EqDecision symbol_type.
Proof. solve_decision. Defined.

(** A [struct symbol *]: the three static symbols or one of the table. *)
Inductive symbol := symbol_yes | symbol_mod | symbol_no | Sym (id : nat).
#[export] Instance symbol_eq_dec : EqDecision symbol.
Proof. solve_decision. Defined.

Inductive comparison_type := E_EQUAL | E_UNEQUAL | E_LTH | E_LEQ | E_GTH | E_GEQ.
#[export] Instance comparison_type_eq_dec : EqDecision comparison_type.
Proof. solve_decision. Defined.

Inductive expr :=
| E_SYMBOL (s : symbol)
| E_NOT (e : expr)
| E_AND (l r : expr)
| E_OR (l r : expr)
| E_COMP (c : comparison_type) (l r : symbol).
#[export] Instance expr_eq_dec : EqDecision expr.
Proof. solve_decision. Defined.

(** The fields of the symbols the expressions read: type, the SYMBOL_CONST
    flag, and [curr] once [sym_calc_value] has set it, with the value of
    [modules_sym]. *)
Record symtab := SymTab {
  st_type : nat -> symbol_type;
  st_const : nat -> bool;
  st_tri : nat -> tristate;
  st_val : nat -> cstr;
  st_modules : tristate }.

(** Number of nodes. *)
Fixpoint size (e : expr) : nat :=
  match e with
  | E_SYMBOL _ | E_COMP _ _ _ => 1
  | E_NOT a => S (size a)
  | E_AND a b | E_OR a b => S (size a + size b)
  end.

(** The two operators the helpers take as [enum expr_type type]. *)
Inductive optype := T_OR | T_AND.
#[export] Instance optype_eq_dec : EqDecision optype.
Proof. solve_decision. Defined.

Definition op_of (e : expr) : option optype :=
  match e with E_OR _ _ => Some T_OR | E_AND _ _ => Some T_AND | _ => None end.

(** The neutral constant of an operator. *)
Definition unit_sym (ty : optype) : symbol :=
  match ty with T_OR => symbol_no | T_AND => symbol_yes end.

Definition expr_is_yes (e : option expr) : bool :=
  match e with
  | None => true
  | Some e => bool_decide (e = E_SYMBOL symbol_yes)
  end.

Definition expr_alloc_and (e1 e2 : option expr) : option expr :=
  match e1, e2 with
  | None, _ => e2
  | Some _, None => e1
  | Some a, Some b => Some (E_AND a b)
  end.

Definition expr_alloc_or (e1 e2 : option expr) : option expr :=
  match e1, e2 with
  | None, _ => e2
  | Some _, None => e1
  | Some a, Some b => Some (E_OR a b)
  end.

(** Structural copy. *)
Fixpoint expr_copy (org : expr) : expr :=
  match org with
  | E_SYMBOL s => E_SYMBOL s
  | E_NOT a => E_NOT (expr_copy a)
  | E_COMP c l r => E_COMP c l r
  | E_AND a b => E_AND (expr_copy a) (expr_copy b)
  | E_OR a b => E_OR (expr_copy a) (expr_copy b)
  end.

(** ** Elimination of constants *)

Fixpoint expr_eliminate_yn (e : expr) : expr :=
  match e with
  | E_AND l r =>
      let l' := expr_eliminate_yn l in
      let r' := expr_eliminate_yn r in
      if decide (l' = E_SYMBOL symbol_no) then E_SYMBOL symbol_no
      else if decide (l' = E_SYMBOL symbol_yes) then r'
      else if decide (r' = E_SYMBOL symbol_no) then E_SYMBOL symbol_no
      else if decide (r' = E_SYMBOL symbol_yes) then l'
      else E_AND l' r'
  | E_OR l r =>
      let l' := expr_eliminate_yn l in
      let r' := expr_eliminate_yn r in
      if decide (l' = E_SYMBOL symbol_no) then r'
      else if decide (l' = E_SYMBOL symbol_yes) then E_SYMBOL symbol_yes
      else if decide (r' = E_SYMBOL symbol_no) then l'
      else if decide (r' = E_SYMBOL symbol_yes) then E_SYMBOL symbol_yes
      else E_OR l' r'
  | _ => e
  end.

(** ** Equality up to order of operands *)

Definition is_yn (e : expr) : bool :=
  bool_decide (e = E_SYMBOL symbol_yes) || bool_decide (e = E_SYMBOL symbol_no).

(** [__expr_eliminate_eq], with the comparison of two leaves as argument: walks
    the leaves of [e1] and, for each, the leaves of [e2]; returns both trees and
    the number of eliminated pairs ([trans_count]). *)
Section EliminateEq.
Context (eq : expr -> expr -> option bool).

Definition eliminate_leaf (ty : optype) (e1 e2 : expr) : option (expr * expr * nat) :=
  if is_yn e1 && bool_decide (e1 = e2) then Some (e1, e2, 0%nat)
  else
    b ← eq e1 e2;
    if (b : bool)
    then Some (E_SYMBOL (unit_sym ty), E_SYMBOL (unit_sym ty), 1%nat)
    else Some (e1, e2, 0%nat).

(** [e1] is a leaf: recurse down [e2]. *)
Fixpoint eliminate_eq_r (ty : optype) (e1 e2 : expr) : option (expr * expr * nat) :=
  match ty, e2 with
  | T_OR, E_OR l r =>
      '(e1, l, n1) ← eliminate_eq_r ty e1 l;
      '(e1, r, n2) ← eliminate_eq_r ty e1 r;
      Some (e1, E_OR l r, (n1 + n2)%nat)
  | T_AND, E_AND l r =>
      '(e1, l, n1) ← eliminate_eq_r ty e1 l;
      '(e1, r, n2) ← eliminate_eq_r ty e1 r;
      Some (e1, E_AND l r, (n1 + n2)%nat)
  | _, _ => eliminate_leaf ty e1 e2
  end.

Fixpoint eliminate_eq (ty : optype) (e1 e2 : expr) : option (expr * expr * nat) :=
  match ty, e1 with
  | T_OR, E_OR l r =>
      '(l, e2, n1) ← eliminate_eq ty l e2;
      '(r, e2, n2) ← eliminate_eq ty r e2;
      Some (E_OR l r, e2, (n1 + n2)%nat)
  | T_AND, E_AND l r =>
      '(l, e2, n1) ← eliminate_eq ty l e2;
      '(r, e2, n2) ← eliminate_eq ty r e2;
      Some (E_AND l r, e2, (n1 + n2)%nat)
  | _, _ => eliminate_eq_r ty e1 e2
  end.

(** [expr_eliminate_eq] on two non-NULL expressions. *)
Definition expr_eliminate_eq_with (e1 e2 : expr) : option (expr * expr) :=
  '(e1, e2, _) ← match op_of e1 with
                 | Some ty => eliminate_eq ty e1 e2
                 | None => Some (e1, e2, 0%nat)
                 end;
  '(e1, e2, _) ← (if decide (op_of e1 = op_of e2) then Some (e1, e2, 0%nat)
                  else match op_of e2 with
                       | Some ty => eliminate_eq ty e1 e2
                       | None => Some (e1, e2, 0%nat)
                       end);
  Some (expr_eliminate_yn e1, expr_eliminate_yn e2).
End EliminateEq.

(** [expr_eq] on two non-NULL expressions. *)
Fixpoint expr_eq (fuel : nat) (e1 e2 : expr) : option bool :=
  match fuel with
  | O => None
  | S f =>
      match e1, e2 with
      | E_COMP c1 l1 r1, E_COMP c2 l2 r2 =>
          Some (bool_decide (c1 = c2) && bool_decide (l1 = l2) && bool_decide (r1 = r2))
      | E_SYMBOL s1, E_SYMBOL s2 => Some (bool_decide (s1 = s2))
      | E_NOT a, E_NOT b => expr_eq f a b
      | E_AND _ _, E_AND _ _ | E_OR _ _, E_OR _ _ =>
          '(a, b) ← expr_eliminate_eq_with (expr_eq f) (expr_copy e1) (expr_copy e2);
          Some (match a, b with
                | E_SYMBOL s1, E_SYMBOL s2 => bool_decide (s1 = s2)
                | _, _ => false
                end)
      | _, _ => Some false
      end
  end.

(** [expr_eq] with its test for NULL. *)
Definition expr_eq_null (fuel : nat) (e1 e2 : option expr) : option bool :=
  match e1, e2 with
  | Some a, Some b => expr_eq fuel a b
  | _, _ => Some (expr_is_yes e1 && expr_is_yes e2)
  end.

Definition expr_eliminate_eq (fuel : nat) (e1 e2 : option expr) :
    option (option expr * option expr) :=
  match e1, e2 with
  | Some a, Some b =>
      '(a, b) ← expr_eliminate_eq_with (expr_eq fuel) a b; Some (Some a, Some b)
  | _, _ => Some (e1, e2)
  end.

(** ** Joining two operands *)

Section Types.
Context (E : symtab).

(** [sym->type] and [sym->flags & SYMBOL_CONST]. *)
Definition sym_type (s : symbol) : symbol_type :=
  match s with Sym i => st_type E i | _ => S_UNKNOWN end.
Definition sym_const (s : symbol) : bool :=
  match s with Sym i => st_const E i | _ => true end.

(** The symbol an operand is about: [sym1] (which looks through [!] at a
    comparison or a symbol) and [sym2] (through [!] at a symbol only); [None]
    is one of the early [return NULL]. *)
Definition join_sym1 (e : expr) : option symbol :=
  match e with
  | E_COMP E_EQUAL l _ | E_COMP E_UNEQUAL l _ => Some l
  | E_SYMBOL s => Some s
  | E_NOT (E_COMP E_EQUAL l _) | E_NOT (E_COMP E_UNEQUAL l _) => Some l
  | E_NOT (E_SYMBOL s) => Some s
  | _ => None
  end.
Definition join_sym2 (e : expr) : option symbol :=
  match e with
  | E_COMP E_EQUAL l _ | E_COMP E_UNEQUAL l _ => Some l
  | E_SYMBOL s => Some s
  | E_NOT (E_SYMBOL s) => Some s
  | _ => None
  end.

(** [(x == a && y == b) || (x == b && y == a)] *)
Definition pair_is (x y a b : symbol) : bool :=
  (bool_decide (x = a) && bool_decide (y = b)) ||
  (bool_decide (x = b) && bool_decide (y = a)).

Definition expr_join_or (fuel : nat) (e1 e2 : expr) : option (option expr) :=
  b ← expr_eq fuel e1 e2;
  if (b : bool) then Some (Some (expr_copy e1))
  else Some
    (match join_sym1 e1, join_sym2 e2 with
     | Some sym1, Some sym2 =>
         if decide (sym1 = sym2) then
           match sym_type sym1, e1, e2 with
           | S_TRISTATE, E_COMP E_EQUAL _ r1, E_COMP E_EQUAL _ r2 =>
               if pair_is r1 r2 symbol_yes symbol_mod
               then Some (E_COMP E_UNEQUAL sym1 symbol_no)
               else if pair_is r1 r2 symbol_yes symbol_no
               then Some (E_COMP E_UNEQUAL sym1 symbol_mod)
               else if pair_is r1 r2 symbol_mod symbol_no
               then Some (E_COMP E_UNEQUAL sym1 symbol_yes)
               else None
           | S_BOOLEAN, E_NOT (E_SYMBOL _), E_SYMBOL _
           | S_BOOLEAN, E_SYMBOL _, E_NOT (E_SYMBOL _) => Some (E_SYMBOL symbol_yes)
           | _, _, _ => None
           end
         else None
     | _, _ => None
     end).

(** The constant [c] that the comparison [op] of the operand pair tests, when
    the other operand is the plain symbol: the tests
    [(e1->type == E_SYMBOL && e2->type == op && e2->right.sym == c) || ...]. *)
Definition sym_and_cmp (op : comparison_type) (c : symbol) (e1 e2 : expr) : bool :=
  match e1, e2 with
  | E_SYMBOL _, E_COMP o _ r | E_COMP o _ r, E_SYMBOL _ =>
      bool_decide (o = op) && bool_decide (r = c)
  | _, _ => false
  end.

Definition expr_join_and (fuel : nat) (e1 e2 : expr) : option (option expr) :=
  b ← expr_eq fuel e1 e2;
  if (b : bool) then Some (Some (expr_copy e1))
  else Some
    (match join_sym1 e1, join_sym2 e2 with
     | Some sym1, Some sym2 =>
         if decide (sym1 = sym2) then
           if decide (sym_type sym1 = S_BOOLEAN \/ sym_type sym1 = S_TRISTATE) then
             if sym_and_cmp E_EQUAL symbol_yes e1 e2
             then Some (E_COMP E_EQUAL sym1 symbol_yes)
             else if sym_and_cmp E_UNEQUAL symbol_no e1 e2
             then Some (E_SYMBOL sym1)
             else if sym_and_cmp E_UNEQUAL symbol_mod e1 e2
             then Some (E_COMP E_EQUAL sym1 symbol_yes)
             else
               match sym_type sym1, e1, e2 with
               | S_TRISTATE, E_COMP E_EQUAL _ r1, E_COMP E_UNEQUAL _ r2 =>
                   if sym_const r2 && sym_const r1
                   then Some (if decide (r1 = r2) then E_SYMBOL symbol_no
                              else E_COMP E_EQUAL sym1 r1)
                   else None
               | S_TRISTATE, E_COMP E_UNEQUAL _ r1, E_COMP E_EQUAL _ r2 =>
                   if sym_const r1 && sym_const r2
                   then Some (if decide (r2 = r1) then E_SYMBOL symbol_no
                              else E_COMP E_EQUAL sym1 r2)
                   else None
               | S_TRISTATE, E_COMP E_UNEQUAL _ r1, E_COMP E_UNEQUAL _ r2 =>
                   if pair_is r1 r2 symbol_yes symbol_no
                   then Some (E_COMP E_EQUAL sym1 symbol_mod)
                   else if pair_is r1 r2 symbol_yes symbol_mod
                   then Some (E_COMP E_EQUAL sym1 symbol_no)
                   else if pair_is r1 r2 symbol_mod symbol_no
                   then Some (E_COMP E_EQUAL sym1 symbol_yes)
                   else None
               | _, _, _ => None
               end
           else None
         else None
     | _, _ => None
     end).

(** ** Removal of duplicate operands *)

Inductive dir := DL | DR.
#[export] Instance dir_eq_dec : EqDecision dir.
Proof. solve_decision. Defined.

(** A pointer [struct expr **] into a tree is the position of the slot. *)
Fixpoint get_at (e : expr) (p : list dir) : option expr :=
  match p with
  | [] => Some e
  | d :: p' =>
      match e with
      | E_AND l r | E_OR l r => get_at (match d with DL => l | DR => r end) p'
      | _ => None
      end
  end.

Fixpoint put_at (e : expr) (p : list dir) (x : expr) : expr :=
  match p with
  | [] => x
  | d :: p' =>
      match e, d with
      | E_AND l r, DL => E_AND (put_at l p' x) r
      | E_AND l r, DR => E_AND l (put_at r p' x)
      | E_OR l r, DL => E_OR (put_at l p' x) r
      | E_OR l r, DR => E_OR l (put_at r p' x)
      | _, _ => e
      end
  end.

Definition eq_fuel (e1 e2 : expr) : nat := S (size e1 + size e2).

Definition expr_join (ty : optype) (e1 e2 : expr) : option (option expr) :=
  match ty with
  | T_OR => expr_join_or (eq_fuel e1 e2) e1 e2
  | T_AND => expr_join_and (eq_fuel e1 e2) e1 e2
  end.

(** [expr_eliminate_dups1(type, ep1, ep2)] with [ep1] and [ep2] the slots [p1]
    and [p2] of the tree [s]; two leaves are the same object exactly when they
    are at the same position.  Returns the tree and the increment of
    [trans_count].  The inner call for a leaf that is itself an [&&] or [||]
    only touches the tree below that leaf. *)
Fixpoint expr_eliminate_dups1 (fuel : nat) (ty : optype) (s : expr) (p1 p2 : list dir) :
    option (expr * nat) :=
  match fuel with
  | O => None
  | S f =>
      e1 ← get_at s p1;
      e2 ← get_at s p2;
      if decide (op_of e1 = Some ty) then
        '(s, n1) ← expr_eliminate_dups1 f ty s (p1 ++ [DL]) p2;
        '(s, n2) ← expr_eliminate_dups1 f ty s (p1 ++ [DR]) p2;
        Some (s, (n1 + n2)%nat)
      else if decide (op_of e2 = Some ty) then
        '(s, n1) ← expr_eliminate_dups1 f ty s p1 (p2 ++ [DL]);
        '(s, n2) ← expr_eliminate_dups1 f ty s p1 (p2 ++ [DR]);
        Some (s, (n1 + n2)%nat)
      else if decide (p1 = p2) then Some (s, 0%nat)
      else
        '(e1, n) ← match op_of e1 with
                   | Some ty' => expr_eliminate_dups1 f ty' e1 [] []
                   | None => Some (e1, 0%nat)
                   end;
        let s := put_at s p1 e1 in
        e2 ← get_at s p2;
        tmp ← expr_join ty e1 e2;
        match tmp with
        | Some x => Some (put_at (put_at s p1 (E_SYMBOL (unit_sym ty))) p2 x, S n)
        | None => Some (s, n)
        end
  end.

Definition dups_fuel (e : expr) : nat := (2 * S (size e) * S (size e))%nat.

(** The [while (1)] of [expr_eliminate_dups]. *)
Fixpoint eliminate_dups_loop (fuel : nat) (e : expr) : option expr :=
  match fuel with
  | O => None
  | S f =>
      '(e', trans_count) ← match op_of e with
                           | Some ty => expr_eliminate_dups1 (dups_fuel e) ty e [] []
                           | None => Some (e, 0%nat)
                           end;
      if decide (trans_count = 0%nat) then Some e'
      else eliminate_dups_loop f (expr_eliminate_yn e')
  end.

Definition expr_eliminate_dups (e : expr) : option expr :=
  eliminate_dups_loop (S (size e)) e.

(** ** Transformations *)

Fixpoint expr_trans_bool (e : expr) : expr :=
  match e with
  | E_AND l r => E_AND (expr_trans_bool l) (expr_trans_bool r)
  | E_OR l r => E_OR (expr_trans_bool l) (expr_trans_bool r)
  | E_NOT a => E_NOT (expr_trans_bool a)
  | E_COMP E_UNEQUAL l r =>
      if decide (sym_type l = S_TRISTATE /\ r = symbol_no) then E_SYMBOL l else e
  | _ => e
  end.

(** The comparison [!a op b] is rewritten to. *)
Definition comp_not (c : comparison_type) : comparison_type :=
  match c with
  | E_EQUAL => E_UNEQUAL
  | E_UNEQUAL => E_EQUAL
  | E_LEQ => E_GTH
  | E_GEQ => E_LTH
  | E_LTH => E_GEQ
  | E_GTH => E_LEQ
  end.

Fixpoint transform (fuel : nat) (e : expr) : option expr :=
  match fuel with
  | O => None
  | S f =>
      e ← match e with
          | E_NOT a => a ← transform f a; Some (E_NOT a)
          | E_AND l r => l ← transform f l; r ← transform f r; Some (E_AND l r)
          | E_OR l r => l ← transform f l; r ← transform f r; Some (E_OR l r)
          | _ => Some e
          end;
      match e with
      | E_COMP E_EQUAL l r =>
          if decide (sym_type l <> S_BOOLEAN) then Some e
          else match r with
               | symbol_no => Some (E_NOT (E_SYMBOL l))
               | symbol_mod => Some (E_SYMBOL symbol_no)
               | symbol_yes => Some (E_SYMBOL l)
               | Sym _ => Some e
               end
      | E_COMP E_UNEQUAL l r =>
          if decide (sym_type l <> S_BOOLEAN) then Some e
          else match r with
               | symbol_no => Some (E_SYMBOL l)
               | symbol_mod => Some (E_SYMBOL symbol_yes)
               | symbol_yes => Some (E_NOT (E_SYMBOL l))
               | Sym _ => Some e
               end
      | E_NOT (E_NOT a) => transform f a
      | E_NOT (E_COMP c l r) => Some (E_COMP (comp_not c) l r)
      | E_NOT (E_OR a b) => transform f (E_AND (E_NOT a) (E_NOT b))
      | E_NOT (E_AND a b) => transform f (E_OR (E_NOT a) (E_NOT b))
      | E_NOT (E_SYMBOL symbol_yes) => Some (E_SYMBOL symbol_no)
      | E_NOT (E_SYMBOL symbol_mod) => Some (E_SYMBOL symbol_mod)
      | E_NOT (E_SYMBOL symbol_no) => Some (E_SYMBOL symbol_yes)
      | _ => Some e
      end
  end.

(** Bounds the depth of [transform]: a negation may be pushed through its
    operand, a comparison may become the negation of a symbol. *)
Fixpoint weight (e : expr) : nat :=
  match e with
  | E_SYMBOL _ => 1
  | E_COMP _ _ _ => 4
  | E_NOT a => S (weight a + weight a)
  | E_AND a b | E_OR a b => S (S (weight a + weight b))
  end.

Definition expr_transform (e : expr) : option expr := transform (S (weight e)) e.

(** [type] is E_EQUAL or E_UNEQUAL ([true]); [sym] is one of the three constant
    symbols, given by its value: for any other symbol the C function returns
    NULL on a comparison, and no caller passes one. *)
Definition sym_of_tri (t : tristate) : symbol :=
  match t with no => symbol_no | mod_ => symbol_mod | yes => symbol_yes end.

Fixpoint expr_trans_compare (e : expr) (unequal : bool) (sym : tristate) : expr :=
  let negate (e : expr) := if unequal then E_NOT e else e in
  match e with
  | E_AND l r =>
      let e1 := expr_trans_compare l false sym in
      let e2 := expr_trans_compare r false sym in
      negate (match sym with yes => E_AND e1 e2 | no => E_OR e1 e2 | mod_ => e end)
  | E_OR l r =>
      let e1 := expr_trans_compare l false sym in
      let e2 := expr_trans_compare r false sym in
      negate (match sym with yes => E_OR e1 e2 | no => E_AND e1 e2 | mod_ => e end)
  | E_NOT a => expr_trans_compare a (negb unequal) sym
  | E_COMP _ _ _ =>
      match sym with
      | yes => negate (expr_copy e)
      | mod_ => E_SYMBOL (if unequal then symbol_yes else symbol_no)
      | no => if unequal then expr_copy e else E_NOT (expr_copy e)
      end
  | E_SYMBOL s => E_COMP (if unequal then E_UNEQUAL else E_EQUAL) s (sym_of_tri sym)
  end.

Fixpoint expr_contains_symbol (dep : expr) (sym : symbol) : bool :=
  match dep with
  | E_AND l r | E_OR l r => expr_contains_symbol l sym || expr_contains_symbol r sym
  | E_SYMBOL s => bool_decide (s = sym)
  | E_COMP _ l r => bool_decide (l = sym) || bool_decide (r = sym)
  | E_NOT a => expr_contains_symbol a sym
  end.

Fixpoint expr_depends_symbol (dep : expr) (sym : symbol) : bool :=
  match dep with
  | E_AND l r => expr_depends_symbol l sym || expr_depends_symbol r sym
  | E_SYMBOL s => bool_decide (s = sym)
  | E_COMP E_EQUAL l r =>
      bool_decide (l = sym) && (bool_decide (r = symbol_yes) || bool_decide (r = symbol_mod))
  | E_COMP E_UNEQUAL l r => bool_decide (l = sym) && bool_decide (r = symbol_no)
  | _ => false
  end.

(** ** Values *)

Definition sym_tri (s : symbol) : tristate :=
  match s with
  | symbol_yes => yes | symbol_mod => mod_ | symbol_no => no
  | Sym i => st_tri E i
  end.

(** [sym_get_string_value] of symbol.c on a calculated symbol. *)
Definition sym_get_string_value (s : symbol) : cstr :=
  match sym_type s with
  | S_BOOLEAN | S_TRISTATE =>
      match sym_tri s with
      | no => str "n"
      | mod_ => if decide (st_modules E = no) then str "n" else str "m"
      | yes => str "y"
      end
  | _ =>
      match s with
      | symbol_yes => str "y" | symbol_mod => str "m" | symbol_no => str "n"
      | Sym i => st_val E i
      end
  end.

(** The union is the 64-bit pattern the kind interprets. *)
Inductive string_value := k_string | k_signed (s : Z) | k_unsigned (u : Z).

(** [!errno && !*tail && tail > str && isxdigit(tail[-1]) ? kind : k_string] *)
Definition number_ok (str : cstr) (n : nat) (erange : bool) : bool :=
  negb erange && bool_decide (n = length str) && bool_decide (0 < n)%nat &&
  isxdigit (nth (n - 1) str 0).

Definition expr_parse_string (str_ : cstr) (type : symbol_type) : string_value :=
  match type with
  | S_BOOLEAN | S_TRISTATE =>
      k_signed (if decide (str_ = str "n") then 0
                else if decide (str_ = str "m") then 1
                else if decide (str_ = str "y") then 2 else -1)
  | S_HEX =>
      let '(v, n, er) := strtoul 64 16 str_ in
      if number_ok str_ n er then k_unsigned v else k_string
  | _ =>
      let '(v, n, er) := strtol 64 (if decide (type = S_INT) then 10 else 0) str_ in
      if number_ok str_ n er then k_signed v else k_string
  end.

Definition cmp3 (a b : Z) : Z := Z.b2z (a >? b) - Z.b2z (a <? b).
Definition bits_of (v : string_value) : Z :=
  match v with k_string => 0 | k_signed s => u64 s | k_unsigned u => u end.

(** [res]: the comparison of two strings whose symbols have the given types. *)
Definition compare_strings (str1 : cstr) (type1 : symbol_type)
    (str2 : cstr) (type2 : symbol_type) : Z :=
  let '(k1, k2) :=
    if decide (type1 <> S_STRING \/ type2 <> S_STRING)
    then (expr_parse_string str1 type1, expr_parse_string str2 type2)
    else (k_string, k_string) in
  match k1, k2 with
  | k_string, _ | _, k_string => strcmp str1 str2
  | k_signed a, k_signed b => cmp3 a b
  | _, _ => cmp3 (bits_of k1) (bits_of k2)
  end.

Definition compare_symbols (l r : symbol) : Z :=
  compare_strings (sym_get_string_value l) (sym_type l) (sym_get_string_value r) (sym_type r).

Definition tri_of_bool (b : bool) : tristate := if b then yes else no.

Definition comp_value (c : comparison_type) (res : Z) : tristate :=
  tri_of_bool match c with
              | E_EQUAL => res =? 0
              | E_GEQ => res >=? 0
              | E_GTH => res >? 0
              | E_LEQ => res <=? 0
              | E_LTH => res <? 0
              | E_UNEQUAL => negb (res =? 0)
              end.

Fixpoint expr_value (e : expr) : tristate :=
  match e with
  | E_SYMBOL s => sym_tri s
  | E_AND l r => EXPR_AND (expr_value l) (expr_value r)
  | E_OR l r => EXPR_OR (expr_value l) (expr_value r)
  | E_NOT a => EXPR_NOT (expr_value a)
  | E_COMP c l r => comp_value c (compare_symbols l r)
  end.

Definition expr_calc_value (e : option expr) : tristate :=
  match e with None => yes | Some e => expr_value e end.
End Types.
