(* ===== verification/KExprFacts.v ===== *)
(** * Kconfig expressions: comparison of operands

    The algebra of tristate values, the elimination of constants, and the
    soundness and termination of [expr_eq]. *)
From stdpp Require Import options.
From S2P Require Import Prelude CLib KExpr.
Set Default Proof Using "Type*".

(** ** Tristate algebra *)

(** Decides an equation between values of tristate expressions. *)
Ltac tri :=
  repeat match goal with t : tristate |- _ => destruct t end; reflexivity.

Definition opv (ty : optype) (a b : tristate) : tristate :=
  match ty with T_OR => EXPR_OR a b | T_AND => EXPR_AND a b end.
Definition unit_tri (ty : optype) : tristate :=
  match ty with T_OR => no | T_AND => yes end.

Lemma opv_comm ty a b : opv ty a b = opv ty b a.
Proof. destruct ty; tri. Qed.
Lemma opv_assoc ty a b c : opv ty a (opv ty b c) = opv ty (opv ty a b) c.
Proof. destruct ty; tri. Qed.
Lemma opv_unit_l ty a : opv ty (unit_tri ty) a = a.
Proof. destruct ty; tri. Qed.
Lemma opv_unit_r ty a : opv ty a (unit_tri ty) = a.
Proof. destruct ty; tri. Qed.
Lemma opv_idem ty a : opv ty a a = a.
Proof. destruct ty; tri. Qed.
Lemma opv_swap ty a b c d : opv ty (opv ty a b) (opv ty c d) = opv ty (opv ty a c) (opv ty b d).
Proof. destruct ty; tri. Qed.

Create HintDb kexpr.
Create Rewrite HintDb kexpr.
#[export] Hint Rewrite opv_unit_l opv_unit_r opv_idem : kexpr.

(** The node [ty l r]. *)
Definition E_OP (ty : optype) (l r : expr) : expr :=
  match ty with T_OR => E_OR l r | T_AND => E_AND l r end.

Lemma op_of_Some e ty : op_of e = Some ty <-> exists l r, e = E_OP ty l r.
Proof.
  split.
  - destruct e; simpl; intros; simplify_eq; simpl; eauto.
  - intros (l & r & ->). by destruct ty.
Qed.

Lemma op_of_E_OP ty l r : op_of (E_OP ty l r) = Some ty.
Proof. by destruct ty. Qed.

Lemma size_E_OP ty l r : size (E_OP ty l r) = S (size l + size r).
Proof. by destruct ty. Qed.

Lemma value_E_OP E ty l r :
  expr_value E (E_OP ty l r) = opv ty (expr_value E l) (expr_value E r).
Proof. by destruct ty. Qed.
#[export] Hint Rewrite value_E_OP size_E_OP op_of_E_OP : kexpr.

Lemma value_unit E ty : expr_value E (E_SYMBOL (unit_sym ty)) = unit_tri ty.
Proof. by destruct ty. Qed.
#[export] Hint Rewrite value_unit : kexpr.

Lemma expr_copy_id e : expr_copy e = e.
Proof. induction e; simpl; congruence. Qed.

Lemma size_pos e : (1 <= size e)%nat.
Proof. destruct e; simpl; lia. Qed.

(** ** Constants *)

Lemma expr_eliminate_yn_value E e : expr_value E (expr_eliminate_yn e) = expr_value E e.
Proof.
  induction e as [|e IH|l IHl r IHr|l IHl r IHr|]; try done; simpl;
    rewrite <- IHl, <- IHr;
    repeat case_decide; simplify_eq; simpl;
    repeat match goal with H : expr_eliminate_yn _ = _ |- _ => rewrite H end; simpl;
    repeat match goal with |- context [expr_value E ?x] => destruct (expr_value E x) end;
    reflexivity.
Qed.

Lemma expr_eliminate_yn_size e : (size (expr_eliminate_yn e) <= size e)%nat.
Proof.
  induction e as [|e IH|l IHl r IHr|l IHl r IHr|]; simpl; try lia;
    repeat case_decide; simpl; lia.
Qed.

(** A constant operand below some [&&] or [||]. *)
Fixpoint reducible (e : expr) : bool :=
  match e with
  | E_AND l r | E_OR l r => is_yn l || is_yn r || reducible l || reducible r
  | _ => false
  end.

Lemma is_yn_spec e : is_yn e = true <-> e = E_SYMBOL symbol_yes \/ e = E_SYMBOL symbol_no.
Proof.
  unfold is_yn. rewrite orb_true_iff, !bool_decide_eq_true. done.
Qed.

Lemma is_yn_fixed e : is_yn e = true -> expr_eliminate_yn e = e.
Proof. rewrite is_yn_spec. by intros [-> | ->]. Qed.

Lemma expr_eliminate_yn_shrinks e :
  reducible e = true -> (size (expr_eliminate_yn e) < size e)%nat.
Proof.
  induction e as [|e IH|l IHl r IHr|l IHl r IHr|]; simpl; try done;
    rewrite !orb_true_iff; intros [[[H|H]|H]|H];
    pose proof (expr_eliminate_yn_size l); pose proof (expr_eliminate_yn_size r);
    pose proof (size_pos l); pose proof (size_pos r);
    try specialize (IHl H); try specialize (IHr H);
    try (rewrite (is_yn_fixed _ H); apply is_yn_spec in H; destruct H as [-> | ->]);
    repeat case_decide; simplify_eq; simpl in *; lia.
Qed.

(** The result of the elimination has no constant operand left. *)
Lemma expr_eliminate_yn_irreducible e : reducible (expr_eliminate_yn e) = false.
Proof.
  induction e as [|e IH|l IHl r IHr|l IHl r IHr|]; try done; simpl;
    repeat case_decide; try done; simpl; rewrite IHl, IHr, !orb_false_r;
    apply orb_false_iff; split; apply not_true_iff_false; rewrite is_yn_spec; tauto.
Qed.

(** ** Elimination of common operands *)

(** Induction along the operands of the operator [ty]: everything that is not a
    [ty] node is a leaf. *)
Lemma cluster_ind (ty : optype) (P : expr -> Prop) :
  (forall e, op_of e <> Some ty -> P e) ->
  (forall l r, P l -> P r -> P (E_OP ty l r)) -> forall e, P e.
Proof.
  intros Hleaf Hop e.
  induction e as [s|e IH|l IHl r IHr|l IHl r IHr|c l r]; try (by apply Hleaf);
    destruct ty; try (by apply Hleaf); by apply (Hop l r).
Qed.

Lemma eliminate_eq_r_op eq ty e1 l r :
  eliminate_eq_r eq ty e1 (E_OP ty l r) =
  ('(e1, l, n1) ← eliminate_eq_r eq ty e1 l;
   '(e1, r, n2) ← eliminate_eq_r eq ty e1 r;
   Some (e1, E_OP ty l r, (n1 + n2)%nat)).
Proof. by destruct ty. Qed.

Lemma eliminate_eq_r_leaf eq ty e1 e2 :
  op_of e2 <> Some ty -> eliminate_eq_r eq ty e1 e2 = eliminate_leaf eq ty e1 e2.
Proof. by destruct ty, e2. Qed.

Lemma eliminate_eq_op eq ty l r e2 :
  eliminate_eq eq ty (E_OP ty l r) e2 =
  ('(l, e2, n1) ← eliminate_eq eq ty l e2;
   '(r, e2, n2) ← eliminate_eq eq ty r e2;
   Some (E_OP ty l r, e2, (n1 + n2)%nat)).
Proof. by destruct ty. Qed.

Lemma eliminate_eq_leaf eq ty e1 e2 :
  op_of e1 <> Some ty -> eliminate_eq eq ty e1 e2 = eliminate_eq_r eq ty e1 e2.
Proof. by destruct ty, e1. Qed.

(** [e1] and [e2] have lost a common part of value [c]. *)
Definition common (E : symtab) (ty : optype) (c : tristate) (e1 e2 e1' e2' : expr) : Prop :=
  expr_value E e1 = opv ty c (expr_value E e1') /\
  expr_value E e2 = opv ty c (expr_value E e2').

Section ElimEq.
Context (E : symtab) (eq : expr -> expr -> option bool).

Section Sound.
Hypothesis eq_sound : forall a b, eq a b = Some true -> expr_value E a = expr_value E b.

Lemma eliminate_leaf_sound ty e1 e2 e1' e2' n :
  eliminate_leaf eq ty e1 e2 = Some (e1', e2', n) -> exists c, common E ty c e1 e2 e1' e2'.
Proof.
  unfold eliminate_leaf, common. intros H.
  destruct (is_yn e1 && _); [simplify_eq; exists (unit_tri ty); by rewrite !opv_unit_l|].
  destruct (eq e1 e2) as [[]|] eqn:He; simpl in H; simplify_eq.
  - exists (expr_value E e1). apply eq_sound in He. by autorewrite with kexpr.
  - exists (unit_tri ty). by autorewrite with kexpr.
Qed.

Lemma common_trans_r ty c1 c2 e1 e1' e1'' l l' r r' :
  common E ty c1 e1 l e1' l' -> common E ty c2 e1' r e1'' r' ->
  common E ty (opv ty c1 c2) e1 (E_OP ty l r) e1'' (E_OP ty l' r').
Proof.
  intros [A1 A2] [B1 B2]. split; autorewrite with kexpr.
  - by rewrite A1, B1, opv_assoc.
  - by rewrite A2, B2, opv_swap.
Qed.

Lemma common_trans_l ty c1 c2 e2 e2' e2'' l l' r r' :
  common E ty c1 l e2 l' e2' -> common E ty c2 r e2' r' e2'' ->
  common E ty (opv ty c1 c2) (E_OP ty l r) e2 (E_OP ty l' r') e2''.
Proof.
  intros [A1 A2] [B1 B2]. split; autorewrite with kexpr.
  - by rewrite A1, B1, opv_swap.
  - by rewrite A2, B2, opv_assoc.
Qed.

Lemma eliminate_eq_r_sound ty e2 e1 e1' e2' n :
  eliminate_eq_r eq ty e1 e2 = Some (e1', e2', n) -> exists c, common E ty c e1 e2 e1' e2'.
Proof.
  revert e1 e1' e2' n. induction e2 as [e2 Hop|l r IHl IHr] using (cluster_ind ty);
    intros e1 e1' e2' n H.
  - rewrite eliminate_eq_r_leaf in H by done. by eapply eliminate_leaf_sound.
  - rewrite eliminate_eq_r_op in H.
    apply bind_Some in H as ([[a l'] n1] & H1 & H). apply bind_Some in H as ([[b r'] n2] & H2 & H).
    simplify_eq. apply IHl in H1 as [c1 H1]. apply IHr in H2 as [c2 H2].
    eexists. by eapply common_trans_r.
Qed.

Lemma eliminate_eq_sound ty e1 e2 e1' e2' n :
  eliminate_eq eq ty e1 e2 = Some (e1', e2', n) -> exists c, common E ty c e1 e2 e1' e2'.
Proof.
  revert e2 e1' e2' n. induction e1 as [e1 Hop|l r IHl IHr] using (cluster_ind ty);
    intros e2 e1' e2' n H.
  - rewrite eliminate_eq_leaf in H by done. by eapply eliminate_eq_r_sound.
  - rewrite eliminate_eq_op in H.
    apply bind_Some in H as ([[l' a] n1] & H1 & H). apply bind_Some in H as ([[r' b] n2] & H2 & H).
    simplify_eq. apply IHl in H1 as [c1 H1]. apply IHr in H2 as [c2 H2].
    eexists. by eapply common_trans_l.
Qed.
End Sound.

(** The operator at the root of either tree stays. *)
Lemma eliminate_eq_r_op_of ty e1 e2 e1' e2' n :
  eliminate_eq_r eq ty e1 e2 = Some (e1', e2', n) ->
  op_of e2 = Some ty -> op_of e2' = Some ty.
Proof.
  intros H Hop. apply op_of_Some in Hop as (l & r & ->). rewrite eliminate_eq_r_op in H.
  apply bind_Some in H as ([[a l'] n1] & H1 & H). apply bind_Some in H as ([[b r'] n2] & H2 & H).
  simplify_eq. apply op_of_E_OP.
Qed.

Lemma eliminate_eq_op_of ty e1 e2 e1' e2' n :
  eliminate_eq eq ty e1 e2 = Some (e1', e2', n) ->
  (op_of e1 = Some ty -> op_of e1' = Some ty) /\ (op_of e2 = Some ty -> op_of e2' = Some ty).
Proof.
  revert e2 e1' e2' n. induction e1 as [e1 Hop|l r IHl IHr] using (cluster_ind ty);
    intros e2 e1' e2' n H.
  - rewrite eliminate_eq_leaf in H by done. split; [done|]. by eapply eliminate_eq_r_op_of.
  - rewrite eliminate_eq_op in H.
    apply bind_Some in H as ([[l' a] n1] & H1 & H). apply bind_Some in H as ([[r' b] n2] & H2 & H).
    simplify_eq. split; [intros; apply op_of_E_OP|]. intros Hop.
    apply IHr in H2 as [_ H2]. apply IHl in H1 as [_ H1]. auto.
Qed.

(** Termination: the leaves compared are no larger than the trees. *)
Section Total.
Context (n1 n2 : nat).
Hypothesis eq_total : forall a b, (size a <= n1)%nat -> (size b <= n2)%nat -> is_Some (eq a b).

Lemma eliminate_leaf_total ty e1 e2 :
  (size e1 <= n1)%nat -> (size e2 <= n2)%nat ->
  exists e1' e2' n, eliminate_leaf eq ty e1 e2 = Some (e1', e2', n) /\
    (size e1' <= size e1)%nat /\ (size e2' <= size e2)%nat.
Proof.
  intros H1 H2. unfold eliminate_leaf. destruct (is_yn e1 && _); [eauto 10|].
  destruct (eq_total e1 e2 H1 H2) as [[] ->]; simpl; [|eauto 10].
  pose proof (size_pos e1). pose proof (size_pos e2). do 3 eexists. split; [done|simpl; lia].
Qed.

Lemma eliminate_eq_r_total ty e2 e1 :
  (size e1 <= n1)%nat -> (size e2 <= n2)%nat ->
  exists e1' e2' n, eliminate_eq_r eq ty e1 e2 = Some (e1', e2', n) /\
    (size e1' <= size e1)%nat /\ (size e2' <= size e2)%nat.
Proof.
  revert e1. induction e2 as [e2 Hop|l r IHl IHr] using (cluster_ind ty); intros e1 H1 H2.
  - rewrite eliminate_eq_r_leaf by done. by apply eliminate_leaf_total.
  - rewrite eliminate_eq_r_op, size_E_OP in *.
    destruct (IHl e1) as (a & l' & k1 & -> & Ha & Hl'); [lia..|]. cbn [mbind option_bind].
    destruct (IHr a) as (b & r' & k2 & -> & Hb & Hr'); [lia..|]. cbn [mbind option_bind].
    do 3 eexists. split; [done|]. rewrite size_E_OP. lia.
Qed.

Lemma eliminate_eq_total ty e1 e2 :
  (size e1 <= n1)%nat -> (size e2 <= n2)%nat ->
  exists e1' e2' n, eliminate_eq eq ty e1 e2 = Some (e1', e2', n) /\
    (size e1' <= size e1)%nat /\ (size e2' <= size e2)%nat.
Proof.
  revert e2. induction e1 as [e1 Hop|l r IHl IHr] using (cluster_ind ty); intros e2 H1 H2.
  - rewrite eliminate_eq_leaf by done. by apply eliminate_eq_r_total.
  - rewrite eliminate_eq_op, size_E_OP in *.
    destruct (IHl e2) as (l' & a & k1 & -> & Hl' & Ha); [lia..|]. cbn [mbind option_bind].
    destruct (IHr a) as (r' & b & k2 & -> & Hr' & Hb); [lia..|]. cbn [mbind option_bind].
    do 3 eexists. split; [done|]. rewrite size_E_OP. lia.
Qed.
End Total.

(** On two trees with the same operator, the second pass is skipped. *)
Lemma eliminate_eq_with_same ty e1 e2 :
  op_of e1 = Some ty -> op_of e2 = Some ty ->
  expr_eliminate_eq_with eq e1 e2 =
  ('(e1, e2, _) ← eliminate_eq eq ty e1 e2;
   Some (expr_eliminate_yn e1, expr_eliminate_yn e2)).
Proof.
  intros H1 H2. unfold expr_eliminate_eq_with. rewrite H1.
  destruct (eliminate_eq eq ty e1 e2) as [[[a b] n]|] eqn:He; [|done]. cbn [mbind option_bind].
  apply eliminate_eq_op_of in He as [Ha Hb]. rewrite Ha, Hb by done.
  by rewrite decide_True.
Qed.
End ElimEq.

(** ** [expr_eq] *)

Lemma expr_eq_op f ty l1 r1 l2 r2 :
  expr_eq (S f) (E_OP ty l1 r1) (E_OP ty l2 r2) =
  ('(a, b) ← expr_eliminate_eq_with (expr_eq f) (E_OP ty l1 r1) (E_OP ty l2 r2);
   Some (match a, b with
         | E_SYMBOL s1, E_SYMBOL s2 => bool_decide (s1 = s2)
         | _, _ => false
         end)).
Proof. destruct ty; cbn [expr_eq E_OP]; by rewrite !expr_copy_id. Qed.

(** Case analysis on two expressions as [expr_eq] does it. *)
Lemma expr_eq_cases f e1 e2 :
  (exists ty l1 r1 l2 r2, e1 = E_OP ty l1 r1 /\ e2 = E_OP ty l2 r2) \/
  (exists a b, e1 = E_NOT a /\ e2 = E_NOT b) \/
  expr_eq (S f) e1 e2 = Some (bool_decide (e1 = e2)).
Proof.
  destruct e1, e2;
    first [ by right; left; eauto
          | by left; exists T_AND; eauto 10
          | by left; exists T_OR; eauto 10
          | right; right; cbn [expr_eq]; f_equal; symmetry ];
    try (by apply bool_decide_eq_false);
    repeat match goal with |- context [bool_decide (?a = ?b)] =>
      destruct (decide (a = b)); simplify_eq;
      [rewrite ?bool_decide_eq_true_2 by done|rewrite ?(bool_decide_eq_false_2 (a = b)) by congruence]
    end; try done; by rewrite ?bool_decide_eq_false_2 by congruence.
Qed.

Lemma expr_eq_sound E fuel e1 e2 :
  expr_eq fuel e1 e2 = Some true -> expr_value E e1 = expr_value E e2.
Proof.
  revert e1 e2. induction fuel as [|f IH]; intros e1 e2 H; [done|].
  destruct (expr_eq_cases f e1 e2) as [(ty & l1 & r1 & l2 & r2 & -> & ->)|[(a & b & -> & ->)|Hc]].
  - rewrite expr_eq_op, (eliminate_eq_with_same _ ty) in H by apply op_of_E_OP.
    apply bind_Some in H as ([a' b'] & H & Hs).
    apply bind_Some in H as ([[a b] n] & He & H). simplify_eq.
    apply (eliminate_eq_sound E) in He as [c [-> ->]]; [|exact IH].
    f_equal. rewrite <- (expr_eliminate_yn_value E a), <- (expr_eliminate_yn_value E b).
    destruct (expr_eliminate_yn a), (expr_eliminate_yn b); simplify_eq.
    apply bool_decide_eq_true in Hs. by subst.
  - simpl in H |- *. f_equal. by apply IH.
  - rewrite Hc in H. simplify_eq. apply bool_decide_eq_true in H. by subst.
Qed.

Lemma expr_eq_total fuel e1 e2 :
  (size e1 + size e2 < fuel)%nat -> is_Some (expr_eq fuel e1 e2).
Proof.
  revert e1 e2. induction fuel as [|f IH]; intros e1 e2 H; [lia|].
  destruct (expr_eq_cases f e1 e2) as [(ty & l1 & r1 & l2 & r2 & -> & ->)|[(a & b & -> & ->)|Hc]].
  - rewrite expr_eq_op, (eliminate_eq_with_same _ ty) by apply op_of_E_OP.
    rewrite eliminate_eq_op. rewrite !size_E_OP in H.
    assert (forall a b, (size a <= size l1 + size r1)%nat ->
              (size b <= S (size l2 + size r2))%nat -> is_Some (expr_eq f a b)) as Ht
      by (intros; apply IH; lia).
    destruct (eliminate_eq_total (expr_eq f) _ _ Ht ty l1 (E_OP ty l2 r2))
      as (l' & a & k1 & -> & _ & Ha); [lia|rewrite size_E_OP; lia|]. cbn [mbind option_bind].
    rewrite size_E_OP in Ha.
    destruct (eliminate_eq_total (expr_eq f) _ _ Ht ty r1 a)
      as (r' & b & k2 & -> & _ & Hb); [lia..|]. cbn [mbind option_bind]. eauto.
  - simpl in *. apply IH. lia.
  - rewrite Hc. eauto.
Qed.
