(* ===== verification/KExprJoin.v ===== *)
(** * Kconfig expressions: joining two operands

    The rewriting rules of [expr_join_or], [expr_join_and] and [expr_transform]
    preserve the value of an expression in every symbol table that
    [sym_calc_value] can produce. *)
From stdpp Require Import options.
From S2P Require Import Prelude CLib KExpr KExprFacts.
Set Default Proof Using "Type*".

(** The string a constant or unknown symbol stands for. *)
Definition const_string (E : symtab) (s : symbol) : cstr :=
  match s with
  | symbol_yes => str "y" | symbol_mod => str "m" | symbol_no => str "n"
  | Sym i => st_val E i
  end.

(** What [sym_calc_value] and [sym_lookup] guarantee of a symbol table, and the
    one restriction on constants: a constant is not a numeral. *)
Record env_ok (E : symtab) : Prop := {
  (** a boolean symbol is [y] or [n] *)
  eo_bool : forall i, st_type E i = S_BOOLEAN -> st_tri E i <> mod_;
  (** a symbol can only be [m] when modules are enabled *)
  eo_tri : forall i, st_type E i = S_TRISTATE -> st_tri E i = mod_ -> st_modules E <> no;
  (** constants are untyped, unique, and not numerals *)
  eo_const_type : forall i, st_const E i = true -> st_type E i = S_UNKNOWN;
  eo_const_inj : forall a b, sym_const E a = true -> sym_const E b = true ->
    const_string E a = const_string E b -> a = b;
  eo_const_num : forall a, sym_const E a = true ->
    expr_parse_string (const_string E a) S_UNKNOWN = k_string }.

Definition bool_or_tri (E : symtab) (s : symbol) : Prop :=
  sym_type E s = S_BOOLEAN \/ sym_type E s = S_TRISTATE.

(** Writes the constant symbols of the goal's comparisons as [sym_of_tri]. *)
Ltac tri_constants :=
  repeat match goal with
  | |- context [expr_value _ (E_COMP ?c ?s ?k)] =>
      match k with
      | symbol_yes => change (E_COMP c s k) with (E_COMP c s (sym_of_tri yes))
      | symbol_mod => change (E_COMP c s k) with (E_COMP c s (sym_of_tri mod_))
      | symbol_no => change (E_COMP c s k) with (E_COMP c s (sym_of_tri no))
      end
  end.

Section Join.
Context (E : symtab) (HE : env_ok E).
#[local] Notation value := (expr_value E).

(** ** Comparisons with constants *)

Lemma sym_const_string c :
  sym_const E c = true -> sym_get_string_value E c = const_string E c.
Proof.
  intros Hc. destruct c as [| | |i]; try done. simpl in Hc.
  unfold sym_get_string_value. simpl. by rewrite (eo_const_type E HE).
Qed.

Lemma sym_const_type c : sym_const E c = true -> sym_type E c = S_UNKNOWN.
Proof. destruct c as [| | |i]; try done. apply (eo_const_type E HE). Qed.

(** A comparison with a constant compares strings. *)
Lemma compare_const s c :
  sym_const E c = true ->
  compare_symbols E s c = strcmp (sym_get_string_value E s) (const_string E c).
Proof.
  intros Hc. unfold compare_symbols, compare_strings. rewrite (sym_const_string c Hc), (sym_const_type c Hc).
  rewrite decide_True by (right; done). rewrite (eo_const_num E HE c Hc).
  by destruct (expr_parse_string _ (sym_type E s)).
Qed.

Lemma bool_or_tri_string s :
  bool_or_tri E s -> sym_get_string_value E s = const_string E (sym_of_tri (sym_tri E s)).
Proof.
  intros Hs. destruct s as [| | |i]; [by destruct Hs..|].
  unfold bool_or_tri in Hs. unfold sym_get_string_value. simpl in *.
  pose proof (eo_bool E HE i) as Hb. pose proof (eo_tri E HE i) as Ht.
  destruct (st_type E i); try (by destruct Hs); destruct (st_tri E i) eqn:Hv; try done.
  - by destruct Hb.
  - by rewrite decide_False by auto.
Qed.

Lemma compare_tri s t :
  bool_or_tri E s -> (compare_symbols E s (sym_of_tri t) = 0 <-> sym_tri E s = t).
Proof.
  intros Hs. rewrite compare_const by by destruct t.
  rewrite (bool_or_tri_string s Hs), strcmp_eq_0.
  destruct (sym_tri E s), t; split; by intros.
Qed.

Lemma value_equal s t :
  bool_or_tri E s ->
  value (E_COMP E_EQUAL s (sym_of_tri t)) = tri_of_bool (bool_decide (sym_tri E s = t)).
Proof.
  intros Hs. simpl. unfold comp_value. f_equal. apply eq_bool_prop_intro.
  rewrite bool_decide_spec, <- (compare_tri s t Hs).
  split; intros H; [by apply Z.eqb_eq, Is_true_true|by apply Is_true_true, Z.eqb_eq].
Qed.

Lemma value_unequal s t :
  bool_or_tri E s ->
  value (E_COMP E_UNEQUAL s (sym_of_tri t)) = EXPR_NOT (value (E_COMP E_EQUAL s (sym_of_tri t))).
Proof. intros _. simpl. unfold comp_value. by destruct (_ =? 0). Qed.

Ltac eval_comps Hs := tri_constants; rewrite ?(value_unequal _ _ Hs), ?(value_equal _ _ Hs).

(** ** The join rules *)

Lemma join_sym1_spec e s :
  join_sym1 e = Some s ->
  e = E_SYMBOL s \/ e = E_NOT (E_SYMBOL s) \/
  (exists r, e = E_COMP E_EQUAL s r) \/ (exists r, e = E_COMP E_UNEQUAL s r) \/
  (exists r, e = E_NOT (E_COMP E_EQUAL s r)) \/ (exists r, e = E_NOT (E_COMP E_UNEQUAL s r)).
Proof.
  destruct e as [|[|[]|?|?|[] ? ?]|?|?|[] ? ?]; simpl; intros; simplify_eq; eauto 10.
Qed.

Lemma join_sym2_spec e s :
  join_sym2 e = Some s ->
  e = E_SYMBOL s \/ e = E_NOT (E_SYMBOL s) \/
  (exists r, e = E_COMP E_EQUAL s r) \/ (exists r, e = E_COMP E_UNEQUAL s r).
Proof.
  destruct e as [|[|[]|?|?|[] ? ?]|?|?|[] ? ?]; simpl; intros; simplify_eq; eauto 10.
Qed.

Lemma pair_is_spec x y a b :
  pair_is x y a b = true -> (x = a /\ y = b) \/ (x = b /\ y = a).
Proof.
  unfold pair_is. rewrite orb_true_iff, !andb_true_iff, !bool_decide_eq_true. done.
Qed.

Lemma bool_not_mod s : sym_type E s = S_BOOLEAN -> sym_tri E s <> mod_.
Proof. destruct s as [| | |i]; try done. apply (eo_bool E HE). Qed.

Lemma value_symbol s : value (E_SYMBOL s) = sym_tri E s.
Proof. done. Qed.
Lemma value_not e : value (E_NOT e) = EXPR_NOT (value e).
Proof. done. Qed.

Lemma expr_join_or_sound fuel e1 e2 x :
  expr_join_or E fuel e1 e2 = Some (Some x) ->
  value x = EXPR_OR (value e1) (value e2).
Proof.
  unfold expr_join_or. intros H. apply bind_Some in H as (b & Heq & H). destruct b.
  { simplify_eq. apply (expr_eq_sound E) in Heq. rewrite expr_copy_id, <- Heq.
    symmetry. apply (opv_idem T_OR). }
  destruct (join_sym1 e1) as [s|] eqn:H1; [|done].
  destruct (join_sym2 e2) as [s2|] eqn:H2; [|done]. case_decide; [subst s2|done].
  destruct (sym_type E s) eqn:Ht; try done.
  - assert (bool_or_tri E s) as Hs by (by left).
    pose proof (bool_not_mod s Ht) as Hm.
    destruct e1 as [|[]| | |], e2 as [|[]| | |]; try done; simpl in H1, H2; simplify_eq;
      simpl; by destruct (sym_tri E s).
  - assert (bool_or_tri E s) as Hs by (by right).
    destruct e1 as [| | | |[] ? r1], e2 as [| | | |[] ? r2]; try done.
    simpl in H1, H2. simplify_eq.
    repeat match type of H with context [if pair_is ?a ?b ?c ?d then _ else _] =>
      destruct (pair_is a b c d) eqn:Hp;
        [apply pair_is_spec in Hp as [[-> ->]|[-> ->]]; simplify_eq; eval_comps Hs;
         by destruct (sym_tri E s)
        |clear Hp] end.
    done.
Qed.

Lemma sym_and_cmp_spec op c e1 e2 s :
  join_sym1 e1 = Some s -> join_sym2 e2 = Some s -> sym_and_cmp op c e1 e2 = true ->
  (e1 = E_SYMBOL s /\ e2 = E_COMP op s c) \/ (e1 = E_COMP op s c /\ e2 = E_SYMBOL s).
Proof.
  destruct e1 as [| | | |o1 l1 r1], e2 as [| | | |o2 l2 r2]; try done; simpl; intros H1 H2 H;
    apply andb_prop in H as [Ho Hr]; rewrite bool_decide_eq_true in Ho, Hr; subst.
  - left. destruct op; by simplify_eq.
  - right. destruct op; by simplify_eq.
Qed.

Lemma value_equal_const s c :
  sym_const E c = true ->
  value (E_COMP E_EQUAL s c) =
  tri_of_bool (bool_decide (sym_get_string_value E s = const_string E c)).
Proof.
  intros Hc. simpl. unfold comp_value. f_equal. rewrite compare_const by done.
  apply eq_bool_prop_intro. rewrite bool_decide_spec, <- strcmp_eq_0.
  split; intros H; [by apply Z.eqb_eq, Is_true_true|by apply Is_true_true, Z.eqb_eq].
Qed.

Lemma value_unequal_not s c :
  value (E_COMP E_UNEQUAL s c) = EXPR_NOT (value (E_COMP E_EQUAL s c)).
Proof. simpl. unfold comp_value. by destruct (_ =? 0). Qed.

(** (a='b') && (a!='c') *)
Lemma equal_unequal_const s b c :
  sym_const E b = true -> sym_const E c = true ->
  value (if decide (b = c) then E_SYMBOL symbol_no else E_COMP E_EQUAL s b) =
  EXPR_AND (value (E_COMP E_EQUAL s b)) (value (E_COMP E_UNEQUAL s c)).
Proof.
  intros Hb Hc. rewrite value_unequal_not. case_decide as Hbc.
  - subst. rewrite value_equal_const by done. by destruct (bool_decide _).
  - rewrite !value_equal_const by done.
    destruct (decide (sym_get_string_value E s = const_string E b)) as [Hsb|Hsb].
    + rewrite (bool_decide_eq_false_2 (sym_get_string_value E s = const_string E c)).
      * by rewrite bool_decide_eq_true_2.
      * rewrite Hsb. intros Heq. apply Hbc. by apply (eo_const_inj E HE).
    + rewrite bool_decide_eq_false_2 by done. by destruct (bool_decide _).
Qed.

Lemma expr_join_and_sound fuel e1 e2 x :
  expr_join_and E fuel e1 e2 = Some (Some x) ->
  value x = EXPR_AND (value e1) (value e2).
Proof.
  unfold expr_join_and. intros H. apply bind_Some in H as (b & Heq & H). destruct b.
  { simplify_eq. apply (expr_eq_sound E) in Heq. rewrite expr_copy_id, <- Heq.
    symmetry. apply (opv_idem T_AND). }
  destruct (join_sym1 e1) as [s|] eqn:H1; [|done].
  destruct (join_sym2 e2) as [s2|] eqn:H2; [|done]. case_decide; [subst s2|done].
  case_decide as Hs; [|done]. fold (bool_or_tri E s) in Hs.
  do 3 match type of H with context [if sym_and_cmp ?o ?c e1 e2 then _ else _] =>
    destruct (sym_and_cmp o c e1 e2) eqn:Hp;
      [apply (sym_and_cmp_spec _ _ _ _ s H1 H2) in Hp as [[-> ->]|[-> ->]]; simplify_eq;
       eval_comps Hs; rewrite ?value_symbol; by destruct (sym_tri E s)
      |clear Hp] end.
  destruct (sym_type E s); try done.
  destruct e1 as [| | | |[] ? r1], e2 as [| | | |[] ? r2]; try done; simpl in H1, H2; simplify_eq.
  - destruct (sym_const E r2) eqn:Hc2, (sym_const E r1) eqn:Hc1; simpl in H; simplify_eq.
    by apply equal_unequal_const.
  - destruct (sym_const E r1) eqn:Hc1, (sym_const E r2) eqn:Hc2; simpl in H; simplify_eq.
    rewrite (equal_unequal_const _ r2 r1) by done. apply (opv_comm T_AND).
  - repeat match type of H with context [if pair_is ?a ?b ?c ?d then _ else _] =>
      destruct (pair_is a b c d) eqn:Hp;
        [apply pair_is_spec in Hp as [[-> ->]|[-> ->]]; simplify_eq; eval_comps Hs;
         by destruct (sym_tri E s)
        |clear Hp] end.
    done.
Qed.

Lemma expr_join_sound ty e1 e2 x :
  expr_join E ty e1 e2 = Some (Some x) -> value x = opv ty (value e1) (value e2).
Proof. destruct ty; [apply expr_join_or_sound|apply expr_join_and_sound]. Qed.
End Join.
