(* ===== verification/KExprDups.v ===== *)
(** * Kconfig expressions: removal of duplicate operands

    [expr_eliminate_dups1] works in place on two slots of one tree.  Here: the
    slots it visits are the operands of the cluster of [ty] nodes at the root
    of the tree ([slot]), replacing an operand keeps the cluster ([shape]), and
    every pass returns, keeps the value, and either changes nothing or leaves a
    constant operand behind that [expr_eliminate_yn] then removes. *)
From stdpp Require Import options.
From S2P Require Import Prelude CLib KExpr KExprFacts KExprJoin.
Set Default Proof Using "Type*".

(** ** Slots of a cluster *)

(** [slot ty s p e]: following [p] through [ty] nodes of [s] leads to [e]. *)
Inductive slot (ty : optype) : expr -> list dir -> expr -> Prop :=
| slot_here s : slot ty s [] s
| slot_left l r p e : slot ty l p e -> slot ty (E_OP ty l r) (DL :: p) e
| slot_right l r p e : slot ty r p e -> slot ty (E_OP ty l r) (DR :: p) e.

(** Two trees with the same cluster of [ty] nodes at the root. *)
Inductive shape (ty : optype) : expr -> expr -> Prop :=
| shape_leaf s s' : op_of s <> Some ty -> op_of s' <> Some ty -> shape ty s s'
| shape_op l r l' r' :
    shape ty l l' -> shape ty r r' -> shape ty (E_OP ty l r) (E_OP ty l' r').

(** Height of the cluster. *)
Fixpoint height (ty : optype) (e : expr) : nat :=
  match ty, e with
  | T_OR, E_OR l r | T_AND, E_AND l r => S (max (height ty l) (height ty r))
  | _, _ => O
  end.

#[export] Hint Constructors slot shape : kexpr.

Lemma get_at_nil e : get_at e [] = Some e.
Proof. by destruct e. Qed.

Lemma put_at_nil e x : put_at e [] x = x.
Proof. by destruct e. Qed.
#[export] Hint Rewrite get_at_nil put_at_nil : kexpr.

Section Slots.
Context (ty : optype).

Lemma E_OP_inj l r l' r' : E_OP ty l r = E_OP ty l' r' -> l = l' /\ r = r'.
Proof. destruct ty; intros; by simplify_eq. Qed.

Lemma height_op l r : height ty (E_OP ty l r) = S (max (height ty l) (height ty r)).
Proof. by destruct ty. Qed.

Lemma height_leaf e : op_of e <> Some ty -> height ty e = O.
Proof. destruct ty, e; simpl; congruence. Qed.

Lemma height_size e : (height ty e < size e)%nat.
Proof.
  induction e as [e He|l r IHl IHr] using (cluster_ind ty).
  - rewrite height_leaf by done. pose proof (size_pos e). lia.
  - rewrite height_op, size_E_OP. lia.
Qed.

Lemma shape_refl e : shape ty e e.
Proof. induction e using (cluster_ind ty); auto with kexpr. Qed.

Lemma shape_leaf_l s s' : shape ty s s' -> op_of s <> Some ty -> op_of s' <> Some ty.
Proof. intros Hs Hn. destruct Hs; [done|]. by rewrite op_of_E_OP in Hn. Qed.

Lemma shape_op_l l r s' :
  shape ty (E_OP ty l r) s' ->
  exists l' r', s' = E_OP ty l' r' /\ shape ty l l' /\ shape ty r r'.
Proof.
  inversion 1 as [? ? Hn|? ? l' r' ? ? Heq]; subst.
  - by rewrite op_of_E_OP in Hn.
  - apply E_OP_inj in Heq as [-> ->]. eauto.
Qed.

Lemma shape_trans a b c : shape ty a b -> shape ty b c -> shape ty a c.
Proof.
  intros H. revert c. induction H as [s s' Hs Hs'|l r l' r' _ IHl _ IHr]; intros c Hc.
  - constructor; [done|]. by eapply shape_leaf_l.
  - apply shape_op_l in Hc as (l'' & r'' & -> & ? & ?). auto with kexpr.
Qed.

Lemma shape_height a b : shape ty a b -> height ty a = height ty b.
Proof.
  induction 1 as [s s' Hs Hs'|l r l' r' _ IHl _ IHr].
  - by rewrite !height_leaf.
  - by rewrite !height_op, IHl, IHr.
Qed.

Lemma slot_get s p e : slot ty s p e -> get_at s p = Some e.
Proof. induction 1; [apply get_at_nil|..]; by destruct ty. Qed.

Lemma slot_child s p l r :
  slot ty s p (E_OP ty l r) -> slot ty s (p ++ [DL]) l /\ slot ty s (p ++ [DR]) r.
Proof.
  intros H. remember (E_OP ty l r) as e eqn:He. revert He.
  induction H as [s|l' r' p e _ IH|l' r' p e _ IH]; intros ->;
    [split; simpl; auto with kexpr|..];
    destruct (IH eq_refl); split; simpl; auto with kexpr.
Qed.

Lemma slot_shape s s' p e :
  shape ty s s' -> slot ty s p e -> exists e', slot ty s' p e' /\ shape ty e e'.
Proof.
  intros Hs Hp. revert s' Hs. induction Hp as [s|l r p e _ IH|l r p e _ IH];
    intros s' Hs; [eauto with kexpr|..];
    apply shape_op_l in Hs as (l' & r' & -> & Hl & Hr).
  - destruct (IH l' Hl) as (e' & ? & ?); eauto with kexpr.
  - destruct (IH r' Hr) as (e' & ? & ?); eauto with kexpr.
Qed.

Lemma put_at_op l r d p x :
  put_at (E_OP ty l r) (d :: p) x =
  match d with DL => E_OP ty (put_at l p x) r | DR => E_OP ty l (put_at r p x) end.
Proof. by destruct ty, d. Qed.

Lemma slot_put s p e x : slot ty s p e -> slot ty (put_at s p x) p x.
Proof.
  induction 1; [rewrite put_at_nil; constructor|..]; rewrite put_at_op; auto with kexpr.
Qed.

Lemma put_at_same s p e : slot ty s p e -> put_at s p e = s.
Proof.
  induction 1 as [|? ? ? ? ? IH|? ? ? ? ? IH]; [apply put_at_nil|..]; by rewrite put_at_op, IH.
Qed.

Lemma put_at_shape s p e x : slot ty s p e -> shape ty e x -> shape ty s (put_at s p x).
Proof.
  induction 1; intros Hx; [by rewrite put_at_nil|..]; rewrite put_at_op; auto using shape_refl with kexpr.
Qed.

Lemma put_at_size s p e x :
  slot ty s p e -> (size (put_at s p x) + size e = size s + size x)%nat.
Proof.
  induction 1; [rewrite put_at_nil; lia|..]; rewrite put_at_op, !size_E_OP; lia.
Qed.

Lemma slot_leaf_here s p e : op_of s <> Some ty -> slot ty s p e -> p = [] /\ e = s.
Proof. intros Hs Hp. destruct Hp; [done|..]; by rewrite op_of_E_OP in Hs. Qed.

Lemma slot_op_inv l r p e :
  slot ty (E_OP ty l r) p e -> op_of e <> Some ty ->
  exists d q, p = d :: q /\ slot ty (match d with DL => l | DR => r end) q e.
Proof.
  inversion 1 as [|l' r' q ? ? Heq|l' r' q ? ? Heq]; subst; intros He.
  - by rewrite op_of_E_OP in He.
  - apply E_OP_inj in Heq as [-> ->]. by exists DL, q.
  - apply E_OP_inj in Heq as [-> ->]. by exists DR, q.
Qed.

(** Writing one operand does not touch another one. *)
Lemma slot_put_ne s p q e1 e2 x :
  slot ty s p e1 -> slot ty s q e2 ->
  op_of e1 <> Some ty -> op_of e2 <> Some ty -> p <> q ->
  slot ty (put_at s p x) q e2.
Proof.
  intros Hp Hq H1 H2. revert q Hq. induction Hp as [s|l r p e Hp IH|l r p e Hp IH];
    intros q Hq Hne.
  - apply slot_leaf_here in Hq as [-> _]; [done|done].
  - apply slot_op_inv in Hq as ([] & q' & -> & Hq); [..|done]; rewrite put_at_op;
      constructor; [|done]. apply IH; [done..|congruence].
  - apply slot_op_inv in Hq as ([] & q' & -> & Hq); [..|done]; rewrite put_at_op;
      constructor; [done|]. apply IH; [done..|congruence].
Qed.

Lemma slot_ne_root s p q e1 e2 :
  slot ty s p e1 -> slot ty s q e2 -> op_of e1 <> Some ty -> p <> q -> p <> [].
Proof.
  intros Hp Hq H1 Hne ->. inversion Hp; subst.
  apply slot_leaf_here in Hq as [-> _]; done.
Qed.

Lemma slot_size s p e : slot ty s p e -> p <> [] -> (size e < size s)%nat.
Proof.
  intros H. induction H as [|l r p e H IH|l r p e H IH]; [done|..]; intros _;
    rewrite size_E_OP; destruct p; try (inversion H; subst; lia);
    specialize (IH ltac:(done)); lia.
Qed.

Lemma reducible_op l r :
  reducible (E_OP ty l r) = is_yn l || is_yn r || reducible l || reducible r.
Proof. by destruct ty. Qed.

Lemma slot_reducible s p e : slot ty s p e -> reducible e = true -> reducible s = true.
Proof. induction 1; [done|..]; intros; rewrite reducible_op, !orb_true_iff; auto. Qed.

Lemma slot_yn_reducible s p e :
  slot ty s p e -> p <> [] -> is_yn e = true -> reducible s = true.
Proof.
  induction 1 as [|l r p e H IH|l r p e H IH]; [done|..]; intros _ He;
    rewrite reducible_op, !orb_true_iff; destruct p;
    try (inversion H; subst; auto); auto.
Qed.

(** ** The value of a cluster as a function of its operands *)

Section Value.
Context (E : symtab).

Lemma put_value s p e :
  slot ty s p e ->
  exists c, forall x, expr_value E (put_at s p x) = opv ty c (expr_value E x).
Proof.
  induction 1 as [s|l r p e _ [c IH]|l r p e _ [c IH]].
  - exists (unit_tri ty). intros. by rewrite put_at_nil, opv_unit_l.
  - exists (opv ty (expr_value E r) c). intros x.
    by rewrite put_at_op, value_E_OP, IH, opv_comm, opv_assoc.
  - exists (opv ty (expr_value E l) c). intros x.
    by rewrite put_at_op, value_E_OP, IH, opv_assoc.
Qed.

Lemma put_value2 s p q e1 e2 :
  slot ty s p e1 -> slot ty s q e2 ->
  op_of e1 <> Some ty -> op_of e2 <> Some ty -> p <> q ->
  exists c, forall x y, expr_value E (put_at (put_at s p x) q y) =
                        opv ty c (opv ty (expr_value E x) (expr_value E y)).
Proof.
  intros Hp Hq H1 H2. revert q Hq. induction Hp as [s|l r p e Hp IH|l r p e Hp IH];
    intros q Hq Hne.
  - apply slot_leaf_here in Hq as [-> _]; done.
  - apply slot_op_inv in Hq as ([] & q' & -> & Hq); [..|done].
    + destruct (IH H1 q' Hq ltac:(congruence)) as [c Hc].
      exists (opv ty (expr_value E r) c). intros x y.
      by rewrite !put_at_op, value_E_OP, Hc, opv_comm, opv_assoc.
    + destruct (put_value _ _ _ Hp) as [c1 Hc1], (put_value _ _ _ Hq) as [c2 Hc2].
      exists (opv ty c1 c2). intros x y.
      rewrite !put_at_op, value_E_OP, Hc1, Hc2. apply opv_swap.
  - apply slot_op_inv in Hq as ([] & q' & -> & Hq); [..|done].
    + destruct (put_value _ _ _ Hp) as [c1 Hc1], (put_value _ _ _ Hq) as [c2 Hc2].
      exists (opv ty c1 c2). intros x y.
      rewrite !put_at_op, value_E_OP, Hc1, Hc2, opv_comm. apply opv_swap.
    + destruct (IH H1 q' Hq ltac:(congruence)) as [c Hc].
      exists (opv ty (expr_value E l) c). intros x y.
      by rewrite !put_at_op, value_E_OP, Hc, opv_assoc.
Qed.
End Value.
End Slots.

(** ** One pass *)

Section Dups.
Context (E : symtab) (HE : env_ok E).
#[local] Notation value := (expr_value E).

Lemma expr_join_total ty e1 e2 : exists r, expr_join E ty e1 e2 = Some r.
Proof.
  destruct (expr_eq_total (eq_fuel e1 e2) e1 e2) as [b Hb]; [unfold eq_fuel; lia|].
  destruct ty; simpl; unfold expr_join_or, expr_join_and; rewrite Hb; simpl; destruct b; eauto.
Qed.

(** The joined operand is a copy of the first one or a single node. *)
Lemma expr_join_result ty e1 e2 x :
  expr_join E ty e1 e2 = Some (Some x) -> x = e1 \/ (op_of x = None /\ size x = 1%nat).
Proof.
  destruct ty; simpl; unfold expr_join_or, expr_join_and; intros H;
    apply bind_Some in H as ([] & _ & H); simplify_eq; rewrite ?expr_copy_id; auto; right;
    repeat (first [done|dmatch_in H]); simplify_eq; done.
Qed.

(** What a pass that started from [s] guarantees of its result. *)
Record pass_ok (ty : optype) (s s' : expr) (n : nat) : Prop := {
  po_shape : shape ty s s';
  po_value : value s' = value s;
  po_size : (size s' <= size s)%nat;
  po_count : (n = O /\ s' = s) \/ ((0 < n)%nat /\ reducible s' = true) }.

Lemma pass_ok_refl ty s : pass_ok ty s s 0.
Proof. constructor; auto using shape_refl. Qed.

Lemma pass_ok_trans ty a b c n1 n2 :
  pass_ok ty a b n1 -> pass_ok ty b c n2 -> pass_ok ty a c (n1 + n2).
Proof.
  intros [? ? ? H1] [? ? ? H2]. constructor.
  - by eapply shape_trans.
  - congruence.
  - lia.
  - destruct H1 as [[-> ->]|[]], H2 as [[-> ->]|[]]; [left; auto|right..]; split; auto; lia.
Qed.

(** Replacing the first operand by its simplified form. *)
Lemma pass_ok_put ty ty' s p e e' n :
  slot ty s p e -> op_of e <> Some ty -> op_of e = Some ty' -> pass_ok ty' e e' n ->
  pass_ok ty s (put_at s p e') n.
Proof.
  intros Hp He He' [Hsh Hv Hsz Hn]. constructor.
  - eapply put_at_shape; [done|]. constructor; [done|].
    apply op_of_Some in He' as (l & r & ->).
    apply shape_op_l in Hsh as (l' & r' & -> & _). by rewrite op_of_E_OP in *.
  - destruct (put_value ty E s p e Hp) as [c Hc].
    rewrite Hc, Hv, <- Hc. by rewrite (put_at_same ty).
  - pose proof (put_at_size ty s p e e' Hp). lia.
  - destruct Hn as [[-> ->]|[Hn Hr]]; [left|right].
    + split; [done|]. by eapply put_at_same.
    + split; [done|]. eapply slot_reducible; [by eapply slot_put|done].
Qed.

(** Merging two operands into the second slot. *)
Lemma pass_ok_join ty s p q e1 e2 x :
  slot ty s p e1 -> slot ty s q e2 ->
  op_of e1 <> Some ty -> op_of e2 <> Some ty -> p <> q ->
  expr_join E ty e1 e2 = Some (Some x) ->
  pass_ok ty s (put_at (put_at s p (E_SYMBOL (unit_sym ty))) q x) 1.
Proof.
  intros Hp Hq H1 H2 Hne Hx. set (u := E_SYMBOL (unit_sym ty)).
  pose proof (slot_put_ne ty s p q e1 e2 u Hp Hq H1 H2 Hne) as Hq'.
  assert (op_of x <> Some ty) as Hox.
  { apply expr_join_result in Hx as [-> |[-> _]]; done. }
  constructor.
  - eapply shape_trans; [apply (put_at_shape _ _ _ _ u Hp); by constructor|].
    eapply put_at_shape; [done|by constructor].
  - destruct (put_value2 ty E s p q e1 e2 Hp Hq H1 H2 Hne) as [c Hc].
    rewrite Hc. unfold u. rewrite value_unit, opv_unit_l.
    rewrite (expr_join_sound E HE _ _ _ _ Hx), <- Hc.
    rewrite (put_at_same ty s p) by done. by rewrite (put_at_same ty s q).
  - pose proof (put_at_size ty s p e1 u Hp). pose proof (put_at_size ty _ q e2 x Hq').
    pose proof (size_pos e1). pose proof (size_pos e2).
    apply expr_join_result in Hx as [-> |[_ Hx]]; change (size u) with 1%nat in *; lia.
  - right. split; [lia|]. eapply (slot_yn_reducible ty _ p u).
    + apply (slot_put_ne ty _ q p e2 u x Hq'); [by eapply slot_put|done..].
    + by eapply slot_ne_root.
    + by destruct ty.
Qed.

(** The two recursive calls on the operands of a node. *)
Lemma dups1_step ty s (call1 call2 : expr -> option (expr * nat)) :
  (exists s1 n1, call1 s = Some (s1, n1) /\ pass_ok ty s s1 n1) ->
  (forall s1 n1, pass_ok ty s s1 n1 ->
     exists s2 n2, call2 s1 = Some (s2, n2) /\ pass_ok ty s1 s2 n2) ->
  exists s' n, ('(s1, n1) ← call1 s; '(s2, n2) ← call2 s1; Some (s2, (n1 + n2)%nat))
               = Some (s', n) /\ pass_ok ty s s' n.
Proof.
  intros (s1 & n1 & H1 & Hok1) H2. destruct (H2 s1 n1 Hok1) as (s2 & n2 & H2' & Hok2).
  exists s2, (n1 + n2)%nat. rewrite H1. simpl. rewrite H2'. simpl.
  split; [done|]. by eapply pass_ok_trans.
Qed.

Lemma dups1_ok fuel : forall ty s p q e1 e2 n,
  slot ty s p e1 -> slot ty s q e2 -> (size s <= n)%nat ->
  (height ty e1 + height ty e2 + n * n < fuel)%nat ->
  exists s' k, expr_eliminate_dups1 E fuel ty s p q = Some (s', k) /\ pass_ok ty s s' k.
Proof.
  induction fuel as [|f IH]; intros ty s p q e1 e2 n Hp Hq Hn Hf; [lia|].
  cbn [expr_eliminate_dups1].
  rewrite (slot_get _ _ _ _ Hp), (slot_get _ _ _ _ Hq). cbn [mbind option_bind].
  case_decide as H1; [|case_decide as H2; [|case_decide as Hne]].
  - apply op_of_Some in H1 as (l & r & ->). apply slot_child in Hp as [Hl Hr].
    rewrite height_op in Hf.
    apply (dups1_step ty s (fun s => expr_eliminate_dups1 E f ty s (p ++ [DL]) q)
      (fun s => expr_eliminate_dups1 E f ty s (p ++ [DR]) q)).
    + eapply IH; [exact Hl|exact Hq|exact Hn|lia].
    + intros s1 n1 [Hsh _ Hsz _].
      destruct (slot_shape _ _ _ _ _ Hsh Hr) as (r' & Hr' & Hsr%shape_height).
      destruct (slot_shape _ _ _ _ _ Hsh Hq) as (e2' & Hq' & Hse%shape_height).
      eapply (IH _ _ _ _ _ _ n); [exact Hr'|exact Hq'|lia|lia].
  - apply op_of_Some in H2 as (l & r & ->). apply slot_child in Hq as [Hl Hr].
    rewrite height_op in Hf.
    apply (dups1_step ty s (fun s => expr_eliminate_dups1 E f ty s p (q ++ [DL]))
      (fun s => expr_eliminate_dups1 E f ty s p (q ++ [DR]))).
    + eapply IH; [exact Hp|exact Hl|exact Hn|lia].
    + intros s1 n1 [Hsh _ Hsz _].
      destruct (slot_shape _ _ _ _ _ Hsh Hr) as (r' & Hr' & Hsr%shape_height).
      destruct (slot_shape _ _ _ _ _ Hsh Hp) as (e1' & Hp' & Hse%shape_height).
      eapply (IH _ _ _ _ _ _ n); [exact Hp'|exact Hr'|lia|lia].
  - eauto using pass_ok_refl.
  - assert (exists e1' k, match op_of e1 with
      | Some ty' => expr_eliminate_dups1 E f ty' e1 [] []
      | None => Some (e1, 0%nat) end = Some (e1', k) /\ op_of e1' <> Some ty /\
      pass_ok ty s (put_at s p e1') k) as (e1' & k & -> & Ho & Hok).
    { destruct (op_of e1) as [ty'|] eqn:Ho.
      - pose proof (slot_size _ _ _ _ Hp (slot_ne_root _ _ _ _ _ _ Hp Hq ltac:(congruence) Hne)).
        pose proof (height_size ty' e1).
        destruct (IH ty' e1 [] [] e1 e1 (size e1)) as (e1' & k & Hc & Hk);
          [constructor|constructor|lia|nia|].
        exists e1', k. split; [done|]. split.
        + destruct (proj1 (op_of_Some _ _) Ho) as (l & r & ->).
          destruct (shape_op_l _ _ _ _ (po_shape _ _ _ _ Hk)) as (l' & r' & -> & _).
          by rewrite op_of_E_OP in *.
        + by eapply pass_ok_put; [|rewrite Ho| |].
      - exists e1, O. split; [done|]. split; [congruence|].
        rewrite (put_at_same ty) by done. apply pass_ok_refl. }
    simpl. assert (op_of e1 <> Some ty) by done.
    pose proof (slot_put_ne ty s p q e1 e2 e1' Hp Hq H1 H2 Hne) as Hq'.
    pose proof (slot_put ty s p e1 e1' Hp) as Hp'.
    rewrite (slot_get _ _ _ _ Hq'). simpl.
    destruct (expr_join_total ty e1' e2) as [[x|] Hx]; rewrite Hx; simpl; [|eauto].
    exists (put_at (put_at (put_at s p e1') p (E_SYMBOL (unit_sym ty))) q x), (k + 1)%nat.
    split; [by rewrite Nat.add_1_r|].
    eapply pass_ok_trans; [exact Hok|]. by eapply pass_ok_join.
Qed.

(** ** The loop *)

Lemma eliminate_dups_loop_ok fuel e :
  (size e < fuel)%nat ->
  exists e', eliminate_dups_loop E fuel e = Some e' /\ value e' = value e /\
             (size e' <= size e)%nat.
Proof.
  revert e. induction fuel as [|f IH]; intros e Hf; [lia|]. cbn [eliminate_dups_loop].
  assert (exists e' n, match op_of e with
      | Some ty => expr_eliminate_dups1 E (dups_fuel e) ty e [] []
      | None => Some (e, 0%nat) end = Some (e', n) /\ exists ty, pass_ok ty e e' n)
    as (e' & n & -> & ty & [_ Hv Hsz Hn]).
  { destruct (op_of e) as [ty|].
    - destruct (dups1_ok (dups_fuel e) ty e [] [] e e (size e)) as (e' & n & ? & ?);
        [constructor|constructor|done| |eauto 6].
      unfold dups_fuel. pose proof (height_size ty e). nia.
    - exists e, O. split; [done|]. exists T_OR. apply pass_ok_refl. }
  simpl. case_decide as Hc; [eauto|]. destruct Hn as [[-> _]|[_ Hr]]; [done|].
  pose proof (expr_eliminate_yn_shrinks _ Hr).
  destruct (IH (expr_eliminate_yn e')) as (e'' & ? & Hv' & ?); [lia|].
  exists e''. split_and!; [done| |lia]. by rewrite Hv', expr_eliminate_yn_value.
Qed.

Lemma expr_eliminate_dups_ok e :
  exists e', expr_eliminate_dups E e = Some e' /\ value e' = value e /\
             (size e' <= size e)%nat.
Proof. apply eliminate_dups_loop_ok. lia. Qed.
End Dups.
