(* ===== verification/KExprProps.v ===== *)
(** * Kconfig expressions: the theorems

    The simplifier of [menu_finalize] (expr_transform, then
    expr_eliminate_dups) returns for every expression and keeps its value; the
    comparisons of expressions are sound; the dependency tests of
    [menu_finalize] imply the semantic dependency; and the places where the
    code is not exact (numerals as constants, negation of [m]). *)
From stdpp Require Import options.
From S2P Require Import Prelude CLib KExpr KExprFacts KExprJoin KExprDups KExprTransform.
Set Default Proof Using "Type*".

(** A symbol table: 0 is a boolean set to [y], 1 a tristate set to [m], 2 a
    tristate set to [n], 3 the constant ["foo"]. *)
Definition demo_tab : symtab := {|
  st_type i := match i with 0 => S_BOOLEAN | 1 | 2 => S_TRISTATE | _ => S_UNKNOWN end%nat;
  st_const i := bool_decide (i = 3%nat);
  st_tri i := match i with 0 => yes | 1 => mod_ | _ => no end%nat;
  st_val i := match i with 3 => str "foo" | _ => [] end%nat;
  st_modules := yes |}.

Lemma demo_const a :
  sym_const demo_tab a = true ->
  a = symbol_yes \/ a = symbol_mod \/ a = symbol_no \/ a = Sym 3.
Proof. destruct a as [| | |i]; simpl; auto. rewrite bool_decide_eq_true. intros ->. auto. Qed.

Lemma demo_tab_ok : env_ok demo_tab.
Proof.
  constructor.
  - by intros [|[|[|i]]].
  - by intros [|[|[|i]]].
  - intros i. simpl. by rewrite bool_decide_eq_true; intros ->.
  - intros a b Ha%demo_const Hb%demo_const.
    destruct Ha as [-> |[-> |[-> | ->]]], Hb as [-> |[-> |[-> | ->]]]; done.
  - intros a Ha%demo_const. destruct Ha as [-> |[-> |[-> | ->]]]; reflexivity.
Qed.

(** ** The simplifier *)

(** C3: Simplification as [menu_finalize] does it - [expr_transform] followed
    by [expr_eliminate_dups] - terminates on every expression and keeps the value
    of the expression in every symbol table that satisfies [env_ok]: a boolean symbol is y
    or n, a symbol is m only when modules are enabled, constants are untyped, distinct and not
    numerals (for numerals the value can change: [join_and_numerals]).  The first stage
    leaves only symbols negated, and the second never enlarges the expression. *)
Theorem kconfig_simplify_correct (E : symtab) (e : expr) :
  env_ok E ->
  exists e1 e2,
    expr_transform E e = Some e1 /\ expr_eliminate_dups E e1 = Some e2 /\
    expr_value E e1 = expr_value E e /\ expr_value E e2 = expr_value E e /\
    normal E e1 = true /\ (size e2 <= size e1)%nat.
Proof.
  intros HE. destruct (transform_ok E HE (S (weight e)) e) as (e1 & H1 & _ & Hv1 & Hn); [lia|].
  destruct (expr_eliminate_dups_ok E HE e1) as (e2 & H2 & Hv2 & Hs).
  exists e1, e2. split_and!; try done. congruence.
Qed.

(** !(A || !B) && (A != n || B = m) && B *)
Definition demo_expr : expr :=
  E_AND (E_AND (E_NOT (E_OR (E_SYMBOL (Sym 0)) (E_NOT (E_SYMBOL (Sym 1)))))
               (E_OR (E_COMP E_UNEQUAL (Sym 0) symbol_no) (E_COMP E_EQUAL (Sym 1) symbol_mod)))
        (E_SYMBOL (Sym 1)).

Lemma kconfig_simplify_correct_witness :
  exists e1 e2,
    expr_transform demo_tab demo_expr = Some e1 /\
    expr_eliminate_dups demo_tab e1 = Some e2 /\
    expr_value demo_tab e1 = no /\ expr_value demo_tab e2 = no /\
    normal demo_tab e1 = true /\ (size e2 <= size e1)%nat.
Proof. apply (kconfig_simplify_correct demo_tab demo_expr), demo_tab_ok. Defined.

Example simplify_demo :
  (e ← expr_transform demo_tab demo_expr; expr_eliminate_dups demo_tab e) =
  Some (E_AND (E_AND (E_NOT (E_SYMBOL (Sym 0)))
                     (E_OR (E_SYMBOL (Sym 0)) (E_COMP E_EQUAL (Sym 1) symbol_mod)))
              (E_SYMBOL (Sym 1))).
Proof. vm_compute. reflexivity. Qed.

(** [expr_eliminate_yn] keeps the value, never enlarges an expression, and
    leaves no [y] or [n] as an operand of [&&] or [||]. *)
Theorem eliminate_yn_correct (E : symtab) (e : expr) :
  expr_value E (expr_eliminate_yn e) = expr_value E e /\
  (size (expr_eliminate_yn e) <= size e)%nat /\
  reducible (expr_eliminate_yn e) = false.
Proof.
  split_and!; [apply expr_eliminate_yn_value|apply expr_eliminate_yn_size|
               apply expr_eliminate_yn_irreducible].
Qed.

(** ** Comparison of expressions *)

(** C38: [expr_eq] terminates - a recursion depth of one more than the sizes of
    its arguments is enough - and when it answers 1 the two expressions have the
    same value whatever the symbols are set to. *)
Theorem expr_eq_correct (e1 e2 : expr) :
  exists b, expr_eq (eq_fuel e1 e2) e1 e2 = Some b /\
            (b = true -> forall E, expr_value E e1 = expr_value E e2).
Proof.
  destruct (expr_eq_total (eq_fuel e1 e2) e1 e2) as [b Hb]; [unfold eq_fuel; lia|].
  exists b. split; [done|]. intros -> E. by eapply expr_eq_sound.
Qed.

Definition tri_le (a b : tristate) : Prop := tri_val a <= tri_val b.

Lemma opv_mono ty a b c : tri_le a b -> tri_le (opv ty c a) (opv ty c b).
Proof. unfold tri_le. destruct ty, a, b, c; simpl; lia. Qed.

Lemma common_le E ty c e1 e2 e1' e2' :
  common E ty c e1 e2 e1' e2' ->
  tri_le (expr_value E e1') (expr_value E e2') -> tri_le (expr_value E e1) (expr_value E e2).
Proof. intros [-> ->]. apply opv_mono. Qed.

Lemma eliminate_pass_total f e1 e2 (o : option optype) :
  (size e1 + size e2 < f)%nat ->
  exists e1' e2' n,
    match o with
    | Some ty => eliminate_eq (expr_eq f) ty e1 e2
    | None => Some (e1, e2, 0%nat)
    end = Some (e1', e2', n) /\ (size e1' <= size e1)%nat /\ (size e2' <= size e2)%nat /\
    forall E, tri_le (expr_value E e1') (expr_value E e2') ->
              tri_le (expr_value E e1) (expr_value E e2).
Proof.
  intros Hf. destruct o as [ty|]; [|by exists e1, e2, O].
  destruct (eliminate_eq_total (expr_eq f) (size e1) (size e2)) with (ty := ty) (e1 := e1) (e2 := e2)
    as (e1' & e2' & n & He & H1 & H2); [|lia|lia|].
  { intros a b Ha Hb. apply expr_eq_total. lia. }
  exists e1', e2', n. split_and!; [done..|]. intros E.
  destruct (eliminate_eq_sound E (expr_eq f)) with (1 := fun a b => expr_eq_sound E f a b) (2 := He)
    as [c Hc]. by apply (common_le E ty c).
Qed.

Lemma eliminate_eq_with_implies f e1 e2 :
  (size e1 + size e2 < f)%nat ->
  exists e1' e2', expr_eliminate_eq_with (expr_eq f) e1 e2 = Some (e1', e2') /\
    forall E, tri_le (expr_value E e1') (expr_value E e2') ->
              tri_le (expr_value E e1) (expr_value E e2).
Proof.
  intros Hf. unfold expr_eliminate_eq_with.
  destruct (eliminate_pass_total f e1 e2 (op_of e1)) as (a1 & a2 & n & -> & H1 & H2 & Hle1);
    [done|]. cbn [mbind option_bind].
  assert (exists b1 b2 k, (if decide (op_of a1 = op_of a2) then Some (a1, a2, 0%nat)
      else match op_of a2 with
           | Some ty => eliminate_eq (expr_eq f) ty a1 a2
           | None => Some (a1, a2, 0%nat) end) = Some (b1, b2, k) /\
      forall E, tri_le (expr_value E b1) (expr_value E b2) ->
                tri_le (expr_value E a1) (expr_value E a2)) as (b1 & b2 & k & -> & Hle2).
  { case_decide; [by exists a1, a2, O|].
    destruct (eliminate_pass_total f a1 a2 (op_of a2)) as (b1 & b2 & k & ? & _ & _ & ?); [lia|].
    eauto. }
  simpl. do 2 eexists. split; [done|]. intros E.
  rewrite !expr_eliminate_yn_value. auto.
Qed.

(** The superset test of [menu_finalize] ([expr_eliminate_eq(&dep, &dep2)],
    then [expr_is_yes(dep2)]) terminates, and when it succeeds the first
    expression implies the second: in every symbol table its value is at most
    that of the second. *)
Theorem eliminate_eq_superset (e1 e2 : expr) :
  exists e1' e2',
    expr_eliminate_eq (eq_fuel e1 e2) (Some e1) (Some e2) = Some (e1', e2') /\
    (expr_is_yes e2' = true -> forall E, tri_le (expr_value E e1) (expr_value E e2)).
Proof.
  destruct (eliminate_eq_with_implies (eq_fuel e1 e2) e1 e2) as (a & b & He & Hle);
    [unfold eq_fuel; lia|].
  exists (Some a), (Some b). unfold expr_eliminate_eq. rewrite He. split; [done|]. simpl.
  rewrite bool_decide_eq_true. intros -> E. apply Hle. unfold tri_le.
  by destruct (expr_value E a).
Qed.

(** ** Comparison with a constant, and the dependency tests *)

(** [expr_trans_compare(e, E_EQUAL or E_UNEQUAL, y or n)] builds an
    expression whose value is the truth of the comparison, for every expression
    over boolean and tristate symbols in which no negated operand is [m]. *)
Theorem trans_compare_correct (E : symtab) (e : expr) (unequal : bool) (t : tristate) :
  env_ok E -> t <> mod_ -> tri_symbols E e -> negation_exact E e ->
  expr_value E (expr_trans_compare e unequal t) =
  tri_of_bool (xorb unequal (bool_decide (expr_value E e = t))).
Proof. intros HE. apply (expr_trans_compare_ok E HE). Qed.

Lemma trans_compare_correct_witness :
  expr_value demo_tab
    (expr_trans_compare (E_OR (E_NOT (E_SYMBOL (Sym 0))) (E_SYMBOL (Sym 1))) true no) = yes.
Proof.
  apply (trans_compare_correct demo_tab
    (E_OR (E_NOT (E_SYMBOL (Sym 0))) (E_SYMBOL (Sym 1))) true no).
  - apply demo_tab_ok.
  - done.
  - split; [by left|by right].
  - by split_and!.
Defined.

(** The restriction is needed: with B = m the dependency [!B] is not [n], but
    [expr_trans_compare], which compares the operand instead of its negation,
    says that it is. *)
Theorem trans_compare_not_mod :
  expr_value demo_tab (E_NOT (E_SYMBOL (Sym 1))) = mod_ /\
  expr_value demo_tab (expr_trans_compare (E_NOT (E_SYMBOL (Sym 1))) true no) = no.
Proof. vm_compute. done. Qed.

(** [expr_trans_bool], which rewrites FOO != n to FOO, keeps the value when
    no tristate symbol that the expression compares with [n] is [m]. *)
Theorem trans_bool_correct (E : symtab) (e : expr) :
  env_ok E -> no_mod_compare E e -> expr_value E (expr_trans_bool E e) = expr_value E e.
Proof. intros HE. apply (expr_trans_bool_ok E HE). Qed.

Lemma trans_bool_correct_witness :
  expr_value demo_tab (expr_trans_bool demo_tab
    (E_AND (E_COMP E_UNEQUAL (Sym 2) symbol_no) (E_SYMBOL (Sym 1)))) = no.
Proof.
  apply (trans_bool_correct demo_tab
    (E_AND (E_COMP E_UNEQUAL (Sym 2) symbol_no) (E_SYMBOL (Sym 1)))).
  - apply demo_tab_ok.
  - by split.
Defined.

(** Two symbol tables that give every other symbol the same fields. *)
Definition differ_only (E E' : symtab) (i : nat) : Prop :=
  st_modules E = st_modules E' /\
  forall j, j <> i -> st_type E j = st_type E' j /\ st_tri E j = st_tri E' j /\
                      st_val E j = st_val E' j.

Lemma differ_only_sym E E' i s :
  differ_only E E' i -> s <> Sym i ->
  sym_tri E s = sym_tri E' s /\ sym_type E s = sym_type E' s /\
  sym_get_string_value E s = sym_get_string_value E' s.
Proof.
  intros [Hm H] Hs. destruct s as [| | |j]; try done.
  destruct (H j ltac:(congruence)) as (Ht & Htr & Hv).
  unfold sym_get_string_value, sym_type, sym_tri. by rewrite Hm, Ht, Htr, Hv.
Qed.

(** [expr_contains_symbol] is complete: when it answers 0, the value of the
    expression does not change with the symbol. *)
Theorem contains_symbol_complete (E E' : symtab) (e : expr) (i : nat) :
  expr_contains_symbol e (Sym i) = false -> differ_only E E' i ->
  expr_value E e = expr_value E' e.
Proof.
  intros Hc HE. induction e as [s|a IH|l IHl r IHr|l IHl r IHr|c l r]; simpl in *.
  - apply bool_decide_eq_false in Hc. by apply (differ_only_sym E E' i).
  - by rewrite IH.
  - apply orb_false_iff in Hc as [? ?]. by rewrite IHl, IHr.
  - apply orb_false_iff in Hc as [? ?]. by rewrite IHl, IHr.
  - apply orb_false_iff in Hc as [Hl%bool_decide_eq_false Hr%bool_decide_eq_false].
    destruct (differ_only_sym E E' i l HE Hl) as (_ & Htl & Hsl).
    destruct (differ_only_sym E E' i r HE Hr) as (_ & Htr & Hsr).
    unfold compare_symbols, compare_strings. by rewrite Htl, Htr, Hsl, Hsr.
Qed.

(** The table in which symbol 2 is [y]. *)
Definition demo_tab2 : symtab := {|
  st_type := st_type demo_tab; st_const := st_const demo_tab;
  st_tri i := if decide (i = 2%nat) then yes else st_tri demo_tab i;
  st_val := st_val demo_tab; st_modules := yes |}.

Lemma contains_symbol_complete_witness :
  expr_value demo_tab (E_OR (E_SYMBOL (Sym 1)) (E_COMP E_EQUAL (Sym 0) symbol_no)) =
  expr_value demo_tab2 (E_OR (E_SYMBOL (Sym 1)) (E_COMP E_EQUAL (Sym 0) symbol_no)).
Proof.
  apply (contains_symbol_complete demo_tab demo_tab2 _ 2).
  - reflexivity.
  - split; [done|]. intros j Hj. split_and!; try done. simpl. by rewrite decide_False.
Defined.

(** [expr_depends_symbol] is sound: when it answers 1 for a boolean or
    tristate symbol, the expression is [n] whenever the symbol is [n], so the
    entry can be shown below the symbol. *)
Theorem depends_symbol_sound (E : symtab) (e : expr) (s : symbol) :
  env_ok E -> bool_or_tri E s -> expr_depends_symbol e s = true ->
  sym_tri E s = no -> expr_value E e = no.
Proof.
  intros HE Hs Hd Hn. induction e as [s'|a IH|l IHl r IHr|l IHl r IHr|c l r]; try done.
  - simpl in *. apply bool_decide_eq_true in Hd. by subst.
  - cbn [expr_depends_symbol] in Hd. apply orb_true_iff in Hd as [Hd|Hd]; simpl.
    + rewrite IHl by done. by destruct (expr_value E r).
    + rewrite IHr by done. by destruct (expr_value E l).
  - destruct c; try done; cbn [expr_depends_symbol] in Hd;
      rewrite ?andb_true_iff, ?orb_true_iff, !bool_decide_eq_true in Hd.
    + destruct Hd as [-> [-> | ->]]; tri_constants; by rewrite (value_equal E HE), Hn.
    + destruct Hd as [-> ->]; tri_constants.
      by rewrite (value_unequal E HE), (value_equal E HE), Hn.
Qed.

Lemma depends_symbol_sound_witness :
  expr_value demo_tab (E_AND (E_SYMBOL (Sym 1)) (E_COMP E_UNEQUAL (Sym 2) symbol_no)) = no.
Proof.
  apply (depends_symbol_sound demo_tab _ (Sym 2)).
  - apply demo_tab_ok.
  - by right.
  - reflexivity.
  - reflexivity.
Defined.

(** ** Numerals as constants *)

(** 0 is the tristate symbol A, set to [n], which a comparison takes as the
    number 0; 1 and 2 are the constants ["0"] and ["00"]. *)
Definition num_tab : symtab := {|
  st_type i := match i with 0 => S_TRISTATE | _ => S_UNKNOWN end%nat;
  st_const i := bool_decide (0 < i)%nat;
  st_tri i := no;
  st_val i := match i with 1 => str "0" | 2 => str "00" | _ => [] end%nat;
  st_modules := yes |}.

(** [expr_join_and] takes two different constants to be different values,
    but [expr_calc_value] compares numerals as numbers: with A = n the
    dependency (A = "0") && (A != "00") is [n] and its simplified form is [y]. *)
Theorem join_and_numerals :
  let e := E_AND (E_COMP E_EQUAL (Sym 0) (Sym 1)) (E_COMP E_UNEQUAL (Sym 0) (Sym 2)) in
  expr_value num_tab e = no /\
  (expr_eliminate_dups num_tab e = Some (E_COMP E_EQUAL (Sym 0) (Sym 1))) /\
  expr_value num_tab (E_COMP E_EQUAL (Sym 0) (Sym 1)) = yes.
Proof. vm_compute. done. Qed.
