(* ===== verification/KSymbol.v ===== *)
(** * Kconfig symbols: scripts/config/symbol.c

    The values of configuration symbols and the operations of the front ends.
    A symbol's declaration ([symdesc]: name, type, properties, dependencies) is
    constant once the Kconfig files are parsed; its [symstate] is what symbol.c
    changes.  [sym_calc_value], [expr_calc_value] and the functions between them
    are mutually recursive: each takes [rec], the recursive call of
    [sym_calc_value], and [sym_calc_value] ties the knot with fuel, one unit per
    nested call.  [prop->visible.tri], which [sym_get_default_prop] and
    [sym_get_range_prop] store just before they return the property, is
    returned with it.  SYMBOL_CHANGED and MENU_CHANGED, which only tell a window
    what to redraw, are left out.  An operation that runs out of fuel or
    dereferences a NULL or wrongly typed pointer is [None]. *)
From stdpp Require Import options.
From S2P Require Import Prelude CLib KExpr.

(** ** expr.h *)

(** [void *val] of a value: NULL, a string, or the selected symbol of a choice. *)
Inductive cval := V_NULL | V_STR (s : cstr) | V_SYM (s : symbol).
#[export] Instance cval_eq_dec : EqDecision cval.
Proof. solve_decision. Defined.

Record symbol_value := SV { sv_tri : tristate; sv_val : cval }.
#[export] Instance symbol_value_eq_dec : EqDecision symbol_value.
Proof. solve_decision. Defined.

Inductive prop_type :=
| P_UNKNOWN | P_PROMPT | P_COMMENT | P_MENU | P_DEFAULT | P_CHOICE
| P_SELECT | P_IMPLY | P_RANGE | P_SYMBOL | P_RESET.
#[export] Instance prop_type_eq_dec : EqDecision prop_type.
Proof. solve_decision. Defined.

(** [prop->expr]: absent, a dependency, the E_LIST of the members of a choice,
    or an E_RANGE. *)
Inductive prop_expr :=
| PE_none | PE_expr (e : expr) | PE_list (l : list nat) | PE_range (l r : symbol).

(** [p_text]: the property carries a prompt. *)
Record property := Property {
  p_type : prop_type; p_text : bool; p_visible : option expr; p_expr : prop_expr }.

Record symdesc := SymDesc {
  k_name : cstr;
  k_type : symbol_type;
  k_choice : bool;
  k_choice_value : bool;
  k_no_write : bool;
  k_prop : list property;
  k_dir_dep : option expr;
  k_rev_dep : option expr;
  k_implied : option expr }.

(** [modules_sym] is [symbol_no] when no symbol has the option. *)
Record kconfig := KConfig { k_syms : nat -> symdesc; modules_sym : symbol }.

Record symstate := SymState {
  curr : symbol_value;
  user : symbol_value;
  visible : tristate;
  dir_dep : tristate;
  rev_dep : tristate;
  implied : tristate;
  f_valid : bool;
  f_write : bool;
  f_def_user : bool;
  f_need_set : bool }.

Record store := Store {
  syms : nat -> symstate;
  modules_val : tristate;
  conf_changed : bool }.

Definition set_curr (v : symbol_value) (x : symstate) :=
  SymState v (user x) (visible x) (dir_dep x) (rev_dep x) (implied x)
    (f_valid x) (f_write x) (f_def_user x) (f_need_set x).
Definition set_user (v : symbol_value) (x : symstate) :=
  SymState (curr x) v (visible x) (dir_dep x) (rev_dep x) (implied x)
    (f_valid x) (f_write x) (f_def_user x) (f_need_set x).
Definition set_visible (v : tristate) (x : symstate) :=
  SymState (curr x) (user x) v (dir_dep x) (rev_dep x) (implied x)
    (f_valid x) (f_write x) (f_def_user x) (f_need_set x).
Definition set_dir_dep (v : tristate) (x : symstate) :=
  SymState (curr x) (user x) (visible x) v (rev_dep x) (implied x)
    (f_valid x) (f_write x) (f_def_user x) (f_need_set x).
Definition set_rev_dep (v : tristate) (x : symstate) :=
  SymState (curr x) (user x) (visible x) (dir_dep x) v (implied x)
    (f_valid x) (f_write x) (f_def_user x) (f_need_set x).
Definition set_implied (v : tristate) (x : symstate) :=
  SymState (curr x) (user x) (visible x) (dir_dep x) (rev_dep x) v
    (f_valid x) (f_write x) (f_def_user x) (f_need_set x).
Definition set_valid (b : bool) (x : symstate) :=
  SymState (curr x) (user x) (visible x) (dir_dep x) (rev_dep x) (implied x)
    b (f_write x) (f_def_user x) (f_need_set x).
Definition set_write (b : bool) (x : symstate) :=
  SymState (curr x) (user x) (visible x) (dir_dep x) (rev_dep x) (implied x)
    (f_valid x) b (f_def_user x) (f_need_set x).
Definition set_def_user (b : bool) (x : symstate) :=
  SymState (curr x) (user x) (visible x) (dir_dep x) (rev_dep x) (implied x)
    (f_valid x) (f_write x) b (f_need_set x).
Definition set_need_set (b : bool) (x : symstate) :=
  SymState (curr x) (user x) (visible x) (dir_dep x) (rev_dep x) (implied x)
    (f_valid x) (f_write x) (f_def_user x) b.

(** ** State passing *)

Definition M (A : Type) : Type := store -> option (A * store).
Definition ret {A} (a : A) : M A := fun s => Some (a, s).
Definition fail {A} : M A := fun _ => None.
Definition bind {A B} (m : M A) (k : A -> M B) : M B :=
  fun s => match m s with Some (a, s') => k a s' | None => None end.
Declare Scope ksym_scope.
Delimit Scope ksym_scope with ksym.
Notation "'let*' x ':=' m 'in' k" := (bind m (fun x => k))
  (at level 200, x name, m at level 100, k at level 200) : ksym_scope.
Notation "m ;; k" := (bind m (fun _ => k)) (at level 100, right associativity) : ksym_scope.
#[local] Open Scope ksym_scope.

Definition get (i : nat) : M symstate := fun s => Some (syms s i, s).
Definition upd (i : nat) (f : symstate -> symstate) : M unit := fun s =>
  Some (tt, Store (fun k => if decide (k = i) then f (syms s k) else syms s k)
              (modules_val s) (conf_changed s)).
Definition upd_all (f : symstate -> symstate) : M unit := fun s =>
  Some (tt, Store (fun k => f (syms s k)) (modules_val s) (conf_changed s)).
Definition get_modules_val : M tristate := fun s => Some (modules_val s, s).
Definition set_modules_val (t : tristate) : M unit := fun s =>
  Some (tt, Store (syms s) t (conf_changed s)).
Definition conf_set_changed (b : bool) : M unit := fun s =>
  Some (tt, Store (syms s) (modules_val s) b).

Definition when (b : bool) (m : M unit) : M unit := if b then m else ret tt.
Definition lift {A} (o : option A) : M A := match o with Some a => ret a | None => fail end.
Fixpoint for_each {A} (l : list A) (f : A -> M unit) : M unit :=
  match l with [] => ret tt | a :: l' => f a ;; for_each l' f end.

Definition is_no (t : tristate) : bool := bool_decide (t = no).
Definition is_mod (t : tristate) : bool := bool_decide (t = mod_).
Definition is_yes (t : tristate) : bool := bool_decide (t = yes).

(** The values of the static symbols. *)
Definition symbol_empty_curr : symbol_value := SV no (V_STR []).
Definition symbol_no_curr : symbol_value := SV no (V_STR (str "n")).
Definition const_curr (s : symbol) : symbol_value :=
  match s with
  | symbol_yes => SV yes (V_STR (str "y"))
  | symbol_mod => SV mod_ (V_STR (str "m"))
  | _ => symbol_no_curr
  end.

(** [sym->curr] and [sym->visible] through a [struct symbol *]. *)
Definition get_curr (y : symbol) : M symbol_value :=
  match y with Sym i => let* x := get i in ret (curr x) | _ => ret (const_curr y) end.
Definition get_visible (y : symbol) : M tristate :=
  match y with Sym i => let* x := get i in ret (visible x) | _ => ret no end.
Definition val_str (v : cval) : option cstr :=
  match v with V_STR s => Some s | _ => None end.
Definition get_str (y : symbol) : M cstr :=
  let* v := get_curr y in lift (val_str (sv_val v)).

(** ** symbol.c *)

Definition prop_get_symbol (p : property) : option symbol :=
  match p_expr p with PE_expr (E_SYMBOL y) => Some y | _ => None end.

Section Config.
Context (K : kconfig).

Definition type_of (y : symbol) : symbol_type :=
  match y with Sym i => k_type (k_syms K i) | _ => S_UNKNOWN end.

Definition sym_get_choice_prop (i : nat) : option property :=
  List.find (fun p => bool_decide (p_type p = P_CHOICE)) (k_prop (k_syms K i)).

(** [prop_get_symbol(sym_get_choice_prop(sym))] *)
Definition choice_symbol (i : nat) : M (option symbol) :=
  let* p := lift (sym_get_choice_prop i) in ret (prop_get_symbol p).

(** The members of a choice: [expr_list_for_each_sym] over its property. *)
Definition choice_members (i : nat) : option (list nat) :=
  match sym_get_choice_prop i with
  | Some p => match p_expr p with PE_list l => Some l | PE_none => Some [] | _ => None end
  | None => None
  end.

Definition sym_get_type (i : nat) : M symbol_type :=
  let* x := get i in
  let* mv := get_modules_val in
  let type := k_type (k_syms K i) in
  ret (if decide (type = S_TRISTATE)
       then if k_choice_value (k_syms K i) && is_yes (visible x) then S_BOOLEAN
            else if is_no mv then S_BOOLEAN else type
       else type).

Section Rec.
Context (rec : symbol -> M unit).

Definition sym_get_string_value (y : symbol) : M cstr :=
  match type_of y with
  | S_BOOLEAN | S_TRISTATE =>
      let* v := get_curr y in
      match sv_tri v with
      | no => ret (str "n")
      | mod_ =>
          rec (modules_sym K) ;;
          let* m := get_curr (modules_sym K) in
          ret (if is_no (sv_tri m) then str "n" else str "m")
      | yes => ret (str "y")
      end
  | _ => get_str y
  end.

Fixpoint expr_calc (e : expr) : M tristate :=
  match e with
  | E_SYMBOL y => rec y ;; let* v := get_curr y in ret (sv_tri v)
  | E_AND l r => let* a := expr_calc l in let* b := expr_calc r in ret (EXPR_AND a b)
  | E_OR l r => let* a := expr_calc l in let* b := expr_calc r in ret (EXPR_OR a b)
  | E_NOT l => let* a := expr_calc l in ret (EXPR_NOT a)
  | E_COMP c l r =>
      rec l ;; rec r ;;
      let* str1 := sym_get_string_value l in
      let* str2 := sym_get_string_value r in
      ret (comp_value c (compare_strings str1 (type_of l) str2 (type_of r)))
  end.

Definition expr_calc_value (e : option expr) : M tristate :=
  match e with None => ret yes | Some e => expr_calc e end.

(** [expr_calc_value(prop->expr)], where E_LIST and E_RANGE are an error. *)
Definition prop_expr_value (e : prop_expr) : M tristate :=
  match e with
  | PE_none => ret yes
  | PE_expr e => expr_calc e
  | PE_list _ | PE_range _ _ => ret no
  end.

(** The first property of type [ty] whose condition is not [no], with the value
    of the condition. *)
Fixpoint first_visible (ty : prop_type) (l : list property) :
    M (option (property * tristate)) :=
  match l with
  | [] => ret None
  | p :: l' =>
      if decide (p_type p = ty)
      then let* t := expr_calc_value (p_visible p) in
           if is_no t then first_visible ty l' else ret (Some (p, t))
      else first_visible ty l'
  end.

Definition sym_get_default_prop (i : nat) := first_visible P_DEFAULT (k_prop (k_syms K i)).
Definition sym_get_range_prop (i : nat) := first_visible P_RANGE (k_prop (k_syms K i)).

(** [strtoll], 64-bit. *)
Definition strtoll (base : Z) (s : cstr) : Z := (strtol 64 base s).1.1.

Definition sym_get_range_val (y : symbol) (base : Z) : M Z :=
  rec y ;;
  let base := match type_of y with S_INT => 10 | S_HEX => 16 | _ => base end in
  let* s := get_str y in ret (strtoll base s).

(** [sprintf("%lld")] and [sprintf("0x%llx")]. *)
Definition print_lld (v : Z) : cstr := if v <? 0 then 45 :: print_u (- v) else print_u v.
Fixpoint lhex_digits (fuel : nat) (v : Z) (acc : cstr) : cstr :=
  match fuel with
  | O => acc
  | S f =>
      let d := v mod 16 in
      let c := if d <? 10 then 48 + d else 87 + d in
      if v <? 16 then c :: acc else lhex_digits f (v / 16) (c :: acc)
  end.
Definition print_llx (v : Z) : cstr := str "0x" ++ lhex_digits 16 (u64 v) [].

(** The part of [sym_validate_range] after the property is found. *)
Definition range_clamp (i : nat) (base : Z) (p : property) : M unit :=
  let* v := get_str (Sym i) in
  match p_expr p with
  | PE_range l r =>
      let val := strtoll base v in
      let store_val (val2 : Z) :=
        upd i (fun x => set_curr (SV (sv_tri (curr x))
                 (V_STR (if decide (k_type (k_syms K i) = S_INT)
                         then print_lld val2 else print_llx val2))) x) in
      let* val2 := sym_get_range_val l base in
      if val >=? val2
      then let* val2 := sym_get_range_val r base in
           if val <=? val2 then ret tt else store_val val2
      else store_val val2
  | _ => fail
  end.

Definition sym_validate_range (i : nat) : M unit :=
  let run base :=
    let* p := sym_get_range_prop i in
    match p with None => ret tt | Some (p, _) => range_clamp i base p end in
  match k_type (k_syms K i) with
  | S_INT => run 10
  | S_HEX => run 16
  | _ => ret tt
  end.

(** The loop over the prompts in [sym_calc_visibility]. *)
Fixpoint prompts_visible (i : nat) (choice_sym : option symbol) (l : list property)
    (tri : tristate) : M tristate :=
  match l with
  | [] => ret tri
  | p :: l' =>
      if p_text p
      then
        let* t := expr_calc_value (p_visible p) in
        let* t := match choice_sym with
                  | Some c =>
                      let* v := get_curr c in
                      ret (if bool_decide (k_type (k_syms K i) = S_TRISTATE) && is_mod t &&
                              is_yes (sv_tri v) then no else t)
                  | None => ret t
                  end in
        prompts_visible i choice_sym l' (EXPR_OR tri t)
      else prompts_visible i choice_sym l' tri
  end.

(** [if (tri == mod && sym_get_type(sym) == S_BOOLEAN) tri = yes;] *)
Definition promote (i : nat) (tri : tristate) : M tristate :=
  let* ty := sym_get_type i in
  ret (if is_mod tri && bool_decide (ty = S_BOOLEAN) then yes else tri).

Definition calc_dep (i : nat) (dflt : tristate) (e : option expr) : M tristate :=
  let* t := match e with None => ret dflt | Some e => expr_calc e end in promote i t.

Definition sym_calc_visibility (i : nat) : M unit :=
  let k := k_syms K i in
  let* choice_sym := if k_choice_value k then choice_symbol i else ret None in
  let* tri := prompts_visible i choice_sym (k_prop k) no in
  let* mv := get_modules_val in
  let tri := if is_mod tri && (bool_decide (k_type k <> S_TRISTATE) || is_no mv)
             then yes else tri in
  upd i (set_visible tri) ;;
  if k_choice_value k then ret tt
  else
    let* t := calc_dep i yes (k_dir_dep k) in upd i (set_dir_dep t) ;;
    let* t := calc_dep i no (k_rev_dep k) in upd i (set_rev_dep t) ;;
    let* t := calc_dep i no (k_implied k) in upd i (set_implied t).

(** The visible defaults of a choice. *)
Fixpoint choice_defaults (l : list property) : M (option symbol) :=
  match l with
  | [] => ret None
  | p :: l' =>
      if decide (p_type p = P_DEFAULT)
      then
        let* t := expr_calc_value (p_visible p) in
        if is_no t then choice_defaults l'
        else
          let* def_sym := lift (prop_get_symbol p) in
          let* v := get_visible def_sym in
          if is_no v then choice_defaults l' else ret (Some def_sym)
      else choice_defaults l'
  end.

Fixpoint first_visible_member (l : list nat) : M (option symbol) :=
  match l with
  | [] => ret None
  | j :: l' =>
      let* v := get_visible (Sym j) in
      if is_no v then first_visible_member l' else ret (Some (Sym j))
  end.

Definition sym_choice_default (i : nat) : M (option symbol) :=
  let* d := choice_defaults (k_prop (k_syms K i)) in
  match d with
  | Some y => ret (Some y)
  | None => let* l := lift (choice_members i) in first_visible_member l
  end.

(** The visibilities of the members, and the conjunction [flags] of their
    SYMBOL_DEF_USER bits. *)
Fixpoint members_visible (l : list nat) (flags : bool) : M bool :=
  match l with
  | [] => ret flags
  | j :: l' =>
      sym_calc_visibility j ;;
      let* x := get j in
      members_visible l' (if is_no (visible x) then flags else flags && f_def_user x)
  end.

Definition sym_calc_choice (i : nat) : M (option symbol) :=
  let* x := get i in
  let* l := lift (choice_members i) in
  let* flags := members_visible l (f_def_user x) in
  upd i (fun x => set_def_user (f_def_user x && flags) x) ;;
  let* x := get i in
  let* user_visible :=
    match sv_val (user x) with
    | V_SYM y => let* v := get_visible y in ret (if is_no v then None else Some y)
    | V_NULL => ret None
    | V_STR _ => fail
    end in
  match user_visible with
  | Some y => ret (Some y)
  | None =>
      let* d := sym_choice_default i in
      when (bool_decide (d = None)) (upd i (fun x => set_curr (SV no (sv_val (curr x))) x)) ;;
      ret d
  end.

(** confdata.c *)
Definition set_all_choice_values (i : nat) : M unit :=
  let* l := lift (choice_members i) in
  for_each l (fun j =>
    upd j (fun x => if f_def_user x then x
                    else set_user (SV no (sv_val (user x))) x)) ;;
  upd i (fun x => set_def_user true (set_valid false (set_need_set false x))).

(** [sym_calc_value], S_BOOLEAN and S_TRISTATE: without the last promotion. *)
Definition calc_tristate (i : nat) : M tristate :=
  let k := k_syms K i in
  let* x := get i in
  if k_choice_value k && is_yes (visible x)
  then
    let* c := choice_symbol i in
    let* c := lift c in
    let* v := get_curr c in
    ret (if decide (sv_val v = V_SYM (Sym i)) then yes else no)
  else
    let* newval :=
      if negb (is_no (visible x)) && f_def_user x
      then ret (EXPR_AND (sv_tri (user x)) (visible x))
      else
        when (negb (is_no (rev_dep x))) (upd i (set_write true)) ;;
        if k_choice k then ret no
        else
          let* p := sym_get_default_prop i in
          let* newval :=
            match p with
            | Some (p, t) =>
                upd i (set_write true) ;;
                let* v := prop_expr_value (p_expr p) in
                ret (EXPR_AND v t)
            | None => ret no
            end in
          let* x := get i in
          if is_no (implied x) then ret newval
          else
            upd i (set_write true) ;;
            ret (EXPR_AND (EXPR_OR newval (implied x)) (dir_dep x)) in
    let* x := get i in
    ret (if is_no (dir_dep x) && negb (is_no (rev_dep x)) then no
         else EXPR_OR newval (rev_dep x)).

(** [sym_calc_value], S_STRING, S_HEX and S_INT. *)
Definition calc_string (i : nat) : M cval :=
  let* x := get i in
  if negb (is_no (visible x)) && f_def_user x then ret (sv_val (user x))
  else
    let* p := sym_get_default_prop i in
    match p with
    | Some (p, _) =>
        match prop_get_symbol p with
        | Some ds =>
            upd i (set_write true) ;; rec ds ;;
            let* v := get_curr ds in ret (sv_val v)
        | None => ret (sv_val symbol_empty_curr)
        end
    | None => ret (sv_val symbol_empty_curr)
    end.

(** The end of [sym_calc_value]: the choice tells its members to be written. *)
Definition choice_write (i : nat) : M unit :=
  let* l := lift (choice_members i) in
  for_each l (fun j =>
    let* x := get i in
    let* v := get_visible (Sym j) in
    when (f_write x && negb (is_no v)) (upd j (set_write true))).

Definition calc_newval (i : nat) : M symbol_value :=
  let* ty := sym_get_type i in
  match ty with
  | S_BOOLEAN | S_TRISTATE =>
      let* t := calc_tristate i in
      let* t := promote i t in
      ret (SV t (sv_val symbol_no_curr))
  | S_STRING | S_HEX | S_INT =>
      let* v := calc_string i in ret (SV no v)
  | S_UNKNOWN => ret symbol_no_curr
  end.

Definition opt_val (y : option symbol) : cval :=
  match y with Some y => V_SYM y | None => V_NULL end.

(** [sym_calc_value] once SYMBOL_VALID is set, for a symbol with a type. *)
Definition calc_typed (i : nat) (newval : symbol_value) : M unit :=
  let k := k_syms K i in
  let* x := get i in
  let oldval := curr x in
  upd i (set_write false) ;;
  sym_calc_visibility i ;;
  let* x := get i in
  when (negb (is_no (visible x))) (upd i (set_write true)) ;;
  upd i (set_curr newval) ;;
  let* newval := calc_newval i in
  upd i (set_curr newval) ;;
  when (k_choice k && is_yes (sv_tri newval))
    (let* d := sym_calc_choice i in
     upd i (fun x => set_curr (SV (sv_tri (curr x)) (opt_val d)) x)) ;;
  sym_validate_range i ;;
  let* x := get i in
  when (bool_decide (curr x <> oldval) && bool_decide (modules_sym K = Sym i))
    (set_modules_val (sv_tri (curr x))) ;;
  when (k_choice k) (choice_write i) ;;
  when (k_no_write k) (upd i (set_write false)) ;;
  let* x := get i in
  when (f_need_set x) (set_all_choice_values i).

Definition sym_calc_value_body (i : nat) : M unit :=
  let k := k_syms K i in
  let* x := get i in
  if f_valid x then ret tt
  else
    when (k_choice_value k && f_need_set x)
      (upd i (set_need_set false) ;;
       let* c := choice_symbol i in
       match c with Some c => rec c | None => ret tt end) ;;
    upd i (set_valid true) ;;
    match k_type k with
    | S_INT | S_HEX | S_STRING => calc_typed i symbol_empty_curr
    | S_BOOLEAN | S_TRISTATE => calc_typed i symbol_no_curr
    | S_UNKNOWN => upd i (set_curr (SV no (V_STR (k_name k))))
    end.
End Rec.

(** The three static symbols are SYMBOL_VALID. *)
Fixpoint sym_calc_value (fuel : nat) (y : symbol) : M unit :=
  match y with
  | Sym i =>
      match fuel with
      | O => fail
      | S f => sym_calc_value_body (sym_calc_value f) i
      end
  | _ => ret tt
  end.
End Config.
