(* ===== verification/KSymOps.v ===== *)
(** * Kconfig symbols: the operations of the front ends

    The functions of symbol.c that read user input into a symbol, and those that
    print one.  [calc] is [sym_calc_value]. *)
From stdpp Require Import options.
From S2P Require Import Prelude CLib KExpr KSymbol.
#[local] Open Scope ksym_scope.

Section Ops.
Context (K : kconfig) (calc : symbol -> M unit).

Definition sym_clear_all_valid : M unit :=
  upd_all (set_valid false) ;;
  conf_set_changed true ;;
  calc (modules_sym K).

Definition tri_le (a b : tristate) : bool := tri_val a <=? tri_val b.

Definition sym_tristate_within_range (i : nat) (val : tristate) : M bool :=
  let* type := sym_get_type K i in
  let* x := get i in
  ret (if is_no (visible x) then false
       else if negb (bool_decide (type = S_BOOLEAN)) && negb (bool_decide (type = S_TRISTATE))
       then false
       else if bool_decide (type = S_BOOLEAN) && is_mod val then false
       else if tri_le (visible x) (rev_dep x) then false
       else if k_choice_value (k_syms K i) && is_yes (visible x) then is_yes val
       else tri_le (rev_dep x) val && tri_le val (visible x)).

(** [if (!(sym->flags & SYMBOL_DEF_USER)) sym->flags |= SYMBOL_DEF_USER;] *)
Definition mark_user (i : nat) : M unit := upd i (set_def_user true).

(** Setting a choice value selects it and marks the visible members. *)
Definition select_member (i : nat) : M unit :=
  let* c := choice_symbol K i in
  match c with
  | Some (Sym c) =>
      upd c (fun x => set_def_user true (set_user (SV (sv_tri (user x)) (V_SYM (Sym i))) x)) ;;
      let* l := lift (choice_members K c) in
      for_each l (fun j =>
        let* v := get_visible (Sym j) in
        when (negb (is_no v)) (upd j (set_def_user true)))
  | _ => fail
  end.

Definition sym_set_tristate_value (i : nat) (val : tristate) : M bool :=
  let* x := get i in
  let oldval := sv_tri (curr x) in
  let* ok := if decide (oldval = val) then ret true else sym_tristate_within_range i val in
  if ok
  then
    mark_user i ;;
    when (k_choice_value (k_syms K i) && is_yes val) (select_member i) ;;
    upd i (fun x => set_user (SV val (sv_val (user x))) x) ;;
    when (negb (bool_decide (oldval = val))) sym_clear_all_valid ;;
    ret true
  else ret false.

Definition next_tristate (t : tristate) : tristate :=
  match t with no => mod_ | mod_ => yes | yes => no end.

(** The loop of [sym_toggle_tristate_value]: [newval] is the last value tried. *)
Fixpoint toggle_loop (fuel : nat) (i : nat) (oldval newval : tristate) : M tristate :=
  match fuel with
  | O => fail
  | S f =>
      let newval := next_tristate newval in
      let* ok := sym_set_tristate_value i newval in
      if ok then ret newval
      else if decide (oldval = newval) then ret newval else toggle_loop f i oldval newval
  end.

Definition sym_toggle_tristate_value (i : nat) : M tristate :=
  let* x := get i in
  let oldval := sv_tri (curr x) in
  toggle_loop 3 i oldval oldval.

(** ** Strings *)

Definition all_digits (s : cstr) : bool := forallb isdigit s.

Definition sym_string_valid (type : symbol_type) (s : cstr) : bool :=
  match type with
  | S_STRING => true
  | S_INT =>
      let s := match s with c :: s' => if c =? 45 then s' else s | [] => s end in
      match s with
      | c :: s' => isdigit c && negb ((c =? 48) && negb (bool_decide (s' = []))) && all_digits s'
      | [] => false
      end
  | S_HEX =>
      let s := match s with
               | c :: x :: s' => if (c =? 48) && ((x =? 120) || (x =? 88)) then s' else s
               | _ => s
               end in
      negb (bool_decide (s = [])) && forallb isxdigit s
  | S_BOOLEAN | S_TRISTATE =>
      match s with
      | c :: _ => existsb (Z.eqb c) [121; 89; 109; 77; 110; 78]
      | [] => false
      end
  | S_UNKNOWN => false
  end.

(** [switch (str[0])] of the boolean and tristate symbols. *)
Definition tri_of_char (s : cstr) : option tristate :=
  match s with
  | c :: _ =>
      if (c =? 121) || (c =? 89) then Some yes
      else if (c =? 109) || (c =? 77) then Some mod_
      else if (c =? 110) || (c =? 78) then Some no
      else None
  | [] => None
  end.

(** The numeric part of [sym_string_within_range]; [&&] does not evaluate the
    upper bound when the lower one fails. *)
Definition number_within_range (i : nat) (base : Z) (s : cstr) : M bool :=
  if sym_string_valid (k_type (k_syms K i)) s
  then
    let* p := sym_get_range_prop K calc i in
    match p with
    | None => ret true
    | Some (p, _) =>
        match p_expr p with
        | PE_range l r =>
            let val := strtoll base s in
            let* lo := sym_get_range_val K calc l base in
            if val >=? lo
            then let* hi := sym_get_range_val K calc r base in ret (val <=? hi)
            else ret false
        | _ => fail
        end
    end
  else ret false.

Definition sym_string_within_range (i : nat) (s : cstr) : M bool :=
  match k_type (k_syms K i) with
  | S_STRING => ret (sym_string_valid S_STRING s)
  | S_INT => number_within_range i 10 s
  | S_HEX => number_within_range i 16 s
  | S_BOOLEAN | S_TRISTATE =>
      match tri_of_char s with
      | Some t => sym_tristate_within_range i t
      | None => ret false
      end
  | S_UNKNOWN => ret false
  end.

Definition has_hex_prefix (s : cstr) : bool :=
  match s with
  | c :: x :: _ => (c =? 48) && ((x =? 120) || (x =? 88))
  | _ => false
  end.

Definition sym_set_string_value (i : nat) (newval : cstr) : M bool :=
  match k_type (k_syms K i) with
  | S_BOOLEAN | S_TRISTATE =>
      match tri_of_char newval with
      | Some t => sym_set_tristate_value i t
      | None => ret false
      end
  | _ =>
      let* ok := sym_string_within_range i newval in
      if ok
      then
        mark_user i ;;
        let* x := get i in
        let store_val (v : cstr) :=
          upd i (fun x => set_user (SV (sv_tri (user x)) (V_STR v)) x) ;;
          sym_clear_all_valid ;; ret true in
        if bool_decide (k_type (k_syms K i) = S_HEX) && negb (has_hex_prefix newval)
        then store_val (str "0x" ++ newval)
        else if decide (sv_val (user x) = V_STR newval) then ret true
        else store_val newval
      else ret false
  end.

Definition tri_string (t : tristate) : cstr :=
  match t with no => str "n" | mod_ => str "m" | yes => str "y" end.

(** The default a symbol has without a user value. *)
Definition sym_get_string_default (i : nat) : M cstr :=
  let type := k_type (k_syms K i) in
  sym_calc_visibility K calc i ;;
  calc (modules_sym K) ;;
  let* p := sym_get_default_prop K calc i in
  let* d :=
    match p with
    | None => ret (no, [])
    | Some (p, t) =>
        match type with
        | S_BOOLEAN | S_TRISTATE =>
            let* v := prop_expr_value K calc (p_expr p) in ret (EXPR_AND v t, [])
        | _ =>
            match prop_get_symbol p with
            | Some ds => calc ds ;; let* s := get_str ds in ret (no, s)
            | None => ret (no, [])
            end
        end
    end in
  let* x := get i in
  let* m := get_curr (modules_sym K) in
  let val := EXPR_OR d.1 (rev_dep x) in
  let val := if is_mod val && negb (k_choice_value (k_syms K i)) && is_no (sv_tri m)
             then yes else val in
  let val := if bool_decide (type = S_BOOLEAN) && is_mod val then yes else val in
  let val := if tri_val val <? tri_val (implied x) then implied x else val in
  match type with
  | S_BOOLEAN | S_TRISTATE => ret (tri_string val)
  | S_INT | S_HEX | S_STRING => ret d.2
  | S_UNKNOWN => ret []
  end.

Definition sym_is_changeable (i : nat) : M bool :=
  let* x := get i in ret (tri_val (visible x) >? tri_val (rev_dep x)).
End Ops.
