(* ===== verification/KSymSpec.v ===== *)
(** * Reference semantics of Kconfig symbols

    What the value of a symbol is, as an equation over the values of the other
    symbols, without caches, flags or an order of evaluation: [spec_value].  A
    [solution] satisfies the equation at every symbol.  [wf_config] says that
    the declarations are well formed and that a [rank] witnesses the absence of
    recursive dependencies; such a configuration has exactly one solution. *)
From stdpp Require Import options.
From S2P Require Import Prelude CLib KExpr KSymbol.

Definition env := nat -> symbol_value.

(** What the user chose: SYMBOL_DEF_USER and [def[S_DEF_USER]]. *)
Record choices := Choices { u_has : nat -> bool; u_val : nat -> symbol_value }.

Definition val_of (a : env) (y : symbol) : symbol_value :=
  match y with Sym i => a i | _ => const_curr y end.
Definition str_of (a : env) (y : symbol) : cstr := default [] (val_str (sv_val (val_of a y))).

(** [mod] counts as [yes] when only two values are possible. *)
Definition raise (two : bool) (t : tristate) : tristate :=
  if two && is_mod t then yes else t.

Section Spec.
Context (K : kconfig) (U : choices).

(** The symbol table the expressions are evaluated in. *)
Definition symtab_of (a : env) : symtab :=
  SymTab (fun i => k_type (k_syms K i)) (fun _ => false) (fun i => sv_tri (a i))
    (fun i => str_of a (Sym i)) (sv_tri (val_of a (modules_sym K))).

Definition cond (a : env) (e : option expr) : tristate := KExpr.expr_calc_value (symtab_of a) e.

(** The choice a choice value belongs to. *)
Definition choice_of (i : nat) : option symbol :=
  if k_choice_value (k_syms K i)
  then match sym_get_choice_prop K i with Some p => prop_get_symbol p | None => None end
  else None.

Definition modules_off (a : env) : bool := is_no (sv_tri (val_of a (modules_sym K))).

(** A prompt shows its symbol as far as its condition allows; a tristate choice
    value that could only be a module is hidden while its choice is [yes]. *)
Definition prompt_value (a : env) (i : nat) (p : property) : tristate :=
  let t := cond a (p_visible p) in
  match choice_of i with
  | Some c => if bool_decide (k_type (k_syms K i) = S_TRISTATE) && is_mod t &&
                 is_yes (sv_tri (val_of a c)) then no else t
  | None => t
  end.

Definition prompts (i : nat) : list property :=
  List.filter p_text (k_prop (k_syms K i)).

Definition spec_visible (a : env) (i : nat) : tristate :=
  raise (bool_decide (k_type (k_syms K i) <> S_TRISTATE) || modules_off a)
    (fold_left (fun t p => EXPR_OR t (prompt_value a i p)) (prompts i) no).

(** Only [no] and [yes] are possible. *)
Definition two_valued (a : env) (i : nat) : bool :=
  bool_decide (k_type (k_syms K i) = S_BOOLEAN) ||
  bool_decide (k_type (k_syms K i) = S_TRISTATE) &&
    (k_choice_value (k_syms K i) && is_yes (spec_visible a i) || modules_off a).

Definition dep_value (a : env) (i : nat) (dflt : tristate) (e : option expr) : tristate :=
  raise (two_valued a i) (match e with None => dflt | Some _ => cond a e end).

Definition spec_dir_dep (a : env) (i : nat) : tristate :=
  dep_value a i yes (k_dir_dep (k_syms K i)).
Definition spec_rev_dep (a : env) (i : nat) : tristate :=
  if k_choice_value (k_syms K i) then no else dep_value a i no (k_rev_dep (k_syms K i)).
Definition spec_implied (a : env) (i : nat) : tristate :=
  if k_choice_value (k_syms K i) then no else dep_value a i no (k_implied (k_syms K i)).

(** The first property of a type whose condition holds. *)
Definition active_prop (a : env) (ty : prop_type) (i : nat) : option property :=
  List.find (fun p => bool_decide (p_type p = ty) && negb (is_no (cond a (p_visible p))))
    (k_prop (k_syms K i)).

Definition pexpr_value (a : env) (e : prop_expr) : tristate :=
  match e with
  | PE_none => yes
  | PE_expr e => expr_value (symtab_of a) e
  | PE_list _ | PE_range _ _ => no
  end.

(** What [default] and [imply] give to a symbol without a user value. *)
Definition default_value (a : env) (i : nat) : tristate :=
  let d := match active_prop a P_DEFAULT i with
           | Some p => EXPR_AND (pexpr_value a (p_expr p)) (cond a (p_visible p))
           | None => no
           end in
  if is_no (spec_implied a i) then d
  else EXPR_AND (EXPR_OR d (spec_implied a i)) (spec_dir_dep a i).

(** A selected symbol whose own dependencies fail stays [no]. *)
Definition with_select (a : env) (i : nat) (t : tristate) : tristate :=
  if is_no (spec_dir_dep a i) && negb (is_no (spec_rev_dep a i)) then no
  else EXPR_OR t (spec_rev_dep a i).

Definition spec_tri (a : env) (i : nat) : tristate :=
  if k_choice_value (k_syms K i) && is_yes (spec_visible a i)
  then match choice_of i with
       | Some c => tri_of_bool (bool_decide (sv_val (val_of a c) = V_SYM (Sym i)))
       | None => no
       end
  else raise (two_valued a i)
         (with_select a i
            (if negb (is_no (spec_visible a i)) && u_has U i
             then EXPR_AND (sv_tri (u_val U i)) (spec_visible a i)
             else if k_choice (k_syms K i) then no else default_value a i)).

(** ** Choices *)

(** The members are looked at with the choice enabled. *)
Definition enabled (a : env) (c : nat) : env := fun k => if decide (k = c) then SV yes (sv_val symbol_no_curr) else a k.

Definition members (c : nat) : list nat := default [] (choice_members K c).

Definition member_visible (a : env) (c j : nat) : bool :=
  negb (is_no (spec_visible (enabled a c) j)).

Definition visible_target (a : env) (c : nat) (y : symbol) : bool :=
  match y with Sym j => member_visible a c j | _ => false end.

Definition default_target (a : env) (c : nat) (p : property) : option symbol :=
  if bool_decide (p_type p = P_DEFAULT) && negb (is_no (cond a (p_visible p)))
  then match prop_get_symbol p with
       | Some y => if visible_target a c y then Some y else None
       | None => None
       end
  else None.

(** The user's selection if it is visible, else the first visible default, else
    the first visible member. *)
Definition selected (a : env) (c : nat) : option symbol :=
  match sv_val (u_val U c) with
  | V_SYM y => if visible_target a c y then Some y else None
  | _ => None
  end ∪ (head (omap (default_target a c) (k_prop (k_syms K c))) ∪
         (Sym <$> List.find (member_visible a c) (members c))).

Definition spec_choice (a : env) (c : nat) : symbol_value :=
  match selected a c with
  | Some y => SV yes (V_SYM y)
  | None => SV no V_NULL
  end.

(** ** Strings and numbers *)

Definition spec_string (a : env) (i : nat) : cval :=
  if negb (is_no (spec_visible a i)) && u_has U i then sv_val (u_val U i)
  else match active_prop a P_DEFAULT i with
       | Some p => match prop_get_symbol p with
                   | Some ds => sv_val (val_of a ds)
                   | None => V_STR []
                   end
       | None => V_STR []
       end.

Definition base_of (ty : symbol_type) (base : Z) : Z :=
  match ty with S_INT => 10 | S_HEX => 16 | _ => base end.

Definition number_of (a : env) (base : Z) (y : symbol) : Z :=
  strtoll (base_of (type_of K y) base) (str_of a y).

Definition print_number (ty : symbol_type) (v : Z) : cstr :=
  if decide (ty = S_INT) then print_lld v else print_llx v.

(** A number outside the active range becomes the bound it is beyond. *)
Definition clamp (ty : symbol_type) (lo hi : Z) (v : cval) : cval :=
  match v with
  | V_STR s =>
      let n := strtoll (base_of ty 10) s in
      if n <? lo then V_STR (print_number ty lo)
      else if hi <? n then V_STR (print_number ty hi) else v
  | _ => v
  end.

Definition spec_number (a : env) (i : nat) : cval :=
  let ty := k_type (k_syms K i) in
  let v := spec_string a i in
  match active_prop a P_RANGE i with
  | Some p => match p_expr p with
              | PE_range l r =>
                  clamp ty (number_of a (base_of ty 10) l) (number_of a (base_of ty 10) r) v
              | _ => v
              end
  | None => v
  end.

Definition spec_value (a : env) (i : nat) : symbol_value :=
  match k_type (k_syms K i) with
  | S_UNKNOWN => SV no (V_STR (k_name (k_syms K i)))
  | S_BOOLEAN | S_TRISTATE =>
      let t := spec_tri a i in
      if k_choice (k_syms K i) && is_yes t then spec_choice a i
      else SV t (sv_val symbol_no_curr)
  | S_STRING => SV no (spec_string a i)
  | S_INT | S_HEX => SV no (spec_number a i)
  end.

Definition solution (a : env) : Prop := forall i, a i = spec_value a i.

(** ** Well-formed configurations *)

Definition is_booltri (ty : symbol_type) : bool :=
  match ty with S_BOOLEAN | S_TRISTATE => true | _ => false end.

(** The symbols an expression reads.  The text of a boolean or tristate symbol
    also depends on [modules_sym]. *)
Fixpoint expr_syms (e : expr) : list symbol :=
  match e with
  | E_SYMBOL y => [y]
  | E_NOT l => expr_syms l
  | E_AND l r | E_OR l r => expr_syms l ++ expr_syms r
  | E_COMP _ l r =>
      l :: r :: (if is_booltri (type_of K l) || is_booltri (type_of K r)
                 then [modules_sym K] else [])
  end.
Definition opt_syms (e : option expr) : list symbol :=
  match e with None => [] | Some e => expr_syms e end.

(** The symbols a property of a symbol reads; the targets of [select], [imply]
    and of the defaults of a choice are not read. *)
Definition pexpr_syms (e : prop_expr) : list symbol :=
  match e with
  | PE_expr e => expr_syms e
  | PE_range l r => [l; r]
  | _ => []
  end.
Definition prop_syms (choice : bool) (p : property) : list symbol :=
  (if p_text p || bool_decide (p_type p = P_DEFAULT) || bool_decide (p_type p = P_RANGE)
   then opt_syms (p_visible p) else []) ++
  (if bool_decide (p_type p = P_RANGE) || bool_decide (p_type p = P_DEFAULT) && negb choice
   then pexpr_syms (p_expr p) else []).

Definition sym_deps (i : nat) : list symbol :=
  let k := k_syms K i in
  (if decide (k_type k = S_TRISTATE) then [modules_sym K] else []) ++
  (if k_choice_value k then []
   else opt_syms (k_dir_dep k) ++ opt_syms (k_rev_dep k) ++ opt_syms (k_implied k)) ++
  concat (map (prop_syms (k_choice k)) (k_prop k)).

(** What a member needs when its choice is calculated. *)
Definition member_deps (j : nat) : list symbol :=
  (if decide (k_type (k_syms K j) = S_TRISTATE) then [modules_sym K] else []) ++
  concat (map (fun p => opt_syms (p_visible p)) (prompts j)).

Definition rank_below (rank : nat -> nat) (r : nat) (y : symbol) : Prop :=
  match y with Sym k => (rank k < r)%nat | _ => True end.

(** A condition that is [no] for good need not mention the choice. *)
Definition guarded_by (c : nat) (e : option expr) : Prop :=
  e = Some (E_SYMBOL symbol_no) \/ Sym c ∈ opt_syms e.

Record wf_choice (rank : nat -> nat) (c : nat) : Prop := {
  wfc_type : is_booltri (k_type (k_syms K c)) = true;
  wfc_not_modules : modules_sym K <> Sym c;
  wfc_not_value : k_choice_value (k_syms K c) = false;
  wfc_members : choice_members K c = Some (members c);
  wfc_member j : j ∈ members c -> choice_of j = Some (Sym c);
  wfc_member_deps j y : j ∈ members c -> y ∈ member_deps j -> y = Sym c \/ rank_below rank (rank c) y;
  wfc_default p : p ∈ k_prop (k_syms K c) -> p_type p = P_DEFAULT ->
    exists j, prop_get_symbol p = Some (Sym j) /\ j ∈ members c }.

Record wf_symbol (rank : nat -> nat) (i : nat) : Prop := {
  wf_rank y : y ∈ sym_deps i -> rank_below rank (rank i) y;
  wf_choice_sym : k_choice (k_syms K i) = true -> wf_choice rank i;
  wf_value : k_choice_value (k_syms K i) = true ->
    exists c, choice_of i = Some (Sym c) /\ (rank c < rank i)%nat /\
      is_booltri (k_type (k_syms K i)) = true /\
      (exists p, p ∈ prompts i /\ Sym c ∈ opt_syms (p_visible p)) /\
      forall p, p ∈ prompts i -> guarded_by c (p_visible p);
  wf_modules : modules_sym K = Sym i -> is_booltri (k_type (k_syms K i)) = true;
  wf_range p : p ∈ k_prop (k_syms K i) -> p_type p = P_RANGE ->
    exists l r, p_expr p = PE_range l r /\
      forall c, l = Sym c \/ r = Sym c -> k_choice (k_syms K c) = false;
  wf_string_default p c : is_booltri (k_type (k_syms K i)) = false ->
    p ∈ k_prop (k_syms K i) -> p_type p = P_DEFAULT ->
    prop_get_symbol p = Some (Sym c) -> k_choice (k_syms K c) = false }.

Definition wf_config (rank : nat -> nat) : Prop := forall i, wf_symbol rank i.

(** The user's values have the type of their symbols. *)
Definition wf_choices : Prop := forall i,
  (is_booltri (k_type (k_syms K i)) = false -> u_has U i = true ->
    exists s, sv_val (u_val U i) = V_STR s) /\
  (k_choice (k_syms K i) = true ->
    sv_val (u_val U i) = V_NULL \/
    exists j, sv_val (u_val U i) = V_SYM (Sym j) /\ j ∈ members i).
End Spec.
