(* ===== verification/KSymSpecFacts.v ===== *)
(** * The reference semantics of a well-formed configuration

    The equation of a symbol reads only symbols of lower rank, so a well-formed
    configuration has exactly one solution. *)
From stdpp Require Import sets options.
From S2P Require Import Prelude CLib KExpr KSymbol KSymSpec.

(** Two environments that agree on a list of symbols. *)
Definition agree (l : list symbol) (a b : env) : Prop :=
  forall y, y ∈ l -> val_of a y = val_of b y.

Lemma agree_app l l' a b : agree (l ++ l') a b <-> agree l a b /\ agree l' a b.
Proof. unfold agree. set_solver. Qed.

Lemma agree_sub l l' a b : agree l a b -> l' ⊆ l -> agree l' a b.
Proof. unfold agree. set_solver. Qed.

Lemma agree_sym l a b i : agree l a b -> Sym i ∈ l -> a i = b i.
Proof. intros H Hi. exact (H _ Hi). Qed.

Section Facts.
Context (K : kconfig) (U : choices).

(** Expressions read the tristate of a boolean or tristate symbol, not the
    symbol a choice selects. *)
Definition agree_tri (l : list symbol) (a b : env) : Prop :=
  forall y, y ∈ l -> sv_tri (val_of a y) = sv_tri (val_of b y) /\
    (is_booltri (type_of K y) = false -> val_of a y = val_of b y).

Lemma agree_weaken l a b : agree l a b -> agree_tri l a b.
Proof. intros H y Hy. rewrite (H y Hy). done. Qed.

Lemma agree_tri_app l l' a b : agree_tri (l ++ l') a b <-> agree_tri l a b /\ agree_tri l' a b.
Proof. unfold agree_tri. set_solver. Qed.

Lemma string_value_agree a b y :
  sv_tri (val_of a y) = sv_tri (val_of b y) ->
  (is_booltri (type_of K y) = false -> val_of a y = val_of b y) ->
  (is_booltri (type_of K y) = true ->
   sv_tri (val_of a (modules_sym K)) = sv_tri (val_of b (modules_sym K))) ->
  KExpr.sym_get_string_value (symtab_of K a) y = KExpr.sym_get_string_value (symtab_of K b) y.
Proof.
  intros Ht Hy Hm. destruct y as [| | |i]; try done.
  unfold KExpr.sym_get_string_value; simpl in *. unfold str_of; simpl.
  destruct (k_type (k_syms K i)); simpl in *; rewrite ?Ht, ?Hm, ?Hy by done; done.
Qed.

Lemma expr_value_agree_tri a b e :
  agree_tri (expr_syms K e) a b ->
  expr_value (symtab_of K a) e = expr_value (symtab_of K b) e.
Proof.
  induction e as [y|e IH|l IHl r IHr|l IHl r IHr|c l r]; cbn [expr_syms expr_value]; intros H.
  - destruct (H y ltac:(set_solver)) as [Hy _]. by destruct y.
  - by rewrite IH.
  - apply agree_tri_app in H as [??]. by rewrite IHl, IHr.
  - apply agree_tri_app in H as [??]. by rewrite IHl, IHr.
  - f_equal. unfold compare_symbols. f_equal; try (by destruct l); try (by destruct r).
    + apply string_value_agree; [apply H; set_solver..|].
      intros E. apply H. rewrite E. set_solver.
    + apply string_value_agree; [apply H; set_solver..|].
      intros E. apply H. rewrite E, orb_true_r. set_solver.
Qed.

Lemma expr_value_agree a b e :
  agree (expr_syms K e) a b ->
  expr_value (symtab_of K a) e = expr_value (symtab_of K b) e.
Proof. intros. by apply expr_value_agree_tri, agree_weaken. Qed.

Lemma cond_agree_tri a b e : agree_tri (opt_syms K e) a b -> cond K a e = cond K b e.
Proof. destruct e; [apply expr_value_agree_tri|done]. Qed.

Lemma cond_agree a b e : agree (opt_syms K e) a b -> cond K a e = cond K b e.
Proof. intros. by apply cond_agree_tri, agree_weaken. Qed.

Lemma find_ext {A} (f g : A -> bool) l :
  (forall x, x ∈ l -> f x = g x) -> List.find f l = List.find g l.
Proof.
  induction l as [|x l IH]; intros H; [done|]. simpl.
  rewrite (H x) by set_solver. destruct (g x); [done|]. apply IH. set_solver.
Qed.

Lemma elem_of_prompts i p : p ∈ prompts K i <-> p_text p = true /\ p ∈ k_prop (k_syms K i).
Proof. unfold prompts. rewrite !list_elem_of_In, filter_In. tauto. Qed.

(** ** Visibility *)

Lemma modules_off_agree a b :
  agree_tri [modules_sym K] a b -> modules_off K a = modules_off K b.
Proof. intros H. unfold modules_off. by destruct (H (modules_sym K)) as [-> _]; [set_solver|]. Qed.

Lemma visible_agree_tri a b i :
  agree_tri (member_deps K i) a b ->
  (forall c, choice_of K i = Some c -> sv_tri (val_of a c) = sv_tri (val_of b c)) ->
  spec_visible K a i = spec_visible K b i.
Proof.
  intros Hd Hc. unfold member_deps in Hd. apply agree_tri_app in Hd as [Hm Hd].
  unfold spec_visible. f_equal.
  - destruct (decide (k_type (k_syms K i) = S_TRISTATE)) as [E|E].
    + by rewrite (modules_off_agree a b).
    + by rewrite bool_decide_true.
  - clear Hm. generalize no as t0. revert Hd. generalize (prompts K i) as l.
    induction l as [|p l IH]; intros Hd t0; [done|]. simpl in *.
    apply agree_tri_app in Hd as [Hp Hd]. rewrite IH by done. do 2 f_equal.
    unfold prompt_value. rewrite (cond_agree_tri a b) by done.
    destruct (choice_of K i) as [c|]; [|done]. by rewrite (Hc c eq_refl).
Qed.

(** ** The equation of a symbol *)

Context (rank : nat -> nat) (Hwf : wf_config K rank).

Definition agree_below (r : nat) (a b : env) : Prop := forall k, (rank k < r)%nat -> a k = b k.

Lemma agree_below_sub r a b l :
  agree_below r a b -> (forall y, y ∈ l -> rank_below rank r y) -> agree l a b.
Proof.
  intros H Hl y Hy. apply Hl in Hy. destruct y; simpl in *; try done. by apply H.
Qed.

Lemma deps_below i l : l ⊆ sym_deps K i -> forall y, y ∈ l -> rank_below rank (rank i) y.
Proof using Hwf K rank. intros Hl y Hy. apply (wf_rank K rank i (Hwf i)). by apply Hl. Qed.

Lemma deps_agree a b i l :
  agree_below (rank i) a b -> l ⊆ sym_deps K i -> agree l a b.
Proof using Hwf K rank. intros H Hl. eapply agree_below_sub; [exact H|]. by apply deps_below. Qed.

Lemma modules_dep i : k_type (k_syms K i) = S_TRISTATE -> modules_sym K ∈ sym_deps K i.
Proof using Type. intros E. unfold sym_deps. rewrite E. apply elem_of_app. left. left. Qed.

Lemma prop_deps i p :
  p ∈ k_prop (k_syms K i) -> prop_syms K (k_choice (k_syms K i)) p ⊆ sym_deps K i.
Proof.
  intros Hp y Hy. unfold sym_deps. rewrite !elem_of_app. do 2 right.
  apply list_elem_of_In, in_concat. eexists. split; [|by apply list_elem_of_In].
  apply in_map. by apply list_elem_of_In.
Qed.

Lemma visible_deps i p :
  p ∈ k_prop (k_syms K i) ->
  p_text p = true \/ p_type p = P_DEFAULT \/ p_type p = P_RANGE ->
  opt_syms K (p_visible p) ⊆ sym_deps K i.
Proof.
  intros Hp Ht y Hy. eapply prop_deps; [done|]. unfold prop_syms. rewrite elem_of_app. left.
  destruct Ht as [E|[E|E]]; rewrite E; simpl; [done|..]; rewrite ?bool_decide_true by done;
    destruct (p_text p); simpl; rewrite ?orb_true_r; done.
Qed.

Lemma member_deps_sub i : member_deps K i ⊆ sym_deps K i.
Proof using Type.
  clear Hwf rank.
  intros y. unfold member_deps. rewrite elem_of_app. intros [H|H].
  - unfold sym_deps. set_solver.
  - apply list_elem_of_In, in_concat in H as (l & Hl & Hy). apply in_map_iff in Hl as (p & <- & Hp).
    apply list_elem_of_In, elem_of_prompts in Hp as [Ht Hp].
    eapply visible_deps; eauto. by apply list_elem_of_In.
Qed.

Lemma choice_of_below i c : choice_of K i = Some c -> rank_below rank (rank i) c.
Proof using Hwf K rank.
  intros H. destruct (k_choice_value (k_syms K i)) eqn:E.
  - destruct (wf_value K rank i (Hwf i) E) as (c' & Hc & Hr & _). simplify_eq/=. done.
  - unfold choice_of in H. by rewrite E in H.
Qed.

Section Local.
Context (a b : env) (i : nat) (Hab : agree_below (rank i) a b).

Lemma choice_of_agree c : choice_of K i = Some c -> val_of a c = val_of b c.
Proof using Hwf Hab.
  intros H%choice_of_below. destruct c; try done. simpl in *. by apply Hab.
Qed.

Lemma spec_visible_local : spec_visible K a i = spec_visible K b i.
Proof using Hwf Hab.
  apply visible_agree_tri.
  - apply agree_weaken. eapply deps_agree; [done|]. apply member_deps_sub.
  - intros c Hc. by rewrite choice_of_agree.
Qed.

Lemma modules_agree :
  k_type (k_syms K i) = S_TRISTATE -> modules_off K a = modules_off K b.
Proof using Hwf Hab.
  intros E. apply modules_off_agree, agree_weaken. eapply deps_agree; [done|].
  intros y Hy. apply list_elem_of_singleton in Hy as ->. by apply modules_dep.
Qed.

Lemma two_valued_local : two_valued K a i = two_valued K b i.
Proof using Hwf Hab.
  unfold two_valued. rewrite spec_visible_local. f_equal.
  destruct (decide (k_type (k_syms K i) = S_TRISTATE)) as [E|E].
  - by rewrite modules_agree.
  - by rewrite bool_decide_false.
Qed.

Lemma dep_value_local d e :
  opt_syms K e ⊆ sym_deps K i -> dep_value K a i d e = dep_value K b i d e.
Proof using Hwf Hab.
  intros H. unfold dep_value. rewrite two_valued_local. f_equal.
  destruct e; [|done]. apply cond_agree. by eapply deps_agree.
Qed.

Lemma own_deps :
  k_choice_value (k_syms K i) = false ->
  opt_syms K (k_dir_dep (k_syms K i)) ⊆ sym_deps K i /\
  opt_syms K (k_rev_dep (k_syms K i)) ⊆ sym_deps K i /\
  opt_syms K (k_implied (k_syms K i)) ⊆ sym_deps K i.
Proof using Type. clear Hab Hwf rank. intros E. unfold sym_deps. rewrite E. set_solver. Qed.

Lemma spec_rev_dep_local : spec_rev_dep K a i = spec_rev_dep K b i.
Proof using Hwf Hab.
  unfold spec_rev_dep. destruct (k_choice_value (k_syms K i)) eqn:E; [done|].
  apply dep_value_local. by apply own_deps.
Qed.

Lemma spec_implied_local : spec_implied K a i = spec_implied K b i.
Proof using Hwf Hab.
  unfold spec_implied. destruct (k_choice_value (k_syms K i)) eqn:E; [done|].
  apply dep_value_local. by apply own_deps.
Qed.

Lemma spec_dir_dep_local :
  k_choice_value (k_syms K i) = false -> spec_dir_dep K a i = spec_dir_dep K b i.
Proof using Hwf Hab. intros E. apply dep_value_local. by apply own_deps. Qed.

Lemma active_prop_local ty :
  ty = P_DEFAULT \/ ty = P_RANGE -> active_prop K a ty i = active_prop K b ty i.
Proof using Hwf Hab.
  intros Hty. apply find_ext. intros p Hp.
  destruct (decide (p_type p = ty)) as [E|E]; [|by rewrite bool_decide_false].
  do 3 f_equal. apply cond_agree. eapply deps_agree; [done|].
  apply visible_deps; [done|]. subst ty. naive_solver.
Qed.

Lemma active_prop_elem ty p :
  active_prop K a ty i = Some p -> p ∈ k_prop (k_syms K i) /\ p_type p = ty.
Proof using Type.
  intros H. apply find_some in H as [H1 H2]. rewrite list_elem_of_In. b2p.
  by apply bool_decide_eq_true in H.
Qed.

Lemma with_select_local t : with_select K a i t = with_select K b i t.
Proof using Hwf Hab.
  unfold with_select. rewrite spec_rev_dep_local.
  destruct (k_choice_value (k_syms K i)) eqn:E.
  - unfold spec_rev_dep. rewrite E. by rewrite !andb_false_r.
  - by rewrite spec_dir_dep_local.
Qed.

Lemma default_syms p :
  p ∈ k_prop (k_syms K i) -> p_type p = P_DEFAULT -> k_choice (k_syms K i) = false ->
  pexpr_syms K (p_expr p) ⊆ sym_deps K i.
Proof using Type.
  intros Hp Ht Hc y Hy. eapply prop_deps; [done|]. unfold prop_syms.
  rewrite elem_of_app. right. by rewrite Ht, Hc, orb_true_r.
Qed.

Lemma default_value_local :
  k_choice (k_syms K i) = false -> default_value K a i = default_value K b i.
Proof using Hwf Hab.
  intros Hc. unfold default_value. rewrite spec_implied_local, active_prop_local by auto.
  assert (Hd : match active_prop K b P_DEFAULT i with
           | Some p => EXPR_AND (pexpr_value K a (p_expr p)) (cond K a (p_visible p))
           | None => no end =
         match active_prop K b P_DEFAULT i with
           | Some p => EXPR_AND (pexpr_value K b (p_expr p)) (cond K b (p_visible p))
           | None => no end).
  { rewrite <- active_prop_local by auto.
    destruct (active_prop K a P_DEFAULT i) as [p|] eqn:Ep; [|done].
    apply active_prop_elem in Ep as [Hp Ht]. f_equal.
    - pose proof (default_syms p Hp Ht Hc). destruct (p_expr p); simpl; try done.
      apply expr_value_agree. by eapply deps_agree.
    - apply cond_agree. eapply deps_agree; [done|]. apply visible_deps; auto. }
  rewrite Hd. destruct (is_no (spec_implied K b i)) eqn:Ei; [done|].
  unfold spec_implied in Ei. destruct (k_choice_value (k_syms K i)) eqn:Ev; [done|].
  by rewrite spec_dir_dep_local.
Qed.

Lemma spec_tri_local : spec_tri K U a i = spec_tri K U b i.
Proof using Hwf Hab.
  unfold spec_tri. rewrite spec_visible_local.
  destruct (k_choice_value (k_syms K i) && is_yes (spec_visible K b i)).
  - destruct (choice_of K i) as [c|] eqn:E; [|done]. by rewrite choice_of_agree.
  - rewrite two_valued_local, with_select_local.
    destruct (k_choice (k_syms K i)) eqn:E; [done|]. by rewrite default_value_local.
Qed.
End Local.

(** ** Choices *)

Lemma member_visible_local a b c j :
  agree_below (rank c) a b -> wf_choice K rank c -> j ∈ members K c ->
  member_visible K a c j = member_visible K b c j.
Proof using Type.
  intros Hab Hc Hj. unfold member_visible. do 2 f_equal. apply visible_agree_tri.
  - apply agree_weaken. intros y Hy. destruct (wfc_member_deps K rank c Hc j y Hj Hy) as [->|H]; simpl.
    + unfold enabled. by case_decide.
    + destruct y; try done. simpl in *. unfold enabled. case_decide; [done|]. by apply Hab.
  - intros y Hy. rewrite (wfc_member K rank c Hc j Hj) in Hy. simplify_eq.
    simpl. unfold enabled. by case_decide.
Qed.

Lemma omap_ext {A B} (f g : A -> option B) (l : list A) :
  (forall x, x ∈ l -> f x = g x) -> omap f l = omap g l.
Proof using Type.
  clear Hwf rank.
  induction l as [|x l IH]; intros H; [done|]. simpl.
  rewrite (H x) by set_solver. unfold omap in IH. rewrite IH by set_solver. done.
Qed.

Lemma spec_choice_local a b c :
  agree_below (rank c) a b -> wf_choice K rank c -> wf_choices K U ->
  k_choice (k_syms K c) = true ->
  spec_choice K U a c = spec_choice K U b c.
Proof using Hwf.
  intros Hab Hc HU Hch. unfold spec_choice, selected.
  assert (Hv : forall j, j ∈ members K c -> member_visible K a c j = member_visible K b c j)
    by (intros; by apply member_visible_local).
  rewrite (find_ext (member_visible K a c) (member_visible K b c)) by auto.
  rewrite (omap_ext (default_target K a c) (default_target K b c)).
  - destruct (proj2 (HU c) Hch) as [->|(j & -> & Hj)]; [done|]. simpl. by rewrite Hv.
  - intros p Hp. unfold default_target.
    destruct (decide (p_type p = P_DEFAULT)) as [E|E]; [|by rewrite bool_decide_false].
    rewrite (cond_agree a b) by (eapply deps_agree; [done|]; apply visible_deps; auto).
    destruct (wfc_default K rank c Hc p Hp E) as (j & -> & Hj). simpl. by rewrite Hv.
Qed.

Lemma spec_string_local a b i :
  agree_below (rank i) a b -> k_choice (k_syms K i) = false ->
  spec_string K U a i = spec_string K U b i.
Proof using Hwf.
  intros Hab Hc. unfold spec_string. rewrite (spec_visible_local a b), (active_prop_local a b) by auto.
  destruct (negb _ && _); [done|].
  destruct (active_prop K b P_DEFAULT i) as [p|] eqn:Ep; [|done].
  apply active_prop_elem in Ep as [Hp Ht].
  pose proof (default_syms i p Hp Ht Hc) as Hs.
  pose proof (deps_agree _ _ _ _ Hab Hs) as Hg. unfold prop_get_symbol.
  destruct (p_expr p) as [|e| |]; try done. destruct e as [y| | | |]; try done.
  by rewrite (Hg y) by (simpl; set_solver).
Qed.

Lemma range_syms i p :
  p ∈ k_prop (k_syms K i) -> p_type p = P_RANGE -> pexpr_syms K (p_expr p) ⊆ sym_deps K i.
Proof using Type.
  intros Hp Ht y Hy. eapply prop_deps; [done|]. unfold prop_syms.
  rewrite elem_of_app. right. by rewrite Ht.
Qed.

Lemma spec_number_local a b i :
  agree_below (rank i) a b -> k_choice (k_syms K i) = false ->
  spec_number K U a i = spec_number K U b i.
Proof using Hwf.
  intros Hab Hc. unfold spec_number.
  rewrite (spec_string_local a b), (active_prop_local a b) by auto.
  destruct (active_prop K b P_RANGE i) as [p|] eqn:Ep; [|done].
  apply active_prop_elem in Ep as [Hp Ht].
  pose proof (deps_agree _ _ _ _ Hab (range_syms i p Hp Ht)) as Hg.
  destruct (p_expr p) as [| | |l r]; [reflexivity..|].
  unfold number_of, str_of. rewrite (Hg l), (Hg r) by (simpl; set_solver). reflexivity.
Qed.

Lemma booltri_not_choice i :
  is_booltri (k_type (k_syms K i)) = false -> k_choice (k_syms K i) = false.
Proof using Hwf.
  intros E. destruct (k_choice (k_syms K i)) eqn:Ec; [|done].
  pose proof (wfc_type K rank i (wf_choice_sym K rank i (Hwf i) Ec)). congruence.
Qed.

Lemma spec_value_local a b i :
  wf_choices K U -> agree_below (rank i) a b -> spec_value K U a i = spec_value K U b i.
Proof using Hwf.
  intros HU Hab. unfold spec_value. pose proof (booltri_not_choice i) as Hn.
  rewrite (spec_tri_local a b) by done.
  assert (k_choice (k_syms K i) = true -> spec_choice K U a i = spec_choice K U b i) as Hch.
  { intros E. apply spec_choice_local; [done| |done|done]. by apply (wf_choice_sym K rank i (Hwf i)). }
  destruct (k_type (k_syms K i)); try done.
  - destruct (k_choice (k_syms K i)) eqn:E; [rewrite Hch by done|]; done.
  - destruct (k_choice (k_syms K i)) eqn:E; [rewrite Hch by done|]; done.
  - by rewrite (spec_number_local a b) by auto.
  - by rewrite (spec_number_local a b) by auto.
  - by rewrite (spec_string_local a b) by auto.
Qed.

(** ** The solution *)

Fixpoint iterate (n : nat) : env :=
  match n with
  | O => fun _ => symbol_no_curr
  | S n' => spec_value K U (iterate n')
  end.

(** The value of a symbol under the user's choices. *)
Definition kconfig_value (i : nat) : symbol_value := iterate (S (rank i)) i.

Context (HU : wf_choices K U).

Lemma iterate_stable n m i : (rank i < n)%nat -> (rank i < m)%nat -> iterate n i = iterate m i.
Proof using Hwf HU.
  revert m i. induction n as [|n IH]; intros m i Hn Hm; [lia|].
  destruct m as [|m]; [lia|]. simpl. apply spec_value_local; [done|].
  intros k Hk. apply IH; lia.
Qed.

Lemma kconfig_value_solution : solution K U kconfig_value.
Proof using Hwf HU.
  intros i. unfold kconfig_value at 1. simpl. apply spec_value_local; [done|].
  intros k Hk. unfold kconfig_value. apply iterate_stable; lia.
Qed.

Lemma solution_unique a b : solution K U a -> solution K U b -> forall i, a i = b i.
Proof using Hwf HU.
  intros Ha Hb i. remember (rank i) as n eqn:En. revert i En.
  induction n as [n IH] using lt_wf_ind. intros i ->.
  rewrite Ha, Hb. apply spec_value_local; [done|]. intros k Hk. by eapply IH.
Qed.
End Facts.
