(* ===== verification/KSymCalc.v ===== *)
(** * [sym_calc_value] against the reference semantics: expressions

    The invariant of the store while symbols of rank below [r] are calculated,
    what nested calculations leave alone, and the evaluation of expressions,
    properties and visibilities under that invariant. *)

From stdpp Require Import options.
From stdpp Require Import sets options.
From S2P Require Import Prelude CLib KExpr KSymbol KSymSpec KSymSpecFacts.

Definition wp {A} (m : M A) (Q : A -> store -> Prop) (s : store) : Prop :=
  exists a s', m s = Some (a, s') /\ Q a s'.

(** The state after [upd i f]. *)
Definition updated (i : nat) (f : symstate -> symstate) (s : store) : store :=
  Store (fun k => if decide (k = i) then f (syms s k) else syms s k)
    (modules_val s) (conf_changed s).

Lemma syms_updated_eq i f s : syms (updated i f s) i = f (syms s i).
Proof. simpl. by case_decide. Qed.

Lemma syms_updated_ne i f s k : k <> i -> syms (updated i f s) k = syms s k.
Proof. intros. simpl. by case_decide. Qed.

Section Wp.
Context {A : Type}.
Implicit Types (Q : A -> store -> Prop) (s : store).

Lemma wp_ret (a : A) Q s : Q a s -> wp (ret a) Q s.
Proof. intros. by exists a, s. Qed.

Lemma wp_bind {B} (m : M B) (k : B -> M A) Q s :
  wp m (fun b s' => wp (k b) Q s') s -> wp (bind m k) Q s.
Proof.
  intros (b & s' & Hm & a & s'' & Hk & HQ). exists a, s''. split; [|done].
  unfold bind. by rewrite Hm.
Qed.

Lemma wp_seq {B C} (m1 : M B) (m2 : M C) (m3 : M A) Q s :
  wp (bind m1 (fun _ => m2)) (fun _ s' => wp m3 Q s') s ->
  wp (bind m1 (fun _ => bind m2 (fun _ => m3))) Q s.
Proof.
  intros (c & s' & Hm & a & s'' & Hm3 & HQ). exists a, s''. split; [|done].
  unfold bind in *. destruct (m1 s) as [[b s1]|]; [|done].
  destruct (m2 s1) as [[c' s2]|]; by simplify_eq.
Qed.

Lemma wp_mono (m : M A) Q Q' s :
  wp m Q s -> (forall a s', Q a s' -> Q' a s') -> wp m Q' s.
Proof. intros (a & s' & Hm & HQ) H. exists a, s'. auto. Qed.

Lemma wp_lift (o : option A) a Q s : o = Some a -> Q a s -> wp (lift o) Q s.
Proof. intros ->. apply wp_ret. Qed.

Lemma wp_run (m : M A) a s' Q s : m s = Some (a, s') -> Q a s' -> wp m Q s.
Proof. intros. by exists a, s'. Qed.
End Wp.

Lemma wp_get i Q s : Q (syms s i) s -> wp (get i) Q s.
Proof. intros. by exists (syms s i), s. Qed.

Lemma wp_upd i f (Q : unit -> store -> Prop) s : Q tt (updated i f s) -> wp (upd i f) Q s.
Proof. intros. by exists tt, (updated i f s). Qed.

Lemma wp_get_modules_val Q s : Q (modules_val s) s -> wp get_modules_val Q s.
Proof. intros. by exists (modules_val s), s. Qed.

Lemma wp_when b m (Q : unit -> store -> Prop) s :
  (b = true -> wp m Q s) -> (b = false -> Q tt s) -> wp (when b m) Q s.
Proof. intros H1 H2. destruct b; [by apply H1|by apply wp_ret, H2]. Qed.

(** A loop keeps an invariant. *)
Lemma wp_for_each {A} (l : list A) f (I : store -> Prop) s :
  I s -> (forall a s, a ∈ l -> I s -> wp (f a) (fun _ s' => I s') s) ->
  wp (for_each l f) (fun _ s' => I s') s.
Proof.
  revert s. induction l as [|a l IH]; intros s Hs H; [by apply wp_ret|].
  simpl. apply wp_bind. eapply wp_mono; [apply H; [left|done]|].
  intros [] s' Hs'. apply IH; [done|]. intros. apply H; [by right|done].
Qed.

Ltac wp_step :=
  match goal with
  | |- wp (bind _ _) _ _ => apply wp_bind
  | |- wp (ret _) _ _ => apply wp_ret
  | |- wp (get _) _ _ => apply wp_get
  | |- wp (upd _ _) _ _ => apply wp_upd
  | |- wp get_modules_val _ _ => apply wp_get_modules_val
  end.
Ltac wp_steps := repeat (wp_step; cbv beta).

(** Use the specification [H] of the program at the head. *)
Ltac wp_use H := eapply wp_mono; [apply H|cbv beta].

(** ** The invariant of the store *)

(** Equal but for [visible] and SYMBOL_WRITE. *)
Record same_core (x y : symstate) : Prop := {
  sc_curr : curr x = curr y;
  sc_user : user x = user y;
  sc_dir : dir_dep x = dir_dep y;
  sc_rev : rev_dep x = rev_dep y;
  sc_implied : implied x = implied y;
  sc_valid : f_valid x = f_valid y;
  sc_def_user : f_def_user x = f_def_user y;
  sc_need : f_need_set x = f_need_set y }.

#[export] Instance same_core_equiv : Equivalence same_core.
Proof.
  split.
  - intros x. by constructor.
  - intros x y []. by constructor.
  - intros x y z [] []. constructor; congruence.
Qed.

Section Calc.
Context (K : kconfig) (U : choices) (rank : nat -> nat).
Context (a : env).

Definition modules_ready (r : nat) (s : store) : Prop :=
  match modules_sym K with
  | Sym k => ((rank k < r)%nat -> f_valid (syms s k) = true /\ modules_val s = sv_tri (a k)) /\
             (f_valid (syms s k) = false -> modules_val s = sv_tri (curr (syms s k)))
  | y => modules_val s = sv_tri (const_curr y)
  end.

(** All the choices [k] belongs to are calculated. *)
Definition choice_done (s : store) (k : nat) : Prop :=
  forall c, choice_of K k = Some (Sym c) -> f_valid (syms s c) = true.

(** The visibility and the dependencies of [k] have their values. *)
Record facts (s : store) (k : nat) : Prop := {
  f_vis : visible (syms s k) = spec_visible K a k;
  f_rev : rev_dep (syms s k) = spec_rev_dep K a k;
  f_dir : k_choice_value (k_syms K k) = false -> dir_dep (syms s k) = spec_dir_dep K a k;
  f_done : choice_done s k }.

(** Calculated symbols of rank below [r] have their value; the user's choices
    are those of [U]; no choice waits for its values to be set. *)
Record Inv (r : nat) (s : store) : Prop := {
  i_val k : (rank k < r)%nat -> f_valid (syms s k) = true -> curr (syms s k) = a k;
  i_facts k : (rank k < r)%nat -> f_valid (syms s k) = true ->
    k_type (k_syms K k) <> S_UNKNOWN -> facts s k;
  i_user k : user (syms s k) = u_val U k;
  i_has k : f_valid (syms s k) = false -> f_def_user (syms s k) = u_has U k;
  i_need k : f_need_set (syms s k) = false;
  i_value k : k_choice_value (k_syms K k) = true ->
    rev_dep (syms s k) = no /\ implied (syms s k) = no;
  i_mods : modules_ready r s }.

Lemma choice_done_mono s s' k :
  (forall k, f_valid (syms s k) = true -> f_valid (syms s' k) = true) ->
  choice_done s k -> choice_done s' k.
Proof. unfold choice_done. eauto. Qed.

Lemma facts_core s s' k :
  facts s k -> same_core (syms s' k) (syms s k) -> visible (syms s' k) = visible (syms s k) ->
  (forall k, f_valid (syms s k) = true -> f_valid (syms s' k) = true) -> facts s' k.
Proof.
  intros [F1 F2 F3 F4] [_ _ Ed Er _ _ _ _] Ev Hm.
  split; [congruence..| |by eapply choice_done_mono]. intros H. rewrite Ed. auto.
Qed.

(** The invariant only reads the core of the symbols, and the visibility of
    those of rank below [r]. *)
Lemma Inv_core r s s' :
  Inv r s -> (forall k, same_core (syms s' k) (syms s k)) ->
  (forall k, (rank k < r)%nat -> visible (syms s' k) = visible (syms s k)) ->
  modules_val s' = modules_val s -> Inv r s'.
Proof.
  intros [I1 I1' I2 I3 I4 I5 I6] Hs Hvis Hm. split.
  - intros k. destruct (Hs k) as [-> _ _ _ _ -> _ _]. apply I1.
  - intros k Hk Hv Ht. destruct (Hs k) as [_ _ _ _ _ Ev _ _]. rewrite Ev in Hv.
    apply (facts_core s s' k); auto.
    intros k'. by destruct (Hs k') as [_ _ _ _ _ -> _ _].
  - intros k. destruct (Hs k) as [_ -> _ _ _ _ _ _]. apply I2.
  - intros k. destruct (Hs k) as [_ _ _ _ _ -> -> _]. apply I3.
  - intros k. destruct (Hs k) as [_ _ _ _ _ _ _ ->]. apply I4.
  - intros k. destruct (Hs k) as [_ _ _ -> -> _ _ _]. apply I5.
  - unfold modules_ready in *. destruct (modules_sym K) as [| | |k]; [congruence..|].
    destruct (Hs k) as [-> _ _ _ _ -> _ _]. by rewrite Hm.
Qed.

(** What a calculation of symbols of rank below [r] leaves alone. *)
Record nest (r : nat) (s s' : store) : Prop := {
  n_core k : (r <= rank k)%nat -> same_core (syms s' k) (syms s k);
  n_vis k : (r <= rank k)%nat -> choice_done s k -> visible (syms s' k) = visible (syms s k);
  n_mono k : f_valid (syms s k) = true -> f_valid (syms s' k) = true;
  n_mval : modules_val s' = modules_val s }.

#[global] Instance nest_preorder r : PreOrder (nest r).
Proof.
  split.
  - intros s. by split.
  - intros s1 s2 s3 [A1 B1 C1 D1] [A2 B2 C2 D2]. split.
    + intros k Hk. etrans; [by apply A2|by apply A1].
    + intros k Hk Hd. rewrite B2, B1; eauto using choice_done_mono.
    + auto.
    + congruence.
Qed.

Section Eval.
Context (rec : symbol -> M unit) (r : nat) (b : env).

Record rec_ok : Prop := {
  rec_calc k s : Inv r s -> (rank k < r)%nat ->
    wp (rec (Sym k)) (fun _ s' => Inv r s' /\ nest r s s' /\ f_valid (syms s' k) = true) s;
  rec_valid k s : f_valid (syms s k) = true -> rec (Sym k) s = Some (tt, s);
  rec_const y s : (forall k, y <> Sym k) -> rec y s = Some (tt, s) }.

Context (Hrec : rec_ok).
Context (Hstr : forall k, is_booltri (k_type (k_syms K k)) = false ->
                exists t, sv_val (b k) = V_STR t).

(** [y] can be evaluated with the value [b] gives it. *)
Definition ready (s : store) (y : symbol) : Prop :=
  match y with
  | Sym k => ((rank k < r)%nat /\ b k = a k) \/
             ((r <= rank k)%nat /\ f_valid (syms s k) = true /\ curr (syms s k) = b k)
  | _ => True
  end.

Definition is_valid (s : store) (y : symbol) : Prop :=
  match y with Sym k => f_valid (syms s k) = true | _ => True end.

Lemma ready_nest s s' y : nest r s s' -> ready s y -> ready s' y.
Proof.
  intros Hn. destruct y as [| | |k]; try done. intros [?|(Hk & Hv & Hc)]; [by left|right].
  destruct (n_core r s s' Hn k Hk) as [Ec _ _ _ _ Ev _ _]. by rewrite Ec, Ev.
Qed.

Lemma valid_nest s s' y : nest r s s' -> is_valid s y -> is_valid s' y.
Proof. intros Hn. destruct y; try done. apply Hn. Qed.

Lemma rec_ready s y :
  Inv r s -> ready s y ->
  wp (rec y) (fun _ s' => Inv r s' /\ nest r s s' /\ is_valid s' y) s.
Proof using Hrec.
  intros Hi Hy. destruct y as [| | |k]; try (by eapply wp_run; [apply Hrec|]).
  destruct Hy as [[Hk _]|(Hk & Hv & _)].
  - by apply Hrec.
  - by eapply wp_run; [apply Hrec|].
Qed.

Lemma ready_curr s y :
  Inv r s -> ready s y -> is_valid s y ->
  get_curr y s = Some (val_of b y, s).
Proof.
  intros Hi Hy Hv. destruct y as [| | |k]; try done. unfold get_curr, bind, get, ret. simpl.
  do 2 f_equal. destruct Hy as [[Hk ->]|(_ & _ & ->)]; [|done].
  by apply (i_val r s Hi).
Qed.

Lemma modules_valid s : Inv r s -> ready s (modules_sym K) -> is_valid s (modules_sym K).
Proof.
  intros Hi. pose proof (i_mods r s Hi) as Hm. unfold modules_ready in Hm.
  destruct (modules_sym K) as [| | |k]; try done.
  intros [[Hk _]|(_ & Hv & _)]; [by apply Hm|done].
Qed.

Lemma string_value_wp s y :
  Inv r s -> ready s y -> is_valid s y ->
  (is_booltri (type_of K y) = true -> ready s (modules_sym K)) ->
  wp (sym_get_string_value K rec y)
    (fun t s' => Inv r s' /\ nest r s s' /\
                 t = KExpr.sym_get_string_value (symtab_of K b) y) s.
Proof using Hrec Hstr.
  intros Hi Hy Hv Hm. unfold sym_get_string_value, KExpr.sym_get_string_value.
  assert (E : KExpr.sym_type (symtab_of K b) y = type_of K y) by (by destruct y).
  assert (Et : KExpr.sym_tri (symtab_of K b) y = sv_tri (val_of b y)) by (by destruct y).
  rewrite E, Et. destruct (is_booltri (type_of K y)) eqn:Eb.
  - assert (wp (let* v := get_curr y in
      match sv_tri v with
      | no => ret (str "n")
      | mod_ => rec (modules_sym K);; (let* m := get_curr (modules_sym K) in
          ret (if is_no (sv_tri m) then str "n" else str "m"))
      | yes => ret (str "y")
      end)%ksym (fun t s' => Inv r s' /\ nest r s s' /\ t =
        match sv_tri (val_of b y) with
        | no => str "n"
        | mod_ => if decide (st_modules (symtab_of K b) = no) then str "n" else str "m"
        | yes => str "y"
        end) s) as H; [|by destruct (type_of K y)].
    wp_step. eapply wp_run; [by apply ready_curr|].
    destruct (sv_tri (val_of b y)); [by apply wp_ret| |by apply wp_ret].
    wp_step. wp_use rec_ready; [done|by apply Hm|]. intros _ s1 (Hi1 & Hn1 & Hv1).
    wp_step. eapply wp_run; [apply ready_curr; [done| |done]|].
    { eapply ready_nest; [done|by apply Hm]. }
    apply wp_ret. split; [done|]. split; [done|].
    unfold is_no. simpl. by repeat case_decide.
  - assert (wp (get_str y) (fun t s' => Inv r s' /\ nest r s s' /\
      t = str_of b y) s) as H.
    { unfold get_str. wp_step. eapply wp_run; [by apply ready_curr|].
      unfold str_of. eapply (wp_lift _ (default [] (val_str (sv_val (val_of b y))))).
      - destruct y as [| | |k]; [done..|]. destruct (Hstr k Eb) as [t Ht]. simpl. by rewrite Ht.
      - done. }
    destruct y as [| | |k]; [exact H..|].
    simpl in Eb |- *. by destruct (k_type (k_syms K k)).
Qed.

Lemma expr_calc_wp e s :
  Inv r s -> (forall y, y ∈ expr_syms K e -> ready s y) ->
  wp (expr_calc K rec e)
    (fun t s' => Inv r s' /\ nest r s s' /\ t = expr_value (symtab_of K b) e /\
                 forall y, y ∈ expr_syms K e -> is_valid s' y) s.
Proof using Hrec Hstr.
  revert s. induction e as [y|e IH|e1 IH1 e2 IH2|e1 IH1 e2 IH2|c e1 e2];
    intros s Hi Hr; cbn [expr_calc expr_syms expr_value] in *.
  - wp_step. wp_use rec_ready; [done|apply Hr; set_solver|]. intros _ s1 (Hi1 & Hn1 & Hv1).
    wp_step. eapply wp_run; [apply ready_curr; [done| |done]|].
    { eapply ready_nest; [done|]. apply Hr. set_solver. }
    apply wp_ret. split_and!; [done..| |].
    + by destruct y.
    + intros y' Hy'. by apply list_elem_of_singleton in Hy' as ->.
  - wp_step. wp_use IH; [done..|]. intros t s1 (Hi1 & Hn1 & -> & Hv1).
    by apply wp_ret.
  - wp_step. wp_use IH1; [done|set_solver|]. intros t1 s1 (Hi1 & Hn1 & -> & Hv1).
    wp_step. wp_use IH2; [done| |].
    { intros y Hy. eapply ready_nest; [done|]. apply Hr. set_solver. }
    intros t2 s2 (Hi2 & Hn2 & -> & Hv2). apply wp_ret. split_and!; [done| |done|].
    + by etrans.
    + intros y [Hy|Hy]%elem_of_app; [|by apply Hv2]. by eapply valid_nest, Hv1.
  - wp_step. wp_use IH1; [done|set_solver|]. intros t1 s1 (Hi1 & Hn1 & -> & Hv1).
    wp_step. wp_use IH2; [done| |].
    { intros y Hy. eapply ready_nest; [done|]. apply Hr. set_solver. }
    intros t2 s2 (Hi2 & Hn2 & -> & Hv2). apply wp_ret. split_and!; [done| |done|].
    + by etrans.
    + intros y [Hy|Hy]%elem_of_app; [|by apply Hv2]. by eapply valid_nest, Hv1.
  - assert (forall s', nest r s s' -> forall y, y ∈ e1 :: e2 ::
      (if is_booltri (type_of K e1) || is_booltri (type_of K e2) then [modules_sym K] else []) ->
      ready s' y) as Hr' by (intros; by eapply ready_nest, Hr).
    wp_step. wp_use rec_ready; [done|apply Hr; set_solver|]. intros _ s1 (Hi1 & Hn1 & Hv1).
    wp_step. wp_use rec_ready; [done|apply Hr'; [done|set_solver]|]. intros _ s2 (Hi2 & Hn2 & Hv2).
    assert (nest r s s2) as Hn by (by etrans).
    assert (is_valid s2 e1) as Hv1' by exact (valid_nest _ _ _ Hn2 Hv1).
    wp_step. wp_use string_value_wp; [done|apply Hr'; [done|set_solver]|done| |].
    { intros E. apply Hr'; [done|]. rewrite E. set_solver. }
    intros t1 s3 (Hi3 & Hn3 & ->). assert (nest r s s3) as Hn' by (by etrans).
    wp_step. wp_use string_value_wp; [done|apply Hr'; [done|set_solver]|exact (valid_nest _ _ _ Hn3 Hv2)| |].
    { intros E. apply Hr'; [done|]. rewrite E, orb_true_r. set_solver. }
    intros t2 s4 (Hi4 & Hn4 & ->). assert (nest r s s4) as Hn'' by (by etrans).
    assert (nest r s2 s4) as Hn24 by (by etrans).
    apply wp_ret. split_and!; [done..| |].
    + unfold compare_symbols. do 2 f_equal; by destruct e1, e2.
    + intros y Hy. assert (ready s4 y) as Hry by (by apply Hr').
      apply elem_of_cons in Hy as [->|[->|Hy]%elem_of_cons]; [exact (valid_nest _ _ _ Hn24 Hv1')|exact (valid_nest _ _ _ Hn24 Hv2)|].
      destruct (_ || _); [|by apply not_elem_of_nil in Hy].
      apply list_elem_of_singleton in Hy as ->. by apply modules_valid.
Qed.

Lemma calc_value_wp e s :
  Inv r s -> (forall y, y ∈ opt_syms K e -> ready s y) ->
  wp (expr_calc_value K rec e)
    (fun t s' => Inv r s' /\ nest r s s' /\ t = cond K b e /\
                 forall y, y ∈ opt_syms K e -> is_valid s' y) s.
Proof using Hrec Hstr.
  intros Hi Hr. destruct e as [e|]; [by apply expr_calc_wp|].
  apply wp_ret. split_and!; [done..|]. intros y Hy. by apply not_elem_of_nil in Hy.
Qed.
Lemma first_visible_wp ty l s :
  Inv r s ->
  (forall p, p ∈ l -> p_type p = ty -> forall y, y ∈ opt_syms K (p_visible p) -> ready s y) ->
  wp (first_visible K rec ty l)
    (fun o s' => Inv r s' /\ nest r s s' /\
       o = (fun p => (p, cond K b (p_visible p))) <$>
           List.find (fun p => bool_decide (p_type p = ty) &&
                               negb (is_no (cond K b (p_visible p)))) l) s.
Proof using Hrec Hstr.
  revert s. induction l as [|p l IH]; intros s Hi Hr; [by apply wp_ret|]. simpl.
  case_decide as E.
  - rewrite bool_decide_true by done. wp_step. wp_use calc_value_wp; [done|by apply Hr; [left|]|].
    intros t s1 (Hi1 & Hn1 & -> & _). simpl. destruct (is_no (cond K b (p_visible p))).
    + simpl. wp_use IH; [done| |].
      * intros p' Hp' Ht y Hy. eapply ready_nest; [done|]. eapply Hr; [by right|done..].
      * intros o s2 (Hi2 & Hn2 & ->). split_and!; [done|by etrans|done].
    + apply wp_ret. by split_and!.
  - rewrite bool_decide_false by done. simpl. apply IH; [done|].
    intros p' Hp'. apply Hr. by right.
Qed.

(** The prompts of [i] fit its choice. *)
Definition choice_fits (s : store) (i : nat) (l : list property) : Prop :=
  forall c, choice_of K i = Some c ->
    exists k, c = Sym k /\ ready s c /\ forall p, p ∈ l -> guarded_by K k (p_visible p).

Lemma prompts_visible_wp i l t0 s :
  Inv r s ->
  (forall p y, p ∈ List.filter p_text l -> y ∈ opt_syms K (p_visible p) -> ready s y) ->
  choice_fits s i (List.filter p_text l) ->
  wp (prompts_visible K rec i (choice_of K i) l t0)
    (fun t s' => Inv r s' /\ nest r s s' /\
       t = fold_left (fun t p => EXPR_OR t (prompt_value K b i p)) (List.filter p_text l) t0 /\
       forall p y, p ∈ List.filter p_text l -> y ∈ opt_syms K (p_visible p) -> is_valid s' y) s.
Proof using Hrec Hstr.
  revert t0 s. induction l as [|p l IH]; intros t0 s Hi Hr Hc; simpl.
  { apply wp_ret. split_and!; [done..|]. intros p y Hp. by apply not_elem_of_nil in Hp. }
  destruct (p_text p) eqn:Ep; simpl in *; rewrite Ep in Hr, Hc; [|by apply IH].
  wp_step. wp_use calc_value_wp; [done|intros y; apply (Hr p); left|].
  intros t s1 (Hi1 & Hn1 & -> & Hv1). wp_step.
  eapply (wp_mono _ (fun t s' => s' = s1 /\ t = prompt_value K b i p)).
  { destruct (choice_of K i) as [c|] eqn:Ec.
    - destruct (Hc c Ec) as (k & -> & Hk & Hg). wp_step.
      destruct (Hg p ltac:(by left)) as [Hno|Hin].
      + unfold get_curr. wp_step. wp_step. apply wp_ret. apply wp_ret. split; [done|].
        unfold prompt_value. rewrite Ec, Hno. simpl. by rewrite !andb_false_r.
      + eapply wp_run; [apply ready_curr; [done|by eapply ready_nest|]|].
        { by apply (Hv1 (Sym k)). }
        apply wp_ret. split; [done|]. unfold prompt_value. by rewrite Ec.
    - apply wp_ret. split; [done|]. unfold prompt_value. by rewrite Ec. }
  intros t s1' [-> ->]. wp_use IH; [done| | |].
  - intros p' y Hp' Hy. eapply ready_nest; [done|]. eapply Hr; [by right|done].
  - intros c Ec. destruct (Hc c Ec) as (k & -> & Hk & Hg). exists k.
    split_and!; [done|by eapply ready_nest|]. intros p' Hp'. apply Hg. by right.
  - intros t s2 (Hi2 & Hn2 & -> & Hv2). split_and!; [done|by etrans|done|].
    intros p' y [->|Hp']%elem_of_cons Hy; [|by eapply Hv2].
    eapply valid_nest; [done|by apply Hv1].
Qed.

Lemma modules_val_ready s :
  Inv r s -> rank_below rank r (modules_sym K) ->
  val_of b (modules_sym K) = val_of a (modules_sym K) ->
  is_no (modules_val s) = modules_off K b.
Proof.
  intros Hi Hr Hb. unfold modules_off. rewrite Hb. pose proof (i_mods r s Hi) as Hm.
  unfold modules_ready in Hm. destruct (modules_sym K); simpl in *; try by rewrite Hm.
  destruct Hm as [Hm _]. by destruct (Hm Hr) as [_ ->].
Qed.

(** Under this condition [sym_calc_visibility] sets [visible] to its value. *)
Record vis_ready (s : store) (i : nat) : Prop := {
  vr_prompts p y : p ∈ prompts K i -> y ∈ opt_syms K (p_visible p) -> ready s y;
  vr_choice : choice_fits s i (prompts K i);
  vr_prop : k_choice_value (k_syms K i) = true -> is_Some (choice_of K i);
  vr_modules : k_type (k_syms K i) = S_TRISTATE ->
    rank_below rank r (modules_sym K) /\ val_of b (modules_sym K) = val_of a (modules_sym K) }.

(** The first half of [sym_calc_visibility]. *)
Lemma visible_wp {A} i s (k : M A) Q :
  Inv r s -> vis_ready s i ->
  (forall s1, Inv r s1 -> nest r s s1 ->
     (forall p y, p ∈ prompts K i -> y ∈ opt_syms K (p_visible p) -> is_valid s1 y) ->
     wp k Q (updated i (set_visible (spec_visible K b i)) s1)) ->
  wp (let* choice_sym := if k_choice_value (k_syms K i) then choice_symbol K i else ret None in
      let* tri := prompts_visible K rec i choice_sym (k_prop (k_syms K i)) no in
      let* mv := get_modules_val in
      let tri := if is_mod tri && (bool_decide (k_type (k_syms K i) <> S_TRISTATE) || is_no mv)
                 then yes else tri in
      upd i (set_visible tri) ;; k)%ksym Q s.
Proof using Hrec Hstr.
  intros Hi [Hp Hc Hs Hm] Hk. wp_step.
  eapply (wp_mono _ (fun o s' => s' = s /\ o = choice_of K i)).
  { unfold choice_of in *. destruct (k_choice_value (k_syms K i)); [|by apply wp_ret].
    unfold choice_symbol. destruct (sym_get_choice_prop K i) as [p|]; [|by destruct (Hs eq_refl)].
    wp_step. eapply wp_lift; [done|]. by apply wp_ret. }
  intros o s' [-> ->]. wp_step. wp_use prompts_visible_wp; [done..|].
  intros t s1 (Hi1 & Hn1 & -> & Hv1). wp_step. wp_step. cbv zeta. wp_step. wp_step.
  match goal with |- wp k Q (updated i (set_visible ?t) s1) =>
    assert (t = spec_visible K b i) as ->; [|by apply Hk] end.
  unfold spec_visible, raise. fold (prompts K i). rewrite andb_comm.
  destruct (decide (k_type (k_syms K i) = S_TRISTATE)) as [E|E].
  - destruct (Hm E). by rewrite (modules_val_ready s1).
  - by rewrite !bool_decide_true.
Qed.
End Eval.
End Calc.
