(* ===== verification/KSymBody.v ===== *)
(** * [sym_calc_value] against the reference semantics: one symbol

    The calculation of a symbol [i], under the assumption [rec_ok] that nested
    calculations are right for the symbols of lower rank. *)
From stdpp Require Import sets options.
From S2P Require Import Prelude CLib KExpr KSymbol KSymSpec KSymSpecFacts KSymCalc.

Section Body.
Context (K : kconfig) (U : choices) (rank : nat -> nat).
Context (Hwf : wf_config K rank) (HU : wf_choices K U).
Context (a : env) (Ha : solution K U a).
#[local] Notation Inv := (KSymCalc.Inv K U rank a).
#[local] Notation nest := (KSymCalc.nest K rank).
#[local] Notation choice_done := (KSymCalc.choice_done K).

(** Symbols that are neither boolean nor tristate hold a string. *)
Lemma spec_string_below i :
  (forall k, (rank k < rank i)%nat -> is_booltri (k_type (k_syms K k)) = false ->
     exists t, sv_val (a k) = V_STR t) ->
  is_booltri (k_type (k_syms K i)) = false -> exists t, spec_string K U a i = V_STR t.
Proof using All.
  intros IH Hb. pose proof (booltri_not_choice K rank Hwf i Hb) as Hc.
  unfold spec_string. destruct (negb _ && _) eqn:Ev; [b2p; by apply HU|].
  destruct (active_prop K a P_DEFAULT i) as [p|] eqn:Ep; [|by eexists].
  apply active_prop_elem in Ep as [Hp Ht].
  destruct (prop_get_symbol p) as [ds|] eqn:Ed; [|by eexists].
  destruct ds as [| | |k]; simpl; try by eexists.
  destruct (is_booltri (k_type (k_syms K k))) eqn:Ek.
  - pose proof (wf_string_default K rank i (Hwf i) p k Hb Hp Ht Ed) as Hk.
    rewrite Ha. unfold spec_value. rewrite Hk. destruct (k_type (k_syms K k)); try done; by eexists.
  - apply IH; [|done].
    assert (rank_below rank (rank i) (Sym k)) as H; [|exact H].
    apply (wf_rank K rank i (Hwf i)). eapply default_syms; [done..|].
    unfold prop_get_symbol in Ed. destruct (p_expr p) as [|e| |]; try done.
    destruct e; simplify_eq. simpl. set_solver.
Qed.

Lemma solution_string i :
  is_booltri (k_type (k_syms K i)) = false -> exists t, sv_val (a i) = V_STR t.
Proof using All.
  remember (rank i) as n eqn:En. revert i En. induction n as [n IH] using lt_wf_ind.
  intros i -> Hb. destruct (spec_string_below i) as [t Ht]; [by eauto|done|].
  rewrite Ha. unfold spec_value. destruct (k_type (k_syms K i)) eqn:E; try done; simpl;
    try (by eexists); unfold spec_number; rewrite Ht;
    (destruct (active_prop K a P_RANGE i) as [p|]; [|by eexists]);
    (destruct (p_expr p); try by eexists); unfold clamp;
    (destruct (_ <? _); [by eexists|]); (destruct (_ <? _); by eexists).
Qed.

Lemma spec_string_str i :
  is_booltri (k_type (k_syms K i)) = false -> exists t, spec_string K U a i = V_STR t.
Proof using All. apply spec_string_below. intros k _. apply solution_string. Qed.

Section Sym.
Context (rec : symbol -> M unit) (i : nat).
Context (Hrec : rec_ok K U rank a rec (rank i)).
#[local] Notation r := (rank i).

(** What the calculation of [i] leaves alone. *)
Record out (s s' : store) : Prop := {
  o_core k : k <> i -> (r <= rank k)%nat -> same_core (syms s' k) (syms s k);
  o_vis k : k <> i -> (r <= rank k)%nat -> choice_done s k ->
            visible (syms s' k) = visible (syms s k);
  o_mono k : f_valid (syms s k) = true -> f_valid (syms s' k) = true;
  o_mval : modules_val s' = modules_val s }.

(** The calculation of [i], which began in [s0], has reached [s]. *)
Record in_calc (s0 s : store) : Prop := {
  c_inv : Inv r s;
  c_out : out s0 s;
  c_valid : f_valid (syms s i) = true }.

Lemma in_calc_nest s0 s s' : in_calc s0 s -> Inv r s' -> nest r s s' -> in_calc s0 s'.
Proof using Type.
  intros [Hi [Oc Ov Om Omv] Hv] Hi' [Nc Nv Nm Nmv]. split; [done| |by apply Nm].
  split.
  - intros k Hk Hr. etrans; [by apply Nc|by apply Oc].
  - intros k Hk Hr Hd. rewrite Nv, Ov; [done..|]. intros c Hc. by apply Om, Hd.
  - auto.
  - congruence.
Qed.

Lemma in_calc_upd s0 s f :
  in_calc s0 s ->
  (forall x, user (f x) = user x) -> (forall x, f_need_set (f x) = f_need_set x) ->
  (forall x, f_valid x = true -> f_valid (f x) = true) ->
  (k_choice_value (k_syms K i) = true ->
   forall x, rev_dep (f x) = rev_dep x /\ implied (f x) = implied x) ->
  in_calc s0 (updated i f s).
Proof using Type.
  intros [[I1 I1' I2 I3 I4 I5 I6] [Oc Ov Om Omv] Hv] Hu Hn Hf Hc.
  assert (forall k, f_valid (syms s k) = true -> f_valid (syms (updated i f s) k) = true) as Hm.
  { intros k Hk. simpl. case_decide; [subst; by apply Hf|done]. }
  split; [split|split|by apply Hm]; try (intros k; simpl; case_decide; [subst k|by auto]).
  - lia.
  - intros k Hk Hkv Ht. assert (k <> i) as Hne by (intros ->; lia).
    rewrite syms_updated_ne in Hkv by done.
    apply (facts_core K a s); [by apply I1'|by rewrite syms_updated_ne..|done].
  - intros. by rewrite Hu.
  - intros H. rewrite Hf in H by done. done.
  - by rewrite Hn.
  - intros H. destruct (Hc H (syms s i)) as [-> ->]. by apply I5.
  - unfold modules_ready in *. destruct (modules_sym K) as [| | |k]; try done.
    simpl. case_decide; [subst k|done]. split; [lia|]. intros H. by rewrite Hf in H.
  - done.
  - done.
  - intros H. by apply Hf, Om.
  - done.
Qed.

Lemma dep_ready s y : y ∈ sym_deps K i -> ready rank a r a s y.
Proof using Hwf.
  intros Hy. apply (wf_rank K rank i (Hwf i)) in Hy. destruct y; try done. left. done.
Qed.

Lemma type_wp s Q :
  Inv r s -> visible (syms s i) = spec_visible K a i ->
  (forall ty, bool_decide (ty = S_BOOLEAN) = two_valued K a i ->
     (if is_booltri (k_type (k_syms K i)) then is_booltri ty = true
      else ty = k_type (k_syms K i)) -> Q ty s) ->
  wp (sym_get_type K i) Q s.
Proof using Hwf.
  intros Hi Hv HQ. unfold sym_get_type. wp_steps. apply HQ; clear HQ.
  - rewrite Hv. unfold two_valued.
    destruct (decide (k_type (k_syms K i) = S_TRISTATE)) as [E|E].
    + rewrite E. change (bool_decide (S_TRISTATE = S_BOOLEAN)) with false.
      change (bool_decide (S_TRISTATE = S_TRISTATE)) with true. simpl.
      assert (rank_below rank r (modules_sym K)) as Hm.
      { by apply (wf_rank K rank i (Hwf i)), modules_dep. }
      rewrite <- (modules_val_ready K U rank a r a s) by done.
      destruct (_ && _); [done|]. by destruct (is_no (modules_val s)).
    + by rewrite (bool_decide_false (_ = S_TRISTATE)), andb_false_l, orb_false_r.
  - case_decide as E; [rewrite E; simpl; by repeat case_match|].
    by destruct (k_type (k_syms K i)).
Qed.

Lemma promote_wp t s Q :
  Inv r s -> visible (syms s i) = spec_visible K a i ->
  Q (raise (two_valued K a i) t) s -> wp (promote K i t) Q s.
Proof using Hwf.
  intros Hi Hv HQ. unfold promote. wp_step. apply type_wp; [done..|]. intros ty Ht _.
  apply wp_ret. unfold raise in HQ. by rewrite andb_comm, Ht.
Qed.
(** The visibility and dependencies of [i] have been calculated. *)
Record settled (s0 s : store) : Prop := {
  se_calc : in_calc s0 s;
  se_facts : facts K a s i }.

Lemma settled_nest s0 s s' : settled s0 s -> Inv r s' -> nest r s s' -> settled s0 s'.
Proof using Type.
  intros [Hc Hf] Hi Hn. split; [by eapply in_calc_nest|].
  apply (facts_core K a s); [done|by apply Hn|apply Hn; [lia|apply Hf]|apply Hn].
Qed.

Lemma settled_upd s0 s f :
  settled s0 s ->
  (forall x, user (f x) = user x /\ f_need_set (f x) = f_need_set x /\
     f_valid (f x) = f_valid x /\ visible (f x) = visible x /\ dir_dep (f x) = dir_dep x /\
     rev_dep (f x) = rev_dep x /\ implied (f x) = implied x) ->
  settled s0 (updated i f s).
Proof using Type.
  intros [Hc [F1 F2 F3 F4]] Hf.
  destruct (Hf (syms s i)) as (? & ? & Ev & Evi & Ed & Er & ?).
  split; [|split; rewrite ?syms_updated_eq; try congruence].
  - apply in_calc_upd; [done|..]; try intros _; intros x;
      destruct (Hf x) as (? & ? & ? & ? & ? & ? & ?); split_and?; congruence.
  - intros Hcv. rewrite Ed. auto.
  - eapply choice_done_mono; [|exact F4]. intros k Hk. simpl. case_decide; [|done].
    subst k. congruence.
Qed.

Record known (s0 s : store) : Prop := {
  kn_settled : settled s0 s;
  kn_implied : implied (syms s i) = spec_implied K a i;
  kn_has : f_def_user (syms s i) = u_has U i }.

Lemma kn_calc s0 s : known s0 s -> in_calc s0 s.
Proof using Type. intros [[]]. done. Qed.
Lemma kn_inv s0 s : known s0 s -> Inv r s.
Proof using Type. intros []%kn_calc. done. Qed.
Lemma kn_facts s0 s : known s0 s -> facts K a s i.
Proof using Type. intros [[]]. done. Qed.

Lemma known_nest s0 s s' : known s0 s -> Inv r s' -> nest r s s' -> known s0 s'.
Proof using Type.
  intros [Hc Him Hh] Hi Hn. pose proof (n_core K rank r s s' Hn i ltac:(lia)) as [].
  split; [by eapply settled_nest|congruence..].
Qed.

(** Updates of [curr] and SYMBOL_WRITE. *)
Definition keeps (f : symstate -> symstate) : Prop := forall x,
  user (f x) = user x /\ visible (f x) = visible x /\ dir_dep (f x) = dir_dep x /\
  rev_dep (f x) = rev_dep x /\ implied (f x) = implied x /\ f_valid (f x) = f_valid x /\
  f_def_user (f x) = f_def_user x /\ f_need_set (f x) = f_need_set x.

Lemma known_upd s0 s f : keeps f -> known s0 s -> known s0 (updated i f s).
Proof using Type.
  intros Hf [Hc Him Hh]. split; rewrite ?syms_updated_eq.
  - apply settled_upd; [done|]. intros x. by destruct (Hf x) as (? & ? & ? & ? & ? & ? & ? & ?).
  - by destruct (Hf (syms s i)) as (_ & _ & _ & _ & -> & _).
  - by destruct (Hf (syms s i)) as (_ & _ & _ & _ & _ & _ & -> & _).
Qed.

Lemma keeps_write b : keeps (set_write b).
Proof using Type. done. Qed.
Lemma keeps_curr v : keeps (set_curr v).
Proof using Type. done. Qed.

Lemma own_vis_ready s : vis_ready K rank a r a s i.
Proof using HU Ha Hrec Hwf K U a i rank rec.
  split.
  - intros p y [Ht Hp]%elem_of_prompts Hy. apply dep_ready.
    eapply visible_deps; [done|by left|done].
  - intros c Hc. pose proof (choice_of_below K rank Hwf i c Hc) as Hr.
    unfold choice_of in Hc. destruct (k_choice_value (k_syms K i)) eqn:E; [|done].
    destruct (wf_value K rank i (Hwf i) E) as (k & Hk & _ & _ & _ & Hg).
    unfold choice_of in Hk. rewrite E, Hc in Hk. simplify_eq. exists k.
    split_and!; [done|by left|done].
  - intros E. destruct (wf_value K rank i (Hwf i) E) as (k & Hk & _). by rewrite Hk.
  - intros E. split; [|done]. by apply (wf_rank K rank i (Hwf i)), modules_dep.
Qed.

Lemma calc_dep_wp d e s :
  Inv r s -> visible (syms s i) = spec_visible K a i -> choice_done s i ->
  opt_syms K e ⊆ sym_deps K i ->
  wp (calc_dep K rec i d e)
    (fun t s' => Inv r s' /\ nest r s s' /\ t = dep_value K a i d e) s.
Proof using All.
  intros Hi Hv Hd He. unfold calc_dep. wp_step.
  eapply (wp_mono _ (fun t s' => Inv r s' /\ nest r s s' /\
            t = match e with None => d | Some _ => cond K a e end)).
  { destruct e as [e|]; [|by apply wp_ret].
    wp_use (expr_calc_wp K U rank a rec r a Hrec solution_string); [done| |].
    - intros y Hy. apply dep_ready. by apply He.
    - intros t s1 (Hi1 & Hn1 & -> & _). done. }
  intros t s1 (Hi1 & Hn1 & ->). apply promote_wp; [done| |done].
  rewrite (n_vis K rank r s s1 Hn1); [done|lia|done].
Qed.

(** One dependency of the second half of [sym_calc_visibility]; [P] is what is
    known of the other fields of [i]. *)
Lemma dep_step s0 s d e (f : tristate -> symstate -> symstate) (P : symstate -> Prop)
    (Q : unit -> store -> Prop) (k : M unit) :
  in_calc s0 s -> choice_done s i -> visible (syms s i) = spec_visible K a i ->
  f_def_user (syms s i) = u_has U i -> k_choice_value (k_syms K i) = false ->
  opt_syms K e ⊆ sym_deps K i ->
  P (syms s i) -> (forall x y, same_core x y -> P y -> P x) ->
  (forall t x, user (f t x) = user x /\ visible (f t x) = visible x /\
     f_valid (f t x) = f_valid x /\ f_def_user (f t x) = f_def_user x /\
     f_need_set (f t x) = f_need_set x) ->
  (forall s' x, syms s' i = f (dep_value K a i d e) x -> P x -> in_calc s0 s' ->
     choice_done s' i -> visible (syms s' i) = spec_visible K a i ->
     f_def_user (syms s' i) = u_has U i -> wp k Q s') ->
  wp (let* t := calc_dep K rec i d e in upd i (f t) ;; k)%ksym Q s.
Proof using All.
  intros Hc Hd Hv Hh E He HP HPc Hf Hk.
  wp_step. wp_use calc_dep_wp; [apply Hc|done..|].
  intros t s1 (Hi1 & Hn1 & ->). wp_step. wp_step.
  pose proof (n_core K rank r s s1 Hn1 i ltac:(lia)) as Hs.
  destruct (Hf (dep_value K a i d e) (syms s1 i)) as (? & ? & ? & ? & ?).
  eapply Hk; rewrite ?syms_updated_eq; [done|by eapply HPc| | | |].
  - apply in_calc_upd; [by eapply in_calc_nest|intros x; by apply Hf..| |congruence].
    intros x ?. destruct (Hf (dep_value K a i d e) x) as (_ & _ & -> & _). done.
  - eapply choice_done_mono; [|exact Hd]. intros k' Hk'. apply Hn1 in Hk'. simpl.
    case_decide; [subst; congruence|done].
  - rewrite <- Hv. etrans; [eassumption|]. by apply Hn1.
  - rewrite <- Hh. etrans; [eassumption|]. by apply Hs.
Qed.

(** The second half of [sym_calc_visibility]. *)
Lemma deps_wp s0 s :
  in_calc s0 s -> choice_done s i -> visible (syms s i) = spec_visible K a i ->
  f_def_user (syms s i) = u_has U i -> k_choice_value (k_syms K i) = false ->
  wp (let* t := calc_dep K rec i yes (k_dir_dep (k_syms K i)) in upd i (set_dir_dep t) ;;
      let* t := calc_dep K rec i no (k_rev_dep (k_syms K i)) in upd i (set_rev_dep t) ;;
      let* t := calc_dep K rec i no (k_implied (k_syms K i)) in upd i (set_implied t))%ksym
    (fun _ s' => known s0 s') s.
Proof using All.
  intros Hc Hd Hv Hh E. destruct (own_deps K i E) as (D1 & D2 & D3).
  eapply (dep_step s0 s yes _ set_dir_dep (fun _ => True)); [done..|]. clear s Hc Hd Hv Hh.
  intros s x Ex _ Hc Hd Hv Hh.
  eapply (dep_step s0 s no _ set_rev_dep (fun x => dir_dep x = spec_dir_dep K a i));
    [done..|by rewrite Ex|by intros ? ? [] <-|done|]. clear s x Ex Hc Hd Hv Hh.
  intros s x Ex Hx Hc Hd Hv Hh.
  wp_step. wp_use calc_dep_wp; [apply Hc|done..|].
  intros t s1 (Hi1 & Hn1 & ->). wp_step.
  pose proof (n_core K rank r s s1 Hn1 i ltac:(lia)) as [Ec Eu Ed Er Ei Ev Edu En].
  split; [split; [|split]|..]; rewrite ?syms_updated_eq; simpl;
    unfold spec_rev_dep, spec_implied; rewrite ?E; try done.
  - apply in_calc_upd; [by eapply in_calc_nest|done..|congruence].
  - rewrite <- Hv. by apply Hn1.
  - by rewrite Er, Ex.
  - intros _. rewrite Ed, Ex. done.
  - eapply choice_done_mono; [|exact Hd]. intros k' Hk'. apply Hn1 in Hk'. simpl.
    case_decide; [by subst|done].
  - congruence.
Qed.

Lemma visibility_wp s0 s :
  in_calc s0 s -> f_def_user (syms s i) = u_has U i ->
  wp (sym_calc_visibility K rec i) (fun _ s' => known s0 s') s.
Proof using All.
  intros Hc Hh. unfold sym_calc_visibility. cbv zeta.
  apply (visible_wp K U rank a rec r a Hrec solution_string);
    [apply Hc|apply own_vis_ready|]. intros s1 Hi1 Hn1 Hv1.
  assert (in_calc s0 s1) as Hc1 by (by eapply in_calc_nest).
  assert (f_def_user (syms s1 i) = u_has U i) as Hh1.
  { rewrite <- Hh. by apply (n_core K rank r s s1 Hn1). }
  set (s2 := updated i (set_visible (spec_visible K a i)) s1).
  assert (in_calc s0 s2) as Hc2 by (by apply in_calc_upd).
  assert (choice_done s2 i) as Hd2.
  { intros c Hcc. destruct (k_choice_value (k_syms K i)) eqn:E.
    - destruct (wf_value K rank i (Hwf i) E) as (k & Hk & _ & _ & (p & Hp & Hin) & _).
      simplify_eq. specialize (Hv1 p (Sym c) Hp Hin). simpl. by case_decide; [subst c|].
    - unfold choice_of in Hcc. by rewrite E in Hcc. }
  assert (visible (syms s2 i) = spec_visible K a i) as Hv2.
  { unfold s2. by rewrite syms_updated_eq. }
  assert (f_def_user (syms s2 i) = u_has U i) as Hh2.
  { unfold s2. by rewrite syms_updated_eq. }
  clearbody s2. clear s1 Hi1 Hn1 Hv1 Hc1 Hh1 s Hc Hh.
  destruct (k_choice_value (k_syms K i)) eqn:E.
  - apply wp_ret. destruct (i_value _ _ _ _ _ _ (c_inv s0 s2 Hc2) i E).
    split; [split; [|split]|..]; unfold spec_rev_dep, spec_implied; rewrite ?E; done.
  - by apply (deps_wp s0 s2).
Qed.

Lemma active_prop_wp ty s :
  Inv r s -> ty = P_DEFAULT \/ ty = P_RANGE ->
  wp (first_visible K rec ty (k_prop (k_syms K i)))
    (fun o s' => Inv r s' /\ nest r s s' /\
       o = (fun p => (p, cond K a (p_visible p))) <$> active_prop K a ty i) s.
Proof using All.
  intros Hi Ht. apply (first_visible_wp K U rank a rec r a Hrec solution_string); [done|].
  intros p Hp E y Hy. apply dep_ready. eapply visible_deps; [done| |done].
  subst ty. naive_solver.
Qed.

Lemma known_user s0 s : known s0 s -> user (syms s i) = u_val U i.
Proof using Type. intros Hk. apply (i_user K U rank a r s), Hk. Qed.

Lemma choice_symbol_run s c :
  choice_of K i = Some c -> choice_symbol K i s = Some (Some c, s).
Proof using Type.
  unfold choice_of, choice_symbol, bind, ret. destruct (k_choice_value _); [|done].
  destruct (sym_get_choice_prop K i); [|done]. simpl. by intros ->.
Qed.

(** [default] and [imply]. *)
Lemma default_wp s0 s :
  known s0 s -> k_choice (k_syms K i) = false ->
  wp (let* p := sym_get_default_prop K rec i in
      let* newval :=
        match p with
        | Some (p, t) =>
            upd i (set_write true) ;;
            let* v := prop_expr_value K rec (p_expr p) in ret (EXPR_AND v t)
        | None => ret no
        end in
      let* x := get i in
      if is_no (implied x) then ret newval
      else upd i (set_write true) ;;
           ret (EXPR_AND (EXPR_OR newval (implied x)) (dir_dep x)))%ksym
    (fun t s' => known s0 s' /\ t = default_value K a i) s.
Proof using All.
  intros Hk Hc. wp_step. wp_use active_prop_wp; [apply Hk|by left|].
  intros o s1 (Hi1 & Hn1 & ->). pose proof (known_nest s0 s s1 Hk Hi1 Hn1) as Hk1.
  clear s Hk Hi1 Hn1. wp_step.
  eapply (wp_mono _ (fun t s' => known s0 s' /\
    t = match active_prop K a P_DEFAULT i with
        | Some p => EXPR_AND (pexpr_value K a (p_expr p)) (cond K a (p_visible p))
        | None => no end)).
  { destruct (active_prop K a P_DEFAULT i) as [p|] eqn:Ep; simpl; [|by apply wp_ret].
    apply active_prop_elem in Ep as [Hp Ht]. pose proof (default_syms K i p Hp Ht Hc) as Hs.
    wp_step. wp_step. wp_step.
    pose proof (known_upd s0 s1 _ (keeps_write true) Hk1) as Hk2.
    destruct (p_expr p) as [|e| |]; simpl; try (wp_steps; by split).
    wp_use (expr_calc_wp K U rank a rec r a Hrec solution_string); [apply Hk2| |].
    { intros y Hy. apply dep_ready. by apply Hs. }
    intros t s2 (Hi2 & Hn2 & -> & _). apply wp_ret. split; [by eapply known_nest|done]. }
  intros t s2 [Hk2 ->]. wp_step. wp_step. rewrite (kn_implied s0 s2 Hk2).
  unfold default_value. destruct (is_no (spec_implied K a i)) eqn:Ei; [by apply wp_ret|].
  assert (k_choice_value (k_syms K i) = false) as Ev.
  { unfold spec_implied in Ei. by destruct (k_choice_value (k_syms K i)). }
  wp_step. wp_step. apply wp_ret. rewrite (f_dir _ _ _ _ (kn_facts s0 s2 Hk2) Ev). split; [|done].
  by apply known_upd.
Qed.

Lemma calc_tristate_wp s0 s :
  known s0 s ->
  wp (calc_tristate K rec i)
    (fun t s' => known s0 s' /\ raise (two_valued K a i) t = spec_tri K U a i) s.
Proof using All.
  intros Hk. unfold calc_tristate. cbv zeta. wp_step. wp_step.
  rewrite (f_vis _ _ _ _ (kn_facts s0 s Hk)), (kn_has s0 s Hk), (known_user s0 s Hk), (f_rev _ _ _ _ (kn_facts s0 s Hk)).
  unfold spec_tri. destruct (_ && is_yes (spec_visible K a i)) eqn:Ecv.
  - apply andb_prop in Ecv as [Ecv _].
    destruct (wf_value K rank i (Hwf i) Ecv) as (c & Hc & Hr & _). rewrite Hc.
    wp_step. eapply wp_run; [by apply choice_symbol_run|]. wp_step. eapply wp_lift; [done|].
    unfold get_curr. wp_steps. split; [done|].
    rewrite (i_val _ _ _ _ _ _ (c_inv _ _ (kn_calc s0 s Hk)) c Hr)
      by (by apply (f_done _ _ _ _ (kn_facts s0 s Hk))).
    unfold tri_of_bool, raise. simpl. case_decide; [rewrite bool_decide_true by done|
      rewrite bool_decide_false by done]; by rewrite andb_false_r.
  - wp_step.
    eapply (wp_mono _ (fun t s' => known s0 s' /\ t =
      if negb (is_no (spec_visible K a i)) && u_has U i
      then EXPR_AND (sv_tri (u_val U i)) (spec_visible K a i)
      else if k_choice (k_syms K i) then no else default_value K a i)).
    { destruct (negb (is_no (spec_visible K a i)) && u_has U i); [by apply wp_ret|]. wp_step.
      apply (wp_mono _ (fun _ s' => known s0 s')).
      { apply wp_when; [intros _; wp_step; by apply known_upd|done]. }
      intros _ s1 Hk1. destruct (k_choice (k_syms K i)) eqn:Ech; [by apply wp_ret|].
      by apply default_wp. }
    intros t s1 [Hk1 ->]. wp_steps. split; [done|]. f_equal. unfold with_select.
    rewrite (f_rev _ _ _ _ (kn_facts s0 s1 Hk1)). destruct (k_choice_value (k_syms K i)) eqn:Ev.
    + unfold spec_rev_dep. rewrite Ev. by rewrite !andb_false_r.
    + by rewrite (f_dir _ _ _ _ (kn_facts s0 s1 Hk1) Ev).
Qed.

Lemma calc_string_wp s0 s :
  known s0 s -> is_booltri (k_type (k_syms K i)) = false ->
  wp (calc_string K rec i) (fun v s' => known s0 s' /\ v = spec_string K U a i) s.
Proof using All.
  intros Hk Hb. unfold calc_string. wp_step. wp_step.
  rewrite (f_vis _ _ _ _ (kn_facts s0 s Hk)), (kn_has s0 s Hk), (known_user s0 s Hk).
  unfold spec_string. destruct (_ && _); [by apply wp_ret|].
  wp_step. wp_use active_prop_wp; [apply Hk|by left|].
  intros o s1 (Hi1 & Hn1 & ->). pose proof (known_nest s0 s s1 Hk Hi1 Hn1) as Hk1.
  destruct (active_prop K a P_DEFAULT i) as [p|] eqn:Ep; simpl; [|by apply wp_ret].
  apply active_prop_elem in Ep as [Hp Ht].
  pose proof (default_syms K i p Hp Ht (booltri_not_choice K rank Hwf i Hb)) as Hs.
  unfold prop_get_symbol. destruct (p_expr p) as [|e| |]; [by apply wp_ret| |by apply wp_ret..].
  destruct e as [ds| | | |]; [|by apply wp_ret..].
  pose proof (known_upd s0 s1 _ (keeps_write true) Hk1) as Hk2.
  wp_step. wp_step. wp_step.
  assert (forall s, ready rank a r a s ds) as Hrd by (intros; apply dep_ready, Hs; left).
  wp_use (rec_ready K U rank a rec r a Hrec); [apply Hk2|done|].
  intros _ s2 (Hi2 & Hn2 & Hv2). wp_step.
  eapply wp_run; [by apply (ready_curr K U rank a r a)|].
  apply wp_ret. split; [by eapply known_nest|done].
Qed.

Lemma calc_newval_wp s0 s :
  known s0 s -> k_type (k_syms K i) <> S_UNKNOWN ->
  wp (calc_newval K rec i)
    (fun v s' => known s0 s' /\
       v = if is_booltri (k_type (k_syms K i))
           then SV (spec_tri K U a i) (sv_val symbol_no_curr)
           else SV no (spec_string K U a i)) s.
Proof using All.
  intros Hk Hu. unfold calc_newval. wp_step. apply type_wp; [by apply (kn_inv s0)|apply (kn_facts s0 s Hk)|].
  intros ty _ Hty.
  destruct (is_booltri (k_type (k_syms K i))) eqn:Eb.
  - assert (wp (let* t := calc_tristate K rec i in
                let* t := promote K i t in ret (SV t (sv_val symbol_no_curr)))%ksym
             (fun v s' => known s0 s' /\ v = SV (spec_tri K U a i) (sv_val symbol_no_curr)) s).
    { wp_step. wp_use calc_tristate_wp; [done|]. intros t s1 [Hk1 Ht]. wp_step.
      apply promote_wp; [by apply (kn_inv s0)|apply (kn_facts s0 s1 Hk1)|]. rewrite Ht. by apply wp_ret. }
    by destruct ty.
  - assert (wp (let* v := calc_string K rec i in ret (SV no v))%ksym
             (fun v s' => known s0 s' /\ v = SV no (spec_string K U a i)) s).
    { wp_step. wp_use calc_string_wp; [done..|]. intros v s1 [Hk1 ->]. by apply wp_ret. }
    subst ty. by destruct (k_type (k_syms K i)).
Qed.
End Sym.
End Body.
