(* ===== verification/KSymChoice.v ===== *)
(** * [sym_calc_value] against the reference semantics: ranges and choices

    The last steps of the calculation of a symbol: a number is moved into its
    range, and a choice that is enabled selects one of its members. *)
From stdpp Require Import sets options.
From S2P Require Import Prelude CLib KExpr KSymbol KSymSpec KSymSpecFacts KSymCalc KSymBody.

Lemma some_union {A} (y : A) (o : option A) : Some y ∪ o = Some y.
Proof. by destruct o. Qed.

Lemma none_union {A} (o : option A) : None ∪ o = o.
Proof. by destruct o. Qed.

Section Choice.
Context (K : kconfig) (U : choices) (rank : nat -> nat).
Context (Hwf : wf_config K rank) (HU : wf_choices K U).
Context (a : env) (Ha : solution K U a).
Context (rec : symbol -> M unit) (i : nat).
Context (Hrec : rec_ok K U rank a rec (rank i)).
#[local] Notation r := (rank i).
#[local] Notation Inv := (KSymCalc.Inv K U rank a r).
#[local] Notation nest := (KSymCalc.nest K rank r).
#[local] Notation choice_done := (KSymCalc.choice_done K).
#[local] Notation in_calc := (KSymBody.in_calc K U rank a i).
#[local] Notation settled := (KSymBody.settled K U rank a i).
#[local] Notation known := (KSymBody.known K U rank a i).

(** ** Ranges *)

Lemma solution_plain k : k_choice (k_syms K k) = false -> exists t, sv_val (a k) = V_STR t.
Proof using All.
  intros Hc. destruct (is_booltri (k_type (k_syms K k))) eqn:Eb.
  - rewrite Ha. unfold spec_value. rewrite Hc. destruct (k_type (k_syms K k)); try done; by eexists.
  - by apply (solution_string K U rank Hwf HU a Ha).
Qed.

Lemma range_val_wp s0 s y base :
  known s0 s -> y ∈ sym_deps K i ->
  (forall c, y = Sym c -> k_choice (k_syms K c) = false) ->
  wp (sym_get_range_val K rec y base)
    (fun v s' => known s0 s' /\ curr (syms s' i) = curr (syms s i) /\
                 v = number_of K a base y) s.
Proof using All.
  intros Hk Hy Hc. unfold sym_get_range_val. cbv zeta. wp_step.
  pose proof (dep_ready K rank Hwf a i) as Hrd.
  wp_use (rec_ready K U rank a rec r a Hrec); [apply Hk|by apply Hrd|].
  intros _ s1 (Hi1 & Hn1 & Hv1). unfold get_str. wp_step. wp_step.
  eapply wp_run; [apply (ready_curr K U rank a r a); [done|by apply Hrd|done]|].
  assert (val_str (sv_val (val_of a y)) = Some (str_of a y)) as Hs.
  { unfold str_of. destruct y as [| | |c]; [done..|]. simpl.
    destruct (solution_plain c (Hc c eq_refl)) as [t ->]. done. }
  eapply wp_lift; [exact Hs|]. apply wp_ret. split_and!.
  - by eapply known_nest.
  - by apply (n_core K rank r s s1 Hn1).
  - done.
Qed.

Lemma range_clamp_wp s0 s p v :
  known s0 s -> active_prop K a P_RANGE i = Some p ->
  curr (syms s i) = SV no (V_STR v) -> spec_string K U a i = V_STR v ->
  k_type (k_syms K i) = S_INT \/ k_type (k_syms K i) = S_HEX ->
  wp (range_clamp K rec i (base_of (k_type (k_syms K i)) 10) p)
    (fun _ s' => known s0 s' /\ curr (syms s' i) = SV no (spec_number K U a i)) s.
Proof using All.
  intros Hk Hp Hc Hv Hty. unfold spec_number. rewrite Hp, Hv.
  apply active_prop_elem in Hp as [Hp Ht].
  destruct (wf_range K rank i (Hwf i) p Hp Ht) as (lo & hi & Hpe & Hnc).
  pose proof (range_syms K i p Hp Ht) as Hs. rewrite Hpe in Hs.
  unfold range_clamp, get_str, get_curr. wp_step. wp_step. wp_step. wp_step. wp_step.
  rewrite Hc. eapply wp_lift; [done|]. rewrite Hpe. cbv zeta. unfold clamp, print_number.
  set (ty := k_type (k_syms K i)) in *.
  assert (Hst : forall n s', known s0 s' -> curr (syms s' i) = curr (syms s i) ->
    wp (upd i (fun x => set_curr (SV (sv_tri (curr x))
               (V_STR (if decide (ty = S_INT) then print_lld n else print_llx n))) x))
      (fun _ s' => known s0 s' /\ curr (syms s' i) =
        SV no (V_STR (if decide (ty = S_INT) then print_lld n else print_llx n))) s').
  { intros n s' Hk' Hc'. wp_step. split; [by apply known_upd|].
    rewrite syms_updated_eq. simpl. by rewrite Hc', Hc. }
  wp_step. wp_use (range_val_wp s0 s lo); [done|apply Hs; set_solver|naive_solver|].
  intros v2 s2 (Hk2 & Hc2 & ->). rewrite Z.geb_leb, Z.leb_antisym.
  destruct (strtoll _ v <? _); simpl; [by apply Hst|].
  wp_step. wp_use (range_val_wp s0 s2 hi); [done|apply Hs; set_solver|naive_solver|].
  intros v3 s3 (Hk3 & Hc3 & ->). rewrite Z.leb_antisym.
  destruct (_ <? strtoll _ v); simpl; [|apply wp_ret; split; [done|congruence]].
  apply Hst; [done|congruence].
Qed.

(** The value after the range, for a symbol that is not a choice. *)
Definition ranged : symbol_value :=
  if is_booltri (k_type (k_syms K i)) then SV (spec_tri K U a i) (sv_val symbol_no_curr)
  else SV no (match k_type (k_syms K i) with
              | S_INT | S_HEX => spec_number K U a i
              | _ => spec_string K U a i
              end).

Lemma validate_range_wp s0 s :
  known s0 s -> curr (syms s i) = SV no (spec_string K U a i) ->
  is_booltri (k_type (k_syms K i)) = false ->
  wp (sym_validate_range K rec i)
    (fun _ s' => known s0 s' /\ curr (syms s' i) = ranged) s.
Proof using All.
  intros Hk Hc Hb.
  assert (k_type (k_syms K i) = S_INT \/ k_type (k_syms K i) = S_HEX ->
    wp (let* p := sym_get_range_prop K rec i in
        match p with None => ret tt
        | Some (p, _) => range_clamp K rec i (base_of (k_type (k_syms K i)) 10) p end)%ksym
      (fun _ s' => known s0 s' /\ curr (syms s' i) = SV no (spec_number K U a i)) s) as H.
  { intros Hty. wp_step.
    wp_use (active_prop_wp K U rank Hwf HU a Ha rec i Hrec); [apply Hk|by right|].
    intros o s1 (Hi1 & Hn1 & ->). assert (known s0 s1) as Hk1 by (by eapply known_nest).
    assert (curr (syms s1 i) = SV no (spec_string K U a i)) as Hc1.
    { rewrite <- Hc. by apply (n_core K rank r s s1 Hn1). }
    assert (exists v, spec_string K U a i = V_STR v) as [v Hv].
    { by apply (spec_string_str K U rank Hwf HU a Ha). }
    destruct (active_prop K a P_RANGE i) as [p|] eqn:Ep; simpl.
    - apply (range_clamp_wp s0 s1 p v); [done|done|by rewrite Hc1, Hv|done|done].
    - apply wp_ret. split; [done|]. unfold spec_number. by rewrite Ep, Hc1. }
  unfold sym_validate_range, ranged. cbv zeta. rewrite Hb.
  destruct (k_type (k_syms K i)) eqn:Ety; try done; try (apply wp_ret; by split);
    apply H; auto.
Qed.
(** ** Choices *)

Section Members.
Context (Hch : k_choice (k_syms K i) = true).
Context (s0 : store) (Hs0 : f_valid (syms s0 i) = false).
#[local] Notation b := (enabled a i).

Lemma choice_wf : wf_choice K rank i.
Proof using Hwf Hch. by apply (wf_choice_sym K rank i (Hwf i)). Qed.

Lemma enabled_ne k : k <> i -> b k = a k.
Proof using Type. intros. unfold enabled. by rewrite decide_False. Qed.

Lemma enabled_string k :
  is_booltri (k_type (k_syms K k)) = false -> exists t, sv_val (b k) = V_STR t.
Proof using All.
  intros Hb. rewrite enabled_ne.
  - by apply (solution_string K U rank Hwf HU a Ha).
  - intros ->. pose proof (wfc_type K rank i choice_wf). congruence.
Qed.

Lemma member_rank j : j ∈ members K i -> (rank i < rank j)%nat.
Proof using Hwf Hch.
  intros Hj. exact (choice_of_below K rank Hwf j _ (wfc_member K rank i choice_wf j Hj)).
Qed.

Lemma member_ne j : j ∈ members K i -> i <> j.
Proof using Hwf Hch. intros Hj%member_rank E. rewrite E in Hj at 1. lia. Qed.

(** A change of [visible] or SYMBOL_WRITE of a member. *)
Lemma in_calc_member s j f :
  in_calc s0 s -> j ∈ members K i -> (forall x, same_core (f x) x) ->
  in_calc s0 (updated j f s).
Proof using Hwf Hch Hs0.
  intros [Hi [Oc Ov Om Omv] Hv] Hj Hf.
  pose proof (member_rank j Hj) as Hr.
  assert (forall k, same_core (syms (updated j f s) k) (syms s k)) as Hs.
  { intros k. simpl. case_decide; [subst; apply Hf|done]. }
  split; [|split|].
  - apply (Inv_core K U rank a r s); [done..| |done]. intros k Hk.
    rewrite syms_updated_ne; [done|]. intros ->. lia.
  - intros k Hk Hkr. etrans; [apply Hs|by apply Oc].
  - intros k Hk Hkr Hd. simpl. case_decide; [subst k|by apply Ov].
    exfalso. specialize (Hd i (wfc_member K rank i choice_wf j Hj)). congruence.
  - intros k Hk. destruct (Hs k) as [_ _ _ _ _ -> _ _]. by apply Om.
  - done.
  - destruct (Hs i) as [_ _ _ _ _ -> _ _]. done.
Qed.

Lemma settled_member s j f :
  settled s0 s -> j ∈ members K i -> (forall x, same_core (f x) x) ->
  settled s0 (updated j f s).
Proof using Hwf Hch Hs0.
  intros [Hc Hf] Hj Hfc. pose proof (member_ne j Hj) as Hne.
  split; [by apply in_calc_member|]. apply (facts_core K a s); [done|..];
    rewrite ?syms_updated_ne by done; [done..|].
  intros k Hk. simpl. case_decide; [|done]. destruct (Hfc (syms s k)) as [_ _ _ _ _ -> _ _]. done.
Qed.

(** The choice is enabled while its members are looked at. *)
Record looking (s : store) : Prop := {
  l_calc : settled s0 s;
  l_curr : curr (syms s i) = b i }.

Lemma looking_nest s s' : looking s -> Inv s' -> nest s s' -> looking s'.
Proof using Type.
  intros [Hc Hb] Hi Hn. split; [by eapply settled_nest|]. rewrite <- Hb.
  by apply (n_core K rank r s s' Hn).
Qed.

Lemma looking_ready s y :
  looking s -> y = Sym i \/ rank_below rank r y -> ready rank a r b s y.
Proof using Type.
  intros [[Hc _] Hb] [->|Hy].
  - right. split; [lia|]. split; [exact (c_valid _ _ _ _ _ _ _ Hc)|done].
  - destruct y as [| | |k]; try done. left. split; [done|]. apply enabled_ne.
    simpl in Hy. intros ->. lia.
Qed.

Lemma member_vis_ready s j : looking s -> j ∈ members K i -> vis_ready K rank a r b s j.
Proof using Hwf Hch.
  intros Hl Hj. pose proof choice_wf as Hw.
  pose proof (wfc_member K rank i Hw j Hj) as Hcj. split.
  - intros p y Hp Hy. apply looking_ready; [done|].
    apply (wfc_member_deps K rank i Hw j y Hj). unfold member_deps. apply elem_of_app. right.
    apply list_elem_of_In, in_concat. eexists. split; [by apply in_map, list_elem_of_In|].
    by apply list_elem_of_In.
  - intros c Hc. assert (c = Sym i) as -> by congruence.
    exists i. split; [done|]. split; [apply looking_ready; [done|by left]|].
    assert (k_choice_value (k_syms K j) = true) as Ev.
    { unfold choice_of in Hc. by destruct (k_choice_value (k_syms K j)). }
    destruct (wf_value K rank j (Hwf j) Ev) as (c & Hc' & _ & _ & _ & Hg).
    assert (c = i) as -> by congruence. done.
  - intros _. by rewrite Hcj.
  - intros E. assert (modules_sym K ∈ member_deps K j) as Hm.
    { unfold member_deps. rewrite E. apply elem_of_app. left. left. }
    destruct (wfc_member_deps K rank i Hw j _ Hj Hm) as [He|Hr].
    + by destruct (wfc_not_modules K rank i Hw).
    + split; [done|]. pose proof (wfc_not_modules K rank i Hw) as Hn.
      destruct (modules_sym K) as [| | |k]; try done. simpl. apply enabled_ne. congruence.
Qed.

Definition shown (s : store) (j : nat) : Prop := visible (syms s j) = spec_visible K b j.

Lemma shown_nest s s' j :
  looking s -> j ∈ members K i -> nest s s' -> shown s j -> shown s' j.
Proof using Hwf Hch.
  intros Hl Hj Hn Hs. unfold shown. rewrite <- Hs.
  apply (n_vis K rank r s s' Hn); [pose proof (member_rank j Hj); lia|].
  intros c Hc. rewrite (wfc_member K rank i choice_wf j Hj) in Hc. simplify_eq.
  exact (c_valid _ _ _ _ _ _ _ (se_calc _ _ _ _ _ _ _ (l_calc s Hl))).
Qed.

Lemma member_visibility_wp s j :
  looking s -> j ∈ members K i ->
  wp (sym_calc_visibility K rec j)
    (fun _ s' => looking s' /\ shown s' j /\
                 forall k, k ∈ members K i -> shown s k -> shown s' k) s.
Proof using All.
  intros Hl Hj. unfold sym_calc_visibility. cbv zeta.
  pose proof (wfc_member K rank i choice_wf j Hj) as Hcj.
  assert (k_choice_value (k_syms K j) = true) as Ev.
  { unfold choice_of in Hcj. by destruct (k_choice_value (k_syms K j)). }
  apply (visible_wp K U rank a rec r b Hrec enabled_string);
    [apply Hl|by apply member_vis_ready|].
  intros s1 Hi1 Hn1 _. rewrite Ev. apply wp_ret.
  assert (looking s1) as Hl1 by (by eapply looking_nest).
  pose proof (member_ne j Hj) as Hne.
  split; [split|split].
  - apply settled_member; [apply Hl1|done|done].
  - rewrite syms_updated_ne by done. apply Hl1.
  - unfold shown. by rewrite syms_updated_eq.
  - intros k Hk Hs. destruct (decide (k = j)) as [->|Hkj].
    + unfold shown. by rewrite syms_updated_eq.
    + unfold shown. rewrite syms_updated_ne by done. by apply (shown_nest s s1 k).
Qed.

Lemma members_visible_wp l flags s :
  looking s -> l ⊆ members K i ->
  wp (members_visible K rec l flags)
    (fun _ s' => looking s' /\
       forall k, k ∈ members K i -> k ∈ l \/ shown s k -> shown s' k) s.
Proof using All.
  revert flags s. induction l as [|j l IH]; intros flags s Hl Hsub; simpl.
  { apply wp_ret. split; [done|]. intros k Hk [Hn|]; [by apply not_elem_of_nil in Hn|done]. }
  wp_step. wp_use member_visibility_wp; [done|apply Hsub; left|].
  intros _ s1 (Hl1 & Hs1 & Hm1). wp_step. wp_step.
  wp_use IH; [done|intros k Hk; apply Hsub; by right|].
  intros _ s2 (Hl2 & Hm2). split; [done|].
  intros k Hk [[->|Hkl]%elem_of_cons|Hs]; apply Hm2; auto.
Qed.
(** All the members have been looked at. *)
Record looked (s : store) : Prop := {
  k_looking : looking s;
  k_shown j : j ∈ members K i -> shown s j }.

Lemma looked_nest s s' : looked s -> Inv s' -> nest s s' -> looked s'.
Proof using Hwf Hch.
  intros [Hl Hs] Hi Hn. split; [by eapply looking_nest|].
  intros j Hj. eapply shown_nest; eauto.
Qed.

Lemma member_shown_wp s j :
  looked s -> j ∈ members K i ->
  get_visible (Sym j) s = Some (spec_visible K b j, s).
Proof using Type. intros [_ Hs] Hj. unfold get_visible, bind, get, ret. by rewrite Hs. Qed.

Lemma choice_defaults_wp l s :
  looked s -> (forall p, p ∈ l -> p ∈ k_prop (k_syms K i)) ->
  wp (choice_defaults K rec l)
    (fun o s' => looked s' /\ o = head (omap (default_target K a i) l)) s.
Proof using All.
  revert s. induction l as [|p l IH]; intros s Hl Hsub; simpl; [by apply wp_ret|].
  assert (forall p, p ∈ l -> p ∈ k_prop (k_syms K i)) as Hsub' by (intros; apply Hsub; by right).
  unfold default_target at 1. case_decide as Ep.
  - rewrite bool_decide_true by done. simpl. wp_step.
    wp_use (calc_value_wp K U rank a rec r a Hrec (solution_string K U rank Hwf HU a Ha)).
    { apply Hl. }
    { intros y Hy. apply (dep_ready K rank Hwf a i).
      eapply visible_deps; [apply Hsub; left|by right; left|done]. }
    intros t s1 (Hi1 & Hn1 & -> & _). assert (looked s1) as Hl1 by (by eapply looked_nest).
    destruct (is_no (cond K a (p_visible p))); simpl; [by apply IH|].
    destruct (wfc_default K rank i choice_wf p ltac:(apply Hsub; left) Ep) as (j & Hj & Hm).
    rewrite Hj. wp_step. eapply wp_lift; [done|]. wp_step.
    eapply wp_run; [by apply member_shown_wp|]. simpl. unfold member_visible.
    destruct (is_no (spec_visible K b j)); simpl; [by apply IH|by apply wp_ret].
  - rewrite bool_decide_false by done. by apply IH.
Qed.

Lemma first_member_wp l s :
  looked s -> l ⊆ members K i ->
  first_visible_member l s = Some (Sym <$> List.find (member_visible K a i) l, s).
Proof using Type.
  intros Hl. induction l as [|j l IH]; intros Hsub; [done|]. cbn [first_visible_member List.find].
  unfold bind. rewrite member_shown_wp by (done || (apply Hsub; left)).
  unfold member_visible at 1. destruct (is_no (spec_visible K b j)); simpl; [|done].
  apply IH. intros k Hk. apply Hsub. by right.
Qed.

Lemma choice_default_wp s :
  looked s ->
  wp (sym_choice_default K rec i)
    (fun o s' => looked s' /\
       o = head (omap (default_target K a i) (k_prop (k_syms K i))) ∪
           (Sym <$> List.find (member_visible K a i) (members K i))) s.
Proof using All.
  intros Hl. unfold sym_choice_default. wp_step. wp_use choice_defaults_wp; [done..|].
  intros o s1 [Hl1 ->]. destruct (head _) as [y|]; [apply wp_ret; by rewrite some_union|].
  wp_step. eapply wp_lift; [apply (wfc_members K rank i choice_wf)|].
  eapply wp_run; [by apply first_member_wp|]. split; [done|]. by rewrite none_union.
Qed.

Lemma calc_choice_wp s :
  looking s ->
  wp (sym_calc_choice K rec i)
    (fun o s' => settled s0 s' /\ o = selected K U a i /\
       sv_tri (curr (syms s' i)) = match o with Some _ => yes | None => no end) s.
Proof using All.
  intros Hl. unfold sym_calc_choice. wp_step. wp_step. wp_step.
  eapply wp_lift; [apply (wfc_members K rank i choice_wf)|].
  wp_step. wp_use members_visible_wp; [done..|]. intros fl s1 [Hl1 Hs1].
  assert (looked s1) as Hk1 by (split; auto). wp_step. wp_step. wp_step. wp_step.
  set (s2 := updated i _ s1).
  assert (looked s2) as Hk2.
  { split; [split|].
    - apply settled_upd; [apply Hl1|done..].
    - unfold s2. rewrite syms_updated_eq. apply Hl1.
    - intros j Hj. unfold shown, s2. rewrite syms_updated_ne by (by apply not_eq_sym, member_ne).
      by apply Hk1. }
  clearbody s2. clear s1 Hl1 Hs1 Hk1.
  rewrite (i_user _ _ _ _ _ _ (c_inv _ _ _ _ _ _ _ (se_calc _ _ _ _ _ _ _ (l_calc s2 (k_looking s2 Hk2))))).
  unfold selected. wp_step.
  eapply (wp_mono _ (fun o s' => s' = s2 /\ o = match sv_val (u_val U i) with
    | V_SYM y => if visible_target K a i y then Some y else None | _ => None end)).
  { destruct (proj2 (HU i) Hch) as [->|(j & -> & Hj)]; [by apply wp_ret|].
    wp_step. eapply wp_run; [by apply member_shown_wp|]. apply wp_ret. split; [done|].
    simpl. unfold member_visible. by destruct (is_no (spec_visible K b j)). }
  intros o s2' [-> ->]. destruct (match sv_val (u_val U i) with V_SYM _ => _ | _ => _ end) as [y|].
  { apply wp_ret. rewrite some_union. split_and!; [apply Hk2|done|]. rewrite (l_curr s2 (k_looking s2 Hk2)).
    unfold enabled. by rewrite decide_True. }
  rewrite none_union. wp_step. wp_use choice_default_wp; [done|].
  intros o s3 [Hk3 ->]. wp_step. apply wp_when.
  - intros E%bool_decide_eq_true. wp_step. apply wp_ret. rewrite E. split_and!; [|done|].
    + apply settled_upd; [apply Hk3|done..].
    + by rewrite syms_updated_eq.
  - intros E%bool_decide_eq_false. apply wp_ret. split_and!; [apply Hk3|done|].
    rewrite (l_curr s3 (k_looking s3 Hk3)). unfold enabled. rewrite decide_True by done.
    by destruct (_ ∪ _).
Qed.

Lemma choice_write_wp s v :
  settled s0 s -> curr (syms s i) = v ->
  wp (choice_write K i) (fun _ s' => settled s0 s' /\ curr (syms s' i) = v) s.
Proof using Hwf Hch Hs0.
  intros Hc Hv. unfold choice_write. wp_step.
  eapply wp_lift; [apply (wfc_members K rank i choice_wf)|].
  apply (wp_for_each _ _ (fun s => settled s0 s /\ curr (syms s i) = v)); [done|].
  intros j s1 Hj [Hc1 Hv1]. unfold get_visible. wp_step. wp_step. wp_step. wp_step. wp_step.
  apply wp_ret. apply wp_when; [intros _|done]. wp_step. split.
  - by apply settled_member.
  - by rewrite syms_updated_ne by (by apply member_ne).
Qed.
End Members.
End Choice.
