(* ===== verification/KSymRun.v ===== *)
(** * [sym_calc_value] against the reference semantics: the whole calculation *)
From stdpp Require Import sets options.
From S2P Require Import Prelude CLib KExpr KSymbol KSymSpec KSymSpecFacts KSymCalc KSymBody KSymChoice.

(** A calculated symbol is not calculated again. *)
Lemma calc_valid_run K fuel i s :
  f_valid (syms s i) = true -> (0 < fuel)%nat -> sym_calc_value K fuel (Sym i) s = Some (tt, s).
Proof.
  intros Hv Hf. destruct fuel as [|f]; [lia|]. simpl.
  unfold sym_calc_value_body, bind, get, ret. by rewrite Hv.
Qed.

Section Run.
Context (K : kconfig) (U : choices) (rank : nat -> nat).
Context (Hwf : wf_config K rank) (HU : wf_choices K U).
Context (a : env) (Ha : solution K U a).
#[local] Notation Inv := (KSymCalc.Inv K U rank a).
#[local] Notation nest := (KSymCalc.nest K rank).
#[local] Notation choice_done := (KSymCalc.choice_done K).

Section Sym.
Context (rec : symbol -> M unit) (i : nat).
Context (Hrec : rec_ok K U rank a rec (rank i)).
#[local] Notation r := (rank i).
#[local] Notation in_calc := (KSymBody.in_calc K U rank a i).
#[local] Notation settled := (KSymBody.settled K U rank a i).
#[local] Notation known := (KSymBody.known K U rank a i).

(** The calculation of [i] that began in [s0] ended in [s]. *)
Record finished (s0 s : store) : Prop := {
  fi_inv : Inv r s;
  fi_core k : k <> i -> (r <= rank k)%nat -> same_core (syms s k) (syms s0 k);
  fi_vis k : k <> i -> (r <= rank k)%nat -> choice_done s0 k ->
             visible (syms s k) = visible (syms s0 k);
  fi_mono k : f_valid (syms s0 k) = true -> f_valid (syms s k) = true;
  fi_valid : f_valid (syms s i) = true;
  fi_curr : curr (syms s i) = a i;
  fi_facts : k_type (k_syms K i) <> S_UNKNOWN -> facts K a s i;
  fi_mval : modules_sym K <> Sym i -> modules_val s = modules_val s0;
  fi_mods : modules_sym K = Sym i -> modules_val s = sv_tri (a i) }.

Lemma finished_in_calc s0 s :
  in_calc s0 s -> (k_type (k_syms K i) <> S_UNKNOWN -> facts K a s i) ->
  curr (syms s i) = a i -> modules_sym K <> Sym i -> finished s0 s.
Proof using Type. intros [Hi [] Hv] Hf Hc Hm. by split. Qed.

Lemma finished_settled s0 s :
  settled s0 s -> curr (syms s i) = a i -> modules_sym K <> Sym i -> finished s0 s.
Proof using Type. intros [Hc Hf]. by apply finished_in_calc. Qed.

Lemma finished_write s0 s w : finished s0 s -> finished s0 (updated i (set_write w) s).
Proof using Type.
  intros [Hi Fc Fv Fm Hv Hc Hf Hmv Hmd].
  assert (forall k, same_core (syms (updated i (set_write w) s) k) (syms s k)) as Hs.
  { intros k. simpl. by case_decide; [subst|]. }
  split; try done.
  - apply (Inv_core K U rank a r s); [done..| |done].
    intros k Hk. simpl. by case_decide; [subst|].
  - intros k Hk Hr. etrans; [apply Hs|by apply Fc].
  - intros k Hk Hr Hd. rewrite syms_updated_ne by done. by apply Fv.
  - intros k Hk. destruct (Hs k) as [_ _ _ _ _ -> _ _]. by apply Fm.
  - by destruct (Hs i) as [_ _ _ _ _ -> _ _].
  - by destruct (Hs i) as [-> _ _ _ _ _ _ _].
  - intros Ht. apply (facts_core K a s); [by apply Hf|done|by rewrite syms_updated_eq|].
    intros k. by destruct (Hs k) as [_ _ _ _ _ -> _ _].
Qed.

Lemma finished_modules s0 s :
  modules_sym K = Sym i -> settled s0 s -> curr (syms s i) = a i ->
  finished s0 (Store (syms s) (sv_tri (a i)) (conf_changed s)).
Proof using Type.
  intros Em [[[I1 I1' I2 I3 I4 I5 I6] [Oc Ov Om Omv] Hv] [F1 F2 F3 F4]] Hc. split; try done.
  split; try done; [intros k Hk Hkv Ht; by destruct (I1' k Hk Hkv Ht)|]. unfold modules_ready in *. rewrite Em in *. simpl. split; [lia|congruence].
Qed.

(** From the comparison with the old value to the end of [sym_calc_value]. *)
Lemma tail_wp s0 s :
  f_valid (syms s0 i) = false ->
  (modules_sym K = Sym i -> modules_val s0 = sv_tri (curr (syms s0 i))) ->
  settled s0 s -> curr (syms s i) = a i ->
  wp (let* x := get i in
      when (bool_decide (curr x <> curr (syms s0 i)) && bool_decide (modules_sym K = Sym i))
        (set_modules_val (sv_tri (curr x))) ;;
      when (k_choice (k_syms K i)) (choice_write K i) ;;
      when (k_no_write (k_syms K i)) (upd i (set_write false)) ;;
      let* x := get i in
      when (f_need_set x) (set_all_choice_values K i))%ksym
    (fun _ s' => finished s0 s') s.
Proof using Hwf.
  intros Hv0 Hm0 Hc Hcu. wp_step. wp_step. rewrite Hcu. wp_step.
  assert (Hend : forall s', finished s0 s' ->
    wp (when (k_no_write (k_syms K i)) (upd i (set_write false)) ;;
        let* x := get i in when (f_need_set x) (set_all_choice_values K i))%ksym
      (fun _ s' => finished s0 s') s').
  { intros s' Hf. wp_step. apply (wp_mono _ (fun _ s' => finished s0 s')).
    - apply wp_when; [intros _|done]. wp_step. by apply finished_write.
    - intros _ s2 Hf2. wp_step. wp_step.
      rewrite (i_need _ _ _ _ _ _ (fi_inv s0 s2 Hf2)). by apply wp_ret. }
  destruct (decide (modules_sym K = Sym i)) as [Em|Em].
  - assert (k_choice (k_syms K i) = false) as Hch.
    { destruct (k_choice (k_syms K i)) eqn:E; [|done].
      by destruct (wfc_not_modules K rank i (wf_choice_sym K rank i (Hwf i) E)). }
    rewrite Hch, (bool_decide_true (modules_sym K = Sym i)), andb_true_r by done.
    apply (wp_mono _ (fun _ s' => finished s0 s')); [|intros _ s1 Hf; wp_step;
      by apply wp_ret, Hend].
    apply wp_when.
    + intros _. eapply wp_run; [done|]. by apply finished_modules.
    + intros E%bool_decide_eq_false%dec_stable. destruct Hc as [[Hi [Oc Ov Om Omv] Hv] Hf].
      split; try done. intros _. by rewrite Omv, Hm0, E.
  - rewrite (bool_decide_false (modules_sym K = Sym i)), andb_false_r by done.
    apply wp_ret. wp_step. apply (wp_mono _ (fun _ s' => finished s0 s')); [|intros _ s1; apply Hend].
    apply wp_when; [intros E|intros _; by apply finished_settled].
    wp_use (choice_write_wp K U rank Hwf a i E s0 Hv0 s (a i)); [done..|].
    intros _ s1 [Hc1 Hcu1]. by apply finished_settled.
Qed.
Lemma in_calc_start s0 :
  Inv r s0 -> in_calc s0 (updated i (set_valid true) s0).
Proof using Type.
  intros [I1 I1' I2 I3 I4 I5 I6].
  assert (forall k, f_valid (syms s0 k) = true ->
            f_valid (syms (updated i (set_valid true) s0) k) = true) as Hm.
  { intros k Hk. simpl. by case_decide. }
  split; [split|split|]; try done; try (intros k; simpl; case_decide; [subst k|by auto]);
    simpl; try lia; try by auto.
  - intros k Hk Hkv Ht. assert (k <> i) as Hne by (intros ->; lia).
    rewrite decide_False in Hkv by done.
    apply (facts_core K a s0); [by apply I1'|by rewrite syms_updated_ne..|done].
  - unfold modules_ready in *. destruct (modules_sym K) as [| | |k]; try done. simpl.
    case_decide; [subst k; simpl; split; [lia|done]|done].
  - by rewrite decide_True.
Qed.

(** The step from the new value to the range check. *)
Lemma choose_wp s0 s :
  f_valid (syms s0 i) = false -> known s0 s -> k_type (k_syms K i) <> S_UNKNOWN ->
  let newval := if is_booltri (k_type (k_syms K i))
                then SV (spec_tri K U a i) (sv_val symbol_no_curr)
                else SV no (spec_string K U a i) in
  curr (syms s i) = newval ->
  wp (when (k_choice (k_syms K i) && is_yes (sv_tri newval))
        (let* d := sym_calc_choice K rec i in
         upd i (fun x => set_curr (SV (sv_tri (curr x)) (opt_val d)) x)) ;;
      sym_validate_range K rec i)%ksym
    (fun _ s' => settled s0 s' /\ curr (syms s' i) = a i) s.
Proof using All.
  intros Hv0 Hk Hu newval Hc. rewrite (Ha i). unfold spec_value. wp_step.
  destruct (is_booltri (k_type (k_syms K i))) eqn:Eb.
  - assert (forall Q s, Q tt s -> wp (sym_validate_range K rec i) Q s) as Hr.
    { intros Q s' HQ. unfold sym_validate_range. cbv zeta.
      destruct (k_type (k_syms K i)); try done; by apply wp_ret. }
    apply wp_when.
    + intros [Hch Hy]%andb_prop. apply bool_decide_eq_true in Hy. wp_step. simpl in Hy.
      wp_use (calc_choice_wp K U rank Hwf HU a Ha rec i Hrec Hch s0 Hv0).
      { split; [apply Hk|]. rewrite Hc. unfold newval. rewrite Hy. unfold enabled.
        by rewrite decide_True. }
      intros d s1 (Hc1 & -> & Ht). wp_step. apply Hr. split; [by apply settled_upd|].
      rewrite syms_updated_eq. simpl. rewrite Ht, Hch, Hy. unfold spec_choice. simpl.
      destruct (k_type (k_syms K i)); try done; by destruct (selected K U a i).
    + intros E. apply Hr. split; [apply Hk|]. rewrite Hc. unfold newval in *. simpl in E.
      rewrite E. destruct (k_type (k_syms K i)); done.
  - rewrite (booltri_not_choice K rank Hwf i Eb). simpl. apply wp_ret.
    wp_use (validate_range_wp K U rank Hwf HU a Ha rec i Hrec); [done..|].
    intros _ s1 [Hk1 Hc1]. split; [apply Hk1|]. rewrite Hc1. unfold ranged. rewrite Eb.
    destruct (k_type (k_syms K i)); done.
Qed.

Lemma calc_typed_wp s0 v :
  Inv r s0 -> f_valid (syms s0 i) = false -> k_type (k_syms K i) <> S_UNKNOWN ->
  wp (calc_typed K rec i v) (fun _ s' => finished s0 s') (updated i (set_valid true) s0).
Proof using All.
  intros Hi Hv0 Hu. pose proof (in_calc_start s0 Hi) as Hc. unfold calc_typed. cbv zeta.
  wp_step. wp_step. rewrite syms_updated_eq. cbn [curr set_valid]. wp_step. wp_step. wp_step.
  wp_use (visibility_wp K U rank Hwf HU a Ha rec i Hrec s0).
  { by apply in_calc_upd. }
  { rewrite !syms_updated_eq. simpl. by apply (i_has K U rank a r s0 Hi). }
  intros _ s1 Hk1. wp_step. wp_step. wp_step.
  apply (wp_mono _ (fun _ s' => known s0 s')).
  { apply wp_when; [intros _; wp_step; by apply known_upd|done]. }
  intros _ s2 Hk2. wp_step. wp_step. wp_step.
  wp_use (calc_newval_wp K U rank Hwf HU a Ha rec i Hrec s0); [by apply known_upd|done|].
  intros nv s3 [Hk3 ->]. wp_step. wp_step.
  apply wp_seq.
  wp_use (choose_wp s0); [done|by apply known_upd|done|by rewrite syms_updated_eq|].
  intros _ s4 [Hc4 Hcu4]. apply tail_wp; [done| |done|done].
  intros Em. pose proof (i_mods K U rank a r s0 Hi) as Hm. unfold modules_ready in Hm.
  rewrite Em in Hm. by apply Hm.
Qed.

Lemma body_wp s0 :
  Inv r s0 -> f_valid (syms s0 i) = false ->
  wp (sym_calc_value_body K rec i) (fun _ s' => finished s0 s') s0.
Proof using All.
  intros Hi Hv0. unfold sym_calc_value_body. cbv zeta. wp_step. wp_step. rewrite Hv0.
  rewrite (i_need K U rank a r s0 Hi), andb_false_r. wp_step. apply wp_ret. wp_step. wp_step.
  destruct (k_type (k_syms K i)) eqn:E; try (apply calc_typed_wp; [done|done|congruence]).
  wp_step. apply finished_in_calc.
  - apply in_calc_upd; [by apply in_calc_start|done..].
  - done.
  - rewrite syms_updated_eq, (Ha i). unfold spec_value. by rewrite E.
  - intros Em. pose proof (wf_modules K rank i (Hwf i) Em) as H. by rewrite E in H.
Qed.
End Sym.

(** ** Fuel *)

Lemma finished_Inv i s0 s R :
  (rank i < R)%nat -> Inv R s0 -> f_valid (syms s0 i) = false ->
  finished i s0 s -> Inv R s /\ nest R s0 s.
Proof using Type.
  intros HR [I1 I1' I2 I3 I4 I5 I6] Hv0 [Hi Fc Fv Fm Hv Hc Hf Hmv Hmd].
  assert (modules_sym K <> Sym i) as Hne.
  { intros Em. unfold modules_ready in I6. rewrite Em in I6.
    destruct (proj1 I6 HR) as [Hx _]. congruence. }
  split; [split; try apply Hi|split].
  - intros k Hk Hkv. destruct (decide (k = i)) as [->|Hki]; [done|].
    destruct (Nat.lt_ge_cases (rank k) (rank i)) as [H|H].
    + by apply (i_val K U rank a (rank i) s Hi).
    + destruct (Fc k Hki H) as [-> _ _ _ _ Ev _ _]. apply I1; [done|congruence].
  - intros k Hk Hkv Ht. destruct (decide (k = i)) as [->|Hki]; [by apply Hf|].
    destruct (Nat.lt_ge_cases (rank k) (rank i)) as [H|H].
    + by apply (i_facts K U rank a (rank i) s Hi).
    + pose proof (Fc k Hki H) as Hs.
      assert (facts K a s0 k) as Hfk by (apply I1'; [done| |done]; by rewrite <- (sc_valid _ _ Hs)).
      apply (facts_core K a s0); [done|done|apply Fv; [done..|apply Hfk]|done].
  - unfold modules_ready in *. destruct (modules_sym K) as [| | |k] eqn:Em;
      try (rewrite Hmv by done; done).
    assert (k <> i) as Hki by congruence. split.
    + intros Hk. destruct (proj1 I6 Hk) as [Hx Hy]. split; [by apply Fm|].
      by rewrite Hmv.
    + intros Hkv. pose proof (i_mods K U rank a (rank i) s Hi) as Hm. unfold modules_ready in Hm.
      rewrite Em in Hm. by apply Hm.
  - intros k Hk. apply Fc; [intros ->; lia|lia].
  - intros k Hk. apply Fv; [intros ->; lia|lia].
  - done.
  - by apply Hmv.
Qed.

Lemma calc_rec_ok fuel R : (R < fuel)%nat -> rec_ok K U rank a (sym_calc_value K fuel) R.
Proof using All.
  revert R. induction fuel as [|f IH]; intros R HR; [lia|]. split.
  - intros k s Hi Hk. simpl. destruct (f_valid (syms s k)) eqn:Ev.
    + eapply wp_run; [apply (calc_valid_run K (S f)); [done|lia]|done].
    + assert (Inv (rank k) s) as Hi'.
      { destruct Hi as [I1 I1' I2 I3 I4 I5 I6]. split; try done.
        - intros. apply I1; [lia|done].
        - intros. apply I1'; [lia|done|done].
        - unfold modules_ready in *. destruct (modules_sym K); try done.
          split; [intros; apply I6; lia|apply I6]. }
      wp_use (body_wp (sym_calc_value K f) k); [apply IH; lia|done|done|].
      intros _ s' Hf. destruct (finished_Inv k s s' R) as [H1 H2]; [done..|].
      split_and!; [done|done|exact (fi_valid k s s' Hf)].
  - intros k s Ev. apply calc_valid_run; [done|lia].
  - intros y s Hy. destruct y as [| | |k]; try done. by destruct (Hy k).
Qed.
(** ** Whole runs *)

(** [sym_clear_all_valid]: the state in which every value has to be calculated
    again, with [modules_val] as the last calculation left it. *)
Record cleared (s : store) : Prop := {
  cl_valid k : f_valid (syms s k) = false;
  cl_user k : user (syms s k) = u_val U k;
  cl_has k : f_def_user (syms s k) = u_has U k;
  cl_need k : f_need_set (syms s k) = false;
  cl_value k : k_choice_value (k_syms K k) = true ->
    rev_dep (syms s k) = no /\ implied (syms s k) = no;
  cl_modules : modules_val s = sv_tri (val_of (fun k => curr (syms s k)) (modules_sym K)) }.

Lemma cleared_Inv s R :
  cleared s -> (forall k, modules_sym K = Sym k -> (R <= rank k)%nat) -> Inv R s.
Proof using Type.
  intros [C1 C2 C3 C4 C5 C6] Hm. split; try done.
  - intros k _ Hv. by rewrite C1 in Hv.
  - intros k _ Hv. by rewrite C1 in Hv.
  - unfold modules_ready. destruct (modules_sym K) as [| | |k] eqn:E; simpl in C6; try done.
    split; [|done]. specialize (Hm k eq_refl). lia.
Qed.

(** After [modules_sym] the invariant holds for every rank. *)
Lemma modules_first fuel s R :
  cleared s -> (R < fuel)%nat -> (forall k, modules_sym K = Sym k -> (rank k < R)%nat) ->
  wp (sym_calc_value K fuel (modules_sym K)) (fun _ s' => Inv R s') s.
Proof using All.
  intros Hcl Hf HR. destruct (modules_sym K) as [| | |k] eqn:Em;
    try (by destruct fuel; (eapply wp_run; [done|]); apply cleared_Inv; [done|congruence..]).
  destruct fuel as [|f]; [lia|]. specialize (HR k eq_refl). simpl.
  wp_use (body_wp (sym_calc_value K f) k).
  { apply calc_rec_ok. lia. }
  { apply cleared_Inv; [done|]. intros. assert (k0 = k) as -> by congruence. done. }
  { apply Hcl. }
  intros _ s' [Hi Fc Fv Fm Hv Hc Hfk Hmv Hmd].
  destruct Hi as [I1 I1' I2 I3 I4 I5 I6].
  assert (forall j, j <> k -> f_valid (syms s' j) = true -> (rank j < rank k)%nat) as Hlt.
  { intros j Hjk Hjv. destruct (Nat.lt_ge_cases (rank j) (rank k)) as [H|H]; [done|].
    destruct (Fc j Hjk H) as [_ _ _ _ _ Ev _ _]. rewrite Ev in Hjv.
    by rewrite (cl_valid s Hcl) in Hjv. }
  split; try done.
  - intros j Hj Hjv. destruct (decide (j = k)) as [->|Hjk]; [done|].
    apply I1; [by apply Hlt|done].
  - intros j Hj Hjv. destruct (decide (j = k)) as [->|Hjk]; [done|].
    apply I1'; [by apply Hlt|done].
  - unfold modules_ready. rewrite Em. split; [|congruence]. intros _.
    split; [done|]. by apply Hmd.
Qed.

Fixpoint calc_all (fuel : nat) (l : list symbol) : M unit :=
  match l with
  | [] => ret tt
  | y :: l' => (sym_calc_value K fuel y ;; calc_all fuel l')%ksym
  end.

Lemma calc_all_wp fuel R l s :
  (R < fuel)%nat -> (forall k, Sym k ∈ l -> (rank k < R)%nat) -> Inv R s ->
  wp (calc_all fuel l)
    (fun _ s' => Inv R s' /\ nest R s s' /\ forall k, Sym k ∈ l -> f_valid (syms s' k) = true) s.
Proof using All.
  intros Hf. pose proof (calc_rec_ok fuel R Hf) as Hr. revert s.
  induction l as [|y l IH]; intros s Hl Hi; simpl.
  { apply wp_ret. split_and!; [done|reflexivity|]. intros k Hk. by apply not_elem_of_nil in Hk. }
  wp_step. wp_use (rec_ready K U rank a (sym_calc_value K fuel) R a Hr); [done| |].
  { destruct y as [| | |k]; try done. left. split; [|done]. apply Hl. left. }
  intros _ s1 (Hi1 & Hn1 & Hv1). wp_use IH; [intros k Hk; apply Hl; by right|done|].
  intros _ s2 (Hi2 & Hn2 & Hv2). split_and!; [done|by etrans|].
  intros k [<-|Hk]%elem_of_cons; [|by apply Hv2]. by apply Hn2.
Qed.
End Run.
