(* ===== verification/KSymProps.v ===== *)
(** * Theorems about Kconfig symbols

    Evaluation against the reference semantics, choices, the effect of setting a
    value, and the types of values. *)

From stdpp Require Import sets options.
From S2P Require Import Prelude CLib KExpr KSymbol KSymOps KSymSpec KSymSpecFacts KSymCalc KSymBody KSymChoice KSymRun.

(** ** A small configuration *)

Module Demo.

#[local] Open Scope nat_scope.

Definition plain (n : cstr) (ty : symbol_type) (l : list property) : symdesc :=
  SymDesc n ty false false false l None None None.
Definition prompt (e : option expr) : property := Property P_PROMPT true e PE_none.
Definition the (i : nat) : expr := E_SYMBOL (Sym i).

Definition syms (i : nat) : symdesc :=
  match i with
  | 0 => plain (str "MODULES") S_BOOLEAN [Property P_DEFAULT false None (PE_expr (E_SYMBOL symbol_yes))]
  | 1 => plain (str "A") S_TRISTATE [prompt None]
  | 2 => plain (str "B") S_TRISTATE
           [prompt (Some (the 1)); Property P_SELECT false None (PE_expr (the 3))]
  | 3 => SymDesc (str "C") S_BOOLEAN false false false [] (Some (the 1)) (Some (the 2)) None
  | 4 => SymDesc [] S_BOOLEAN true false false
           [prompt None; Property P_DEFAULT false None (PE_expr (the 6));
            Property P_CHOICE false None (PE_list [5; 6])]%nat
           None (Some (E_SYMBOL symbol_mod)) None
  | 5 => SymDesc (str "X") S_BOOLEAN false true false
           [prompt (Some (the 4)); Property P_CHOICE false None (PE_expr (the 4))] None None None
  | 6 => SymDesc (str "Y") S_BOOLEAN false true false
           [prompt (Some (the 4)); Property P_CHOICE false None (PE_expr (the 4))] None None None
  | 7 => plain (str "N") S_INT
           [prompt None; Property P_DEFAULT false None (PE_expr (the 8));
            Property P_RANGE false None (PE_range (Sym 9) (Sym 10))]
  | 8 => plain (str "42") S_UNKNOWN []
  | 9 => plain (str "50") S_UNKNOWN []
  | 10 => plain (str "60") S_UNKNOWN []
  | _ => plain [] S_UNKNOWN []
  end.

Definition config : kconfig := KConfig syms (Sym 0).

Definition rank (i : nat) : nat :=
  match i with 1 => 1 | 2 => 2 | 3 => 3 | 4 => 1 | 5 | 6 => 2 | 7 => 1 | _ => 0 end.

Definition blank : symstate :=
  SymState (SV no V_NULL) (SV no V_NULL) no no no no false false false false.
Definition start : store := Store (fun _ => blank) no false.
Definition user_yes : symstate :=
  SymState (SV no V_NULL) (SV yes V_NULL) no no no no false false true false.

(** The user has set [A] and [B] to [yes]. *)
Definition filled : store :=
  Store (fun i => match i with 1 | 2 => user_yes | _ => blank end) no false.

Ltac cases_in H :=
  repeat (apply elem_of_cons in H as [H|H]); try (by apply not_elem_of_nil in H).

Lemma wf : wf_config config rank.
Proof.
  intros i. destruct i as [|[|[|[|[|[|[|[|[|[|[|i]]]]]]]]]]]; split; try done.
  all: try (intros y Hy; vm_compute in Hy; cases_in Hy; subst; simpl; lia).
  all: try (intros _; exists 4%nat; split_and!; [done|simpl; lia|done| |];
            [eexists; split; [left|vm_compute; left]
            |intros p Hp; vm_compute in Hp; cases_in Hp; subst; right; vm_compute; left]).
  all: try (intros p Hp Ht; simpl in Hp; cases_in Hp; subst p; vm_compute in Ht; try discriminate Ht;
            (exists (Sym 9), (Sym 10); split; [done|]; intros c [E|E]; by simplify_eq)).
  all: try (intros p c _ Hp Ht Hs; simpl in Hp; cases_in Hp; subst p; vm_compute in Ht; try discriminate Ht; injection Hs as <-; reflexivity).
  intros _. split; try done.
  - intros j Hj. vm_compute in Hj. cases_in Hj; by subst.
  - intros j y Hj Hy. vm_compute in Hj. cases_in Hj; subst; vm_compute in Hy; cases_in Hy; by left.
  - intros p Hp Ht. simpl in Hp. cases_in Hp; subst p; vm_compute in Ht; try discriminate Ht. exists 6.
    split; [done|]. vm_compute. right. left.
Qed.

Lemma wf_filled : wf_choices config
  (Choices (fun k => f_def_user (KSymbol.syms filled k)) (fun k => user (KSymbol.syms filled k))).
Proof.
  intros i. destruct i as [|[|[|[|[|[|[|[|i]]]]]]]]; split; try done; intros _; by left.
Qed.
End Demo.

(** ** Stores *)

#[local] Open Scope ksym_scope.

(** The user's choices recorded in a store. *)
Definition choices_of (s : store) : choices :=
  Choices (fun k => f_def_user (syms s k)) (fun k => user (syms s k)).

(** No calculation is under way and no choice waits for its values. *)
Record quiet (K : kconfig) (s : store) : Prop := {
  q_need k : f_need_set (syms s k) = false;
  q_value k : k_choice_value (k_syms K k) = true ->
    rev_dep (syms s k) = no /\ implied (syms s k) = no;
  q_modules : modules_val s = sv_tri (val_of (fun k => curr (syms s k)) (modules_sym K)) }.

(** Forget all values, calculate those of [l] in that order. *)
Definition recalculate (K : kconfig) (fuel : nat) (l : list symbol) : M unit :=
  sym_clear_all_valid K (sym_calc_value K fuel) ;; calc_all K fuel l.

Section Recalculate.
Context (K : kconfig) (rank : nat -> nat) (Hwf : wf_config K rank).
Context (R fuel : nat) (Hfuel : (R < fuel)%nat).
Context (HR : forall k, modules_sym K = Sym k -> (rank k < R)%nat).

Lemma clear_wp s a :
  quiet K s -> wf_choices K (choices_of s) -> solution K (choices_of s) a ->
  wp (sym_clear_all_valid K (sym_calc_value K fuel))
    (fun _ s' => Inv K (choices_of s) rank a R s') s.
Proof using All.
  intros [Q1 Q2 Q3] HU Ha. unfold sym_clear_all_valid.
  wp_step. eapply wp_run; [done|]. wp_step. eapply wp_run; [done|].
  apply (modules_first K (choices_of s) rank Hwf HU a Ha); [|done|done].
  split; try done.
Qed.

Lemma recalculate_wp s a l :
  quiet K s -> wf_choices K (choices_of s) -> solution K (choices_of s) a ->
  (forall k, Sym k ∈ l -> (rank k < R)%nat) ->
  wp (recalculate K fuel l)
    (fun _ s' => Inv K (choices_of s) rank a R s' /\
                 forall k, Sym k ∈ l -> f_valid (syms s' k) = true) s.
Proof using All.
  intros Hq HU Ha Hl. unfold recalculate. wp_step. wp_use clear_wp; [done..|].
  intros _ s1 Hi1. wp_use (calc_all_wp K (choices_of s) rank Hwf HU a Ha fuel R l s1); [done..|].
  intros _ s2 (Hi2 & _ & Hv2). done.
Qed.
End Recalculate.

Lemma eval_correct K rank R fuel s l
    (Hwf : wf_config K rank) (HU : wf_choices K (choices_of s)) (Hq : quiet K s)
    (HR : forall k, Sym k ∈ modules_sym K :: l -> (rank k < R)%nat) (Hf : (R < fuel)%nat) :
  exists a s',
    solution K (choices_of s) a /\
    (forall b, solution K (choices_of s) b -> forall k, b k = a k) /\
    recalculate K fuel l s = Some (tt, s') /\
    forall k, Sym k ∈ l -> curr (syms s' k) = a k.
Proof.
  pose proof (kconfig_value_solution K (choices_of s) rank Hwf HU) as Ha.
  destruct (recalculate_wp K rank Hwf R fuel Hf) with (s := s) (l := l)
    (a := kconfig_value K (choices_of s) rank) as ([] & s' & Hrun & Hi & Hv);
    [intros k Hk; apply HR; rewrite Hk; left|done..|intros k Hk; apply HR; by right|].
  exists (kconfig_value K (choices_of s) rank), s'. split_and!; [done| |done|].
  - intros b Hb k. by apply (solution_unique K (choices_of s) rank Hwf HU).
  - intros k Hk. apply (i_val _ _ _ _ _ _ Hi); [apply HR; by right|by apply Hv].
Qed.

(** C2: In a configuration without recursive dependencies, calculating symbols
    in any order after [sym_clear_all_valid] returns, and every calculated
    symbol has the value the reference semantics gives it; that semantics has
    exactly one solution, so the result does not depend on the order. *)
Theorem sym_calc_value_correct K rank R fuel s l
    (Hwf : wf_config K rank) (HU : wf_choices K (choices_of s)) (Hq : quiet K s)
    (HR : forall k, Sym k ∈ modules_sym K :: l -> (rank k < R)%nat) (Hf : (R < fuel)%nat) :
  exists a s',
    solution K (choices_of s) a /\
    (forall b, solution K (choices_of s) b -> forall k, b k = a k) /\
    recalculate K fuel l s = Some (tt, s') /\
    forall k, Sym k ∈ l -> curr (syms s' k) = a k.
Proof. by apply (eval_correct K rank R fuel s l). Qed.

Lemma filled_quiet : quiet Demo.config Demo.filled.
Proof. split; [by intros [|[|[|]]]|by intros [|[|[|]]]|done]. Qed.

Lemma sym_calc_value_correct_witness :
  exists a s',
    solution Demo.config (choices_of Demo.filled) a /\
    (forall b, solution Demo.config (choices_of Demo.filled) b -> forall k, b k = a k) /\
    recalculate Demo.config 5 [Sym 7; Sym 3; Sym 6; Sym 5; Sym 4]%nat Demo.filled = Some (tt, s') /\
    forall k, Sym k ∈ [Sym 7; Sym 3; Sym 6; Sym 5; Sym 4]%nat -> curr (syms s' k) = a k.
Proof.
  apply (sym_calc_value_correct Demo.config Demo.rank 4).
  - apply Demo.wf.
  - apply Demo.wf_filled.
  - apply filled_quiet.
  - intros k Hk. simpl in Hk. Demo.cases_in Hk; simplify_eq; simpl; lia.
  - lia.
Defined.

(** ** Choices *)

Section ChoiceSolution.
Context (K : kconfig) (U : choices) (rank : nat -> nat).
Context (Hwf : wf_config K rank) (HU : wf_choices K U).
Context (a : env) (Ha : solution K U a).
Context (c : nat) (Hch : k_choice (k_syms K c) = true) (Hyes : sv_tri (a c) = yes).

Lemma member_is_value j : j ∈ members K c -> k_choice_value (k_syms K j) = true.
Proof using Hwf Hch.
  intros Hj. pose proof (wfc_member K rank c (choice_wf K rank Hwf c Hch) j Hj) as H.
  unfold choice_of in H. by destruct (k_choice_value (k_syms K j)).
Qed.

Lemma enabled_visible j :
  j ∈ members K c -> spec_visible K (enabled a c) j = spec_visible K a j.
Proof using Hwf Hch Hyes.
  intros Hj. pose proof (choice_wf K rank Hwf c Hch) as Hc. apply visible_agree_tri.
  - intros y Hy. destruct (wfc_member_deps K rank c Hc j y Hj Hy) as [->|Hr].
    + simpl. unfold enabled. rewrite decide_True, Hyes by done. split; [done|].
      pose proof (wfc_type K rank c Hc). congruence.
    + destruct y as [| | |k]; try done. simpl in *. unfold enabled.
      case_decide; [subst; lia|done].
  - intros y Hy. rewrite (wfc_member K rank c Hc j Hj) in Hy. simplify_eq. simpl.
    unfold enabled. by rewrite decide_True, Hyes.
Qed.

(** A member is visible entirely or not at all. *)
Lemma member_not_mod j : j ∈ members K c -> spec_visible K a j <> mod_.
Proof using Hwf Hch Hyes.
  intros Hj. pose proof (wfc_member K rank c (choice_wf K rank Hwf c Hch) j Hj) as Hcj.
  unfold spec_visible, raise. destruct (decide (k_type (k_syms K j) = S_TRISTATE)) as [E|E].
  - rewrite bool_decide_false by (by intros H). simpl.
    assert (Hp : forall p, prompt_value K a j p <> mod_).
    { intros p. unfold prompt_value. rewrite Hcj, E, bool_decide_true by done. simpl. rewrite Hyes.
      destruct (cond K a (p_visible p)); done. }
    assert (forall l t, t <> mod_ ->
      fold_left (fun t p => EXPR_OR t (prompt_value K a j p)) l t <> mod_) as Hfold.
    { induction l as [|p l IH]; intros t Ht; [done|]. simpl. apply IH.
      specialize (Hp p). by destruct t, (prompt_value K a j p). }
    specialize (Hfold (prompts K j) no ltac:(done)).
    destruct (fold_left _ _ _); [by rewrite andb_false_r|done|by rewrite andb_false_r].
  - rewrite bool_decide_true by done. simpl. by destruct (fold_left _ _ _).
Qed.

Lemma default_target_member p :
  p ∈ k_prop (k_syms K c) ->
  default_target K a c p = None \/
  exists j, default_target K a c p = Some (Sym j) /\ j ∈ members K c /\
            member_visible K a c j = true.
Proof using Hwf Hch.
  intros Hp. unfold default_target.
  destruct (decide (p_type p = P_DEFAULT)) as [E|E]; [|left; by rewrite bool_decide_false].
  rewrite bool_decide_true by done. destruct (negb _); [|by left].
  destruct (wfc_default K rank c (choice_wf K rank Hwf c Hch) p Hp E) as (j & -> & Hj). simpl.
  destruct (member_visible K a c j) eqn:Ev; [right; eauto|by left].
Qed.

(** The default of a choice is a visible member. *)
Lemma selected_default y :
  head (omap (default_target K a c) (k_prop (k_syms K c))) ∪
    (Sym <$> List.find (member_visible K a c) (members K c)) = Some y ->
  exists j, y = Sym j /\ j ∈ members K c /\ member_visible K a c j = true.
Proof using Hwf Hch.
  pose proof (choice_wf K rank Hwf c Hch) as Hc.
  assert (forall l, (forall p, p ∈ l -> p ∈ k_prop (k_syms K c)) ->
    head (omap (default_target K a c) l) = None \/
    exists j, head (omap (default_target K a c) l) = Some (Sym j) /\ j ∈ members K c /\
              member_visible K a c j = true) as H.
  { induction l as [|p l IH]; intros Hl; [by left|]. simpl.
    destruct (default_target_member p ltac:(apply Hl; left)) as [->|(j & -> & Hj)].
    - apply IH. intros; apply Hl; by right.
    - right. by exists j. }
  destruct (H (k_prop (k_syms K c))) as [E|(j & E & Hj & Hv)]; [done| |]; unfold omap in *; rewrite E.
  - rewrite none_union. intros Hf. apply fmap_Some in Hf as (j & Hf & ->).
    apply find_some in Hf as [Hj Hv]. exists j. split_and!; [done|by apply list_elem_of_In|done].
  - rewrite some_union. intros. simplify_eq. eauto.
Qed.

Lemma choice_selected :
  exists y, selected K U a c = Some y /\ a c = SV yes (V_SYM y).
Proof using Hwf Ha Hch Hyes.
  pose proof (wfc_type K rank c (choice_wf K rank Hwf c Hch)) as Ht.
  assert (a c = if is_yes (spec_tri K U a c) then spec_choice K U a c
          else SV (spec_tri K U a c) (sv_val symbol_no_curr)) as E.
  { rewrite (Ha c) at 1. unfold spec_value. rewrite Hch. by destruct (k_type (k_syms K c)). }
  rewrite E in Hyes |- *. destruct (is_yes (spec_tri K U a c)) eqn:Et.
  - unfold spec_choice in *. destruct (selected K U a c); [by eexists|done].
  - simpl in Hyes. by rewrite Hyes in Et.
Qed.

Lemma selected_member :
  exists j, j ∈ members K c /\ a c = SV yes (V_SYM (Sym j)) /\ spec_visible K a j = yes.
Proof using All.
  destruct choice_selected as (y & Hy & Eac).
  assert (exists j, y = Sym j /\ j ∈ members K c /\ member_visible K a c j = true)
    as (j & -> & Hj & Hv).
  { unfold selected in Hy. destruct (proj2 (HU c) Hch) as [Eu|(j & Eu & Hj)]; rewrite Eu in Hy.
    { rewrite none_union in Hy. by apply selected_default. }
    simpl in Hy. destruct (member_visible K a c j) eqn:Ev.
    - rewrite some_union in Hy. simplify_eq. eauto.
    - rewrite none_union in Hy. by apply selected_default. }
  exists j. split_and!; [done..|].
  unfold member_visible in Hv. rewrite enabled_visible in Hv by done.
  pose proof (member_not_mod j Hj). by destruct (spec_visible K a j).
Qed.

Lemma member_value j k :
  a c = SV yes (V_SYM (Sym j)) -> k ∈ members K c -> spec_visible K a k = yes ->
  (sv_tri (a k) = yes <-> k = j).
Proof using All.
  intros Hac Hk Hv. pose proof (member_is_value k Hk) as Ecv.
  destruct (wf_value K rank k (Hwf k) Ecv) as (c' & Hc' & _ & Hty & _).
  assert (k_choice (k_syms K k) = false) as Ech.
  { destruct (k_choice (k_syms K k)) eqn:E; [|done].
    pose proof (wfc_not_value K rank k (choice_wf K rank Hwf k E)). congruence. }
  rewrite (Ha k). unfold spec_value, spec_tri. rewrite Ech, Ecv, Hv.
  rewrite (wfc_member K rank c (choice_wf K rank Hwf c Hch) k Hk). simpl. rewrite Hac. simpl.
  destruct (k_type (k_syms K k)); try done; simpl;
    (destruct (decide (k = j)) as [->|Hne];
     [rewrite bool_decide_true by done; done|
      rewrite bool_decide_false by (intros E; simplify_eq); done]).
Qed.
End ChoiceSolution.

(** C27: When a choice has the value [yes], its value selects one of its
    members, that member is visible, and among the visible members exactly the
    selected one has the value [yes]. *)
Theorem choice_exactly_one K rank R fuel s l c
    (Hwf : wf_config K rank) (HU : wf_choices K (choices_of s)) (Hq : quiet K s)
    (HR : forall k, Sym k ∈ modules_sym K :: l -> (rank k < R)%nat) (Hf : (R < fuel)%nat)
    (Hc : k_choice (k_syms K c) = true)
    (Hl : forall k, k = c \/ k ∈ members K c -> Sym k ∈ l) :
  exists s', recalculate K fuel l s = Some (tt, s') /\
    (sv_tri (curr (syms s' c)) = yes ->
     exists j, j ∈ members K c /\ sv_val (curr (syms s' c)) = V_SYM (Sym j) /\
       visible (syms s' j) = yes /\
       forall k, k ∈ members K c -> visible (syms s' k) <> no ->
         (sv_tri (curr (syms s' k)) = yes <-> k = j)).
Proof.
  pose proof (kconfig_value_solution K (choices_of s) rank Hwf HU) as Ha.
  set (a := kconfig_value K (choices_of s) rank) in *.
  destruct (recalculate_wp K rank Hwf R fuel Hf) with (s := s) (l := l) (a := a)
    as ([] & s' & Hrun & Hi & Hv);
    [intros k Hk; apply HR; rewrite Hk; left|done..|intros k Hk; apply HR; by right|].
  exists s'. split; [done|].
  assert (Hval : forall k, Sym k ∈ l -> curr (syms s' k) = a k).
  { intros k Hk. apply (i_val _ _ _ _ _ _ Hi); [apply HR; by right|by apply Hv]. }
  assert (Hvis : forall k, k ∈ members K c -> visible (syms s' k) = spec_visible K a k).
  { intros k Hk. apply (i_facts _ _ _ _ _ _ Hi); [apply HR; right; auto|by apply Hv; auto|].
    pose proof (member_is_value K rank Hwf c Hc k Hk) as E.
    destruct (wf_value K rank k (Hwf k) E) as (_ & _ & _ & Ht & _). by intros E'; rewrite E' in Ht. }
  rewrite Hval by auto. intros Hyes.
  destruct (selected_member K (choices_of s) rank Hwf HU a Ha c Hc Hyes) as (j & Hj & Eac & Hjv).
  exists j. rewrite Eac, Hvis by done. split_and!; [done..|].
  intros k Hk Hkv. rewrite Hvis in Hkv by done. rewrite Hval by auto.
  apply (member_value K (choices_of s) rank Hwf HU a Ha c Hc Hyes j k Eac Hk).
  pose proof (member_not_mod K rank Hwf a c Hc Hyes k Hk). by destruct (spec_visible K a k).
Qed.

Lemma choice_exactly_one_witness :
  exists s', recalculate Demo.config 5 [Sym 5; Sym 6; Sym 4]%nat Demo.filled = Some (tt, s') /\
    (sv_tri (curr (syms s' 4%nat)) = yes ->
     exists j, j ∈ members Demo.config 4 /\ sv_val (curr (syms s' 4%nat)) = V_SYM (Sym j) /\
       visible (syms s' j) = yes /\
       forall k, k ∈ members Demo.config 4 -> visible (syms s' k) <> no ->
         (sv_tri (curr (syms s' k)) = yes <-> k = j)).
Proof.
  apply (choice_exactly_one Demo.config Demo.rank 4).
  - apply Demo.wf.
  - apply Demo.wf_filled.
  - apply filled_quiet.
  - intros k Hk. simpl in Hk. Demo.cases_in Hk; simplify_eq; simpl; lia.
  - lia.
  - reflexivity.
  - intros k [->|Hk]; [set_solver|]. vm_compute in Hk. Demo.cases_in Hk; subst; set_solver.
Defined.

(** ** Setting a value *)

(** The equation of a symbol reads the user's choice for that symbol only. *)
Lemma spec_value_user K U U' a i :
  u_has U' i = u_has U i -> u_val U' i = u_val U i -> spec_value K U' a i = spec_value K U a i.
Proof.
  intros Hh Hv. unfold spec_value, spec_tri, spec_choice, selected, spec_number, spec_string.
  rewrite Hh, Hv. reflexivity.
Qed.

(** A new choice for [i] leaves the symbols of lower rank alone. *)
Lemma solution_user_below K U U' rank a a' i :
  wf_config K rank -> wf_choices K U -> wf_choices K U' ->
  solution K U a -> solution K U' a' ->
  (forall k, k <> i -> u_has U' k = u_has U k /\ u_val U' k = u_val U k) ->
  agree_below rank (rank i) a a'.
Proof.
  intros Hwf HU HU' Ha Ha' Hk k Hr. remember (rank k) as n eqn:En. revert k En Hr.
  induction n as [n IH] using lt_wf_ind. intros k -> Hr.
  destruct (Hk k ltac:(intros ->; lia)) as [Hh Hv].
  rewrite (Ha k), (Ha' k), (spec_value_user K U U' a' k Hh Hv).
  apply (spec_value_local K U rank Hwf a a' k HU). intros j Hj. eapply IH; [done|done|lia].
Qed.

(** The values of [s] are up to date with the user's choices in [s]. *)
Record up_to_date (K : kconfig) (rank : nat -> nat) (R : nat) (a : env) (s : store) : Prop := {
  ud_solution : solution K (choices_of s) a;
  ud_inv : Inv K (choices_of s) rank a R s }.

(** The value of an ordinary symbol that the user sets within its bounds. *)
Lemma spec_tri_set K U a i t :
  k_choice_value (k_syms K i) = false ->
  u_has U i = true -> sv_tri (u_val U i) = t ->
  (two_valued K a i = true -> t <> mod_) ->
  (tri_val (spec_rev_dep K a i) <= tri_val t <= tri_val (spec_visible K a i)) ->
  spec_visible K a i <> no -> spec_dir_dep K a i <> no ->
  spec_tri K U a i = t.
Proof.
  intros Hcv Hh Ht Hb Hr Hv Hd. unfold spec_tri, with_select. rewrite Hcv, Hh, Ht. simpl.
  destruct (two_valued K a i); [specialize (Hb eq_refl)|clear Hb];
    destruct t, (spec_visible K a i), (spec_rev_dep K a i), (spec_dir_dep K a i);
    try done; simpl in *; lia.
Qed.

Section SetValue.
Context (K : kconfig) (rank : nat -> nat) (R fuel : nat) (a : env) (s : store) (i : nat).
Context (Hwf : wf_config K rank) (HU : wf_choices K (choices_of s)).
Context (Hup : up_to_date K rank R a s).
Context (HR : forall k, modules_sym K = Sym k \/ k = i -> (rank k < R)%nat) (Hf : (R < fuel)%nat).
Context (Hval : f_valid (syms s i) = true).
Context (Hty : is_booltri (k_type (k_syms K i)) = true).
Context (Hord : k_choice (k_syms K i) = false /\ k_choice_value (k_syms K i) = false).

Lemma ud_facts : facts K a s i.
Proof using All.
  apply (i_facts _ _ _ _ _ _ (ud_inv _ _ _ _ _ Hup)); [by apply HR; right|done|].
  intros E. by rewrite E in Hty.
Qed.

(** A state that differs from [s] in the user's choice for [i] only. *)
Record chosen (t : tristate) (s2 : store) : Prop := {
  ch_other k : k <> i -> syms s2 k = syms s k;
  ch_curr : curr (syms s2 i) = curr (syms s i);
  ch_need : f_need_set (syms s2 i) = f_need_set (syms s i);
  ch_has : f_def_user (syms s2 i) = true;
  ch_tri : sv_tri (user (syms s2 i)) = t;
  ch_mval : modules_val s2 = modules_val s }.

Lemma chosen_quiet t s2 : chosen t s2 -> quiet K s2.
Proof using Hup HR Hord.
  intros [Ho Hc Hn Hh Ht Hm]. destruct (ud_inv _ _ _ _ _ Hup) as [I1 _ _ _ I4 I5 I6]. split.
  - intros k. destruct (decide (k = i)) as [->|]; [by rewrite Hn|by rewrite Ho].
  - intros k Hk. destruct (decide (k = i)) as [->|]; [destruct Hord; congruence|].
    rewrite Ho by done. by apply I5.
  - rewrite Hm. unfold modules_ready in I6. destruct (modules_sym K) as [| | |k] eqn:Em; try done.
    destruct (proj1 I6 ltac:(apply HR; by left)) as [Hv ->].
    rewrite <- (I1 k ltac:(apply HR; by left) Hv). simpl.
    destruct (decide (k = i)) as [->|]; [by rewrite Hc|by rewrite Ho].
Qed.

Lemma chosen_choices t s2 :
  chosen t s2 -> forall k, k <> i ->
  u_has (choices_of s2) k = u_has (choices_of s) k /\
  u_val (choices_of s2) k = u_val (choices_of s) k.
Proof using Type. intros [Ho _ _ _ _ _] k Hk. simpl. by rewrite Ho. Qed.

Lemma chosen_wf t s2 : chosen t s2 -> wf_choices K (choices_of s2).
Proof using HU Hty Hord.
  intros Hch k. destruct (decide (k = i)) as [->|Hk].
  - split; intros; [congruence|destruct Hord; congruence].
  - destruct (chosen_choices t s2 Hch k Hk) as [-> ->]. apply HU.
Qed.

(** [sym_tristate_within_range] on an up to date symbol. *)
Lemma within_range_inv t :
  sym_tristate_within_range K i t s = Some (true, s) ->
  (two_valued K a i = true -> t <> mod_) /\
  (tri_val (spec_rev_dep K a i) <= tri_val t <= tri_val (spec_visible K a i)) /\
  spec_visible K a i <> no.
Proof using All.
  destruct ud_facts as [F1 F2 F3 F4]. intros H.
  assert (wp (sym_tristate_within_range K i t) (fun b s' => b = true ->
    (two_valued K a i = true -> t <> mod_) /\
    (tri_val (spec_rev_dep K a i) <= tri_val t <= tri_val (spec_visible K a i)) /\
    spec_visible K a i <> no) s) as (b & s' & Hrun & HQ); [|rewrite H in Hrun; simplify_eq; auto].
  unfold sym_tristate_within_range. wp_step.
  apply (type_wp K (choices_of s) rank Hwf a i).
  - destruct (ud_inv _ _ _ _ _ Hup) as [I1 I1' I2 I3 I4 I5 I6]. split; try done.
    + intros k Hk. apply I1. pose proof (HR i ltac:(by right)). lia.
    + intros k Hk. apply I1'. pose proof (HR i ltac:(by right)). lia.
    + unfold modules_ready in *. destruct (modules_sym K) as [| | |k]; try done.
      split; [|apply I6]. intros Hk. apply I6. pose proof (HR i ltac:(by right)). lia.
  - done.
  - intros ty Htwo _. wp_step. wp_step. apply wp_ret. rewrite F1, F2, Htwo.
    rewrite (proj2 Hord). simpl. unfold tri_le, is_no, is_mod.
    repeat (case_match; try done). intros Hle%andb_prop. b2p.
    split_and!; [|lia|lia|].
    + intros E Em. subst t. by rewrite E in *.
    + intros E. by rewrite E in *.
Qed.

(** Recalculation after the user's choice. *)
Lemma chosen_wp t s2 :
  chosen t s2 -> sym_tristate_within_range K i t s = Some (true, s) -> dir_dep (syms s i) <> no ->
  wp (sym_clear_all_valid K (sym_calc_value K fuel) ;; sym_calc_value K fuel (Sym i))
    (fun _ s' => sv_tri (curr (syms s' i)) = t) s2.
Proof using All.
  intros Hch Hrange Hdir. pose proof (chosen_wf t s2 Hch) as HU2.
  pose proof (kconfig_value_solution K (choices_of s2) rank Hwf HU2) as Ha2.
  set (a2 := kconfig_value K (choices_of s2) rank) in *.
  assert (agree_below rank (rank i) a a2) as Hag.
  { apply (solution_user_below K (choices_of s) (choices_of s2) rank a a2 i);
      eauto using ud_solution, chosen_choices. }
  destruct (within_range_inv t Hrange) as (W1 & W2 & W3). destruct ud_facts as [_ _ F3 _].
  rewrite F3 in Hdir by apply Hord.
  wp_step. wp_use (clear_wp K rank Hwf R fuel Hf); [auto|by eapply chosen_quiet|done|done|].
  intros _ s3 Hi3. wp_use (rec_calc _ _ _ _ _ _ (calc_rec_ok K _ rank Hwf HU2 a2 Ha2 fuel R Hf));
    [done|by apply HR; right|].
  intros _ s4 (Hi4 & _ & Hv4). rewrite (i_val _ _ _ _ _ _ Hi4) by (done || by apply HR; right).
  assert (a2 i = SV (spec_tri K (choices_of s2) a2 i) (sv_val symbol_no_curr)) as ->.
  { rewrite (Ha2 i) at 1. unfold spec_value. rewrite (proj1 Hord). by destruct (k_type (k_syms K i)). }
  simpl.
  apply spec_tri_set; [apply Hord|apply Hch|apply Hch|..].
  - by rewrite <- (two_valued_local K rank Hwf a a2 i Hag).
  - by rewrite <- (spec_rev_dep_local K rank Hwf a a2 i Hag),
      <- (spec_visible_local K rank Hwf a a2 i Hag).
  - by rewrite <- (spec_visible_local K rank Hwf a a2 i Hag).
  - by rewrite <- (spec_dir_dep_local K rank Hwf a a2 i Hag) by apply Hord.
Qed.
End SetValue.

(** C31: Setting an ordinary boolean or tristate symbol to a value that
    [sym_tristate_within_range] allows succeeds, and when the symbol is
    calculated again it has that value. *)
Theorem set_tristate_takes_effect K rank R fuel a s i t
    (Hwf : wf_config K rank) (HU : wf_choices K (choices_of s))
    (Hup : up_to_date K rank R a s)
    (HR : forall k, modules_sym K = Sym k \/ k = i -> (rank k < R)%nat) (Hf : (R < fuel)%nat)
    (Hval : f_valid (syms s i) = true)
    (Hty : is_booltri (k_type (k_syms K i)) = true)
    (Hord : k_choice (k_syms K i) = false /\ k_choice_value (k_syms K i) = false)
    (Hrange : sym_tristate_within_range K i t s = Some (true, s))
    (Hdir : dir_dep (syms s i) <> no) :
  exists s1 s2,
    sym_set_tristate_value K (sym_calc_value K fuel) i t s = Some (true, s1) /\
    sym_calc_value K fuel (Sym i) s1 = Some (tt, s2) /\
    sv_tri (curr (syms s2 i)) = t.
Proof.
  assert (wp (let* ok := sym_set_tristate_value K (sym_calc_value K fuel) i t in
              sym_calc_value K fuel (Sym i) ;; ret ok)
            (fun ok s' => ok = true /\ sv_tri (curr (syms s' i)) = t) s) as (ok & s' & Hrun & -> & Ht).
  - unfold sym_set_tristate_value. wp_step. wp_step. wp_step. wp_step. rewrite (proj2 Hord).
    cbn [andb]. case_decide as Eo.
    + apply wp_ret. unfold mark_user. wp_step. wp_step. wp_step. apply wp_ret. wp_step. wp_step.
      wp_step. rewrite bool_decide_true by done. apply wp_ret. apply wp_ret. wp_step.
      eapply wp_run; [apply calc_valid_run|apply wp_ret; split; [done|]];
        rewrite ?syms_updated_eq; [done|lia|done].
    + eapply wp_run; [exact Hrange|]. unfold mark_user. wp_step. wp_step. wp_step. apply wp_ret.
      wp_step. wp_step. wp_step. rewrite bool_decide_false by done. cbn [negb when].
      set (s2 := updated i _ _).
      assert (chosen s i t s2) as Hch.
      { unfold s2. split; rewrite ?syms_updated_eq; try done.
        intros k Hk. by rewrite !syms_updated_ne. }
      destruct (chosen_wp K rank R fuel a s i Hwf HU Hup HR Hf Hval Hty Hord t s2 Hch Hrange Hdir)
        as ([] & s4 & Hrun & Ht).
      unfold bind in Hrun. destruct (sym_clear_all_valid _ _ s2) as [[[] s3]|] eqn:Ec; [|done].
      eapply wp_run; [exact Ec|]. apply wp_ret. wp_step. eapply wp_run; [exact Hrun|].
      by apply wp_ret.
  - unfold bind in Hrun. destruct (sym_set_tristate_value _ _ _ _ s) as [[ok s1]|] eqn:E1; [|done].
    destruct (sym_calc_value K fuel (Sym i) s1) as [[[] s2]|] eqn:E2; [|done].
    unfold ret in Hrun. simplify_eq. by exists s1, s'.
Qed.

(** A recalculation that leaves the SYMBOL_DEF_USER flags alone ends up to date. *)
Lemma recalculated_up_to_date K rank R a s0 s :
  solution K (choices_of s0) a -> Inv K (choices_of s0) rank a R s ->
  (forall k, f_def_user (syms s k) = f_def_user (syms s0 k)) ->
  up_to_date K rank R a s.
Proof.
  intros Ha [I1 I1' I2 I3 I4 I5 I6] Hd. split.
  - intros k. rewrite (Ha k) at 1. symmetry. apply spec_value_user; simpl; [apply Hd|].
    by rewrite I2.
  - by split.
Qed.

(** The state of the small configuration once [A] is calculated. *)
Definition demo_state : store :=
  match recalculate Demo.config 5 [Sym 1] Demo.filled with
  | Some (_, s) => s
  | None => Demo.filled
  end.

Lemma demo_inv :
  Inv Demo.config (choices_of Demo.filled) Demo.rank
    (kconfig_value Demo.config (choices_of Demo.filled) Demo.rank) 4 demo_state.
Proof.
  destruct (recalculate_wp Demo.config Demo.rank Demo.wf 4 5) with (s := Demo.filled)
    (l := [Sym 1]) (a := kconfig_value Demo.config (choices_of Demo.filled) Demo.rank)
    as ([] & s' & Hrun & Hi & Hv); [lia| |apply filled_quiet|apply Demo.wf_filled| | |].
  - intros k Hk. simplify_eq/=. lia.
  - apply (kconfig_value_solution Demo.config (choices_of Demo.filled) Demo.rank
      Demo.wf Demo.wf_filled).
  - intros k Hk. Demo.cases_in Hk. simplify_eq/=. lia.
  - unfold demo_state. by rewrite Hrun.
Qed.

Lemma demo_flags k :
  f_def_user (syms demo_state k) = f_def_user (syms Demo.filled k).
Proof. destruct k as [|[|k]]; reflexivity. Qed.

Lemma demo_wf : wf_choices Demo.config (choices_of demo_state).
Proof.
  intros i. pose proof (Demo.wf_filled i) as [H1 H2]. cbn [u_has u_val choices_of] in *.
  rewrite demo_flags, (i_user _ _ _ _ _ _ demo_inv i). auto.
Qed.

Lemma demo_up_to_date :
  up_to_date Demo.config Demo.rank 4
    (kconfig_value Demo.config (choices_of Demo.filled) Demo.rank) demo_state.
Proof.
  apply (recalculated_up_to_date _ _ _ _ Demo.filled).
  - apply (kconfig_value_solution Demo.config (choices_of Demo.filled) Demo.rank
      Demo.wf Demo.wf_filled).
  - apply demo_inv.
  - apply demo_flags.
Qed.

Lemma set_tristate_takes_effect_witness :
  exists s1 s2,
    sym_set_tristate_value Demo.config (sym_calc_value Demo.config 5) 1 mod_ demo_state = Some (true, s1) /\
    sym_calc_value Demo.config 5 (Sym 1) s1 = Some (tt, s2) /\
    sv_tri (curr (syms s2 1%nat)) = mod_.
Proof.
  apply (set_tristate_takes_effect Demo.config Demo.rank 4 5
    (kconfig_value Demo.config (choices_of Demo.filled) Demo.rank)).
  - apply Demo.wf.
  - apply demo_wf.
  - apply demo_up_to_date.
  - intros k [Hk|Hk]; simplify_eq/=; lia.
  - lia.
  - reflexivity.
  - reflexivity.
  - split; reflexivity.
  - reflexivity.
  - vm_compute. discriminate.
Defined.

(** ** Toggling *)

(** What [sym_tristate_within_range] answers. *)
Definition allowed (K : kconfig) (i : nat) (s : store) (t : tristate) : bool :=
  match sym_tristate_within_range K i t s with Some (b, _) => b | None => false end.

(** The next allowed value in the order [no], [mod], [yes], [no]. *)
Definition next_allowed (K : kconfig) (i : nat) (s : store) (t : tristate) : tristate :=
  if allowed K i s (next_tristate t) then next_tristate t
  else if allowed K i s (next_tristate (next_tristate t)) then next_tristate (next_tristate t)
  else t.

Lemma within_range_run K i t s :
  sym_tristate_within_range K i t s = Some (allowed K i s t, s).
Proof. reflexivity. Qed.

Section Toggle.
Context (K : kconfig) (rank : nat -> nat) (R fuel : nat) (a : env) (s : store) (i : nat).
Context (Hwf : wf_config K rank) (HU : wf_choices K (choices_of s)).
Context (Hup : up_to_date K rank R a s).
Context (HR : forall k, modules_sym K = Sym k \/ k = i -> (rank k < R)%nat) (Hf : (R < fuel)%nat).
Context (Hty : is_booltri (k_type (k_syms K i)) = true).
Context (Hord : k_choice (k_syms K i) = false /\ k_choice_value (k_syms K i) = false).

(** Setting a value returns; a value out of range is refused without a trace. *)
Lemma set_tristate_returns t :
  exists s', sym_set_tristate_value K (sym_calc_value K fuel) i t s =
    Some (bool_decide (sv_tri (curr (syms s i)) = t) || allowed K i s t, s') /\
    (bool_decide (sv_tri (curr (syms s i)) = t) || allowed K i s t = false -> s' = s).
Proof using All.
  assert (wp (sym_set_tristate_value K (sym_calc_value K fuel) i t)
    (fun b s' => b = bool_decide (sv_tri (curr (syms s i)) = t) || allowed K i s t /\
                 (b = false -> s' = s)) s) as (b & s' & Hrun & -> & Hs); [|by exists s'].
  unfold sym_set_tristate_value. wp_step. wp_step. wp_step. rewrite (proj2 Hord).
  cbn [andb]. case_decide as Eo.
  - apply wp_ret. unfold mark_user. wp_step. wp_step. wp_step. apply wp_ret. wp_step. wp_step.
    wp_step. rewrite bool_decide_true by done. apply wp_ret. by apply wp_ret.
  - eapply wp_run; [apply within_range_run|]. rewrite bool_decide_false by done. cbn [orb].
    destruct (allowed K i s t); [|by apply wp_ret].
    unfold mark_user. wp_step. wp_step. wp_step. apply wp_ret.
    wp_step. wp_step. wp_step. cbn [negb when]. set (s2 := updated i _ _).
    assert (chosen s i t s2) as Hch.
    { unfold s2. split; rewrite ?syms_updated_eq; try done.
      intros k Hk. by rewrite !syms_updated_ne. }
    pose proof (chosen_wf K s i HU Hty Hord t s2 Hch) as HU2.
    pose proof (kconfig_value_solution K (choices_of s2) rank Hwf HU2) as Ha2.
    wp_use (clear_wp K rank Hwf R fuel Hf); [auto|by eapply chosen_quiet|done|done|].
    intros _ s3 _. by apply wp_ret.
Qed.
End Toggle.

(** On an up to date ordinary symbol [sym_toggle_tristate_value] returns,
    after at most three attempts, and its result is the next value, in cyclic
    order, that the bounds of the symbol allow: every allowed value is reached
    by toggling. *)
Theorem toggle_next_allowed K rank R fuel a s i
    (Hwf : wf_config K rank) (HU : wf_choices K (choices_of s))
    (Hup : up_to_date K rank R a s)
    (HR : forall k, modules_sym K = Sym k \/ k = i -> (rank k < R)%nat) (Hf : (R < fuel)%nat)
    (Hty : is_booltri (k_type (k_syms K i)) = true)
    (Hord : k_choice (k_syms K i) = false /\ k_choice_value (k_syms K i) = false) :
  exists s', sym_toggle_tristate_value K (sym_calc_value K fuel) i s =
    Some (next_allowed K i s (sv_tri (curr (syms s i))), s').
Proof.
  unfold sym_toggle_tristate_value, bind at 1, get. cbv zeta.
  pose proof (set_tristate_returns K rank R fuel a s i Hwf HU Hup HR Hf Hty Hord) as Hset.
  set (t := sv_tri (curr (syms s i))) in *.
  unfold next_allowed. cbn [toggle_loop]. unfold bind.
  destruct (Hset (next_tristate t)) as (s1 & -> & H1).
  assert (t <> next_tristate t) as N1 by (by destruct t).
  rewrite (bool_decide_false (t = next_tristate t)), decide_False in * by done. cbn [orb] in *.
  destruct (allowed K i s (next_tristate t)); [by exists s1|]. rewrite (H1 eq_refl).
  destruct (Hset (next_tristate (next_tristate t))) as (s2 & -> & H2).
  assert (t <> next_tristate (next_tristate t)) as N2 by (by destruct t).
  rewrite (bool_decide_false (t = next_tristate (next_tristate t))), decide_False in * by done.
  cbn [orb] in *.
  destruct (allowed K i s (next_tristate (next_tristate t))); [by exists s2|]. rewrite (H2 eq_refl).
  assert (next_tristate (next_tristate (next_tristate t)) = t) as E3 by (by destruct t).
  rewrite E3. destruct (Hset t) as (s3 & -> & _). rewrite bool_decide_true by done. by exists s3.
Qed.

Lemma toggle_next_allowed_witness :
  exists s', sym_toggle_tristate_value Demo.config (sym_calc_value Demo.config 5) 1 demo_state =
    Some (next_allowed Demo.config 1 demo_state (sv_tri (curr (syms demo_state 1%nat))), s').
Proof.
  apply (toggle_next_allowed Demo.config Demo.rank 4 5
    (kconfig_value Demo.config (choices_of Demo.filled) Demo.rank)).
  - apply Demo.wf.
  - apply demo_wf.
  - apply demo_up_to_date.
  - intros k [Hk|Hk]; simplify_eq/=; lia.
  - lia.
  - reflexivity.
  - split; reflexivity.
Defined.
