(* ===== verification/KSymTypes.v ===== *)
(** * The values of symbols have their types

    On every configuration, recursive or not, the operations keep the tristate
    part of each value within the type of its symbol: a boolean is never [mod],
    a string, number or untyped symbol has the tristate [no]. *)
From stdpp Require Import options.
From S2P Require Import Prelude CLib KExpr KSymbol KSymOps KSymProps.
#[local] Open Scope ksym_scope.

Section Types.
Context (K : kconfig).

Definition well_typed (i : nat) (t : tristate) : Prop :=
  match k_type (k_syms K i) with
  | S_BOOLEAN => t <> mod_
  | S_TRISTATE => True
  | S_INT | S_HEX | S_STRING | S_UNKNOWN => t = no
  end.

Definition typed (s : store) : Prop := forall i, well_typed i (sv_tri (curr (syms s i))).

Lemma no_typed i : well_typed i no.
Proof. unfold well_typed. by destruct (k_type (k_syms K i)). Qed.

(** [m] keeps the invariant, and its result satisfies [Q]. *)
Definition keeps_types {A} (m : M A) (Q : A -> Prop) : Prop :=
  forall s a s', typed s -> m s = Some (a, s') -> typed s' /\ Q a.

Lemma kt_bind {A B} (m : M A) (k : A -> M B) P Q :
  keeps_types m P -> (forall a, P a -> keeps_types (k a) Q) -> keeps_types (bind m k) Q.
Proof.
  intros Hm Hk s b s' Hs. unfold bind. destruct (m s) as [[a s1]|] eqn:E; [|done].
  destruct (Hm s a s1 Hs E) as [Hs1 Ha]. by apply Hk.
Qed.

Lemma kt_ret {A} (a : A) (Q : A -> Prop) : Q a -> keeps_types (ret a) Q.
Proof. intros Ha s a' s' Hs [= <- <-]. done. Qed.

Lemma kt_fail {A} (Q : A -> Prop) : keeps_types fail Q.
Proof. by intros s a s' Hs. Qed.

Lemma kt_get i : keeps_types (get i) (fun x => well_typed i (sv_tri (curr x))).
Proof. intros s a s' Hs [= <- <-]. split; [done|apply Hs]. Qed.

Lemma kt_mono {A} (m : M A) (P Q : A -> Prop) :
  keeps_types m P -> (forall a, P a -> Q a) -> keeps_types m Q.
Proof. intros Hm H s a s' Hs E. destruct (Hm s a s' Hs E). auto. Qed.

Lemma kt_upd i f (Q : unit -> Prop) :
  (forall x, well_typed i (sv_tri (curr x)) -> well_typed i (sv_tri (curr (f x)))) ->
  Q tt -> keeps_types (upd i f) Q.
Proof.
  intros Hf Hq s a s' Hs [= <- <-]. split; [|done]. intros k. simpl.
  case_decide; [subst; apply Hf|]; apply Hs.
Qed.

Lemma kt_lift {A} (o : option A) : keeps_types (lift o) (fun _ => True).
Proof. destruct o; [by apply kt_ret|apply kt_fail]. Qed.

Lemma kt_modules : keeps_types get_modules_val (fun _ => True).
Proof. by intros s a s' Hs [= <- <-]. Qed.

Lemma kt_set_modules t : keeps_types (set_modules_val t) (fun _ => True).
Proof. by intros s a s' Hs [= <- <-]. Qed.

Lemma kt_when b m (Q : unit -> Prop) : keeps_types m Q -> Q tt -> keeps_types (when b m) Q.
Proof. intros. destruct b; [done|by apply kt_ret]. Qed.

Lemma kt_for_each {A} (l : list A) f :
  (forall a, keeps_types (f a) (fun _ => True)) -> keeps_types (for_each l f) (fun _ => True).
Proof.
  intros Hf. induction l as [|a l IH]; [by apply kt_ret|]. simpl.
  eapply kt_bind; [apply Hf|]. by intros [] _.
Qed.

#[local] Notation ok m := (keeps_types m (fun _ => True)).

Ltac kt_step :=
  match goal with
  | |- keeps_types (bind _ _) _ => apply (kt_bind _ _ (fun _ => True)); [|intros ? _]
  | |- keeps_types (ret _) _ => by apply kt_ret
  | |- keeps_types fail _ => apply kt_fail
  | |- keeps_types (get _) _ => eapply kt_mono; [apply kt_get|by auto]
  | |- keeps_types (upd _ _) _ => apply kt_upd; [by auto|done]
  | |- keeps_types (lift _) _ => apply kt_lift
  | |- keeps_types get_modules_val _ => apply kt_modules
  | |- keeps_types (set_modules_val _) _ => apply kt_set_modules
  | |- keeps_types (when _ _) _ => apply kt_when; [|done]
  | |- keeps_types (for_each _ _) _ => apply kt_for_each; intros ?
  | |- keeps_types (match ?x with _ => _ end) _ => destruct x
  | H : forall _, keeps_types (?f _) _ |- keeps_types (?f _) _ => apply H
  end.
Ltac kt := repeat (cbv zeta; kt_step).

Lemma kt_get_curr y : ok (get_curr y).
Proof. unfold get_curr. kt. Qed.
Lemma kt_get_visible y : ok (get_visible y).
Proof. unfold get_visible. kt. Qed.
Lemma kt_get_str y : ok (get_str y).
Proof. unfold get_str. eapply kt_bind; [apply kt_get_curr|intros ? _]. kt. Qed.
Lemma kt_choice_symbol i : ok (choice_symbol K i).
Proof. unfold choice_symbol. kt. Qed.
Hint Resolve kt_get_curr kt_get_visible kt_get_str kt_choice_symbol : core.

Section Rec.
Context (rec : symbol -> M unit) (Hrec : forall y, ok (rec y)).

Lemma kt_string_value y : ok (sym_get_string_value K rec y).
Proof using Hrec. unfold sym_get_string_value. kt; auto. Qed.

Lemma kt_expr_calc e : ok (expr_calc K rec e).
Proof using Hrec. induction e; simpl; kt; auto using kt_string_value. Qed.

Lemma kt_calc_value e : ok (expr_calc_value K rec e).
Proof using Hrec. destruct e; simpl; kt. apply kt_expr_calc. Qed.

Lemma kt_prop_value e : ok (prop_expr_value K rec e).
Proof using Hrec. destruct e; simpl; kt. apply kt_expr_calc. Qed.

Lemma kt_first_visible ty l : ok (first_visible K rec ty l).
Proof using Hrec.
  induction l as [|p l IH]; simpl; [kt|]. case_decide; [|done].
  eapply kt_bind; [apply kt_calc_value|intros t _]. destruct (is_no t); [done|kt].
Qed.

Lemma kt_range_val y base : ok (sym_get_range_val K rec y base).
Proof using Hrec. unfold sym_get_range_val. kt; auto. Qed.

Lemma kt_range_clamp i base p : ok (range_clamp K rec i base p).
Proof using Hrec. unfold range_clamp. kt; auto using kt_range_val. Qed.

Lemma kt_validate_range i : ok (sym_validate_range K rec i).
Proof using Hrec.
  unfold sym_validate_range, sym_get_range_prop.
  kt; auto using kt_first_visible, kt_range_clamp.
Qed.

Lemma kt_prompts i c l t : ok (prompts_visible K rec i c l t).
Proof using Hrec.
  revert t. induction l as [|p l IH]; intros t; simpl; [kt|].
  destruct (p_text p); [|done]. eapply kt_bind; [apply kt_calc_value|intros v _].
  eapply (kt_bind _ _ (fun _ => True)); [destruct c; kt; auto|auto].
Qed.

Lemma kt_get_type i :
  keeps_types (sym_get_type K i) (fun ty => k_type (k_syms K i) <> S_TRISTATE -> ty = k_type (k_syms K i)).
Proof using Type.
  unfold sym_get_type. eapply kt_bind; [apply kt_get|intros x _].
  eapply kt_bind; [apply kt_modules|intros m _]. apply kt_ret. intros H. by rewrite decide_False.
Qed.

(** A boolean is promoted. *)
Lemma kt_promote i t :
  keeps_types (promote K i t) (fun t' => k_type (k_syms K i) = S_BOOLEAN -> t' <> mod_).
Proof using Type.
  unfold promote. eapply kt_bind; [apply kt_get_type|intros ty Hty]. apply kt_ret.
  intros E. rewrite Hty, E by (by rewrite E). by destruct t.
Qed.

Lemma kt_calc_dep i d e : ok (calc_dep K rec i d e).
Proof using Hrec.
  unfold calc_dep. eapply (kt_bind _ _ (fun _ => True)).
  - destruct e; [apply kt_expr_calc|kt].
  - intros t _. eapply kt_mono; [apply kt_promote|done].
Qed.

Lemma kt_visibility i : ok (sym_calc_visibility K rec i).
Proof using Hrec.
  unfold sym_calc_visibility. kt; auto using kt_prompts, kt_calc_dep.
Qed.

Lemma kt_choice_defaults l : ok (choice_defaults K rec l).
Proof using Hrec.
  induction l as [|p l IH]; simpl; [kt|]. case_decide; [|done].
  eapply kt_bind; [apply kt_calc_value|intros t _]. kt; auto.
Qed.

Lemma kt_first_member l : ok (first_visible_member l).
Proof using Type. induction l as [|j l IH]; cbn [first_visible_member]; kt; auto. Qed.

Lemma kt_choice_default i : ok (sym_choice_default K rec i).
Proof using Hrec.
  unfold sym_choice_default. kt; auto using kt_choice_defaults, kt_first_member.
Qed.

Lemma kt_members l b : ok (members_visible K rec l b).
Proof using Hrec.
  revert b. induction l as [|j l IH]; intros b; simpl; [kt|].
  eapply kt_bind; [apply kt_visibility|intros [] _]. kt; auto.
Qed.

Lemma kt_calc_choice i : ok (sym_calc_choice K rec i).
Proof using Hrec.
  unfold sym_calc_choice. kt; auto using kt_members, kt_choice_default.
  apply kt_upd; [intros; apply no_typed|done].
Qed.

Lemma kt_set_all i : ok (set_all_choice_values K i).
Proof using Type.
  unfold set_all_choice_values. kt. apply kt_upd; [|done]. intros x. by destruct (f_def_user x).
Qed.

Lemma kt_calc_tristate i : ok (calc_tristate K rec i).
Proof using Hrec.
  unfold calc_tristate, sym_get_default_prop.
  kt; auto using kt_first_visible, kt_prop_value.
Qed.

Lemma kt_calc_string i : ok (calc_string K rec i).
Proof using Hrec.
  unfold calc_string, sym_get_default_prop. kt; auto using kt_first_visible.
Qed.

Lemma kt_newval i :
  keeps_types (calc_newval K rec i) (fun v => well_typed i (sv_tri v)).
Proof using Hrec.
  unfold calc_newval. eapply kt_bind; [apply kt_get_type|intros ty Hty].
  assert (keeps_types (let* t := calc_tristate K rec i in
     let* t := promote K i t in ret (SV t (sv_val symbol_no_curr)))
     (fun v => k_type (k_syms K i) = S_BOOLEAN -> sv_tri v <> mod_)) as Hb.
  { eapply kt_bind; [apply kt_calc_tristate|intros t _].
    eapply kt_bind; [apply kt_promote|intros t' Ht']. by apply kt_ret. }
  assert (keeps_types (let* v := calc_string K rec i in ret (SV no v))
     (fun v => well_typed i (sv_tri v))) as Hs.
  { eapply kt_bind; [apply kt_calc_string|intros v _]. apply kt_ret, no_typed. }
  destruct (decide (k_type (k_syms K i) = S_TRISTATE)) as [E|E].
  - destruct ty; try (by eapply kt_mono; [apply Hb|unfold well_typed; rewrite E]);
      try done; apply kt_ret, no_typed.
  - rewrite (Hty E). destruct (k_type (k_syms K i)) eqn:Et; try done; [apply kt_ret, no_typed|].
    eapply kt_mono; [exact Hb|]. intros v Hv. unfold well_typed. rewrite Et. auto.
Qed.

Lemma kt_typed i v : sv_tri v = no -> ok (calc_typed K rec i v).
Proof using Hrec.
  intros Hv. unfold calc_typed. cbv zeta. kt_step; [kt|]. kt_step; [kt|].
  kt_step; [apply kt_visibility|]. kt_step; [kt|]. kt_step; [kt|].
  kt_step; [apply kt_upd; [intros; simpl; rewrite Hv; apply no_typed|done]|].
  eapply kt_bind; [apply kt_newval|intros nv Hnv].
  kt_step; [by apply kt_upd|]. kt_step; [kt; apply kt_calc_choice|].
  kt_step; [apply kt_validate_range|]. unfold choice_write.
  kt; auto using kt_set_all.
Qed.

Lemma kt_body i : ok (sym_calc_value_body K rec i).
Proof using Hrec.
  unfold sym_calc_value_body. kt; auto; try (by apply kt_typed).
  apply kt_upd; [intros; apply no_typed|done].
Qed.
End Rec.

Lemma kt_calc fuel y : ok (sym_calc_value K fuel y).
Proof.
  revert y. induction fuel as [|f IH]; intros y; destruct y; simpl; kt. by apply kt_body.
Qed.

(** ** The operations of the front ends *)

Section Ops.
Context (fuel : nat).
#[local] Notation calc := (sym_calc_value K fuel).

Lemma kt_clear : ok (sym_clear_all_valid K calc).
Proof.
  unfold sym_clear_all_valid. eapply (kt_bind _ _ (fun _ => True)).
  { intros s a s' Hs [= <- <-]. done. }
  intros [] _. eapply (kt_bind _ _ (fun _ => True)).
  { intros s a s' Hs [= <- <-]. done. }
  intros [] _. apply kt_calc.
Qed.

Lemma kt_within_range i t : ok (sym_tristate_within_range K i t).
Proof.
  unfold sym_tristate_within_range. kt_step; [|kt].
  eapply kt_mono; [apply kt_get_type|done].
Qed.

Lemma kt_set_tristate i t : ok (sym_set_tristate_value K calc i t).
Proof.
  unfold sym_set_tristate_value, mark_user, select_member.
  kt; auto using kt_within_range, kt_clear.
Qed.

Lemma kt_toggle n i t t' : ok (toggle_loop K calc n i t t').
Proof.
  revert t'. induction n as [|n IH]; intros t'; simpl; [kt|].
  kt_step; [apply kt_set_tristate|]. kt; auto.
Qed.

Lemma kt_string_within i v : ok (sym_string_within_range K calc i v).
Proof.
  unfold sym_string_within_range, number_within_range, sym_get_range_prop.
  kt; auto using kt_within_range, kt_first_visible, kt_range_val, kt_calc.
Qed.

Lemma kt_set_string i v : ok (sym_set_string_value K calc i v).
Proof.
  unfold sym_set_string_value, mark_user.
  kt; auto using kt_set_tristate, kt_string_within, kt_clear.
Qed.

Lemma kt_string_default i : ok (sym_get_string_default K calc i).
Proof.
  unfold sym_get_string_default, sym_get_default_prop.
  kt; auto using kt_visibility, kt_calc, kt_first_visible, kt_prop_value.
Qed.
End Ops.

(** An operation a front end can ask for. *)
Inductive request :=
| Calc (y : symbol)
| SetTristate (i : nat) (t : tristate)
| Toggle (i : nat)
| SetString (i : nat) (v : cstr)
| ClearAll
| Default (i : nat).

Definition run_request (fuel : nat) (q : request) : M unit :=
  let calc := sym_calc_value K fuel in
  match q with
  | Calc y => calc y
  | SetTristate i t => sym_set_tristate_value K calc i t ;; ret tt
  | Toggle i => sym_toggle_tristate_value K calc i ;; ret tt
  | SetString i v => sym_set_string_value K calc i v ;; ret tt
  | ClearAll => sym_clear_all_valid K calc
  | Default i => sym_get_string_default K calc i ;; ret tt
  end.

(** The stores a front end can reach from [s0]. *)
Inductive reachable (fuel : nat) (s0 : store) : store -> Prop :=
| reach_refl : reachable fuel s0 s0
| reach_step s s' q :
    reachable fuel s0 s -> run_request fuel q s = Some (tt, s') -> reachable fuel s0 s'.

Lemma kt_request fuel q : ok (run_request fuel q).
Proof.
  destruct q; simpl; unfold sym_toggle_tristate_value; kt; auto using kt_calc, kt_set_tristate, kt_toggle, kt_set_string,
    kt_clear, kt_string_default.
Qed.
End Types.

(** C34: Whatever the configuration (recursive dependencies included) and
    whatever the user does, in every store a front end reaches a boolean symbol
    never has the value [mod], and the tristate of a string, a number or an
    untyped symbol is [no]. *)
Theorem symbol_types_invariant K fuel s0 s
    (H0 : typed K s0) (Hr : reachable K fuel s0 s) : typed K s.
Proof.
  induction Hr as [|s s' q _ IH Hrun]; [done|].
  by apply (kt_request K fuel q s tt s').
Qed.

Lemma symbol_types_invariant_witness :
  reachable Demo.config 5 Demo.filled
    (match run_request Demo.config 5 (SetTristate 1 no) Demo.filled with
     | Some (_, s) => s | None => Demo.filled end) /\
  typed Demo.config
    (match run_request Demo.config 5 (SetTristate 1 no) Demo.filled with
     | Some (_, s) => s | None => Demo.filled end).
Proof.
  assert (reachable Demo.config 5 Demo.filled
    (match run_request Demo.config 5 (SetTristate 1 no) Demo.filled with
     | Some (_, s) => s | None => Demo.filled end)) as Hr.
  { destruct (run_request Demo.config 5 (SetTristate 1 no) Demo.filled) as [[[] s]|] eqn:E.
    - exact (reach_step _ _ _ _ _ _ (reach_refl _ _ _) E).
    - apply reach_refl. }
  split; [exact Hr|].
  apply (symbol_types_invariant Demo.config 5 Demo.filled); [|exact Hr].
  intros i. unfold well_typed. destruct i as [|[|[|[|[|[|[|[|i]]]]]]]]; try done;
    by destruct i as [|[|[|i]]].
Defined.
