(* ===== verification/KSymCheck.v ===== *)
(** * Recursive dependencies: [sym_check_deps] of scripts/config/symbol.c

    The depth-first search that [conf_parse] runs over all symbols.  SYMBOL_CHECK
    marks the symbols the search is inside of, SYMBOL_CHECKED those it has
    entered.  The [dep_stack] records what [sym_check_print_recursive] prints
    and is left out.  A result is the symbol reported, [None] when there is none;
    running out of fuel is an outer [None]. *)
From stdpp Require Import sets relations options.
From S2P Require Import Prelude CLib KExpr KSymbol KSymSpec.
#[local] Open Scope nat_scope.

Record cflags := CFlags { f_check : bool; f_checked : bool }.
Definition marks := nat -> cflags.

Definition set_mark (i : nat) (c : cflags) (s : marks) : marks :=
  fun k => if decide (k = i) then c else s k.
(** [flags |= (SYMBOL_CHECK | SYMBOL_CHECKED)] and [flags &= ~SYMBOL_CHECK]. *)
Definition enter (i : nat) (s : marks) : marks := set_mark i (CFlags true true) s.
Definition leave (i : nat) (s : marks) : marks :=
  set_mark i (CFlags false (f_checked (s i))) s.

Section Check.
Context (K : kconfig) (recursive_is_error : bool).

Definition result : Type := option (option symbol * marks).

Section Rec.
Context (rec : symbol -> marks -> result).

(** Check [y], then go on unless a symbol was reported. *)
Definition and_then (m : marks -> result) (k : marks -> result) (s : marks) : result :=
  match m s with
  | Some (None, s') => k s'
  | r => r
  end.

Fixpoint sym_check_expr_deps (e : expr) (s : marks) : result :=
  match e with
  | E_OR l r | E_AND l r => and_then (sym_check_expr_deps l) (sym_check_expr_deps r) s
  | E_NOT l => sym_check_expr_deps l s
  | E_COMP _ l r => and_then (rec l) (rec r) s
  | E_SYMBOL y => rec y s
  end.

Definition check_opt (e : option expr) (s : marks) : result :=
  match e with None => Some (None, s) | Some e => sym_check_expr_deps e s end.

Fixpoint check_props (choice : bool) (l : list property) (s : marks) : result :=
  match l with
  | [] => Some (None, s)
  | p :: l' =>
      match p_type p with
      | P_CHOICE | P_SELECT | P_IMPLY => check_props choice l' s
      | _ =>
          and_then (check_opt (p_visible p))
            (fun s =>
               if bool_decide (p_type p = P_DEFAULT) && negb choice
               then match p_expr p with
                    | PE_expr e => and_then (sym_check_expr_deps e) (check_props choice l') s
                    | _ => check_props choice l' s
                    end
               else check_props choice l' s) s
      end
  end.

Definition sym_check_sym_deps (i : nat) (s : marks) : result :=
  let k := k_syms K i in
  and_then (check_opt (k_dir_dep k))
    (and_then (check_opt (k_rev_dep k))
       (and_then (check_opt (k_implied k)) (check_props (k_choice k) (k_prop k)))) s.

Fixpoint check_members (l : list nat) (s : marks) : result :=
  match l with
  | [] => Some (None, s)
  | j :: l' => and_then (sym_check_sym_deps j) (check_members l') s
  end.

Definition choice_of_symbol (y : symbol) : option symbol :=
  match y with
  | Sym j => if k_choice_value (k_syms K j)
             then match sym_get_choice_prop K j with Some p => prop_get_symbol p | None => None end
             else None
  | _ => None
  end.

Definition sym_check_choice_deps (c : nat) (s : marks) : result :=
  match choice_members K c with
  | None => None
  | Some l =>
      let s := fold_left (fun s j => enter j s) l s in
      let s := enter c s in
      match sym_check_sym_deps c s with
      | None => None
      | Some (r, s) =>
          let s := leave c s in
          match (match r with Some y => Some (Some y, s) | None => check_members l s end) with
          | None => None
          | Some (r, s) =>
              let s := fold_left (fun s j => leave j s) l s in
              Some (match r with
                    | Some y => if decide (choice_of_symbol y = Some (Sym c))
                                then Some (Sym c) else r
                    | None => None
                    end, s)
          end
      end
  end.

Definition report (i : nat) (r : option symbol) : option symbol :=
  if negb recursive_is_error && bool_decide (r = Some (Sym i)) then None else r.

Definition sym_check_deps_body (i : nat) (s : marks) : result :=
  if f_check (s i) then Some (Some (Sym i), s)
  else if f_checked (s i) then Some (None, s)
  else
    let k := k_syms K i in
    let r :=
      if k_choice_value k
      then match sym_get_choice_prop K i with
           | Some p => match prop_get_symbol p with Some c => rec c s | None => None end
           | None => None
           end
      else if k_choice k then sym_check_choice_deps i s
      else match sym_check_sym_deps i (enter i s) with
           | Some (r, s') => Some (r, leave i s')
           | None => None
           end in
    match r with Some (r, s') => Some (report i r, s') | None => None end.
End Rec.

(** The static symbols have no dependencies. *)
Fixpoint sym_check_deps (fuel : nat) (y : symbol) (s : marks) : result :=
  match y with
  | Sym i => match fuel with O => None | S f => sym_check_deps_body (sym_check_deps f) i s end
  | _ => Some (None, s)
  end.

(** The loop of [conf_parse]: the number of symbols reported. *)
Fixpoint check_all (fuel : nat) (l : list nat) (s : marks) : option (nat * marks) :=
  match l with
  | [] => Some (0, s)
  | i :: l' =>
      match sym_check_deps fuel (Sym i) s with
      | Some (r, s') =>
          match check_all fuel l' s' with
          | Some (n, s'') => Some ((if bool_decide (r = None) then n else S n), s'')
          | None => None
          end
      | None => None
      end
  end.

(** The symbols whose dependencies are checked when [i] is. *)
Fixpoint plain_syms (e : expr) : list symbol :=
  match e with
  | E_SYMBOL y => [y]
  | E_NOT l => plain_syms l
  | E_AND l r | E_OR l r => plain_syms l ++ plain_syms r
  | E_COMP _ l r => [l; r]
  end.
Definition plain_opt (e : option expr) : list symbol :=
  match e with None => [] | Some e => plain_syms e end.
Definition checked_prop (choice : bool) (p : property) : list symbol :=
  match p_type p with
  | P_CHOICE | P_SELECT | P_IMPLY => []
  | _ => plain_opt (p_visible p) ++
         (if bool_decide (p_type p = P_DEFAULT) && negb choice
          then match p_expr p with PE_expr e => plain_syms e | _ => [] end else [])
  end.
Definition checked_syms (i : nat) : list symbol :=
  let k := k_syms K i in
  plain_opt (k_dir_dep k) ++ plain_opt (k_rev_dep k) ++ plain_opt (k_implied k) ++
  concat (map (checked_prop (k_choice k)) (k_prop k)).

(** [i] depends on [j]. *)
Definition depends (i j : nat) : Prop := Sym j ∈ checked_syms i.
End Check.
