(* ===== verification/KSymCheckProps.v ===== *)
(** * [sym_check_deps] finds the recursive dependencies

    The search returns, reports only symbols on a cycle, and when it reports
    none the dependencies are well founded. *)
From stdpp Require Import sets relations options.
From S2P Require Import Prelude CLib KExpr KSymbol KSymSpec KSymProps KSymCheck.
#[local] Open Scope nat_scope.

Section Search.
Context (K : kconfig) (N : nat).
Context (Hclosed : forall i j, i < N -> depends K i j -> j < N).
Context (Hplain : forall i, k_choice (k_syms K i) = false /\ k_choice_value (k_syms K i) = false).

Lemma and_then_assoc m k l s :
  and_then (and_then m k) l s = and_then m (and_then k l) s.
Proof. unfold and_then. destruct (m s) as [[[y|] s']|]; done. Qed.

Lemma and_then_ext m m' k k' s :
  (forall s, m s = m' s) -> (forall s, k s = k' s) -> and_then m k s = and_then m' k' s.
Proof. intros Hm Hk. unfold and_then. rewrite Hm. destruct (m' s) as [[[y|] s']|]; auto. Qed.

(** The search of a list of symbols. *)
Fixpoint check_each (rec : symbol -> marks -> result) (l : list symbol) (s : marks) : result :=
  match l with
  | [] => Some (None, s)
  | y :: l' => and_then (rec y) (check_each rec l') s
  end.

Section Flatten.
Context (rec : symbol -> marks -> result).

Lemma check_each_app l l' s :
  check_each rec (l ++ l') s = and_then (check_each rec l) (check_each rec l') s.
Proof.
  revert s. induction l as [|y l IH]; intros s; [done|]. simpl.
  rewrite and_then_assoc. by apply and_then_ext.
Qed.

Lemma check_each_one y s : check_each rec [y] s = rec y s.
Proof. simpl. unfold and_then. by destruct (rec y s) as [[[|]]|]. Qed.

Lemma check_expr_each e s : sym_check_expr_deps rec e s = check_each rec (plain_syms e) s.
Proof.
  revert s. induction e as [y|e IH|l IHl r IHr|l IHl r IHr|c l r]; intros s;
    cbn [sym_check_expr_deps plain_syms]; rewrite ?check_each_app, ?check_each_one;
    auto using and_then_ext.
  change (check_each rec [l; r] s) with (and_then (rec l) (check_each rec [r]) s).
  apply and_then_ext; [done|]. intros. by rewrite check_each_one.
Qed.

Lemma check_opt_each e s : check_opt rec e s = check_each rec (plain_opt e) s.
Proof. destruct e; [apply check_expr_each|done]. Qed.

Lemma check_props_each ch l s :
  check_props rec ch l s = check_each rec (concat (map (checked_prop ch) l)) s.
Proof.
  revert s. induction l as [|p l IH]; intros s; [done|]. cbn [check_props map concat].
  unfold checked_prop at 1.
  assert (H : and_then (check_opt rec (p_visible p))
    (fun s => if bool_decide (p_type p = P_DEFAULT) && negb ch
      then match p_expr p with
           | PE_expr e => and_then (sym_check_expr_deps rec e) (check_props rec ch l) s
           | _ => check_props rec ch l s
           end
      else check_props rec ch l s) s =
    check_each rec ((plain_opt (p_visible p) ++
         (if bool_decide (p_type p = P_DEFAULT) && negb ch
          then match p_expr p with PE_expr e => plain_syms e | _ => [] end else [])) ++
       concat (map (checked_prop ch) l)) s).
  { rewrite <- app_assoc, check_each_app. apply and_then_ext; [apply check_opt_each|].
    clear s. intros s. rewrite check_each_app.
    destruct (_ && _); [|by rewrite IH]. destruct (p_expr p); rewrite ?IH; try done.
    apply and_then_ext; [apply check_expr_each|done]. }
  destruct (p_type p); try exact H; by rewrite app_nil_l.
Qed.

Lemma check_sym_each i s : sym_check_sym_deps K rec i s = check_each rec (checked_syms K i) s.
Proof.
  unfold sym_check_sym_deps, checked_syms. rewrite check_each_app.
  apply and_then_ext; [apply check_opt_each|]. clear s. intros s. rewrite check_each_app.
  apply and_then_ext; [apply check_opt_each|]. clear s. intros s. rewrite check_each_app.
  apply and_then_ext; [apply check_opt_each|apply check_props_each].
Qed.

Lemma check_body_plain fatal i s :
  sym_check_deps_body K fatal rec i s =
  if f_check (s i) then Some (Some (Sym i), s)
  else if f_checked (s i) then Some (None, s)
  else match check_each rec (checked_syms K i) (enter i s) with
       | Some (r, s') => Some (report fatal i r, leave i s')
       | None => None
       end.
Proof using Hplain.
  unfold sym_check_deps_body. destruct (Hplain i) as [-> ->].
  rewrite check_sym_each. by destruct (check_each _ _ _) as [[r s']|].
Qed.
End Flatten.

(** ** Termination *)

Definition unchecked (s : marks) : nat :=
  length (List.filter (fun i => negb (f_checked (s i))) (seq 0 N)).

Definition grows (s s' : marks) : Prop :=
  forall i, f_checked (s i) = true -> f_checked (s' i) = true.

#[local] Instance grows_preorder : PreOrder grows.
Proof. split; [by intros s i|intros s1 s2 s3 H1 H2 i Hi; auto]. Qed.

Lemma filter_length_mono {A} (f g : A -> bool) l :
  (forall x, x ∈ l -> f x = true -> g x = true) ->
  length (List.filter f l) <= length (List.filter g l).
Proof.
  induction l as [|x l IH]; intros H; simpl; [lia|].
  specialize (IH ltac:(intros; apply H; [by right|done])).
  destruct (f x) eqn:E; [rewrite (H x); [simpl; lia|left|done]|]. destruct (g x); simpl; lia.
Qed.

Lemma unchecked_grows s s' : grows s s' -> unchecked s' <= unchecked s.
Proof.
  intros H. apply filter_length_mono. intros i _ Hi%negb_true_iff. apply negb_true_iff.
  destruct (f_checked (s i)) eqn:E; [|done]. apply H in E. congruence.
Qed.

Lemma unchecked_enter i s :
  i < N -> f_checked (s i) = false -> unchecked (enter i s) < unchecked s.
Proof.
  intros Hi Hs. unfold unchecked.
  assert (i ∈ seq 0 N) as Hin by (apply elem_of_seq; lia). revert Hin.
  assert (forall l, length (List.filter (fun k => negb (f_checked (enter i s k))) l) <=
                    length (List.filter (fun k => negb (f_checked (s k))) l)) as Hle.
  { intros l. apply filter_length_mono. intros k _. unfold enter, set_mark. by case_decide. }
  induction (seq 0 N) as [|k l IH]; [by intros ?%not_elem_of_nil|].
  simpl. destruct (decide (k = i)) as [->|Hk].
  - intros _. unfold enter at 1, set_mark. rewrite decide_True by done. simpl. rewrite Hs. simpl.
    pose proof (Hle l). lia.
  - intros [->|Hin]%elem_of_cons; [done|]. specialize (IH Hin).
    unfold enter at 1, set_mark at 1. rewrite decide_False by done.
    destruct (negb _); simpl; lia.
Qed.

Lemma grows_enter i s : grows s (enter i s).
Proof. intros k. unfold enter, set_mark. by case_decide. Qed.
Lemma grows_leave i s : grows s (leave i s).
Proof. intros k. unfold leave, set_mark. by case_decide; [subst|]. Qed.

Definition small (y : symbol) : Prop := match y with Sym j => j < N | _ => True end.

Lemma check_each_total rec l s :
  (forall y s', y ∈ l -> grows s s' -> exists r s'', rec y s' = Some (r, s'') /\ grows s' s'') ->
  exists r s', check_each rec l s = Some (r, s') /\ grows s s'.
Proof.
  revert s. induction l as [|y l IH]; intros s H; simpl.
  { exists None, s. split; [done|reflexivity]. }
  destruct (H y s) as (r & s1 & E & Hg); [left|reflexivity|]. unfold and_then. rewrite E.
  destruct r as [k|]; [by exists (Some k), s1|].
  destruct (IH s1) as (r & s2 & E2 & Hg2).
  - intros y' s' Hy' Hs'. apply H; [by right|by etrans].
  - exists r, s2. split; [done|by etrans].
Qed.

Lemma check_deps_total fatal fuel y s :
  small y -> unchecked s < fuel ->
  exists r s', sym_check_deps K fatal fuel y s = Some (r, s') /\ grows s s'.
Proof using Hclosed Hplain.
  revert y s. induction fuel as [|f IH]; intros y s Hy Hf; [lia|].
  destruct y as [| | |i]; try (exists None, s; split; [done|reflexivity]).
  cbn [sym_check_deps]. rewrite check_body_plain.
  destruct (f_check (s i)); [exists (Some (Sym i)), s; split; [done|reflexivity]|].
  destruct (f_checked (s i)) eqn:Ec; [exists None, s; split; [done|reflexivity]|].
  pose proof (unchecked_enter i s Hy Ec) as Hlt.
  destruct (check_each_total (sym_check_deps K fatal f) (checked_syms K i) (enter i s))
    as (r & s' & E & Hg).
  - intros y' s' Hy' Hs'. apply IH.
    + destruct y' as [| | |j]; try done. by apply (Hclosed i).
    + apply unchecked_grows in Hs'. lia.
  - rewrite E. exists (report fatal i r), (leave i s'). split; [done|].
    etrans; [apply grows_enter|]. etrans; [exact Hg|]. apply grows_leave.
Qed.

(** Without [recursive_is_error] a search reports only a symbol it is inside of. *)
Definition reports_inside (s : marks) (r : option symbol) (s' : marks) : Prop :=
  (forall k, f_check (s' k) = f_check (s k)) /\
  forall y, r = Some y -> exists k, y = Sym k /\ f_check (s k) = true.

Lemma check_each_inside (rec : symbol -> marks -> result) l :
  (forall y s r s', rec y s = Some (r, s') -> reports_inside s r s') ->
  forall s r s', check_each rec l s = Some (r, s') -> reports_inside s r s'.
Proof.
  intros Hrec. induction l as [|y l IH]; intros s r s'; simpl; [by intros [= <- <-]|].
  unfold and_then. destruct (rec y s) as [[ry s1]|] eqn:E; [|done]. apply Hrec in E as [Hc Hr].
  destruct ry as [k|]; [by intros [= <- <-]|]. intros [Hc2 Hr2]%IH.
  split; [intros k; by rewrite Hc2|]. intros y0 (k & -> & Hk)%Hr2. exists k. by rewrite <- Hc.
Qed.

Lemma check_deps_inside fuel : forall y s r s',
  sym_check_deps K false fuel y s = Some (r, s') -> reports_inside s r s'.
Proof using Hplain.
  induction fuel as [|f IH]; intros y s r s' E; (destruct y as [| | |i]; try (by simpl in E; simplify_eq)).
  cbn [sym_check_deps] in E. rewrite check_body_plain in E.
  destruct (f_check (s i)) eqn:Ec; [simplify_eq; split; [done|]; intros y [= <-]; by exists i|].
  destruct (f_checked (s i)); [by simplify_eq|].
  destruct (check_each _ _ _) as [[r1 s1]|] eqn:E1; [|done]. simplify_eq.
  apply (check_each_inside _ _ IH) in E1 as [Hc Hr]. split.
  - intros k. unfold leave, set_mark. case_decide; [by subst|]. rewrite Hc. unfold enter, set_mark.
    by rewrite decide_False.
  - intros y. unfold report. cbn [negb andb]. case_bool_decide as Hi; [done|].
    intros Hy. destruct (Hr y Hy) as (k & -> & Hk). assert (k <> i) by congruence. exists k. split; [done|].
    unfold enter, set_mark in Hk. by rewrite decide_False in Hk.
Qed.

Lemma check_all_tolerant fuel l : forall s n s', (forall k, f_check (s k) = false) ->
  check_all K false fuel l s = Some (n, s') -> n = 0.
Proof using Hplain.
  induction l as [|i l IH]; intros s n s' Hs; simpl; [by intros [= <- <-]|].
  destruct (sym_check_deps K false fuel (Sym i) s) as [[r s1]|] eqn:E; [|done].
  apply check_deps_inside in E as [Hc Hr].
  destruct (check_all K false fuel l s1) as [[n1 s2]|] eqn:E2; [|done]. intros [= <- <-].
  apply IH in E2; [|intros k; by rewrite Hc]. rewrite bool_decide_true; [done|].
  destruct r as [y|]; [|done]. destruct (Hr y eq_refl) as (k & _ & Hk). congruence.
Qed.

(** ** What the search finds *)

(** The search has left [i]. *)
Definition black (s : marks) (i : nat) : Prop := f_checked (s i) = true /\ f_check (s i) = false.

(** The symbols the search has left are ranked, and closed under dependencies. *)
Definition ranked (s : marks) (rk : nat -> nat) : Prop :=
  forall i, black s i -> forall j, depends K i j -> black s j /\ rk j < rk i.

Record good (s : marks) : Prop := {
  g_check k : f_check (s k) = true -> f_checked (s k) = true;
  g_ranked : exists rk, ranked s rk }.

(** Every symbol the search is inside of depends on [i]. *)
Definition inside (s : marks) (i : nat) : Prop :=
  forall k, f_check (s k) = true -> tc (depends K) k i.

Record kept (s s' : marks) : Prop := {
  k_check k : f_check (s' k) = f_check (s k);
  k_black k : black s k -> black s' k }.

#[local] Instance kept_preorder : PreOrder kept.
Proof.
  split; [by split|]. intros s1 s2 s3 [A1 B1] [A2 B2]. split; [|auto].
  intros k. by rewrite A2, A1.
Qed.

Lemma inside_kept s s' i : kept s s' -> inside s i -> inside s' i.
Proof. intros [Hc _] H k Hk. apply H. by rewrite <- Hc. Qed.

Definition on_cycle (y : symbol) : Prop := exists k, y = Sym k /\ tc (depends K) k k.

(** The outcome of a search of the symbols [l]. *)
Definition found (s : marks) (l : list symbol) (r : option symbol) (s' : marks) : Prop :=
  match r with
  | None => good s' /\ kept s s' /\ forall j, Sym j ∈ l -> black s' j
  | Some y => on_cycle y
  end.

Lemma check_each_found (rec : symbol -> marks -> result) l s r s' :
  (forall y s r s', y ∈ l -> rec y s = Some (r, s') -> good s ->
     (forall j, y = Sym j -> inside s j) -> found s [y] r s') ->
  good s -> (forall j, Sym j ∈ l -> inside s j) ->
  check_each rec l s = Some (r, s') -> found s l r s'.
Proof.
  intros Hrec. revert s. induction l as [|y l IH]; intros s Hg Hin; simpl.
  { intros [= <- <-]. split_and!; [done|reflexivity|]. by intros j ?%not_elem_of_nil. }
  unfold and_then. destruct (rec y s) as [[ry s1]|] eqn:E; [|done].
  pose proof (Hrec y s ry s1 ltac:(left) E Hg) as Hf.
  specialize (Hf ltac:(intros j ->; apply Hin; left)).
  destruct ry as [k|]; [by intros [= <- <-]|]. destruct Hf as (Hg1 & Hk1 & Hb1). intros E2.
  specialize (IH ltac:(intros; eapply Hrec; eauto; by right) s1 Hg1).
  specialize (IH ltac:(intros j Hj; eapply inside_kept; [done|apply Hin; by right]) E2).
  destruct r as [k|]; [done|]. destruct IH as (Hg2 & Hk2 & Hb2).
  split_and!; [done|by etrans|]. intros j [<-|Hj]%elem_of_cons; [|by apply Hb2].
  apply Hk2, Hb1. left.
Qed.

Lemma enter_good i s : good s -> f_checked (s i) = false -> good (enter i s).
Proof.
  intros [Hc [rk Hr]] Hi.
  assert (forall k, black (enter i s) k <-> black s k) as Hb.
  { intros k. unfold black, enter, set_mark. case_decide; [subst; simpl|done].
    split; intros [? ?]; congruence. }
  split.
  - intros k. unfold enter, set_mark. by case_decide; [|apply Hc].
  - exists rk. intros k Hk%Hb j Hj. rewrite Hb. by apply (Hr k).
Qed.

Lemma enter_inside i s j : inside s i -> depends K i j -> inside (enter i s) j.
Proof.
  intros Hin Hd k. unfold enter, set_mark. case_decide as E.
  - subst k. intros _. by apply tc_once.
  - intros Hk. eapply tc_r; [by apply Hin|done].
Qed.

(** One more than the ranks of the dependencies. *)
Definition rank_above (rk : nat -> nat) (i : nat) : nat :=
  S (foldr (fun y m => match y with Sym j => max (rk j) m | _ => m end) 0 (checked_syms K i)).

Lemma rank_above_lt rk i j : depends K i j -> rk j < rank_above rk i.
Proof.
  unfold depends, rank_above. induction (checked_syms K i) as [|y l IH]; [by intros ?%not_elem_of_nil|].
  intros [<-|Hj]%elem_of_cons; simpl; [lia|]. specialize (IH Hj). destruct y; lia.
Qed.

Lemma leave_good i s s' :
  good s' -> kept (enter i s) s' -> (forall j, depends K i j -> black s' j) ->
  good (leave i s').
Proof.
  intros [Hc [rk Hr]] [Kc Kb] Hd.
  assert (f_check (s' i) = true) as Hi.
  { rewrite Kc. unfold enter, set_mark. by rewrite decide_True. }
  assert (forall k, k <> i -> (black (leave i s') k <-> black s' k)) as Hb.
  { intros k Hk. unfold black, leave, set_mark. by case_decide. }
  assert (forall k, black s' k -> k <> i) as Hne.
  { intros k [_ Hk] ->. congruence. }
  split.
  - intros k. unfold leave, set_mark. case_decide; [done|apply Hc].
  - exists (fun k => if decide (k = i) then rank_above rk i else rk k). intros k Hk j Hj.
    assert (black s' j /\ rk j < (if decide (k = i) then rank_above rk i else rk k)) as [Hbj Hlt].
    { case_decide; [subst; split; [by apply Hd|by apply rank_above_lt]|].
      by apply Hr; [apply Hb|]. }
    split; [by apply Hb; [apply Hne|]|]. by rewrite (decide_False (P := j = i)) by auto.
Qed.

Lemma leave_kept i s s' :
  f_check (s i) = false -> f_checked (s i) = false -> kept (enter i s) s' -> kept s (leave i s').
Proof.
  intros Hci Hdi [Kc Kb]. split.
  - intros k. unfold leave, set_mark. case_decide; [by subst|]. rewrite Kc.
    unfold enter, set_mark. by rewrite decide_False.
  - intros k Hk. assert (k <> i) as Hne by (intros ->; destruct Hk; congruence).
    assert (black s' k) as Hb.
    { apply Kb. unfold black, enter, set_mark. by rewrite decide_False. }
    unfold black, leave, set_mark. by rewrite decide_False.
Qed.

Lemma check_deps_found fuel y s r s' :
  sym_check_deps K true fuel y s = Some (r, s') -> good s ->
  (forall j, y = Sym j -> inside s j) -> found s [y] r s'.
Proof using Hclosed Hplain K N.
  revert y s r s'. induction fuel as [|f IH]; intros y s r s' E Hg Hin;
    (destruct y as [| | |i]; try (by simpl in E; simplify_eq;
      split_and!; [done|reflexivity|set_solver])); [done|].
  cbn [sym_check_deps] in E. rewrite check_body_plain in E.
  specialize (Hin i eq_refl).
  destruct (f_check (s i)) eqn:Ec; [simplify_eq; exists i; auto|].
  destruct (f_checked (s i)) eqn:Ed.
  { simplify_eq. split_and!; [done|reflexivity|]. intros j Hj.
    apply list_elem_of_singleton in Hj. by simplify_eq. }
  destruct (check_each _ _ _) as [[r1 s1]|] eqn:E1; [|done]. cbn [report negb andb] in E. simplify_eq.
  apply check_each_found in E1.
  - destruct r as [y|]; [done|]. destruct E1 as (Hg1 & Hk1 & Hb1). split_and!.
    + by apply (leave_good i s).
    + by apply leave_kept.
    + intros j Hj. apply list_elem_of_singleton in Hj. simplify_eq.
      unfold black, leave, set_mark. rewrite decide_True by done. simpl. split; [|done].
      apply Hg1. rewrite (k_check _ _ Hk1). unfold enter, set_mark. by rewrite decide_True.
  - intros. by eapply IH.
  - by apply enter_good.
  - intros j Hj. by apply enter_inside.
Qed.

Definition unmarked : marks := fun _ => CFlags false false.

Lemma check_all_found l fuel s n s' :
  (forall k, f_check (s k) = false) -> good s ->
  check_all K true fuel l s = Some (n, s') ->
  match n with
  | O => good s' /\ (forall k, f_check (s' k) = false) /\
         (forall k, black s k -> black s' k) /\ forall i, i ∈ l -> black s' i
  | S _ => exists k, tc (depends K) k k
  end.
Proof using Hclosed Hplain K N.
  revert s n. induction l as [|i l IH]; intros s n Hs Hg; simpl.
  { intros [= <- <-]. split_and!; [done..|]. by intros i ?%not_elem_of_nil. }
  destruct (sym_check_deps K true fuel (Sym i) s) as [[r s1]|] eqn:E; [|done].
  apply check_deps_found in E; [|done|].
  2: { intros j _ k Hk. by rewrite Hs in Hk. }
  destruct (check_all K true fuel l s1) as [[n1 s2]|] eqn:E2; [|done].
  destruct r as [y|]; simpl in E.
  - intros [= <- <-]. destruct E as (k & _ & Hk). by exists k.
  - intros [= <- <-]. destruct E as (Hg1 & [Kc Kb] & Hb1).
    apply IH in E2; [|intros k; by rewrite Kc|done]. destruct n1 as [|n1]; [|done].
    destruct E2 as (Hg2 & Hs2 & Hk2 & Hb2). split_and!; [done..|auto|].
    intros j [<-|Hj]%elem_of_cons; [|by apply Hb2]. apply Hk2, Hb1. left.
Qed.

Lemma check_all_total fatal l fuel s :
  (forall i, i ∈ l -> i < N) -> unchecked s < fuel ->
  exists n s', check_all K fatal fuel l s = Some (n, s').
Proof using Hclosed Hplain.
  revert s. induction l as [|i l IH]; intros s Hl Hf; simpl; [by exists 0, s|].
  destruct (check_deps_total fatal fuel (Sym i) s) as (r & s1 & -> & Hg); [apply Hl; left|done|].
  destruct (IH s1) as (n & s2 & ->).
  - intros j Hj. apply Hl. by right.
  - apply unchecked_grows in Hg. lia.
  - by eexists _, _.
Qed.
End Search.

(** C12: The dependency check of [conf_parse] on a configuration of [N] symbols
    without choices returns.  When [recursive_is_error] is set (conf --fatalrecursive),
    it reports an error exactly when some symbol depends on itself through a chain of
    dependencies, and when it reports none there is a rank that decreases along every
    dependency.  When it is not set, which is the default, no configuration is reported
    as an error: a cycle is only printed. *)
Theorem sym_check_deps_correct (K : kconfig) (recursive_is_error : bool) (N : nat) (l : list nat)
    (Hclosed : forall i j, i < N -> depends K i j -> j < N)
    (Hplain : forall i, k_choice (k_syms K i) = false /\ k_choice_value (k_syms K i) = false)
    (Hl : forall i, i ∈ l <-> i < N) :
  exists n s', check_all K recursive_is_error (S N) l unmarked = Some (n, s') /\
    if recursive_is_error
    then (n <> 0 -> exists k, tc (depends K) k k) /\
         (n = 0 -> exists rk, forall i j, i < N -> depends K i j -> rk j < rk i)
    else n = 0.
Proof.
  assert (good K unmarked) as Hg.
  { split; [done|]. exists (fun _ => 0). by intros i [? ?]. }
  destruct (check_all_total K N Hclosed Hplain recursive_is_error l (S N) unmarked) as (n & s' & E).
  - intros i. apply Hl.
  - apply (Nat.le_lt_trans _ N); [|lia]. unfold unchecked.
    etrans; [apply List.filter_length_le|]. by rewrite length_seq.
  - exists n, s'. split; [done|].
    destruct recursive_is_error; [|by apply (check_all_tolerant K Hplain _ _ unmarked _ _ ltac:(done) E)].
    pose proof (check_all_found K N Hclosed Hplain l (S N) unmarked n s' ltac:(done) Hg E) as Hf. split.
    + intros Hn. by destruct n.
    + intros ->. destruct Hf as ([_ [rk Hr]] & _ & _ & Hb). exists rk. intros i j Hi Hj.
      by apply (Hr i); [apply Hb, Hl|].
Qed.

(** A small configuration: A, B depends on A, C depends on B and B = A. *)
Definition chain : kconfig :=
  KConfig (fun i => match i with
    | 1 => Demo.plain (str "B") S_BOOLEAN [Demo.prompt (Some (Demo.the 0))]
    | 2 => SymDesc (str "C") S_BOOLEAN false false false [Demo.prompt None]
             (Some (E_AND (Demo.the 1) (E_COMP E_EQUAL (Sym 1) (Sym 0)))) None None
    | 0 => Demo.plain (str "A") S_BOOLEAN [Demo.prompt None]
    | _ => Demo.plain [] S_UNKNOWN []
    end) symbol_no.

Lemma chain_plain i :
  k_choice (k_syms chain i) = false /\ k_choice_value (k_syms chain i) = false.
Proof. by destruct i as [|[|[|i]]]. Qed.

Lemma chain_closed i j : i < 3 -> depends chain i j -> j < 3.
Proof.
  unfold depends. destruct i as [|[|[|i]]]; try lia; intros _ H; vm_compute in H;
    Demo.cases_in H; simplify_eq; lia.
Qed.

Lemma sym_check_deps_correct_witness :
  exists n s', check_all chain true 4 [2; 0; 1] unmarked = Some (n, s') /\
    (n <> 0 -> exists k, tc (depends chain) k k) /\
    (n = 0 -> exists rk, forall i j, i < 3 -> depends chain i j -> rk j < rk i).
Proof.
  apply (sym_check_deps_correct chain true 3).
  - apply chain_closed.
  - apply chain_plain.
  - intros i. split; intros H; [Demo.cases_in H; lia|].
    destruct i as [|[|[|i]]]; [set_solver..|lia].
Defined.

(** ** The check and the evaluation *)

(** [i] reads no other symbol. *)
Definition leaf (K : kconfig) (i : nat) : bool :=
  forallb (fun y => match y with Sym _ => false | _ => true end) (sym_deps K i).

Section Evaluate.
Context (K : kconfig) (N : nat).

(** What the parser and [menu_finalize] guarantee about each symbol, apart from
    recursion; the bounds of ranges and [modules_sym] are leaves. *)
Record plain_symbol (i : nat) : Prop := {
  pl_choice : k_choice (k_syms K i) = false;
  pl_value : k_choice_value (k_syms K i) = false;
  pl_outside : N <= i -> leaf K i = true;
  pl_text p : p ∈ k_prop (k_syms K i) -> p_text p = true ->
    p_type p <> P_CHOICE /\ p_type p <> P_SELECT /\ p_type p <> P_IMPLY;
  pl_default p l r : p ∈ k_prop (k_syms K i) -> p_type p = P_DEFAULT -> p_expr p <> PE_range l r;
  pl_modules : modules_sym K = Sym i ->
    is_booltri (k_type (k_syms K i)) = true /\ leaf K i = true;
  pl_range p : p ∈ k_prop (k_syms K i) -> p_type p = P_RANGE ->
    exists l r, p_expr p = PE_range l r /\
      forall j, l = Sym j \/ r = Sym j -> leaf K j = true }.

Context (Hpl : forall i, plain_symbol i).
Context (rk : nat -> nat) (Hrk : forall i j, i < N -> depends K i j -> rk j < rk i).

Definition eval_rank (i : nat) : nat := if leaf K i then 0 else S (rk i).

Lemma leaf_deps i j : leaf K i = true -> Sym j ∈ sym_deps K i -> False.
Proof using Type.
  unfold leaf. rewrite forallb_forall. intros H Hj%list_elem_of_In. by specialize (H _ Hj).
Qed.

Lemma modules_leaf j : modules_sym K = Sym j -> leaf K j = true.
Proof using Hpl. intros H. by apply (pl_modules j (Hpl j)). Qed.

Lemma expr_syms_plain e j :
  Sym j ∈ expr_syms K e -> Sym j ∈ plain_syms e \/ leaf K j = true.
Proof using Hpl Hrk K N rk.
  induction e as [y|e IH|l IHl r IHr|l IHl r IHr|c l r]; cbn [expr_syms plain_syms];
    rewrite ?elem_of_app; [by left|done|tauto|tauto|].
  intros [->|[->|H]%elem_of_cons]%elem_of_cons; [set_solver..|]. right.
  destruct (_ || _); [|by apply not_elem_of_nil in H].
  apply list_elem_of_singleton in H. by apply modules_leaf.
Qed.

Lemma opt_syms_plain e j :
  Sym j ∈ opt_syms K e -> Sym j ∈ plain_opt e \/ leaf K j = true.
Proof using Hpl Hrk K N rk. destruct e; [apply expr_syms_plain|]. by intros ?%not_elem_of_nil. Qed.

Lemma prop_syms_checked i p j :
  p ∈ k_prop (k_syms K i) -> Sym j ∈ prop_syms K false p ->
  Sym j ∈ checked_prop false p \/ leaf K j = true.
Proof using Hpl Hrk K N rk.
  intros Hp. unfold prop_syms. rewrite elem_of_app. intros [H|H].
  - assert (p_type p <> P_CHOICE /\ p_type p <> P_SELECT /\ p_type p <> P_IMPLY) as Ht.
    { destruct (p_text p) eqn:Et; [by apply (pl_text i (Hpl i))|]. simpl in H.
      destruct (p_type p); try done; by apply not_elem_of_nil in H. }
    assert (Sym j ∈ opt_syms K (p_visible p)) as Hv.
    { destruct (_ || _); [done|by apply not_elem_of_nil in H]. }
    apply opt_syms_plain in Hv as [Hv|Hv]; [left|by right].
    unfold checked_prop. destruct Ht as (? & ? & ?).
    destruct (p_type p); try done; apply elem_of_app; by left.
  - destruct (decide (p_type p = P_RANGE)) as [Er|Er].
    + right. destruct (pl_range i (Hpl i) p Hp Er) as (l & r & Ee & Hl).
      rewrite Er, Ee in H. simpl in H. apply Hl.
      apply elem_of_cons in H as [->|H]; [by left|]. apply list_elem_of_singleton in H as ->. by right.
    + rewrite (bool_decide_false (p_type p = P_RANGE)) in H by done. simpl in H.
      destruct (decide (p_type p = P_DEFAULT)) as [Ed|Ed].
      * rewrite Ed in H. simpl in H. unfold checked_prop. rewrite Ed. simpl.
        destruct (p_expr p) as [|e| |l r] eqn:Ee; try (by apply not_elem_of_nil in H).
        { apply expr_syms_plain in H as [H|H]; [left|by right]. apply elem_of_app. by right. }
        by destruct (pl_default i (Hpl i) p l r).
      * rewrite bool_decide_false in H by done. by apply not_elem_of_nil in H.
Qed.

Lemma deps_checked i j :
  Sym j ∈ sym_deps K i -> depends K i j \/ leaf K j = true.
Proof using Hpl Hrk K N rk.
  unfold sym_deps, depends, checked_syms.
  rewrite (pl_choice i (Hpl i)), (pl_value i (Hpl i)), !elem_of_app.
  intros [H|[[H|[H|H]]|H]].
  - right. case_decide; [|by apply not_elem_of_nil in H].
    apply list_elem_of_singleton in H. by apply modules_leaf.
  - apply opt_syms_plain in H. tauto.
  - apply opt_syms_plain in H. tauto.
  - apply opt_syms_plain in H. tauto.
  - apply list_elem_of_In, in_concat in H as (l & Hl & Hy).
    apply in_map_iff in Hl as (p & <- & Hp). apply list_elem_of_In in Hp.
    apply list_elem_of_In, (prop_syms_checked i) in Hy as [Hy|Hy]; [left|by right|done].
    do 3 right. apply list_elem_of_In, in_concat. eexists.
    split; [|by apply list_elem_of_In]. apply in_map. by apply list_elem_of_In.
Qed.

Lemma checked_wf : wf_config K eval_rank.
Proof using Hpl Hrk.
  intros i. split.
  - intros y Hy. destruct y as [| | |j]; try done. simpl. unfold eval_rank.
    destruct (leaf K i) eqn:Ei; [by destruct (leaf_deps i j)|].
    destruct (leaf K j) eqn:Ej; [lia|].
    destruct (deps_checked i j Hy) as [H|H]; [|congruence].
    apply (Hrk i j) in H; [lia|].
    destruct (Nat.lt_ge_cases i N) as [|H']; [done|].
    by rewrite (pl_outside i (Hpl i) H') in Ei.
  - by rewrite (pl_choice i (Hpl i)).
  - by rewrite (pl_value i (Hpl i)).
  - intros Em. by apply (pl_modules i (Hpl i)).
  - intros p Hp Ht. destruct (pl_range i (Hpl i) p Hp Ht) as (l & r & He & _).
    exists l, r. split; [done|]. intros c _. apply (pl_choice c (Hpl c)).
  - intros p c _ _ _ _. apply (pl_choice c (Hpl c)).
Qed.
End Evaluate.

(** C15: The dependency check guards the evaluation: when [conf_parse], with
    [recursive_is_error] set (conf --fatalrecursive; the default mode accepts cycles),
    reports no recursive dependency, then (with fuel enough) calculating any symbols in
    any order returns and gives them the values of the one solution of the reference
    semantics.  The configuration has no choices, the bounds of ranges and the modules
    symbol read no other symbol (the check does not follow them), and its properties
    have the form the parser gives them ([plain_symbol]). *)
Theorem checked_configuration_evaluates (K : kconfig) (N : nat) (ids : list nat) (m : marks)
    (s : store) (l : list symbol)
    (Hclosed : forall i j, i < N -> depends K i j -> j < N)
    (Hids : forall i, i ∈ ids <-> i < N)
    (Hpl : forall i, plain_symbol K N i)
    (Hcheck : check_all K true (S N) ids unmarked = Some (0, m))
    (HU : wf_choices K (choices_of s)) (Hq : quiet K s) :
  exists F, forall fuel, F <= fuel ->
    exists a s', solution K (choices_of s) a /\
      (forall b, solution K (choices_of s) b -> forall k, b k = a k) /\
      recalculate K fuel l s = Some (tt, s') /\
      forall k, Sym k ∈ l -> curr (syms s' k) = a k.
Proof.
  assert (exists rk, forall i j, i < N -> depends K i j -> rk j < rk i) as [rk Hrk].
  { pose proof (check_all_found K N Hclosed (fun i => conj (pl_choice K N i (Hpl i))
      (pl_value K N i (Hpl i))) ids (S N) unmarked 0 m ltac:(done)) as H.
    destruct H as ([_ [rk Hr]] & _ & _ & Hb); [|done|].
    - split; [done|]. exists (fun _ => 0). by intros i [? ?].
    - exists rk. intros i j Hi Hj. by apply (Hr i); [apply Hb, Hids|]. }
  pose proof (checked_wf K N Hpl rk Hrk) as Hwf.
  set (rank := eval_rank K rk) in *.
  set (R := S (foldr (fun y n => match y with Sym k => max (rank k) n | _ => n end) 0
              (modules_sym K :: l))).
  exists (S R). intros fuel Hf. apply (eval_correct K rank R fuel s l); [done..| |lia].
  intros k Hk. unfold R. clear R Hf. apply Nat.lt_succ_r.
  induction (modules_sym K :: l) as [|y l' IH]; [by apply not_elem_of_nil in Hk|].
  apply elem_of_cons in Hk as [<-|Hk]; simpl; [lia|]. specialize (IH Hk). destruct y; lia.
Qed.

Lemma chain_symbol i : plain_symbol chain 3 i.
Proof.
  destruct i as [|[|[|i]]]; split; try done; try lia.
  all: try (intros p Hp; simpl in Hp; Demo.cases_in Hp; subst p; done).
  all: intros p l r Hp; simpl in Hp; Demo.cases_in Hp; subst p; done.
Qed.

Definition chain_marks : marks :=
  match check_all chain true 4 [0; 1; 2] unmarked with Some (_, m) => m | None => unmarked end.

Lemma checked_configuration_evaluates_witness :
  exists F, forall fuel, F <= fuel ->
    exists a s', solution chain (choices_of Demo.start) a /\
      (forall b, solution chain (choices_of Demo.start) b -> forall k, b k = a k) /\
      recalculate chain fuel [Sym 2; Sym 1] Demo.start = Some (tt, s') /\
      forall k, Sym k ∈ [Sym 2; Sym 1] -> curr (syms s' k) = a k.
Proof.
  apply (checked_configuration_evaluates chain 3 [0; 1; 2] chain_marks).
  - apply chain_closed.
  - intros i. split; intros H; [Demo.cases_in H; lia|].
    destruct i as [|[|[|i]]]; [set_solver..|lia].
  - apply chain_symbol.
  - reflexivity.
  - intros i. split; [done|]. by rewrite (proj1 (chain_plain i)).
  - split; [done|done|reflexivity].
Defined.

(** A cycle is reported: A depends on B, B depends on A. *)
Example cycle_reported :
  let K := KConfig (fun i => match i with
    | 0 => Demo.plain (str "A") S_BOOLEAN [Demo.prompt (Some (Demo.the 1))]
    | 1 => Demo.plain (str "B") S_BOOLEAN [Demo.prompt (Some (Demo.the 0))]
    | _ => Demo.plain [] S_UNKNOWN []
    end) symbol_no in
  fst <$> sym_check_deps K true 3 (Sym 0) unmarked = Some (Some (Sym 0)) /\
  fst <$> sym_check_deps K false 3 (Sym 0) unmarked = Some None.
Proof. split; reflexivity. Qed.
