(* ===== verification/KConf.v ===== *)
(** * Configuration files: scripts/config/confdata.c and the symbol table

    [sym_lookup] and [sym_find] on the hash table of symbol.c, the reader of
    .config ([conf_read_simple] for S_DEF_USER) and its writer ([conf_write],
    with the walk over the menus).  A file is a list of bytes.  [sym_find] is an
    argument of the reader; [sym_find_normal] gives what is asked of it for the
    hash table.  Warnings and messages are not modelled. *)
From stdpp Require Import options.
From S2P Require Import Prelude CLib KExpr KSymbol KSymOps.
#[local] Open Scope ksym_scope.

(** ** The symbol table *)

Definition SYMBOL_CONST : Z := 0x0001.
Definition SYMBOL_CHOICE : Z := 0x0010.
Definition SYMBOL_HASHSIZE : Z := 9973.

(** [*s] is a signed char, converted to unsigned. *)
Definition char_u32 (c : Z) : Z := u32 (if c <? 128 then c else c - 256).
Definition strhash (s : cstr) : Z :=
  fold_left (fun hash c => u32 (Z.lxor hash (char_u32 c) * 0x01000193)) s 2166136261.

(** A [struct symbol] in its bucket: name, flags, and the symbol it is. *)
Record entry := Entry { e_name : option cstr; e_flags : Z; e_sym : nat }.
Record table := Table { symbol_hash : Z -> list entry; next_sym : nat }.

Definition bucket (name : cstr) : Z := strhash name mod SYMBOL_HASHSIZE.

Definition const_symbol (name : cstr) : option symbol :=
  match name with
  | [c] => if c =? 121 then Some symbol_yes
           else if c =? 109 then Some symbol_mod
           else if c =? 110 then Some symbol_no else None
  | _ => None
  end.

Definition same_name (name : cstr) (x : entry) : bool := bool_decide (e_name x = Some name).
Definition has_flags (flags : Z) (x : entry) : bool :=
  if flags =? 0 then Z.land (e_flags x) (Z.lor SYMBOL_CONST SYMBOL_CHOICE) =? 0
  else negb (Z.land (e_flags x) flags =? 0).

Definition insert_entry (h : Z) (x : entry) (t : table) : table :=
  Table (fun k => if k =? h then x :: symbol_hash t k else symbol_hash t k) (S (next_sym t)).

Definition sym_lookup (name : option cstr) (flags : Z) (t : table) : symbol * table :=
  match name with
  | Some n =>
      match const_symbol n with
      | Some y => (y, t)
      | None =>
          match List.find (fun x => same_name n x && has_flags flags x)
                  (symbol_hash t (bucket n)) with
          | Some x => (Sym (e_sym x), t)
          | None => (Sym (next_sym t), insert_entry (bucket n) (Entry name flags (next_sym t)) t)
          end
      end
  | None => (Sym (next_sym t), insert_entry 0 (Entry None flags (next_sym t)) t)
  end.

Definition sym_find (t : table) (name : cstr) : option symbol :=
  match const_symbol name with
  | Some y => Some y
  | None =>
      (fun x => Sym (e_sym x)) <$>
        List.find (fun x => same_name name x && (Z.land (e_flags x) SYMBOL_CONST =? 0))
          (symbol_hash t (bucket name))
  end.

(** ** Strings in files *)

(** [sym_escape_string_value]; [res] has [escaped_size] bytes. *)
Definition special (c : Z) : bool := (c =? 34) || (c =? 92).
Fixpoint escape (s : cstr) : cstr :=
  match s with
  | [] => []
  | c :: s' => if special c then 92 :: c :: escape s' else c :: escape s'
  end.
Definition sym_escape_string_value (s : cstr) : cstr := 34 :: escape s ++ [34].
Definition escaped_size (s : cstr) : nat := length s + 2 + 1 + length (List.filter special s).

(** The loop of [conf_set_sym_val] after the opening quote: [None] when there is
    no closing quote.  A backslash at the end of the string leaves the scan on
    the byte behind it, where [memmove] has left a copy of the terminator. *)
Fixpoint unescape (s : cstr) : option cstr :=
  match s with
  | [] => None
  | c :: s' =>
      if c =? 34 then Some []
      else if c =? 92
      then match s' with
           | [] => None
           | d :: s'' => option_map (cons d) (unescape s'')
           end
      else option_map (cons c) (unescape s')
  end.

(** ** Reading *)

Definition file := list Z.

(** The lines of a file as [compat_getline] returns them, newline included. *)
Fixpoint getlines (acc : cstr) (f : file) : list cstr :=
  match f with
  | [] => match acc with [] => [] | _ => [acc] end
  | c :: f' => if c =? 10 then (acc ++ [c]) :: getlines [] f' else getlines (acc ++ [c]) f'
  end.

(** [strncmp(s, p, strlen(p)) == 0]: what follows the prefix. *)
Fixpoint strip_prefix (p s : cstr) : option cstr :=
  match p, s with
  | [], _ => Some s
  | c :: p', d :: s' => if c =? d then strip_prefix p' s' else None
  | _ :: _, [] => None
  end.

(** [p2 = strchr(p, '\n')], cut there and drop a carriage return before it. *)
Definition chomp (p : cstr) : cstr :=
  match str_split 10 p with
  | Some (v, _) => match last v with
                   | Some 13 => removelast v
                   | _ => v
                   end
  | None => p
  end.

Section Conf.
Context (K : kconfig) (calc : symbol -> M unit).
Context (CONFIG_ : cstr) (find : cstr -> option symbol).

Definition set_def_tri (i : nat) (t : tristate) : M unit :=
  upd i (fun x => set_def_user true (set_user (SV t (sv_val (user x))) x)).
Definition set_def_val (i : nat) (v : cstr) : M unit :=
  upd i (fun x => set_def_user true (set_user (SV (sv_tri (user x)) (V_STR v)) x)).

(** [true]: the value is refused. *)
Definition conf_set_sym_val (i : nat) (p : cstr) : M bool :=
  let ty := k_type (k_syms K i) in
  let number p := if sym_string_valid ty p then set_def_val i p ;; ret false else ret true in
  let boolean :=
    match p with
    | 121 :: _ => set_def_tri i yes ;; ret false
    | 110 :: _ => set_def_tri i no ;; ret false
    | _ => ret true
    end in
  match ty with
  | S_TRISTATE => match p with 109 :: _ => set_def_tri i mod_ ;; ret false | _ => boolean end
  | S_BOOLEAN => boolean
  | S_STRING =>
      match p with
      | 34 :: p' => match unescape p' with Some v => number v | None => ret true end
      | _ => ret false
      end
  | S_INT | S_HEX => number p
  | S_UNKNOWN => ret false
  end.

Definition conf_reset : M unit := fun s =>
  Some (tt, Store (fun i => let x := syms s i in
                            set_user (SV no V_NULL)
                              (set_valid false (set_def_user (k_choice (k_syms K i)) x)))
              (modules_val s) (conf_changed s)).

(** What a line does to the choice its symbol belongs to. *)
Definition update_choice (i : nat) : M unit :=
  if k_choice_value (k_syms K i)
  then
    let* cs := choice_symbol K i in
    match cs with
    | Some (Sym c) =>
        let* x := get i in
        let t := sv_tri (user x) in
        match t with
        | no => ret tt
        | mod_ =>
            let* y := get c in
            when (is_yes (sv_tri (user y))) (upd c (set_def_user false))
        | yes => upd c (fun y => set_user (SV (sv_tri (user y)) (V_SYM (Sym i))) y)
        end ;;
        upd c (fun y => set_user (SV (EXPR_OR (sv_tri (user y)) t) (sv_val (user y))) y)
    | _ => fail
    end
  else ret tt.

Definition not_set : cstr := str "is not set".

(** ["# CONFIG_NAME is not set"] *)
Definition read_comment (line : cstr) : M unit :=
  match strip_prefix CONFIG_ (drop 2 line) with
  | None => ret tt
  | Some r =>
      match str_split 32 r with
      | None => ret tt
      | Some (name, p) =>
          match strip_prefix not_set p with
          | None => ret tt
          | Some _ =>
              match find name with
              | None => conf_set_changed true
              | Some (Sym i) =>
                  when (match k_type (k_syms K i) with
                        | S_BOOLEAN | S_TRISTATE => true | _ => false end)
                    (set_def_tri i no) ;;
                  update_choice i
              | Some _ => ret tt
              end
          end
      end
  end.

(** ["CONFIG_NAME=value"] *)
Definition read_value (r : cstr) : M unit :=
  match str_split 61 r with
  | None => ret tt
  | Some (name, p) =>
      match find name with
      | None => conf_set_changed true
      | Some (Sym i) =>
          let* bad := conf_set_sym_val i (chomp p) in
          if bad then ret tt else update_choice i
      | Some _ => ret tt
      end
  end.

(** A last line that is a lone ["#"] is compared at [line + 2], behind its
    terminator. *)
Definition read_line (line : cstr) : M unit :=
  match line with
  | [35] => fail
  | 35 :: _ => read_comment line
  | _ => match strip_prefix CONFIG_ line with
         | Some r => read_value r
         | None => ret tt
         end
  end.

Definition conf_read_simple (f : file) : M unit :=
  conf_reset ;; for_each (getlines [] f) read_line.

(** ** Writing *)

Definition kconfig_print_symbol (i : nat) (value : cstr) : file :=
  let k := k_syms K i in
  match k_type k, value with
  | (S_BOOLEAN | S_TRISTATE), 110 :: _ =>
      str "# " ++ CONFIG_ ++ k_name k ++ str " is not set" ++ [10]
  | _, _ => CONFIG_ ++ k_name k ++ [61] ++ value ++ [10]
  end.

(** [kconfig_print_comment]: ["#"] before each line of the text. *)
Fixpoint comment_lines (start : bool) (s : cstr) : file :=
  (if start then [35] else []) ++
  match s with
  | [] => [10]
  | c :: s' =>
      if c =? 10 then 10 :: comment_lines true s'
      else (if start then [32] else []) ++ c :: comment_lines false s'
  end.
Definition kconfig_print_comment (s : cstr) : file := comment_lines true s.

Definition conf_write_symbol (i : nat) : M file :=
  match k_type (k_syms K i) with
  | S_UNKNOWN => ret []
  | S_STRING =>
      let* v := sym_get_string_value K calc (Sym i) in
      ret (kconfig_print_symbol i (sym_escape_string_value v))
  | _ =>
      let* v := sym_get_string_value K calc (Sym i) in
      ret (kconfig_print_symbol i v)
  end.

(** [struct menu]: the symbol, the prompt with its condition, the visibility
    condition, and the entries below. *)
Inductive menu :=
| Menu (m_sym : option nat) (m_prompt : option (cstr * option expr))
       (m_visibility : option expr) (m_list : list menu).

(** [menu_is_visible] on an entry without a symbol. *)
Definition menu_visible (prompt : option (cstr * option expr)) (vis : option expr) : M bool :=
  match prompt with
  | None => ret false
  | Some (_, e) =>
      let* ok := match vis with
                 | None => ret true
                 | Some _ => let* t := expr_calc_value K calc vis in ret (negb (is_no t))
                 end in
      if ok then let* t := expr_calc_value K calc e in ret (negb (is_no t)) else ret false
  end.
Definition prompt_text (prompt : option (cstr * option expr)) : cstr :=
  match prompt with Some (t, _) => t | None => [] end.

(** The output, whether a blank line is due, and SYMBOL_WRITTEN. *)
Record wstate := WState { w_out : file; need_newline : bool; written : nat -> bool }.
Definition emit (o : file) (nl : bool) (w : wstate) : wstate :=
  WState (w_out w ++ o) nl (written w).

(** The part of the loop of [conf_write] before [next:]. *)
Definition write_entry (sym : option nat) (prompt : option (cstr * option expr))
    (vis : option expr) (w : wstate) : M wstate :=
  match sym with
  | None =>
      let* v := menu_visible prompt vis in
      ret (if v then emit ([10; 35; 10; 35; 32] ++ prompt_text prompt ++ [10; 35; 10]) false w
           else w)
  | Some i =>
      if k_choice (k_syms K i) || written w i then ret w
      else
        calc (Sym i) ;;
        let* x := get i in
        if f_write x
        then
          let w := if need_newline w then emit [10] false w else w in
          let* o := conf_write_symbol i in
          ret (WState (w_out w ++ o) (need_newline w)
                 (fun k => if decide (k = i) then true else written w k))
        else ret w
  end.

(** The walk; ["# end of"] is printed when the walk leaves an entry that has
    entries below it. *)
Fixpoint write_menu (m : menu) (w : wstate) : M wstate :=
  match m with
  | Menu sym prompt vis l =>
      let* w := write_entry sym prompt vis w in
      match l with
      | [] => ret w
      | _ =>
          let* w := (fix walk (l : list menu) (w : wstate) : M wstate :=
                       match l with
                       | [] => ret w
                       | m :: l' => let* w := write_menu m w in walk l' w
                       end) l w in
          match sym with
          | Some _ => ret w
          | None =>
              let* v := menu_visible prompt vis in
              ret (if v then emit (str "# end of " ++ prompt_text prompt ++ [10]) true w else w)
          end
      end
  end.

Fixpoint write_menus (l : list menu) (w : wstate) : M wstate :=
  match l with
  | [] => ret w
  | m :: l' => let* w := write_menu m w in write_menus l' w
  end.

Definition heading (title : cstr) : file :=
  kconfig_print_comment
    (take 255 ([10] ++ str "Automatically generated file; DO NOT EDIT." ++ [10] ++ title ++ [10])).

(** [conf_write]: the contents of the file; [rootmenu]'s title and entries. *)
Definition conf_write (title : cstr) (l : list menu) : M file :=
  fun s =>
    (when (negb (conf_changed s)) (sym_clear_all_valid K calc) ;;
     let* w := write_menus l (WState (heading title) false (fun _ => false)) in
     conf_set_changed false ;;
     ret (w_out w)) s.
End Conf.
