(* ===== verification/KConfRead.v ===== *)
(** * Reading back a configuration file

    [read_lines_wp]: the reader run over the lines of saved symbols, with lines
    it skips between them, sets the user values of exactly these symbols. *)

From stdpp Require Import sets options.
From S2P Require Import Prelude CLib KExpr KSymbol KSymOps KSymSpec KSymCalc KConf.
#[local] Open Scope ksym_scope.

(** ** Strings *)

Lemma unescape_escape s r : unescape (escape s ++ 34 :: r) = Some s.
Proof.
  induction s as [|c s IH]; [done|]. cbn [escape]. unfold special.
  destruct (Z.eqb_spec c 34) as [->|H1]; simpl.
  - by rewrite IH.
  - destruct (Z.eqb_spec c 92) as [->|H2]; simpl.
    + by rewrite IH.
    + rewrite (proj2 (Z.eqb_neq c 34)), (proj2 (Z.eqb_neq c 92)) by done. by rewrite IH.
Qed.

Lemma escaped_size_exact s : (length (sym_escape_string_value s) + 1 = escaped_size s)%nat.
Proof.
  assert (length (escape s) = length s + length (List.filter special s))%nat as H.
  { induction s as [|c s IH]; [done|]. simpl. destruct (special c); simpl; lia. }
  unfold sym_escape_string_value, escaped_size. slen.
Qed.

(** ** Lines *)

Definition is_line (l : cstr) : Prop := exists b, l = b ++ [10] /\ 10 ∉ b.

Lemma getlines_line acc b f : 10 ∉ b -> getlines acc (b ++ 10 :: f) = (acc ++ b ++ [10]) :: getlines [] f.
Proof.
  revert acc. induction b as [|c b IH]; intros acc Hb; simpl.
  - done.
  - rewrite (proj2 (Z.eqb_neq c 10)) by set_solver. rewrite IH by set_solver. by rewrite <- app_assoc.
Qed.

Lemma getlines_concat ls : Forall is_line ls -> getlines [] (concat ls) = ls.
Proof.
  induction 1 as [|l ls (b & -> & Hb) _ IH]; [done|]. cbn [concat].
  rewrite <- app_assoc. simpl. rewrite getlines_line by done. by rewrite IH.
Qed.

Lemma strip_prefix_app p s : strip_prefix p (p ++ s) = Some s.
Proof. induction p as [|c p IH]; simpl; [done|]. by rewrite Z.eqb_refl. Qed.

Lemma str_split_at c a b : c ∉ a -> str_split c (a ++ c :: b) = Some (a, b).
Proof. intros H. apply str_split_app, Forall_forall. by intros x Hx ->. Qed.

Lemma chomp_line v : 10 ∉ v -> last v <> Some 13 -> chomp (v ++ [10]) = v.
Proof.
  intros H1 H2. unfold chomp. rewrite str_split_at by done.
  destruct (last v) as [z|]; [|done]. destruct (Z.eqb_spec z 13) as [->|Hz]; [done|].
  destruct z as [|p|p]; try done. repeat (destruct p as [p|p|]; try done).
Qed.

Lemma is_line_app a l : 10 ∉ a -> is_line l -> is_line (a ++ l).
Proof. intros Ha (b & -> & Hb). exists (a ++ b). rewrite <- app_assoc. split; [done|set_solver]. Qed.

Lemma is_line_end a : 10 ∉ a -> is_line (a ++ [10]).
Proof. intros Ha. by exists a. Qed.

Lemma is_line_newline : is_line [10].
Proof. apply (is_line_end []). apply not_elem_of_nil. Qed.

Lemma is_line_hash : is_line [35; 10].
Proof. apply (is_line_end [35]). set_solver. Qed.

(** ** The prefix [CONFIG_] *)

Definition CONFIG : cstr := str "CONFIG_".

Definition plain_char (c : Z) : Prop := c <> 10 /\ c <> 32 /\ c <> 61.

Section Lines.
Context (K : kconfig) (find : cstr -> option symbol).

(** Lines the reader skips. *)
Definition skipped (l : cstr) : Prop :=
  forall s, read_line K CONFIG find l s = Some (tt, s).

Lemma skipped_newline : skipped [10].
Proof. intros s. done. Qed.

Lemma skipped_hash : skipped [35; 10].
Proof. intros s. done. Qed.

Lemma skipped_comment t :
  strip_prefix CONFIG (t ++ [10]) = None -> skipped (35 :: 32 :: t ++ [10]).
Proof.
  intros H s. unfold read_line, read_comment. cbn [drop]. by rewrite drop_0, H.
Qed.

Lemma skipped_end_of t : skipped (str "# end of " ++ t ++ [10]).
Proof. intros s. done. Qed.

(** The line of a symbol that is not set. *)
Lemma read_not_set i :
  Forall plain_char (k_name (k_syms K i)) -> find (k_name (k_syms K i)) = Some (Sym i) ->
  read_line K CONFIG find
    (str "# " ++ CONFIG ++ k_name (k_syms K i) ++ str " is not set" ++ [10]) =
  (when (is_booltri (k_type (k_syms K i))) (set_def_tri i no) ;; update_choice K i).
Proof.
  intros Hn Hf. set (rest := str "is not set" ++ [10]).
  change (str "# " ++ CONFIG ++ k_name (k_syms K i) ++ str " is not set" ++ [10])
    with (35 :: 32 :: CONFIG ++ k_name (k_syms K i) ++ 32 :: rest).
  unfold read_line, read_comment. cbn [drop]. rewrite drop_0, strip_prefix_app, str_split_at.
  - unfold rest, not_set. rewrite strip_prefix_app, Hf. by destruct (k_type (k_syms K i)).
  - intros H. rewrite Forall_forall in Hn. apply Hn in H as (_ & H & _). done.
Qed.

(** The line of a symbol with a value. *)
Lemma read_set i v :
  Forall plain_char (k_name (k_syms K i)) -> find (k_name (k_syms K i)) = Some (Sym i) ->
  10 ∉ v -> last v <> Some 13 ->
  read_line K CONFIG find (CONFIG ++ k_name (k_syms K i) ++ [61] ++ v ++ [10]) =
  (let* bad := conf_set_sym_val K i v in if bad then ret tt else update_choice K i).
Proof.
  intros Hn Hf H10 H13.
  change (CONFIG ++ k_name (k_syms K i) ++ [61] ++ v ++ [10])
    with (67 :: drop 1 CONFIG ++ k_name (k_syms K i) ++ 61 :: v ++ [10]).
  unfold read_line.
  change (67 :: drop 1 CONFIG ++ k_name (k_syms K i) ++ 61 :: v ++ [10])
    with (CONFIG ++ k_name (k_syms K i) ++ 61 :: v ++ [10]).
  rewrite strip_prefix_app. unfold read_value. rewrite str_split_at, Hf.
  - by rewrite chomp_line.
  - intros H. rewrite Forall_forall in Hn. apply Hn in H as (_ & _ & H). done.
Qed.
End Lines.

(** ** What a symbol is saved as *)

Section Saved.
Context (K : kconfig) (s : store).

Definition modules_curr : tristate :=
  sv_tri (match modules_sym K with Sym k => curr (syms s k) | y => const_curr y end).

(** A module is shown as [no] while modules are disabled. *)
Definition shown (i : nat) : tristate :=
  let t := sv_tri (curr (syms s i)) in
  if is_mod t && is_no modules_curr then no else t.

Definition text (i : nat) : cstr :=
  if is_booltri (k_type (k_syms K i)) then tri_string (shown i)
  else default [] (val_str (sv_val (curr (syms s i)))).

Definition saved (i : nat) : symbol_value :=
  if is_booltri (k_type (k_syms K i)) then SV (shown i) V_NULL else SV no (V_STR (text i)).

Definition sym_text (i : nat) : cstr :=
  if decide (k_type (k_syms K i) = S_STRING) then sym_escape_string_value (text i) else text i.

Definition sym_line (i : nat) : cstr := kconfig_print_symbol K CONFIG i (sym_text i).

(** A symbol whose value can be saved: a boolean is not a module, strings stay on
    a line, numbers are numbers. *)
Record saveable (i : nat) : Prop := {
  sa_name : Forall plain_char (k_name (k_syms K i));
  sa_choice : k_choice_value (k_syms K i) = true ->
    exists c, choice_of K i = Some (Sym c) /\ k_choice (k_syms K c) = true;
  sa_bool : k_type (k_syms K i) = S_BOOLEAN -> shown i <> mod_;
  sa_value : is_booltri (k_type (k_syms K i)) = false ->
    exists v, sv_val (curr (syms s i)) = V_STR v /\ 10 ∉ v;
  sa_number : is_booltri (k_type (k_syms K i)) = false ->
    sym_string_valid (k_type (k_syms K i)) (text i) = true }.
End Saved.

Definition digit_or_sign (c : Z) : Prop := c <> 10 /\ c <> 13.

Lemma xdigit_plain c : isxdigit c = true -> digit_or_sign c.
Proof. unfold isxdigit, isdigit, digit_or_sign. intros H. split; intros ->; discriminate. Qed.

Lemma digit_plain c : isdigit c = true -> digit_or_sign c.
Proof. unfold isdigit, digit_or_sign. intros H. split; intros ->; discriminate. Qed.

Lemma valid_number_plain ty v :
  is_booltri ty = false -> ty <> S_STRING -> sym_string_valid ty v = true -> Forall digit_or_sign v.
Proof.
  assert (forall p l, (forall c, p c = true -> digit_or_sign c) -> forallb p l = true ->
    Forall digit_or_sign l) as Hall.
  { intros p l Hp Hl. rewrite forallb_forall in Hl. apply Forall_forall. intros c Hc.
    by apply Hp, Hl, list_elem_of_In. }
  intros Hb Hs Hv. destruct ty; try done; simpl in Hv.
  - destruct v as [|c v]; [done|].
    destruct (Z.eqb_spec c 45) as [->|Hc].
    + destruct v as [|d v]; [done|]. apply andb_prop in Hv as [Hd Hv]. apply andb_prop in Hd as [Hd _].
      repeat constructor; [done|done|by apply digit_plain|by apply digit_plain|].
      by apply (Hall isdigit); [apply digit_plain|].
    + apply andb_prop in Hv as [Hd Hv]. apply andb_prop in Hd as [Hd _].
      constructor; [by apply digit_plain|]. by apply (Hall isdigit); [apply digit_plain|].
  - apply andb_prop in Hv as [_ Hv].
    destruct v as [|c [|x v]]; [constructor|by apply (Hall isxdigit); [apply xdigit_plain|]|].
    destruct ((c =? 48) && ((x =? 120) || (x =? 88))) eqn:Hx.
    + apply andb_prop in Hx as [Hc Hx]. constructor; [|constructor].
      * unfold digit_or_sign. lia.
      * apply orb_prop in Hx. unfold digit_or_sign. lia.
      * by apply (Hall isxdigit); [apply xdigit_plain|].
    + by apply (Hall isxdigit); [apply xdigit_plain|].
Qed.

Lemma last_not_cr v : Forall digit_or_sign v -> last v <> Some 13.
Proof.
  intros H E. apply last_Some_elem_of in E. rewrite Forall_forall in H. by apply H in E as [_ E].
Qed.

Lemma escape_plain v : 10 ∉ v -> 10 ∉ escape v.
Proof.
  induction v as [|c v IH]; [done|]. intros H. simpl. unfold special.
  destruct ((c =? 34) || (c =? 92)) eqn:?; set_solver by lia.
Qed.

(** ** Files *)
#[local] Open Scope ksym_scope.

Section Read.
Context (K : kconfig) (find : cstr -> option symbol) (s : store).
#[local] Notation saved := (saved K s).
#[local] Notation sym_line := (sym_line K s).
#[local] Notation saveable := (saveable K s).

(** The line of a saved symbol ends at its newline. *)
Lemma text_plain i : saveable i -> 10 ∉ text K s i.
Proof.
  intros Hi. unfold text. destruct (is_booltri _) eqn:Hb.
  - destruct (shown K s i); by vm_compute; set_solver.
  - destruct (sa_value K s i Hi Hb) as (v & -> & Hv). done.
Qed.

Lemma sym_text_line i :
  saveable i -> k_type (k_syms K i) <> S_UNKNOWN ->
  10 ∉ sym_text K s i /\ last (sym_text K s i) <> Some 13.
Proof.
  intros Hi Hu. unfold sym_text. pose proof (text_plain i Hi) as Hp. case_decide as Hs.
  - split.
    + unfold sym_escape_string_value. pose proof (escape_plain _ Hp). set_solver by lia.
    + unfold sym_escape_string_value. rewrite app_comm_cons, last_snoc. congruence.
  - split; [done|]. unfold text in *. destruct (is_booltri _) eqn:Hb.
    + by destruct (shown K s i).
    + apply last_not_cr, (valid_number_plain (k_type (k_syms K i))); [done..|].
      pose proof (sa_number K s i Hi Hb) as Hn. unfold text in Hn. by rewrite Hb in Hn.
Qed.

(** What the line of [i] sets. *)
Definition set_from_line (i : nat) (f : symstate -> symstate) : Prop :=
  forall x, user x = SV no V_NULL ->
    f_def_user (f x) = true /\ user (f x) = saved i.

Ltac solve_set := eexists; split; [reflexivity|]; intros x Hx; simpl; by rewrite ?Hx.

Lemma set_val_line i r :
  saveable i -> k_type (k_syms K i) <> S_UNKNOWN ->
  (is_booltri (k_type (k_syms K i)) = true -> shown K s i <> no) ->
  exists f, conf_set_sym_val K i (sym_text K s i) r = Some (false, updated i f r) /\
            set_from_line i f.
Proof.
  intros Hi Hu Hno. unfold conf_set_sym_val, sym_text, set_from_line, saved.
  pose proof (sa_number K s i Hi) as Hnum. pose proof (sa_bool K s i Hi) as Hbool. unfold text in *.
  destruct (k_type (k_syms K i)) eqn:Ht; try done; cbn [is_booltri] in *.
  3,4: rewrite decide_False, Hnum by done; solve_set.
  3: rewrite decide_True by done; unfold sym_escape_string_value; rewrite unescape_escape, Hnum by done;
     solve_set.
  all: rewrite decide_False by done; destruct (shown K s i) eqn:Hsh;
    try (by destruct Hno); try (by destruct Hbool);
    solve_set.
Qed.

(** Reading the line of [i] sets its user value, then looks at its choice. *)
Lemma read_sym_line i r :
  saveable i -> find (k_name (k_syms K i)) = Some (Sym i) -> k_type (k_syms K i) <> S_UNKNOWN ->
  exists f, read_line K CONFIG find (sym_line i) r = update_choice K i (updated i f r) /\
            set_from_line i f.
Proof.
  intros Hi Hf Hu. pose proof (sa_name K s i Hi) as Hn.
  destruct (decide (is_booltri (k_type (k_syms K i)) = true /\ shown K s i = no)) as [[Hb Hs]|Hno].
  - exists (fun x => set_def_user true (set_user (SV no (sv_val (user x))) x)). split.
    + assert (sym_line i = str "# " ++ CONFIG ++ k_name (k_syms K i) ++ str " is not set" ++ [10]) as ->.
      { unfold KConfRead.sym_line, kconfig_print_symbol, sym_text, text. rewrite Hb, Hs.
        by destruct (k_type (k_syms K i)). }
      rewrite read_not_set, Hb by done. done.
    + intros x Hx. unfold saved. rewrite Hb, Hs. simpl. by rewrite Hx.
  - destruct (sym_text_line i Hi Hu) as [H10 H13].
    destruct (set_val_line i r Hi Hu) as (f & Hrun & Hset); [tauto|].
    exists f. split; [|done].
    assert (sym_line i = CONFIG ++ k_name (k_syms K i) ++ [61] ++ sym_text K s i ++ [10]) as ->.
    { unfold KConfRead.sym_line, kconfig_print_symbol, sym_text, text in *.
      destruct (k_type (k_syms K i)) eqn:Ht; try done; cbn [is_booltri] in *;
        rewrite decide_False by done; by destruct (shown K s i) eqn:Hs; [destruct Hno|..]. }
    rewrite read_set by done. unfold bind at 1. by rewrite Hrun.
Qed.

(** ** The state while the file is read *)

(** A saved [y] of a member of the choice [c]. *)
Definition votes (d : list nat) (c j : nat) : Prop :=
  j ∈ d /\ choice_of K j = Some (Sym c) /\ sv_tri (saved j) = yes.

(** The symbols of [d] have been read into [r]. *)
Record loaded (d : list nat) (r : store) : Prop := {
  lo_in i : k_choice (k_syms K i) = false -> i ∈ d ->
    f_def_user (syms r i) = true /\ user (syms r i) = saved i;
  lo_out i : k_choice (k_syms K i) = false -> i ∉ d ->
    f_def_user (syms r i) = false /\ user (syms r i) = SV no V_NULL;
  lo_choice c j : k_choice (k_syms K c) = true -> votes d c j ->
    exists j', user (syms r c) = SV yes (V_SYM (Sym j')) /\ votes d c j' }.

Lemma loaded_elem d d' r : (forall x, x ∈ d <-> x ∈ d') -> loaded d r -> loaded d' r.
Proof.
  intros Hd Hl. split.
  - intros i Hc Hi. apply (lo_in _ _ Hl); [done|by apply Hd].
  - intros i Hc Hi. apply (lo_out _ _ Hl); [done|by rewrite Hd].
  - intros c j Hc (Hj & Hv). destruct (lo_choice _ _ Hl c j) as (j' & ? & ? & ?).
    + done.
    + split; [by apply Hd|done].
    + exists j'. split; [done|]. split; [by apply Hd|done].
Qed.

Lemma loaded_reset r : exists r', conf_reset K r = Some (tt, r') /\ loaded [] r'.
Proof.
  eexists. split; [reflexivity|]. split.
  - intros i _ Hi. by apply not_elem_of_nil in Hi.
  - intros i Hc _. by rewrite <- Hc.
  - intros c j _ (Hj & _). by apply not_elem_of_nil in Hj.
Qed.

(** [loaded] up to the choice of [i]. *)
Lemma loaded_set d r i f :
  set_from_line i f -> k_choice (k_syms K i) = false -> i ∉ d -> loaded d r ->
  (forall k, k_choice (k_syms K k) = false -> k ∈ i :: d ->
    f_def_user (syms (updated i f r) k) = true /\ user (syms (updated i f r) k) = saved k) /\
  (forall k, k_choice (k_syms K k) = false -> k ∉ i :: d ->
    f_def_user (syms (updated i f r) k) = false /\ user (syms (updated i f r) k) = SV no V_NULL) /\
  (forall c, k_choice (k_syms K c) = true -> syms (updated i f r) c = syms r c).
Proof.
  intros Hf Hc Hi Hl. destruct (lo_out _ _ Hl i Hc Hi) as [_ Hu]. split_and!.
  - intros k Hk Hin. simpl. case_decide as E; [subst; by apply Hf|].
    apply (lo_in _ _ Hl); [done|set_solver].
  - intros k Hk Hin. simpl. rewrite decide_False by set_solver.
    apply (lo_out _ _ Hl); [done|set_solver].
  - intros c Hcc. simpl. rewrite decide_False by congruence. done.
Qed.

(** The user value of a choice after the line of its member [i]. *)
Definition vote (i : nat) (t : tristate) (u : symbol_value) : symbol_value :=
  SV (EXPR_OR (sv_tri u) t) (if is_yes t then V_SYM (Sym i) else sv_val u).

Lemma update_choice_wp i c r :
  choice_of K i = Some (Sym c) -> c <> i ->
  wp (update_choice K i) (fun _ r' =>
    (forall k, k <> c -> syms r' k = syms r k) /\
    user (syms r' c) = vote i (sv_tri (user (syms r i))) (user (syms r c))) r.
Proof.
  unfold choice_of, update_choice, choice_symbol. intros Hc Hne.
  destruct (k_choice_value (k_syms K i)); [|done].
  destruct (sym_get_choice_prop K i) as [p|]; [|done]. apply wp_bind.
  apply wp_bind, (wp_lift _ p); [done|]. apply wp_ret. rewrite Hc.
  apply wp_bind, wp_get. apply wp_bind.
  apply (wp_mono _ (fun _ r1 => (forall k, k <> c -> syms r1 k = syms r k) /\
    user (syms r1 c) = SV (sv_tri (user (syms r c)))
      (if is_yes (sv_tri (user (syms r i))) then V_SYM (Sym i) else sv_val (user (syms r c))))).
  - destruct (sv_tri (user (syms r i))).
    + apply wp_ret. by destruct (user (syms r c)).
    + apply wp_bind, wp_get, wp_when; intros Hy; [apply wp_upd; split|].
      * intros k Hk. by apply syms_updated_ne.
      * rewrite syms_updated_eq. by destruct (user (syms r c)) eqn:E; simpl; rewrite E.
      * by destruct (user (syms r c)).
    + apply wp_upd. split; [intros k Hk; by apply syms_updated_ne|by rewrite syms_updated_eq].
  - intros [] r1 [Hk Hu]. apply wp_upd. split.
    + intros k Hkc. rewrite syms_updated_ne by done. by apply Hk.
    + rewrite syms_updated_eq. simpl. by rewrite Hu.
Qed.

Lemma vote_yes i t j :
  vote i t (SV yes (V_SYM (Sym j))) = SV yes (V_SYM (Sym (if is_yes t then i else j))).
Proof. by destruct t. Qed.

Lemma vote_by_yes i u : vote i yes u = SV yes (V_SYM (Sym i)).
Proof. by destruct u as [[] v]. Qed.

Lemma votes_cons i d c j : votes d c j -> votes (i :: d) c j.
Proof. intros (H & ? & ?). split_and!; [by right|done..]. Qed.

(** The choice of the line that was read, and the other choices. *)
Lemma loaded_vote d r i c :
  loaded d r -> k_choice (k_syms K c) = true -> choice_of K i = Some (Sym c) ->
  forall j, votes (i :: d) c j ->
  exists j', vote i (sv_tri (saved i)) (user (syms r c)) = SV yes (V_SYM (Sym j')) /\
    votes (i :: d) c j'.
Proof.
  intros Hl Hc Hi j (Hj & Hjc & Hjy). apply elem_of_cons in Hj as [->|Hj].
  - exists i. rewrite Hjy, vote_by_yes. split; [done|]. split_and!; [left|done..].
  - destruct (lo_choice _ _ Hl c j) as (j' & -> & Hv); [done..|]. rewrite vote_yes.
    eexists. split; [done|]. destruct (is_yes (sv_tri (saved i))) eqn:Hy; [|by apply votes_cons].
    apply bool_decide_eq_true in Hy. split_and!; [left|done..].
Qed.

Lemma loaded_other d r r' i c :
  loaded d r -> k_choice (k_syms K c) = true -> choice_of K i <> Some (Sym c) ->
  syms r' c = syms r c ->
  forall j, votes (i :: d) c j ->
  exists j', user (syms r' c) = SV yes (V_SYM (Sym j')) /\ votes (i :: d) c j'.
Proof.
  intros Hl Hc Hi -> j (Hj & Hjc & Hjy). apply elem_of_cons in Hj as [->|Hj]; [done|].
  destruct (lo_choice _ _ Hl c j) as (j' & -> & Hv); [done..|].
  exists j'. split; [done|by apply votes_cons].
Qed.

(** One more symbol. *)
Lemma read_sym_wp d r i :
  saveable i -> find (k_name (k_syms K i)) = Some (Sym i) -> k_type (k_syms K i) <> S_UNKNOWN ->
  k_choice (k_syms K i) = false -> i ∉ d -> loaded d r ->
  wp (read_line K CONFIG find (sym_line i)) (fun _ r' => loaded (i :: d) r') r.
Proof.
  intros Hi Hf Hu Hc Hd Hl. destruct (read_sym_line i r Hi Hf Hu) as (f & Hrun & Hset).
  destruct (loaded_set d r i f Hset Hc Hd Hl) as (Hin & Hout & Hch).
  unfold wp. rewrite Hrun. change (wp (update_choice K i) (fun _ r' => loaded (i :: d) r') (updated i f r)).
  destruct (k_choice_value (k_syms K i)) eqn:Hv.
  - destruct (sa_choice K s i Hi Hv) as (c & Hco & Hcc).
    eapply wp_mono; [apply (update_choice_wp i c); [done|congruence]|].
    intros [] r' [Hsame Huser]. destruct (Hin i Hc) as [_ Hui]; [left|].
    rewrite Hui, Hch in Huser by done. split.
    + intros k Hk. rewrite Hsame by congruence. by apply Hin.
    + intros k Hk. rewrite Hsame by congruence. by apply Hout.
    + intros c' j Hcc' Hj. destruct (decide (c' = c)) as [->|Hne].
      * rewrite Huser. by apply (loaded_vote d r i c Hl Hcc Hco j).
      * apply (loaded_other d r r' i c' Hl Hcc') with (j := j); [congruence| |done].
        rewrite Hsame by done. by apply Hch.
  - unfold update_choice. rewrite Hv. apply wp_ret. split; [done..|].
    intros c' j Hcc' Hj. apply (loaded_other d r _ i c' Hl Hcc') with (j := j); [|by apply Hch|done].
    unfold choice_of. by rewrite Hv.
Qed.

(** ** A file *)

(** A line is one the reader skips or the line of a symbol. *)
Definition item := sum cstr nat.
Definition render (x : item) : cstr := match x with inl l => l | inr i => sym_line i end.
Definition item_sym (x : item) : option nat := match x with inl _ => None | inr i => Some i end.
Definition item_ok (x : item) : Prop :=
  match x with
  | inl l => is_line l /\ skipped K find l
  | inr i => saveable i /\ find (k_name (k_syms K i)) = Some (Sym i) /\
             k_type (k_syms K i) <> S_UNKNOWN /\ k_choice (k_syms K i) = false
  end.

Lemma item_is_line x : item_ok x -> is_line (render x).
Proof.
  destruct x as [l|i]; simpl; [tauto|]. intros (Hi & _ & Hu & _).
  assert (10 ∉ k_name (k_syms K i)) as Hn.
  { intros H. pose proof (sa_name K s i Hi) as Hp. rewrite Forall_forall in Hp.
    by apply Hp in H as [? _]. }
  destruct (sym_text_line i Hi Hu) as [Ht _].
  unfold KConfRead.sym_line, kconfig_print_symbol.
  assert (10 ∉ CONFIG) by (vm_compute; set_solver).
  assert (is_line (CONFIG ++ k_name (k_syms K i) ++ [61] ++ sym_text K s i ++ [10])).
  { do 2 (apply is_line_app; [done|]). apply (is_line_app [61]); [set_solver|]. by apply is_line_end. }
  assert (is_line (str "# " ++ CONFIG ++ k_name (k_syms K i) ++ str " is not set" ++ [10])).
  { apply is_line_app; [vm_compute; set_solver|]. do 2 (apply is_line_app; [done|]).
    apply is_line_end. vm_compute; set_solver. }
  destruct (k_type (k_syms K i)); try done;
    destruct (sym_text K s i) as [|z ?]; try done;
    destruct (Z.eq_dec z 110) as [->|Hz]; try done;
    destruct z as [|q|q]; try done; repeat (destruct q as [q|q|]; try done).
Qed.

Lemma read_items_wp l : forall d r,
  Forall item_ok l -> loaded d r -> NoDup (rev (omap item_sym l) ++ d) ->
  wp (for_each (map render l) (read_line K CONFIG find))
    (fun _ r' => loaded (rev (omap item_sym l) ++ d) r') r.
Proof.
  induction l as [|x l IH]; intros d r Hok Hl Hd; [by apply wp_ret|].
  apply Forall_cons in Hok as [Hx Hok]. simpl. apply wp_bind.
  destruct x as [t|i]; simpl in *.
  - exists tt, r. split; [apply Hx|]. by apply IH.
  - rewrite <- app_assoc in *. destruct Hx as (? & ? & ? & ?).
    eapply wp_mono; [apply (read_sym_wp d); try done|].
    + apply NoDup_app in Hd as (_ & _ & Hd). by apply NoDup_cons in Hd as [? _].
    + intros [] r' Hr'. by apply IH.
Qed.

Lemma read_file_wp l r :
  Forall item_ok l -> NoDup (omap item_sym l) ->
  wp (conf_read_simple K CONFIG find (concat (map render l)))
    (fun _ r' => loaded (omap item_sym l) r') r.
Proof.
  intros Hok Hnd. unfold conf_read_simple. apply wp_bind.
  destruct (loaded_reset r) as (r0 & Hr0 & Hl0). exists tt, r0. split; [done|].
  rewrite getlines_concat.
  2: { apply Forall_map. eapply Forall_impl; [done|]. intros x Hx. by apply item_is_line. }
  eapply wp_mono; [apply (read_items_wp l [] r0 Hok Hl0)|].
  - rewrite app_nil_r. by rewrite <- Permutation_rev.
  - intros [] r' Hr'. rewrite app_nil_r in Hr'. eapply loaded_elem; [|done].
    intros x. by rewrite <- Permutation_rev.
Qed.
End Read.
