(* ===== verification/KConfWrite.v ===== *)
(** * Writing a configuration file

    In a state where every symbol is calculated, [conf_write] prints lines the
    reader skips and the line of each written symbol, once. *)
From stdpp Require Import sets options.
From S2P Require Import Prelude CLib KExpr KSymbol KSymOps KSymSpec KConf KConfRead.
#[local] Open Scope ksym_scope.

(** The symbols and the texts of a menu. *)
Fixpoint menu_syms (m : menu) : list nat :=
  match m with
  | Menu sym _ _ l => option_list sym ++ concat (map menu_syms l)
  end.
Fixpoint menu_texts (m : menu) : list cstr :=
  match m with
  | Menu _ prompt _ l => prompt_text prompt :: concat (map menu_texts l)
  end.

(** A text on one line that cannot be mistaken for a symbol. *)
Definition plain_text (t : cstr) : Prop := 10 ∉ t /\ strip_prefix CONFIG (t ++ [10]) = None.

Section MenuInd.
Context (P : menu -> Prop).
Context (step : forall sym prompt vis l, Forall P l -> P (Menu sym prompt vis l)).

Fixpoint menu_rect_list (m : menu) : P m :=
  match m with
  | Menu sym prompt vis l =>
      step sym prompt vis l
        ((fix all (l : list menu) : Forall P l :=
            match l with
            | [] => Forall_nil_2 P
            | m :: l' => Forall_cons_2 P m l' (menu_rect_list m) (all l')
            end) l)
  end.
End MenuInd.

Lemma write_menu_unfold K calc prefix sym prompt vis l w :
  write_menu K calc prefix (Menu sym prompt vis l) w =
  (let* w := write_entry K calc prefix sym prompt vis w in
   match l with
   | [] => ret w
   | _ =>
       let* w := write_menus K calc prefix l w in
       match sym with
       | Some _ => ret w
       | None =>
           let* v := menu_visible K calc prompt vis in
           ret (if v then emit (str "# end of " ++ prompt_text prompt ++ [10]) true w else w)
       end
   end).
Proof. reflexivity. Qed.

Section Write.
Context (K : kconfig) (calc : symbol -> M unit) (find : cstr -> option symbol) (s : store).

(** Every symbol is calculated and its value has the type of the symbol. *)
Record calculated : Prop := {
  ca_run y : calc y s = Some (tt, s);
  ca_str i : is_booltri (k_type (k_syms K i)) = false ->
    exists v, sv_val (curr (syms s i)) = V_STR v }.
Context (Hs : calculated).

Lemma get_modules_run :
  exists v, get_curr (modules_sym K) s = Some (v, s) /\ sv_tri v = modules_curr K s.
Proof. unfold modules_curr. destruct (modules_sym K); by eexists. Qed.

Lemma string_value_run i : sym_get_string_value K calc (Sym i) s = Some (text K s i, s).
Proof using Hs K calc s.
  unfold sym_get_string_value, text. cbn [type_of].
  destruct (is_booltri (k_type (k_syms K i))) eqn:Hb.
  - assert (forall m : M cstr, (match k_type (k_syms K i) with
      | S_BOOLEAN | S_TRISTATE => m | _ => get_str (Sym i) end) = m) as ->.
    { by destruct (k_type (k_syms K i)). }
    destruct get_modules_run as (v & Hv & Ht). unfold get_curr at 1, shown, bind, get, ret.
    destruct (sv_tri (curr (syms s i))); simpl; [done| |done].
    rewrite (ca_run Hs), Hv, Ht. by destruct (modules_curr K s).
  - destruct (ca_str Hs i Hb) as [v Hv].
    destruct (k_type (k_syms K i)); try done; unfold get_str, get_curr, bind, get, ret; rewrite Hv; done.
Qed.

Lemma string_value_total y : exists v, sym_get_string_value K calc y s = Some (v, s).
Proof using Hs K calc s. destruct y as [| | |i]; [by eexists..|]. rewrite string_value_run. by eexists. Qed.

Lemma expr_calc_run e : exists t, expr_calc K calc e s = Some (t, s).
Proof using Hs K calc s.
  induction e as [y|e [t IH]|e1 [t1 IH1] e2 [t2 IH2]|e1 [t1 IH1] e2 [t2 IH2]|c l r]; simpl; unfold bind.
  - rewrite (ca_run Hs). destruct y; by eexists.
  - rewrite IH. by eexists.
  - rewrite IH1, IH2. by eexists.
  - rewrite IH1, IH2. by eexists.
  - rewrite !(ca_run Hs). destruct (string_value_total l) as [a ->].
    destruct (string_value_total r) as [b ->]. by eexists.
Qed.

Lemma expr_calc_value_run e : exists t, expr_calc_value K calc e s = Some (t, s).
Proof using Hs K calc s. destruct e as [e|]; [apply expr_calc_run|by eexists]. Qed.

Lemma menu_visible_run prompt vis : exists b, menu_visible K calc prompt vis s = Some (b, s).
Proof using Hs K calc s.
  unfold menu_visible. destruct prompt as [[t e]|]; [|by eexists].
  destruct (expr_calc_value_run vis) as [a Ha]. destruct (expr_calc_value_run e) as [b Hb].
  destruct vis as [v|]; unfold bind, ret in *; rewrite ?Ha; [destruct (negb (is_no a))|];
    rewrite ?Hb; by eexists.
Qed.

Lemma conf_write_symbol_run i :
  conf_write_symbol K calc CONFIG i s =
  Some (if decide (k_type (k_syms K i) = S_UNKNOWN) then [] else sym_line K s i, s).
Proof using Hs K calc s.
  unfold conf_write_symbol, sym_line, sym_text, bind.
  destruct (k_type (k_syms K i)) eqn:Ht; rewrite ?string_value_run; unfold ret;
    by repeat case_decide.
Qed.

(** ** The output *)

Context (title : cstr).
#[local] Notation render := (KConfRead.render K s).
#[local] Notation item_ok := (KConfRead.item_ok K find s).

(** The output so far: lines, and the symbols among them. *)
Record prints (w : wstate) (l : list item) : Prop := {
  pr_out : w_out w = concat (map render l);
  pr_ok : Forall item_ok l;
  pr_nodup : NoDup (omap item_sym l);
  pr_syms i : i ∈ omap item_sym l <-> written w i = true /\ k_type (k_syms K i) <> S_UNKNOWN;
  pr_written i : written w i = true -> k_choice (k_syms K i) = false /\ f_write (syms s i) = true }.

(** From [w] to [w'] the symbols [d] were visited. *)
Definition visits (d : list nat) (w w' : wstate) : Prop :=
  (exists l, prints w' l) /\
  forall i, written w' i = true <-> written w i = true \/
    i ∈ d /\ k_choice (k_syms K i) = false /\ f_write (syms s i) = true.

Lemma visits_refl w l : prints w l -> visits [] w w.
Proof using Hs K calc find s. intros. split; [by eexists|]. set_solver. Qed.

(** A symbol that is a choice, is written already or is not to be written. *)
Lemma visits_skip w l i :
  prints w l ->
  k_choice (k_syms K i) = true \/ written w i = true \/ f_write (syms s i) = false ->
  visits [i] w w.
Proof.
  intros Hp Hi. split; [by eexists|]. intros k. rewrite list_elem_of_singleton.
  split; [by left|]. intros [H|(-> & H1 & H2)]; [done|].
  destruct Hi as [H|[H|H]]; congruence.
Qed.

Lemma visits_trans d d' w w' w'' :
  visits d w w' -> visits d' w' w'' -> visits (d ++ d') w w''.
Proof.
  intros [_ H1] [Hp H2]. split; [done|]. intros i. rewrite H2, H1, elem_of_app. tauto.
Qed.

(** Printing lines the reader skips. *)
Lemma prints_skipped w l ls nl :
  prints w l -> Forall (fun t => is_line t /\ skipped K find t) ls ->
  visits [] w (emit (concat ls) nl w).
Proof using Hs K calc find s.
  intros [H1 H2 H3 H4 H5] Hls. split; [|set_solver]. exists (l ++ map inl ls).
  assert (omap item_sym (l ++ map inl ls) = omap item_sym l) as E.
  { rewrite omap_app. assert (omap item_sym (map inl ls) = []) as ->; [|by rewrite app_nil_r].
    clear. induction ls; simpl; auto. }
  split; simpl; rewrite ?E; try done.
  - rewrite H1, map_app, concat_app, map_map. simpl. by rewrite map_id.
  - apply Forall_app. split; [done|]. apply Forall_map. done.
Qed.

(** Printing a symbol. *)
Definition mark (i : nat) (o : file) (w : wstate) : wstate :=
  WState (w_out w ++ o) (need_newline w) (fun k => if decide (k = i) then true else written w k).

Definition known (i : nat) : Prop := saveable K s i /\ find (k_name (k_syms K i)) = Some (Sym i).

Lemma prints_symbol w l i :
  prints w l -> known i -> k_choice (k_syms K i) = false -> f_write (syms s i) = true ->
  written w i = false ->
  visits [i] w (mark i (if decide (k_type (k_syms K i) = S_UNKNOWN) then [] else sym_line K s i) w).
Proof using Hs K calc find s.
  intros [H1 H2 H3 H4 H5] [Hsave Hfind] Hc Hw Hn. split.
  2: { intros k. simpl. case_decide; subst; set_solver. }
  case_decide as Hu.
  - exists l. split; simpl; rewrite ?app_nil_r; try done.
    + intros k. rewrite H4. case_decide; subst; [|done]. by split; intros [? ?].
    + intros k. case_decide; [by subst|apply H5].
  - exists (l ++ [inr i]). split; simpl; rewrite ?omap_app; simpl.
    + rewrite H1, map_app, concat_app. simpl. by rewrite app_nil_r.
    + apply Forall_app. split; [done|]. constructor; [by split_and!|constructor].
    + apply NoDup_app. split_and!; [done| |apply NoDup_singleton].
      intros k Hk ->%list_elem_of_singleton. apply H4 in Hk as [Hk _]. congruence.
    + intros k. rewrite elem_of_app, H4, list_elem_of_singleton. case_decide; naive_solver.
    + intros k. case_decide; [by subst|apply H5].
Qed.

Lemma skipped_title t :
  plain_text t ->
  Forall (fun t => is_line t /\ skipped K find t) [[10]; [35; 10]; 35 :: 32 :: t ++ [10]; [35; 10]].
Proof using Hs K calc find s.
  intros [H10 Hp]. rewrite !Forall_cons.
  split_and!; try done; try apply is_line_newline; try apply is_line_hash.
  - apply (is_line_end (35 :: 32 :: t)). set_solver.
  - by apply skipped_comment.
Qed.

Lemma write_entry_run w l sym prompt vis :
  prints w l -> (forall i, i ∈ option_list sym -> k_choice (k_syms K i) = false -> known i) -> plain_text (prompt_text prompt) ->
  exists w', write_entry K calc CONFIG sym prompt vis w s = Some (w', s) /\
             visits (option_list sym) w w'.
Proof using Hs K calc find s.
  intros Hp Hk Ht. unfold write_entry. destruct sym as [i|].
  - destruct (k_choice (k_syms K i) || written w i) eqn:Hskip.
    { exists w. split; [done|]. apply (visits_skip w l); [done|]. apply orb_true_iff in Hskip. tauto. }
    apply orb_false_iff in Hskip as [Hc Hn]. unfold bind at 1. rewrite (ca_run Hs).
    unfold bind at 1, get. destruct (f_write (syms s i)) eqn:Hw.
    2: { exists w. split; [done|]. apply (visits_skip w l); auto. }
    unfold bind at 1. rewrite conf_write_symbol_run. eexists. split; [reflexivity|].
    set (w1 := if need_newline w then _ else w).
    assert (visits [] w w1) as H1.
    { unfold w1. destruct (need_newline w); [|by eapply visits_refl].
      apply (prints_skipped w l [[10]]); [done|].
      apply Forall_singleton. split; [apply is_line_newline|apply skipped_newline]. }
    assert (written w1 i = false) as Hn1. { unfold w1. by destruct (need_newline w). }
    destruct H1 as [[l1 Hl1] Hw1]. apply (visits_trans [] [i] w w1).
    + split; [by eexists|done].
    + apply (prints_symbol w1 l1); try done. apply Hk; [left|done].
  - destruct (menu_visible_run prompt vis) as [b Hb]. unfold bind. rewrite Hb. eexists.
    split; [reflexivity|]. destruct b; [|by eapply visits_refl].
    replace ([10; 35; 10; 35; 32] ++ prompt_text prompt ++ [10; 35; 10])
      with (concat [[10]; [35; 10]; 35 :: 32 :: prompt_text prompt ++ [10]; [35; 10]]).
    + eapply prints_skipped; [done|]. by apply skipped_title.
    + simpl. by rewrite <- app_assoc.
Qed.

Definition menu_ok (m : menu) : Prop :=
  (forall i, i ∈ menu_syms m -> k_choice (k_syms K i) = false -> known i) /\ (forall t, t ∈ menu_texts m -> plain_text t).

Definition writes (m : menu) : Prop := forall w l,
  prints w l -> menu_ok m ->
  exists w', write_menu K calc CONFIG m w s = Some (w', s) /\ visits (menu_syms m) w w'.

Lemma write_menus_run ms : Forall writes ms -> Forall menu_ok ms -> forall w l, prints w l ->
  exists w', write_menus K calc CONFIG ms w s = Some (w', s) /\
             visits (concat (map menu_syms ms)) w w'.
Proof using Hs K calc find s.
  induction 1 as [|m ms Hm _ IH]; intros Hok w l Hp; [exists w; split; [done|by eapply visits_refl]|].
  apply Forall_cons in Hok as [Hmo Hok]. destruct (Hm w l Hp Hmo) as (w1 & Hr1 & Hv1).
  pose proof Hv1 as [[l1 Hp1] _]. destruct (IH Hok w1 l1 Hp1) as (w2 & Hr2 & Hv2).
  exists w2. simpl. unfold bind. rewrite Hr1. split; [done|]. by eapply visits_trans.
Qed.

Lemma menu_ok_below sym prompt vis l : menu_ok (Menu sym prompt vis l) -> Forall menu_ok l.
Proof.
  intros [H1 H2]. apply Forall_forall. intros m Hm. split.
  - intros i Hi Hc. apply H1; [|done]. simpl. apply elem_of_app. right.
    apply list_elem_of_In, in_concat. exists (menu_syms m).
    split; [apply in_map|]; by apply list_elem_of_In.
  - intros t Ht. apply H2. simpl. right.
    apply list_elem_of_In, in_concat. exists (menu_texts m).
    split; [apply in_map|]; by apply list_elem_of_In.
Qed.

Lemma prints_end_of w l prompt vis :
  prints w l -> plain_text (prompt_text prompt) ->
  exists w', (let* v := menu_visible K calc prompt vis in
    ret (if v then emit (str "# end of " ++ prompt_text prompt ++ [10]) true w else w)) s =
    Some (w', s) /\ visits [] w w'.
Proof using Hs K calc find s.
  intros Hp [Ht _]. destruct (menu_visible_run prompt vis) as [b Hb]. unfold bind. rewrite Hb.
  eexists. split; [reflexivity|]. destruct b; [|by eapply visits_refl].
  pose proof (prints_skipped w l [str "# end of " ++ prompt_text prompt ++ [10]] true Hp) as H.
  simpl in H. rewrite app_nil_r in H. apply H, Forall_singleton. split.
  - apply (is_line_app (str "# end of ")); [vm_compute; set_solver|]. by apply is_line_end.
  - apply skipped_end_of.
Qed.

Lemma write_menu_run m : writes m.
Proof using Hs K calc find s.
  induction m as [sym prompt vis ms IH] using menu_rect_list. intros w l Hp Hok.
  rewrite write_menu_unfold. destruct (Hok) as [Hsym Htext].
  assert (plain_text (prompt_text prompt)) as Ht by (apply Htext; left).
  destruct (write_entry_run w l sym prompt vis Hp) as (w1 & Hr1 & Hv1); [|done|].
  { intros i Hi Hc. apply Hsym; [|done]. simpl. apply elem_of_app. by left. }
  unfold bind at 1. rewrite Hr1. pose proof Hv1 as [[l1 Hp1] _].
  destruct ms as [|m ms].
  { exists w1. split; [done|]. simpl. by rewrite app_nil_r. }
  destruct (write_menus_run (m :: ms) IH (menu_ok_below _ _ _ _ Hok) w1 l1 Hp1) as (w2 & Hr2 & Hv2).
  unfold bind at 1. rewrite Hr2. pose proof Hv2 as [[l2 Hp2] _].
  pose proof (visits_trans _ _ _ _ _ Hv1 Hv2) as Hv. destruct sym as [i|]; [by exists w2|].
  destruct (prints_end_of w2 l2 prompt vis Hp2 Ht) as (w3 & Hr3 & Hv3).
  exists w3. split; [done|]. pose proof (visits_trans _ _ _ _ _ Hv Hv3) as Hv'.
  by rewrite app_nil_r in Hv'.
Qed.

(** The heading. *)
Lemma comment_lines_text t f : 10 ∉ t -> comment_lines false (t ++ 10 :: f) = t ++ 10 :: comment_lines true f.
Proof using Hs K calc find s.
  induction t as [|c t IH]; intros H; [done|]. simpl.
  rewrite (proj2 (Z.eqb_neq c 10)) by set_solver. simpl. by rewrite IH by set_solver.
Qed.

Definition banner : cstr := str "Automatically generated file; DO NOT EDIT.".

Lemma heading_lines t :
  plain_text t -> t <> [] -> (length t <= 210)%nat ->
  heading t = concat [[35; 10]; 35 :: 32 :: banner ++ [10]; 35 :: 32 :: t ++ [10]; [35; 10]].
Proof using Hs K calc find s.
  intros [H10 _] Hne Hlen. unfold heading, kconfig_print_comment. rewrite take_ge.
  2: { change (str "Automatically generated file; DO NOT EDIT.") with banner.
       rewrite !length_app. change (length banner) with 42%nat. simpl. lia. }
  destruct t as [|c t]; [done|].
  assert (c <> 10) by set_solver.
  change (comment_lines true ([10] ++ str "Automatically generated file; DO NOT EDIT." ++ [10] ++ (c :: t) ++ [10]))
    with ([35; 10; 35; 32] ++ banner ++ 10 :: comment_lines true (c :: t ++ [10])).
  cbn [comment_lines]. rewrite (proj2 (Z.eqb_neq c 10)) by done.
  rewrite comment_lines_text by set_solver. simpl. by rewrite <- app_assoc.
Qed.

Lemma heading_prints :
  plain_text title -> title <> [] -> (length title <= 210)%nat ->
  exists l, prints (WState (heading title) false (fun _ => false)) l.
Proof using Hs K calc find s title.
  intros Ht Hne Hlen. rewrite heading_lines by done.
  assert (prints (WState [] false (fun _ => false)) []) as H0.
  { split; try done; [apply NoDup_nil_2|]. intros i. simpl. set_solver. }
  destruct (prints_skipped _ _ [[35; 10]; 35 :: 32 :: banner ++ [10]; 35 :: 32 :: title ++ [10]; [35; 10]]
    false H0) as [[l Hl] _]; [|by exists l].
  assert (plain_text banner) as Hb.
  { split; [|done]. vm_compute. set_solver. }
  pose proof (skipped_title banner Hb) as H1. pose proof (skipped_title title Ht) as H2.
  rewrite !Forall_cons in *. tauto.
Qed.

Lemma conf_write_run ms :
  conf_changed s = true -> plain_text title -> title <> [] -> (length title <= 210)%nat ->
  Forall menu_ok ms ->
  exists f s' l, conf_write K calc CONFIG title ms s = Some (f, s') /\
    f = concat (map render l) /\ Forall item_ok l /\ NoDup (omap item_sym l) /\
    forall i, i ∈ omap item_sym l <->
      (i ∈ concat (map menu_syms ms) /\ k_choice (k_syms K i) = false /\
       f_write (syms s i) = true) /\ k_type (k_syms K i) <> S_UNKNOWN.
Proof using Hs K calc find s title.
  intros Hch Ht Hne Hlen Hok. destruct heading_prints as [l0 Hl0]; [done..|].
  destruct (write_menus_run ms) with (2 := Hok) (3 := Hl0) as (w & Hr & [l Hl] & Hv).
  { apply Forall_forall. intros m _. apply write_menu_run. }
  unfold conf_write. rewrite Hch. cbn [negb when]. unfold bind at 1, ret at 1. unfold bind at 1.
  rewrite Hr. eexists _, _, l. split; [reflexivity|]. destruct Hl as [H1 H2 H3 H4 H5].
  split_and!; try done. intros i. rewrite H4, Hv. simpl. naive_solver.
Qed.
End Write.
