(* ===== verification/KConfProps.v ===== *)
(** * Theorems about configuration files and the symbol table *)
From stdpp Require Import sets options.
From S2P Require Import Prelude CLib KExpr KSymbol KSymOps KSymSpec KSymCalc KSymRun KSymProps KConf KConfRead KConfWrite.
#[local] Open Scope ksym_scope.

(** ** Writing and reading *)

(** The symbols a file holds. *)
Definition in_file (K : kconfig) (s : store) (ms : list menu) (i : nat) : Prop :=
  (i ∈ concat (map menu_syms ms) /\ k_choice (k_syms K i) = false /\ f_write (syms s i) = true) /\
  k_type (k_syms K i) <> S_UNKNOWN.

(** A state the front ends save: every symbol calculated, a change pending. *)
Record savable_state (K : kconfig) (s : store) : Prop := {
  ss_valid i : f_valid (syms s i) = true;
  ss_str i : is_booltri (k_type (k_syms K i)) = false ->
    exists v, sv_val (curr (syms s i)) = V_STR v;
  ss_changed : conf_changed s = true }.

Lemma savable_calculated K fuel s :
  (0 < fuel)%nat -> savable_state K s -> calculated K (sym_calc_value K fuel) s.
Proof.
  intros Hf Hs. split; [|apply (ss_str K s Hs)].
  intros [| | |i]; [destruct fuel; [lia|reflexivity]..|].
  apply calc_valid_run; [apply (ss_valid K s Hs)|done].
Qed.

(** C9: Reading back the file [conf_write] produced restores the configuration:
    whatever the symbols held before, afterwards every symbol of the file has
    its saved value as user value, every other symbol has none, and a choice
    with one member saved as [y] has that member selected. *)
Theorem conf_write_read K find fuel title ms s r
    (Hs : savable_state K s) (Hf : (0 < fuel)%nat)
    (Ht : plain_text title) (Hne : title <> []) (Hlen : (length title <= 210)%nat)
    (Hms : Forall (menu_ok K find s) ms) :
  exists f s' r',
    conf_write K (sym_calc_value K fuel) CONFIG title ms s = Some (f, s') /\
    conf_read_simple K CONFIG find f r = Some (tt, r') /\
    (forall i, k_choice (k_syms K i) = false -> in_file K s ms i ->
      f_def_user (syms r' i) = true /\ user (syms r' i) = saved K s i) /\
    (forall i, k_choice (k_syms K i) = false -> ~ in_file K s ms i ->
      f_def_user (syms r' i) = false /\ user (syms r' i) = SV no V_NULL) /\
    (forall c j, k_choice (k_syms K c) = true ->
      (forall k, in_file K s ms k /\ choice_of K k = Some (Sym c) /\ sv_tri (saved K s k) = yes
                 <-> k = j) ->
      user (syms r' c) = SV yes (V_SYM (Sym j))).
Proof.
  destruct (conf_write_run K (sym_calc_value K fuel) find s (savable_calculated K fuel s Hf Hs)
    title ms (ss_changed K s Hs) Ht Hne Hlen Hms) as (f & s' & l & Hw & -> & Hok & Hnd & Hin).
  destruct (read_file_wp K find s l r Hok Hnd) as ([] & r' & Hr & Hl).
  exists (concat (map (render K s) l)), s', r'. split_and!; [done..| | |].
  - intros i Hc Hi. apply (lo_in K s _ _ Hl); [done|by apply Hin].
  - intros i Hc Hi. apply (lo_out K s _ _ Hl); [done|by rewrite Hin].
  - intros c j Hc Hj. destruct (Hj j) as [_ Hjj]. destruct (Hjj eq_refl) as (H1 & H2 & H3).
    destruct (lo_choice K s _ _ Hl c j Hc) as (j' & -> & Hj' & H2' & H3').
    { split; [by apply Hin|done]. }
    f_equal. do 2 f_equal. apply Hj. split; [by apply Hin|done].
Qed.

(** ** The small configuration, saved *)

Definition demo_saved : store :=
  match recalculate Demo.config 5 (map Sym (seq 0 11)) Demo.filled with
  | Some (_, s) =>
      Store (fun i => if (i <? 11)%nat then syms s i
                      else SymState (SV no (V_STR [])) (SV no V_NULL) no no no no true false false false)
        (modules_val s) true
  | None => Demo.start
  end.

Definition demo_find (n : cstr) : option symbol :=
  Sym <$> List.find (fun i => bool_decide (k_name (Demo.syms i) = n)) (seq 0 11).

Definition demo_menus : list menu :=
  [Menu (Some 0%nat) None None [];
   Menu None (Some (str "Options", Some (Demo.the 1))) None
     [Menu (Some 1%nat) None None [Menu (Some 2%nat) None None []; Menu (Some 3%nat) None None []];
      Menu (Some 4%nat) None None [Menu (Some 5%nat) None None []; Menu (Some 6%nat) None None []]];
   Menu (Some 7%nat) None None []].

Lemma demo_savable : savable_state Demo.config demo_saved.
Proof.
  split; [| |reflexivity].
  - intros i. do 11 (destruct i as [|i]; [reflexivity|]). reflexivity.
  - intros i. do 11 (destruct i as [|i]; [intros H; try discriminate H; eexists; vm_compute; reflexivity|]).
    intros _. eexists. reflexivity.
Qed.
Definition nl : cstr := [10].

Example demo_file :
  fst <$> conf_write Demo.config (sym_calc_value Demo.config 5) CONFIG (str "Demo Configuration")
    demo_menus demo_saved =
  Some (concat (map (fun l => l ++ nl)
    [str "#"; str "# Automatically generated file; DO NOT EDIT."; str "# Demo Configuration"; str "#";
     str "CONFIG_MODULES=y"; []; str "#"; str "# Options"; str "#"; str "CONFIG_A=y";
     str "CONFIG_B=y"; str "CONFIG_C=y"; str "# CONFIG_X is not set"; str "CONFIG_Y=y";
     str "# end of Options"; []; str "CONFIG_N=50"])).
Proof. vm_compute. reflexivity. Qed.

Ltac solve_plain := repeat constructor; vm_compute; discriminate.

Lemma demo_known i :
  i ∈ concat (map menu_syms demo_menus) -> k_choice (k_syms Demo.config i) = false ->
  known Demo.config demo_find demo_saved i.
Proof.
  intros Hi Hc. vm_compute in Hi. Demo.cases_in Hi; subst; try discriminate Hc.
  all: split; [|vm_compute; reflexivity]; split.
  all: try solve_plain.
  all: try (intros H; discriminate H).
  all: try (intros _; vm_compute; discriminate).
  all: try (intros _; exists 4%nat; split; reflexivity).
  intros _. exists (str "50"). split; [vm_compute; reflexivity|vm_compute; set_solver].
Qed.

Lemma demo_menu_ok : Forall (menu_ok Demo.config demo_find demo_saved) demo_menus.
Proof.
  unfold demo_menus. rewrite !Forall_cons. split_and!; [..|by constructor].
  all: split; [intros i Hi; apply demo_known; vm_compute in Hi |- *; set_solver|].
  all: intros t Ht; vm_compute in Ht; Demo.cases_in Ht; subst; (split; [vm_compute; set_solver|reflexivity]).
Qed.

Lemma demo_in_file i :
  i ∈ [0; 1; 2; 3; 5; 6; 7]%nat -> in_file Demo.config demo_saved demo_menus i.
Proof.
  intros Hi. Demo.cases_in Hi; subst.
  all: split; [|discriminate]; split_and!; [vm_compute; set_solver|reflexivity|vm_compute; reflexivity].
Qed.

Lemma demo_vote k :
  in_file Demo.config demo_saved demo_menus k /\ choice_of Demo.config k = Some (Sym 4) /\
  sv_tri (saved Demo.config demo_saved k) = yes <-> k = 6%nat.
Proof.
  split.
  - intros ([(Hk & _ & _) _] & Hm & Hy).
    assert (k = 5 \/ k = 6)%nat as [->| ->]; [|vm_compute in Hy; discriminate Hy|reflexivity].
    clear Hy Hk. do 8 (destruct k as [|k]; [try discriminate Hm; lia|]).
    do 3 (destruct k as [|k]; [discriminate Hm|]). discriminate Hm.
  - intros ->. split_and!; [|reflexivity|vm_compute; reflexivity].
    apply demo_in_file. do 5 right. left.
Qed.

Lemma conf_write_read_witness :
  exists f s' r',
    conf_write Demo.config (sym_calc_value Demo.config 5) CONFIG (str "Demo Configuration")
      demo_menus demo_saved = Some (f, s') /\
    conf_read_simple Demo.config CONFIG demo_find f Demo.filled = Some (tt, r') /\
    user (syms r' 1%nat) = SV yes V_NULL /\
    user (syms r' 4%nat) = SV yes (V_SYM (Sym 6)).
Proof.
  destruct (conf_write_read Demo.config demo_find 5 (str "Demo Configuration") demo_menus demo_saved
    Demo.filled demo_savable ltac:(lia) ltac:(split; [vm_compute; set_solver|reflexivity])
    ltac:(discriminate) ltac:(vm_compute; lia) demo_menu_ok)
    as (f & s' & r' & Hw & Hr & Hin & _ & Hch).
  exists f, s', r'. split_and!; [exact Hw|exact Hr| |].
  - destruct (Hin 1%nat) as [_ ->]; [reflexivity|apply demo_in_file; right; left|vm_compute; reflexivity].
  - apply Hch; [reflexivity|apply demo_vote].
Defined.

(** ** The symbol table *)

(** The kinds of symbols [sym_lookup] is asked for. *)
Inductive kind := K_normal | K_const | K_choice.
#[export] Instance kind_eq_dec : EqDecision kind.
Proof. solve_decision. Defined.

Definition flag_of (k : kind) : Z :=
  match k with K_normal => 0 | K_const => SYMBOL_CONST | K_choice => SYMBOL_CHOICE end.

(** The table as a map from a kind and a name to a symbol. *)
Definition wanted (k : kind) (n : cstr) (x : entry) : bool :=
  same_name n x && has_flags (flag_of k) x.
Definition table_map (t : table) (k : kind) (n : cstr) : option nat :=
  e_sym <$> List.find (wanted k n) (symbol_hash t (bucket n)).

Record table_ok (t : table) : Prop := {
  ok_entry h x : x ∈ symbol_hash t h ->
    (e_sym x < next_sym t)%nat /\ exists k, e_flags x = flag_of k;
  ok_inj h h' x x' : x ∈ symbol_hash t h -> x' ∈ symbol_hash t h' -> e_sym x = e_sym x' -> x = x' }.

Definition empty_table : table := Table (fun _ => []) 0.

Lemma empty_table_ok : table_ok empty_table.
Proof. split; intros; by apply not_elem_of_nil in H. Qed.

Lemma has_flag_of k k' n i : has_flags (flag_of k) (Entry n (flag_of k') i) = bool_decide (k = k').
Proof. by destruct k, k'. Qed.

Lemma wanted_spec t h x k n :
  table_ok t -> x ∈ symbol_hash t h ->
  wanted k n x = true <-> e_name x = Some n /\ e_flags x = flag_of k.
Proof.
  intros Ht Hx. destruct (ok_entry t Ht h x Hx) as [_ [k' Hk']]. destruct x as [m fl i].
  simpl in *. subst fl. unfold wanted, same_name. rewrite has_flag_of, andb_true_iff, !bool_decide_eq_true.
  simpl. split; [intros [-> ->]; done|]. intros [-> E]. split; [done|]. by destruct k, k'.
Qed.

Lemma insert_ok h n k t :
  table_ok t -> table_ok (insert_entry h (Entry n (flag_of k) (next_sym t)) t).
Proof.
  intros Ht.
  assert (forall h' x, x ∈ symbol_hash (insert_entry h (Entry n (flag_of k) (next_sym t)) t) h' ->
    x = Entry n (flag_of k) (next_sym t) \/ exists h, x ∈ symbol_hash t h) as Hin.
  { intros h' x. simpl. destruct (h' =? h); [|by eauto].
    intros [->|H]%elem_of_cons; [by left|by eauto]. }
  split.
  - intros h' x [->|[h0 Hx]]%Hin; simpl; [split; [lia|by eexists]|].
    destruct (ok_entry t Ht h0 x Hx). split; [lia|done].
  - intros h1 h2 x x' [->|[a Ha]]%Hin [->|[b Hb]]%Hin E; simpl in *; try done.
    + destruct (ok_entry t Ht b x' Hb). lia.
    + destruct (ok_entry t Ht a x Ha). lia.
    + by apply (ok_inj t Ht a b).
Qed.

(** The map is injective: two names, or two kinds, never share a symbol. *)
Lemma table_map_inj t k n k' n' i :
  table_ok t -> table_map t k n = Some i -> table_map t k' n' = Some i -> k = k' /\ n = n'.
Proof.
  intros Ht H1 H2. unfold table_map in *.
  destruct (List.find (wanted k n) _) as [x|] eqn:E1; [|done].
  destruct (List.find (wanted k' n') _) as [x'|] eqn:E2; [|done].
  apply find_some in E1 as [I1 W1], E2 as [I2 W2]. apply list_elem_of_In in I1, I2.
  assert (x = x') as <-. { eapply (ok_inj t Ht); [done..|]. by simplify_eq/=. }
  apply (wanted_spec t (bucket n)) in W1 as [N1 F1]; [|done..].
  apply (wanted_spec t (bucket n')) in W2 as [N2 F2]; [|done..].
  rewrite N1 in N2. rewrite F1 in F2. split; [by destruct k, k'|by simplify_eq].
Qed.

Lemma insert_map n k t k' n' :
  table_map (insert_entry (bucket n) (Entry (Some n) (flag_of k) (next_sym t)) t) k' n' =
  if decide (k' = k /\ n' = n) then Some (next_sym t) else table_map t k' n'.
Proof.
  unfold table_map, insert_entry. cbn [symbol_hash].
  destruct (Z.eqb_spec (bucket n') (bucket n)) as [E|E]; cbn [List.find].
  - unfold wanted at 1, same_name. rewrite has_flag_of. cbn [e_name].
    destruct (decide (k' = k /\ n' = n)) as [[-> ->]|Hne].
    + by rewrite !bool_decide_eq_true_2 by done.
    + destruct (bool_decide (Some n = Some n') && bool_decide (k' = k)) eqn:Hb; [|by rewrite E].
      apply andb_true_iff in Hb as [H1 H2]. apply bool_decide_eq_true in H1, H2. naive_solver.
  - rewrite decide_False by naive_solver. done.
Qed.

Lemma insert_map_none h k t k' n' :
  table_map (insert_entry h (Entry None (flag_of k) (next_sym t)) t) k' n' = table_map t k' n'.
Proof. unfold table_map, insert_entry. cbn [symbol_hash]. by destruct (_ =? h). Qed.

(** A symbol no name leads to. *)
Definition fresh (t : table) (i : nat) : Prop := forall k n, table_map t k n <> Some i.

Lemma next_fresh t : table_ok t -> fresh t (next_sym t).
Proof.
  intros Ht k n H. unfold table_map in H. destruct (List.find _ _) as [x|] eqn:E; [|done].
  apply find_some in E as [I _]. apply list_elem_of_In in I.
  destruct (ok_entry t Ht _ _ I). simplify_eq/=. lia.
Qed.

(** [sym_find] finds the symbol of a name that is not also the name of a choice. *)
Lemma sym_find_normal t n i :
  table_ok t -> const_symbol n = None ->
  table_map t K_normal n = Some i -> table_map t K_choice n = None ->
  sym_find t n = Some (Sym i).
Proof.
  intros Ht Hc H1 H2. unfold sym_find, table_map in *. rewrite Hc.
  assert (forall x, x ∈ symbol_hash t (bucket n) -> wanted K_choice n x = false) as Hno.
  { intros x Hx. destruct (List.find (wanted K_choice n) _) eqn:E; [done|].
    apply (find_none _ _ E). by apply list_elem_of_In. }
  assert (forall x, x ∈ symbol_hash t (bucket n) -> exists k, e_flags x = flag_of k) as Hfl.
  { intros x Hx. apply (ok_entry t Ht _ x Hx). }
  clear Ht H2. induction (symbol_hash t (bucket n)) as [|x l IH]; [done|]. simpl in *.
  destruct (Hfl x) as [k Hk]; [left|]. specialize (Hno x) as Hx.
  specialize (Hx ltac:(left)). destruct x as [m fl j]. simpl in *. subst fl.
  unfold wanted in H1 at 1. unfold wanted in Hx.
  destruct (same_name n (Entry m (flag_of k) j)); cbn [andb] in *.
  - destruct k; [by simplify_eq/=| |discriminate Hx].
    apply IH; [done|..]; intros; [apply Hno|apply Hfl]; by right.
  - apply IH; [done|..]; intros; [apply Hno|apply Hfl]; by right.
Qed.

(** C39: The hash table of symbols implements an injective map from names and
    kinds to symbols.  [sym_lookup] answers [y], [m] and [n] with the constant
    symbols, any other name with its symbol if the map has one, and otherwise
    (always without a name) with a new symbol that no name had, and the map
    changes at that name only. *)
Theorem sym_lookup_refines t name k (Ht : table_ok t) :
  let (y, t') := sym_lookup name (flag_of k) t in
  table_ok t' /\
  (forall k1 n1 k2 n2 i, table_map t' k1 n1 = Some i -> table_map t' k2 n2 = Some i ->
    k1 = k2 /\ n1 = n2) /\
  match name with
  | None =>
      exists i, y = Sym i /\ fresh t i /\ fresh t' i /\
      forall k' n', table_map t' k' n' = table_map t k' n'
  | Some n =>
      match const_symbol n with
      | Some c => y = c /\ t' = t
      | None =>
          exists i, y = Sym i /\ (table_map t k n = Some i \/ table_map t k n = None /\ fresh t i) /\
          forall k' n', table_map t' k' n' =
            if decide (k' = k /\ n' = n) then Some i else table_map t k' n'
      end
  end.
Proof.
  unfold sym_lookup. destruct name as [n|].
  - destruct (const_symbol n) as [c|] eqn:Hc.
    { split_and!; [done| |done..]. intros *. by apply table_map_inj. }
    change (fun x => same_name n x && has_flags (flag_of k) x) with (wanted k n).
    destruct (List.find (wanted k n) _) as [x|] eqn:Hx.
    + assert (table_map t k n = Some (e_sym x)) as E. { unfold table_map. by rewrite Hx. }
      split_and!; [done|intros *; by apply table_map_inj|]. exists (e_sym x). split_and!; [done|by left|].
      intros k' n'. case_decide as Hd; [|done]. by destruct Hd as [-> ->].
    + assert (table_map t k n = None) as E. { unfold table_map. by rewrite Hx. }
      pose proof (insert_ok (bucket n) (Some n) k t Ht).
      split_and!; [done|intros *; by apply table_map_inj|]. exists (next_sym t). split_and!; [done| |].
      * right. split; [done|by apply next_fresh].
      * intros k' n'. apply insert_map.
  - pose proof (insert_ok 0 None k t Ht).
    split_and!; [done|intros *; by apply table_map_inj|]. exists (next_sym t).
    split_and!; [done|by apply next_fresh| |intros; apply insert_map_none].
    intros k' n'. rewrite insert_map_none. by apply next_fresh.
Qed.

Lemma sym_lookup_refines_witness :
  let (y, t) := sym_lookup (Some (str "FOO")) 0 empty_table in
  sym_lookup (Some (str "FOO")) 0 t = (y, t) /\ table_ok t /\
  table_map t K_normal (str "FOO") = Some 0%nat.
Proof.
  pose proof (sym_lookup_refines empty_table (Some (str "FOO")) K_normal empty_table_ok) as H.
  destruct (sym_lookup _ _ _) as [y t] eqn:E in H. destruct H as (Hok & _).
  vm_compute in E. injection E as <- <-. split; [reflexivity|]. split; [exact Hok|reflexivity].
Defined.
