(* ===== verification/KPre.v ===== *)
(** * The macro language of Kconfig files

    src/scripts/config/preprocess.c: variables of two flavors, user-defined and
    built-in functions, environment variables, and the expansion of strings and
    tokens.  The functions of the source call each other through
    [expand_string_with_args]; here each takes that function as an argument and
    [expand_loop] ties the knot with fuel. *)

From stdpp Require Import options.
From S2P Require Import Prelude CLib.

Inductive variable_flavor := VAR_SIMPLE | VAR_RECURSIVE | VAR_APPEND.
#[export] Instance variable_flavor_eq_dec : EqDecision variable_flavor.
Proof. solve_decision. Defined.

(** [v_value] is [None] while the pointer is not set or dangling. *)
Record variable := Var { v_name : cstr; v_value : option cstr; v_flavor : variable_flavor; exp_count : Z }.

(** The lists of the file, and the lines that [info] has printed. *)
Record pp := PP { env_list : list (cstr * cstr); variable_list : list variable; printed : list cstr }.

Definition set_env st l := PP l (variable_list st) (printed st).
Definition set_vars st l := PP (env_list st) l (printed st).
Definition set_printed st l := PP (env_list st) (variable_list st) l.

Definition set_value v x := Var (v_name v) x (v_flavor v) (exp_count v).
Definition set_flavor v x := Var (v_name v) (v_value v) x (exp_count v).
Definition set_count v x := Var (v_name v) (v_value v) (v_flavor v) x.

Definition FUNCTION_MAX_ARGS : nat := 16.

Definition isalnum (c : Z) : bool :=
  isdigit c || ((65 <=? c) && (c <=? 90)) || ((97 <=? c) && (c <=? 122)).

Section preprocess.
(** The environment, the shell ([None] when [popen] or [pclose] fails), the position in the
    Kconfig file (line numbers are not negative), and the width of [unsigned long]. *)
Context (getenv : cstr -> option cstr) (popen : cstr -> option (list Z)).
Context (file_name : cstr) (yylineno : Z) (long_bits : Z).

(** [pperror] *)
Definition pperror {A} : outcome A := Exit 1.

(** ** Environment variables *)

Fixpoint env_lookup (name : cstr) (l : list (cstr * cstr)) : option cstr :=
  match l with
  | [] => None
  | (n, v) :: l => if bool_decide (name = n) then Some v else env_lookup name l
  end.

Definition env_add (name value : cstr) (st : pp) : pp := set_env st (env_list st ++ [(name, value)]).

Definition env_expand (name : cstr) (st : pp) : option (cstr * pp) :=
  if bool_decide (name = []) then None else
  match env_lookup name (env_list st) with
  | Some v => Some (v, st)
  | None =>
      match getenv name with
      | Some v => Some (v, env_add name v st)
      | None => None
      end
  end.

(** [env_write_dep]: the lines of the dependency file; the list is emptied. *)
Definition env_write_dep (autoconfig_name : cstr) (st : pp) : list cstr * pp :=
  (flat_map (fun '(n, v) =>
     [str "ifneq " ++ [34] ++ str "$(" ++ n ++ str ")" ++ [34; 32; 34] ++ v ++ [34];
      autoconfig_name ++ str ": FORCE"; str "endif"]) (env_list st),
   set_env st []).

(** ** Built-in functions *)

Definition do_error_if (argv : list cstr) (st : pp) : outcome (cstr * pp) :=
  a ← defined (argv !! 0%nat);
  if bool_decide (a = str "y") then pperror else Done ([], st).

Definition do_filename (argv : list cstr) (st : pp) : outcome (cstr * pp) := Done (file_name, st).

Definition do_info (argv : list cstr) (st : pp) : outcome (cstr * pp) :=
  a ← defined (argv !! 0%nat);
  Done ([], set_printed st (printed st ++ [a])).

Definition do_lineno (argv : list cstr) (st : pp) : outcome (cstr * pp) := Done (print_u yylineno, st).

Fixpoint strip_newlines (s : list Z) : list Z :=
  match s with
  | [] => []
  | c :: s => match strip_newlines s with
              | [] => if c =? 10 then [] else [c]
              | s' => c :: s'
              end
  end.

(** The string in a buffer, up to its first NUL. *)
Fixpoint upto_nul (s : list Z) : cstr :=
  match s with [] => [] | c :: s => if c =? 0 then [] else c :: upto_nul s end.

(** What [do_shell] makes of the output of the command: at most 255 bytes. *)
Definition shell_text (output : list Z) : cstr :=
  let buf := take 256 output in
  let buf := if bool_decide (length buf = 256%nat) then take 255 buf else buf in
  upto_nul (map (fun c => if c =? 10 then 32 else c) (strip_newlines buf)).

Definition do_shell (argv : list cstr) (st : pp) : outcome (cstr * pp) :=
  cmd ← defined (argv !! 0%nat);
  match popen cmd with
  | Some out => Done (shell_text out, st)
  | None => Exit 1
  end.

(** The warning goes to stderr. *)
Definition do_warning_if (argv : list cstr) (st : pp) : outcome (cstr * pp) := Done ([], st).

Definition function_table : list (cstr * nat * nat * (list cstr -> pp -> outcome (cstr * pp))) :=
  [(str "error-if", 2, 2, do_error_if); (str "filename", 0, 0, do_filename); (str "info", 1, 1, do_info);
   (str "lineno", 0, 0, do_lineno); (str "shell", 1, 1, do_shell); (str "warning-if", 2, 2, do_warning_if)]%nat.

Fixpoint function_search (l : list (cstr * nat * nat * (list cstr -> pp -> outcome (cstr * pp))))
    (name : cstr) (argv : list cstr) (st : pp) : outcome (option (cstr * pp)) :=
  match l with
  | [] => Done None
  | (n, min_args, max_args, func) :: l =>
      if negb (bool_decide (n = name)) then function_search l name argv st else
      if bool_decide (length argv < min_args)%nat then pperror else
      if bool_decide (max_args < length argv)%nat then pperror else
      r ← func argv st; Done (Some r)
  end.

Definition function_expand (name : cstr) (argv : list cstr) (st : pp) : outcome (option (cstr * pp)) :=
  function_search function_table name argv st.

(** ** Variables *)

Fixpoint lookup_var (name : cstr) (l : list variable) : option variable :=
  match l with
  | [] => None
  | v :: l => if bool_decide (name = v_name v) then Some v else lookup_var name l
  end.

Definition variable_lookup (name : cstr) (st : pp) : option variable := lookup_var name (variable_list st).

(** Writing through the pointer that [variable_lookup] returned. *)
Fixpoint update_var (name : cstr) (f : variable -> variable) (l : list variable) : list variable :=
  match l with
  | [] => []
  | v :: l => if bool_decide (name = v_name v) then f v :: l else v :: update_var name f l
  end.

Definition update (name : cstr) (f : variable -> variable) (st : pp) : pp :=
  set_vars st (update_var name f (variable_list st)).

Definition enter (name : cstr) : pp -> pp := update name (fun v => set_count v (exp_count v + 1)).
Definition leave (name : cstr) : pp -> pp := update name (fun v => set_count v (exp_count v - 1)).

Definition expander : Type := list cstr -> cstr -> pp -> outcome (cstr * pp).

Definition variable_expand (rec : expander) (name : cstr) (argv : list cstr) (st : pp)
    : outcome (option (cstr * pp)) :=
  match variable_lookup name st with
  | None => Done None
  | Some v =>
      if bool_decide (argv = []) && negb (exp_count v =? 0) then pperror else
      if 1000 <? exp_count v then pperror else
      let st := enter name st in
      value ← defined (v_value v);
      '(res, st) ← (if bool_decide (v_flavor v = VAR_RECURSIVE) then rec argv value st else Done (value, st));
      Done (Some (res, leave name st))
  end.

(** ** Clauses *)

(** The loop of [eval_clause] that cuts the clause at the commas outside parentheses. *)
Fixpoint split_clause (nest : Z) (prev : cstr) (p : cstr) : list cstr :=
  match p with
  | [] => [prev]
  | c :: p =>
      if (nest =? 0) && (c =? 44) then prev :: split_clause nest [] p
      else if c =? 40 then split_clause (nest + 1) (prev ++ [c]) p
      else if c =? 41 then split_clause (nest - 1) (prev ++ [c]) p
      else split_clause nest (prev ++ [c]) p
  end.

Fixpoint expand_args (rec : expander) (argv : list cstr) (l : list cstr) (st : pp) : outcome (list cstr * pp) :=
  match l with
  | [] => Done ([], st)
  | s :: l =>
      '(x, st) ← rec argv s st;
      '(xs, st) ← expand_args rec argv l st;
      Done (x :: xs, st)
  end.

(** [!*endptr && n > 0 && n <= argc] *)
Definition positional (s : cstr) (argv : list cstr) : option cstr :=
  let '(n, used, _) := strtoul long_bits 10 s in
  if bool_decide (used = length s) && (0 <? n) && (n <=? Z.of_nat (length argv))
  then argv !! Z.to_nat (n - 1) else None.

(** Variables come before the built-in functions and these before the environment. *)
Definition search_name (rec : expander) (name : cstr) (args : list cstr) (st : pp) : outcome (cstr * pp) :=
  r ← variable_expand rec name args st;
  match r with
  | Some x => Done x
  | None =>
      r ← function_expand name args st;
      match r with
      | Some x => Done x
      | None =>
          match (if bool_decide (args = []) then env_expand name st else None) with
          | Some x => Done x
          | None => Done ([], st)
          end
      end
  end.

Definition eval_clause (rec : expander) (argv : list cstr) (s : cstr) (st : pp) : outcome (cstr * pp) :=
  match positional s argv with
  | Some x => Done (x, st)
  | None =>
      let new_argv := split_clause 0 [] s in
      (* the check is missing behind the loop: the 17th piece is stored behind the array *)
      if bool_decide (S FUNCTION_MAX_ARGS < length new_argv)%nat then pperror else
      if bool_decide (FUNCTION_MAX_ARGS < length new_argv)%nat then Undef else
      first ← defined (head new_argv);
      '(name, st) ← rec argv first st;
      '(args, st) ← expand_args rec argv (tail new_argv) st;
      search_name rec name args st
  end.

(** ** Strings *)

(** The part up to the matching parenthesis, and what follows it. *)
Fixpoint find_close (nest : Z) (q : cstr) : option (cstr * cstr) :=
  match q with
  | [] => None
  | c :: q =>
      if c =? 40 then '(a, b) ← find_close (nest + 1) q; Some (c :: a, b)
      else if c =? 41 then
        if nest =? 0 then Some ([], q) else '(a, b) ← find_close (nest - 1) q; Some (c :: a, b)
      else '(a, b) ← find_close nest q; Some (c :: a, b)
  end.

(** The expansion of what follows a dollar sign, the rest, and the state. *)
Definition expand_dollar_with_args (rec : expander) (argv : list cstr) (s : cstr) (st : pp)
    : outcome (cstr * cstr * pp) :=
  match s with
  | c :: p =>
      if c =? 40 then
        match find_close 0 p with
        | None => pperror
        | Some (clause, rest) => '(x, st) ← eval_clause rec argv clause st; Done (x, rest, st)
        end
      else Done ([36], s, st)
  | [] => Done ([36], s, st)
  end.

Definition is_end_of_str (c : Z) : bool := c =? 0.

(** [__expand_string]; the rest starts with the character that ended the loop. *)
Fixpoint expand_loop (fuel : nat) (is_end : Z -> bool) (argv : list cstr) (s : cstr) (st : pp)
    : outcome (cstr * cstr * pp) :=
  match fuel with
  | O => Undef
  | S fuel =>
      let rec : expander := fun argv s st =>
        '(out, _, st) ← expand_loop fuel is_end_of_str argv s st; Done (out, st) in
      match s with
      | [] => Done ([], [], st)
      | c :: p =>
          if c =? 36 then
            '(x, p, st) ← expand_dollar_with_args rec argv p st;
            '(out, p, st) ← expand_loop fuel is_end argv p st;
            Done (x ++ out, p, st)
          else if is_end c then Done ([], s, st)
          else '(out, p, st) ← expand_loop fuel is_end argv p st; Done (c :: out, p, st)
      end
  end.

Definition expand_string_with_args (fuel : nat) : expander := fun argv s st =>
  '(out, _, st) ← expand_loop fuel is_end_of_str argv s st; Done (out, st).

(** A bound for the depth of all calls: every variable can be entered
    1001 times at once, and between two entries a call works on a shorter string. *)
Definition value_length (v : variable) : nat := match v_value v with Some s => length s | None => 0 end.
Definition max_length (l : list variable) : nat := foldr (fun v n => Nat.max (value_length v) n) 0%nat l.
Definition budget (l : list variable) : nat :=
  foldr (fun v n => (Z.to_nat (1001 - exp_count v) + n)%nat) 0%nat l.
Definition expand_fuel (s : cstr) (st : pp) : nat :=
  (budget (variable_list st) * (max_length (variable_list st) + 2) + length s + 1)%nat.

Definition expand_string (s : cstr) (st : pp) : outcome (cstr * pp) :=
  expand_string_with_args (expand_fuel s st) [] s st.

Definition expand_dollar (s : cstr) (st : pp) : outcome (cstr * cstr * pp) :=
  expand_dollar_with_args (expand_string_with_args (expand_fuel s st)) [] s st.

Definition is_end_of_token (c : Z) : bool :=
  negb (isalnum c || (c =? 95) || (c =? 45) || (c =? 46) || (c =? 47)).

Definition expand_one_token (s : cstr) (st : pp) : outcome (cstr * cstr * pp) :=
  expand_loop (expand_fuel s st) is_end_of_token [] s st.

(** ** Definitions *)

Definition variable_add (name value : cstr) (flavor : variable_flavor) (st : pp) : outcome pp :=
  let '(flavor, append, st) :=
    match variable_lookup name st with
    | Some v =>
        if bool_decide (flavor = VAR_APPEND) then (v_flavor v, true, st)
        else (flavor, false, update name (fun v => set_value v None) st)
    | None =>
        ((if bool_decide (flavor = VAR_APPEND) then VAR_RECURSIVE else flavor), false,
         set_vars st (variable_list st ++ [Var name None flavor 0]))
    end in
  let st := update name (fun v => set_flavor v flavor) st in
  '(new_value, st) ← (if bool_decide (flavor = VAR_SIMPLE) then expand_string value st else Done (value, st));
  if (append : bool) then
    v ← defined (variable_lookup name st);
    old ← defined (v_value v);
    Done (update name (fun v => set_value v (Some (old ++ [32] ++ new_value))) st)
  else Done (update name (fun v => set_value v (Some new_value)) st).

Definition variable_all_del (st : pp) : pp := set_vars st [].

End preprocess.
