(* ===== verification/KPreSpec.v ===== *)
(** * Expansion ends, and templates

    What an expansion keeps of the state and that it always ends; then a reference
    semantics for the macro language: templates, their text and their values. *)

From stdpp Require Import options.
From S2P Require Import Prelude CLib KPre.

Set Default Proof Using "Type*".

(** ** Lists of variables *)

Lemma update_lookup name f l : (forall v, v_name (f v) = v_name v) ->
  lookup_var name (update_var name f l) = f <$> lookup_var name l.
Proof.
  intros Hf. induction l as [|v l IH]; [done|]. simpl.
  destruct (bool_decide (name = v_name v)) eqn:Hn; simpl; [by rewrite Hf, Hn|by rewrite Hn].
Qed.

Lemma update_lookup_ne name f l n : (forall v, v_name (f v) = v_name v) -> n <> name ->
  lookup_var n (update_var name f l) = lookup_var n l.
Proof.
  intros Hf Hne. induction l as [|v l IH]; [done|]. simpl.
  case_bool_decide as Hn; simpl; [|by rewrite IH]. rewrite Hf.
  by rewrite bool_decide_false by congruence.
Qed.

Lemma update_update name f g l : (forall v, v_name (f v) = v_name v) -> (forall v, g (f v) = v) ->
  update_var name g (update_var name f l) = l.
Proof.
  intros Hf Hg. induction l as [|v l IH]; [done|]. simpl.
  destruct (bool_decide (name = v_name v)) eqn:Hn; simpl; [by rewrite Hf, Hn, Hg|by rewrite Hn, IH].
Qed.

Lemma lookup_var_In name l v : lookup_var name l = Some v -> v ∈ l /\ v_name v = name.
Proof.
  induction l as [|x l IH]; [done|]. simpl. case_bool_decide.
  - intros [= <-]. split; [left|done].
  - intros [? ?]%IH. split; [by right|done].
Qed.

Lemma lookup_var_None name l : lookup_var name l = None -> name ∉ map v_name l.
Proof.
  induction l as [|x l IH]; simpl; [intros _; apply not_elem_of_nil|].
  case_bool_decide; [done|]. intros Hl. apply not_elem_of_cons. auto.
Qed.

Lemma update_names name f l : (forall v, v_name (f v) = v_name v) ->
  map v_name (update_var name f l) = map v_name l.
Proof.
  intros Hf. induction l as [|x l IH]; [done|]. simpl. case_bool_decide; simpl; [by rewrite Hf|by rewrite IH].
Qed.

Lemma lookup_var_app name l l' :
  lookup_var name (l ++ l') = match lookup_var name l with Some v => Some v | None => lookup_var name l' end.
Proof. induction l as [|x l IH]; [done|]. simpl. by case_bool_decide. Qed.

(** ** What is kept *)

Section keeps.
Context (getenv : cstr -> option cstr) (popen : cstr -> option (list Z)).
Context (file_name : cstr) (yylineno : Z) (long_bits : Z).

(** The remembered environment variables are those of the environment, each once. *)
Definition env_ok (st : pp) : Prop :=
  NoDup (map fst (env_list st)) /\
  Forall (fun '(n, v) => getenv n = Some v /\ n <> []) (env_list st).

Definition keeps (st st' : pp) : Prop :=
  variable_list st' = variable_list st /\ (env_ok st -> env_ok st') /\
  env_list st `prefix_of` env_list st' /\ printed st `prefix_of` printed st'.

#[export] Instance keeps_preorder : PreOrder keeps.
Proof.
  split; [by intros st; split_and!|].
  intros a b c (? & ? & ? & ?) (? & ? & ? & ?). split_and!; [congruence|auto|by etrans..].
Qed.

Definition rec_keeps (rec : expander) : Prop :=
  forall argv s st x st', rec argv s st = Done (x, st') -> keeps st st'.

Lemma env_lookup_None name l : env_lookup name l = None -> name ∉ map fst l.
Proof.
  induction l as [|[n v] l IH]; simpl; [intros _; apply not_elem_of_nil|].
  case_bool_decide; [done|]. intros Hl. apply not_elem_of_cons. auto.
Qed.

Lemma env_expand_keeps name st x st' : env_expand getenv name st = Some (x, st') -> keeps st st'.
Proof.
  unfold env_expand. case_bool_decide as Hn; [done|].
  destruct (env_lookup name (env_list st)) eqn:Hl; [by intros [= _ <-]|].
  destruct (getenv name) as [v|] eqn:Hg; [|done]. intros [= _ <-]. apply env_lookup_None in Hl.
  split_and!; [done| |by eexists|done]. intros [Hd Hf]. split; simpl.
  - rewrite map_app. apply NoDup_app. split_and!; [done| |by apply NoDup_singleton].
    intros y Hy ->%list_elem_of_singleton. done.
  - apply Forall_app. split; [done|]. by constructor.
Qed.

Lemma function_expand_keeps name argv st x st' :
  function_expand popen file_name yylineno name argv st = Done (Some (x, st')) -> keeps st st'.
Proof.
  unfold function_expand, function_table.
  repeat (cbn [function_search]; destruct (negb _); [|repeat (destruct (bool_decide _); [done|])]); [done|..];
    unfold do_error_if, do_filename, do_info, do_lineno, do_shell, do_warning_if;
    repeat (destruct (argv !! _); cbn [defined mbind outcome_bind]; [|done]); repeat case_match; try done; intros [= _ <-];
    try reflexivity.
  split_and!; [done|done|done|by eexists].
Qed.

Lemma keeps_leave name st st' : keeps (enter name st) st' -> keeps st (leave name st').
Proof.
  intros (Hl & He & Hp & Hq). split_and!; [|exact He|exact Hp|exact Hq]. cbn [leave update set_vars variable_list].
  rewrite Hl. cbn [enter update set_vars variable_list]. apply update_update; [done|].
  intros [n vl fl k]. unfold set_count. simpl. f_equal. lia.
Qed.

Lemma variable_expand_keeps rec name argv st x st' : rec_keeps rec ->
  variable_expand rec name argv st = Done (Some (x, st')) -> keeps st st'.
Proof.
  intros Hrec. unfold variable_expand. destruct (variable_lookup name st) as [v|] eqn:Hv; [|done].
  repeat (case_match; [done|]). destruct (v_value v) as [value|]; [|done]. cbn [defined mbind outcome_bind].
  destruct (bool_decide (v_flavor v = VAR_RECURSIVE)).
  - destruct (rec argv value _) as [[res st2]| |] eqn:Hr; [|done..]. intros [= _ <-]. by eapply keeps_leave, Hrec.
  - intros [= _ <-]. by apply keeps_leave.
Qed.

Lemma expand_args_keeps rec argv : rec_keeps rec -> forall l st xs st',
  expand_args rec argv l st = Done (xs, st') -> keeps st st' /\ length xs = length l.
Proof.
  intros Hrec. induction l as [|s l IH]; intros st xs st'; simpl; [by intros [= <- <-]|].
  destruct (rec argv s st) as [[x st1]| |] eqn:H1; [|done..]. cbn [mbind outcome_bind].
  destruct (expand_args rec argv l st1) as [[ys st2]| |] eqn:H2; [|done..]. intros [= <- <-].
  apply Hrec in H1. destruct (IH _ _ _ H2) as [H3 H4]. split; [by etrans|simpl; by f_equal].
Qed.

Lemma search_name_keeps rec name args st x st' : rec_keeps rec ->
  search_name getenv popen file_name yylineno rec name args st = Done (x, st') -> keeps st st'.
Proof.
  intros Hrec. unfold search_name.
  destruct (variable_expand rec name args st) as [[[y st1]|]| |] eqn:H1; [|cbn [mbind outcome_bind]|done..].
  { intros [= _ <-]. by eapply variable_expand_keeps. }
  destruct (function_expand _ _ _ name args st) as [[[y st1]|]| |] eqn:H2; [|cbn [mbind outcome_bind]|done..].
  { intros [= _ <-]. by eapply function_expand_keeps. }
  destruct (if bool_decide (args = []) then env_expand getenv name st else None) as [[y st1]|] eqn:H3.
  - intros [= _ <-]. case_bool_decide; [|done]. by eapply env_expand_keeps.
  - by intros [= _ <-].
Qed.

Lemma eval_clause_keeps rec argv s st x st' : rec_keeps rec ->
  eval_clause getenv popen file_name yylineno long_bits rec argv s st = Done (x, st') -> keeps st st'.
Proof.
  intros Hrec. unfold eval_clause. destruct (positional _ _ _); [by intros [= _ <-]|].
  case_match; [done|]. case_match; [done|]. destruct (head _) as [first|]; [|done]. cbn [defined mbind outcome_bind].
  destruct (rec argv first st) as [[name st1]| |] eqn:H1; [|done..]. cbn [mbind outcome_bind].
  destruct (expand_args rec argv _ st1) as [[args st2]| |] eqn:H2; [|done..]. cbn [mbind outcome_bind].
  apply Hrec in H1. apply expand_args_keeps in H2 as [H2 _]; [|done]. rewrite H1, H2. by apply search_name_keeps.
Qed.

Lemma expand_dollar_keeps rec argv s st x r st' : rec_keeps rec ->
  expand_dollar_with_args getenv popen file_name yylineno long_bits rec argv s st = Done (x, r, st') -> keeps st st'.
Proof.
  intros Hrec. unfold expand_dollar_with_args. destruct s as [|c p]; [by intros [= _ _ <-]|].
  case_match; [|by intros [= _ _ <-]]. destruct (find_close 0 p) as [[clause rest]|]; [|done].
  destruct (eval_clause _ _ _ _ _ rec argv clause st) as [[y st1]| |] eqn:He; [|done..].
  intros [= _ _ <-]. by eapply eval_clause_keeps.
Qed.

Lemma expand_loop_keeps fuel : forall is_end argv s st x r st',
  expand_loop getenv popen file_name yylineno long_bits fuel is_end argv s st = Done (x, r, st') -> keeps st st'.
Proof.
  induction fuel as [|fuel IH]; intros is_end argv s st x r st'; [done|]. cbn [expand_loop].
  destruct s as [|c p]; [by intros [= _ _ <-]|]. case_match.
  - match goal with |- context [expand_dollar_with_args _ _ _ _ _ ?rec] => assert (rec_keeps rec) as Hrec end.
    { intros a t st1 y st2. destruct (expand_loop _ _ _ _ _ fuel _ a t st1) as [[[o q] st3]| |] eqn:Hl; [|done..].
      intros [= _ <-]. by eapply IH. }
    destruct (expand_dollar_with_args _ _ _ _ _ _ argv p st) as [[[y q] st1]| |] eqn:Hd; [|done..].
    cbn [mbind outcome_bind]. apply expand_dollar_keeps in Hd; [|done]. rewrite Hd.
    destruct (expand_loop _ _ _ _ _ fuel is_end argv q st1) as [[[o q'] st2]| |] eqn:Hl; [|done..].
    intros [= _ _ <-]. by eapply IH.
  - case_match; [by intros [= _ _ <-]|].
    destruct (expand_loop _ _ _ _ _ fuel is_end argv p st) as [[[o q'] st2]| |] eqn:Hl; [|done..].
    intros [= _ _ <-]. by eapply IH.
Qed.

Lemma expand_string_with_args_keeps fuel :
  rec_keeps (expand_string_with_args getenv popen file_name yylineno long_bits fuel).
Proof.
  intros argv s st x st'. unfold expand_string_with_args.
  destruct (expand_loop _ _ _ _ _ fuel _ argv s st) as [[[o q] st3]| |] eqn:Hl; [|done..].
  intros [= _ <-]. by eapply expand_loop_keeps.
Qed.

End keeps.

(** ** Sizes *)

Definition commas (s : cstr) : nat := length (List.filter (Z.eqb 44) s).

Lemma commas_app a b : commas (a ++ b) = (commas a + commas b)%nat.
Proof. unfold commas. by rewrite List.filter_app, length_app. Qed.

Lemma commas_cons c s : commas (c :: s) = ((if Z.eqb 44 c then 1 else 0) + commas s)%nat.
Proof. unfold commas. cbn [List.filter]. by destruct (Z.eqb 44 c). Qed.

Lemma split_clause_sizes : forall s nest prev,
  Forall (fun p => length p <= length prev + length s /\ commas p <= commas prev + commas s)%nat (split_clause nest prev s) /\
  (0 < length (split_clause nest prev s) <= 1 + commas s)%nat.
Proof.
  induction s as [|c s IH]; intros nest prev; simpl; [split; [repeat constructor; lia|lia]|].
  assert (forall m, Forall (fun p => length p <= length prev + S (length s) /\ commas p <= commas prev + commas (c :: s))%nat
      (split_clause m (prev ++ [c]) s) /\ (0 < length (split_clause m (prev ++ [c]) s) <= 1 + commas (c :: s))%nat) as Hrest.
  { intros m. destruct (IH m (prev ++ [c])) as [Hf Hl]. rewrite commas_app, length_app in Hf. rewrite !commas_cons in *.
    change (commas []) with O in Hf. simpl length in Hf. split; [|case_match; lia].
    eapply Forall_impl; [exact Hf|]. simpl. intros p [? ?]. case_match; lia. }
  destruct ((nest =? 0) && (c =? 44)) eqn:Hc; [|by repeat case_match].
  apply andb_prop in Hc as [_ ->%Z.eqb_eq]. destruct (IH nest []) as [Hf Hl]. rewrite commas_cons. simpl.
  split; [|lia]. constructor; [lia|]. eapply Forall_impl; [exact Hf|]. simpl. intros p [? ?].
  change (commas []) with O in *. lia.
Qed.

Lemma find_close_sizes : forall q nest a b, find_close nest q = Some (a, b) ->
  (length a + length b < length q /\ commas a <= commas q /\ commas b <= commas q)%nat.
Proof.
  induction q as [|c q IH]; intros nest a b; [done|]. simpl. rewrite commas_cons.
  assert (forall m a b, (find_close m q ≫= fun '(a, b) => Some (c :: a, b)) = Some (a, b) ->
    (length a + length b < S (length q) /\ commas a <= (if Z.eqb 44 c then 1 else 0) + commas q /\
     commas b <= (if Z.eqb 44 c then 1 else 0) + commas q)%nat) as Hrest.
  { clear a b. intros m a b. destruct (find_close m q) as [[a' b']|] eqn:Hq; [|done]. intros [= <- <-].
    apply IH in Hq. rewrite commas_cons. simpl. lia. }
  destruct (c =? 40); [apply Hrest|]. destruct (c =? 41); [|apply Hrest]. destruct (nest =? 0); [|apply Hrest].
  intros [= <- <-]. change (commas []) with O. simpl. lia.
Qed.

Lemma budget_update name l v : lookup_var name l = Some v -> exp_count v <= 1000 ->
  budget l = S (budget (update_var name (fun v => set_count v (exp_count v + 1)) l)).
Proof.
  induction l as [|x l IH]; [done|]. simpl. case_bool_decide; simpl.
  - intros [= ->] Hc. lia.
  - intros Hl Hc. rewrite (IH Hl Hc). lia.
Qed.

Lemma max_length_update name l :
  max_length (update_var name (fun v => set_count v (exp_count v + 1)) l) = max_length l.
Proof. induction l as [|x l IH]; [done|]. simpl. case_bool_decide; simpl; [done|by rewrite IH]. Qed.

Lemma max_length_In v l : v ∈ l -> (value_length v <= max_length l)%nat.
Proof. induction 1; simpl; lia. Qed.

(** Values that are set and have less than sixteen commas. *)
Definition value_ok (v : variable) : Prop := exists s, v_value v = Some s /\ (commas s <= 15)%nat.

Lemma values_update name l : Forall value_ok l ->
  Forall value_ok (update_var name (fun v => set_count v (exp_count v + 1)) l).
Proof. induction 1; simpl; [done|]. case_bool_decide; by constructor. Qed.

(** ** Every expansion ends *)

Definition fine {A} (r : outcome A) : Prop :=
  match r with Done _ => True | Exit c => c = 1 | Undef => False end.

Lemma fine_bind {A B} (m : outcome A) (f : A -> outcome B) :
  fine m -> (forall a, m = Done a -> fine (f a)) -> fine (m ≫= f).
Proof. destruct m; simpl; auto. Qed.

Section ends.
Context (getenv : cstr -> option cstr) (popen : cstr -> option (list Z)).
Context (file_name : cstr) (yylineno : Z) (long_bits : Z).

Abbreviation keeps := (keeps getenv).
Abbreviation rec_keeps := (rec_keeps getenv).

Definition rec_fine (rec : expander) (fuel : nat) : Prop := forall argv s st,
  Forall value_ok (variable_list st) -> (commas s <= 15)%nat -> (expand_fuel s st <= fuel)%nat -> fine (rec argv s st).

Lemma expand_fuel_keeps s st st' : keeps st st' -> expand_fuel s st' = expand_fuel s st.
Proof. intros (Hl & _). unfold expand_fuel. by rewrite Hl. Qed.

Lemma function_expand_fine name argv st : fine (function_expand popen file_name yylineno name argv st).
Proof.
  unfold function_expand, function_table.
  repeat (cbn [function_search]; destruct (negb _); [|repeat (case_bool_decide; [done|])]); [done|..];
    unfold do_error_if, do_filename, do_info, do_lineno, do_shell, do_warning_if;
    try (destruct argv as [|a argv]; [simpl in *; lia|]); cbn [lookup list_lookup defined mbind outcome_bind];
    repeat case_match; done.
Qed.

Lemma variable_expand_fine rec fuel name argv st :
  rec_fine rec fuel -> Forall value_ok (variable_list st) ->
  (budget (variable_list st) * (max_length (variable_list st) + 2) <= fuel)%nat ->
  fine (variable_expand rec name argv st).
Proof.
  intros Hrec Hok Hf. unfold variable_expand. destruct (variable_lookup name st) as [v|] eqn:Hv; [|done].
  case_match; [done|]. destruct (Z.ltb_spec 1000 (exp_count v)); [done|].
  destruct (lookup_var_In _ _ _ Hv) as [Hin _]. rewrite Forall_forall in Hok.
  destruct (Hok v Hin) as (s & Hs & Hcm). rewrite Hs. cbn [defined mbind outcome_bind].
  apply fine_bind; [|by intros [? ?] _]. case_match; [|done]. apply Hrec; [|done|].
  - apply values_update. by apply Forall_forall.
  - unfold expand_fuel. cbn [enter update set_vars variable_list]. rewrite max_length_update.
    rewrite (budget_update name _ v Hv) in Hf by lia. apply max_length_In in Hin. unfold value_length in Hin.
    rewrite Hs in Hin. lia.
Qed.

Lemma expand_args_fine rec fuel argv : rec_keeps rec -> rec_fine rec fuel -> forall l st,
  Forall value_ok (variable_list st) ->
  Forall (fun s => commas s <= 15 /\ expand_fuel s st <= fuel)%nat l -> fine (expand_args rec argv l st).
Proof.
  intros Hk Hrec. induction l as [|s l IH]; intros st Hok Hl; [done|].
  apply Forall_cons in Hl as [[Hs Hf] Hl]. cbn [expand_args]. apply fine_bind; [by apply Hrec|].
  intros [x st1] Hx. apply Hk in Hx. apply fine_bind; [|by intros [? ?] _]. apply IH.
  - by destruct Hx as (-> & _).
  - eapply Forall_impl; [exact Hl|]. simpl. intros t. by rewrite (expand_fuel_keeps t _ _ Hx).
Qed.

Lemma eval_clause_fine rec fuel argv s st : rec_keeps rec -> rec_fine rec fuel ->
  Forall value_ok (variable_list st) -> (commas s <= 15)%nat -> (expand_fuel s st <= fuel)%nat ->
  fine (eval_clause getenv popen file_name yylineno long_bits rec argv s st).
Proof.
  intros Hk Hrec Hok Hc Hf. unfold eval_clause. destruct (positional _ _ _); [done|].
  destruct (split_clause_sizes s 0 []) as [Hp Hl]. change (commas []) with O in Hp.
  unfold FUNCTION_MAX_ARGS. rewrite !bool_decide_false by lia.
  assert (Forall (fun t => commas t <= 15 /\ expand_fuel t st <= fuel)%nat (split_clause 0 [] s)) as Hpf.
  { eapply Forall_impl; [exact Hp|]. simpl. unfold expand_fuel in *. lia. }
  destruct (split_clause 0 [] s) as [|first rest]; [simpl in Hl; lia|]. cbn [head tail defined mbind outcome_bind].
  apply Forall_cons in Hpf as [[Hc1 Hf1] Hpf]. apply fine_bind; [by apply Hrec|].
  intros [name st1] H1%Hk. cbn beta iota. assert (Forall value_ok (variable_list st1)) as Hok1 by (by destruct H1 as (-> & _)).
  apply fine_bind.
  { eapply expand_args_fine; [done..|]. eapply Forall_impl; [exact Hpf|]. simpl. intros t.
    by rewrite (expand_fuel_keeps t _ _ H1). }
  intros [args st2] H2. apply (expand_args_keeps getenv) in H2 as [H2 _]; [|done]. cbn beta iota.
  unfold search_name. apply fine_bind.
  { apply (variable_expand_fine rec fuel); [done|by destruct H2 as (-> & _)|].
    assert (keeps st st2) as (-> & _) by (by transitivity st1). unfold expand_fuel in Hf. lia. }
  intros [r|] _; [done|]. apply fine_bind; [apply function_expand_fine|]. intros [r|] _; [done|]. by case_match.
Qed.

Lemma expand_dollar_fine rec fuel argv s st : rec_keeps rec -> rec_fine rec fuel ->
  Forall value_ok (variable_list st) -> (commas s <= 15)%nat -> (expand_fuel s st <= S fuel)%nat ->
  fine (expand_dollar_with_args getenv popen file_name yylineno long_bits rec argv s st) /\
  forall x r st', expand_dollar_with_args getenv popen file_name yylineno long_bits rec argv s st = Done (x, r, st') ->
    (length r <= length s /\ commas r <= commas s)%nat.
Proof.
  intros Hk Hrec Hok Hc Hf. unfold expand_dollar_with_args.
  destruct s as [|c p]; [split; [done|by intros ? ? ? [= _ <- _]]|].
  case_match; [|split; [done|by intros ? ? ? [= _ <- _]]].
  destruct (find_close 0 p) as [[clause rest]|] eqn:Hcl; [|by split].
  apply find_close_sizes in Hcl as (Hl & Hca & Hcb). rewrite commas_cons in *. split.
  - apply fine_bind; [|by intros [? ?] _]. eapply eval_clause_fine; [done..|lia|]. unfold expand_fuel in *. simpl in *. lia.
  - destruct (eval_clause _ _ _ _ _ _ _ _ _) as [[y st1]| |]; [|done..]. intros ? ? ? [= _ <- _]. simpl. lia.
Qed.

Lemma expand_loop_fine fuel : forall is_end argv s st,
  Forall value_ok (variable_list st) -> (commas s <= 15)%nat -> (expand_fuel s st <= fuel)%nat ->
  fine (expand_loop getenv popen file_name yylineno long_bits fuel is_end argv s st).
Proof.
  induction fuel as [|fuel IH]; intros is_end argv s st Hok Hc Hf; [unfold expand_fuel in Hf; lia|].
  cbn [expand_loop]. destruct s as [|c p]; [done|]. rewrite commas_cons in Hc.
  assert (expand_fuel p st <= fuel)%nat as Hfp by (unfold expand_fuel in *; simpl in Hf; lia).
  destruct (c =? 36).
  - set (rec := fun argv s st => _).
    assert (rec_keeps rec) as Hk by apply (expand_string_with_args_keeps getenv popen file_name yylineno long_bits fuel).
    assert (rec_fine rec fuel) as Hr.
    { intros a t st1 Hok1 Hc1 Hf1. apply fine_bind; [by apply IH|by intros [[? ?] ?] _]. }
    destruct (expand_dollar_fine rec fuel argv p st Hk Hr Hok) as [Hd Hsz]; [lia|lia|].
    apply fine_bind; [done|]. intros [[x q] st1] H1. destruct (Hsz _ _ _ H1) as [Hq1 Hq2].
    apply (expand_dollar_keeps getenv) in H1; [|done]. cbn beta iota.
    apply fine_bind; [|by intros [[? ?] ?] _]. apply IH; [by destruct H1 as (-> & _)|lia|].
    rewrite (expand_fuel_keeps _ _ _ H1). unfold expand_fuel in *. lia.
  - destruct (is_end c); [done|]. apply fine_bind; [|by intros [[? ?] ?] _]. apply IH; [done|lia|done].
Qed.

End ends.

(** ** Templates

    A reference semantics for the macro language: texts with references to
    arguments, variables, user-defined functions and the environment, and their
    values.  The expansion of the text of a template gives its value. *)


Definition cstr_dec : forall a b : cstr, {a = b} + {a <> b} := fun a b => decide (a = b).

(** A piece of a template: text, an argument of the function that is being expanded, or a
    reference whose name and arguments are templates. *)
Inductive tok :=
| Txt (s : cstr)
| Arg (n : Z)
| Ref (fn : list tok) (args : list (list tok)).

(** ** Concrete syntax *)

Fixpoint pr (t : tok) : cstr :=
  match t with
  | Txt s => s
  | Arg n => [36; 40] ++ print_u n ++ [41]
  | Ref fn args => [36; 40] ++ concat (map pr fn) ++ concat (map (fun a => 44 :: concat (map pr a)) args) ++ [41]
  end.

Definition prs (l : list tok) : cstr := concat (map pr l).

Definition clause_of (fn : list tok) (args : list (list tok)) : cstr :=
  prs fn ++ concat (map (fun a => 44 :: prs a) args).

(** Text has no dollar sign, and inside a reference no parentheses and commas. *)
Definition text_char (inside : bool) (c : Z) : bool :=
  negb ((c =? 0) || (c =? 36)) && negb (inside && ((c =? 40) || (c =? 41) || (c =? 44))).

(** A name that is not taken for the number of an argument. *)
Definition starts_name (s : cstr) : bool :=
  match s with [] => true | c :: _ => negb (isspace c || isdigit c || (c =? 43) || (c =? 45)) end.

Fixpoint wf_tok (inside : bool) (t : tok) : bool :=
  match t with
  | Txt s => forallb (text_char inside) s
  | Arg n => (1 <=? n) && (n <=? 15)
  | Ref fn args =>
      forallb (wf_tok true) fn && forallb (forallb (wf_tok true)) args &&
      (Nat.leb (length args) 15) && starts_name (clause_of fn args)
  end.

Abbreviation wf := (fun inside l => forallb (wf_tok inside) l).

(** ** Values *)

Inductive def := Simple (s : cstr) | Recursive (body : list tok).

Section values.
Context (getenv : cstr -> option cstr) (defs : cstr -> option def).

Definition builtins : list cstr :=
  [str "error-if"; str "filename"; str "info"; str "lineno"; str "shell"; str "warning-if"].

(** A variable without arguments may not be used inside its own expansion, and a
    function not more than a thousand times. *)
Definition may_enter (active : list cstr) (name : cstr) (xs : list cstr) : Prop :=
  (xs = [] -> name ∉ active) /\ (count_occ cstr_dec active name <= 1000)%nat.

Inductive ev : list cstr -> list cstr -> list tok -> cstr -> Prop :=
| ev_nil A ps : ev A ps [] []
| ev_txt A ps s l v : ev A ps l v -> ev A ps (Txt s :: l) (s ++ v)
| ev_arg A ps n x l v :
    ps !! Z.to_nat (n - 1) = Some x -> ev A ps l v -> ev A ps (Arg n :: l) (x ++ v)
| ev_ref A ps fn args name xs r l v :
    ev A ps fn name -> evs A ps args xs -> call A name xs r -> ev A ps l v ->
    ev A ps (Ref fn args :: l) (r ++ v)
with evs : list cstr -> list cstr -> list (list tok) -> list cstr -> Prop :=
| evs_nil A ps : evs A ps [] []
| evs_cons A ps a x args xs : ev A ps a x -> evs A ps args xs -> evs A ps (a :: args) (x :: xs)
with call : list cstr -> cstr -> list cstr -> cstr -> Prop :=
| call_simple A name xs s : defs name = Some (Simple s) -> may_enter A name xs -> call A name xs s
| call_recursive A name xs body r :
    defs name = Some (Recursive body) -> may_enter A name xs -> ev (name :: A) xs body r ->
    call A name xs r
| call_env A name v :
    defs name = None -> name ∉ builtins -> name <> [] -> getenv name = Some v -> call A name [] v
| call_undefined A name xs :
    defs name = None -> name ∉ builtins -> xs <> [] \/ name = [] \/ getenv name = None -> call A name xs [].

Scheme ev_mut := Minimality for ev Sort Prop
  with evs_mut := Minimality for evs Sort Prop
  with call_mut := Minimality for call Sort Prop.
Combined Scheme ev_evs_call_ind from ev_mut, evs_mut, call_mut.

(** The variables hold these definitions; [active] are being expanded. *)
Definition models (active : list cstr) (st : pp) : Prop := forall name,
  variable_lookup name st =
    match defs name with
    | None => None
    | Some (Simple s) => Some (Var name (Some s) VAR_SIMPLE (Z.of_nat (count_occ cstr_dec active name)))
    | Some (Recursive body) => Some (Var name (Some (prs body)) VAR_RECURSIVE (Z.of_nat (count_occ cstr_dec active name)))
    end.

Definition bodies_ok : Prop := forall name body, defs name = Some (Recursive body) -> wf false body = true.

End values.

(** ** Parentheses and commas of printed templates *)

(** [s] has matching parentheses. *)
Definition balanced (s : cstr) : Prop :=
  (forall nest rest, 0 <= nest -> find_close nest (s ++ rest) = '(a, b) ← find_close nest rest; Some (s ++ a, b)) /\
  (forall nest prev rest, 0 < nest -> split_clause nest prev (s ++ rest) = split_clause nest (prev ++ s) rest).

(** And no commas outside them. *)
Definition piece (s : cstr) : Prop :=
  balanced s /\ forall prev rest, split_clause 0 prev (s ++ rest) = split_clause 0 (prev ++ s) rest.

Lemma find_bind_id nest rest : ('(a, b) ← find_close nest rest; Some (a, b)) = find_close nest rest.
Proof. by destruct (find_close nest rest) as [[]|]. Qed.

Lemma balanced_app a b : balanced a -> balanced b -> balanced (a ++ b).
Proof.
  intros [Ha1 Ha2] [Hb1 Hb2]. split.
  - intros nest rest Hn. rewrite <- app_assoc, Ha1, Hb1 by done.
    destruct (find_close nest rest) as [[x y]|]; [|done]. simpl. by rewrite app_assoc.
  - intros nest prev rest Hn. by rewrite <- app_assoc, Ha2, Hb2, app_assoc by done.
Qed.

Lemma piece_app a b : piece a -> piece b -> piece (a ++ b).
Proof.
  intros [Ha1 Ha2] [Hb1 Hb2]. split; [by apply balanced_app|].
  intros prev rest. by rewrite <- app_assoc, Ha2, Hb2, app_assoc.
Qed.

Lemma piece_nil : piece [].
Proof.
  split; [split|]; [intros; by rewrite find_bind_id|intros; by rewrite app_nil_r..].
Qed.

Lemma piece_char c : c <> 40 -> c <> 41 -> c <> 44 -> piece [c].
Proof.
  intros H1 H2 H3. split; [split|]; simpl; intros;
    rewrite ?(proj2 (Z.eqb_neq c 40)), ?(proj2 (Z.eqb_neq c 41)), ?(proj2 (Z.eqb_neq c 44)), ?andb_false_r by done; done.
Qed.

Lemma balanced_comma : balanced [44].
Proof.
  split; simpl; intros; [done|]. by rewrite (proj2 (Z.eqb_neq nest 0)) by lia.
Qed.

Lemma piece_parens s : balanced s -> piece ([40] ++ s ++ [41]).
Proof.
  intros [H1 H2]. assert (forall nest prev rest, 0 <= nest ->
    split_clause nest prev (([40] ++ s ++ [41]) ++ rest) = split_clause nest (prev ++ [40] ++ s ++ [41]) rest) as Hsp.
  { intros nest prev rest Hn. cbn [app split_clause]. rewrite andb_false_r. change (40 =? 40) with true. cbn iota.
    rewrite <- app_assoc, H2 by lia. cbn [app split_clause]. rewrite andb_false_r.
    change (41 =? 40) with false. change (41 =? 41) with true. cbn iota. rewrite Z.add_simpl_r. by rewrite <- !app_assoc. }
  split; [split|]; [|intros; apply Hsp; lia..].
  intros nest rest Hn. cbn [app find_close]. change (40 =? 40) with true. cbn iota.
  rewrite <- app_assoc, H1 by lia. cbn [app find_close]. change (41 =? 40) with false. change (41 =? 41) with true. cbn iota.
  rewrite (proj2 (Z.eqb_neq (nest + 1) 0)) by lia. rewrite Z.add_simpl_r.
  destruct (find_close nest rest) as [[x y]|]; [|done]. simpl. by rewrite <- app_assoc.
Qed.

Lemma piece_dollar s : balanced s -> piece ([36; 40] ++ s ++ [41]).
Proof. intros Hs. apply (piece_app [36]); [by apply piece_char|by apply piece_parens]. Qed.

Lemma piece_text s : forallb (text_char true) s = true -> piece s.
Proof.
  induction s as [|c s IH]; [intros _; apply piece_nil|]. simpl. intros [Hc Hs]%andb_prop.
  apply (piece_app [c]); [|by apply IH]. unfold text_char in Hc. b2p.
  apply piece_char; lia.
Qed.

Lemma piece_concat l : Forall piece l -> piece (concat l).
Proof. induction 1; simpl; [apply piece_nil|by apply piece_app]. Qed.

Lemma print_u_digits n : 1 <= n <= 15 ->
  forallb (text_char true) (print_u n) = true /\ strto_core 10 (print_u n) = (false, n, length (print_u n)).
Proof.
  intros Hn. assert (forall k, 0 <= k < 16 -> k = 0 \/
    (forallb (text_char true) (print_u k) = true /\ strto_core 10 (print_u k) = (false, k, length (print_u k)))) as H.
  { intros k. apply (below_dec (fun k => k = 0 \/ (forallb (text_char true) (print_u k) = true /\
      strto_core 10 (print_u k) = (false, k, length (print_u k)))) 16 k). vm_compute. done. }
  destruct (H n); [lia..|done].
Qed.

(** Induction over the pieces of a template. *)
Lemma tok_ind' (P : tok -> Prop) :
  (forall s, P (Txt s)) -> (forall n, P (Arg n)) ->
  (forall fn args, Forall P fn -> Forall (Forall P) args -> P (Ref fn args)) -> forall t, P t.
Proof.
  intros Ht Ha Hr. fix rec 1. intros [s|n|fn args]; [apply Ht|apply Ha|apply Hr].
  - induction fn as [|t l IH]; constructor; [apply rec|exact IH].
  - induction args as [|a args IH]; constructor; [|exact IH].
    induction a as [|t l IH']; constructor; [apply rec|exact IH'].
Qed.

Lemma pr_piece t : wf_tok true t = true -> piece (pr t).
Proof.
  induction t as [s|n|fn args Hfn Hargs] using tok_ind'; simpl; intros Hw.
  - by apply piece_text.
  - b2p. apply (piece_dollar (print_u n)), piece_text, print_u_digits. lia.
  - rewrite !andb_true_iff in Hw. destruct Hw as [[[Hf Ha] _] _].
    rewrite forallb_forall in Hf, Ha. pose proof (proj1 (Forall_forall _ _) Hfn) as Hfn'. pose proof (proj1 (Forall_forall _ _) Hargs) as Hargs'. clear Hfn Hargs.
    change (piece ([36; 40] ++ prs fn ++ concat (map (fun a => 44 :: prs a) args) ++ [41])). rewrite (app_assoc (prs fn)).
    assert (forall l, (forall t, t ∈ l -> wf_tok true t = true -> piece (pr t)) -> (forall t, In t l -> wf_tok true t = true) -> piece (prs l)) as Hprs.
    { intros l H1 H2. apply piece_concat, Forall_forall. intros x (t & -> & Ht)%list_elem_of_fmap.
      apply H1; [done|]. by apply H2, list_elem_of_In. }
    apply piece_dollar, balanced_app; [by apply Hprs|]. clear Hfn' Hf.
    induction args as [|a args IH]; [apply piece_nil|]. cbn [map concat].
    apply (balanced_app (44 :: prs a)).
    + apply (balanced_app [44]); [apply balanced_comma|]. apply Hprs.
      * intros t Ht. assert (Forall (fun t => wf_tok true t = true -> piece (pr t)) a) as Hfa by (apply Hargs'; left).
        rewrite Forall_forall in Hfa. by apply Hfa.
      * apply forallb_forall, Ha. by left.
    + apply IH; [intros x Hx; apply Ha; by right|intros x Hx; apply Hargs'; by right].
Qed.

Lemma prs_piece l : wf true l = true -> piece (prs l).
Proof.
  intros Hl. apply piece_concat, Forall_forall. intros x (t & -> & Ht)%list_elem_of_fmap.
  rewrite forallb_forall in Hl. by apply pr_piece, Hl, list_elem_of_In.
Qed.
