(* ===== verification/KPreProps.v ===== *)
(** * The macro language: theorems *)

From stdpp Require Import relations options.
From S2P Require Import Prelude CLib KPre KPreSpec.

Set Default Proof Using "Type*".

(** ** More fuel *)

Section fuel.
Context (getenv : cstr -> option cstr) (popen : cstr -> option (list Z)).
Context (file_name : cstr) (yylineno : Z) (long_bits : Z).

(** [r'] is [r] unless [r] is undefined. *)
Definition above {A} (r r' : outcome A) : Prop := r = Undef \/ r' = r.

Definition rec_above (rec rec' : expander) : Prop := forall argv s st, above (rec argv s st) (rec' argv s st).

Lemma above_refl {A} (r : outcome A) : above r r.
Proof. by right. Qed.

Lemma above_bind {A B} (m m' : outcome A) (f f' : A -> outcome B) :
  above m m' -> (forall a, above (f a) (f' a)) -> above (m ≫= f) (m' ≫= f').
Proof. intros [-> | ->] Hf; [by left|]. destruct m; [apply Hf|by right..]. Qed.

#[local] Hint Resolve above_refl above_bind : core.

Lemma variable_expand_above rec rec' name argv st : rec_above rec rec' ->
  above (variable_expand rec name argv st) (variable_expand rec' name argv st).
Proof.
  intros Hr. unfold variable_expand. destruct (variable_lookup name st) as [v|]; [|done].
  repeat (case_match; [done|]). apply above_bind; [done|]. intros value. apply above_bind; [by case_match|].
  by intros [? ?].
Qed.

Lemma expand_args_above rec rec' argv : rec_above rec rec' -> forall l st,
  above (expand_args rec argv l st) (expand_args rec' argv l st).
Proof.
  intros Hr. induction l as [|s l IH]; intros st; [done|]. cbn [expand_args].
  apply above_bind; [done|]. intros [x st1]. apply above_bind; [done|]. by intros [? ?].
Qed.

Lemma eval_clause_above rec rec' argv s st : rec_above rec rec' ->
  above (eval_clause getenv popen file_name yylineno long_bits rec argv s st)
        (eval_clause getenv popen file_name yylineno long_bits rec' argv s st).
Proof.
  intros Hr. unfold eval_clause. repeat (case_match; [done|]).
  apply above_bind; [done|]. intros first. apply above_bind; [done|]. intros [name st1].
  apply above_bind; [by apply expand_args_above|]. intros [args st2].
  unfold search_name. apply above_bind; [by apply variable_expand_above|]. by intros [?|].
Qed.

Lemma expand_dollar_above rec rec' argv s st : rec_above rec rec' ->
  above (expand_dollar_with_args getenv popen file_name yylineno long_bits rec argv s st)
        (expand_dollar_with_args getenv popen file_name yylineno long_bits rec' argv s st).
Proof.
  intros Hr. unfold expand_dollar_with_args. repeat case_match; try done.
  apply above_bind; [by apply eval_clause_above|]. by intros [? ?].
Qed.

Lemma expand_loop_above : forall fuel fuel' is_end argv s st, (fuel <= fuel')%nat ->
  above (expand_loop getenv popen file_name yylineno long_bits fuel is_end argv s st)
        (expand_loop getenv popen file_name yylineno long_bits fuel' is_end argv s st).
Proof.
  induction fuel as [|fuel IH]; intros fuel' is_end argv s st Hf; [by left|].
  destruct fuel' as [|fuel']; [lia|]. cbn [expand_loop]. destruct s as [|c p]; [done|].
  destruct (c =? 36).
  - apply above_bind.
    + apply expand_dollar_above. intros a t st1. apply above_bind; [apply IH; lia|done].
    + intros [[x q] st1]. apply above_bind; [apply IH; lia|done].
  - destruct (is_end c); [done|]. apply above_bind; [apply IH; lia|done].
Qed.

End fuel.

(** ** Clauses of printed references *)

Lemma clause_balanced fn args :
  wf true fn = true -> forallb (fun a => wf true a) args = true -> balanced (clause_of fn args).
Proof.
  intros Hf Ha. apply balanced_app; [by apply prs_piece|].
  induction args as [|a args IH]; [apply piece_nil|]. simpl in Ha. apply andb_prop in Ha as [Ha Hr].
  cbn [map concat]. apply (balanced_app (44 :: prs a)); [|by apply IH].
  apply (balanced_app [44]); [apply balanced_comma|by apply prs_piece].
Qed.

Lemma split_clause_of fn args :
  wf true fn = true -> forallb (fun a => wf true a) args = true ->
  split_clause 0 [] (clause_of fn args) = prs fn :: map prs args.
Proof.
  intros Hf Ha. unfold clause_of. rewrite (proj2 (prs_piece fn Hf)), app_nil_l. generalize (prs fn) as prev.
  induction args as [|a args IH]; intros prev; [done|]. simpl in Ha. apply andb_prop in Ha as [Ha Hr].
  cbn [map concat app split_clause]. change ((0 =? 0) && (44 =? 44)) with true. cbn iota. f_equal.
  rewrite (proj2 (prs_piece a Ha)). by apply IH.
Qed.

Lemma find_close_clause fn args rest :
  wf true fn = true -> forallb (fun a => wf true a) args = true ->
  find_close 0 (clause_of fn args ++ 41 :: rest) = Some (clause_of fn args, rest).
Proof.
  intros Hf Ha. rewrite (proj1 (clause_balanced fn args Hf Ha)) by lia. simpl. by rewrite app_nil_r.
Qed.

Lemma positional_name long_bits s ps : starts_name s = true -> positional long_bits s ps = None.
Proof.
  intros Hs. unfold positional, strtoul.
  assert (strto_core 10 s = (false, 0, O)) as ->.
  { destruct s as [|c s]; [done|]. unfold starts_name in Hs. b2p. unfold strto_core. cbn [skip_space].
    rewrite H. rewrite (proj2 (Z.eqb_neq c 45)), (proj2 (Z.eqb_neq c 43)) by lia.
    change ((10 =? 0) || (10 =? 16)) with false. change (10 =? 0) with false. cbn [andb scan_digits].
    unfold digit_of, digit_val. rewrite H2. destruct ((97 <=? c) && (c <=? 122)) eqn:Hl.
    { b2p. by rewrite (proj2 (Z.ltb_ge (c - 87) 10)) by lia. }
    destruct ((65 <=? c) && (c <=? 90)) eqn:Hu; [|done]. b2p. by rewrite (proj2 (Z.ltb_ge (c - 55) 10)) by lia. }
  destruct (Z.leb_spec (2 ^ long_bits) 0).
  - by rewrite (proj2 (Z.ltb_ge 0 (2 ^ long_bits - 1))), andb_false_r by lia.
  - unfold wrap. rewrite Z.mod_0_l by lia. by rewrite andb_false_r.
Qed.

Lemma positional_arg long_bits n ps x : 4 <= long_bits -> 1 <= n <= 15 ->
  ps !! Z.to_nat (n - 1) = Some x -> positional long_bits (print_u n) ps = Some x.
Proof.
  intros Hb Hn Hx. unfold positional, strtoul. rewrite (proj2 (print_u_digits n Hn)).
  pose proof (Z.pow_le_mono_r 2 4 long_bits). rewrite (proj2 (Z.leb_gt _ _)) by lia.
  rewrite (wrap_small long_bits n) by (unfold is_word; lia). apply lookup_lt_Some in Hx as Hlt.
  by rewrite bool_decide_true, (proj2 (Z.ltb_lt 0 n)), (proj2 (Z.leb_le n _)) by lia.
Qed.

(** ** Expansion gives the value *)

Section correct.
Context (getenv : cstr -> option cstr) (popen : cstr -> option (list Z)).
Context (file_name : cstr) (yylineno : Z) (long_bits : Z) (defs : cstr -> option def).
Context (Hbits : 32 <= long_bits) (Hbodies : bodies_ok defs).

Abbreviation keeps := (keeps getenv).
Abbreviation env_ok := (env_ok getenv).
Abbreviation loop := (expand_loop getenv popen file_name yylineno long_bits).
Abbreviation rec := (expand_string_with_args getenv popen file_name yylineno long_bits).
Abbreviation search := (search_name getenv popen file_name yylineno).

Lemma keeps_models A st st' : keeps st st' -> models defs A st -> models defs A st'.
Proof using. intros (Hl & _) Hm name. unfold variable_lookup. rewrite Hl. apply Hm. Qed.

Lemma keeps_env st st' : keeps st st' -> env_ok st -> env_ok st'.
Proof using. by intros (_ & He & _). Qed.

Lemma function_expand_none name argv st : name ∉ builtins ->
  function_expand popen file_name yylineno name argv st = Done None.
Proof using.
  unfold builtins. rewrite !not_elem_of_cons. intros (?&?&?&?&?&?&_).
  unfold function_expand, function_table. cbn [function_search]. by rewrite !bool_decide_false by done.
Qed.

Lemma env_lookup_ok name l v : Forall (fun '(n, v) => getenv n = Some v /\ n <> []) l ->
  env_lookup name l = Some v -> getenv name = Some v.
Proof using.
  induction 1 as [|[n w] l [Hg _] _ IH]; [done|]. simpl. case_bool_decide; [intros [= <-]; congruence|done].
Qed.

Lemma enter_models A name st : models defs A st -> models defs (name :: A) (enter name st).
Proof using.
  intros Hm n. unfold variable_lookup, enter. cbn [update set_vars variable_list].
  assert (count_occ cstr_dec (name :: A) n = (if decide (name = n) then S (count_occ cstr_dec A n) else count_occ cstr_dec A n)) as Hc.
  { simpl. unfold cstr_dec. by destruct (decide (name = n)). }
  destruct (decide (name = n)) as [<- |Hne].
  - rewrite update_lookup by done. specialize (Hm name). unfold variable_lookup in Hm. rewrite Hm, Hc.
    destruct (defs name) as [[]|]; [..|done]; simpl; unfold set_count; simpl; do 3 f_equal; lia.
  - rewrite update_lookup_ne by done. specialize (Hm n). unfold variable_lookup in Hm. by rewrite Hm, Hc.
Qed.

(** The two tests of [variable_expand]. *)
Lemma may_enter_tests A name xs : may_enter A name xs ->
  bool_decide (xs = []) && negb (Z.of_nat (count_occ cstr_dec A name) =? 0) = false /\
  (1000 <? Z.of_nat (count_occ cstr_dec A name)) = false.
Proof using.
  intros [H1 H2]. split; [|apply Z.ltb_ge; lia]. case_bool_decide as Hx; [|done]. simpl.
  assert (count_occ cstr_dec A name = O) as ->; [|done].
  apply count_occ_not_In. intros Hin%list_elem_of_In. by apply H1.
Qed.

Definition gives {B} (r : nat -> outcome (B * pp)) (st : pp) (v : B) : Prop :=
  exists fuel st', keeps st st' /\ forall fuel', (fuel <= fuel')%nat -> r fuel' = Done (v, st').

Lemma search_simple A name xs s st : models defs A st -> defs name = Some (Simple s) -> may_enter A name xs ->
  gives (fun f => search (rec f) name xs st) st s.
Proof using.
  intros Hm Hd Hme. destruct (may_enter_tests _ _ _ Hme) as [H1 H2]. exists O, (leave name (enter name st)).
  split; [by apply keeps_leave|]. intros f _. unfold search_name, variable_expand. rewrite (Hm name), Hd.
  cbn [exp_count v_value v_flavor]. rewrite H1, H2. cbn [defined mbind outcome_bind].
  by rewrite (bool_decide_false (VAR_SIMPLE = VAR_RECURSIVE)).
Qed.

Lemma search_recursive A name xs body v st : models defs A st -> defs name = Some (Recursive body) -> may_enter A name xs ->
  gives (fun f => rec f xs (prs body) (enter name st)) (enter name st) v ->
  gives (fun f => search (rec f) name xs st) st v.
Proof using.
  intros Hm Hd Hme (fuel & st' & Hk & Hf). destruct (may_enter_tests _ _ _ Hme) as [H1 H2].
  exists fuel, (leave name st'). split; [by apply keeps_leave|]. intros f Hle.
  unfold search_name, variable_expand. rewrite (Hm name), Hd.
  cbn [exp_count v_value v_flavor]. rewrite H1, H2, (bool_decide_true (VAR_RECURSIVE = _)) by done. cbn [defined mbind outcome_bind].
  by rewrite (Hf f Hle).
Qed.

Lemma search_other A name xs st : models defs A st -> env_ok st -> defs name = None -> name ∉ builtins ->
  (forall v, xs = [] -> name <> [] -> getenv name = Some v -> gives (fun f => search (rec f) name xs st) st v) /\
  (xs <> [] \/ name = [] \/ getenv name = None -> gives (fun f => search (rec f) name xs st) st []).
Proof using.
  intros Hm [_ Henv] Hd Hb. assert (forall f, search (rec f) name xs st =
    match (if bool_decide (xs = []) then env_expand getenv name st else None) with
    | Some x => Done x | None => Done ([], st) end) as Heq.
  { intros f. unfold search_name, variable_expand. rewrite (Hm name), Hd. cbn [mbind outcome_bind].
    by rewrite (function_expand_none name xs st Hb). }
  assert (name <> [] -> env_expand getenv name st = match env_lookup name (env_list st) with
    | Some v => Some (v, st)
    | None => match getenv name with Some v => Some (v, env_add name v st) | None => None end end) as Hex.
  { intros Hn. unfold env_expand. by rewrite bool_decide_false. }
  split.
  - intros v -> Hn Hg. assert (exists st', env_expand getenv name st = Some (v, st')) as [st' He].
    { rewrite Hex, Hg by done. destruct (env_lookup name (env_list st)) as [w|] eqn:Hl; [|by eexists].
      apply env_lookup_ok in Hl; [|done]. rewrite Hl in Hg. injection Hg as ->. by eexists. }
    exists O, st'. split; [by eapply env_expand_keeps|]. intros f _. by rewrite Heq, He.
  - intros Hor. exists O, st. split; [done|]. intros f _. rewrite Heq. case_bool_decide as Hx; [|done].
    destruct (decide (name = [])) as [-> |Hn]; [done|]. destruct Hor as [?|[?|Hg]]; [done..|].
    rewrite Hex, Hg by done. destruct (env_lookup name (env_list st)) as [w|] eqn:Hl; [|done].
    apply env_lookup_ok in Hl; [|done]. congruence.
Qed.

(** Text is copied. *)
Lemma loop_text argv s rest st inside : forallb (text_char inside) s = true -> forall v r st' fuel,
  (forall f, (fuel <= f)%nat -> loop f is_end_of_str argv rest st = Done (v, r, st')) ->
  forall f, (length s + fuel <= f)%nat -> loop f is_end_of_str argv (s ++ rest) st = Done (s ++ v, r, st').
Proof using.
  intros Hs v r st' fuel Hf. induction s as [|c s IH]; intros f Hle; [by apply Hf|].
  simpl in Hs. apply andb_prop in Hs as [Hc Hs]. destruct f as [|f]; [simpl in Hle; lia|].
  cbn [app expand_loop]. unfold text_char in Hc. apply andb_prop in Hc as [Hc _]. b2p.
  assert (is_end_of_str c = false) as -> by (by apply Z.eqb_neq). rewrite (proj2 (Z.eqb_neq c 36)) by done.
  by rewrite (IH Hs f) by (simpl in Hle; lia).
Qed.

(** A reference is replaced by what its clause gives. *)
Lemma loop_ref argv clause rest x st st1 v r st2 fuel :
  find_close 0 (clause ++ 41 :: rest) = Some (clause, rest) ->
  (forall f, (fuel <= f)%nat -> eval_clause getenv popen file_name yylineno long_bits (rec f) argv clause st = Done (x, st1)) ->
  (forall f, (fuel <= f)%nat -> loop f is_end_of_str argv rest st1 = Done (v, r, st2)) ->
  forall f, (S fuel <= f)%nat -> loop f is_end_of_str argv ([36; 40] ++ clause ++ 41 :: rest) st = Done (x ++ v, r, st2).
Proof using.
  intros Hcl Hx Hv [|f] Hle; [lia|]. cbn [app expand_loop]. change (36 =? 36) with true. cbn iota.
  unfold expand_dollar_with_args. change (40 =? 40) with true. cbn iota. rewrite Hcl.
  pose proof (Hx f ltac:(lia)) as Hxf. unfold expand_string_with_args in Hxf. rewrite Hxf.
  cbn [mbind outcome_bind]. by rewrite (Hv f) by lia.
Qed.

Lemma rec_loop fuel argv s st v st' :
  loop fuel is_end_of_str argv s st = Done (v, [], st') -> rec fuel argv s st = Done (v, st').
Proof using. intros Hl. unfold expand_string_with_args. by rewrite Hl. Qed.

Lemma expand_correct_aux :
  (forall A ps l v, ev getenv defs A ps l v -> forall inside st, models defs A st -> env_ok st -> wf inside l = true ->
     exists fuel st', keeps st st' /\ forall f, (fuel <= f)%nat -> loop f is_end_of_str ps (prs l) st = Done (v, [], st')) /\
  (forall A ps args xs, evs getenv defs A ps args xs -> forall st, models defs A st -> env_ok st ->
     forallb (fun a => wf true a) args = true ->
     length xs = length args /\ gives (fun f => expand_args (rec f) ps (map prs args) st) st xs) /\
  (forall A name xs r, call getenv defs A name xs r -> forall st, models defs A st -> env_ok st ->
     gives (fun f => search (rec f) name xs st) st r).
Proof.
  apply ev_evs_call_ind.
  - intros A ps inside st _ _ _. exists 1%nat, st. split; [done|]. by intros [|f] ?; [lia|].
  - intros A ps s l v _ IH inside st Hm He Hw. apply andb_prop in Hw as [Hs Hl].
    destruct (IH inside st Hm He Hl) as (fuel & st' & Hk & Hf). exists (length s + fuel)%nat, st'.
    split; [done|]. intros f Hle. by eapply loop_text.
  - intros A ps n x l v Hx _ IH inside st Hm He Hw. apply andb_prop in Hw as [Hn Hl]. simpl in Hn. b2p.
    destruct (IH inside st Hm He Hl) as (fuel & st' & Hk & Hf). exists (S fuel), st'. split; [done|].
    change (prs (Arg n :: l)) with ((36 :: 40 :: print_u n ++ [41]) ++ prs l). cbn [app]. rewrite <- app_assoc.
    cbn [app]. pose proof (print_u_digits n ltac:(lia)) as [Hd _]. apply (loop_ref ps (print_u n) _ x st st); [..|done].
    + rewrite (proj1 (proj1 (piece_text _ Hd))) by lia. simpl. by rewrite app_nil_r.
    + intros f _. unfold eval_clause. by rewrite (positional_arg long_bits n ps x) by (done || lia).
  - intros A ps fn args name xs r l v _ IHfn _ IHargs _ IHcall _ IHl inside st Hm He Hw.
    apply andb_prop in Hw as [Hw Hl]. simpl in Hw. rewrite !andb_true_iff in Hw. destruct Hw as [[[Hfn Hargs] Hlen] Hst].
    apply Nat.leb_le in Hlen.
    destruct (IHfn true st Hm He Hfn) as (f1 & st1 & Hk1 & H1).
    destruct (IHargs st1) as [Hxs (f2 & st2 & Hk2 & H2)]; [by eapply keeps_models|by eapply keeps_env|done|].
    assert (keeps st st2) as Hk12 by (by etrans).
    destruct (IHcall st2) as (f3 & st3 & Hk3 & H3); [by eapply keeps_models|by eapply keeps_env|].
    assert (keeps st st3) as Hk13 by (by etrans).
    destruct (IHl inside st3) as (f4 & st4 & Hk4 & H4); [by eapply keeps_models|by eapply keeps_env|done|].
    exists (S (Nat.max (Nat.max f1 f2) (Nat.max f3 f4))), st4. split; [by etrans|].
    change (prs (Ref fn args :: l)) with ((36 :: 40 :: prs fn ++ concat (map (fun a => 44 :: prs a) args) ++ [41]) ++ prs l).
    cbn [app]. rewrite (app_assoc (prs fn)), <- app_assoc. cbn [app]. fold (clause_of fn args).
    apply (loop_ref ps (clause_of fn args) _ r st st3); [by apply find_close_clause| |intros f ?; apply H4; lia].
    intros f Hle. unfold eval_clause. rewrite positional_name, split_clause_of by done.
    unfold FUNCTION_MAX_ARGS. rewrite !bool_decide_false by (simpl; rewrite length_map; lia).
    cbn [head tail defined mbind outcome_bind]. rewrite (rec_loop f ps _ st name st1) by (apply H1; lia).
    cbn [mbind outcome_bind]. rewrite (H2 f) by lia. cbn [mbind outcome_bind]. apply H3. lia.
  - intros A ps st _ _ _. split; [done|]. exists O, st. by split.
  - intros A ps a x args xs _ IHa _ IHargs st Hm He Hw. simpl in Hw. apply andb_prop in Hw as [Ha Hr].
    destruct (IHa true st Hm He Ha) as (f1 & st1 & Hk1 & H1).
    destruct (IHargs st1) as [Hxs (f2 & st2 & Hk2 & H2)]; [by eapply keeps_models|by eapply keeps_env|done|].
    split; [simpl; lia|]. exists (Nat.max f1 f2), st2. split; [by etrans|]. intros f Hle. cbn [map expand_args].
    rewrite (rec_loop f ps _ st x st1) by (apply H1; lia). cbn [mbind outcome_bind]. by rewrite (H2 f) by lia.
  - intros A name xs s Hd Hme st Hm _. by eapply search_simple.
  - intros A name xs body r Hd Hme _ IH st Hm He. eapply search_recursive; [done..|].
    destruct (IH false (enter name st)) as (fuel & st' & Hk & Hf); [by apply enter_models|done|by eapply Hbodies|].
    exists fuel, st'. split; [done|]. intros f Hle. by apply rec_loop, Hf.
  - intros A name v Hd Hb Hn Hg st Hm He. by eapply search_other.
  - intros A name xs Hd Hb Hor st Hm He. by eapply search_other.
Qed.

End correct.

(** ** Theorems *)

Section theorems.
Context (getenv : cstr -> option cstr) (popen : cstr -> option (list Z)).
Context (file_name : cstr) (yylineno : Z) (long_bits : Z).

Abbreviation string_of := (expand_string getenv popen file_name yylineno long_bits).
Abbreviation dollar_of := (expand_dollar getenv popen file_name yylineno long_bits).
Abbreviation token_of := (expand_one_token getenv popen file_name yylineno long_bits).
Abbreviation add := (variable_add getenv popen file_name yylineno long_bits).

Lemma expand_string_keeps s st x st' : string_of s st = Done (x, st') -> keeps getenv st st'.
Proof. apply expand_string_with_args_keeps. Qed.

Lemma expand_string_fine s st : Forall value_ok (variable_list st) -> (commas s <= 15)%nat -> fine (string_of s st).
Proof.
  intros Hok Hc. apply fine_bind; [by apply expand_loop_fine|by intros [[? ?] ?] _].
Qed.

Lemma expand_dollar_rec_fine s st : rec_fine (expand_string_with_args getenv popen file_name yylineno long_bits (expand_fuel s st)) (expand_fuel s st).
Proof.
  intros argv t st1 Hok Hc Hf. apply fine_bind; [by apply expand_loop_fine|by intros [[? ?] ?] _].
Qed.

(** C6: Every expansion ends.  Whatever variables refer to themselves or to each other, the expansion of a
    string, of a reference and of a token returns, or the program exits with status 1;
    it never runs for ever and never touches memory it may not touch, as long as no
    string has sixteen commas or more.  What is returned leaves all
    variables and their expansion counts as they were. *)
Theorem expand_terminates s st : Forall value_ok (variable_list st) -> (commas s <= 15)%nat ->
  match string_of s st with Done (_, st') => variable_list st' = variable_list st | Exit c => c = 1 | Undef => False end /\
  match dollar_of s st with Done (_, _, st') => variable_list st' = variable_list st | Exit c => c = 1 | Undef => False end /\
  match token_of s st with Done (_, _, st') => variable_list st' = variable_list st | Exit c => c = 1 | Undef => False end.
Proof.
  intros Hok Hc. split_and!.
  - pose proof (expand_string_fine s st Hok Hc) as Hf.
    destruct (string_of s st) as [[x st']| |] eqn:He; [|done..]. by apply expand_string_keeps in He as (? & _).
  - assert (rec_keeps getenv (expand_string_with_args getenv popen file_name yylineno long_bits (expand_fuel s st)))
      as Hk by apply expand_string_with_args_keeps.
    destruct (expand_dollar_fine getenv popen file_name yylineno long_bits _ (expand_fuel s st) [] s st Hk
      (expand_dollar_rec_fine s st) Hok Hc) as [Hf _]; [lia|]. fold (dollar_of s st) in Hf.
    destruct (dollar_of s st) as [[[x r] st']| |] eqn:He; [|done..].
    eapply expand_dollar_keeps in He as (? & _); done.
  - pose proof (expand_loop_fine getenv popen file_name yylineno long_bits (expand_fuel s st) is_end_of_token [] s st Hok Hc ltac:(lia)) as Hf.
    fold (token_of s st) in Hf. destruct (token_of s st) as [[[x r] st']| |] eqn:He; [|done..].
    by apply expand_loop_keeps in He as (? & _).
Qed.

(** C5: Expansion computes the value of a template: when the variables hold the given definitions,
    the text of a template expands to the value that the reference semantics assigns to it,
    in which variables, functions with their arguments and the environment
    are substituted. *)
Theorem expand_correct defs l v st :
  32 <= long_bits -> bodies_ok defs -> models defs [] st -> env_ok getenv st ->
  Forall value_ok (variable_list st) -> (commas (prs l) <= 15)%nat -> wf false l = true ->
  ev getenv defs [] [] l v ->
  exists st', string_of (prs l) st = Done (v, st') /\ keeps getenv st st'.
Proof.
  intros Hb Hbo Hm He Hok Hc Hw Hev.
  destruct (expand_correct_aux getenv popen file_name yylineno long_bits defs Hb Hbo) as (Haux & _ & _).
  destruct (Haux _ _ _ _ Hev false st Hm He Hw) as (fuel & st' & Hk & Hf). exists st'. split; [|done].
  unfold expand_string. apply rec_loop.
  pose proof (expand_loop_fine getenv popen file_name yylineno long_bits (expand_fuel (prs l) st) is_end_of_str [] (prs l) st Hok Hc ltac:(lia)) as Hfine.
  destruct (expand_loop_above getenv popen file_name yylineno long_bits (expand_fuel (prs l) st)
    (Nat.max fuel (expand_fuel (prs l) st)) is_end_of_str [] (prs l) st ltac:(lia)) as [Hu|Heq].
  - by rewrite Hu in Hfine.
  - rewrite <- Heq. apply Hf. lia.
Qed.

(** ** The state between two calls *)

(** What the parser and the lexer do with the state. *)
Inductive pp_step : pp -> pp -> Prop :=
| step_add name value flavor st st' : add name value flavor st = Done st' -> pp_step st st'
| step_string s st x st' : string_of s st = Done (x, st') -> pp_step st st'
| step_dollar s st x r st' : dollar_of s st = Done (x, r, st') -> pp_step st st'
| step_token s st x r st' : token_of s st = Done (x, r, st') -> pp_step st st'
| step_write_dep name st : pp_step st (env_write_dep name st).2
| step_all_del st : pp_step st (variable_all_del st).

Definition resting (v : variable) : Prop := exp_count v = 0 /\ v_flavor v <> VAR_APPEND /\ is_Some (v_value v).

Definition pp_inv (st : pp) : Prop :=
  NoDup (map v_name (variable_list st)) /\ Forall resting (variable_list st) /\ env_ok getenv st.

(** All but the value of one variable are in order. *)
Definition resting_but (name : cstr) (v : variable) : Prop :=
  exp_count v = 0 /\ v_flavor v <> VAR_APPEND /\ (v_name v <> name -> is_Some (v_value v)).

Lemma resting_update name x l : NoDup (map v_name l) -> Forall (resting_but name) l ->
  Forall resting (update_var name (fun v => set_value v (Some x)) l).
Proof using.
  intros Hd Hl. induction Hl as [|v l (Hc & Hf & Hv) Hl IH]; [done|]. simpl in Hd. apply NoDup_cons in Hd as [Hn Hd].
  simpl. case_bool_decide as Hname.
  - constructor; [by split_and!|]. rewrite Forall_forall in Hl |- *. intros u Hu. destruct (Hl u Hu) as (? & ? & Hs).
    split_and!; [done..|]. apply Hs. intros Heq. apply Hn. rewrite <- Hname, <- Heq. by apply list_elem_of_fmap_2.
  - constructor; [|by apply IH]. split_and!; [done..|]. by apply Hv.
Qed.

Lemma resting_set name flavor f l : flavor <> VAR_APPEND -> NoDup (map v_name l) -> Forall (resting_but name) l ->
  (forall v, v_name v = name -> f v = v \/ f v = set_flavor v flavor \/ f v = set_value v None) ->
  Forall (resting_but name) (update_var name f l).
Proof using.
  intros Hfl Hd Hl Hf. induction Hl as [|v l Hv Hl IH]; [done|]. simpl in *. apply NoDup_cons in Hd as [Hn Hd].
  case_bool_decide as Hname; [|constructor; [done|by apply IH]]. constructor; [|done].
  destruct Hv as (Hc & Hvf & Hvv). destruct (Hf v) as [-> | [-> | -> ]]; [done|by split_and!..|].
  split_and!; [done..|]. simpl. congruence.
Qed.

Lemma pp_inv_keeps st st' : keeps getenv st st' -> pp_inv st -> pp_inv st'.
Proof using. intros (Hl & He & _) (? & ? & ?). unfold pp_inv. rewrite Hl. auto. Qed.

(** The end of [variable_add]: the value is expanded and stored. *)
Lemma finish_add name value (flavor : variable_flavor) (app : bool) st st' :
  NoDup (map v_name (variable_list st)) -> Forall (resting_but name) (variable_list st) -> env_ok getenv st ->
  ('(new_value, st1) ← (if bool_decide (flavor = VAR_SIMPLE) then string_of value st else Done (value, st));
   if app then
     v ← defined (variable_lookup name st1);
     old ← defined (v_value v);
     Done (update name (fun v => set_value v (Some (old ++ [32] ++ new_value))) st1)
   else Done (update name (fun v => set_value v (Some new_value)) st1)) = Done st' -> pp_inv st'.
Proof.
  intros Hd Hr He. set (m := if bool_decide (flavor = VAR_SIMPLE) then _ else _).
  destruct m as [[new st1]| |] eqn:Hm; [|done..]. cbn [mbind outcome_bind].
  assert (keeps getenv st st1) as (Hl & Hek & _).
  { subst m. destruct (bool_decide (flavor = VAR_SIMPLE)); [by eapply expand_string_keeps|by injection Hm as _ <-]. }
  assert (forall x, pp_inv (update name (fun v => set_value v (Some x)) st1)) as Hfin.
  { intros x. unfold pp_inv. cbn [update set_vars variable_list]. rewrite Hl, update_names by done.
    split_and!; [done|by apply resting_update|by apply Hek]. }
  destruct app; [|intros [= <-]; apply Hfin].
  destruct (variable_lookup name st1) as [v|]; [|done]. cbn [defined mbind outcome_bind].
  destruct (v_value v); [|done]. intros [= <-]. apply Hfin.
Qed.

Lemma update_app_new name f l v : name ∉ map v_name l -> v_name v = name ->
  update_var name f (l ++ [v]) = l ++ [f v].
Proof using.
  intros Hn Hv. induction l as [|u l IH]; simpl in *; [by rewrite bool_decide_true|].
  apply not_elem_of_cons in Hn as [? ?]. rewrite bool_decide_false by done. by rewrite IH.
Qed.

Lemma variable_add_inv name value flavor st st' : pp_inv st -> add name value flavor st = Done st' -> pp_inv st'.
Proof.
  intros (Hd & Hr & He). unfold variable_add.
  assert (Forall (resting_but name) (variable_list st)) as Hb.
  { eapply Forall_impl; [exact Hr|]. intros v (? & ? & ?). by split_and!. }
  destruct (variable_lookup name st) as [v|] eqn:Hv.
  - assert (v_flavor v <> VAR_APPEND) as Hvf.
    { apply lookup_var_In in Hv as [Hin _]. rewrite Forall_forall in Hr. by apply Hr. }
    destruct (bool_decide (flavor = VAR_APPEND)) eqn:Hap; intros Hadd.
    + refine (finish_add name value (v_flavor v) true (update name (fun u => set_flavor u (v_flavor v)) st) st' _ _ He Hadd);
        cbn [update set_vars variable_list]; [by rewrite update_names|].
      apply (resting_set name (v_flavor v)); [done..|auto].
    + apply bool_decide_eq_false in Hap. set (st0 := update name (fun u => set_value u None) st) in Hadd.
      refine (finish_add name value flavor false (update name (fun u => set_flavor u flavor) st0) st' _ _ He Hadd);
        subst st0; cbn [update set_vars variable_list]; [by rewrite !update_names|].
      apply (resting_set name flavor); [done|by rewrite update_names| |auto].
      apply (resting_set name flavor); [done..|auto].
  - apply lookup_var_None in Hv as Hn.
    set (fl := if bool_decide (flavor = VAR_APPEND) then VAR_RECURSIVE else flavor).
    assert (fl <> VAR_APPEND) as Hfl by (subst fl; by case_bool_decide).
    intros Hadd. set (st0 := set_vars st (variable_list st ++ [Var name None flavor 0])) in Hadd.
    refine (finish_add name value fl false (update name (fun u => set_flavor u fl) st0) st' _ _ He Hadd);
      subst st0; cbn [update set_vars variable_list]; rewrite ?update_names by done.
    + rewrite map_app. apply NoDup_app. split_and!; [done| |by apply NoDup_singleton].
      intros x Hx ->%list_elem_of_singleton. done.
    + rewrite update_app_new by done. apply Forall_app. split; [done|]. constructor; [|done]. by split_and!.
Qed.

(** C32: In every state that the parser and the lexer reach from the start of the program, the variables have
    different names, none of them is being expanded, every value is set, and the
    remembered environment variables are different and have the values of the
    environment. *)
Theorem preprocess_invariant st : rtc pp_step (PP [] [] []) st -> pp_inv st.
Proof.
  intros Hr. assert (pp_inv (PP [] [] [])) as Hi by (split_and!; [constructor..|split; constructor]).
  induction Hr as [st|st1 st2 st3 Hs _ IH]; [done|]. apply IH. clear IH. destruct Hs.
  - by eapply variable_add_inv.
  - by eapply pp_inv_keeps; [eapply expand_string_keeps|].
  - eapply pp_inv_keeps; [eapply expand_dollar_keeps; [|done]; apply expand_string_with_args_keeps|done].
  - by eapply pp_inv_keeps; [eapply expand_loop_keeps|].
  - destruct Hi as (? & ? & _). by split_and!; [..|split; constructor].
  - destruct Hi as (_ & _ & ?). by split_and!; [constructor..|].
Qed.

End theorems.

(** ** Concrete runs *)

Module Ex.

Definition getenv (n : cstr) : option cstr := if bool_decide (n = str "ARCH") then Some (str "mips") else None.
Definition popen (cmd : cstr) : option (list Z) := Some (str "one" ++ [10] ++ str "two" ++ [10; 10]).
Abbreviation add := (variable_add getenv popen (str "Config.in") 7 64).
Abbreviation expand := (expand_string getenv popen (str "Config.in") 7 64).

Definition start : pp := PP [] [] [].

(** [suffix := !] and [greet = Hello $(1)$(suffix)] *)
Definition greeting : list tok := [Txt (str "Hello "); Arg 1; Ref [Txt (str "suffix")] []].
Definition with_suffix : pp := PP [] [Var (str "suffix") (Some (str "!")) VAR_SIMPLE 0] [].
Definition with_greet : pp :=
  PP [] (variable_list with_suffix ++ [Var (str "greet") (Some (prs greeting)) VAR_RECURSIVE 0]) [].

Example define_suffix : add (str "suffix") (str "!") VAR_SIMPLE start = Done with_suffix.
Proof. vm_compute. reflexivity. Qed.

Example define_greet :
  add (str "greet") (str "Hello $(1)$(suffix)") VAR_RECURSIVE with_suffix = Done with_greet.
Proof. vm_compute. reflexivity. Qed.

Example appended : (fun st => variable_list st) <$> (match add (str "suffix") (str "?") VAR_APPEND with_suffix with Done st => Some st | _ => None end) =
  Some [Var (str "suffix") (Some (str "! ?")) VAR_SIMPLE 0].
Proof. vm_compute. reflexivity. Qed.

(** The output of a command on one line. *)
Example shell_lines : expand (str "[$(shell,ls)] $(lineno) $x") start = Done (str "[one two] 7 $x", start).
Proof. vm_compute. reflexivity. Qed.

(** A variable that refers to itself, and a function that calls itself without end. *)
Definition looping : pp :=
  PP [] [Var (str "x") (Some (str "a$(y)")) VAR_RECURSIVE 0; Var (str "y") (Some (str "b$(x)")) VAR_RECURSIVE 0;
         Var (str "f") (Some (str "$(f,$(1))")) VAR_RECURSIVE 0] [].

Example self_reference : expand (str "$(x)") looping = Exit 1.
Proof. vm_compute. reflexivity. Qed.

Lemma expand_terminates_witness :
  expand (str "$(x)") looping = Exit 1 /\
  match expand (str "$(x)") looping with Done (_, st') => variable_list st' = variable_list looping | Exit c => c = 1 | Undef => False end.
Proof.
  split; [vm_compute; reflexivity|].
  apply (expand_terminates getenv popen (str "Config.in") 7 64 (str "$(x)") looping).
  - repeat (apply Forall_cons; split; [eexists; split; [reflexivity|vm_compute; lia]|]). apply Forall_nil_2.
  - vm_compute. lia.
Defined.

Definition defs (name : cstr) : option def :=
  if bool_decide (name = str "suffix") then Some (Simple (str "!"))
  else if bool_decide (name = str "greet") then Some (Recursive greeting) else None.

(** [$(greet,World) on $(ARCH)] *)
Definition message : list tok :=
  [Ref [Txt (str "greet")] [[Txt (str "World")]]; Txt (str " on "); Ref [Txt (str "ARCH")] []].

Lemma name_value A ps s : ev getenv defs A ps [Txt s] s.
Proof. rewrite <- (app_nil_r s) at 2. repeat constructor. Qed.

Lemma message_value : ev getenv defs [] [] message (str "Hello World! on mips").
Proof.
  refine (ev_ref getenv defs _ _ _ _ (str "greet") [str "World"] (str "Hello World!") _ (str " on mips") (name_value _ _ _) _ _ _).
  - constructor; [apply name_value|constructor].
  - apply (call_recursive _ _ _ _ _ greeting); [done|split; [done|vm_compute; lia]|].
    apply (ev_txt _ _ _ _ (str "Hello ") _ (str "World!")), (ev_arg _ _ _ _ 1 (str "World") _ (str "!")); [done|].
    apply (ev_ref getenv defs _ _ _ _ (str "suffix") [] (str "!") _ [] (name_value _ _ _)); [constructor| |constructor].
    apply call_simple; [done|]. split; [intros _; vm_compute|vm_compute; lia].
    intros Hin. apply list_elem_of_singleton in Hin. discriminate.
  - apply (ev_txt _ _ _ _ (str " on ") _ (str "mips")).
    apply (ev_ref getenv defs _ _ _ _ (str "ARCH") [] (str "mips") _ [] (name_value _ _ _)); [constructor| |constructor].
    apply call_env; [done| |done|done]. refine (bool_decide_eq_false_1 (str "ARCH" ∈ builtins) _). vm_compute. reflexivity.
Qed.

Lemma defs_models : models defs [] with_greet.
Proof.
  intros name. unfold defs, variable_lookup. cbn [with_greet with_suffix variable_list app lookup_var v_name].
  destruct (bool_decide (name = str "suffix")) eqn:H1; [apply bool_decide_eq_true in H1 as ->; done|].
  destruct (bool_decide (name = str "greet")) eqn:H2; [apply bool_decide_eq_true in H2 as ->; done|done].
Qed.

Lemma expand_correct_witness :
  exists st', expand (str "$(greet,World) on $(ARCH)") with_greet = Done (str "Hello World! on mips", st') /\ keeps getenv with_greet st'.
Proof.
  apply (expand_correct getenv popen (str "Config.in") 7 64 defs message).
  - lia.
  - intros name body. unfold defs. case_bool_decide; [done|]. case_bool_decide; [|done]. by intros [= <-].
  - exact defs_models.
  - split; constructor.
  - repeat (apply Forall_cons; split; [eexists; split; [reflexivity|vm_compute; lia]|]). apply Forall_nil_2.
  - vm_compute. lia.
  - done.
  - exact message_value.
Defined.

Lemma preprocess_invariant_witness :
  exists st', rtc (pp_step getenv popen (str "Config.in") 7 64) start st' /\
    env_list st' = [(str "ARCH", str "mips")] /\ pp_inv getenv st'.
Proof.
  set (st' := PP [(str "ARCH", str "mips")] (variable_list with_greet) []).
  assert (rtc (pp_step getenv popen (str "Config.in") 7 64) start st') as Hr.
  { eapply rtc_l; [eapply step_add, define_suffix|]. eapply rtc_l; [eapply step_add, define_greet|].
    apply rtc_once. apply (step_string _ _ _ _ _ (prs message) _ (str "Hello World! on mips")). vm_compute. reflexivity. }
  exists st'. split; [exact Hr|split; [reflexivity|]].
  exact (preprocess_invariant getenv popen (str "Config.in") 7 64 st' Hr).
Defined.

(** [x := $(x)] frees the value of a defined variable before it expands the new one; for an
    undefined variable the value is not set yet. *)
Example assign_self_freed :
  add (str "suffix") (str "$(suffix)?") VAR_SIMPLE with_suffix = Undef /\
  add (str "x") (str "$(x)") VAR_SIMPLE start = Undef.
Proof. vm_compute. done. Qed.

(** With sixteen commas the last argument is stored behind [new_argv]; with seventeen the check works. *)
Example argument_behind_array :
  expand (str "$(f,1,2,3,4,5,6,7,8,9,10,11,12,13,14,15)") start = Done ([], start) /\
  expand (str "$(f,1,2,3,4,5,6,7,8,9,10,11,12,13,14,15,16)") start = Undef /\
  expand (str "$(f,1,2,3,4,5,6,7,8,9,10,11,12,13,14,15,16,17)") start = Exit 1.
Proof. vm_compute. done. Qed.

End Ex.
