(* ===== verification/Bits.v ===== *)
(** * Bytes as bit strings

    Addresses are taken apart and put together bit by bit: [bits l] is the bit
    string of the bytes [l] in network order (most significant bit first) and
    [bval] the number a bit string denotes. *)
From stdpp Require Import options.
From S2P Require Import Prelude.

Definition byte_bits (x : Z) : list bool :=
  [Z.testbit x 7; Z.testbit x 6; Z.testbit x 5; Z.testbit x 4;
   Z.testbit x 3; Z.testbit x 2; Z.testbit x 1; Z.testbit x 0].

Fixpoint bits (l : list Z) : list bool :=
  match l with [] => [] | x :: l' => byte_bits x ++ bits l' end.

Definition bval (b : list bool) : Z := fold_left (fun a c => 2 * a + Z.b2z c) b 0.

Lemma length_bits l : length (bits l) = (8 * length l)%nat.
Proof. induction l as [|x l IH]; [done|]. simpl. lia. Qed.
#[export] Hint Rewrite length_bits : len.

Lemma bits_app a b : bits (a ++ b) = bits a ++ bits b.
Proof. induction a as [|x a IH]; [done|]. simpl. by rewrite IH. Qed.

Lemma bits_take n l : bits (take n l) = take (8 * n) (bits l).
Proof.
  revert l. induction n as [|n IH]; intros l; [done|].
  destruct l as [|x l]; [by rewrite !take_nil|].
  replace (8 * S n)%nat with (8 + 8 * n)%nat by lia. cbn [take bits]. by rewrite IH.
Qed.

Lemma bits_drop n l : bits (drop n l) = drop (8 * n) (bits l).
Proof.
  revert l. induction n as [|n IH]; intros l; [done|].
  destruct l as [|x l]; [by rewrite !drop_nil|].
  replace (8 * S n)%nat with (8 + 8 * n)%nat by lia. cbn [drop bits]. by rewrite IH.
Qed.

(** ** Numbers *)

Lemma bval_acc b a :
  fold_left (fun a c => 2 * a + Z.b2z c) b a = a * 2 ^ Z.of_nat (length b) + bval b.
Proof.
  unfold bval. revert a. induction b as [|c b IH]; intros a; cbn [fold_left length]; [simpl; lia|].
  rewrite (IH (2 * a + _)), (IH (2 * 0 + _)), Nat2Z.inj_succ, Z.pow_succ_r by lia. lia.
Qed.

Lemma bval_app a b : bval (a ++ b) = bval a * 2 ^ Z.of_nat (length b) + bval b.
Proof. unfold bval at 1. rewrite fold_left_app. apply bval_acc. Qed.

Lemma bval_cons c b : bval (c :: b) = Z.b2z c * 2 ^ Z.of_nat (length b) + bval b.
Proof. apply (bval_app [c] b). Qed.

Lemma bval_range b : 0 <= bval b < 2 ^ Z.of_nat (length b).
Proof.
  induction b as [|c b IH]; [done|]. rewrite bval_cons. cbn [length].
  rewrite Nat2Z.inj_succ, Z.pow_succ_r by lia. destruct c; simpl Z.b2z; lia.
Qed.

Lemma bval_inj a b : length a = length b -> bval a = bval b -> a = b.
Proof.
  revert b. induction a as [|c a IH]; intros [|d b]; simpl length; try done.
  intros Hl H. rewrite !bval_cons in H. injection Hl as Hl. rewrite Hl in H.
  pose proof (bval_range a) as Ha. pose proof (bval_range b) as Hb. rewrite Hl in Ha.
  assert (Z.b2z c = Z.b2z d) as Hc by (destruct c, d; simpl Z.b2z in *; lia).
  f_equal; [by destruct c, d|]. apply IH; [done|]. rewrite Hc in H. lia.
Qed.

Lemma bval_false n : bval (replicate n false) = 0.
Proof. induction n as [|n IH]; [done|]. cbn [replicate]. rewrite bval_cons, IH. done. Qed.

(** A byte is the number its bits denote. *)
Lemma bval_byte x : is_word 8 x -> bval (byte_bits x) = x.
Proof.
  intros Hx. unfold bval, byte_bits. cbn [fold_left].
  rewrite !Z.testbit_spec' by lia.
  assert (forall y, 0 <= y < 256 ->
    2 * (2 * (2 * (2 * (2 * (2 * (2 * (2 * 0 + (y / 2 ^ 7) mod 2) + (y / 2 ^ 6) mod 2) + (y / 2 ^ 5) mod 2) +
      (y / 2 ^ 4) mod 2) + (y / 2 ^ 3) mod 2) + (y / 2 ^ 2) mod 2) + (y / 2 ^ 1) mod 2) + (y / 2 ^ 0) mod 2 = y) as H.
  { intros y Hy. change (2 ^ 7) with 128. change (2 ^ 6) with 64. change (2 ^ 5) with 32.
    change (2 ^ 4) with 16. change (2 ^ 3) with 8. change (2 ^ 2) with 4. change (2 ^ 1) with 2.
    change (2 ^ 0) with 1. dlia. }
  apply H. apply Hx.
Qed.

Lemma bval_bits l : Forall (is_word 8) l -> bval (bits l) = dec BE l.
Proof.
  induction l as [|x l IH] using rev_ind; [done|]. intros [Hl Hx]%Forall_app.
  apply Forall_cons in Hx as [Hx _]. rewrite bits_app, bval_app, IH by done. cbn [bits].
  rewrite app_nil_r, bval_byte by done. unfold dec. rewrite rev_app_distr. cbn [rev app le_val].
  change (2 ^ Z.of_nat (length (byte_bits x))) with 256. lia.
Qed.

Lemma bits_inj a b :
  Forall (is_word 8) a -> Forall (is_word 8) b -> length a = length b -> bits a = bits b -> a = b.
Proof.
  intros Ha Hb Hl H. apply (f_equal bval) in H. rewrite !bval_bits in H by done.
  rewrite <- (enc_dec BE a), <- (enc_dec BE b) by done. congruence.
Qed.

(** The bits of a number written in network order. *)
Lemma bits_enc n z b :
  length b = (8 * n)%nat -> bval b = z mod 2 ^ (8 * Z.of_nat n) -> bits (enc BE n z) = b.
Proof.
  intros Hl Hb. apply bval_inj; [slen|]. rewrite bval_bits by apply enc_range.
  rewrite dec_enc, Hb. f_equal. change 256 with (2 ^ 8). by rewrite <- Z.pow_mul_r by lia.
Qed.

(** [z << s] in a buffer of [n] bytes drops the first [s] bits. *)
Lemma bits_shl n l s :
  length l = n -> Forall (is_word 8) l -> (s <= 8 * n)%nat ->
  bits (enc BE n (Z.shiftl (dec BE l) (Z.of_nat s))) = drop s (bits l) ++ replicate s false.
Proof.
  intros Hn Hl Hs. assert (length (drop s (bits l)) = 8 * n - s)%nat as Hd.
  { rewrite length_drop, length_bits. lia. }
  apply bits_enc; [rewrite length_app, length_replicate; lia|].
  rewrite bval_app, bval_false, length_replicate, Z.shiftl_mul_pow2 by lia.
  rewrite <- bval_bits by done. rewrite <- (take_drop s (bits l)) at 2.
  rewrite bval_app, Hd. pose proof (bval_range (drop s (bits l))) as Hr. rewrite Hd in Hr.
  rewrite Z.add_0_r, Z.mul_add_distr_r, <- Z.mul_assoc, <- Z.pow_add_r by lia.
  replace (Z.of_nat (8 * n - s) + Z.of_nat s) with (8 * Z.of_nat n) by lia.
  rewrite Z.add_comm, Z.mod_add by lia. rewrite Z.mod_small; [done|].
  split; [nia|]. replace (8 * Z.of_nat n) with (Z.of_nat (8 * n - s) + Z.of_nat s) by lia.
  rewrite Z.pow_add_r by lia. nia.
Qed.

(** [z >> s] puts [s] zeros in front. *)
Lemma bits_shr n l s :
  length l = n -> Forall (is_word 8) l -> (s <= 8 * n)%nat ->
  bits (enc BE n (Z.shiftr (dec BE l) (Z.of_nat s))) = replicate s false ++ take (8 * n - s) (bits l).
Proof.
  intros Hn Hl Hs. assert (length (take (8 * n - s) (bits l)) = 8 * n - s)%nat as Hd.
  { rewrite length_take, length_bits. lia. }
  apply bits_enc; [rewrite length_app, length_replicate; lia|].
  rewrite bval_app, bval_false, Hd, Z.shiftr_div_pow2 by lia.
  rewrite <- bval_bits by done. rewrite <- (take_drop (8 * n - s) (bits l)) at 2.
  assert (length (drop (8 * n - s) (bits l)) = s) as Hd'. { rewrite length_drop, length_bits. lia. }
  rewrite bval_app, Hd'. pose proof (bval_range (drop (8 * n - s) (bits l))) as Hr. rewrite Hd' in Hr.
  pose proof (bval_range (take (8 * n - s) (bits l))) as Hr'. rewrite Hd in Hr'.
  rewrite Z.div_add_l, (Z.div_small (bval (drop _ _))) by lia.
  rewrite Z.mod_small; [lia|]. split; [lia|]. rewrite Z.add_0_r. eapply Z.lt_le_trans; [apply Hr'|].
  apply Z.pow_le_mono_r; lia.
Qed.
