(* ===== verification/Owip.v ===== *)
(** * The address calculator: feeds/packages/net/owipcalc

    owipcalc.c and main.c: parsing, the operations on IPv4 and IPv6 prefixes,
    and the stack machine that interprets the command line.

    [addr] is the union of an IPv4 address, kept as the word [s_addr] the
    program reads from memory, and an IPv6 address, kept as its bytes; every
    function sets [family] together with the union member it belongs to, so the
    family is the constructor.  An operation receives the top of the stack and
    returns its result and the new state; [None] is undefined behaviour (an
    access outside the 16 address bytes or through the NULL top of an empty
    stack, or a shift of the [int] 1 that does not fit). *)
From stdpp Require Import options.
From S2P Require Import Prelude CLib.

(** ** Target and C library *)

(** What the program takes from the target and from libc: the byte order, the
    width of [unsigned long], and the address conversions. *)
Class Target := {
  byte_order : endian;
  long_bits : Z;
  inet_pton4 : cstr -> option (list Z);
  inet_ntop4 : list Z -> option cstr;
  inet_pton6 : cstr -> option (list Z);
  inet_ntop6 : list Z -> option cstr }.

(** The documented behaviour of the conversions (inet_pton(3), inet_ntop(3)). *)
Class TargetLaws (T : Target) := {
  long_bits_ok : long_bits = 32 \/ long_bits = 64;
  pton4_len s b : inet_pton4 s = Some b -> length b = 4%nat /\ Forall (is_word 8) b;
  pton6_len s b : inet_pton6 s = Some b -> length b = 16%nat /\ Forall (is_word 8) b;
  (** at most INET_ADDRSTRLEN - 1 characters: digits and dots *)
  ntop4_text b : length b = 4%nat -> Forall (is_word 8) b ->
    exists s, inet_ntop4 b = Some s /\ (length s <= 15)%nat /\ s <> [] /\
              Forall (fun c => isdigit c = true \/ c = 46) s /\ inet_pton4 s = Some b;
  (** at most INET6_ADDRSTRLEN - 1 characters: hex digits, colons and dots *)
  ntop6_text b : length b = 16%nat -> Forall (is_word 8) b ->
    exists s, inet_ntop6 b = Some s /\ (length s <= 45)%nat /\ s <> [] /\
              Forall (fun c => isxdigit c = true \/ c = 46 \/ c = 58) s /\
              inet_pton6 s = Some b }.

(** ** Data *)

Inductive in_addr := V4 (s_addr : Z) | V6 (s6_addr : list Z).

Record cidr := Cidr { prefix : Z; addr : in_addr }.

Inductive af := AF_INET | AF_INET6.
#[export] Instance af_eq_dec : EqDecision af.
Proof. solve_decision. Defined.

Definition family (c : cidr) : af :=
  match addr c with V4 _ => AF_INET | V6 _ => AF_INET6 end.

(** The globals [stack], [quiet] and [printed], and what went to stdout. *)
Record st := St { stack : list cidr; quiet : bool; printed : bool; out : cstr }.

Definition qprintf (s : cstr) (x : st) : st :=
  St (stack x) (quiet x) true (if quiet x then out x else out x ++ s).

Definition cidr_push (a : cidr) (x : st) : st :=
  St (a :: stack x) (quiet x) (printed x) (out x).

Definition cidr_pop (x : st) : bool * st :=
  match stack x with
  | _ :: s => (true, St s (quiet x) (printed x) (out x))
  | [] => (false, x)
  end.

(** [if (printed) qprintf(" ")] *)
Definition print_sep (x : st) : st := if printed x then qprintf (str " ") x else x.

(** [qprintf("1"); return true] or [qprintf("0"); return false] *)
Definition answer (b : bool) (x : st) : option (bool * st) :=
  Some (b, qprintf (if b then str "1" else str "0") (print_sep x)).

Section Owip.
Context {T : Target}.

(** ntohl and htonl. *)
Definition htonl (x : Z) : Z := dec byte_order (enc BE 4 x).
Definition ntohl (x : Z) : Z := dec BE (enc byte_order 4 x).

(** [1 << n] in [int]: defined for [n] up to 30 only. *)
Definition shl1 (n : Z) : option Z := if n <=? 30 then Some (2 ^ n) else None.
(** [1 << (32 - prefix)], the subtraction in uint32_t. *)
Definition block4 (prefix : Z) : option Z := shl1 (u32 (32 - prefix)).
(** [~((1 << (32 - prefix)) - 1)] *)
Definition mask4 (prefix : Z) : option Z := b ← block4 prefix; Some (u32 (Z.lnot (b - 1))).

(** ** IPv4 *)

(** Size of the text buffer: sizeof("255.255.255.255/255.255.255.255 "). *)
Definition BUF4 : nat := 33.
Definition BUF6 : nat := 51.

(** [for (prefix = 0; mask; mask >>= 1) prefix += mask & 1] *)
Fixpoint count_bits (fuel : nat) (mask : Z) : Z :=
  match fuel with
  | O => 0
  | S f => if mask =? 0 then 0 else Z.land mask 1 + count_bits f (Z.shiftr mask 1)
  end.

(** [strtoul(p, &r, 10)] into a uint32_t, accepted up to [max]. *)
Definition parse_prefix (p : cstr) (max : Z) : option Z :=
  let '(v, n, _) := strtoul long_bits 10 p in
  if bool_decide (n = O) || negb (bool_decide (n = length p)) || (u32 v >? max)
  then None else Some (u32 v).

Definition cidr_parse4 (s : cstr) : option cidr :=
  if decide (BUF4 <= length s)%nat then None
  else
    '(a, pfx) ←
      match str_split 47 s with
      | Some (a, p) =>
          pfx ← (match str_split 46 p with
                 | Some _ =>
                     mask ← inet_pton4 p;
                     Some (count_bits 32 (dec byte_order mask))
                 | None => parse_prefix p 32
                 end);
          Some (a, pfx)
      | None => Some (s, 32)
      end;
    if bool_decide (a = []) && bool_decide (is_Some (str_split 47 s))
    then Some (Cidr pfx (V4 0))
    else b ← inet_pton4 a; Some (Cidr pfx (V4 (dec byte_order b))).

Definition cidr_add4 (a b : cidr) (s : st) : option (bool * st) :=
  match addr a, addr b with
  | V4 sa, V4 sb =>
      let x := ntohl sa in
      let y := ntohl sb in
      if u32 (x + y) <? x then Some (false, cidr_push a s)
      else Some (true, cidr_push (Cidr (prefix a) (V4 (htonl (x + y)))) s)
  | _, _ => Some (false, cidr_push a s)
  end.

Definition cidr_sub4 (a b : cidr) (s : st) : option (bool * st) :=
  match addr a, addr b with
  | V4 sa, V4 sb =>
      let x := ntohl sa in
      let y := ntohl sb in
      if u32 (x - y) >? x then Some (false, cidr_push a s)
      else Some (true, cidr_push (Cidr (prefix a) (V4 (htonl (x - y)))) s)
  | _, _ => Some (false, cidr_push a s)
  end.

(** The remaining IPv4 operations are only entered for an IPv4 address. *)
Definition cidr_network4 (a : cidr) (s : st) : option (bool * st) :=
  match addr a with
  | V4 x => m ← mask4 (prefix a); Some (true, cidr_push (Cidr 32 (V4 (Z.land x (htonl m)))) s)
  | V6 _ => None
  end.

Definition cidr_broadcast4 (a : cidr) (s : st) : option (bool * st) :=
  match addr a with
  | V4 x =>
      b ← block4 (prefix a);
      Some (true, cidr_push (Cidr 32 (V4 (Z.lor x (htonl (u32 (b - 1)))))) s)
  | V6 _ => None
  end.

Definition cidr_contains4 (a b : cidr) (s : st) : option (bool * st) :=
  match addr a, addr b with
  | V4 x, V4 y =>
      m ← mask4 (prefix a);
      let net1 := Z.land x (htonl m) in
      let net2 := Z.land y (htonl m) in
      answer ((prefix a =? 0) || ((prefix b >=? prefix a) && (net1 =? net2))) s
  | _, _ => None
  end.

Definition cidr_netmask4 (a : cidr) (s : st) : option (bool * st) :=
  m ← mask4 (prefix a); Some (true, cidr_push (Cidr 32 (V4 (htonl m))) s).

Definition cidr_private4 (a : cidr) (s : st) : option (bool * st) :=
  match addr a with
  | V4 sa =>
      let x := ntohl sa in
      answer (((x >=? 0x0A000000) && (x <=? 0x0AFFFFFF)) ||
              ((x >=? 0xAC100000) && (x <=? 0xAC1FFFFF)) ||
              ((x >=? 0xC0A80000) && (x <=? 0xC0A8FFFF))) s
  | V6 _ => None
  end.

Definition cidr_linklocal4 (a : cidr) (s : st) : option (bool * st) :=
  match addr a with
  | V4 sa =>
      let x := ntohl sa in
      answer ((x >=? 0xA9FE0000) && (x <=? 0xA9FEFFFF)) s
  | V6 _ => None
  end.

(** The word is added to in the byte order of the host. *)
Definition cidr_prev4 (a b : cidr) (s : st) : option (bool * st) :=
  match addr a with
  | V4 x =>
      n ← block4 (prefix b);
      Some (true, cidr_push (Cidr (prefix b) (V4 (u32 (x - htonl n)))) s)
  | V6 _ => None
  end.

Definition cidr_next4 (a b : cidr) (s : st) : option (bool * st) :=
  match addr a with
  | V4 x =>
      n ← block4 (prefix b);
      Some (true, cidr_push (Cidr (prefix b) (V4 (u32 (x + htonl n)))) s)
  | V6 _ => None
  end.

Definition cidr_6to4 (a : cidr) (s : st) : option (bool * st) :=
  match addr a with
  | V4 x =>
      Some (true, cidr_push (Cidr 48 (V6
        ([0x20; 0x02; u8 (Z.shiftr x 24); Z.land (Z.shiftr x 16) 0xFF;
          Z.land (Z.shiftr x 8) 0xFF; Z.land x 0xFF] ++ replicate 10 0))) s)
  | V6 _ => None
  end.

Definition cidr_print4 (a : cidr) (s : st) : option (bool * st) :=
  match addr a with
  | V4 x =>
      match inet_ntop4 (enc byte_order 4 x) with
      | None => Some (false, s)
      | Some p =>
          let s := qprintf p (print_sep s) in
          let s := if prefix a <? 32 then qprintf (str "/" ++ print_u (prefix a)) s else s in
          Some (true, snd (cidr_pop s))
      end
  | V6 _ => Some (false, s)
  end.

(** ** IPv6 *)

Definition cidr_parse6 (s : cstr) : option cidr :=
  if decide (BUF6 <= length s)%nat then None
  else
    '(a, pfx) ←
      match str_split 47 s with
      | Some (a, p) => pfx ← parse_prefix p 128; Some (a, pfx)
      | None => Some (s, 128)
      end;
    if bool_decide (a = []) && bool_decide (is_Some (str_split 47 s))
    then Some (Cidr pfx (V6 (replicate 16 0)))
    else b ← inet_pton6 a; Some (Cidr pfx (V6 b)).

(** [do { ... } while (idx-- > 0)], from [idx] down to 0; [None]: [idx] is
    outside the address. *)
Fixpoint add6_loop (idx : nat) (x y : list Z) (carry : Z) : option (list Z * Z) :=
  xi ← x !! idx;
  yi ← y !! idx;
  let overflow := Z.b2z (256 <=? xi + yi + carry) in
  let x := <[idx := u8 (xi + yi + carry)]> x in
  match idx with
  | O => Some (x, overflow)
  | S i => add6_loop i x y overflow
  end.

Fixpoint sub6_loop (idx : nat) (x y : list Z) (carry : Z) : option (list Z * Z) :=
  xi ← x !! idx;
  yi ← y !! idx;
  let underflow := Z.b2z (xi - yi - carry <? 0) in
  let x := <[idx := u8 (xi - (yi + carry))]> x in
  match idx with
  | O => Some (x, underflow)
  | S i => sub6_loop i x y underflow
  end.

Fixpoint next6_loop (idx : nat) (x : list Z) (carry : Z) : option (list Z * Z) :=
  xi ← x !! idx;
  let overflow := Z.b2z (256 <=? xi + carry) in
  let x := <[idx := u8 (xi + carry)]> x in
  match idx with
  | O => Some (x, overflow)
  | S i => next6_loop i x overflow
  end.

Fixpoint prev6_loop (idx : nat) (x : list Z) (carry : Z) : option (list Z * Z) :=
  xi ← x !! idx;
  let underflow := Z.b2z (xi - carry <? 0) in
  let x := <[idx := u8 (xi - carry)]> x in
  match idx with
  | O => Some (x, underflow)
  | S i => prev6_loop i x underflow
  end.

Definition cidr_add6 (a b : cidr) (s : st) : option (bool * st) :=
  match addr a, addr b with
  | V6 x, V6 y =>
      '(x, carry) ← add6_loop 15 x y 0;
      Some (bool_decide (carry = 0), cidr_push (Cidr (prefix a) (V6 x)) s)
  | _, _ => Some (false, cidr_push a s)
  end.

Definition cidr_sub6 (a b : cidr) (s : st) : option (bool * st) :=
  match addr a, addr b with
  | V6 x, V6 y =>
      '(x, carry) ← sub6_loop 15 x y 0;
      Some (bool_decide (carry = 0), cidr_push (Cidr (prefix a) (V6 x)) s)
  | _, _ => Some (false, cidr_push a s)
  end.

(** [uint8_t idx = (b->prefix - 1) / 8] *)
Definition idx6 (prefix : Z) : nat := Z.to_nat (u8 ((prefix - 1) / 8)).

Definition cidr_prev6 (a b : cidr) (s : st) : option (bool * st) :=
  match addr a with
  | V6 x =>
      if prefix b =? 0 then Some (false, cidr_push a s)
      else
        '(x, carry) ← prev6_loop (idx6 (prefix b)) x 1;
        if decide (carry = 0)
        then Some (true, cidr_push (Cidr (prefix b) (V6 x)) s)
        else Some (false, cidr_push (Cidr (prefix a) (V6 x)) s)
  | V4 _ => None
  end.

Definition cidr_next6 (a b : cidr) (s : st) : option (bool * st) :=
  match addr a with
  | V6 x =>
      if prefix b =? 0 then Some (false, cidr_push a s)
      else
        '(x, carry) ← next6_loop (idx6 (prefix b)) x 1;
        if decide (carry = 0)
        then Some (true, cidr_push (Cidr (prefix b) (V6 x)) s)
        else Some (false, cidr_push (Cidr (prefix a) (V6 x)) s)
  | V4 _ => None
  end.

(** [for (i = 0; i < n; i++) s6_addr[15-i] = 0]; at most 16 iterations stay
    inside the address. *)
Fixpoint network6_loop (fuel : nat) (i n : Z) (x : list Z) : option (list Z * Z) :=
  if i <? n then
    match fuel with
    | O => None
    | S f => network6_loop f (i + 1) n (<[Z.to_nat (15 - i) := 0]> x)
    end
  else Some (x, i).

Definition cidr_network6 (a : cidr) (s : st) : option (bool * st) :=
  match addr a with
  | V6 x =>
      let host := u32 (128 - prefix a) in
      '(x, i) ← network6_loop 16 0 (host / 8) x;
      let m := Z.lnot (2 ^ (host mod 8) - 1) in
      let k := Z.to_nat (15 - i) in
      let x := if host mod 8 =? 0 then x else <[k := u8 (Z.land (nth k x 0) m)]> x in
      Some (true, cidr_push (Cidr (prefix a) (V6 x)) s)
  | V4 _ => None
  end.

Definition cidr_contains6 (a b : cidr) (s : st) : option (bool * st) :=
  match addr a, addr b with
  | V6 x, V6 y =>
      let host := u32 (128 - prefix a) in
      let i := u8 ((host / 8) mod 16) in
      let m := u8 (Z.lnot (2 ^ (host mod 8) - 1)) in
      let k := Z.to_nat (15 - i) in
      let net1 := Z.land (nth k x 0) m in
      let net2 := Z.land (nth k y 0) m in
      answer ((prefix a =? 0) ||
              ((prefix b >=? prefix a) && (net1 =? net2) &&
               ((i =? 15) || bool_decide (take k x = take k y)))) s
  | _, _ => None
  end.

Definition cidr_linklocal6 (a : cidr) (s : st) : option (bool * st) :=
  match addr a with
  | V6 x =>
      answer ((nth 0 x 0 =? 0xFE) && (nth 1 x 0 >=? 0x80) && (nth 1 x 0 <=? 0xBF)) s
  | V4 _ => None
  end.

Definition cidr_ula6 (a : cidr) (s : st) : option (bool * st) :=
  match addr a with
  | V6 x => answer ((nth 0 x 0 >=? 0xFC) && (nth 0 x 0 <=? 0xFD)) s
  | V4 _ => None
  end.

(** [return NULL] for another family is [false]. *)
Definition cidr_print6 (a : cidr) (s : st) : option (bool * st) :=
  match addr a with
  | V6 x =>
      match inet_ntop6 x with
      | None => Some (false, s)
      | Some p =>
          let s := qprintf p (print_sep s) in
          let s := if prefix a <? 128 then qprintf (str "/" ++ print_u (prefix a)) s else s in
          Some (true, snd (cidr_pop s))
      end
  | V4 _ => Some (false, s)
  end.

(** ** Operands *)

(** NULL, exit(4), or an operand. *)
Inductive parse_result := P_null | P_exit (code : Z) | P_ok (c : cidr).

Definition cidr_parse (s : cstr) (af_hint : af) : parse_result :=
  let '(v, n, _) := strtoul long_bits 0 s in
  let sum := u32 v in
  if bool_decide (0 < n)%nat && bool_decide (n = length s) then
    match af_hint with
    | AF_INET => P_ok (Cidr sum (V4 (htonl sum)))
    | AF_INET6 => P_ok (Cidr sum (V6 (enc BE 16 sum)))
    end
  else
    match (match str_split 58 s with
           | Some _ => cidr_parse6 s
           | None => cidr_parse4 s
           end) with
    | None => P_null
    | Some a => if decide (family a = af_hint) then P_ok a else P_exit 4
    end.

Definition cidr_howmany (a b : cidr) (s : st) : option (bool * st) :=
  let s := print_sep s in
  if prefix b <? prefix a then Some (true, qprintf (str "0") s)
  else n ← shl1 (u32 (prefix b - prefix a)); Some (true, qprintf (print_u n) s).

(** [a] is the top of the stack: it is changed in place. *)
Definition cidr_prefix (a b : cidr) (s : st) : option (bool * st) :=
  Some (true, St (match stack s with
                  | _ :: r => Cidr (prefix b) (addr a) :: r
                  | [] => []
                  end) (quiet s) (printed s) (out s)).

Definition cidr_quiet (a : cidr) (s : st) : option (bool * st) :=
  Some (true, St (stack s) true (printed s) (out s)).

(** ** main.c *)

(** The function pointers of a table entry, NULL as [None]. *)
Record op := Op {
  op_name : cstr;
  f4_a1 : option (cidr -> st -> option (bool * st));
  f4_a2 : option (cidr -> cidr -> st -> option (bool * st));
  f6_a1 : option (cidr -> st -> option (bool * st));
  f6_a2 : option (cidr -> cidr -> st -> option (bool * st)) }.

Definition pop_op (_ : cidr) (s : st) : option (bool * st) := Some (cidr_pop s).

Definition ops : list op := [
  Op (str "add") None (Some cidr_add4) None (Some cidr_add6);
  Op (str "sub") None (Some cidr_sub4) None (Some cidr_sub6);
  Op (str "next") None (Some cidr_next4) None (Some cidr_next6);
  Op (str "prev") None (Some cidr_prev4) None (Some cidr_prev6);
  Op (str "network") (Some cidr_network4) None (Some cidr_network6) None;
  Op (str "broadcast") (Some cidr_broadcast4) None None None;
  Op (str "prefix") None (Some cidr_prefix) None (Some cidr_prefix);
  Op (str "netmask") (Some cidr_netmask4) None None None;
  Op (str "6to4") (Some cidr_6to4) None None None;
  Op (str "howmany") None (Some cidr_howmany) None (Some cidr_howmany);
  Op (str "contains") None (Some cidr_contains4) None (Some cidr_contains6);
  Op (str "private") (Some cidr_private4) None None None;
  Op (str "linklocal") (Some cidr_linklocal4) None (Some cidr_linklocal6) None;
  Op (str "ula") None None (Some cidr_ula6) None;
  Op (str "quiet") (Some cidr_quiet) None (Some cidr_quiet) None;
  Op (str "pop") (Some pop_op) None (Some pop_op) None;
  Op (str "print") (Some cidr_print4) None (Some cidr_print6) None ].

Definition find_op (name : cstr) : option op :=
  List.find (fun o => bool_decide (op_name o = name)) ops.

(** The result of [runop]: its return value, the arguments left, [*status] and
    the globals; or exit(4) inside [cidr_parse]. *)
Inductive run := R_ret (more : bool) (args : list cstr) (status : Z) (s : st) | R_exit (code : Z) (s : st).

(** [*status = !f(...); return true] *)
Definition run_result (args : list cstr) (r : option (bool * st)) : option run :=
  '(ok, s) ← r; Some (R_ret true args (Z.b2z (negb ok)) s).

Definition runop (args : list cstr) (status : Z) (s : st) : option run :=
  match args with
  | [] => Some (R_ret false [] status s)
  | arg1 :: rest =>
      match find_op arg1 with
      | None => Some (R_ret false args status s)
      | Some o =>
          if bool_decide (is_Some (f4_a2 o)) || bool_decide (is_Some (f6_a2 o)) then
            match rest with
            | [] => Some (R_ret false args 2 s)
            | arg2 :: rest' =>
                a ← head (stack s);
                match cidr_parse arg2 (family a) with
                | P_null => Some (R_ret false args 3 s)
                | P_exit c => Some (R_exit c s)
                | P_ok b =>
                    match (match family a with AF_INET => f4_a2 o | AF_INET6 => f6_a2 o end) with
                    | None => Some (R_ret false rest' 5 s)
                    | Some f => run_result rest' (f a b s)
                    end
                end
            end
          else
            a ← head (stack s);
            match (match family a with AF_INET => f4_a1 o | AF_INET6 => f6_a1 o end) with
            | None => Some (R_ret false rest 5 s)
            | Some f => run_result rest (f a s)
            end
      end
  end.

(** [while (runop(&arg, &status));] *)
Fixpoint run_loop (fuel : nat) (args : list cstr) (status : Z) (s : st) : option run :=
  match fuel with
  | O => None
  | S f =>
      r ← runop args status s;
      match r with
      | R_ret true args status s => run_loop f args status s
      | _ => Some r
      end
  end.

(** [main] after [argv[0]]: exit status and stdout; the loop takes at most [fuel] steps. *)
Definition main_with (fuel : nat) (argv : list cstr) : option (Z * cstr) :=
  match argv with
  | base :: ((_ :: _) as args) =>
      match (match str_split 58 base with
             | Some _ => cidr_parse6 base
             | None => cidr_parse4 base
             end) with
      | None => Some (1, [])
      | Some a =>
          r ← run_loop fuel args 0 (cidr_push a (St [] false false []));
          match r with
          | R_exit c s => Some (c, out s)
          | R_ret _ (_ :: _) _ s => Some (6, out s)
          | R_ret _ [] status s =>
              s ← (if negb (printed s) && (status <? 2)
                   then a ← head (stack s);
                        match family a with
                        | AF_INET => snd <$> cidr_print4 a s
                        | AF_INET6 => snd <$> cidr_print6 a s
                        end
                   else Some s);
              Some (status, out (qprintf [10] s))
          end
      end
  | _ => Some (1, [])
  end.

(** Every step but the last takes an argument. *)
Definition main (argv : list cstr) : option (Z * cstr) := main_with (length argv) argv.
End Owip.
