(* ===== verification/OwipFacts.v ===== *)
(** * The address calculator: lemmas

    Byte order conversion, masks and blocks of IPv4 prefixes, and the byte
    loops of the IPv6 operations as 128-bit arithmetic. *)
From stdpp Require Import options.
From S2P Require Import Prelude CLib Owip.
Set Default Proof Using "Type*".

(** ** Bytewise operations *)

Lemma le_bytes_land n a b :
  le_bytes n (Z.land a b) = zip_with Z.land (le_bytes n a) (le_bytes n b).
Proof.
  revert a b. induction n as [|n IH]; intros a b; [done|]. simpl. f_equal.
  - change 256 with (2 ^ 8). rewrite <- !Z.land_ones by lia.
    apply Z.bits_inj'. intros i Hi. rewrite !Z.land_spec.
    by destruct (Z.testbit a i), (Z.testbit b i), (Z.testbit (Z.ones 8) i).
  - rewrite <- IH. f_equal. change 256 with (2 ^ 8).
    rewrite <- !Z.shiftr_div_pow2 by lia. apply Z.shiftr_land.
Qed.

Lemma le_bytes_lor n a b :
  le_bytes n (Z.lor a b) = zip_with Z.lor (le_bytes n a) (le_bytes n b).
Proof.
  revert a b. induction n as [|n IH]; intros a b; [done|]. simpl. f_equal.
  - change 256 with (2 ^ 8). rewrite <- !Z.land_ones by lia. apply Z.land_lor_distr_l.
  - rewrite <- IH. f_equal. change 256 with (2 ^ 8).
    rewrite <- !Z.shiftr_div_pow2 by lia. apply Z.shiftr_lor.
Qed.

Lemma rev_zip_with (f : Z -> Z -> Z) l k :
  length l = length k -> rev (zip_with f l k) = zip_with f (rev l) (rev k).
Proof.
  revert k. induction l as [|x l IH]; intros [|y k] H; simpl in *; try done.
  injection H as H. rewrite IH by done.
  by rewrite zip_with_app by slen.
Qed.

Lemma enc_land e n a b : enc e n (Z.land a b) = zip_with Z.land (enc e n a) (enc e n b).
Proof.
  destruct e; simpl; rewrite le_bytes_land; [done|]. apply rev_zip_with. slen.
Qed.
Lemma enc_lor e n a b : enc e n (Z.lor a b) = zip_with Z.lor (enc e n a) (enc e n b).
Proof.
  destruct e; simpl; rewrite le_bytes_lor; [done|]. apply rev_zip_with. slen.
Qed.

(** ** Byte order *)

Section Conv.
Context {T : Target}.

Lemma dec_word32 e l : length l = 4%nat -> Forall (is_word 8) l -> is_word 32 (dec e l).
Proof.
  intros Hl Hf. unfold is_word. change (2 ^ 32) with (256 ^ Z.of_nat 4).
  destruct e; simpl; [rewrite <- Hl; by apply le_val_range|].
  rewrite <- Hl, <- length_rev. apply le_val_range. by apply Forall_rev.
Qed.

Lemma htonl_word x : is_word 32 (htonl x).
Proof. apply dec_word32; [apply length_enc|apply enc_range]. Qed.
Lemma ntohl_word x : is_word 32 (ntohl x).
Proof. apply dec_word32; [apply length_enc|apply enc_range]. Qed.

Lemma enc_htonl x : enc byte_order 4 (htonl x) = enc BE 4 x.
Proof.
  unfold htonl. rewrite <- (length_enc BE 4 x) at 1. apply enc_dec, enc_range.
Qed.

Lemma ntohl_htonl x : ntohl (htonl x) = u32 x.
Proof. unfold ntohl. rewrite enc_htonl. apply dec_enc. Qed.

Lemma htonl_ntohl x : htonl (ntohl x) = u32 x.
Proof.
  unfold htonl, ntohl. pose proof (enc_dec BE (enc byte_order 4 x) (enc_range _ _ _)) as H.
  rewrite length_enc in H. rewrite H. apply dec_enc.
Qed.

Lemma htonl_word_inv x : is_word 32 x -> htonl (ntohl x) = x.
Proof. intros. rewrite htonl_ntohl. by apply wrap_small. Qed.

Lemma htonl_inj x y : is_word 32 x -> is_word 32 y -> htonl x = htonl y -> x = y.
Proof.
  intros Hx Hy H. apply (f_equal ntohl) in H. rewrite !ntohl_htonl in H.
  unfold u32 in H. by rewrite !wrap_small in H.
Qed.

Lemma ntohl_land x y : ntohl (Z.land x y) = Z.land (ntohl x) (ntohl y).
Proof.
  apply htonl_inj; [apply ntohl_word|apply is_word_land; [lia|apply ntohl_word..]|].
  rewrite htonl_ntohl. unfold htonl. rewrite enc_land.
  assert (forall z, enc BE 4 (ntohl z) = enc byte_order 4 z) as He.
  { intros z. unfold ntohl. rewrite <- (length_enc byte_order 4 z) at 1.
    apply enc_dec, enc_range. }
  rewrite !He, <- enc_land. symmetry. apply dec_enc.
Qed.

Lemma ntohl_lor x y : ntohl (Z.lor x y) = Z.lor (ntohl x) (ntohl y).
Proof.
  apply htonl_inj; [apply ntohl_word|apply is_word_lor; [lia|apply ntohl_word..]|].
  rewrite htonl_ntohl. unfold htonl. rewrite enc_lor.
  assert (forall z, enc BE 4 (ntohl z) = enc byte_order 4 z) as He.
  { intros z. unfold ntohl. rewrite <- (length_enc byte_order 4 z) at 1.
    apply enc_dec, enc_range. }
  rewrite !He, <- enc_lor. symmetry. apply dec_enc.
Qed.

(** ** Blocks *)

Lemma block4_eq p : 2 <= p <= 32 -> block4 p = Some (2 ^ (32 - p)).
Proof.
  intros Hp. unfold block4, shl1, u32. rewrite wrap_small by (unfold is_word; lia).
  by rewrite (proj2 (Z.leb_le _ _)) by lia.
Qed.

Lemma block4_bounds p : 1 <= p <= 32 -> 0 < 2 ^ (32 - p) < 2 ^ 32.
Proof.
  intros. split; [apply Z.pow_pos_nonneg; lia|apply Z.pow_lt_mono_r; lia].
Qed.

(** The mask, where it is defined. *)
Definition mask_of (p : Z) : Z := u32 (Z.lnot (Z.ones (32 - p))).

Lemma mask4_of p : 2 <= p <= 32 -> mask4 p = Some (mask_of p).
Proof. intros. unfold mask4. rewrite block4_eq by done. unfold mask_of. by rewrite Z.ones_equiv. Qed.

Lemma mask_of_word p : is_word 32 (mask_of p).
Proof. apply wrap_range. lia. Qed.

Lemma mask_of_eq p : 1 <= p <= 32 -> mask_of p = 2 ^ 32 - 2 ^ (32 - p).
Proof.
  intros Hp. unfold mask_of. rewrite Z.ones_equiv. unfold u32, wrap, Z.lnot.
  pose proof (block4_bounds p Hp). symmetry. apply Z.mod_unique_pos with (-1); lia.
Qed.

(** The network part and the last address of a block. *)
Definition floor_to (k x : Z) : Z := x / 2 ^ k * 2 ^ k.

Lemma land_mask_of p x :
  1 <= p <= 32 -> is_word 32 x -> Z.land x (mask_of p) = floor_to (32 - p) x.
Proof.
  intros Hp Hx. unfold mask_of. rewrite <- (wrap_small 32 x) at 1 by done.
  unfold u32. rewrite <- wrap_land by lia.
  rewrite <- Z.ldiff_land, Z.ldiff_ones_r, Z.shiftl_mul_pow2, Z.shiftr_div_pow2 by lia.
  apply wrap_small. unfold is_word, floor_to in *. pose proof (block4_bounds p Hp).
  pose proof (Z.mul_div_le x (2 ^ (32 - p))). pose proof (Z.div_pos x (2 ^ (32 - p))). nia.
Qed.

Lemma lor_ones k x : 0 <= k -> Z.lor x (2 ^ k - 1) = floor_to k x + 2 ^ k - 1.
Proof.
  intros Hk. rewrite Z.sub_1_r, <- Z.ones_equiv. unfold floor_to.
  rewrite <- Z.shiftr_div_pow2, <- Z.shiftl_mul_pow2, <- Z.ldiff_ones_r by done.
  transitivity (Z.ldiff x (Z.ones k) + Z.ones k); [|rewrite Z.ones_equiv; lia].
  rewrite Z.add_nocarry_lor.
  - apply Z.bits_inj'. intros i Hi. rewrite !Z.lor_spec, Z.ldiff_spec.
    by destruct (Z.testbit x i), (Z.testbit (Z.ones k) i).
  - apply Z.bits_inj'. intros i Hi. rewrite Z.land_spec, Z.ldiff_spec, Z.bits_0.
    by destruct (Z.testbit x i), (Z.testbit (Z.ones k) i).
Qed.

Lemma floor_to_eq k x y : 0 <= k -> floor_to k x = floor_to k y <-> x / 2 ^ k = y / 2 ^ k.
Proof.
  intros Hk. unfold floor_to. assert (0 < 2 ^ k) by (apply Z.pow_pos_nonneg; lia).
  split; [nia|by intros ->].
Qed.
End Conv.

(** ** IPv6 addresses as 128-bit numbers *)

Definition val6 (x : list Z) : Z := dec BE x.

Lemma val6_snoc x c : val6 (x ++ [c]) = 256 * val6 x + c.
Proof. unfold val6. simpl. rewrite rev_app_distr. cbn [rev app le_val]. lia. Qed.

Lemma val6_app x y : val6 (x ++ y) = 256 ^ Z.of_nat (length y) * val6 x + val6 y.
Proof.
  induction y as [|c y IH] using rev_ind; [rewrite app_nil_r; unfold val6; simpl; lia|].
  rewrite app_assoc, !val6_snoc, IH, length_app, Nat2Z.inj_add, Z.pow_add_r by lia.
  simpl (256 ^ Z.of_nat (length [c])). lia.
Qed.

Lemma val6_range x : Forall (is_word 8) x -> 0 <= val6 x < 256 ^ Z.of_nat (length x).
Proof.
  intros H. unfold val6. simpl. rewrite <- length_rev. apply le_val_range. by apply Forall_rev.
Qed.

Lemma val6_inj x y :
  Forall (is_word 8) x -> Forall (is_word 8) y -> length x = length y -> val6 x = val6 y -> x = y.
Proof.
  intros Hx Hy Hl H. rewrite <- (enc_dec BE x Hx), <- (enc_dec BE y Hy), Hl.
  by f_equal.
Qed.

Lemma val6_take_S x i xi :
  x !! i = Some xi -> val6 (take (S i) x) = 256 * val6 (take i x) + xi.
Proof. intros H. by rewrite (take_S_r x i xi H), val6_snoc. Qed.

Lemma val6_take_insert x i j c :
  (i <= j)%nat -> val6 (take i (<[j:=c]> x)) = val6 (take i x).
Proof. intros. by rewrite take_insert_ge by lia. Qed.

Definition addr6 (x : list Z) : Prop := length x = 16%nat /\ Forall (is_word 8) x.

(** A byte loop that adds [d] to the number formed by the first [idx + 1] bytes:
    it returns, writes bytes, leaves the other bytes, and its carry is the
    part that does not fit. *)
Definition loop_adds (idx : nat) (x : list Z) (d : Z) (r : option (list Z * Z)) : Prop :=
  exists x' carry, r = Some (x', carry) /\ length x' = length x /\ Forall (is_word 8) x' /\
    drop (S idx) x' = drop (S idx) x /\
    val6 (take (S idx) x') + carry * 256 ^ Z.of_nat (S idx) = val6 (take (S idx) x) + d.

Lemma loop_adds_step i x xi c d d' r :
  x !! S i = Some xi -> c + 256 * d' = xi + d ->
  loop_adds i (<[S i := c]> x) d' r -> loop_adds (S i) x d r.
Proof.
  intros Hx Hc (x' & carry & -> & Hl & Hf & Hd & Hv).
  rewrite length_insert in Hl. pose proof (lookup_lt_Some _ _ _ Hx) as Hlt.
  exists x', carry. split; [done|]. split; [done|]. split; [done|].
  assert (x' !! S i = Some c) as Hx'.
  { transitivity (drop (S i) x' !! 0%nat); [rewrite lookup_drop; f_equal; lia|].
    rewrite Hd, lookup_drop, Nat.add_0_r. by rewrite list_lookup_insert_eq. }
  split.
  - replace (S (S i)) with (S i + 1)%nat by lia.
    rewrite <- (drop_drop x'), Hd, drop_drop. by rewrite drop_insert_lt by lia.
  - rewrite (val6_take_S x' _ _ Hx'), (val6_take_S x _ _ Hx).
    rewrite (val6_take_insert x (S i) (S i)) in Hv by lia.
    rewrite (Nat2Z.inj_succ (S i)), Z.pow_succ_r by lia. lia.
Qed.

Lemma loop_adds_base x xi c k d :
  Forall (is_word 8) x -> x !! 0%nat = Some xi -> is_word 8 c ->
  c + 256 * k = xi + d -> loop_adds 0 x d (Some (<[0%nat := c]> x, k)).
Proof.
  intros Hf Hx Hc Hv. exists (<[0%nat := c]> x), k.
  split; [done|]. split; [by rewrite length_insert|]. split; [by apply Forall_insert|].
  destruct x as [|x0 x]; [done|]. simpl in Hx. simplify_eq. simpl.
  split; [done|]. unfold val6. simpl. lia.
Qed.

Lemma u8_carry s : 0 <= s < 512 -> u8 s + 256 * Z.b2z (256 <=? s) = s.
Proof. intros. unfold u8, wrap. change (2 ^ 8) with 256. destruct (Z.leb_spec 256 s); simpl; dlia. Qed.

Lemma u8_borrow s : -256 <= s < 256 -> u8 s - 256 * Z.b2z (s <? 0) = s.
Proof. intros. unfold u8, wrap. change (2 ^ 8) with 256. destruct (Z.ltb_spec s 0); simpl; dlia. Qed.

Lemma u8_word s : is_word 8 (u8 s).
Proof. apply wrap_range. lia. Qed.

Lemma b2z_range b : 0 <= Z.b2z b <= 1.
Proof. destruct b; simpl; lia. Qed.

Lemma Forall_lookup_word (x : list Z) i xi : Forall (is_word 8) x -> x !! i = Some xi -> 0 <= xi < 256.
Proof. intros H Hx. apply (Forall_lookup_1 _ _ _ _ H Hx). Qed.

Lemma add6_loop_ok idx : forall x y carry,
  Forall (is_word 8) x -> Forall (is_word 8) y ->
  (idx < length x)%nat -> (idx < length y)%nat -> 0 <= carry <= 1 ->
  loop_adds idx x (val6 (take (S idx) y) + carry) (add6_loop idx x y carry).
Proof.
  induction idx as [|i IH]; intros x y carry Hx Hy Hlx Hly Hc;
    destruct (lookup_lt_is_Some_2 x _ Hlx) as [xi Hxi];
    destruct (lookup_lt_is_Some_2 y _ Hly) as [yi Hyi];
    pose proof (Forall_lookup_word _ _ _ Hx Hxi); pose proof (Forall_lookup_word _ _ _ Hy Hyi);
    pose proof (u8_carry (xi + yi + carry)) as Hu;
    cbn [add6_loop]; rewrite Hxi, Hyi; cbn [mbind option_bind].
  - apply loop_adds_base with xi; [done|done|apply u8_word|].
    rewrite (val6_take_S y _ _ Hyi). unfold val6 at 1. simpl. lia.
  - eapply loop_adds_step with (c := u8 (xi + yi + carry)) (d' := val6 (take (S i) y) +
      Z.b2z (256 <=? xi + yi + carry)); [done|rewrite (val6_take_S y _ _ Hyi); lia|].
    apply IH; [apply Forall_insert; [done|apply u8_word]|done|rewrite length_insert; lia|lia|
               apply b2z_range].
Qed.

Lemma sub6_loop_ok idx : forall x y carry,
  Forall (is_word 8) x -> Forall (is_word 8) y ->
  (idx < length x)%nat -> (idx < length y)%nat -> 0 <= carry <= 1 ->
  exists r, sub6_loop idx x y carry = Some r /\
    loop_adds idx x (- (val6 (take (S idx) y) + carry)) (Some (fst r, - snd r)).
Proof.
  induction idx as [|i IH]; intros x y carry Hx Hy Hlx Hly Hc;
    destruct (lookup_lt_is_Some_2 x _ Hlx) as [xi Hxi];
    destruct (lookup_lt_is_Some_2 y _ Hly) as [yi Hyi];
    pose proof (Forall_lookup_word _ _ _ Hx Hxi); pose proof (Forall_lookup_word _ _ _ Hy Hyi);
    pose proof (u8_borrow (xi - (yi + carry))) as Hu;
    cbn [sub6_loop]; rewrite Hxi, Hyi; cbn [mbind option_bind];
    replace (xi - yi - carry) with (xi - (yi + carry)) by lia.
  - eexists. split; [done|]. apply loop_adds_base with xi; [done|done|apply u8_word|].
    rewrite (val6_take_S y _ _ Hyi). unfold val6 at 1. simpl. lia.
  - destruct (IH (<[S i := u8 (xi - (yi + carry))]> x) y (Z.b2z (xi - (yi + carry) <? 0)))
      as (r & -> & Hr); [apply Forall_insert; [done|apply u8_word]|done|rewrite length_insert; lia|
               lia|apply b2z_range|].
    eexists. split; [done|]. eapply loop_adds_step; [done| |exact Hr].
    rewrite (val6_take_S y _ _ Hyi). lia.
Qed.

(** The loops of 'next' and 'prev' add and subtract the carry alone. *)
Lemma next6_loop_zero idx x carry n :
  (idx < n)%nat -> next6_loop idx x carry = add6_loop idx x (replicate n 0) carry.
Proof.
  revert x carry. induction idx as [|i IH]; intros x carry Hn; cbn [next6_loop add6_loop];
    destruct (x !! _); try done; simpl; rewrite lookup_replicate_2 by done; simpl;
    rewrite Z.add_0_r; [done|]. apply IH. lia.
Qed.

Lemma prev6_loop_zero idx x carry n :
  (idx < n)%nat -> prev6_loop idx x carry = sub6_loop idx x (replicate n 0) carry.
Proof.
  revert x carry. induction idx as [|i IH]; intros x carry Hn; cbn [prev6_loop sub6_loop];
    destruct (x !! _); try done; simpl; rewrite lookup_replicate_2 by done; simpl;
    rewrite Z.sub_0_r; [done|]. apply IH. lia.
Qed.

Lemma val6_zero n : val6 (replicate n 0) = 0.
Proof.
  induction n as [|n IH]; [done|]. rewrite replicate_S_end, val6_snoc, IH. done.
Qed.

Lemma zero_words n : Forall (is_word 8) (replicate n 0).
Proof. apply Forall_replicate. unfold is_word. lia. Qed.

(** The high part of an address, [n] bytes, as part of the whole number. *)
Lemma val6_split n x :
  (n <= length x)%nat ->
  val6 x = 256 ^ Z.of_nat (length x - n) * val6 (take n x) + val6 (drop n x).
Proof.
  intros. rewrite <- (take_drop n x) at 1. by rewrite val6_app, length_drop.
Qed.

(** ** Blocks of IPv6 addresses *)

Lemma pow_256 n : 256 ^ n = 2 ^ (8 * n).
Proof.
  destruct (Z.lt_ge_cases n 0) as [H|H]; [by rewrite !Z.pow_neg_r by lia|].
  rewrite Z.pow_mul_r by lia. done.
Qed.

(** The number of the block of size [2^(8 i + j)] an address lies in. *)
Lemma block6_div x i j :
  addr6 x -> (i <= 16)%nat -> 0 <= j ->
  val6 x / 2 ^ (8 * Z.of_nat i + j) = val6 (take (16 - i) x) / 2 ^ j.
Proof.
  intros [Hl Hf] Hi Hj. rewrite Z.pow_add_r, <- pow_256, <- Z.div_div by lia.
  f_equal. rewrite (val6_split (16 - i) x) by lia.
  assert (0 <= val6 (drop (16 - i) x) < 256 ^ Z.of_nat i) as Hd.
  { pose proof (val6_range _ (Forall_drop _ (16 - i) x Hf)) as H.
    rewrite length_drop, Hl in H. by replace (16 - (16 - i))%nat with i in H by lia. }
  replace (length x - (16 - i))%nat with i by lia.
  rewrite Z.mul_comm, Z.div_add_l, (Z.div_small _ _ Hd) by lia. lia.
Qed.

Lemma byte_block t c j :
  0 <= j < 8 -> (256 * t + c) / 2 ^ j = t * 2 ^ (8 - j) + c / 2 ^ j.
Proof.
  intros Hj. assert (0 < 2 ^ j) by (apply Z.pow_pos_nonneg; lia).
  replace 256 with (2 ^ (8 - j) * 2 ^ j) by (rewrite <- Z.pow_add_r by lia; by replace (8 - j + j) with 8 by lia).
  replace (2 ^ (8 - j) * 2 ^ j * t + c) with (t * 2 ^ (8 - j) * 2 ^ j + c) by lia.
  by rewrite Z.div_add_l by lia.
Qed.

Lemma byte_block_range c j : 0 <= j < 8 -> 0 <= c < 256 -> 0 <= c / 2 ^ j < 2 ^ (8 - j).
Proof.
  intros Hj Hc. assert (0 < 2 ^ j) by (apply Z.pow_pos_nonneg; lia).
  split; [apply Z.div_pos; lia|]. apply Z.div_lt_upper_bound; [done|].
  rewrite <- Z.pow_add_r by lia. replace (j + (8 - j)) with 8 by lia. lia.
Qed.

Lemma land_mask8 c j :
  0 <= j < 8 -> 0 <= c < 256 -> Z.land c (u8 (Z.lnot (2 ^ j - 1))) = floor_to j c.
Proof.
  intros Hj Hc. rewrite Z.sub_1_r, <- Z.ones_equiv. unfold u8.
  rewrite <- (wrap_small 8 c) at 1 by done. rewrite <- wrap_land by lia.
  rewrite <- Z.ldiff_land, Z.ldiff_ones_r, Z.shiftl_mul_pow2, Z.shiftr_div_pow2 by lia.
  apply wrap_small. unfold is_word, floor_to. assert (0 < 2 ^ j) by (apply Z.pow_pos_nonneg; lia).
  pose proof (Z.mul_div_le c (2 ^ j)). pose proof (Z.div_pos c (2 ^ j)). lia.
Qed.

Lemma nth_lookup_16 x i : addr6 x -> (i < 16)%nat -> x !! i = Some (nth i x 0).
Proof. intros [Hl _] Hi. destruct (nth_lookup_or_length x i 0); [done|lia]. Qed.

Lemma nth_byte x i : addr6 x -> (i < 16)%nat -> 0 <= nth i x 0 < 256.
Proof. intros Hx Hi. eapply Forall_lookup_word; [apply Hx|by apply nth_lookup_16]. Qed.

(** Splitting the prefix length of an address. *)
Lemma host_split p :
  0 <= p <= 128 -> exists i j, u32 (128 - p) / 8 = Z.of_nat i /\ u32 (128 - p) mod 8 = j /\
    128 - p = 8 * Z.of_nat i + j /\ 0 <= j < 8 /\ (i <= 16)%nat /\ (i = 16%nat -> j = 0) /\
    (p <> 0 -> (i <= 15)%nat).
Proof.
  intros Hp. unfold u32. rewrite wrap_small by (unfold is_word; lia).
  exists (Z.to_nat ((128 - p) / 8)), ((128 - p) mod 8).
  split_and!; try dlia; intros; dlia.
Qed.

(** Comparing the network parts of two addresses byte by byte. *)
Lemma same_block6 x y i j :
  addr6 x -> addr6 y -> (i <= 15)%nat -> 0 <= j < 8 ->
  let m := u8 (Z.lnot (2 ^ j - 1)) in
  let k := (15 - i)%nat in
  (Z.land (nth k x 0) m = Z.land (nth k y 0) m /\ take k x = take k y) <->
  val6 x / 2 ^ (8 * Z.of_nat i + j) = val6 y / 2 ^ (8 * Z.of_nat i + j).
Proof.
  intros Hx Hy Hi Hj m k.
  pose proof (nth_byte x k Hx ltac:(lia)). pose proof (nth_byte y k Hy ltac:(lia)).
  unfold m. rewrite !land_mask8, floor_to_eq by (done || lia).
  rewrite !block6_div by (done || lia).
  replace (16 - i)%nat with (S k) by lia.
  rewrite (val6_take_S x k _ (nth_lookup_16 x k Hx ltac:(lia))).
  rewrite (val6_take_S y k _ (nth_lookup_16 y k Hy ltac:(lia))).
  rewrite !byte_block by done.
  pose proof (byte_block_range (nth k x 0) j). pose proof (byte_block_range (nth k y 0) j).
  assert (0 < 2 ^ (8 - j)) by (apply Z.pow_pos_nonneg; lia). split.
  - intros [-> ->]. done.
  - intros Heq. assert (val6 (take k x) = val6 (take k y)) as Hv by nia.
    split; [nia|]. apply val6_inj; [apply Forall_take, Hx|apply Forall_take, Hy| |done].
    destruct Hx, Hy. slen.
Qed.

Lemma network6_loop_ok fuel x i n :
  (i <= n <= 16)%nat -> (n - i <= fuel)%nat -> length x = 16%nat ->
  network6_loop fuel (Z.of_nat i) (Z.of_nat n) x =
  Some (take (16 - n) x ++ replicate (n - i) 0 ++ drop (16 - i) x, Z.of_nat n).
Proof.
  revert i x. induction fuel as [|f IH]; intros i x Hi Hf Hl; cbn [network6_loop].
  - assert (i = n) as -> by lia. rewrite Z.ltb_irrefl, Nat.sub_diag. simpl.
    by rewrite take_drop.
  - destruct (Z.ltb_spec (Z.of_nat i) (Z.of_nat n)) as [Hlt|Hge].
    + replace (Z.of_nat i + 1) with (Z.of_nat (S i)) by lia.
      rewrite IH by (rewrite ?length_insert; lia).
      replace (Z.to_nat (15 - Z.of_nat i)) with (15 - i)%nat by lia.
      rewrite take_insert_ge by lia. do 3 f_equal.
      replace (n - i)%nat with (n - S i + 1)%nat by lia.
      rewrite replicate_add, <- app_assoc. f_equal.
      replace (16 - S i)%nat with (15 - i)%nat by lia. simpl.
      rewrite drop_insert_ge, Nat.sub_diag by lia.
      rewrite (drop_S x (nth (15 - i) x 0) (15 - i)); [|destruct (nth_lookup_or_length x (15 - i) 0); [done|lia]].
      simpl. do 2 f_equal. lia.
    + assert (i = n) as -> by lia. rewrite Nat.sub_diag. simpl. by rewrite take_drop.
Qed.

(** Zeroing whole bytes. *)
Lemma val6_zero_tail x n :
  addr6 x -> (n <= 16)%nat ->
  val6 (take (16 - n) x ++ replicate n 0) = floor_to (8 * Z.of_nat n) (val6 x).
Proof.
  intros Hx Hn. rewrite val6_app, val6_zero, length_replicate. unfold floor_to.
  pose proof (block6_div x n 0 Hx Hn) as Hd. rewrite !Z.add_0_r in *.
  rewrite Hd, <- pow_256 by lia. simpl (2 ^ 0). rewrite Z.div_1_r. lia.
Qed.
