(* ===== verification/OwipProps.v ===== *)
(** * The address calculator: the operations as arithmetic

    IPv4 addresses as 32-bit and IPv6 addresses as 128-bit numbers in network
    order: every operation of owipcalc.c computes on them what its description
    in main.c says - within the limits stated here. *)
From stdpp Require Import options.
From S2P Require Import Prelude CLib Owip OwipFacts.
Set Default Proof Using "Type*".

(** The prefix [x/p] with [x] in host byte order. *)
Definition mk4 {T : Target} (p x : Z) : cidr := Cidr p (V4 (htonl x)).
Definition mk6 (p x : Z) : cidr := Cidr p (V6 (enc BE 16 x)).

(** A little-endian and a big-endian target; the conversions are not used by the
    operations. *)
Definition mips (e : endian) : Target := {|
  byte_order := e; long_bits := 32;
  inet_pton4 _ := None; inet_ntop4 _ := None; inet_pton6 _ := None; inet_ntop6 _ := None |}.

Definition empty_st : st := St [] false false [].

Section Props.
Context {T : Target}.

Lemma ntohl_mk x : is_word 32 x -> ntohl (htonl x) = x.
Proof. intros. rewrite ntohl_htonl. by apply wrap_small. Qed.

Lemma htonl_land x y :
  is_word 32 x -> is_word 32 y -> Z.land (htonl x) (htonl y) = htonl (Z.land x y).
Proof.
  intros Hx Hy. rewrite <- (ntohl_mk x Hx) at 2. rewrite <- (ntohl_mk y Hy) at 2.
  rewrite <- ntohl_land. symmetry. apply htonl_word_inv.
  apply is_word_land; [lia|apply htonl_word..].
Qed.

Lemma htonl_lor x y :
  is_word 32 x -> is_word 32 y -> Z.lor (htonl x) (htonl y) = htonl (Z.lor x y).
Proof.
  intros Hx Hy. rewrite <- (ntohl_mk x Hx) at 2. rewrite <- (ntohl_mk y Hy) at 2.
  rewrite <- ntohl_lor. symmetry. apply htonl_word_inv.
  apply is_word_lor; [lia|apply htonl_word..].
Qed.

Lemma floor_to_word p x : 1 <= p <= 32 -> is_word 32 x -> is_word 32 (floor_to (32 - p) x).
Proof using T.
  intros Hp Hx. rewrite <- land_mask_of by done. apply is_word_land; [lia|done|apply mask_of_word].
Qed.

(** ** IPv4 *)

(** IPv4 'add' and 'sub' are exact: the result is pushed with the prefix
    length of the base address; when the sum or difference leaves the address
    space the operation fails and pushes an unchanged copy. *)
Theorem add_sub4_correct (p q x y : Z) (s : st) :
  is_word 32 x -> is_word 32 y ->
  cidr_add4 (mk4 p x) (mk4 q y) s =
    (if decide (x + y < 2 ^ 32) then Some (true, cidr_push (mk4 p (x + y)) s)
     else Some (false, cidr_push (mk4 p x) s)) /\
  cidr_sub4 (mk4 p x) (mk4 q y) s =
    (if decide (y <= x) then Some (true, cidr_push (mk4 p (x - y)) s)
     else Some (false, cidr_push (mk4 p x) s)).
Proof.
  intros Hx Hy. unfold cidr_add4, cidr_sub4, mk4. simpl addr. cbn match. simpl prefix.
  rewrite !ntohl_mk by done. unfold u32, wrap, is_word in *. split; case_decide as Hd.
  - rewrite Z.mod_small by lia. by rewrite (proj2 (Z.ltb_ge _ _)) by lia.
  - rewrite (proj2 (Z.ltb_lt _ _)); [done|].
    rewrite <- (Z.mod_unique_pos (x + y) (2 ^ 32) 1 (x + y - 2 ^ 32)); lia.
  - rewrite Z.mod_small by lia. by rewrite Z.gtb_ltb, (proj2 (Z.ltb_ge _ _)) by lia.
  - rewrite Z.gtb_ltb, (proj2 (Z.ltb_lt _ _)); [done|].
    rewrite <- (Z.mod_unique_pos (x - y) (2 ^ 32) (-1) (x - y + 2 ^ 32)); lia.
Qed.

(** For prefix lengths 2 to 32, on every target: 'network' is the first and
    'broadcast' the last address of the block of [2^(32-p)] addresses the base
    address lies in, 'netmask' is [2^32 - 2^(32-p)]. *)
Theorem block4_correct (p x : Z) (s : st) :
  2 <= p <= 32 -> is_word 32 x ->
  let first := x / 2 ^ (32 - p) * 2 ^ (32 - p) in
  cidr_network4 (mk4 p x) s = Some (true, cidr_push (mk4 32 first) s) /\
  cidr_broadcast4 (mk4 p x) s =
    Some (true, cidr_push (mk4 32 (first + 2 ^ (32 - p) - 1)) s) /\
  cidr_netmask4 (mk4 p x) s =
    Some (true, cidr_push (mk4 32 (2 ^ 32 - 2 ^ (32 - p))) s) /\
  first <= x <= first + 2 ^ (32 - p) - 1.
Proof.
  intros Hp Hx first. pose proof (block4_bounds p ltac:(lia)) as Hb. split_and!.
  - unfold cidr_network4, mk4. simpl. rewrite mask4_of by done. simpl.
    rewrite htonl_land by (done || apply mask_of_word). by rewrite land_mask_of by (done || lia).
  - unfold cidr_broadcast4, mk4. simpl. rewrite block4_eq by done. simpl. unfold u32.
    rewrite wrap_small by (unfold is_word; lia).
    rewrite htonl_lor by (done || unfold is_word; lia). by rewrite lor_ones by lia.
  - unfold cidr_netmask4, mk4. simpl. rewrite mask4_of by done. simpl. by rewrite mask_of_eq by lia.
  - unfold first. pose proof (Z.mul_div_le x (2 ^ (32 - p))). lia.
  - unfold first. pose proof (Z.mod_pos_bound x (2 ^ (32 - p))).
    pose proof (Z.div_mod x (2 ^ (32 - p))). lia.
Qed.

(** IPv4 'contains', for prefix lengths 2 to 32 and on every target: prints 1 (and succeeds)
    exactly when the argument's prefix is at least as long and both addresses lie in the same
    block of the base prefix. *)
Theorem contains4_correct (p q x y : Z) (s : st) :
  2 <= p <= 32 -> 0 <= q -> is_word 32 x -> is_word 32 y ->
  cidr_contains4 (mk4 p x) (mk4 q y) s =
  answer (bool_decide (p <= q /\ x / 2 ^ (32 - p) = y / 2 ^ (32 - p))) s.
Proof.
  intros Hp Hq Hx Hy. unfold cidr_contains4, mk4. simpl. rewrite mask4_of by done. simpl. f_equal.
  destruct (Z.eqb_spec p 0) as [-> |Hp0]; simpl; [lia|].
  rewrite !htonl_land by (done || apply mask_of_word). rewrite !land_mask_of by (done || lia).
  rewrite Z.geb_leb. apply eq_bool_prop_intro.
  rewrite bool_decide_spec, <- floor_to_eq, Is_true_true, andb_true_iff, Z.leb_le, Z.eqb_eq by lia.
  split; intros [H1 H2]; split; try done; [|by rewrite H2].
  apply htonl_inj in H2; [done|apply floor_to_word; [lia|done]..].
Qed.

(** On a big-endian target 'next' and 'prev' move an IPv4 prefix by the
    size of the block, modulo the address space. *)
Theorem next_prev4_big_endian (p q x y : Z) (s : st) :
  byte_order = BE -> 2 <= q <= 32 -> is_word 32 x ->
  cidr_next4 (mk4 p x) (mk4 q y) s =
    Some (true, cidr_push (mk4 q (x + 2 ^ (32 - q))) s) /\
  cidr_prev4 (mk4 p x) (mk4 q y) s =
    Some (true, cidr_push (mk4 q (x - 2 ^ (32 - q))) s).
Proof.
  intros He Hq Hx. pose proof (block4_bounds q ltac:(lia)).
  assert (forall z, htonl z = u32 z) as Hh.
  { intros z. unfold htonl. rewrite He. apply dec_enc. }
  unfold cidr_next4, cidr_prev4, mk4. simpl. rewrite block4_eq by done. simpl. rewrite !Hh.
  unfold u32. rewrite (wrap_small 32 x) by done.
  rewrite (wrap_small 32 (2 ^ (32 - q))) by (unfold is_word; lia). done.
Qed.
End Props.

Lemma add_sub4_correct_witness :
  @cidr_add4 (mips LE) (@mk4 (mips LE) 24 0xC0A80101) (@mk4 (mips LE) 32 100) empty_st =
    Some (true, cidr_push (@mk4 (mips LE) 24 0xC0A80165) empty_st).
Proof.
  pose proof (@add_sub4_correct (mips LE) 24 32 0xC0A80101 100 empty_st
    ltac:(unfold is_word; lia) ltac:(unfold is_word; lia)) as [H _]. exact H.
Defined.

Lemma block4_correct_witness :
  @cidr_broadcast4 (mips LE) (@mk4 (mips LE) 24 0xC0A80163) empty_st =
  Some (true, cidr_push (@mk4 (mips LE) 32 0xC0A801FF) empty_st).
Proof.
  pose proof (@block4_correct (mips LE) 24 0xC0A80163 empty_st ltac:(lia)
    ltac:(unfold is_word; lia)) as (_ & H & _). exact H.
Defined.

Lemma contains4_correct_witness :
  @cidr_contains4 (mips LE) (@mk4 (mips LE) 16 0xC0A80000) (@mk4 (mips LE) 24 0xC0A80100) empty_st =
  answer true empty_st.
Proof.
  apply (@contains4_correct (mips LE) 16 24 0xC0A80000 0xC0A80100 empty_st); unfold is_word; lia.
Defined.

Lemma next_prev4_big_endian_witness :
  @cidr_next4 (mips BE) (@mk4 (mips BE) 24 0xC0A8FF00) (@mk4 (mips BE) 24 24) empty_st =
  Some (true, cidr_push (@mk4 (mips BE) 24 0xC0A90000) empty_st).
Proof.
  pose proof (@next_prev4_big_endian (mips BE) 24 24 0xC0A8FF00 24 empty_st eq_refl ltac:(lia)
    ltac:(unfold is_word; lia)) as [H _]. exact H.
Defined.

(** On a little-endian target the carry goes the wrong way: the prefix after
    192.168.255.0/24 becomes 192.168.0.1/24 instead of 192.169.0.0/24, since
    the block size is added to the word in network byte order. *)
Theorem next4_little_endian :
  @cidr_next4 (mips LE) (@mk4 (mips LE) 24 0xC0A8FF00) (@mk4 (mips LE) 24 24) empty_st =
  Some (true, cidr_push (@mk4 (mips LE) 24 0xC0A80001) empty_st).
Proof. vm_compute. reflexivity. Qed.

(** The 6to4 prefix of 192.0.2.4 is 2002:c000:204::/48 on a big-endian
    target but 2002:402:c0::/48, with the address bytes reversed, on a
    little-endian one. *)
Theorem sixtofour_byte_order :
  cidr_6to4 (@mk4 (mips BE) 32 0xC0000204) empty_st =
    Some (true, cidr_push (mk6 48 (0x2002C0000204 * 2 ^ 80)) empty_st) /\
  cidr_6to4 (@mk4 (mips LE) 32 0xC0000204) empty_st =
    Some (true, cidr_push (mk6 48 (0x2002040200C0 * 2 ^ 80)) empty_st).
Proof. vm_compute. done. Qed.

(** ** IPv6 *)

Definition is_addr6 (x : Z) : Prop := 0 <= x < 2 ^ 128.

Lemma enc16_addr6 x : addr6 (enc BE 16 x).
Proof. split; [apply length_enc|apply enc_range]. Qed.

Lemma val6_enc16 x : val6 (enc BE 16 x) = x mod 2 ^ 128.
Proof. unfold val6. by rewrite dec_enc. Qed.

Lemma val6_enc x : is_addr6 x -> val6 (enc BE 16 x) = x.
Proof. intros H. rewrite val6_enc16. by apply Z.mod_small. Qed.

Lemma enc16_val6 l x : addr6 l -> val6 l = x mod 2 ^ 128 -> l = enc BE 16 x.
Proof.
  intros [Hl Hf] H. apply val6_inj; [done|apply enc_range|by rewrite length_enc|].
  by rewrite val6_enc16.
Qed.

(** The whole-address loops. *)
Lemma loop_adds_15 x d x' carry :
  is_addr6 x -> loop_adds 15 (enc BE 16 x) d (Some (x', carry)) ->
  x' = enc BE 16 (x + d) /\ 0 <= x + d - carry * 2 ^ 128 < 2 ^ 128.
Proof.
  intros Hx (y & c & Heq & Hl & Hf & _ & Hv). simplify_eq. rewrite length_enc in Hl.
  rewrite !take_ge in Hv by (rewrite ?length_enc; lia).
  rewrite val6_enc in Hv by done. change (256 ^ Z.of_nat 16) with (2 ^ 128) in Hv.
  pose proof (val6_range y Hf) as Hr. rewrite Hl in Hr.
  change (256 ^ Z.of_nat 16) with (2 ^ 128) in Hr. split; [|lia].
  apply enc16_val6; [done|]. apply Z.mod_unique_pos with c; lia.
Qed.

(** IPv6 'add' and 'sub' are 128-bit arithmetic: the wrapped result is
    pushed, and the operation fails exactly on overflow or underflow. *)
Theorem add_sub6_correct (p q x y : Z) (s : st) :
  is_addr6 x -> is_addr6 y ->
  cidr_add6 (mk6 p x) (mk6 q y) s =
    Some (bool_decide (x + y < 2 ^ 128), cidr_push (mk6 p (x + y)) s) /\
  cidr_sub6 (mk6 p x) (mk6 q y) s =
    Some (bool_decide (y <= x), cidr_push (mk6 p (x - y)) s).
Proof.
  intros Hx Hy. unfold cidr_add6, cidr_sub6, mk6. cbn [addr prefix].
  assert (val6 (take 16 (enc BE 16 y)) = y) as Hvy.
  { rewrite take_ge by (rewrite length_enc; lia). by apply val6_enc. }
  unfold is_addr6 in *. split.
  - pose proof (add6_loop_ok 15 (enc BE 16 x) (enc BE 16 y) 0 (enc_range _ _ _) (enc_range _ _ _))
      as Ha. rewrite !length_enc, Hvy in Ha. specialize (Ha ltac:(lia) ltac:(lia) ltac:(lia)).
    destruct Ha as (x' & c & Heq & Ha). rewrite Heq. cbn [mbind option_bind].
    destruct (loop_adds_15 x (y + 0) x' c Hx ltac:(exists x', c; done)) as [-> Hr].
    rewrite Z.add_0_r in *. do 2 f_equal. apply bool_decide_ext. lia.
  - pose proof (sub6_loop_ok 15 (enc BE 16 x) (enc BE 16 y) 0 (enc_range _ _ _) (enc_range _ _ _))
      as Ha. rewrite !length_enc, Hvy in Ha. specialize (Ha ltac:(lia) ltac:(lia) ltac:(lia)).
    destruct Ha as ([x' c] & -> & Ha). cbn [mbind option_bind fst snd] in *.
    destruct (loop_adds_15 x _ x' _ Hx Ha) as [-> Hr].
    replace (x + - (y + 0)) with (x - y) in * by lia. do 2 f_equal.
    apply bool_decide_ext. lia.
Qed.

Lemma add_sub6_correct_witness :
  cidr_add6 (mk6 64 (2 ^ 128 - 1)) (mk6 128 2) empty_st =
    Some (false, cidr_push (mk6 64 (2 ^ 128 + 1)) empty_st).
Proof.
  pose proof (add_sub6_correct 64 128 (2 ^ 128 - 1) 2 empty_st ltac:(unfold is_addr6; lia)
    ltac:(unfold is_addr6; lia)) as [H _]. exact H.
Defined.

(** IPv6 'contains', for all prefix lengths up to 128: 1 exactly when the
    argument's prefix is at least as long and both addresses lie in the same
    block of [2^(128-p)] addresses. *)
Theorem contains6_correct (p q x y : Z) (s : st) :
  0 <= p <= 128 -> 0 <= q -> is_addr6 x -> is_addr6 y ->
  cidr_contains6 (mk6 p x) (mk6 q y) s =
  answer (bool_decide (p <= q /\ x / 2 ^ (128 - p) = y / 2 ^ (128 - p))) s.
Proof.
  intros Hp Hq Hx Hy. unfold cidr_contains6, mk6. cbn [addr prefix]. f_equal.
  destruct (Z.eqb_spec p 0) as [-> |Hp0]; cbn [orb].
  - rewrite bool_decide_eq_true_2; [done|]. unfold is_addr6 in *.
    split; [lia|]. by rewrite !Z.div_small by lia.
  - destruct (host_split p Hp) as (i & j & -> & -> & Hij & Hj & _ & _ & Hi).
    specialize (Hi Hp0).
    assert (u8 (Z.of_nat i mod 16) = Z.of_nat i) as ->.
    { rewrite Z.mod_small by lia. apply wrap_small. unfold is_word. lia. }
    replace (Z.to_nat (15 - Z.of_nat i)) with (15 - i)%nat by lia.
    apply eq_bool_prop_intro.
    rewrite bool_decide_spec, Is_true_true, !andb_true_iff, orb_true_iff, bool_decide_eq_true.
    rewrite Z.geb_leb, Z.leb_le, !Z.eqb_eq, Hij.
    pose proof (same_block6 (enc BE 16 x) (enc BE 16 y) i j (enc16_addr6 x) (enc16_addr6 y) Hi Hj)
      as Hb. cbn zeta in Hb. rewrite !val6_enc in Hb by done. rewrite <- Hb.
    split; [|tauto]. intros [[? ?] [Hi15|?]]; [|tauto].
    replace (15 - i)%nat with 0%nat in * by lia. by rewrite !take_0.
Qed.

Lemma contains6_correct_witness :
  cidr_contains6 (mk6 61 (0x20010DB8 * 2 ^ 96)) (mk6 64 (0x20010DB8 * 2 ^ 96 + 7 * 2 ^ 64)) empty_st =
  answer true empty_st.
Proof.
  apply (contains6_correct 61 64 (0x20010DB8 * 2 ^ 96) (0x20010DB8 * 2 ^ 96 + 7 * 2 ^ 64));
    unfold is_addr6; lia.
Defined.

Lemma network6_bytes x i j :
  addr6 x -> (i <= 16)%nat -> (i = 16%nat -> j = 0) -> 0 <= j < 8 ->
  let x1 := take (16 - i) x ++ replicate i 0 in
  let k := (15 - i)%nat in
  let x2 := if j =? 0 then x1
            else <[k := u8 (Z.land (nth k x1 0) (Z.lnot (2 ^ j - 1)))]> x1 in
  addr6 x2 /\ val6 x2 = floor_to (8 * Z.of_nat i + j) (val6 x).
Proof.
  intros Hx Hi Hi16 Hj x1 k x2. pose proof (val6_zero_tail x i Hx Hi) as Hz.
  assert (addr6 x1) as Hx1.
  { destruct Hx as [Hl Hf]. split; [unfold x1; slen|].
    apply Forall_app_2; [by apply Forall_take|apply zero_words]. }
  subst x2. destruct (Z.eqb_spec j 0) as [-> |Hj0]; [by rewrite Z.add_0_r|].
  assert (i <= 15)%nat as Hi15 by (destruct (decide (i = 16%nat)); [naive_solver|lia]).
  split.
  { destruct Hx1. split; [by rewrite length_insert|]. apply Forall_insert; [done|apply u8_word]. }
  pose proof (nth_byte x k Hx ltac:(lia)) as Hc.
  assert (take (16 - i) x = take k x ++ [nth k x 0]) as Ht.
  { replace (16 - i)%nat with (S k) by lia. apply take_S_r, nth_lookup_16; [done|lia]. }
  assert (length (take k x) = k) as Hlk by (destruct Hx; slen).
  assert (x1 = take k x ++ nth k x 0 :: replicate i 0) as Hx1e
    by (unfold x1; by rewrite Ht, <- app_assoc).
  assert (nth k x1 0 = nth k x 0) as ->.
  { rewrite Hx1e. rewrite app_nth2 by lia. by rewrite Hlk, Nat.sub_diag. }
  rewrite Hx1e. rewrite <- Hlk at 1. rewrite insert_app_r_alt by lia. rewrite Nat.sub_diag. simpl.
  change (val6 (take k x ++ ([u8 (Z.land (nth k x 0) (Z.lnot (2 ^ j - 1)))] ++ replicate i 0)) =
          floor_to (8 * Z.of_nat i + j) (val6 x)).
  rewrite app_assoc, val6_app, val6_snoc, val6_zero, length_replicate.
  assert (u8 (Z.land (nth k x 0) (Z.lnot (2 ^ j - 1))) = floor_to j (nth k x 0)) as ->.
  { rewrite <- land_mask8 by done. unfold u8. rewrite wrap_land by lia.
    by rewrite (wrap_small 8 (nth k x 0)). }
  unfold floor_to. rewrite block6_div by (done || lia).
  rewrite Ht, val6_snoc, byte_block, Z.pow_add_r, <- pow_256 by lia.
  assert (256 = 2 ^ (8 - j) * 2 ^ j) as H256
    by (rewrite <- Z.pow_add_r by lia; by replace (8 - j + j) with 8 by lia).
  rewrite H256 at 2. lia.
Qed.

(** IPv6 'network', for all prefix lengths up to 128, pushes the first
    address of the block of [2^(128-p)] addresses, with its prefix length. *)
Theorem network6_correct (p x : Z) (s : st) :
  0 <= p <= 128 -> is_addr6 x ->
  cidr_network6 (mk6 p x) s =
  Some (true, cidr_push (mk6 p (x / 2 ^ (128 - p) * 2 ^ (128 - p))) s).
Proof.
  intros Hp Hx. unfold cidr_network6, mk6. cbn [addr prefix].
  destruct (host_split p Hp) as (i & j & -> & -> & Hij & Hj & Hi & Hi16 & _).
  pose proof (network6_loop_ok 16 (enc BE 16 x) 0 i ltac:(lia) ltac:(lia) (length_enc _ _ _)) as Hn.
  change (Z.of_nat 0) with 0 in Hn. rewrite Hn. cbn [mbind option_bind].
  rewrite Nat.sub_0_r, drop_ge, app_nil_r by (rewrite length_enc; lia).
  replace (Z.to_nat (15 - Z.of_nat i)) with (15 - i)%nat by lia.
  destruct (network6_bytes (enc BE 16 x) i j (enc16_addr6 x) Hi Hi16 Hj) as [Ha Hv].
  do 5 f_equal. apply enc16_val6; [done|]. rewrite Hv, val6_enc, <- Hij by done.
  unfold floor_to, is_addr6 in *. symmetry. apply Z.mod_small.
  assert (0 < 2 ^ (128 - p)) by (apply Z.pow_pos_nonneg; lia).
  pose proof (Z.mul_div_le x (2 ^ (128 - p))). pose proof (Z.div_pos x (2 ^ (128 - p))). nia.
Qed.

Lemma network6_correct_witness :
  cidr_network6 (mk6 61 (0x20010DB8 * 2 ^ 96 + 15 * 2 ^ 64 + 1)) empty_st =
  Some (true, cidr_push (mk6 61 (0x20010DB8 * 2 ^ 96 + 8 * 2 ^ 64)) empty_st).
Proof.
  rewrite (network6_correct 61 (0x20010DB8 * 2 ^ 96 + 15 * 2 ^ 64 + 1)) by (unfold is_addr6; lia).
  reflexivity.
Defined.

(** The distance 'next' and 'prev' move an IPv6 address: the prefix length is
    rounded up to whole bytes. *)
Definition step6 (q : Z) : Z := 2 ^ (128 - 8 * ((q + 7) / 8)).

Lemma idx6_spec q : 1 <= q <= 128 ->
  exists i, idx6 q = i /\ (i <= 15)%nat /\ step6 q = 256 ^ Z.of_nat (15 - i).
Proof.
  intros Hq. exists (Z.to_nat ((q - 1) / 8)). unfold idx6, u8.
  rewrite wrap_small by (unfold is_word; dlia). split; [done|]. split; [dlia|].
  unfold step6. rewrite pow_256. f_equal. dlia.
Qed.

(** A loop over the first [i + 1] bytes moves the address by a multiple of
    [256^(15-i)]. *)
Lemma loop_adds_part i x d x' carry :
  is_addr6 x -> (i <= 15)%nat -> loop_adds i (enc BE 16 x) d (Some (x', carry)) ->
  x' = enc BE 16 (x + d * 256 ^ Z.of_nat (15 - i)) /\
  0 <= x + d * 256 ^ Z.of_nat (15 - i) - carry * 2 ^ 128 < 2 ^ 128.
Proof.
  intros Hx Hi (y & c & Heq & Hl & Hf & Hd & Hv). simplify_eq. rewrite length_enc in Hl.
  pose proof (val6_split (S i) (enc BE 16 x) ltac:(rewrite length_enc; lia)) as Hsx.
  pose proof (val6_split (S i) y ltac:(lia)) as Hsy.
  rewrite length_enc in Hsx. rewrite Hl in Hsy. rewrite val6_enc in Hsx by done.
  replace (16 - S i)%nat with (15 - i)%nat in * by lia. rewrite Hd in Hsy.
  assert (2 ^ 128 = 256 ^ Z.of_nat (15 - i) * 256 ^ Z.of_nat (S i)) as Hp.
  { rewrite <- Z.pow_add_r by lia. replace (Z.of_nat (15 - i) + Z.of_nat (S i)) with 16 by lia. done. }
  pose proof (val6_range y Hf) as Hr. rewrite Hl in Hr.
  change (256 ^ Z.of_nat 16) with (2 ^ 128) in Hr.
  assert (val6 y = x + d * 256 ^ Z.of_nat (15 - i) - c * 2 ^ 128) as Hy.
  { set (P := 256 ^ Z.of_nat (15 - i)) in *. set (R := 256 ^ Z.of_nat (S i)) in *.
    rewrite Hsy, Hp.
    replace (val6 (take (S i) y)) with (val6 (take (S i) (enc BE 16 x)) + d - c * R) by lia. lia. }
  split; [|lia]. apply enc16_val6; [done|]. apply Z.mod_unique_pos with c; lia.
Qed.

(** IPv6 'next' and 'prev' with a prefix length [q] of 1 to 128 move the
    address by [2^(128-8*ceil(q/8))] - the size of a [/q] block when [q] is a
    multiple of 8 - give it prefix length [q], and fail, keeping the old prefix
    length, exactly when the address space is left. *)
Theorem next_prev6_correct (p q x y : Z) (s : st) :
  1 <= q <= 128 -> is_addr6 x ->
  cidr_next6 (mk6 p x) (mk6 q y) s =
    (if decide (x + step6 q < 2 ^ 128)
     then Some (true, cidr_push (mk6 q (x + step6 q)) s)
     else Some (false, cidr_push (mk6 p (x + step6 q)) s)) /\
  cidr_prev6 (mk6 p x) (mk6 q y) s =
    (if decide (step6 q <= x)
     then Some (true, cidr_push (mk6 q (x - step6 q)) s)
     else Some (false, cidr_push (mk6 p (x - step6 q)) s)) /\
  (q mod 8 = 0 -> step6 q = 2 ^ (128 - q)).
Proof.
  intros Hq Hx. unfold cidr_next6, cidr_prev6, mk6. cbn [addr prefix].
  destruct (idx6_spec q Hq) as (i & -> & Hi & Hs).
  rewrite (proj2 (Z.eqb_neq q 0)) by lia. unfold is_addr6 in *.
  assert (0 < step6 q) as Hpos by (apply Z.pow_pos_nonneg; dlia).
  assert (step6 q <= 2 ^ 128) as Hle by (unfold step6; apply Z.pow_le_mono_r; dlia).
  split_and!.
  - rewrite (next6_loop_zero _ _ _ 16) by lia.
    pose proof (add6_loop_ok i (enc BE 16 x) (replicate 16 0) 1 (enc_range _ _ _) (zero_words _)) as Ha.
    rewrite length_enc, length_replicate, take_replicate, val6_zero in Ha.
    specialize (Ha ltac:(lia) ltac:(lia) ltac:(lia)). destruct Ha as (x' & c & -> & Ha).
    cbn [mbind option_bind].
    destruct (loop_adds_part i x _ x' c Hx Hi ltac:(exists x', c; done)) as [-> Hr].
    rewrite <- Hs, Z.mul_1_l in *.
    case_decide; case_decide; first [done|lia].
  - rewrite (prev6_loop_zero _ _ _ 16) by lia.
    destruct (sub6_loop_ok i (enc BE 16 x) (replicate 16 0) 1 (enc_range _ _ _) (zero_words _))
      as ([x' c] & -> & Ha); [rewrite ?length_enc, ?length_replicate; lia..|].
    rewrite take_replicate, val6_zero in Ha. cbn [mbind option_bind fst snd] in *.
    destruct (loop_adds_part i x _ x' _ Hx Hi Ha) as [-> Hr].
    replace (x + - (0 + 1) * 256 ^ Z.of_nat (15 - i)) with (x - step6 q) in * by lia.
    case_decide; case_decide; first [done|lia].
  - intros Hm. unfold step6. f_equal. dlia.
Qed.

Lemma next_prev6_correct_witness :
  cidr_next6 (mk6 48 (0x20010DB8 * 2 ^ 96)) (mk6 56 56) empty_st =
  Some (true, cidr_push (mk6 56 (0x20010DB8 * 2 ^ 96 + 2 ^ 72)) empty_st).
Proof.
  pose proof (next_prev6_correct 48 56 (0x20010DB8 * 2 ^ 96) 56 empty_st ltac:(lia)
    ltac:(unfold is_addr6; lia)) as [H _]. exact H.
Defined.

(** For prefix lengths that are not a multiple of 8 'next' stays in the same
    block: after 'next 60' the address is still inside the /60 it came from. *)
Theorem next6_unaligned :
  cidr_next6 (mk6 60 (0x20010DB8 * 2 ^ 96)) (mk6 60 60) empty_st =
    Some (true, cidr_push (mk6 60 (0x20010DB8 * 2 ^ 96 + 2 ^ 64)) empty_st) /\
  cidr_contains6 (mk6 60 (0x20010DB8 * 2 ^ 96)) (mk6 60 (0x20010DB8 * 2 ^ 96 + 2 ^ 64)) empty_st =
    answer true empty_st.
Proof. vm_compute. done. Qed.
