(* ===== verification/OwipMain.v ===== *)
(** * The address calculator: text and command line

    The text [cidr_print4]/[cidr_print6] produces is read back by
    [cidr_parse4]/[cidr_parse6]; the command line interpreter terminates, is
    free of undefined behaviour for the operations that only compute, and exits
    with one of five codes. *)
From stdpp Require Import options.
From S2P Require Import Prelude CLib Owip OwipFacts OwipProps.
Set Default Proof Using "Type*".

(** ** A concrete target *)

Fixpoint split_on (c : Z) (s : cstr) : list cstr :=
  match s with
  | [] => [[]]
  | x :: s' =>
      if x =? c then [] :: split_on c s'
      else match split_on c s' with
           | w :: ws => (x :: w) :: ws
           | [] => [[x]]
           end
  end.

Fixpoint join_with (c : Z) (l : list cstr) : cstr :=
  match l with
  | [] => []
  | [w] => w
  | w :: ws => w ++ c :: join_with c ws
  end.

Lemma split_on_word c w : Forall (fun x => x <> c) w -> split_on c w = [w].
Proof.
  induction 1 as [|x w Hx _ IH]; [done|]. simpl. by rewrite (proj2 (Z.eqb_neq _ _) Hx), IH.
Qed.

Lemma split_on_app c w s :
  Forall (fun x => x <> c) w -> split_on c (w ++ c :: s) = w :: split_on c s.
Proof.
  induction 1 as [|x w Hx _ IH]; simpl; [by rewrite Z.eqb_refl|].
  by rewrite (proj2 (Z.eqb_neq _ _) Hx), IH.
Qed.

Lemma split_join c l :
  l <> [] -> Forall (Forall (fun x => x <> c)) l -> split_on c (join_with c l) = l.
Proof.
  intros Hl H. induction H as [|w l Hw H IH]; [done|]. destruct l as [|w' l].
  - by apply split_on_word.
  - change (join_with c (w :: w' :: l)) with (w ++ c :: join_with c (w' :: l)).
    rewrite split_on_app by done. by rewrite IH.
Qed.

(** Dotted decimal: one to three digits per byte. *)
Definition byte_of_dec (w : cstr) : option Z :=
  let '(v, n) := scan_digits 10 0 w in
  if decide (n = length w /\ (1 <= n <= 3)%nat /\ v < 256) then Some v else None.

Definition dotted_pton (s : cstr) : option (list Z) :=
  match split_on 46 s with
  | [a; b; c; d] =>
      a ← byte_of_dec a; b ← byte_of_dec b; c ← byte_of_dec c; d ← byte_of_dec d;
      Some [a; b; c; d]
  | _ => None
  end.
Definition dotted_ntop (b : list Z) : option cstr :=
  if decide (length b = 4%nat) then Some (join_with 46 (map print_u b)) else None.

(** Eight groups of four hexadecimal digits. *)
Definition group_of_hex (w : cstr) : option Z :=
  let '(v, n) := scan_digits 16 0 w in
  if decide (n = length w /\ n = 4%nat) then Some v else None.

Definition groups_pton (s : cstr) : option (list Z) :=
  let ws := split_on 58 s in
  gs ← mapM group_of_hex ws;
  if decide (length gs = 8%nat) then Some (concat (map (enc BE 2) gs)) else None.

Fixpoint pairs (l : list Z) : list Z :=
  match l with a :: b :: r => (256 * a + b) :: pairs r | _ => [] end.
Definition groups_ntop (b : list Z) : option cstr :=
  if decide (length b = 16%nat) then Some (join_with 58 (map (hexX 4) (pairs b))) else None.

Definition demo_target (e : endian) : Target := {|
  byte_order := e; long_bits := 32;
  inet_pton4 := dotted_pton; inet_ntop4 := dotted_ntop;
  inet_pton6 := groups_pton; inet_ntop6 := groups_ntop |}.

Lemma print_u_byte z : 0 <= z < 256 ->
  byte_of_dec (print_u z) = Some z /\ Forall (fun c => isdigit c = true) (print_u z) /\
  (1 <= length (print_u z) <= 3)%nat.
Proof.
  apply (below_dec (fun z => byte_of_dec (print_u z) = Some z /\
    Forall (fun c => isdigit c = true) (print_u z) /\ (1 <= length (print_u z) <= 3)%nat)).
  vm_compute. reflexivity.
Qed.

Lemma isdigit_ne c d : isdigit c = true -> isdigit d = false -> c <> d.
Proof. intros H1 H2 ->. congruence. Qed.

Lemma dotted_laws b :
  length b = 4%nat -> Forall (is_word 8) b ->
  exists s, dotted_ntop b = Some s /\ (length s <= 15)%nat /\ s <> [] /\
            Forall (fun c => isdigit c = true \/ c = 46) s /\ dotted_pton s = Some b.
Proof.
  intros Hl Hf. destruct b as [|b0 [|b1 [|b2 [|b3 [|]]]]]; try done.
  inversion Hf as [|? ? H0 Hf0]; subst. inversion Hf0 as [|? ? H1 Hf1]; subst.
  inversion Hf1 as [|? ? H2 Hf2]; subst. inversion Hf2 as [|? ? H3 _]; subst.
  destruct (print_u_byte b0 H0) as (P0 & D0 & L0), (print_u_byte b1 H1) as (P1 & D1 & L1),
    (print_u_byte b2 H2) as (P2 & D2 & L2), (print_u_byte b3 H3) as (P3 & D3 & L3).
  eexists. split; [done|]. cbn [map].
  assert (forall w : cstr, Forall (fun c => isdigit c = true) w ->
    Forall (fun c => isdigit c = true \/ c = 46) w) as Hw
    by (intros w H; eapply Forall_impl; [exact H|tauto]).
  assert (forall w : cstr, Forall (fun c => isdigit c = true) w -> Forall (fun c => c <> 46) w)
    as Hn by (intros w H; eapply Forall_impl; [exact H|by intros c Hc ->]).
  split_and!.
  - cbn [join_with]. slen.
  - cbn [join_with]. intros He%(f_equal length). slen.
  - cbn [join_with]. repeat (apply Forall_app_2; [by apply Hw|constructor; [by right|]]). by apply Hw.
  - unfold dotted_pton. rewrite split_join; [|done|].
    2: { repeat (constructor; [by apply Hn|]). constructor. }
    by rewrite P0, P1, P2, P3.
Qed.

Lemma enc_pair a b : is_word 8 a -> is_word 8 b -> enc BE 2 (256 * a + b) = [a; b].
Proof. unfold is_word. intros Ha Hb. simpl. f_equal; [|f_equal]; dlia. Qed.

Lemma pairs_spec n : forall b, length b = (2 * n)%nat -> Forall (is_word 8) b ->
  length (pairs b) = n /\ Forall (fun v => 0 <= v < 16 ^ Z.of_nat 4) (pairs b) /\
  concat (map (enc BE 2) (pairs b)) = b.
Proof.
  induction n as [|n IH]; intros b Hl Hf.
  - apply nil_length_inv in Hl as ->. by split_and!.
  - destruct b as [|a [|c b]]; simpl in Hl; try lia.
    inversion Hf as [|? ? Ha Hf0]; subst. inversion Hf0 as [|? ? Hc Hf1]; subst.
    destruct (IH b ltac:(lia) Hf1) as (IHl & IHf & IHc).
    cbn [pairs map concat length]. rewrite IHl, IHc, enc_pair by done.
    split_and!; try done. constructor; [|done]. unfold is_word in *.
    change (16 ^ Z.of_nat 4) with 65536. lia.
Qed.

Lemma digit_of_16 c : digit_of 16 c <> None -> isxdigit c = true.
Proof.
  unfold digit_of, isxdigit. destruct (digit_val c) as [d|]; [|done]. by destruct (d <? 16).
Qed.

Lemma hexX_xdigits n v : 0 <= v -> Forall (fun c => isxdigit c = true) (hexX n v).
Proof.
  intros H. eapply Forall_impl; [apply (hexX_digits n v H)|]. intros c Hc. by apply digit_of_16.
Qed.

Lemma group_hexX v : 0 <= v < 16 ^ Z.of_nat 4 -> group_of_hex (hexX 4 v) = Some v.
Proof.
  intros Hv. unfold group_of_hex. rewrite scan_hexX by done.
  by rewrite length_hexX, decide_True by done.
Qed.

Lemma mapM_groups gs :
  Forall (fun v => 0 <= v < 16 ^ Z.of_nat 4) gs -> mapM group_of_hex (map (hexX 4) gs) = Some gs.
Proof.
  induction 1 as [|v gs Hv _ IH]; [done|]. cbn [map mapM]. by rewrite group_hexX, IH by done.
Qed.

Lemma length_join_hex gs :
  length (join_with 58 (map (hexX 4) gs)) = (5 * length gs - 1)%nat.
Proof.
  induction gs as [|v gs IH]; [done|]. destruct gs as [|v' gs]; [apply (length_hexX 4)|].
  change (join_with 58 (map (hexX 4) (v :: v' :: gs)))
    with (hexX 4 v ++ 58 :: join_with 58 (map (hexX 4) (v' :: gs))).
  rewrite length_app, length_hexX. cbn [length]. rewrite IH. simpl. lia.
Qed.

Lemma Forall_join (P : Z -> Prop) c l : P c -> Forall (Forall P) l -> Forall P (join_with c l).
Proof.
  intros Hc H. induction H as [|w l Hw H IH]; [constructor|]. destruct l as [|w' l]; [done|].
  change (join_with c (w :: w' :: l)) with (w ++ c :: join_with c (w' :: l)).
  apply Forall_app_2; [done|]. by constructor.
Qed.

Lemma groups_laws b :
  length b = 16%nat -> Forall (is_word 8) b ->
  exists s, groups_ntop b = Some s /\ (length s <= 45)%nat /\ s <> [] /\
            Forall (fun c => isxdigit c = true \/ c = 46 \/ c = 58) s /\ groups_pton s = Some b.
Proof.
  intros Hl Hf. destruct (pairs_spec 8 b Hl Hf) as (Hn & Hv & Hc).
  assert (Forall (Forall (fun c => isxdigit c = true)) (map (hexX 4) (pairs b))) as Hx.
  { apply Forall_fmap. eapply Forall_impl; [exact Hv|]. intros v [? _]. by apply hexX_xdigits. }
  pose proof (length_join_hex (pairs b)) as Hj. rewrite Hn in Hj.
  exists (join_with 58 (map (hexX 4) (pairs b))). split_and!.
  - unfold groups_ntop. by rewrite decide_True.
  - lia.
  - intros He. rewrite He in Hj. simpl in Hj. lia.
  - apply Forall_join; [tauto|]. eapply Forall_impl; [exact Hx|]. intros w Hw.
    eapply Forall_impl; [exact Hw|]. tauto.
  - unfold groups_pton. rewrite split_join.
    + rewrite mapM_groups by done. simpl. by rewrite decide_True, Hc by done.
    + intros He%(f_equal length). rewrite length_map, Hn in He. done.
    + eapply Forall_impl; [exact Hx|]. intros w Hw. eapply Forall_impl; [exact Hw|].
      by intros c Hcx ->.
Qed.

Lemma byte_of_dec_word w v : byte_of_dec w = Some v -> is_word 8 v.
Proof.
  unfold byte_of_dec. destruct (scan_digits 10 0 w) as [v' n] eqn:Hs.
  case_decide as Hd; [|done]. intros; simplify_eq. unfold is_word. split; [|lia].
  by eapply (scan_digits_nonneg 10 0 w).
Qed.

#[export] Instance demo_target_laws e : TargetLaws (demo_target e).
Proof.
  constructor; simpl; [by left| | |apply dotted_laws|apply groups_laws].
  - intros s b H. unfold dotted_pton in H.
    destruct (split_on 46 s) as [|w0 [|w1 [|w2 [|w3 [|]]]]]; try done.
    repeat (apply bind_Some in H as (? & ?%byte_of_dec_word & H)). simplify_eq.
    split; [done|]. by do 4 (constructor; [done|]).
  - intros s b H. unfold groups_pton in H. apply bind_Some in H as (gs & _ & H).
    case_decide as Hg; [|done]. simplify_eq. clear s. split.
    + do 8 (destruct gs as [|? gs]; [done|]). by destruct gs.
    + apply Forall_concat, Forall_fmap, Forall_true. intros. apply enc_range.
Qed.

(** ** Text *)

Lemma str_split_none c s : Forall (fun x => x <> c) s -> str_split c s = None.
Proof.
  induction 1 as [|x s Hx _ IH]; [done|]. simpl. by rewrite (proj2 (Z.eqb_neq _ _) Hx), IH.
Qed.

(** Decimal prefix lengths are short, free of '.', and read back. *)
Lemma print_u_prefix w p : (w = 32 \/ w = 64) -> 0 <= p < 129 ->
  strtoul w 10 (print_u p) = (p, length (print_u p), false) /\
  str_split 46 (print_u p) = None /\ (1 <= length (print_u p) <= 3)%nat.
Proof.
  intros Hw. apply (below_dec (fun p => strtoul w 10 (print_u p) = (p, length (print_u p), false) /\
    str_split 46 (print_u p) = None /\ (1 <= length (print_u p) <= 3)%nat)).
  destruct Hw as [-> | ->]; vm_compute; reflexivity.
Qed.

Section Text.
Context {T : Target} {L : TargetLaws T}.

Lemma parse_prefix_print p max :
  0 <= p <= max -> max <= 128 -> parse_prefix (print_u p) max = Some p.
Proof.
  intros Hp Hm. unfold parse_prefix.
  destruct (print_u_prefix long_bits p long_bits_ok ltac:(lia)) as (-> & _ & Hl).
  assert (u32 p = p) as -> by (apply wrap_small; unfold is_word; lia).
  rewrite bool_decide_eq_false_2, bool_decide_eq_true_2 by (done || lia). simpl.
  by rewrite Z.gtb_ltb, (proj2 (Z.ltb_ge _ _)) by lia.
Qed.

(** The well-formed prefixes. *)
Definition wf_cidr (c : cidr) : Prop :=
  match addr c with
  | V4 x => is_word 32 x /\ 0 <= prefix c <= 32
  | V6 x => addr6 x /\ 0 <= prefix c <= 128
  end.

Definition max_prefix (c : cidr) : Z :=
  match family c with AF_INET => 32 | AF_INET6 => 128 end.

(** [cidr_print4] or [cidr_print6], [cidr_parse4] or [cidr_parse6]. *)
Definition print_cidr (c : cidr) (s : st) : option (bool * st) :=
  match family c with AF_INET => cidr_print4 c s | AF_INET6 => cidr_print6 c s end.
Definition parse_cidr (f : af) (t : cstr) : option cidr :=
  match f with AF_INET => cidr_parse4 t | AF_INET6 => cidr_parse6 t end.

Lemma with_prefix_split t p : Forall (fun x => x <> 47) t ->
  str_split 47 (t ++ str "/" ++ p) = Some (t, p).
Proof. intros. by apply str_split_app. Qed.

Lemma parse4_text t b p :
  inet_pton4 t = Some b -> (length t <= 15)%nat -> t <> [] ->
  Forall (fun c => isdigit c = true \/ c = 46) t -> 0 <= p <= 32 ->
  cidr_parse4 (t ++ (if p <? 32 then str "/" ++ print_u p else [])) =
  Some (Cidr p (V4 (dec byte_order b))).
Proof.
  intros Hb Hl Hne Hf Hp.
  assert (Forall (fun x => x <> 47) t) as Hs
    by (eapply Forall_impl; [exact Hf|]; intros c [Hc| ->] ?; by subst).
  destruct (print_u_prefix long_bits p long_bits_ok ltac:(lia)) as (_ & Hdot & Hlp).
  unfold cidr_parse4, BUF4. destruct (Z.ltb_spec p 32).
  - rewrite decide_False by (rewrite !length_app; simpl; lia).
    rewrite with_prefix_split by done. rewrite Hdot, parse_prefix_print by lia.
    cbn [mbind option_bind]. rewrite bool_decide_eq_false_2 by done. simpl. by rewrite Hb.
  - rewrite app_nil_r, decide_False by lia. rewrite str_split_none by done.
    cbn [mbind option_bind]. rewrite bool_decide_eq_false_2 by done. simpl. rewrite Hb. simpl.
    do 2 f_equal. lia.
Qed.

Lemma parse6_text t b p :
  inet_pton6 t = Some b -> (length t <= 45)%nat -> t <> [] ->
  Forall (fun c => isxdigit c = true \/ c = 46 \/ c = 58) t -> 0 <= p <= 128 ->
  cidr_parse6 (t ++ (if p <? 128 then str "/" ++ print_u p else [])) = Some (Cidr p (V6 b)).
Proof.
  intros Hb Hl Hne Hf Hp.
  assert (Forall (fun x => x <> 47) t) as Hs
    by (eapply Forall_impl; [exact Hf|]; intros c [Hc|[-> | ->]] ?; by subst).
  destruct (print_u_prefix long_bits p long_bits_ok ltac:(lia)) as (_ & _ & Hlp).
  unfold cidr_parse6, BUF6. destruct (Z.ltb_spec p 128).
  - rewrite decide_False by (rewrite !length_app; simpl; lia).
    rewrite with_prefix_split by done. rewrite parse_prefix_print by lia.
    cbn [mbind option_bind]. rewrite bool_decide_eq_false_2 by done. simpl. by rewrite Hb.
  - rewrite app_nil_r, decide_False by lia. rewrite str_split_none by done.
    cbn [mbind option_bind]. rewrite bool_decide_eq_false_2 by done. simpl. rewrite Hb. simpl.
    do 2 f_equal. lia.
Qed.
End Text.

(** What 'print' writes for a prefix on the stack is text that the parser of
    the same family turns back into that prefix; 'print' pops it. *)
Theorem print_parse_roundtrip (T : Target) (L : TargetLaws T) (c : cidr) (rest : list cidr) (o : cstr) :
  wf_cidr c ->
  exists t, print_cidr c (St (c :: rest) false false o) = Some (true, St rest false true (o ++ t)) /\
            parse_cidr (family c) t = Some c.
Proof.
  intros Hw. unfold print_cidr, parse_cidr, wf_cidr, family in *.
  destruct c as [p [x|x]]; simpl in *; destruct Hw as [Hx Hp].
  - destruct (ntop4_text (enc byte_order 4 x)) as (t & Ht & Hl & Hne & Hf & Hb);
      [apply length_enc|apply enc_range|].
    unfold cidr_print4. simpl. rewrite Ht. simpl.
    pose proof (parse4_text t _ p Hb Hl Hne Hf Hp) as Hpar.
    rewrite dec_enc, Z.mod_small in Hpar by done.
    eexists. split; [|exact Hpar].
    destruct (p <? 32); simpl; by rewrite ?app_nil_r, <- ?app_assoc.
  - destruct Hx as [Hlx Hfx]. destruct (ntop6_text x Hlx Hfx) as (t & Ht & Hl & Hne & Hf & Hb).
    unfold cidr_print6. simpl. rewrite Ht. simpl.
    eexists. split; [|exact (parse6_text t _ p Hb Hl Hne Hf Hp)].
    destruct (p <? 128); simpl; by rewrite ?app_nil_r, <- ?app_assoc.
Qed.

Lemma print_parse_roundtrip_witness :
  exists t, @print_cidr (demo_target LE) (@mk4 (demo_target LE) 24 0xC0A80100)
              (St [@mk4 (demo_target LE) 24 0xC0A80100] false false []) =
              Some (true, St [] false true t) /\
            @parse_cidr (demo_target LE) AF_INET t = Some (@mk4 (demo_target LE) 24 0xC0A80100).
Proof.
  apply (print_parse_roundtrip (demo_target LE) _ (@mk4 (demo_target LE) 24 0xC0A80100) [] []).
  split; [apply (@htonl_word (demo_target LE))|simpl; lia].
Defined.
