(* ===== verification/OwipRun.v ===== *)
(** * The address calculator: the command line interpreter

    Termination of the argument loop, absence of undefined behaviour for the
    operations that neither pop the stack nor take a prefix length from the
    command line, the exit codes, and what happens outside of that. *)
From stdpp Require Import sets options.
From S2P Require Import Prelude CLib Owip OwipFacts OwipProps OwipMain.
Set Default Proof Using "Type*".

Section Run.
Context {T : Target}.

(** ** Termination *)

Lemma runop_shrinks args status s args' status' s' :
  runop args status s = Some (R_ret true args' status' s') -> (length args' < length args)%nat.
Proof.
  unfold runop, run_result. intros H.
  repeat (first [done|case_match|apply bind_Some in H as ([? ?] & ? & H)
                |apply bind_Some in H as (? & ? & H)]); simplify_eq; simpl; lia.
Qed.

(** The loop returns as soon as every step does. *)
Lemma run_loop_total (I : list cstr -> st -> Prop) args status s :
  (forall args status s, I args s -> exists r, runop args status s = Some r /\
     match r with R_ret true args' _ s' => I args' s' | _ => True end) ->
  I args s -> forall fuel, (length args < fuel)%nat -> is_Some (run_loop fuel args status s).
Proof.
  intros Hstep Hi fuel. revert args status s Hi.
  induction fuel as [|f IH]; intros args status s Hi Hf; [lia|]. cbn [run_loop].
  destruct (Hstep args status s Hi) as (r & Hr & Hi'). rewrite Hr. simpl.
  destruct r as [[] args' status' s'|c s']; eauto.
  apply IH; [done|]. apply runop_shrinks in Hr. lia.
Qed.

(** ** Exit codes *)

Definition result_code (r : run) : Prop :=
  match r with
  | R_exit c _ => c = 4
  | R_ret more [] status _ => status = 0 \/ status = 1 \/ (more = false /\ status = 5)
  | R_ret true (_ :: _) status _ => status = 0 \/ status = 1
  | R_ret false (_ :: _) _ _ => True
  end.

Lemma cidr_parse_exit s f c : cidr_parse s f = P_exit c -> c = 4.
Proof. unfold cidr_parse. intros H. repeat case_match; by simplify_eq. Qed.

Lemma run_result_code args r x :
  run_result args r = Some x -> result_code x.
Proof.
  unfold run_result. intros H. apply bind_Some in H as ([b s] & _ & H). simplify_eq. simpl.
  destruct args, b; simpl; auto.
Qed.

Lemma runop_code args status s r :
  (status = 0 \/ status = 1) -> runop args status s = Some r -> result_code r.
Proof.
  intros Hst H. unfold runop in H.
  destruct args as [|a1 rest]; [simplify_eq; simpl; tauto|].
  destruct (find_op a1) as [o|]; [|by simplify_eq].
  destruct (_ || _).
  - destruct rest as [|a2 rest]; [by simplify_eq|].
    apply bind_Some in H as (a & _ & H).
    destruct (cidr_parse a2 (family a)) as [|c|b] eqn:Hp; [by simplify_eq| |].
    + simplify_eq. by apply cidr_parse_exit in Hp.
    + destruct (match family a with AF_INET => _ | _ => _ end); [by eapply run_result_code|].
      simplify_eq. destruct rest; simpl; auto.
  - apply bind_Some in H as (a & _ & H).
    destruct (match family a with AF_INET => _ | _ => _ end); [by eapply run_result_code|].
    simplify_eq. destruct rest; simpl; auto.
Qed.

Lemma run_loop_code fuel args status s r :
  (status = 0 \/ status = 1) -> run_loop fuel args status s = Some r -> result_code r.
Proof.
  revert args status s. induction fuel as [|f IH]; intros args status s Hst H; [done|].
  cbn [run_loop] in H. apply bind_Some in H as (r' & Hr & H).
  apply runop_code in Hr; [|done]. destruct r' as [[] args' status' s'|c s']; simplify_eq; auto.
  eapply IH; [|exact H]. destruct args'; simpl in Hr; naive_solver.
Qed.
End Run.

Lemma main_code (T : Target) (argv : list cstr) (code : Z) (o : cstr) :
  main argv = Some (code, o) -> code ∈ [0; 1; 4; 5; 6].
Proof.
  unfold main, main_with. intros H.
  destruct argv as [|base [|a args]]; [simplify_eq; set_solver..|].
  destruct (match str_split 58 base with Some _ => _ | None => _ end) as [c|];
    [|simplify_eq; set_solver].
  apply bind_Some in H as (r & Hr & H). apply run_loop_code in Hr; [|by left].
  destruct r as [more [|a' args'] status s|c' s]; simpl in Hr; simplify_eq; try set_solver.
  apply bind_Some in H as (s' & _ & H). simplify_eq. destruct more; set_solver.
Qed.

Definition args_of (l : list String.string) : list cstr := map str l.
Arguments args_of l%_string.

(** ** Safety *)

Section Safe.
Context {T : Target} {L : TargetLaws T}.

(** The operand of an operation: any prefix length. *)
Definition wf_operand (c : cidr) : Prop :=
  0 <= prefix c /\ match addr c with V4 x => is_word 32 x | V6 x => addr6 x end.

(** A prefix on which the operations on IPv4 blocks are defined: [1 << (32 - prefix)] fits. *)
Definition calc_cidr (c : cidr) : Prop :=
  match addr c with
  | V4 x => is_word 32 x /\ 2 <= prefix c <= 32
  | V6 x => addr6 x /\ 0 <= prefix c <= 128
  end.

Definition wf_st (s : st) : Prop := stack s <> [] /\ Forall calc_cidr (stack s).

Definition returns (r : option (bool * st)) : Prop :=
  exists b s', r = Some (b, s') /\ wf_st s'.

Lemma wf_push a s : calc_cidr a -> wf_st s -> wf_st (cidr_push a s).
Proof. intros Ha [_ Hs]. split; [done|]. by constructor. Qed.

Lemma returns_push a s b : calc_cidr a -> wf_st s -> returns (Some (b, cidr_push a s)).
Proof. intros. do 2 eexists. split; [done|]. by apply wf_push. Qed.

Lemma returns_same s s' b : stack s' = stack s -> wf_st s -> returns (Some (b, s')).
Proof. intros He Hs. do 2 eexists. split; [done|]. unfold wf_st. by rewrite He. Qed.

Lemma returns_answer b s : wf_st s -> returns (answer b s).
Proof. intros. apply returns_same with s; [|done]. unfold print_sep. by destruct (printed s). Qed.

Lemma wf_v4 p x : is_word 32 x -> 2 <= p <= 32 -> calc_cidr (Cidr p (V4 x)).
Proof. done. Qed.
Lemma wf_v6 p x : addr6 x -> 0 <= p <= 128 -> calc_cidr (Cidr p (V6 x)).
Proof. done. Qed.

Create HintDb owip.
#[local] Hint Resolve returns_push returns_answer wf_v4 wf_v6 htonl_word : owip.

(** What the table needs of an operation, by family of the base address. *)
Definition safe1 (f : af) (o : option (cidr -> st -> option (bool * st))) : Prop :=
  match o with
  | None => True
  | Some g => forall a s, family a = f -> calc_cidr a -> wf_st s -> returns (g a s)
  end.
Definition safe2 (f : af) (o : option (cidr -> cidr -> st -> option (bool * st))) : Prop :=
  match o with
  | None => True
  | Some g => forall a b s, family a = f -> family b = f -> calc_cidr a -> wf_operand b -> wf_st s ->
                returns (g a b s)
  end.
Definition op_safe (o : op) : Prop :=
  safe1 AF_INET (f4_a1 o) /\ safe2 AF_INET (f4_a2 o) /\
  safe1 AF_INET6 (f6_a1 o) /\ safe2 AF_INET6 (f6_a2 o).

(** Reduces an operation to its branch for the family. *)
Ltac open_op :=
  intros; repeat match goal with
  | c : cidr |- _ => destruct c as [? []]; unfold family in *; simpl in *; try discriminate
  | H : calc_cidr _ |- _ => destruct H
  | H : wf_operand _ |- _ => destruct H
  end; simpl in *.

Lemma add4_safe : safe2 AF_INET (Some cidr_add4).
Proof. simpl. open_op. unfold cidr_add4. simpl. case_match; auto with owip. Qed.
Lemma sub4_safe : safe2 AF_INET (Some cidr_sub4).
Proof. simpl. open_op. unfold cidr_sub4. simpl. case_match; auto with owip. Qed.

Lemma loop_result i x d r :
  addr6 x -> loop_adds i x d r -> exists x' c, r = Some (x', c) /\ addr6 x'.
Proof.
  intros [Hl _] (x' & c & -> & Hl' & Hf & _). exists x', c. split; [done|]. split; congruence.
Qed.

Lemma add6_safe : safe2 AF_INET6 (Some cidr_add6).
Proof.
  simpl. open_op. unfold cidr_add6. cbn [addr Owip.prefix].
  match goal with H1 : addr6 ?x, H2 : addr6 ?y |- context [add6_loop 15 ?x ?y 0] =>
    pose proof (add6_loop_ok 15 x y 0 (proj2 H1) (proj2 H2)) as Ha;
    rewrite (proj1 H1), (proj1 H2) in Ha;
    destruct (loop_result _ _ _ _ H1 (Ha ltac:(lia) ltac:(lia) ltac:(lia))) as (x' & c & -> & ?)
  end. simpl. auto with owip.
Qed.
Lemma sub6_safe : safe2 AF_INET6 (Some cidr_sub6).
Proof.
  simpl. open_op. unfold cidr_sub6. cbn [addr Owip.prefix].
  match goal with H1 : addr6 ?x, H2 : addr6 ?y |- context [sub6_loop 15 ?x ?y 0] =>
    pose proof (sub6_loop_ok 15 x y 0 (proj2 H1) (proj2 H2)) as Ha;
    rewrite (proj1 H1), (proj1 H2) in Ha;
    destruct (Ha ltac:(lia) ltac:(lia) ltac:(lia)) as ([x' c] & -> & Hr);
    destruct (loop_result _ _ _ _ H1 Hr) as (? & ? & ? & ?); simplify_eq
  end. simpl. auto with owip.
Qed.

Lemma network6_safe : safe1 AF_INET6 (Some cidr_network6).
Proof.
  simpl. intros a s Ha Hw Hs. destruct a as [p [x|x]]; [done|]. destruct Hw as [Hx Hp]. simpl in Hp.
  assert (is_addr6 (val6 x)) as Hv.
  { pose proof (val6_range x (proj2 Hx)) as H. by rewrite (proj1 Hx) in H. }
  pose proof (network6_correct p (val6 x) s Hp Hv) as Hn. unfold mk6 in Hn at 1.
  unfold val6 in Hn at 1. rewrite <- (proj1 Hx), (enc_dec BE x (proj2 Hx)) in Hn.
  rewrite Hn. apply returns_push; [|done]. apply wf_v6; [apply enc16_addr6|done].
Qed.

(** The operations that pop the stack, take a prefix length from their argument, or shift by
    a difference that depends on it. *)
Definition unsafe_names : list cstr := args_of ["next"; "prev"; "prefix"; "howmany"; "pop"; "print"]%string.

Lemma network4_safe : safe1 AF_INET (Some cidr_network4).
Proof.
  simpl. open_op. unfold cidr_network4. simpl. rewrite mask4_of by done. simpl. apply returns_push; [|done].
  apply wf_v4; [apply is_word_land; [lia|done|apply htonl_word]|lia].
Qed.
Lemma broadcast4_safe : safe1 AF_INET (Some cidr_broadcast4).
Proof.
  simpl. open_op. unfold cidr_broadcast4. simpl. rewrite block4_eq by done. simpl. apply returns_push; [|done].
  apply wf_v4; [apply is_word_lor; [lia|done|apply htonl_word]|lia].
Qed.
Lemma netmask4_safe : safe1 AF_INET (Some cidr_netmask4).
Proof.
  simpl. open_op. unfold cidr_netmask4. simpl. rewrite mask4_of by done. simpl. apply returns_push; [|done].
  apply wf_v4; [apply htonl_word|lia].
Qed.
Lemma land_ff_word x : is_word 8 (Z.land x 0xFF).
Proof. change 0xFF with (Z.ones 8). rewrite land_ones_wrap by lia. apply wrap_range. lia. Qed.
Lemma sixtofour_safe : safe1 AF_INET (Some cidr_6to4).
Proof.
  simpl. open_op. apply returns_push; [|done]. apply wf_v6; [|lia]. split; [done|].
  repeat (constructor; [first [apply u8_word|apply land_ff_word|unfold is_word; lia]|]).
  constructor.
Qed.
Lemma contains4_safe : safe2 AF_INET (Some cidr_contains4).
Proof.
  simpl. open_op. unfold cidr_contains4. simpl. rewrite mask4_of by done. simpl. by apply returns_answer.
Qed.
Lemma contains6_safe : safe2 AF_INET6 (Some cidr_contains6).
Proof. simpl. open_op. by apply returns_answer. Qed.
Lemma private4_safe : safe1 AF_INET (Some cidr_private4).
Proof. simpl. open_op. by apply returns_answer. Qed.
Lemma linklocal4_safe : safe1 AF_INET (Some cidr_linklocal4).
Proof. simpl. open_op. by apply returns_answer. Qed.
Lemma linklocal6_safe : safe1 AF_INET6 (Some cidr_linklocal6).
Proof. simpl. open_op. by apply returns_answer. Qed.
Lemma ula6_safe : safe1 AF_INET6 (Some cidr_ula6).
Proof. simpl. open_op. by apply returns_answer. Qed.
Lemma quiet_safe f : safe1 f (Some cidr_quiet).
Proof. simpl. intros. by eapply returns_same. Qed.

Lemma op_safe_intro n a b c d :
  safe1 AF_INET a -> safe2 AF_INET b -> safe1 AF_INET6 c -> safe2 AF_INET6 d ->
  op_safe (Op n a b c d).
Proof. done. Qed.
Lemma safe1_none f : safe1 f None.
Proof. done. Qed.
Lemma safe2_none f : safe2 f None.
Proof. done. Qed.

Lemma ops_safe : Forall (fun o => op_name o ∈ unsafe_names \/ op_safe o) ops.
Proof.
  unfold ops.
  constructor; [right; exact (op_safe_intro _ _ _ _ _ (safe1_none _) add4_safe (safe1_none _) add6_safe)|].
  constructor; [right; exact (op_safe_intro _ _ _ _ _ (safe1_none _) sub4_safe (safe1_none _) sub6_safe)|].
  do 2 (constructor; [left; by apply (bool_decide_eq_true (_ ∈ unsafe_names))|]).
  constructor; [right; exact (op_safe_intro _ _ _ _ _ network4_safe (safe2_none _) network6_safe (safe2_none _))|].
  constructor; [right; exact (op_safe_intro _ _ _ _ _ broadcast4_safe (safe2_none _) (safe1_none _) (safe2_none _))|].
  constructor; [left; by apply (bool_decide_eq_true (_ ∈ unsafe_names))|].
  constructor; [right; exact (op_safe_intro _ _ _ _ _ netmask4_safe (safe2_none _) (safe1_none _) (safe2_none _))|].
  constructor; [right; exact (op_safe_intro _ _ _ _ _ sixtofour_safe (safe2_none _) (safe1_none _) (safe2_none _))|].
  constructor; [left; by apply (bool_decide_eq_true (_ ∈ unsafe_names))|].
  constructor; [right; exact (op_safe_intro _ _ _ _ _ (safe1_none _) contains4_safe (safe1_none _) contains6_safe)|].
  constructor; [right; exact (op_safe_intro _ _ _ _ _ private4_safe (safe2_none _) (safe1_none _) (safe2_none _))|].
  constructor; [right; exact (op_safe_intro _ _ _ _ _ linklocal4_safe (safe2_none _) linklocal6_safe (safe2_none _))|].
  constructor; [right; exact (op_safe_intro _ _ _ _ _ (safe1_none _) (safe2_none _) ula6_safe (safe2_none _))|].
  constructor; [right; exact (op_safe_intro _ _ _ _ _ (quiet_safe _) (safe2_none _) (quiet_safe _) (safe2_none _))|].
  do 2 (constructor; [left; by apply (bool_decide_eq_true (_ ∈ unsafe_names))|]).
  constructor.
Qed.

(** ** The parsers produce well-formed prefixes *)

Lemma parse_prefix_range p max v : parse_prefix p max = Some v -> 0 <= v <= max.
Proof.
  unfold parse_prefix. destruct (strtoul long_bits 10 p) as [[u n] er].
  destruct (_ || _) eqn:Hc; [done|]. intros; simplify_eq. b2p.
  pose proof (wrap_range 32 u ltac:(lia)) as [? _]. unfold u32 in *. lia.
Qed.

Lemma count_bits_range n m : 0 <= m -> 0 <= count_bits n m <= Z.of_nat n.
Proof.
  revert m. induction n as [|n IH]; intros m Hm; cbn [count_bits]; [lia|].
  destruct (m =? 0); [lia|]. pose proof (IH (Z.shiftr m 1) ltac:(by apply Z.shiftr_nonneg)).
  assert (Z.land m 1 = wrap 1 m) as -> by apply (land_ones_wrap 1 m ltac:(lia)).
  pose proof (wrap_range 1 m ltac:(lia)) as [? ?]. change (2 ^ 1) with 2 in *. lia.
Qed.

Lemma cidr_parse4_wf t c : cidr_parse4 t = Some c -> family c = AF_INET /\ wf_cidr c.
Proof.
  unfold cidr_parse4. case_decide as Hlen; [done|]. intros H. apply bind_Some in H as ([a p] & Hp & H).
  assert (0 <= p <= 32) as Hr.
  { destruct (str_split 47 t) as [[a' p']|]; [|simplify_eq; lia].
    apply bind_Some in Hp as (q & Hq & Hp). simplify_eq.
    destruct (str_split 46 p'); [|by apply parse_prefix_range in Hq].
    apply bind_Some in Hq as (m & Hm & Hq). simplify_eq.
    apply pton4_len in Hm as [Hl Hf].
    apply (count_bits_range 32). apply (dec_word32 byte_order m Hl Hf). }
  destruct (_ && _).
  - simplify_eq. split; [done|]. split; [unfold is_word; lia|done].
  - apply bind_Some in H as (b & Hb & H). simplify_eq. apply pton4_len in Hb as [Hl Hf].
    split; [done|]. split; [by apply dec_word32|done].
Qed.

Lemma cidr_parse6_wf t c : cidr_parse6 t = Some c -> family c = AF_INET6 /\ wf_cidr c.
Proof.
  unfold cidr_parse6. case_decide as Hlen; [done|]. intros H. apply bind_Some in H as ([a p] & Hp & H).
  assert (0 <= p <= 128) as Hr.
  { destruct (str_split 47 t) as [[a' p']|]; [|simplify_eq; lia].
    apply bind_Some in Hp as (q & Hq & Hp). simplify_eq. by apply parse_prefix_range in Hq. }
  destruct (_ && _).
  - simplify_eq. split; [done|]. split; [split; [done|apply zero_words]|done].
  - apply bind_Some in H as (b & Hb & H). simplify_eq. apply pton6_len in Hb.
    split; [done|]. by split.
Qed.

Lemma wf_cidr_operand c : wf_cidr c -> wf_operand c.
Proof. unfold wf_cidr, wf_operand. destruct (addr c); intros []; split; (lia || done). Qed.

Lemma cidr_parse_wf t f c : cidr_parse t f = P_ok c -> family c = f /\ wf_operand c.
Proof.
  unfold cidr_parse. destruct (strtoul long_bits 0 t) as [[v n] er].
  destruct (_ && _).
  - pose proof (wrap_range 32 v ltac:(lia)) as [? _].
    destruct f; intros; simplify_eq; (split; [done|]); (split; [done|]); simpl;
      [apply htonl_word|apply enc16_addr6].
  - destruct (str_split 58 t).
    + destruct (cidr_parse6 t) as [a|] eqn:Ha; [|done]. case_decide as Hf; intros; simplify_eq.
      split; [done|]. by apply wf_cidr_operand, (cidr_parse6_wf t).
    + destruct (cidr_parse4 t) as [a|] eqn:Ha; [|done]. case_decide as Hf; intros; simplify_eq.
      split; [done|]. by apply wf_cidr_operand, (cidr_parse4_wf t).
Qed.

(** ** The loop *)

Definition loop_inv (args : list cstr) (s : st) : Prop :=
  Forall (fun a => a ∉ unsafe_names) args /\ wf_st s.

Lemma find_op_safe n o : find_op n = Some o -> n ∉ unsafe_names -> op_safe o.
Proof.
  intros H Hn. unfold find_op in H. apply List.find_some in H as [Hin Hname].
  apply bool_decide_eq_true in Hname. subst.
  pose proof ops_safe as Hs. rewrite Forall_forall in Hs.
  apply list_elem_of_In in Hin. by destruct (Hs o Hin).
Qed.

Lemma run_result_safe args r :
  Forall (fun a => a ∉ unsafe_names) args -> returns r ->
  exists x, run_result args r = Some x /\
    match x with R_ret true args' _ s' => loop_inv args' s' | _ => True end.
Proof. intros Ha (b & s' & -> & Hs). simpl. eexists. split; [done|]. done. Qed.

(** The step that ends the loop. *)
Ltac stops := eexists; split; [reflexivity|exact I].

Lemma runop_safe args status s :
  loop_inv args s -> exists r, runop args status s = Some r /\
    match r with R_ret true args' _ s' => loop_inv args' s' | _ => True end.
Proof.
  intros [Ha Hs]. unfold runop. destruct args as [|a1 rest]; [stops|].
  inversion Ha as [|? ? Ha1 Hrest]; subst.
  destruct (find_op a1) as [o|] eqn:Ho; [|stops].
  destruct (find_op_safe a1 o Ho Ha1) as (S1 & S2 & S3 & S4).
  pose proof Hs as [Hne Hwf].
  destruct (stack s) as [|a st'] eqn:Hst; [done|]. inversion Hwf as [|? ? Hwa _]; subst.
  destruct (_ || _).
  - destruct rest as [|a2 rest]; [stops|]. inversion Hrest; subst. simpl.
    destruct (cidr_parse a2 (family a)) as [|c|b] eqn:Hp; [stops..|].
    apply cidr_parse_wf in Hp as [Hfb Hwb].
    destruct (family a) eqn:Hfa; [destruct (f4_a2 o)|destruct (f6_a2 o)]; try stops;
      apply run_result_safe; simpl in *; auto.
  - simpl. destruct (family a) eqn:Hfa; [destruct (f4_a1 o)|destruct (f6_a1 o)]; try stops;
      apply run_result_safe; simpl in *; auto.
Qed.

Lemma run_loop_wf fuel args status s more args' status' s' :
  loop_inv args s -> run_loop fuel args status s = Some (R_ret more args' status' s') -> wf_st s'.
Proof.
  revert args status s. induction fuel as [|f IH]; intros args status s Hi H; [done|].
  cbn [run_loop] in H. apply bind_Some in H as (r & Hr & H).
  destruct (runop_safe args status s Hi) as (r' & Hr' & Hi'). simplify_eq.
  destruct r as [[] a' st' s''|]; simplify_eq; [by eapply IH|].
  unfold runop, run_result in Hr. destruct Hi as [_ Hs].
  repeat (first [done|case_match|apply bind_Some in Hr as ([? ?] & ? & Hr)
                |apply bind_Some in Hr as (? & ? & Hr)]); by simplify_eq.
Qed.

Lemma print_final_total s a :
  head (stack s) = Some a -> Forall calc_cidr (stack s) ->
  is_Some (match family a with
           | AF_INET => snd <$> cidr_print4 a s
           | AF_INET6 => snd <$> cidr_print6 a s
           end).
Proof.
  intros Ha Hw. unfold family, cidr_print4, cidr_print6.
  destruct a as [p [x|x]]; simpl; case_match; simpl; eauto.
Qed.
End Safe.

(** The arguments on which every operation is defined: a base address that is an IPv6 prefix or
    an IPv4 prefix of length at least 2, and none of the operations of [unsafe_names]. *)
Definition calc_args {T : Target} (argv : list cstr) : Prop :=
  Forall (fun a => a ∉ unsafe_names) (drop 1 argv) /\
  match argv with
  | base :: _ => str_split 58 base = None -> forall c, cidr_parse4 base = Some c -> 2 <= prefix c
  | [] => True
  end.

Lemma main_returns (T : Target) (L : TargetLaws T) (argv : list cstr) :
  calc_args argv -> exists code o, main argv = Some (code, o).
Proof.
  intros [Ha Hb]. unfold main, main_with. destruct argv as [|base [|a args]]; [eauto..|].
  change (drop 1 (base :: a :: args)) with (a :: args) in Ha.
  destruct (match str_split 58 base with Some _ => cidr_parse6 base | None => cidr_parse4 base end)
    as [c|] eqn:Hc; [|eauto].
  assert (calc_cidr c) as Hw.
  { unfold calc_cidr. destruct (str_split 58 base).
    - pose proof (cidr_parse6_wf base c Hc) as [Hf Hw]. unfold family, wf_cidr in *. by destruct (addr c).
    - pose proof (cidr_parse4_wf base c Hc) as [Hf Hw]. specialize (Hb eq_refl c Hc).
      unfold family, wf_cidr in *. destruct (addr c); [|done]. destruct Hw. split; [done|lia]. }
  assert (loop_inv (a :: args) (cidr_push c (St [] false false []))) as Hi.
  { split; [done|]. split; [done|]. by repeat constructor. }
  destruct (run_loop_total loop_inv _ 0 _ runop_safe Hi (length (base :: a :: args))) as [r Hr]; [simpl; lia|].
  rewrite Hr. cbn [mbind option_bind]. destruct r as [more [|a' args'] status s|c' s]; eauto.
  pose proof (run_loop_wf _ _ _ _ _ _ _ _ Hi Hr) as [Hne Hws].
  destruct (_ && _); [|simpl; eauto].
  destruct (head (stack s)) as [top|] eqn:Htop; [|by destruct (stack s)].
  cbn [mbind option_bind]. destruct (print_final_total s top Htop Hws) as [s' ->]. simpl. eauto.
Qed.

(** C29: For a base address that is an IPv6 prefix or an IPv4 prefix of length at least 2, and
    operations other than 'next', 'prev', 'prefix', 'howmany', 'pop' and 'print', the program
    terminates, every shift and every access of an operation is defined, and [main] exits with a
    code and an output, for every argument list.  (The shifts by 31 or more of the remaining cases
    are undefined in C: [main_undefined].) *)
Theorem main_safe (T : Target) (L : TargetLaws T) (argv : list cstr) :
  calc_args argv -> exists code o, main argv = Some (code, o).
Proof. apply main_returns. exact L. Qed.

Lemma calc_demo : @calc_args (demo_target BE) (args_of ["192.168.1.1/255.255.255.0"; "network"; "add"; "100"]%string).
Proof.
  split; [apply (bool_decide_eq_true (Forall _ _)); vm_compute; reflexivity|].
  intros _ c Hc. assert (c = Cidr 24 (V4 0xC0A80101)) as ->; [|by simpl].
  apply (inj Some). rewrite <- Hc. vm_compute. reflexivity.
Qed.

Lemma main_safe_witness :
  exists code o,
    @main (demo_target BE) (args_of ["192.168.1.1/255.255.255.0"; "network"; "add"; "100"]%string) =
    Some (code, o).
Proof. exact (main_safe (demo_target BE) _ _ calc_demo). Defined.

(** *** Exit codes *)

Section Codes.
Context {T : Target}.

(** The bound on the steps is no limit: [None] is undefined behaviour only. *)
Lemma run_loop_fuel f1 : forall f2 args status s, (length args < f1)%nat -> (length args < f2)%nat ->
  run_loop f1 args status s = run_loop f2 args status s.
Proof.
  induction f1 as [|f1 IH]; intros f2 args status s H1 H2; [lia|]. destruct f2 as [|f2]; [lia|].
  cbn [run_loop]. destruct (runop args status s) as [r|] eqn:Hr; [|done]. cbn [mbind option_bind].
  destruct r as [[] args' status' s'|]; try done. apply runop_shrinks in Hr. apply IH; lia.
Qed.
End Codes.



(** The first example of the usage text prints 192.168.1.100 and then
    192.168.1.150, not the 192.168.1.250 the text shows: 'print' pops the
    intermediate result, so the second 'add' starts from the network address. *)
Theorem usage_example :
  @main (demo_target LE) (args_of ["192.168.1.1/255.255.255.0"; "network"; "add"; "100"; "print";
                                   "add"; "150"; "print"]%string) =
  Some (0, str "192.168.1.100 192.168.1.150" ++ [10]).
Proof. vm_compute. reflexivity. Qed.

(** Outside of that the behaviour is undefined: popping the base address dereferences the NULL
    top of the stack, a prefix length above 128 makes 'network' and 'next' write outside the
    address, the whole IPv4 address space (and its halves) shifts 1 by 32 (31), and so does
    counting more than 2^30 prefixes. *)
Theorem main_undefined :
  @main (demo_target LE) (args_of ["0.0.0.0/0"; "network"]%string) = None /\
  @main (demo_target LE) (args_of ["0.0.0.0/0"; "contains"; "10.0.0.1"]%string) = None /\
  @main (demo_target LE) (args_of ["128.0.0.0/1"; "broadcast"]%string) = None /\
  @main (demo_target LE)
    (args_of ["FE80:0000:0000:0000:0000:0000:0000:0000/32"; "howmany"; "64"]%string) = None /\
  @main (demo_target LE) (args_of ["10.0.0.1"; "pop"]%string) = None /\
  @main (demo_target LE) (args_of ["10.0.0.1"; "print"; "network"]%string) = None /\
  @main (demo_target LE)
    (args_of ["FE80:0000:0000:0000:0000:0000:0000:0001"; "prefix"; "129"; "network"]%string) = None /\
  @main (demo_target LE)
    (args_of ["FE80:0000:0000:0000:0000:0000:0000:0001"; "next"; "129"]%string) = None.
Proof. vm_compute. done. Qed.
