(* ===== verification/MapCalc.v ===== *)
(** * MAP rules: package/network/ipv6/map/src/mapcalc.c

    mapcalc turns the rules of MAP-E, MAP-T and lightweight 4over6 into the
    addresses and port sets of this router.  Addresses are lists of bytes in
    network order.  What ubus reports ([dump]) is the parsed list of interfaces;
    the address conversions and the width of long come from [Target].  An
    access outside an object or through NULL is [None]; a bit count that is
    negative is a huge [size_t], hence also [None].  Messages on stderr are not
    modelled. *)
From stdpp Require Import options.
From S2P Require Import Prelude CLib Owip.

(** ** Bit-wise memory operations *)

(** [memcmp]; only its sign is used. *)
Fixpoint memcmp (a b : list Z) : Z :=
  match a, b with
  | x :: a', y :: b' => if x =? y then memcmp a' b' else x - y
  | _, _ => 0
  end.

Definition bmemcmp (a b : list Z) (bits : Z) : option Z :=
  if bits <? 0 then None else
  let bytes := Z.to_nat (bits / 8) in
  let bits := bits mod 8 in
  x ← mem_read a 0 bytes;
  y ← mem_read b 0 bytes;
  let res := memcmp x y in
  if (res =? 0) && (0 <? bits)
  then ca ← a !! bytes; cb ← b !! bytes;
       Some (Z.shiftr ca (8 - bits) - Z.shiftr cb (8 - bits))
  else Some res.

Definition bmemcpy (a b : list Z) (bits : Z) : option (list Z) :=
  if bits <? 0 then None else
  let bytes := Z.to_nat (bits / 8) in
  let bits := bits mod 8 in
  x ← mem_read b 0 bytes;
  a ← mem_write a 0 x;
  if 0 <? bits
  then let mask := u8 (Z.shiftl 1 (8 - bits) - 1) in
       ca ← a !! bytes; cb ← b !! bytes;
       mem_write a bytes [u8 (Z.lor (Z.land ca mask) (Z.land (Z.lnot mask) cb))]
  else Some a.

(** [buf] has eight bytes. *)
Definition bmemcpys64 (a b : list Z) (frombits nbits : Z) : option (list Z) :=
  if (frombits <? 0) || (nbits <? 0) then None else
  let frombyte := Z.to_nat (frombits / 8) in
  let tobyte := Z.to_nat ((frombits + nbits) / 8) in
  x ← mem_read b frombyte (tobyte - frombyte + 1);
  buf ← mem_write (replicate 8 0) 0 x;
  let buf := enc BE 8 (u64 (Z.shiftl (dec BE buf) (frombits mod 8))) in
  bmemcpy a buf nbits.

(** ** Rules *)

Definition in_any : list Z := replicate 4 0.
Definition in6_any : list Z := replicate 16 0.

(** The variables of an iteration of [main] that the options set. *)
Record rule := Rule {
  lw4o6 : bool; fmr : bool; ealen : Z; prefix4len : Z; prefix6len : Z; pdlen : Z;
  ipv4prefix : list Z; ipv6prefix : list Z; pd : list Z;
  offset : Z; psidlen : Z; psid : Z; dmr : option cstr; br : option cstr }.

Definition initial : rule :=
  Rule false false (-1) 32 (-1) (-1) in_any in6_any in6_any (-1) (-1) (-1) None None.

Definition set_lw4o6 v r := Rule v (fmr r) (ealen r) (prefix4len r) (prefix6len r) (pdlen r) (ipv4prefix r) (ipv6prefix r) (pd r) (offset r) (psidlen r) (psid r) (dmr r) (br r).
Definition set_fmr v r := Rule (lw4o6 r) v (ealen r) (prefix4len r) (prefix6len r) (pdlen r) (ipv4prefix r) (ipv6prefix r) (pd r) (offset r) (psidlen r) (psid r) (dmr r) (br r).
Definition set_ealen v r := Rule (lw4o6 r) (fmr r) v (prefix4len r) (prefix6len r) (pdlen r) (ipv4prefix r) (ipv6prefix r) (pd r) (offset r) (psidlen r) (psid r) (dmr r) (br r).
Definition set_prefix4len v r := Rule (lw4o6 r) (fmr r) (ealen r) v (prefix6len r) (pdlen r) (ipv4prefix r) (ipv6prefix r) (pd r) (offset r) (psidlen r) (psid r) (dmr r) (br r).
Definition set_prefix6len v r := Rule (lw4o6 r) (fmr r) (ealen r) (prefix4len r) v (pdlen r) (ipv4prefix r) (ipv6prefix r) (pd r) (offset r) (psidlen r) (psid r) (dmr r) (br r).
Definition set_pdlen v r := Rule (lw4o6 r) (fmr r) (ealen r) (prefix4len r) (prefix6len r) v (ipv4prefix r) (ipv6prefix r) (pd r) (offset r) (psidlen r) (psid r) (dmr r) (br r).
Definition set_ipv4prefix v r := Rule (lw4o6 r) (fmr r) (ealen r) (prefix4len r) (prefix6len r) (pdlen r) v (ipv6prefix r) (pd r) (offset r) (psidlen r) (psid r) (dmr r) (br r).
Definition set_ipv6prefix v r := Rule (lw4o6 r) (fmr r) (ealen r) (prefix4len r) (prefix6len r) (pdlen r) (ipv4prefix r) v (pd r) (offset r) (psidlen r) (psid r) (dmr r) (br r).
Definition set_pd v r := Rule (lw4o6 r) (fmr r) (ealen r) (prefix4len r) (prefix6len r) (pdlen r) (ipv4prefix r) (ipv6prefix r) v (offset r) (psidlen r) (psid r) (dmr r) (br r).
Definition set_offset v r := Rule (lw4o6 r) (fmr r) (ealen r) (prefix4len r) (prefix6len r) (pdlen r) (ipv4prefix r) (ipv6prefix r) (pd r) v (psidlen r) (psid r) (dmr r) (br r).
Definition set_psidlen v r := Rule (lw4o6 r) (fmr r) (ealen r) (prefix4len r) (prefix6len r) (pdlen r) (ipv4prefix r) (ipv6prefix r) (pd r) (offset r) v (psid r) (dmr r) (br r).
Definition set_psid v r := Rule (lw4o6 r) (fmr r) (ealen r) (prefix4len r) (prefix6len r) (pdlen r) (ipv4prefix r) (ipv6prefix r) (pd r) (offset r) (psidlen r) v (dmr r) (br r).
Definition set_dmr v r := Rule (lw4o6 r) (fmr r) (ealen r) (prefix4len r) (prefix6len r) (pdlen r) (ipv4prefix r) (ipv6prefix r) (pd r) (offset r) (psidlen r) (psid r) v (br r).
Definition set_br v r := Rule (lw4o6 r) (fmr r) (ealen r) (prefix4len r) (prefix6len r) (pdlen r) (ipv4prefix r) (ipv6prefix r) (pd r) (offset r) (psidlen r) (psid r) (dmr r) v.

Inductive opt :=
| OPT_TYPE | OPT_FMR | OPT_EALEN | OPT_PREFIX4LEN | OPT_PREFIX6LEN | OPT_IPV6PREFIX
| OPT_IPV4PREFIX | OPT_OFFSET | OPT_PSIDLEN | OPT_PSID | OPT_BR | OPT_DMR | OPT_PD | OPT_PDLEN.

Definition token : list (cstr * opt) :=
  [(str "type", OPT_TYPE); (str "fmr", OPT_FMR); (str "ealen", OPT_EALEN);
   (str "prefix4len", OPT_PREFIX4LEN); (str "prefix6len", OPT_PREFIX6LEN);
   (str "ipv6prefix", OPT_IPV6PREFIX); (str "ipv4prefix", OPT_IPV4PREFIX);
   (str "offset", OPT_OFFSET); (str "psidlen", OPT_PSIDLEN); (str "psid", OPT_PSID);
   (str "br", OPT_BR); (str "dmr", OPT_DMR); (str "pd", OPT_PD); (str "pdlen", OPT_PDLEN)].

(** [getsubopt]: the token before the first ["="] of the suboption, the value
    behind it (NULL when there is none), and what follows the comma. *)
Definition getsubopt (s : cstr) : option opt * option cstr * cstr :=
  let '(sub, rest) := match str_split 44 s with Some (a, b) => (a, b) | None => (s, []) end in
  let '(name, value) :=
    match str_split 61 sub with Some (a, b) => (a, Some b) | None => (sub, None) end in
  match List.find (fun t => bool_decide (t.1 = name)) token with
  | Some (_, o) => (Some o, value, rest)
  | None => (None, Some sub, rest)
  end.

Section Map.
Context {T : Target}.
(** What shifting a 32-bit number by 32 gives. *)
Context (shr_over : Z -> Z).

(** [(intval = strtoul(value, NULL, 0)) <= max && !errno] *)
Definition number (max : Z) (value : option cstr) : option (option Z) :=
  v ← value;
  let '(n, _, range) := strtoul long_bits 0 v in
  let intval := s32 n in
  Some (if (intval <=? max) && negb range then Some intval else None).

Definition set_number (set : Z -> rule -> rule) (max : Z) (value : option cstr) (r : rule) : option rule :=
  n ← number max value; Some (match n with Some n => set n r | None => r end).
Definition set_address (set : list Z -> rule -> rule) (pton : cstr -> option (list Z))
    (value : option cstr) (r : rule) : option rule :=
  v ← value; Some (match pton v with Some a => set a r | None => r end).

(** One turn of the loop over the suboptions. *)
Definition set_option (o : option opt) (value : option cstr) (r : rule) : option rule :=
  match o with
  | None => Some r
  | Some OPT_TYPE => Some (set_lw4o6 (bool_decide (value = Some (str "lw4o6"))) r)
  | Some OPT_FMR => Some (set_fmr true r)
  | Some OPT_EALEN => set_number set_ealen 48 value r
  | Some OPT_PREFIX4LEN => set_number set_prefix4len 32 value r
  | Some OPT_PREFIX6LEN => set_number set_prefix6len 128 value r
  | Some OPT_IPV4PREFIX => set_address set_ipv4prefix inet_pton4 value r
  | Some OPT_IPV6PREFIX => set_address set_ipv6prefix inet_pton6 value r
  | Some OPT_PD => set_address set_pd inet_pton6 value r
  | Some OPT_OFFSET => set_number set_offset 16 value r
  | Some OPT_PSIDLEN => set_number set_psidlen 16 value r
  | Some OPT_PDLEN => set_number set_pdlen 128 value r
  | Some OPT_PSID => set_number set_psid 65535 value r
  | Some OPT_DMR => Some (set_dmr value r)
  | Some OPT_BR => Some (set_br value r)
  end.

(** Every turn consumes a character. *)
Fixpoint parse_rule (fuel : nat) (s : cstr) (r : rule) : option rule :=
  match s with
  | [] => Some r
  | _ :: _ =>
      match fuel with
      | O => None
      | S f => let '(o, value, rest) := getsubopt s in
               r ← set_option o value r; parse_rule f rest r
      end
  end.

(** ** Finding the delegated prefix *)

(** An entry of "ipv6-prefix" or "ipv6-address": its address and mask. *)
Record prefix_attr := PrefixAttr { pa_address : option cstr; pa_mask : option Z }.
Record iface_attr := IfaceAttr {
  if_interface : option cstr;
  if_prefix : option (list prefix_attr);
  if_address : option (list prefix_attr) }.

(** One turn of the loop of [match_prefix]. *)
Definition match_one (r : rule) (d : prefix_attr) : option rule :=
  match pa_address d, pa_mask d with
  | Some a, Some m =>
      let prefix := default in6_any (inet_pton6 a) in
      let mask := if lw4o6 r && (m =? 128) then 64 else m in
      hit ← (if (pdlen r <? mask) && (prefix6len r <=? mask)
             then c ← bmemcmp prefix (ipv6prefix r) (prefix6len r); Some (c =? 0)
             else Some false);
      if (hit : bool)
      then pd' ← bmemcpy (pd r) prefix mask; Some (set_pdlen mask (set_pd pd' r))
      else
        hit ← (if lw4o6 r && (pdlen r <? prefix6len r) && (mask <? prefix6len r)
               then c ← bmemcmp prefix (ipv6prefix r) mask; Some (c =? 0)
               else Some false);
        if (hit : bool)
        then pd' ← bmemcpy (pd r) (ipv6prefix r) (prefix6len r);
             Some (set_pdlen (prefix6len r) (set_pd pd' r))
        else Some r
  | _, _ => Some r
  end.
Fixpoint match_list (l : list prefix_attr) (r : rule) : option rule :=
  match l with
  | [] => Some r
  | d :: l' => r ← match_one r d; match_list l' r
  end.
Definition match_prefix (cur : option (list prefix_attr)) (r : rule) : option rule :=
  match cur with None => Some r | Some l => match_list l r end.

(** The loop over the interfaces; [want] is [argv[1]]. *)
Fixpoint find_pd (want : cstr) (dump : list iface_attr) (r : rule) (iface : cstr) : option (rule * cstr) :=
  match dump with
  | [] => Some (r, iface)
  | c :: dump' =>
      match if_interface c with
      | None => find_pd want dump' r iface
      | Some name =>
          if negb (bool_decide (want = str "*")) && negb (bool_decide (want = name))
          then find_pd want dump' r iface
          else
            r ← match_prefix (if_prefix c) r;
            r ← (if lw4o6 r then match_prefix (if_address c) r else Some r);
            if 0 <=? pdlen r then Some (r, name) else find_pd want dump' r iface
      end
  end.

(** ** Evaluation of a rule *)

(** What is known of a rule when it is printed. *)
Record result := Result {
  r_rule : rule; ipv4addr : list Z; ipv6addr : list Z; addr4len : Z; r_iface : cstr }.

Definition defaults (legacy : bool) (r : rule) : rule :=
  let r := if offset r <? 0
           then set_offset (if lw4o6 r then 0 else if legacy then 4 else 6) r else r in
  if lw4o6 r
  then let r := if psidlen r <? 0 then set_psidlen 0 r else r in set_ealen (psidlen r) r
  else r.

Definition lengths (r : rule) : rule :=
  let r := if (ealen r <? 0) && (0 <=? pdlen r) then set_ealen (pdlen r - prefix6len r) r else r in
  if psidlen r <=? 0
  then set_psid (-1) (set_psidlen (Z.max 0 (ealen r - (32 - prefix4len r))) r)
  else r.

Definition incomplete (r : rule) : bool :=
  (prefix4len r <? 0) || (prefix6len r <? 0) || (ealen r <? 0) || (16 <? psidlen r) ||
  (ealen r <? psidlen r).

(** [psid] (16 bits, left-aligned) and the bytes of [psid16]. *)
Definition calc_psid (r : rule) : option (rule * list Z) :=
  '(p, p16) ← (if (psid r <? 0) && (0 <=? psidlen r) && (0 <=? pdlen r)
               then b ← bmemcpys64 (replicate 2 0) (pd r) (prefix6len r + ealen r - psidlen r) (psidlen r);
                    Some (dec BE b, b)
               else Some (psid r, replicate 2 0));
  Some (if 0 <? psidlen r
        then let p := Z.shiftr p (16 - psidlen r) in
             (set_psid (Z.shiftl p (16 - psidlen r)) r, enc BE 2 p)
        else (set_psid p r, p16)).

Definition shr32 (x n : Z) : Z := if n <? 32 then Z.shiftr x n else shr_over x.

Definition calc_ipv4 (r : rule) : option (list Z * Z) :=
  if (0 <=? pdlen r) || (ealen r =? psidlen r)
  then a ← bmemcpys64 in_any (pd r) (prefix6len r) (ealen r - psidlen r);
       let a := enc BE 4 (shr32 (dec BE a) (prefix4len r)) in
       a ← bmemcpy a (ipv4prefix r) (prefix4len r);
       Some (a, if prefix4len r + ealen r <? 32 then prefix4len r + ealen r else 32)
  else Some (in_any, 32).

Definition calc_ipv6 (legacy : bool) (r : rule) (v4 psid16 : list Z) : option (list Z) :=
  if 0 <=? pdlen r
  then let v4offset := if legacy then 9%nat else 10%nat in
       a ← mem_write in6_any v4offset v4;
       a ← mem_write a (v4offset + 4) psid16;
       bmemcpy a (pd r) (pdlen r)
  else Some in6_any.

(** The body of the loop over the rules after the options were read: [None]
    inside when the rule is skipped.  [iface] is kept from rule to rule. *)
Definition eval_rule (legacy : bool) (want : cstr) (dump : list iface_attr) (r : rule) (iface : cstr) :
    option (option result * cstr) :=
  let r := defaults legacy r in
  '(r, iface) ← (if pdlen r <? 0 then find_pd want dump r iface else Some (r, iface));
  let r := lengths r in
  if incomplete r then Some (None, iface) else
  '(r, psid16) ← calc_psid r;
  '(v4, len) ← calc_ipv4 r;
  if (pdlen r <? 0) && negb (fmr r) then Some (None, iface) else
  v6 ← calc_ipv6 legacy r v4 psid16;
  Some (Some (Result r v4 v6 len iface), iface).

(** ** Port sets *)

(** The range of the [k]-th turn; [None] when a shift count is negative. *)
Definition port_range (offset psidlen psid k : Z) : option (Z * Z) :=
  if 16 - offset - psidlen <? 0 then None else
  let start := Z.lor (Z.shiftl k (16 - offset)) (Z.shiftr psid offset) in
  let end_ := start + Z.shiftl 1 (16 - offset - psidlen) - 1 in
  Some (if start =? 0 then 1 else start, end_).

Fixpoint port_loop (fuel : nat) (k offset psidlen psid : Z) : option (list (Z * Z)) :=
  if k <? Z.shiftl 1 offset
  then
    match fuel with
    | O => None
    | S f =>
        '(s, e) ← port_range offset psidlen psid k;
        l ← port_loop f (k + 1) offset psidlen psid;
        Some (if s <=? e then (s, e) :: l else l)
    end
  else Some [].

Definition port_sets (offset psidlen psid : Z) : option (list (Z * Z)) :=
  port_loop (Z.to_nat (Z.shiftl 1 offset)) (if offset =? 0 then 0 else 1) offset psidlen psid.

(** ** Output *)

Definition print_d (v : Z) : cstr := if v <? 0 then 45 :: print_u (- v) else print_u v.

Definition line (n : Z) (name : cstr) (v : cstr) : cstr :=
  str "RULE_" ++ print_d n ++ [95] ++ name ++ [61] ++ v ++ [10].
Definition print_range (x : Z * Z) : cstr := print_d x.1 ++ [45] ++ print_d x.2 ++ [32].

Definition print_rule (n : Z) (x : result) : option cstr :=
  let r := r_rule x in
  v4 ← inet_ntop4 (ipv4addr x);
  p4 ← inet_ntop4 (ipv4prefix r);
  p6 ← inet_ntop6 (ipv6prefix r);
  v6 ← inet_ntop6 (ipv6addr x);
  d6 ← inet_ntop6 (pd r);
  ports ← (if (0 <? psidlen r) && (0 <=? psid r)
           then l ← port_sets (offset r) (psidlen r) (psid r);
                Some (line n (str "PORTSETS") ([39] ++ concat (map print_range l) ++ [39]))
           else Some []);
  Some (
    line n (str "FMR") (print_d (Z.b2z (fmr r))) ++
    line n (str "EALEN") (print_d (ealen r)) ++
    line n (str "PSIDLEN") (print_d (psidlen r)) ++
    line n (str "OFFSET") (print_d (offset r)) ++
    line n (str "PREFIX4LEN") (print_d (prefix4len r)) ++
    line n (str "PREFIX6LEN") (print_d (prefix6len r)) ++
    line n (str "IPV4PREFIX") p4 ++
    line n (str "IPV6PREFIX") p6 ++
    (if 0 <=? pdlen r
     then line n (str "IPV6PD") d6 ++ line n (str "PD6LEN") (print_d (pdlen r)) ++
          line n (str "PD6IFACE") (r_iface x) ++ line n (str "IPV6ADDR") v6 ++
          str "RULE_BMR=" ++ print_d n ++ [10]
     else []) ++
    (if bool_decide (ipv4addr x = in_any) then []
     else line n (str "IPV4ADDR") v4 ++ line n (str "ADDR4LEN") (print_d (addr4len x))) ++
    ports ++
    (match dmr r with Some d => line n (str "DMR") d | None => [] end) ++
    (match br r with Some b => line n (str "BR") b | None => [] end)).

(** The loop over the rules: the output, the number of rules and the status. *)
Fixpoint rules (legacy : bool) (want : cstr) (dump : list iface_attr) (args : list cstr)
    (iface : cstr) (n status : Z) : option (cstr * Z * Z) :=
  match args with
  | [] => Some ([], n, status)
  | a :: args' =>
      r ← parse_rule (length a) a initial;
      '(x, iface) ← eval_rule legacy want dump r iface;
      match x with
      | None => rules legacy want dump args' iface n 1
      | Some x =>
          o ← print_rule (n + 1) x;
          '(out, n', st) ← rules legacy want dump args' iface (n + 1) status;
          Some (o ++ out, n', st)
      end
  end.

(** [main]: what is printed and the exit status; [argv] without the name of the
    program. *)
Definition main (legacy : bool) (dump : list iface_attr) (argv : list cstr) : option (cstr * Z) :=
  match argv with
  | want :: ((_ :: _) as args) =>
      '(out, n, st) ← rules legacy want dump args want 0 0;
      Some (out ++ str "RULE_COUNT=" ++ print_d n ++ [10], st)
  | _ => Some ([], 1)
  end.
End Map.
