(* ===== verification/MapProps.v ===== *)
(** * Theorems about MAP rules *)

From stdpp Require Import options.
From Stdlib Require Import Sorted.
From stdpp Require Import sets options.
From S2P Require Import Prelude CLib Bits Owip OwipMain MapCalc.

Lemma mem_read_0 m n : (n <= length m)%nat -> mem_read m 0 n = Some (take n m).
Proof. intros H. unfold mem_read. rewrite decide_True by lia. by rewrite drop_0. Qed.

Lemma mem_write_0 a x m : length a = length x -> mem_write (a ++ m) 0 x = Some (x ++ m).
Proof.
  intros H. unfold mem_write. rewrite decide_True by (rewrite length_app; lia).
  by rewrite take_0, <- H, Nat.add_0_l, drop_app_length.
Qed.

Lemma mem_write_1 a x m y : mem_write (a ++ x :: m) (length a) [y] = Some (a ++ y :: m).
Proof.
  unfold mem_write. rewrite decide_True by (rewrite length_app; simpl; lia).
  rewrite take_app_length. simpl. do 2 f_equal. rewrite <- drop_drop, drop_app_length. done.
Qed.

(** The mixed byte of [bmemcpy]. *)
Definition mix (r x y : Z) : Z :=
  let mask := u8 (Z.shiftl 1 (8 - r) - 1) in u8 (Z.lor (Z.land x mask) (Z.land (Z.lnot mask) y)).

Ltac eighth r H :=
  assert (r = 1 \/ r = 2 \/ r = 3 \/ r = 4 \/ r = 5 \/ r = 6 \/ r = 7) as H by lia;
  destruct H as [-> | [-> | [-> | [-> | [-> | [-> | -> ]]]]]].

Lemma mix_bits r x y :
  0 < r < 8 -> byte_bits (mix r x y) = take (Z.to_nat r) (byte_bits y) ++ drop (Z.to_nat r) (byte_bits x).
Proof.
  intros Hr. unfold mix, byte_bits, u8, wrap.
  eighth r H; rewrite !Z.mod_pow2_bits_low by lia; rewrite !Z.lor_spec, !Z.land_spec; simpl;
    by rewrite ?andb_true_r, ?andb_false_r, ?orb_false_r.
Qed.

Lemma mix_word r x y : is_word 8 (mix r x y).
Proof. apply wrap_range. lia. Qed.

Definition bytes := Forall (is_word 8).

(** A byte string cut at bit [k]. *)
Lemma cut_bytes (l : list Z) k :
  0 <= k <= 8 * Z.of_nat (length l) ->
  exists l1 l2, l = l1 ++ l2 /\ length l1 = Z.to_nat (k / 8) /\
    (0 < k mod 8 -> exists x l3, l2 = x :: l3).
Proof.
  intros Hk. exists (take (Z.to_nat (k / 8)) l), (drop (Z.to_nat (k / 8)) l).
  split; [by rewrite take_drop|]. split; [rewrite length_take; dlia|].
  intros Hr. destruct (drop (Z.to_nat (k / 8)) l) as [|x l3] eqn:E; [|by exists x, l3].
  apply (f_equal length) in E. rewrite length_drop in E. simpl in E. dlia.
Qed.

(** ** [bmemcpy] replaces the first bits *)
Lemma bmemcpy_bits a b k :
  bytes a -> bytes b -> 0 <= k <= 8 * Z.of_nat (length a) -> k <= 8 * Z.of_nat (length b) ->
  exists c, bmemcpy a b k = Some c /\ length c = length a /\ bytes c /\
    bits c = take (Z.to_nat k) (bits b) ++ drop (Z.to_nat k) (bits a).
Proof.
  intros Ha Hb Hka Hkb.
  destruct (cut_bytes a k) as (a1 & a2 & -> & La & Xa); [lia|].
  destruct (cut_bytes b k) as (b1 & b2 & -> & Lb & Xb); [lia|].
  apply Forall_app in Ha as [Ha1 Ha2], Hb as [Hb1 Hb2].
  assert (length a1 = length b1) as Hab by lia.
  assert (Z.to_nat k = 8 * length b1 + Z.to_nat (k mod 8))%nat as Hk by dlia.
  unfold bmemcpy. rewrite (proj2 (Z.ltb_ge k 0)) by lia. rewrite <- Lb.
  rewrite mem_read_0 by (rewrite length_app; lia). rewrite take_app_length. cbn [mbind option_bind].
  rewrite mem_write_0 by done. cbn [mbind option_bind]. rewrite !bits_app, Hk.
  rewrite take_app_add', drop_app_add' by (rewrite length_bits; lia).
  destruct (Z.ltb_spec 0 (k mod 8)) as [Hr|Hr].
  - destruct (Xa Hr) as (x & a3 & ->). destruct (Xb Hr) as (y & b3 & ->).
    rewrite !list_lookup_middle by done. cbn [mbind option_bind]. fold (mix (k mod 8) x y).
    rewrite mem_write_1. eexists. split; [reflexivity|].
    rewrite !length_app. split; [simpl; lia|]. apply Forall_cons in Ha2 as [_ Ha3].
    split; [apply Forall_app; split; [done|]; apply Forall_cons; split; [apply mix_word|done]|].
    rewrite bits_app. cbn [bits]. assert (0 < k mod 8 < 8) as Hr' by dlia.
    rewrite mix_bits by done. rewrite <- !app_assoc. f_equal.
    assert (Z.to_nat (k mod 8) <= 8)%nat by lia.
    rewrite take_app_le, drop_app_le by done. done.
  - eexists. split; [reflexivity|]. rewrite !length_app. split; [lia|].
    split; [by apply Forall_app|]. rewrite bits_app.
    replace (Z.to_nat (k mod 8)) with 0%nat by dlia. rewrite take_0, drop_0, app_nil_r. done.
Qed.

(** ** [bmemcmp] compares the first bits *)

Lemma memcmp_eq a b : length a = length b -> memcmp a b = 0 <-> a = b.
Proof.
  revert b. induction a as [|x a IH]; intros [|y b]; simpl; try done.
  intros H. injection H as H. destruct (Z.eqb_spec x y) as [->|Hne].
  - rewrite IH by done. split; [by intros ->|by intros [= ->]].
  - split; [lia|by intros [= ]].
Qed.

Lemma shiftr_byte r x :
  is_word 8 x -> 0 <= r <= 8 -> Z.shiftr x (8 - r) = bval (take (Z.to_nat r) (byte_bits x)).
Proof.
  intros Hx Hr. rewrite <- (bval_byte x Hx) at 1.
  rewrite <- (take_drop (Z.to_nat r) (byte_bits x)) at 1. rewrite bval_app, Z.shiftr_div_pow2 by lia.
  assert (length (drop (Z.to_nat r) (byte_bits x)) = Z.to_nat (8 - r)) as Hl.
  { rewrite length_drop. simpl. lia. }
  pose proof (bval_range (drop (Z.to_nat r) (byte_bits x))) as Hb. rewrite Hl in *.
  rewrite Z2Nat.id in * by lia. rewrite Z.div_add_l, (Z.div_small (bval (drop _ _))) by lia. lia.
Qed.

Lemma bmemcmp_bits a b k :
  bytes a -> bytes b -> 0 <= k <= 8 * Z.of_nat (length a) -> k <= 8 * Z.of_nat (length b) ->
  exists c, bmemcmp a b k = Some c /\
    (c = 0 <-> take (Z.to_nat k) (bits a) = take (Z.to_nat k) (bits b)).
Proof.
  intros Ha Hb Hka Hkb.
  destruct (cut_bytes a k) as (a1 & a2 & -> & La & Xa); [lia|].
  destruct (cut_bytes b k) as (b1 & b2 & -> & Lb & Xb); [lia|].
  apply Forall_app in Ha as [Ha1 Ha2], Hb as [Hb1 Hb2].
  assert (Z.to_nat k = 8 * Z.to_nat (k / 8) + Z.to_nat (k mod 8))%nat as Hk by dlia.
  unfold bmemcmp. rewrite (proj2 (Z.ltb_ge k 0)) by lia.
  rewrite !mem_read_0 by (rewrite length_app; lia). cbn [mbind option_bind].
  rewrite !take_app_length' by done. rewrite !bits_app, Hk.
  rewrite !take_app_add' by (rewrite length_bits; lia).
  assert (forall t t', bits a1 ++ t = bits b1 ++ t' <-> a1 = b1 /\ t = t') as Heq.
  { intros t t'. split; [|by intros [-> ->]]. intros E. apply app_inj_1 in E as [E ->]; [|by rewrite !length_bits, La, Lb].
    split; [|done]. apply bits_inj; congruence. }
  setoid_rewrite Heq. pose proof (memcmp_eq a1 b1 ltac:(congruence)) as Hm.
  destruct (Z.eqb_spec (memcmp a1 b1) 0) as [E|E]; cbn [andb].
  2: { eexists. split; [reflexivity|]. tauto. }
  destruct (Z.ltb_spec 0 (k mod 8)) as [Hr|Hr].
  - destruct (Xa Hr) as (x & a3 & ->). destruct (Xb Hr) as (y & b3 & ->).
    rewrite !list_lookup_middle by done. cbn [mbind option_bind]. eexists. split; [reflexivity|].
    apply Forall_cons in Ha2 as [Hx _], Hb2 as [Hy _].
    assert (0 <= k mod 8 <= 8) by dlia. rewrite !shiftr_byte by done. cbn [bits].
    rewrite !take_app_le by (simpl; lia).
    split; [intros Hd; split; [tauto|]|intros [_ ->]; lia].
    apply bval_inj; [by rewrite !length_take|lia].
  - eexists. split; [reflexivity|]. replace (Z.to_nat (k mod 8)) with 0%nat by dlia. rewrite !take_0. tauto.
Qed.

(** ** [bmemcpys64] extracts bits *)

Lemma bits_enc_u64 z : bits (enc BE 8 (u64 z)) = bits (enc BE 8 z).
Proof.
  apply bits_enc; [slen|]. rewrite bval_bits by apply enc_range. rewrite dec_enc.
  unfold u64, wrap. by rewrite Z.mod_mod by lia.
Qed.

Lemma bits_zeros n : bits (replicate n 0) = replicate (8 * n) false.
Proof.
  induction n as [|n IH]; [done|]. replace (8 * S n)%nat with (8 + 8 * n)%nat by lia.
  cbn [replicate bits]. rewrite IH. done.
Qed.

Lemma bytes_zeros n : bytes (replicate n 0).
Proof. by apply Forall_replicate. Qed.

Lemma bmemcpys64_bits a b from n :
  bytes a -> bytes b -> 0 <= from -> 0 <= n <= 56 -> n <= 8 * Z.of_nat (length a) ->
  (from + n) / 8 < Z.of_nat (length b) ->
  exists c, bmemcpys64 a b from n = Some c /\ length c = length a /\ bytes c /\
    bits c = take (Z.to_nat n) (drop (Z.to_nat from) (bits b)) ++ drop (Z.to_nat n) (bits a).
Proof.
  intros Ha Hb Hf Hn Hna Hin. unfold bmemcpys64.
  rewrite (proj2 (Z.ltb_ge from 0)), (proj2 (Z.ltb_ge n 0)) by lia. cbn [orb].
  set (fb := Z.to_nat (from / 8)). set (len := (Z.to_nat ((from + n) / 8) - fb + 1)%nat).
  assert (fb + len <= length b /\ 1 <= len <= 8)%nat as [Hlb Hl8] by (unfold len, fb; dlia).
  assert (Z.to_nat from = 8 * fb + Z.to_nat (from mod 8))%nat as Hfrom by (unfold fb; dlia).
  assert (Z.to_nat (from mod 8) + Z.to_nat n <= 8 * len)%nat as Hroom by (unfold len, fb; dlia).
  unfold mem_read. rewrite decide_True by lia. cbn [mbind option_bind].
  set (x := take len (drop fb b)). assert (length x = len) as Hx.
  { unfold x. rewrite length_take, length_drop. lia. }
  replace (replicate 8 0) with (replicate len 0 ++ replicate (8 - len) 0)
    by (rewrite <- replicate_add; f_equal; lia).
  rewrite mem_write_0 by (rewrite length_replicate; lia). cbn [mbind option_bind].
  assert (bytes x) as Bx by (by apply Forall_take, Forall_drop).
  destruct (bmemcpy_bits a (enc BE 8 (u64 (Z.shiftl (dec BE (x ++ replicate (8 - len) 0)) (from mod 8)))) n)
    as (c & Hc & Lc & Bc & Hbits); [done|apply enc_range|lia|rewrite length_enc; lia|].
  exists c. split_and!; [done..|]. rewrite Hbits. f_equal.
  rewrite bits_enc_u64. replace (from mod 8) with (Z.of_nat (Z.to_nat (from mod 8))) by dlia.
  rewrite bits_shl.
  2: { rewrite length_app, length_replicate. lia. }
  2: { apply Forall_app. split; [done|apply bytes_zeros]. }
  2: { dlia. }
  rewrite bits_app, drop_app_le by (rewrite length_bits; lia).
  rewrite <- app_assoc, take_app_le by (rewrite length_drop, length_bits; lia).
  unfold x. rewrite bits_take, bits_drop, Hfrom, <- drop_drop.
  rewrite skipn_firstn_comm, take_take. f_equal. lia.
Qed.

(** ** Rules and ports *)

(** ** Port sets *)

(** The bits of a port: [offset] bits, the PSID, the rest. *)
Definition port_psid (offset psidlen q : Z) : Z := (q / 2 ^ (16 - offset - psidlen)) mod 2 ^ psidlen.
Definition port_group (offset q : Z) : Z := q / 2 ^ (16 - offset).

Definition in_ranges (l : list (Z * Z)) (q : Z) : Prop := exists s e, (s, e) ∈ l /\ s <= q <= e.

Section Ports.
Context (o l P : Z) (Ho : 0 <= o) (Hl : 0 < l) (Hol : o + l <= 16) (HP : 0 <= P < 2 ^ l).
#[local] Notation m := (16 - o - l).

Lemma pow_split : 2 ^ (16 - o) = 2 ^ l * 2 ^ m.
Proof using Hl Hol. rewrite <- Z.pow_add_r by lia. f_equal. lia. Qed.

Lemma pow_pos n : 0 <= n -> 0 < 2 ^ n.
Proof. intros. by apply Z.pow_pos_nonneg. Qed.

(** The first port of the [k]-th range. *)
Definition base (k : Z) : Z := k * 2 ^ (16 - o) + P * 2 ^ m.

Lemma port_start k :
  0 <= k -> Z.lor (Z.shiftl k (16 - o)) (Z.shiftr (Z.shiftl P (16 - l)) o) = base k.
Proof using Ho Hl Hol HP.
  intros Hk. rewrite Z.shiftr_shiftl_l by lia. replace (16 - l - o) with m by lia.
  rewrite Z.lor_comm, (Z.shiftl_mul_pow2 P) by lia. rewrite lor_disjoint_add; [unfold base; lia|lia|].
  rewrite pow_split. pose proof (pow_pos m ltac:(lia)). nia.
Qed.

Lemma base_next k : base k + 2 ^ m <= base (k + 1).
Proof using Hl Ho Hol P l o.
  unfold base. rewrite pow_split. pose proof (pow_pos m ltac:(lia)).
  pose proof (Z.pow_le_mono_r 2 1 l ltac:(lia) ltac:(lia)). nia.
Qed.

Lemma base_nonneg k : 0 <= k -> 0 <= base k.
Proof using Hol Ho Hl HP.
  intros. unfold base. pose proof (pow_pos m ltac:(lia)). pose proof (pow_pos (16 - o) ltac:(lia)). nia.
Qed.

Lemma port_range_eq k :
  0 <= k -> port_range o l (Z.shiftl P (16 - l)) k =
  Some (if base k =? 0 then 1 else base k, base k + 2 ^ m - 1).
Proof using Ho Hl Hol HP.
  intros Hk. unfold port_range. rewrite (proj2 (Z.ltb_ge m 0)) by lia.
  rewrite port_start by done. by rewrite Z.shiftl_1_l.
Qed.

Definition ordered : list (Z * Z) -> Prop := StronglySorted (fun x y => x.2 < y.1).

Lemma in_ranges_cons x L q : in_ranges (x :: L) q <-> x.1 <= q <= x.2 \/ in_ranges L q.
Proof.
  split.
  - intros (s & e & [<- |H]%elem_of_cons & Hq); [by left|]. right. by exists s, e.
  - intros [H|(s & e & H & Hq)]; [|exists s, e; split; [by right|done]].
    exists x.1, x.2. split; [|done]. destruct x. left.
Qed.

Lemma port_loop_ok fuel k :
  0 <= k -> 2 ^ o - k <= Z.of_nat fuel ->
  exists L, port_loop fuel k o l (Z.shiftl P (16 - l)) = Some L /\ ordered L /\
    Forall (fun x => base k <= x.1) L /\
    forall q, in_ranges L q <-> 0 < q /\ exists k', k <= k' < 2 ^ o /\ base k' <= q < base k' + 2 ^ m.
Proof using Ho Hl Hol HP.
  revert k. induction fuel as [|f IH]; intros k Hk Hf; simpl; rewrite Z.shiftl_1_l;
    destruct (Z.ltb_spec k (2 ^ o)) as [Hlt|Hge]; try lia.
  1,3: exists []; (split_and!; [done|constructor|constructor|]); intros q;
    (split; [intros (? & ? & H & _); by apply not_elem_of_nil in H|intros (_ & k' & ? & _); lia]).
  destruct (IH (k + 1)) as (L & HL & Hs & Hb & Hq); [lia..|].
  rewrite port_range_eq by done. cbn [mbind option_bind]. rewrite HL. cbn [mbind option_bind].
  pose proof (base_next k) as Hn. pose proof (base_nonneg k Hk) as H0. pose proof (pow_pos m ltac:(lia)) as Hm.
  assert (forall q, (0 < q /\ exists k', k <= k' < 2 ^ o /\ base k' <= q < base k' + 2 ^ m) <->
    0 < q /\ base k <= q < base k + 2 ^ m \/
    0 < q /\ exists k', k + 1 <= k' < 2 ^ o /\ base k' <= q < base k' + 2 ^ m) as Hex.
  { intros q. split.
    - intros (Hq0 & k' & Hk' & Hb'). destruct (decide (k' = k)) as [->|]; [by left|].
      right. split; [done|]. exists k'. split; [lia|done].
    - intros [[? ?]|(? & k' & ? & ?)]; (split; [done|]); [exists k|exists k']; (split; [lia|done]). }
  assert (Forall (fun x => base k <= x.1) L) as Hb'.
  { eapply Forall_impl; [exact Hb|]. simpl. intros; lia. }
  eexists. split; [reflexivity|]. destruct (Z.leb_spec (if base k =? 0 then 1 else base k) (base k + 2 ^ m - 1)).
  - split_and!.
    + constructor; [done|]. eapply Forall_impl; [exact Hb|]. simpl. intros; lia.
    + constructor; [simpl; destruct (Z.eqb_spec (base k) 0); lia|done].
    + intros q. rewrite in_ranges_cons, Hq, Hex. simpl. destruct (Z.eqb_spec (base k) 0); intuition lia.
  - split_and!; [done..|]. intros q. rewrite Hq, Hex.
    destruct (Z.eqb_spec (base k) 0); [|lia]. split; [by right|]. intros [?|?]; [lia|done].
Qed.

(** Which ports a PSID owns. *)
Lemma port_fields q k' :
  base k' <= q < base k' + 2 ^ m <-> port_psid o l q = P /\ port_group o q = k'.
Proof using Ho Hl Hol HP.
  unfold port_psid, port_group, base. rewrite pow_split.
  pose proof (pow_pos m ltac:(lia)) as Hm. pose proof (pow_pos l ltac:(lia)) as HX.
  set (X := 2 ^ l) in *. set (Y := 2 ^ m) in *. rewrite (Z.mul_comm X Y), <- Z.div_div by lia.
  pose proof (Z.div_mod q Y ltac:(lia)) as D1. pose proof (Z.mod_pos_bound q Y Hm) as M1.
  pose proof (Z.div_mod (q / Y) X ltac:(lia)) as D2. pose proof (Z.mod_pos_bound (q / Y) X HX) as M2.
  split.
  - intros Hq. assert (q / Y = k' * X + P) as E.
    { symmetry. apply Z.div_unique with (r := q - (k' * X + P) * Y); lia. }
    rewrite E. split.
    + rewrite Z.add_comm, Z.mod_add by lia. by apply Z.mod_small.
    + rewrite Z.div_add_l by lia. rewrite (Z.div_small P X) by lia. lia.
  - intros [H1 H2]. nia.
Qed.
End Ports.

(** C30: The printed port sets are exactly the ports of the router: with an
    offset of [o] bits and a PSID of [l] bits that fit into 16 bits, port [q] is
    in one of the ranges if and only if it is a port other than 0, its PSID
    field is the PSID of the router, and (when there are offset bits) they are
    not all zero.  The ranges are ascending and disjoint. *)
Theorem port_sets_correct o l P
    (Ho : 0 <= o) (Hl : 0 < l) (Hol : o + l <= 16) (HP : 0 <= P < 2 ^ l) :
  exists L, port_sets o l (Z.shiftl P (16 - l)) = Some L /\ ordered L /\
    forall q, in_ranges L q <->
      0 < q < 65536 /\ port_psid o l q = P /\ (o <> 0 -> port_group o q <> 0).
Proof.
  unfold port_sets. set (k0 := if o =? 0 then 0 else 1).
  assert (0 <= k0 <= 1 /\ (k0 = 0 <-> o = 0)) as [Hk0 Hk0'] by (unfold k0; destruct (Z.eqb_spec o 0); lia).
  destruct (port_loop_ok o l P Ho Hl Hol HP (Z.to_nat (Z.shiftl 1 o)) k0) as (L & HL & Hs & _ & Hq).
  { lia. }
  { rewrite Z.shiftl_1_l, Z2Nat.id by (apply Z.lt_le_incl, pow_pos; lia). lia. }
  exists L. split_and!; [done..|]. intros q. rewrite Hq.
  pose proof (pow_pos (16 - o) ltac:(lia)) as Hp.
  assert (2 ^ o * 2 ^ (16 - o) = 65536) as H16.
  { rewrite <- Z.pow_add_r by lia. replace (o + (16 - o)) with 16 by lia. done. }
  assert (0 < q -> 0 <= port_group o q /\ (port_group o q < 2 ^ o <-> q < 65536)) as Hg.
  { intros H0. unfold port_group. split; [by apply Z.div_pos; lia|]. rewrite <- H16, Z.mul_comm.
    split; [intros H|by apply Z.div_lt_upper_bound].
    pose proof (Z.mod_pos_bound q (2 ^ (16 - o)) Hp). pose proof (Z.div_mod q (2 ^ (16 - o)) ltac:(lia)). nia. }
  split.
  - intros (H0 & k' & Hk' & Hb). apply port_fields in Hb as [H1 H2]; [|done..].
    destruct (Hg H0) as [_ Hlt]. split_and!; [done|apply Hlt; lia|done|]. intros Hn. lia.
  - intros ([H0 H65] & H1 & H2). split; [done|]. exists (port_group o q). destruct (Hg H0) as [Hg0 Hlt].
    split; [split; [|by apply Hlt]|by apply port_fields].
    destruct (decide (o = 0)) as [->|Hn]; [lia|]. specialize (H2 Hn). lia.
Qed.

Lemma port_sets_correct_witness :
  exists L, port_sets 6 8 (Z.shiftl 52 8) = Some L /\ in_ranges L 1232 /\ ~ in_ranges L 1236.
Proof.
  destruct (port_sets_correct 6 8 52) as (L & HL & _ & Hq); [lia..|].
  exists L. split_and!; [exact HL|apply Hq; vm_compute; by split_and!|].
  rewrite Hq. vm_compute. intros (_ & H & _). discriminate H.
Defined.

(** ** The addresses of a rule *)

(** [n] bits of an address from bit [from]. *)
Definition field (a : list Z) (from n : Z) : list bool :=
  take (Z.to_nat n) (drop (Z.to_nat from) (bits a)).

(** A rule of MAP whose EA bits come from the delegated prefix. *)
Record map_rule (r : rule) : Prop := {
  mr_v4 : length (ipv4prefix r) = 4%nat /\ bytes (ipv4prefix r);
  mr_pd : length (pd r) = 16%nat /\ bytes (pd r);
  mr_prefix4len : 0 <= prefix4len r <= 32;
  mr_prefix6len : 0 <= prefix6len r;
  mr_pdlen : 0 <= pdlen r <= 128;
  mr_psidlen : 0 <= psidlen r <= 16;
  mr_psid : psid r < 0;
  mr_ealen : psidlen r <= ealen r;
  mr_suffix : ealen r - psidlen r <= 32 - prefix4len r;
  mr_end : prefix6len r + ealen r < 128 }.

Definition rule_psid (r : rule) : Z :=
  bval (field (pd r) (prefix6len r + ealen r - psidlen r) (psidlen r)).

(** The IPv4 address: the rule's prefix, the first EA bits, zeros. *)
Definition rule_v4 (r : rule) : list bool :=
  take (Z.to_nat (prefix4len r)) (bits (ipv4prefix r)) ++
  field (pd r) (prefix6len r) (ealen r - psidlen r) ++
  replicate (Z.to_nat (32 - prefix4len r - (ealen r - psidlen r))) false.

(** The interface identifier: the IPv4 address and the PSID in 16 bits; in
    legacy mode one byte earlier. *)
Definition rule_iid (legacy : bool) (v4 : list Z) (p : Z) : list Z :=
  if legacy then replicate 9 0 ++ v4 ++ enc BE 2 p ++ [0] else replicate 10 0 ++ v4 ++ enc BE 2 p.

Lemma length_field a from n :
  0 <= from -> 0 <= n -> from + n <= 8 * Z.of_nat (length a) -> length (field a from n) = Z.to_nat n.
Proof. intros. unfold field. rewrite length_take, length_drop, length_bits. lia. Qed.

Section Rule.
Context {T : Target} (shr_over : Z -> Z).
Context (r : rule) (Hr : map_rule r).

Lemma field_length from n :
  0 <= from -> 0 <= n -> from + n <= 128 -> length (field (pd r) from n) = Z.to_nat n.
Proof using Hr. intros. apply length_field; [done..|]. destruct (mr_pd r Hr) as [-> _]. lia. Qed.

Lemma calc_psid_ok :
  calc_psid r = Some (set_psid (Z.shiftl (rule_psid r) (16 - psidlen r)) r, enc BE 2 (rule_psid r)).
Proof using Hr r shr_over.
  destruct Hr as [_ [Lpd Bpd] ? ? [Hpd _] Hl Hp He ? ?]. unfold calc_psid.
  rewrite (proj2 (Z.ltb_lt _ _) Hp), (proj2 (Z.leb_le 0 (psidlen r))), (proj2 (Z.leb_le 0 (pdlen r))) by lia.
  cbn [andb].
  destruct (bmemcpys64_bits (replicate 2 0) (pd r) (prefix6len r + ealen r - psidlen r) (psidlen r))
    as (c & Hc & Lc & Bc & Hbits); [apply bytes_zeros|done|lia|lia|simpl; lia|dlia|].
  rewrite Hc. cbn [mbind option_bind]. rewrite bits_zeros in Hbits. fold (field (pd r) (prefix6len r + ealen r - psidlen r) (psidlen r)) in Hbits.
  assert (dec BE c = Z.shiftl (rule_psid r) (16 - psidlen r)) as Hd.
  { rewrite <- bval_bits, Hbits, bval_app by done.
    rewrite drop_replicate, bval_false, length_replicate, Z.shiftl_mul_pow2 by lia.
    unfold rule_psid. rewrite Z.add_0_r. do 2 f_equal. lia. }
  destruct (Z.ltb_spec 0 (psidlen r)) as [Hl0|Hl0].
  - rewrite Hd, Z.shiftr_shiftl_l, Z.sub_diag, Z.shiftl_0_r by lia. done.
  - assert (psidlen r = 0) as E by lia. assert (rule_psid r = 0) as E'.
    { unfold rule_psid, field. by rewrite E. }
    rewrite Hd, E', Z.shiftl_0_l. do 2 f_equal.
    rewrite <- (enc_dec BE c), Hd, E', Z.shiftl_0_l by done. by rewrite Lc.
Qed.

Lemma calc_ipv4_ok :
  exists v4, calc_ipv4 shr_over r =
      Some (v4, if prefix4len r + ealen r <? 32 then prefix4len r + ealen r else 32) /\
    length v4 = 4%nat /\ bytes v4 /\ bits v4 = rule_v4 r.
Proof using Hr.
  pose proof field_length as Hfl.
  destruct Hr as [[L4 B4] [Lpd Bpd] H4 H6 [Hpd _] Hl Hp He Hs Hend]. unfold calc_ipv4.
  rewrite (proj2 (Z.leb_le 0 (pdlen r))) by lia. cbn [orb].
  set (n := ealen r - psidlen r) in *.
  destruct (bmemcpys64_bits in_any (pd r) (prefix6len r) n)
    as (c & Hc & Lc & Bc & Hbits); [apply bytes_zeros|done|lia|lia|simpl; lia|dlia|].
  rewrite Hc. cbn [mbind option_bind]. unfold in_any in Hbits. rewrite bits_zeros in Hbits.
  rewrite drop_replicate in Hbits. fold (field (pd r) (prefix6len r) n) in Hbits.
  assert (length (field (pd r) (prefix6len r) n) = Z.to_nat n) as Lf by (apply Hfl; lia).
  destruct (bmemcpy_bits (enc BE 4 (shr32 shr_over (dec BE c) (prefix4len r))) (ipv4prefix r) (prefix4len r))
    as (v4 & Hv & Lv & Bv & Hvb); [apply enc_range|done|rewrite length_enc; lia|lia|].
  rewrite Hv. cbn [mbind option_bind]. exists v4. rewrite length_enc in Lv. split_and!; [done..|].
  rewrite Hvb. unfold rule_v4. f_equal. fold n. unfold shr32.
  destruct (Z.ltb_spec (prefix4len r) 32) as [Hlt|Hge].
  - replace (prefix4len r) with (Z.of_nat (Z.to_nat (prefix4len r))) at 2 by lia.
    rewrite bits_shr by (done || lia). rewrite drop_app_length' by (by rewrite length_replicate).
    rewrite Hbits, take_app_ge by lia. f_equal. rewrite take_replicate. f_equal. lia.
  - assert (n = 0) as -> by lia. replace (Z.to_nat (prefix4len r)) with 32%nat by lia.
    rewrite drop_ge by (rewrite length_bits, length_enc; lia).
    replace (Z.to_nat (32 - prefix4len r - 0)) with 0%nat by lia. done.
Qed.

Lemma calc_ipv6_ok legacy v4 p :
  length v4 = 4%nat -> bytes v4 ->
  exists v6, calc_ipv6 legacy r v4 (enc BE 2 p) = Some v6 /\ length v6 = 16%nat /\ bytes v6 /\
    bits v6 = take (Z.to_nat (pdlen r)) (bits (pd r)) ++
              drop (Z.to_nat (pdlen r)) (bits (rule_iid legacy v4 p)).
Proof using Hr.
  intros L4 B4. destruct Hr as [_ [Lpd Bpd] _ _ Hpd _ _ _ _ _]. unfold calc_ipv6.
  rewrite (proj2 (Z.leb_le 0 (pdlen r))) by lia.
  assert (bytes (rule_iid legacy v4 p) /\ length (rule_iid legacy v4 p) = 16%nat) as [Bi Li].
  { unfold rule_iid, bytes. pose proof (enc_range BE 2 p).
    destruct legacy; rewrite ?length_app, ?length_enc, ?length_replicate, ?L4;
      (split; [|done]); rewrite !Forall_app; split_and!; try done;
      first [apply (bytes_zeros 9)|apply (bytes_zeros 10)|apply (bytes_zeros 1)]. }
  destruct v4 as [|a [|b [|c [|d [|]]]]]; try done.
  destruct (enc BE 2 p) as [|x [|y [|]]] eqn:E; try (apply (f_equal length) in E; by rewrite length_enc in E).
  destruct (bmemcpy_bits (rule_iid legacy [a; b; c; d] p) (pd r) (pdlen r))
    as (v6 & Hv & Lv & Bv & Hb); [done|done|lia|lia|].
  exists v6. split_and!; [|lia|done..]. rewrite <- Hv.
  unfold rule_iid. rewrite E. by destruct legacy.
Qed.
End Rule.

(** C11: A MAP rule with a delegated prefix gives the router the IPv4 address
    made of the rule's IPv4 prefix and the leading EA bits of the delegated
    prefix, the PSID made of the remaining EA bits, and the IPv6 address whose
    first bits are the delegated prefix and whose interface identifier holds
    the IPv4 address and the PSID. *)
Theorem map_rule_correct {T : Target} shr_over legacy want dump r iface
    (Hpd : 0 <= pdlen r)
    (Hr : map_rule (lengths (defaults legacy r))) :
  let r' := lengths (defaults legacy r) in
  exists x, eval_rule shr_over legacy want dump r iface = Some (Some x, iface) /\
    r_rule x = set_psid (Z.shiftl (rule_psid r') (16 - psidlen r')) r' /\
    0 <= rule_psid r' < 2 ^ psidlen r' /\
    length (ipv4addr x) = 4%nat /\ bits (ipv4addr x) = rule_v4 r' /\
    length (ipv6addr x) = 16%nat /\
    bits (ipv6addr x) = take (Z.to_nat (pdlen r')) (bits (pd r')) ++
      drop (Z.to_nat (pdlen r')) (bits (rule_iid legacy (ipv4addr x) (rule_psid r'))).
Proof.
  intros r'. pose proof Hr as [_ _ H4 H6 Hpd' Hl _ He _ Hend].
  assert (pdlen (defaults legacy r) = pdlen r) as Ed.
  { unfold defaults. by repeat (case_match; simpl). }
  unfold eval_rule. rewrite Ed, (proj2 (Z.ltb_ge (pdlen r) 0)) by lia. cbn [mbind option_bind]. fold r'.
  assert (incomplete r' = false) as ->.
  { unfold incomplete. fold r' in H4, H6, Hl, He, Hend. by b2p; lia. }
  destruct (calc_ipv4_ok shr_over r' Hr) as (v4 & Hv4 & L4 & B4 & Hb4).
  destruct (calc_ipv6_ok r' Hr legacy v4 (rule_psid r') L4 B4) as (v6 & Hv6 & L6 & B6 & Hb6).
  rewrite calc_psid_ok by done. cbn [mbind option_bind].
  replace (calc_ipv4 shr_over (set_psid _ r')) with (calc_ipv4 shr_over r') by done.
  rewrite Hv4. cbn [mbind option_bind].
  replace (pdlen (set_psid _ r')) with (pdlen r') by done. fold r' in Hpd'.
  rewrite (proj2 (Z.ltb_ge (pdlen r') 0)) by lia. cbn [andb].
  replace (calc_ipv6 legacy (set_psid _ r')) with (calc_ipv6 legacy r') by done.
  rewrite Hv6. cbn [mbind option_bind]. eexists. split; [reflexivity|]. cbn [r_rule ipv4addr ipv6addr].
  split_and!; try done; try apply bval_range.
  fold r' in Hl, He, H6, Hend. eapply Z.lt_le_trans; [apply bval_range|].
  rewrite field_length by (done || lia). by rewrite Z2Nat.id by lia.
Qed.

(** ** Sharing an address *)

Lemma lengths_set_pd legacy p r :
  lengths (defaults legacy (set_pd p r)) = set_pd p (lengths (defaults legacy r)).
Proof.
  assert (defaults legacy (set_pd p r) = set_pd p (defaults legacy r)) as ->.
  { destruct r as [lw ? ? ? ? ? ? ? ? o l ? ? ?]. unfold defaults. simpl.
    destruct (o <? 0); simpl; destruct lw; simpl; by destruct (l <? 0). }
  generalize (defaults legacy r) as x. intros [? ? e ? ? n ? ? ? ? l ? ? ?]. unfold lengths. simpl.
  destruct ((e <? 0) && (0 <=? n)); simpl; by destruct (l <=? 0).
Qed.

(** The EA bits: the rest of the IPv4 address, then the PSID. *)
Lemma field_app a from n k :
  0 <= from -> 0 <= n -> 0 <= k -> field a from (n + k) = field a from n ++ field a (from + n) k.
Proof.
  intros. unfold field. rewrite !Z2Nat.inj_add by done.
  rewrite <- drop_drop. generalize (drop (Z.to_nat from) (bits a)) as t. intros t.
  rewrite <- (take_drop (Z.to_nat n) t) at 1.
  destruct (decide (Z.to_nat n <= length t)%nat).
  - rewrite take_app_add' by (rewrite length_take; lia). done.
  - rewrite (take_ge t) by lia. rewrite drop_ge by lia. rewrite app_nil_r, !take_nil, !take_ge by lia.
    by rewrite app_nil_r.
Qed.

Section Sharing.
Context {T : Target} (shr_over : Z -> Z) (legacy : bool) (r : rule).
#[local] Notation r' := (lengths (defaults legacy r)).
Context (Ho : 0 <= offset r') (Hl : 0 < psidlen r') (Hol : offset r' + psidlen r' <= 16).

(** The results for the delegated prefix [p] and the ports that are printed. *)
Lemma delegated want dump iface p :
  0 <= pdlen r -> map_rule (set_pd p r') ->
  exists x L, eval_rule shr_over legacy want dump (set_pd p r) iface = Some (Some x, iface) /\
    port_sets (offset (r_rule x)) (psidlen (r_rule x)) (psid (r_rule x)) = Some L /\
    bits (ipv4addr x) = rule_v4 (set_pd p r') /\
    forall q, in_ranges L q -> port_psid (offset r') (psidlen r') q = rule_psid (set_pd p r').
Proof using Ho Hl Hol.
  intros Hpd Hr. rewrite <- lengths_set_pd in Hr.
  destruct (map_rule_correct shr_over legacy want dump (set_pd p r) iface Hpd Hr)
    as (x & Hx & Hrule & HP & _ & H4 & _). rewrite lengths_set_pd in Hrule, HP, H4.
  destruct (port_sets_correct (offset r') (psidlen r') (rule_psid (set_pd p r'))) as (L & HL & _ & Hq);
    [done..|].
  exists x, L. rewrite Hrule. split_and!; [done..|]. intros q Hin. by apply Hq in Hin as (_ & ? & _).
Qed.
End Sharing.

(** C8: Two routers of one MAP domain never share a port: with the same rule,
    whose EA bits complete the IPv4 address and hold a PSID, two delegated
    prefixes with different EA bits give different IPv4 addresses or port sets
    without a common port. *)
Theorem map_no_sharing {T : Target} shr_over legacy want1 want2 dump1 dump2 r iface p1 p2
    (Hpd : 0 <= pdlen r)
    (H1 : map_rule (set_pd p1 (lengths (defaults legacy r))))
    (H2 : map_rule (set_pd p2 (lengths (defaults legacy r)))) :
  let r' := lengths (defaults legacy r) in
  0 <= offset r' -> 0 < psidlen r' -> offset r' + psidlen r' <= 16 ->
  ealen r' = 32 - prefix4len r' + psidlen r' ->
  field p1 (prefix6len r') (ealen r') <> field p2 (prefix6len r') (ealen r') ->
  exists x1 x2 L1 L2,
    eval_rule shr_over legacy want1 dump1 (set_pd p1 r) iface = Some (Some x1, iface) /\
    eval_rule shr_over legacy want2 dump2 (set_pd p2 r) iface = Some (Some x2, iface) /\
    port_sets (offset (r_rule x1)) (psidlen (r_rule x1)) (psid (r_rule x1)) = Some L1 /\
    port_sets (offset (r_rule x2)) (psidlen (r_rule x2)) (psid (r_rule x2)) = Some L2 /\
    (ipv4addr x1 = ipv4addr x2 -> forall q, ~ (in_ranges L1 q /\ in_ranges L2 q)).
Proof.
  intros r' Ho Hl Hol Hea Hne.
  destruct (delegated shr_over legacy r Ho Hl Hol want1 dump1 iface p1 Hpd H1) as (x1 & L1 & E1 & P1 & V1 & Q1).
  destruct (delegated shr_over legacy r Ho Hl Hol want2 dump2 iface p2 Hpd H2) as (x2 & L2 & E2 & P2 & V2 & Q2).
  exists x1, x2, L1, L2. split_and!; [done..|]. intros Hv q [Hq1 Hq2]. apply Hne.
  apply Q1 in Hq1. apply Q2 in Hq2. rewrite Hq1 in Hq2. rewrite Hv, V2 in V1.
  pose proof (field_length _ H1) as F1. pose proof (field_length _ H2) as F2.
  destruct H1 as [[L4 _] _ H4 H6 _ _ _ He Hs Hend]. unfold rule_v4, rule_psid in *.
  cbn [set_pd pd ipv4prefix prefix4len prefix6len ealen psidlen] in *.
  unfold r' in *. clear r'. set (r' := lengths (defaults legacy r)) in *.
  apply app_inv_head in V1. apply app_inj_1 in V1 as [V1 _]; [|rewrite F1, F2 by lia; done].
  apply bval_inj in Hq2; [|rewrite F1, F2 by lia; done].
  replace (ealen r') with (ealen r' - psidlen r' + psidlen r') by lia.
  rewrite !field_app by lia. replace (prefix6len r' + (ealen r' - psidlen r')) with (prefix6len r' + ealen r' - psidlen r') by lia.
  by rewrite V1, Hq2.
Qed.

(** ** The first example of RFC 7597 (appendix A) *)

Definition rfc_pd (x y : Z) : list Z := [0x20; 0x01; 0x0d; 0xb8; 0; x; y; 0] ++ replicate 8 0.
Definition rfc_rule : rule :=
  Rule false false 16 24 40 56 [192; 0; 2; 0] ([0x20; 0x01; 0x0d; 0xb8] ++ replicate 12 0)
    (rfc_pd 0x12 0x34) 6 (-1) (-1) None None.

Lemma rfc_map_rule x y :
  is_word 8 x -> is_word 8 y -> map_rule (set_pd (rfc_pd x y) (lengths (defaults false rfc_rule))).
Proof.
  intros Hx Hy. split; simpl; try lia.
  all: split; [reflexivity|]; repeat constructor; try done; try apply Hx; apply Hy.
Qed.

Lemma map_rule_correct_witness :
  exists x, eval_rule (T := demo_target LE) (fun _ => 0) false (str "*") [] rfc_rule (str "wan") =
      Some (Some x, str "wan") /\
    bits (ipv4addr x) = bits [192; 0; 2; 18] /\
    bits (ipv6addr x) = bits [0x20; 0x01; 0x0d; 0xb8; 0; 0x12; 0x34; 0; 0; 0; 0xc0; 0; 0x02; 0x12; 0; 0x34].
Proof.
  destruct (map_rule_correct (T := demo_target LE) (fun _ => 0) false (str "*") [] rfc_rule (str "wan"))
    as (x & Hx & _ & _ & _ & H4 & _ & H6).
  - vm_compute. discriminate.
  - apply (rfc_map_rule 0x12 0x34); split; vm_compute; congruence.
  - exists x. split; [exact Hx|]. vm_compute in Hx. injection Hx as <-.
    split; [rewrite H4|rewrite H6]; vm_compute; reflexivity.
Defined.

(** Two neighbours: they share the address 192.0.2.18 and have PSIDs 0x34 and 0x35. *)
Lemma map_no_sharing_witness :
  exists x1 x2 L1 L2,
    eval_rule (T := demo_target LE) (fun _ => 0) false (str "*") [] rfc_rule (str "wan") =
      Some (Some x1, str "wan") /\
    eval_rule (T := demo_target LE) (fun _ => 0) false (str "*") [] (set_pd (rfc_pd 0x12 0x35) rfc_rule) (str "wan") =
      Some (Some x2, str "wan") /\
    port_sets (offset (r_rule x1)) (psidlen (r_rule x1)) (psid (r_rule x1)) = Some L1 /\
    port_sets (offset (r_rule x2)) (psidlen (r_rule x2)) (psid (r_rule x2)) = Some L2 /\
    ipv4addr x1 = ipv4addr x2 /\ forall q, ~ (in_ranges L1 q /\ in_ranges L2 q).
Proof.
  destruct (map_no_sharing (T := demo_target LE) (fun _ => 0) false (str "*") (str "*") [] [] rfc_rule (str "wan")
    (rfc_pd 0x12 0x34) (rfc_pd 0x12 0x35)) as (x1 & x2 & L1 & L2 & H1 & H2 & P1 & P2 & Hq).
  - vm_compute. discriminate.
  - apply rfc_map_rule; split; vm_compute; congruence.
  - apply rfc_map_rule; split; vm_compute; congruence.
  - vm_compute. discriminate.
  - vm_compute. reflexivity.
  - vm_compute. discriminate.
  - vm_compute. reflexivity.
  - vm_compute. discriminate.
  - assert (ipv4addr x1 = ipv4addr x2) as E.
    { vm_compute in H1. injection H1 as <-. vm_compute in H2. injection H2 as <-. reflexivity. }
    exists x1, x2, L1, L2. split_and!; [exact H1|exact H2|exact P1|exact P2|exact E|exact (Hq E)].
Defined.
