(* ===== verification/MapPd.v ===== *)
(** * MAP rules: the delegated prefix, and the examples

    Which of the prefixes ubus reports a rule uses; the first example of RFC
    7597; inputs that leave the buffers. *)
From Stdlib Require Import Sorted.
From stdpp Require Import sets options.
From S2P Require Import Prelude CLib Bits Owip OwipMain MapCalc MapProps.

Section Pd.
Context {T : Target} {HT : TargetLaws T}.

(** An entry with address and mask. *)
Definition entry_of (d : prefix_attr) : option (list Z * Z) :=
  a ← pa_address d; m ← pa_mask d; Some (default in6_any (inet_pton6 a), m).

Definition mask_ok (d : prefix_attr) : Prop := forall m, pa_mask d = Some m -> 0 <= m <= 128.

(** The entry lies in the IPv6 prefix of the rule. *)
Definition fits (r : rule) (e : list Z * Z) : Prop :=
  prefix6len r <= e.2 /\ field e.1 0 (prefix6len r) = field (ipv6prefix r) 0 (prefix6len r).

Record pd_rule (r : rule) : Prop := {
  pr_plain : lw4o6 r = false;
  pr_prefix6len : 0 <= prefix6len r <= 128;
  pr_v6 : length (ipv6prefix r) = 16%nat /\ bytes (ipv6prefix r);
  pr_pd : length (pd r) = 16%nat /\ bytes (pd r) }.

(** The delegated prefix of [r] was replaced by that of the entry [e]. *)
Definition takes (r r2 : rule) (e : list Z * Z) : Prop :=
  exists p, r2 = set_pdlen e.2 (set_pd p r) /\ length p = 16%nat /\ bytes p /\
            field p 0 e.2 = field e.1 0 e.2.

Lemma entry_bytes d e : entry_of d = Some e -> length e.1 = 16%nat /\ bytes e.1.
Proof using HT.
  unfold entry_of. intros H. destruct (pa_address d) as [a|], (pa_mask d) as [m|]; try done.
  simplify_eq/=. destruct (inet_pton6 a) as [b|] eqn:E; [by apply (pton6_len a)|].
  split; [done|apply bytes_zeros].
Qed.

Lemma match_one_ok r d :
  pd_rule r -> mask_ok d ->
  exists r2, match_one r d = Some r2 /\
    ((r2 = r /\ forall e, entry_of d = Some e -> fits r e -> e.2 <= pdlen r) \/
     exists e, entry_of d = Some e /\ fits r e /\ pdlen r < e.2 /\ takes r r2 e).
Proof using HT.
  intros [Hlw H6 [L6 B6] [Lp Bp]] Hm. unfold match_one. rewrite Hlw.
  destruct (entry_of d) as [e|] eqn:He.
  2: { unfold entry_of in He. destruct (pa_address d), (pa_mask d); try done;
         exists r; (split; [done|by left]). }
  destruct (entry_bytes d e He) as [Le Be]. unfold entry_of in He.
  destruct (pa_address d) as [a|]; [|done]. destruct (pa_mask d) as [m|] eqn:Em; [|done].
  simplify_eq/=. specialize (Hm m Em). cbn [andb].
  set (p := default in6_any (inet_pton6 a)) in *.
  destruct ((pdlen r <? m) && (prefix6len r <=? m)) eqn:Hc; cbn [mbind option_bind].
  2: { exists r. split; [done|]. left. split; [done|]. intros e [= <-] [H _]. simpl in *. b2p; lia. }
  apply andb_true_iff in Hc as [Hc1 Hc2]. apply Z.ltb_lt in Hc1. apply Z.leb_le in Hc2.
  destruct (bmemcmp_bits p (ipv6prefix r) (prefix6len r)) as (c & Hc & Hc0); [done..|lia|lia|].
  rewrite Hc. cbn [mbind option_bind].
  destruct (Z.eqb_spec c 0) as [E|E].
  - destruct (bmemcpy_bits (pd r) p m) as (q & Hq & Lq & Bq & Hb); [done..|lia|lia|].
    rewrite Hq. cbn [mbind option_bind]. eexists. split; [reflexivity|]. right. exists (p, m).
    split_and!; [done|by split; [|apply Hc0]|done|]. exists q. split_and!; [done|lia|done|].
    unfold field. simpl. rewrite Hb, drop_0, take_app_length'; [done|].
    rewrite length_take, length_bits. lia.
  - exists r. split; [done|]. left. split; [done|]. intros e [= <-] [_ H]. by apply Hc0 in H.
Qed.

Lemma takes_rule r r2 e : pd_rule r -> takes r r2 e -> pd_rule r2.
Proof. intros [? ? ? ?] (p & -> & ? & ? & _). by split. Qed.

Lemma match_list_ok l : forall r,
  pd_rule r -> Forall mask_ok l ->
  exists r2, match_list l r = Some r2 /\ pd_rule r2 /\ pdlen r <= pdlen r2 /\
    (r2 = r \/ exists e, e ∈ omap entry_of l /\ fits r e /\ takes r r2 e) /\
    forall e, e ∈ omap entry_of l -> fits r e -> e.2 <= pdlen r2.
Proof using HT.
  induction l as [|d l IH]; intros r Hr Hm.
  { exists r. split_and!; [done|done|lia|by left|]. intros e He. by apply not_elem_of_nil in He. }
  apply Forall_cons in Hm as [Hd Hm].
  destruct (match_one_ok r d Hr Hd) as (r1 & H1 & Hone). simpl. rewrite H1. cbn [mbind option_bind].
  assert (forall e, e ∈ omap entry_of (d :: l) <-> entry_of d = Some e \/ e ∈ omap entry_of l) as Hel.
  { intros e. simpl. destruct (entry_of d) as [e'|]; simpl; [rewrite elem_of_cons|]; naive_solver. }
  setoid_rewrite Hel. destruct Hone as [[-> Hmax]|(e1 & He1 & Hf1 & Hlt & Ht1)].
  - destruct (IH r Hr Hm) as (r2 & H2 & Hr2 & Hle & Hw & Hall). exists r2. split_and!; try done.
    + destruct Hw as [->|(e & ? & ? & ?)]; [by left|]. right. exists e. by split_and!; [right|..].
    + intros e [He|He] Hf; [specialize (Hmax e He Hf); lia|by apply Hall].
  - pose proof (takes_rule r r1 e1 Hr Ht1) as Hr1.
    destruct (IH r1 Hr1 Hm) as (r2 & H2 & Hr2 & Hle & Hw & Hall).
    destruct Ht1 as (p1 & -> & Hp1). cbn [pdlen set_pdlen] in *.
    exists r2. split_and!; try done; try lia.
    + right. destruct Hw as [->|(e & ? & ? & p & -> & Hp)].
      * exists e1. split_and!; [by left|done|by exists p1].
      * exists e. split_and!; [by right|done|by exists p].
    + intros e [He|He] Hf; [simplify_eq; lia|by apply Hall].
Qed.

(** The interfaces [argv[1]] selects. *)
Definition selected (want : cstr) (c : iface_attr) : Prop :=
  exists n, if_interface c = Some n /\ (want = str "*" \/ want = n).
Definition entries (c : iface_attr) : list (list Z * Z) := omap entry_of (default [] (if_prefix c)).

(** For a MAP rule without an explicit prefix the search over the interfaces
    returns.  Either no selected interface has a prefix inside the rule's IPv6
    prefix and the rule is left as it was, or the delegated prefix is one that
    lies in it, and the longest such prefix of its interface. *)
Theorem find_pd_correct want dump r iface
    (Hr : pd_rule r) (Hpd : pdlen r < 0)
    (Hm : Forall (fun c => Forall mask_ok (default [] (if_prefix c))) dump) :
  exists r2 iface2, find_pd want dump r iface = Some (r2, iface2) /\
    ((r2 = r /\ forall c e, c ∈ dump -> selected want c -> e ∈ entries c -> ~ fits r e) \/
     exists c e, c ∈ dump /\ selected want c /\ if_interface c = Some iface2 /\
       e ∈ entries c /\ fits r e /\ takes r r2 e /\
       forall e', e' ∈ entries c -> fits r e' -> e'.2 <= e.2).
Proof using HT T.
  induction Hm as [|c dump Hc _ IH]; simpl.
  { exists r, iface. split; [done|]. left. split; [done|]. intros c e H. by apply not_elem_of_nil in H. }
  destruct IH as (r2 & i2 & Hrun & IH).
  assert ((selected want c -> forall e, e ∈ entries c -> ~ fits r e) ->
    (r2 = r /\ forall c' e, c' ∈ c :: dump -> selected want c' -> e ∈ entries c' -> ~ fits r e) \/
    exists c' e, c' ∈ c :: dump /\ selected want c' /\ if_interface c' = Some i2 /\
       e ∈ entries c' /\ fits r e /\ takes r r2 e /\
       forall e', e' ∈ entries c' -> fits r e' -> e'.2 <= e.2) as Hskip.
  { intros Hno. destruct IH as [[-> IH]|(c' & e & Hc' & IH)].
    - left. split; [done|]. intros c' e [->|H]%elem_of_cons; [by auto|by apply IH].
    - right. exists c', e. split; [by right|done]. }
  destruct (if_interface c) as [n|] eqn:Hn.
  2: { exists r2, i2. split; [done|]. apply Hskip. by intros (n & E & _); rewrite Hn in E. }
  destruct (negb (bool_decide (want = str "*")) && negb (bool_decide (want = n))) eqn:Hw.
  { exists r2, i2. split; [done|]. apply Hskip. intros (n' & E & Hor). rewrite Hn in E. simplify_eq.
    apply andb_true_iff in Hw as [H1 H2]. apply negb_true_iff in H1, H2.
    apply bool_decide_eq_false in H1, H2. by destruct Hor. }
  assert (selected want c) as Hsel.
  { exists n. split; [done|]. apply andb_false_iff in Hw as [H|H]; apply negb_false_iff, bool_decide_eq_true in H; auto. }
  destruct (match_list_ok (default [] (if_prefix c)) r Hr Hc) as (r1 & H1 & Hr1 & Hle & Hcase & Hall).
  assert (match_prefix (if_prefix c) r = Some r1) as ->.
  { destruct (if_prefix c); [done|]. by simplify_eq/=. }
  cbn [mbind option_bind]. rewrite (pr_plain r1 Hr1). cbn [mbind option_bind].
  destruct Hcase as [->|(e & He & Hf & p & -> & Hp)].
  - rewrite (proj2 (Z.leb_gt 0 (pdlen r))) by lia. exists r2, i2. split; [done|]. apply Hskip.
    intros _ e He Hf. pose proof (Hall e He Hf). destruct (pr_prefix6len r Hr). destruct Hf. lia.
  - cbn [pdlen set_pdlen] in *. destruct (pr_prefix6len r Hr). pose proof (proj1 Hf).
    rewrite (proj2 (Z.leb_le 0 e.2)) by lia. eexists _, n. split; [reflexivity|]. right.
    exists c, e. split_and!; [left|done|done|done|done|by exists p|done].
Qed.
End Pd.

(** ** Examples *)

Module Ex.
#[local] Instance target : Target := demo_target LE.

Definition prefixes (l : list (cstr * Z)) : option (list prefix_attr) :=
  Some (map (fun x => PrefixAttr (Some x.1) (Some x.2)) l).
Definition wan : iface_attr :=
  IfaceAttr (Some (str "wan6"))
    (prefixes [(str "2001:0DB8:0012:3400:0000:0000:0000:0000", 56);
               (str "2001:0DB9:0012:3400:0000:0000:0000:0000", 60)]) None.

Definition plain_rule : rule := set_pdlen (-1) (set_pd in6_any rfc_rule).

Lemma plain_pd_rule : pd_rule plain_rule.
Proof. split; try done; by repeat constructor. Qed.

Lemma find_pd_correct_witness :
  exists r2, find_pd (str "*") [wan] plain_rule (str "*") = Some (r2, str "wan6") /\
    pdlen r2 = 56 /\ field (pd r2) 0 56 = field (rfc_pd 0x12 0x34) 0 56.
Proof.
  destruct (find_pd_correct (HT := demo_target_laws LE) (str "*") [wan] plain_rule (str "*") plain_pd_rule)
    as (r2 & i2 & Hrun & Hcase).
  - reflexivity.
  - apply Forall_singleton. simpl. rewrite !Forall_cons, Forall_nil.
    split_and!; [intros m [= <-]; lia..|exact I].
  - vm_compute in Hrun. injection Hrun as <- <-. eexists. split; [vm_compute; reflexivity|].
    split; vm_compute; reflexivity.
Defined.

(** The whole program on the rule of the example. *)
Definition option_rule : cstr :=
  str "type=map-e,ipv6prefix=2001:0DB8:0000:0000:0000:0000:0000:0000,prefix6len=40,ipv4prefix=192.0.2.0,prefix4len=24,ealen=16,offset=2".

Definition rule_line (s : cstr) : cstr := str "RULE_1_" ++ s ++ [10].

Example rfc_output :
  main (fun _ => 0) false [wan] [str "*"; option_rule] =
  Some (concat (map rule_line
    [str "FMR=0"; str "EALEN=16"; str "PSIDLEN=8"; str "OFFSET=2"; str "PREFIX4LEN=24"; str "PREFIX6LEN=40";
     str "IPV4PREFIX=192.0.2.0"; str "IPV6PREFIX=2001:0DB8:0000:0000:0000:0000:0000:0000";
     str "IPV6PD=2001:0DB8:0012:3400:0000:0000:0000:0000"; str "PD6LEN=56"; str "PD6IFACE=wan6";
     str "IPV6ADDR=2001:0DB8:0012:3400:0000:C000:0212:0034"]) ++
    str "RULE_BMR=1" ++ [10] ++
    concat (map rule_line
    [str "IPV4ADDR=192.0.2.18"; str "ADDR4LEN=32"; str "PORTSETS='19712-19775 36096-36159 52480-52543 '"]) ++
    str "RULE_COUNT=1" ++ [10], 0).
Proof. vm_compute. reflexivity. Qed.

(** An explicit PSID length that leaves more than 32 address bits makes the
    program write behind [ipv4addr]. *)
Example ealen_overflow :
  main (fun _ => 0) false [] [str "*"; str "prefix6len=32,prefix4len=0,ealen=48,psidlen=8,pdlen=80"] = None.
Proof. vm_compute. reflexivity. Qed.

(** Offset and PSID length may exceed the 16 bits of a port: the shift count of
    the range is negative. *)
Example offset_overflow :
  main (fun _ => 0) false [] [str "*"; str "prefix6len=32,prefix4len=24,ealen=24,offset=8,pdlen=56"] = None.
Proof. vm_compute. reflexivity. Qed.

(** Without a prefix6len the prefixes of an interface are compared over
    [(size_t) -1] bits. *)
Example no_prefix6len :
  main (fun _ => 0) false [wan] [str "*"; str "ealen=16"] = None.
Proof. vm_compute. reflexivity. Qed.

(** An option that needs a value and has none. *)
Example no_value : main (fun _ => 0) false [] [str "*"; str "ealen"] = None.
Proof. vm_compute. reflexivity. Qed.
End Ex.
