(* ===== verification/SixRd.v ===== *)
(** * 6rdcalc: package/network/ipv6/6rd/src/6rdcalc.c

    The IPv6 prefix of a 6rd site: the provider's prefix followed by the bits of
    the IPv4 address behind the common mask.  [main] gives the text printed on
    stdout and the exit status; [None] is undefined behaviour. *)
From stdpp Require Import options.
From S2P Require Import Prelude CLib Bits Owip OwipMain.

Definition INET_PREFIXSTRLEN : nat := 19.
Definition INET6_PREFIXSTRLEN : nat := 50.

Section SixRd.
Context {T : Target}.

(** [parse_str]: [None] when the program ends with the usage message. *)
Definition parse_str (f : af) (s : cstr) : option (list Z * Z) :=
  '(a, m) ← str_split 47 s;
  addr ← (match f with AF_INET => inet_pton4 | AF_INET6 => inet_pton6 end) a;
  let mask := (strtoul long_bits 10 m).1.1 in
  if (match f with AF_INET => 32 | AF_INET6 => 128 end) <? mask then None else Some (addr, mask).

(** [128 >> (it & 7)] *)
Definition bit_of (it : Z) : Z := u8 (Z.shiftr 128 (Z.land it 7)).

Definition set_bit (b : bool) (x bit : Z) : Z :=
  u8 (if b then Z.lor x bit else Z.land x (Z.lnot bit)).

(** "Combine the addresses." *)
Fixpoint combine (fuel : nat) (v4it v6it : Z) (v4 v6 : list Z) : option (list Z * Z) :=
  if v4it <? 32
  then
    match fuel with
    | O => None
    | S f =>
        byte6 ← v6 !! Z.to_nat (Z.shiftr v6it 3);
        byte4 ← v4 !! Z.to_nat (Z.shiftr v4it 3);
        let b := negb (Z.land byte4 (bit_of v4it) =? 0) in
        combine f (v4it + 1) (v6it + 1) v4
          (<[Z.to_nat (Z.shiftr v6it 3) := set_bit b byte6 (bit_of v6it)]> v6)
    end
  else Some (v6, v6it).

(** "Clear remaining bits." *)
Fixpoint clear (fuel : nat) (v6it : Z) (v6 : list Z) : option (list Z) :=
  if v6it <? 128
  then
    match fuel with
    | O => None
    | S f =>
        byte6 ← v6 !! Z.to_nat (Z.shiftr v6it 3);
        clear f (v6it + 1) (<[Z.to_nat (Z.shiftr v6it 3) := set_bit false byte6 (bit_of v6it)]> v6)
    end
  else Some v6.

(** [argv] without the name of the program.  [v6str] is terminated after
    [strncpy]; [v4str] is not, so an argument that fills it is not a string. *)
Definition main (argv : list cstr) : option (cstr * Z) :=
  match argv with
  | [arg1; arg2] =>
      match parse_str AF_INET6 (take (INET6_PREFIXSTRLEN - 1) arg1) with
      | None => Some ([], 1)
      | Some (v6, v6it) =>
          if decide (INET_PREFIXSTRLEN <= length arg2)%nat then None else
          match parse_str AF_INET arg2 with
          | None => Some ([], 1)
          | Some (v4, v4it) =>
              let mask := (32 - v4it) + v6it in
              if 128 <? mask then Some ([], 1) else
              '(v6, v6it) ← combine 32 v4it v6it v4 v6;
              v6 ← clear 128 v6it v6;
              match inet_ntop6 v6 with
              | None => Some ([], 1)
              | Some t => Some (t ++ [47] ++ print_u mask ++ [10], 0)
              end
          end
      end
  | _ => Some ([], 1)
  end.
End SixRd.

(** ** Bits *)

Lemma byte_bits_set b x i :
  0 <= i < 8 -> byte_bits (set_bit b x (u8 (Z.shiftr 128 i))) = <[Z.to_nat i := b]> (byte_bits x).
Proof.
  intros Hi. assert (i = 0 \/ i = 1 \/ i = 2 \/ i = 3 \/ i = 4 \/ i = 5 \/ i = 6 \/ i = 7) as H by lia.
  unfold set_bit, u8, wrap, byte_bits. destruct b;
    destruct H as [-> | [-> | [-> | [-> | [-> | [-> | [-> | -> ]]]]]]];
    rewrite !Z.mod_pow2_bits_low by lia; rewrite ?Z.lor_spec, ?Z.land_spec; simpl;
    by rewrite ?orb_false_r, ?orb_true_r, ?andb_true_r, ?andb_false_r.
Qed.

Lemma byte_bit_get x i :
  0 <= i < 8 -> byte_bits x !! Z.to_nat i = Some (negb (Z.land x (u8 (Z.shiftr 128 i)) =? 0)).
Proof.
  intros Hi. assert (forall k, 0 <= k -> (Z.land x (2 ^ k) =? 0) = negb (Z.testbit x k)) as Hk.
  { intros k H. destruct (Z.testbit x k) eqn:E; simpl.
    - apply Z.eqb_neq. intros E'. assert (Z.testbit (Z.land x (2 ^ k)) k = false) as F by (by rewrite E', Z.bits_0).
      rewrite Z.land_spec, E, Z.pow2_bits_true in F by done. discriminate F.
    - apply Z.eqb_eq, Z.bits_inj'. intros j Hj. rewrite Z.land_spec, Z.bits_0.
      destruct (decide (j = k)) as [->|]; [by rewrite E|]. by rewrite Z.pow2_bits_false, andb_false_r by lia. }
  assert (i = 0 \/ i = 1 \/ i = 2 \/ i = 3 \/ i = 4 \/ i = 5 \/ i = 6 \/ i = 7) as H by lia.
  assert (u8 (Z.shiftr 128 i) = 2 ^ (7 - i) /\ byte_bits x !! Z.to_nat i = Some (Z.testbit x (7 - i))) as [-> ->].
  { by destruct H as [-> | [-> | [-> | [-> | [-> | [-> | [-> | -> ]]]]]]]. }
  by rewrite Hk, negb_involutive by lia.
Qed.

(** Setting and reading the bit [i] of a byte string. *)
Lemma bits_insert v j x y :
  v !! j = Some x -> bits (<[j := y]> v) = take (8 * j) (bits v) ++ byte_bits y ++ drop (8 * j + 8) (bits v).
Proof.
  intros Hx. assert (j < length v)%nat by (by apply lookup_lt_Some in Hx).
  rewrite insert_take_drop, bits_app, bits_take by done. cbn [bits].
  rewrite bits_drop. do 3 f_equal. lia.
Qed.

Lemma bits_byte v j x : v !! j = Some x -> bits v = take (8 * j) (bits v) ++ byte_bits x ++ drop (8 * j + 8) (bits v).
Proof.
  intros Hx. rewrite <- (bits_insert v j x x Hx). by rewrite list_insert_id.
Qed.

Section Position.
Context (it : Z) (v : list Z) (x : Z).
Context (Hit : 0 <= it) (Hx : v !! Z.to_nat (Z.shiftr it 3) = Some x).

Lemma position : Z.to_nat it = (8 * Z.to_nat (Z.shiftr it 3) + Z.to_nat (it mod 8))%nat /\ 0 <= it mod 8 < 8 /\
  Z.land it 7 = it mod 8.
Proof using Hit.
  rewrite Z.shiftr_div_pow2 by lia. change (2 ^ 3) with 8. change 7 with (Z.ones 3).
  rewrite Z.land_ones by lia. change (2 ^ 3) with 8. split_and!; dlia.
Qed.

Lemma bits_set_at b :
  bits (<[Z.to_nat (Z.shiftr it 3) := set_bit b x (bit_of it)]> v) =
  take (Z.to_nat it) (bits v) ++ b :: drop (S (Z.to_nat it)) (bits v).
Proof using Hit Hx.
  destruct position as (E & Hm & Hl). set (j := Z.to_nat (Z.shiftr it 3)) in *.
  assert (j < length v)%nat by (by apply lookup_lt_Some in Hx).
  rewrite (bits_insert v j x) by done. unfold bit_of. rewrite Hl, byte_bits_set by done.
  rewrite <- (insert_take_drop (bits v)) by (rewrite length_bits; lia).
  rewrite (bits_byte v j x Hx) at 3. rewrite E, insert_app_r_alt by (rewrite length_take, length_bits; lia).
  rewrite length_take, length_bits. replace (8 * j + Z.to_nat (it mod 8) - (8 * j) `min` (8 * length v))%nat
    with (Z.to_nat (it mod 8)) by lia.
  rewrite insert_app_l by (simpl; lia). done.
Qed.

Lemma bits_get_at :
  bits v !! Z.to_nat it = Some (negb (Z.land x (bit_of it) =? 0)).
Proof using Hit Hx.
  destruct position as (E & Hm & Hl). set (j := Z.to_nat (Z.shiftr it 3)) in *.
  assert (j < length v)%nat by (by apply lookup_lt_Some in Hx).
  rewrite (bits_byte v j x Hx), E, lookup_app_r by (rewrite length_take, length_bits; lia).
  rewrite length_take, length_bits. replace (8 * j + Z.to_nat (it mod 8) - (8 * j) `min` (8 * length v))%nat
    with (Z.to_nat (it mod 8)) by lia.
  rewrite lookup_app_l by (simpl; lia). rewrite byte_bit_get by done. unfold bit_of. by rewrite Hl.
Qed.
End Position.

Lemma byte_at it (v : list Z) n :
  length v = n -> 0 <= it < 8 * Z.of_nat n -> exists x, v !! Z.to_nat (Z.shiftr it 3) = Some x.
Proof.
  intros Hl Hi. apply lookup_lt_is_Some_2. rewrite Z.shiftr_div_pow2 by lia. change (2 ^ 3) with 8. dlia.
Qed.

Section Cut.
Context {A : Type} (b : A) (l : list A) (n : nat) (Hn : (n <= length l)%nat).

Lemma take_cut : take (S n) (take n l ++ b :: drop (S n) l) = take n l ++ [b].
Proof using Hn.
  rewrite cons_middle, app_assoc, take_app_length'; [done|]. rewrite length_app, length_take. simpl. lia.
Qed.

Lemma drop_cut k : (n < k)%nat -> drop k (take n l ++ b :: drop (S n) l) = drop k l.
Proof using Hn.
  intros Hk. rewrite cons_middle, app_assoc, drop_app_ge by (rewrite length_app, length_take; simpl; lia).
  rewrite length_app, length_take, drop_drop. f_equal. simpl. lia.
Qed.
End Cut.

Lemma set_bit_words j b x y (v : list Z) :
  Forall (is_word 8) v -> Forall (is_word 8) (<[j := set_bit b x y]> v).
Proof. intros. apply Forall_insert; [done|]. apply wrap_range. lia. Qed.

(** ** The loops *)

Lemma combine_ok fuel : forall v4it v6it v4 v6,
  length v4 = 4%nat -> length v6 = 16%nat -> Forall (is_word 8) v6 -> 0 <= v4it <= 32 -> 0 <= v6it ->
  v6it + (32 - v4it) <= 128 -> 32 - v4it <= Z.of_nat fuel ->
  exists w, combine fuel v4it v6it v4 v6 = Some (w, v6it + (32 - v4it)) /\ length w = 16%nat /\
    Forall (is_word 8) w /\
    bits w = take (Z.to_nat v6it) (bits v6) ++ drop (Z.to_nat v4it) (bits v4) ++
             drop (Z.to_nat (v6it + (32 - v4it))) (bits v6).
Proof.
  induction fuel as [|f IH]; intros v4it v6it v4 v6 L4 L6 B6 H4 H6 H128 Hf; simpl;
    destruct (Z.ltb_spec v4it 32) as [Hlt|Hge]; try lia.
  1,3: assert (v4it = 32) as -> by lia; exists v6; (split; [do 2 f_equal; lia|]); (split; [done|]); (split; [done|]);
    rewrite (drop_ge (bits v4)) by (rewrite length_bits; lia); simpl app;
    replace (v6it + (32 - 32)) with v6it by lia; by rewrite take_drop.
  destruct (byte_at v6it v6 16 L6) as [b6 E6]; [lia|]. destruct (byte_at v4it v4 4 L4) as [b4 E4]; [lia|].
  rewrite E6, E4. cbn [mbind option_bind]. set (b := negb (Z.land b4 (bit_of v4it) =? 0)).
  pose proof (bits_set_at v6it v6 b6 H6 E6 b) as Hset. pose proof (bits_get_at v4it v4 b4 ltac:(lia) E4) as Hget.
  set (v6' := <[_ := _]> v6) in *.
  destruct (IH (v4it + 1) (v6it + 1) v4 v6') as (w & Hw & Lw & Bw & Hb);
    [done|unfold v6'; by rewrite length_insert|by apply set_bit_words|lia..|].
  exists w. split; [rewrite Hw; do 2 f_equal; lia|]. split; [done|]. split; [done|]. rewrite Hb, Hset.
  replace (v6it + 1 + (32 - (v4it + 1))) with (v6it + (32 - v4it)) by lia.
  rewrite !Z2Nat.inj_add, !Nat.add_1_r by lia.
  rewrite (drop_S (bits v4) b (Z.to_nat v4it) Hget).
  rewrite take_cut, drop_cut by (rewrite ?length_bits; lia). by rewrite <- app_assoc.
Qed.

Lemma clear_ok fuel : forall v6it v6,
  length v6 = 16%nat -> Forall (is_word 8) v6 -> 0 <= v6it <= 128 -> 128 - v6it <= Z.of_nat fuel ->
  exists w, clear fuel v6it v6 = Some w /\ length w = 16%nat /\ Forall (is_word 8) w /\
    bits w = take (Z.to_nat v6it) (bits v6) ++ replicate (Z.to_nat (128 - v6it)) false.
Proof.
  induction fuel as [|f IH]; intros v6it v6 L6 B6 H6 Hf; simpl;
    destruct (Z.ltb_spec v6it 128) as [Hlt|Hge]; try lia.
  1,3: assert (v6it = 128) as -> by lia; exists v6; (split; [done|]); (split; [done|]); (split; [done|]);
    rewrite take_ge by (rewrite length_bits; lia); by rewrite app_nil_r.
  destruct (byte_at v6it v6 16 L6) as [b6 E6]; [lia|]. rewrite E6. cbn [mbind option_bind].
  pose proof (bits_set_at v6it v6 b6 ltac:(lia) E6 false) as Hset. set (v6' := <[_ := _]> v6) in *.
  destruct (IH (v6it + 1) v6') as (w & Hw & Lw & Bw & Hb);
    [unfold v6'; by rewrite length_insert|by apply set_bit_words|lia..|].
  exists w. split; [done|]. split; [done|]. split; [done|]. rewrite Hb, Hset.
  rewrite Z2Nat.inj_add, Nat.add_1_r, take_cut by (rewrite ?length_bits; lia). rewrite <- app_assoc.
  f_equal. replace (Z.to_nat (128 - v6it)) with (S (Z.to_nat (128 - (v6it + 1)))) by lia. done.
Qed.

(** ** The program *)

Section Program.
Context {T : Target} {HT : TargetLaws T}.

Lemma parse_str_ok f a addr m :
  Forall (fun c => c <> 47) a ->
  (match f with AF_INET => inet_pton4 | AF_INET6 => inet_pton6 end) a = Some addr ->
  0 <= m <= match f with AF_INET => 32 | AF_INET6 => 128 end ->
  parse_str f (a ++ 47 :: print_u m) = Some (addr, m).
Proof using HT.
  intros Ha Hp Hm. unfold parse_str. rewrite str_split_app by done. cbn [mbind option_bind].
  rewrite Hp. cbn [mbind option_bind].
  destruct (print_u_prefix long_bits m long_bits_ok) as [-> _]; [destruct f; lia|].
  simpl. rewrite (proj2 (Z.ltb_ge _ _)) by lia. done.
Qed.

(** C35: For an IPv6 prefix [p6]/[m6] and an IPv4 address [p4]/[m4] whose lengths
    fit, 6rdcalc prints the prefix made of the first [m6] bits of [p6], the bits
    of [p4] behind its mask, and zeros, with the length [m6 + 32 - m4]. *)
Theorem sixrd_correct a6 a4 p6 p4 m6 m4
    (H6 : inet_pton6 a6 = Some p6) (H4 : inet_pton4 a4 = Some p4)
    (Hs6 : Forall (fun c => c <> 47) a6) (Hs4 : Forall (fun c => c <> 47) a4)
    (Hm6 : 0 <= m6 <= 128) (Hm4 : 0 <= m4 <= 32) (Hmask : m6 + (32 - m4) <= 128)
    (Hl6 : (length a6 <= 45)%nat) (Hl4 : (length a4 + length (print_u m4) <= 17)%nat) :
  exists v6 t,
    main [a6 ++ 47 :: print_u m6; a4 ++ 47 :: print_u m4] =
      Some (t ++ [47] ++ print_u (m6 + (32 - m4)) ++ [10], 0) /\
    inet_ntop6 v6 = Some t /\ length v6 = 16%nat /\
    bits v6 = take (Z.to_nat m6) (bits p6) ++ drop (Z.to_nat m4) (bits p4) ++
              replicate (Z.to_nat (128 - (m6 + (32 - m4)))) false.
Proof using HT T.
  destruct (pton6_len a6 p6 H6) as [L6 B6]. destruct (pton4_len a4 p4 H4) as [L4 B4].
  destruct (combine_ok 32 m4 m6 p4 p6) as (w & Hw & Lw & Bw & Hb); [done|done|done|lia..|].
  destruct (clear_ok 128 (m6 + (32 - m4)) w) as (v & Hv & Lv & Bv & Hbv); [done|done|lia..|].
  destruct (ntop6_text v Lv Bv) as (t & Ht & _).
  exists v, t. split_and!; [|done|done|].
  - unfold main, INET6_PREFIXSTRLEN, INET_PREFIXSTRLEN.
    destruct (print_u_prefix long_bits m6 long_bits_ok) as (_ & _ & ?); [lia|].
    rewrite take_ge by (rewrite length_app; simpl; lia).
    rewrite (parse_str_ok AF_INET6 a6 p6), decide_False by (done || rewrite length_app; simpl; lia).
    rewrite (parse_str_ok AF_INET a4 p4) by done. rewrite (proj2 (Z.ltb_ge 128 _)) by lia.
    rewrite Hw. cbn [mbind option_bind]. rewrite Hv. cbn [mbind option_bind]. rewrite Ht.
    do 5 f_equal. f_equal. lia.
  - rewrite Hbv, Hb, app_assoc, take_app_length', <- app_assoc; [done|].
    rewrite length_app, length_take, length_drop, !length_bits. lia.
Qed.
End Program.

(** The example of RFC 5969: a site with 10.100.100.1 and a common mask of 8
    bits in 2001:db8::/32. *)
Lemma sixrd_correct_witness :
  main (T := demo_target LE)
    [str "2001:0DB8:0000:0000:0000:0000:0000:0000" ++ 47 :: print_u 32; str "10.100.100.1" ++ 47 :: print_u 8] =
  Some (str "2001:0DB8:6464:0100:0000:0000:0000:0000/56" ++ [10], 0).
Proof.
  destruct (sixrd_correct (T := demo_target LE) (str "2001:0DB8:0000:0000:0000:0000:0000:0000") (str "10.100.100.1")
    ([0x20; 0x01; 0x0d; 0xb8] ++ replicate 12 0) [10; 100; 100; 1] 32 8) as (v6 & t & Hmain & Ht & Hl & Hb);
    [reflexivity|reflexivity|vm_compute; repeat constructor; discriminate
    |vm_compute; repeat constructor; discriminate|lia|lia|lia|vm_compute; lia|vm_compute; lia|].
  etransitivity; [exact Hmain|]. clear -Hmain. vm_compute in Hmain. injection Hmain as Hmain.
  etransitivity; [|reflexivity]. f_equal. f_equal. simpl in *. by symmetry.
Defined.

(** An IPv4 argument of 19 characters or more is not terminated. *)
Example v4_unterminated :
  main (T := demo_target LE)
    [str "2001:0DB8:0000:0000:0000:0000:0000:0000/32"; str "192.168.100.100/024"] = None.
Proof. vm_compute. reflexivity. Qed.
