(* ===== verification/Micrond.v ===== *)
(** * micrond: feeds/packages/utils/micrond/src/micrond.c

    The schedules of crontab lines as bit sets, the lines, and the loop that
    wakes up every minute.  [None] is undefined behaviour (signed overflow).
    The width of long comes from [Target].  Files, directories and processes
    are not modelled: [read_crontab] takes the lines of a file, and running a
    job is its command in the output of a turn of the loop. *)
From stdpp Require Import options.
From S2P Require Import Prelude CLib Owip.

Record job := Job {
  minutes : Z; hours : Z; doms : Z; months : Z; dows : Z; command : cstr }.

(** The fields of [struct tm] that are used. *)
Record tm := Tm { tm_min : Z; tm_hour : Z; tm_mday : Z; tm_mon : Z; tm_wday : Z }.

Definition MONTHS : list cstr :=
  [str "jan"; str "feb"; str "mar"; str "apr"; str "may"; str "jun";
   str "jul"; str "aug"; str "sep"; str "oct"; str "nov"; str "dec"].
Definition WEEKDAYS : list cstr :=
  [str "sun"; str "mon"; str "tue"; str "wed"; str "thu"; str "fri"; str "sat"].

Definition INT_MAX : Z := 2147483647.

Definition bit (b : Z) : Z := u64 (Z.shiftl 1 b).

Definition tolower (c : Z) : Z := if (65 <=? c) && (c <=? 90) then c + 32 else c.

(** [strcasecmp(input, s) == 0] *)
Definition same_word (input s : cstr) : bool := bool_decide (map tolower input = map tolower s).

Fixpoint find_string (i : Z) (input : cstr) (strings : list cstr) : Z :=
  match strings with
  | [] => 0
  | s :: l => if same_word input s then bit i else find_string (i + 1) input l
  end.
Definition parse_strings (input : cstr) (strings : list cstr) : Z := find_string 0 input strings.

Section Micrond.
Context {T : Target}.

Definition strict_atoi (s : cstr) : Z :=
  let '(v, n, _) := strtol long_bits 10 s in
  if bool_decide (drop n s = []) then s32 v else -1.

(** The loop of [parse_times]; the addition [i += step] must not overflow. *)
Fixpoint times_loop (fuel : nat) (i end_ step n ret : Z) : option Z :=
  if i <=? end_
  then
    match fuel with
    | O => None
    | S f => if INT_MAX <? i + step then None
             else times_loop f (i + step) end_ step n (Z.lor ret (bit (Z.rem i n)))
    end
  else Some ret.

(** What [parse_times] does with an element once the ones behind its comma gave
    [ret]. *)
Definition parse_item (input : cstr) (min n ret : Z) : option Z :=
  let '(input, step) :=
    match str_split 47 input with
    | Some (a, b) => (a, strict_atoi b)
    | None => (input, 1)
    end in
  if step <=? 0 then Some 0 else
  let '(begin, end_) :=
    match str_split 45 input with
    | Some (a, b) => (strict_atoi a, strict_atoi b)
    | None => if bool_decide (input = str "*") then (min, min + n - 1)
              else (strict_atoi input, strict_atoi input)
    end in
  if (begin <? min) || (end_ <? min) then Some 0
  else times_loop (Z.to_nat ((end_ - begin) / step + 1)) (begin - min) (end_ - min) step n ret.

Fixpoint parse_times_fuel (fuel : nat) (input : cstr) (min n : Z) : option Z :=
  match str_split 44 input with
  | None => parse_item input min n 0
  | Some (a, b) =>
      match fuel with
      | O => None
      | S f => ret ← parse_times_fuel f b min n;
               if ret =? 0 then Some 0 else parse_item a min n ret
      end
  end.
Definition parse_times (input : cstr) (min n : Z) : option Z :=
  parse_times_fuel (length input) input min n.

(** ["%ms"]: white space, then characters that are not. *)
Fixpoint take_word (s : cstr) : cstr * cstr :=
  match s with
  | c :: s' => if isspace c then ([], s) else let '(w, r) := take_word s' in (c :: w, r)
  | [] => ([], [])
  end.
Definition scan_word (s : cstr) : option (cstr * cstr) :=
  match take_word (skip_space s).2 with
  | ([], _) => None
  | x => Some x
  end.

(** [sscanf(line, "%ms %ms %ms %ms %ms %n", ...)]: the words, and the rest of the
    line after the white space behind the fifth. *)
Fixpoint scan_words (n : nat) (s : cstr) : list cstr * cstr :=
  match n with
  | O => ([], (skip_space s).2)
  | S n' =>
      match scan_word s with
      | None => ([], s)
      | Some (w, r) => let '(ws, r') := scan_words n' r in (w :: ws, r')
      end
  end.

(** The bits of a column that may hold a name. *)
Definition parse_named (c : cstr) (names : list cstr) (w min n : Z) : option Z :=
  let b := wrap w (parse_strings c names) in
  if b =? 0 then t ← parse_times c min n; Some (wrap w t) else Some b.

(** The return value and the jobs: the new one in front.  The columns are used
    in turn, and an empty set ends the line. *)
Definition handle_line (line : cstr) (jobs : list job) : option (Z * list job) :=
  match scan_words 5 line with
  | ([], _) => Some (0, jobs)
  | ([c0; c1; c2; c3; c4], rest) =>
      mi ← parse_times c0 0 60;
      if mi =? 0 then Some (-1, jobs) else
      t ← parse_times c1 0 24;
      let ho := u32 t in
      if ho =? 0 then Some (-1, jobs) else
      t ← parse_times c2 1 31;
      let dm := u32 t in
      if dm =? 0 then Some (-1, jobs) else
      mo ← parse_named c3 MONTHS 16 1 12;
      if mo =? 0 then Some (-1, jobs) else
      dw ← parse_named c4 WEEKDAYS 8 0 7;
      if dw =? 0 then Some (-1, jobs) else
      Some (0, Job mi ho dm mo dw rest :: jobs)
  | _ => Some (-1, jobs)
  end.

(** The lines [fgets] returns, cut at a comment. *)
Definition cut_comment (line : cstr) : cstr :=
  match str_split 35 line with Some (a, _) => a | None => line end.
Fixpoint read_crontab (lines : list cstr) (jobs : list job) : option (list job) :=
  match lines with
  | [] => Some jobs
  | l :: lines' => '(_, jobs) ← handle_line (cut_comment l) jobs; read_crontab lines' jobs
  end.

Definition has (set b : Z) : bool := negb (Z.land set (bit b) =? 0).

(** [true]: the job is run. *)
Definition check_job (j : job) (t : tm) : bool :=
  has (minutes j) (tm_min t) && has (hours j) (tm_hour t) && has (doms j) (tm_mday t - 1) &&
  has (months j) (tm_mon t) && has (dows j) (tm_wday t).

(** A turn of the loop of [main] that wakes up at [t]: the new [minute] and the
    commands that are run. *)
Definition wake (jobs : list job) (minute : Z) (t : tm) : Z * list cstr :=
  let minute := (minute + 1) mod 60 in
  if negb (tm_min t =? minute) then (tm_min t, [])
  else (minute, map command (List.filter (fun j => check_job j t) jobs)).

Fixpoint run (jobs : list job) (minute : Z) (ts : list tm) : list (list cstr) :=
  match ts with
  | [] => []
  | t :: ts' => let '(minute, cs) := wake jobs minute t in cs :: run jobs minute ts'
  end.
End Micrond.
