(* ===== verification/MicrondProps.v ===== *)
(** * Theorems about micrond

    Crontab columns as data ([column]) with their text and the times they stand
    for; a line written from five columns runs its command at exactly these
    times. *)
From stdpp Require Import sets options.
From S2P Require Import Prelude CLib Owip OwipMain Micrond.

(** ** Columns *)

Inductive times := All | One (a : Z) | Range (a b : Z).
Record item := Item { i_times : times; i_step : option Z }.
Definition field := list item.

Definition times_text (t : times) : cstr :=
  match t with
  | All => str "*"
  | One a => print_u a
  | Range a b => print_u a ++ 45 :: print_u b
  end.
Definition item_text (i : item) : cstr :=
  match i_step i with
  | None => times_text (i_times i)
  | Some s => times_text (i_times i) ++ 47 :: print_u s
  end.
Fixpoint field_text (l : field) : cstr :=
  match l with
  | [] => []
  | [i] => item_text i
  | i :: l' => item_text i ++ 44 :: field_text l'
  end.

(** The first and the last value, the step. *)
Definition bounds (min n : Z) (t : times) : Z * Z :=
  match t with All => (min, min + n - 1) | One a => (a, a) | Range a b => (a, b) end.
Definition step_of (i : item) : Z := default 1 (i_step i).

(** The values of an item. *)
Definition item_values (min n : Z) (i : item) : list Z :=
  let '(a, b) := bounds min n (i_times i) in
  List.filter (fun v => (v - a) mod step_of i =? 0) (seqZ a (b - a + 1)).

Definition item_has (min n : Z) (i : item) (v : Z) : Prop :=
  exists k, 0 <= k /\ v = (bounds min n (i_times i)).1 + k * step_of i /\
            v <= (bounds min n (i_times i)).2.

(** The positions (from 0) the column stands for; values beyond the last one
    start again, as Sunday may be 7. *)
Definition selects (min n : Z) (l : field) (x : Z) : bool :=
  existsb (fun i => existsb (fun v => (v - min) mod n =? x) (item_values min n i)) l.

Definition item_ok (min n : Z) (i : item) : Prop :=
  let '(a, b) := bounds min n (i_times i) in
  min <= a <= b /\ b < 1000 /\ 0 < step_of i < 1000.

Lemma item_values_has min n i v :
  0 < step_of i -> v ∈ item_values min n i <-> item_has min n i v.
Proof.
  intros Hs. unfold item_values, item_has. destruct (bounds min n (i_times i)) as [a b]. simpl.
  rewrite list_elem_of_In, filter_In, <- list_elem_of_In, elem_of_seqZ, Z.eqb_eq. split.
  - intros [Hv Hm]. exists ((v - a) / step_of i). split_and!; [apply Z.div_pos; lia| |lia].
    pose proof (Z.div_mod (v - a) (step_of i) ltac:(lia)). lia.
  - intros (k & Hk & -> & Hb). split; [nia|]. replace (a + k * step_of i - a) with (k * step_of i) by lia.
    apply Z.mod_mul. lia.
Qed.

Definition selected (min n : Z) (l : field) (x : Z) : Prop :=
  exists i v, i ∈ l /\ item_has min n i v /\ x = (v - min) mod n.

Lemma selects_spec min n l x :
  Forall (fun i => 0 < step_of i) l -> selects min n l x = true <-> selected min n l x.
Proof.
  intros Hl. unfold selects, selected. rewrite existsb_exists. rewrite Forall_forall in Hl. split.
  - intros (i & Hi & Hv). apply list_elem_of_In in Hi. apply existsb_exists in Hv as (v & Hv & Hx).
    apply list_elem_of_In, item_values_has in Hv; [|by apply Hl]. exists i, v.
    split_and!; [done|done|]. by apply Z.eqb_eq in Hx.
  - intros (i & v & Hi & Hv & ->). exists i. split; [by apply list_elem_of_In|].
    apply existsb_exists. exists v. split; [|by apply Z.eqb_eq].
    apply list_elem_of_In, item_values_has; [by apply Hl|done].
Qed.

(** ** Numbers *)

Definition number_chars (s : cstr) : Prop := Forall (fun c => isdigit c = true) s.

Lemma print_u_number w v :
  (w = 32 \/ w = 64) -> 0 <= v < 1000 ->
  strtol w 10 (print_u v) = (v, length (print_u v), false) /\ number_chars (print_u v) /\ print_u v <> [].
Proof.
  intros Hw. apply (below_dec (fun v => strtol w 10 (print_u v) = (v, length (print_u v), false) /\
    number_chars (print_u v) /\ print_u v <> [])).
  destruct Hw as [-> | -> ]; vm_compute; reflexivity.
Qed.

Lemma digits_ne c s : number_chars s -> isdigit c = false -> Forall (fun x => x <> c) s.
Proof. intros H Hc. eapply Forall_impl; [done|]. intros x Hx ->. simpl in Hx. congruence. Qed.

Section Props.
Context {T : Target} {HT : TargetLaws T}.

Lemma strict_atoi_print v : 0 <= v < 1000 -> strict_atoi (print_u v) = v.
Proof using HT.
  intros Hv. unfold strict_atoi. destruct (print_u_number long_bits v long_bits_ok Hv) as [-> _].
  rewrite drop_ge by done. unfold s32, signed. simpl. rewrite wrap_small by (unfold is_word; lia).
  destruct (Z.ltb_spec v (2 ^ (32 - 1))); lia.
Qed.

(** ** The sets *)

Lemma testbit_bit b x : 0 <= b < 64 -> 0 <= x -> Z.testbit (bit b) x = bool_decide (x = b).
Proof.
  intros Hb Hx. unfold bit, u64. rewrite wrap_small.
  - rewrite Z.shiftl_1_l. destruct (decide (x = b)) as [->|Hne].
    + rewrite Z.pow2_bits_true by lia. by rewrite bool_decide_eq_true_2.
    + rewrite Z.pow2_bits_false by done. by rewrite bool_decide_eq_false_2.
  - rewrite Z.shiftl_1_l. split; [lia|]. apply Z.pow_lt_mono_r; lia.
Qed.

Lemma bit_word b : is_word 64 (bit b).
Proof. apply wrap_range. lia. Qed.

Lemma has_testbit m b : 0 <= b < 64 -> is_word 64 m -> has m b = Z.testbit m b.
Proof.
  intros Hb Hm. unfold has.
  assert (Z.land m (bit b) = if Z.testbit m b then bit b else 0) as ->.
  { apply Z.bits_inj'. intros x Hx. rewrite Z.land_spec, testbit_bit by done.
    destruct (decide (x = b)) as [->|Hne].
    - rewrite bool_decide_eq_true_2 by done. rewrite andb_true_r.
      destruct (Z.testbit m b); [by rewrite testbit_bit, bool_decide_eq_true_2|by rewrite Z.bits_0].
    - rewrite bool_decide_eq_false_2, andb_false_r by done.
      destruct (Z.testbit m b); [by rewrite testbit_bit, bool_decide_eq_false_2|by rewrite Z.bits_0]. }
  destruct (Z.testbit m b); [|done]. apply negb_true_iff, Z.eqb_neq. intros E.
  assert (Z.testbit (bit b) b = true) as F by (rewrite testbit_bit by lia; by apply bool_decide_eq_true).
  by rewrite E, Z.bits_0 in F.
Qed.

(** The set [m] holds the positions [P]. *)
Definition holds (m : Z) (P : Z -> Prop) : Prop :=
  is_word 64 m /\ forall x, 0 <= x -> Z.testbit m x = true <-> P x.

Lemma holds_nonzero m (P : Z -> Prop) x : holds m P -> 0 <= x -> P x -> m <> 0.
Proof. intros [_ H] Hx HP ->. apply H in HP; [|done]. by rewrite Z.bits_0 in HP. Qed.

(** The values of a progression. *)
Definition progression (i e step n x : Z) : Prop :=
  exists k, 0 <= k /\ i + k * step <= e /\ x = (i + k * step) mod n.

Lemma times_loop_ok fuel : forall i e step n ret (P : Z -> Prop),
  0 <= i -> 0 < step < 1000 -> 0 < n <= 64 -> e < 1000000 -> (e - i) / step + 1 <= Z.of_nat fuel ->
  holds ret P ->
  exists m, times_loop fuel i e step n ret = Some m /\
            holds m (fun x => P x \/ progression i e step n x).
Proof.
  induction fuel as [|f IH]; intros i e step n ret P Hi Hs Hn He Hf Hret; simpl;
    destruct (Z.leb_spec i e) as [Hle|Hgt].
  1: { pose proof (Z.div_pos (e - i) step ltac:(lia) ltac:(lia)). lia. }
  1,3: exists ret; (split; [done|]); destruct Hret as [Hw Hret]; (split; [done|]); intros x Hx;
    rewrite Hret by done; (split; [by left|]); intros [?|(k & Hk & Hke & _)]; [done|nia].
  rewrite (proj2 (Z.ltb_ge INT_MAX (i + step))) by (unfold INT_MAX; lia).
  assert (0 <= Z.rem i n < 64) as Hr.
  { rewrite Z.rem_mod_nonneg by lia. pose proof (Z.mod_pos_bound i n). lia. }
  destruct (IH (i + step) e step n (Z.lor ret (bit (Z.rem i n))) (fun x => P x \/ x = i mod n))
    as (m & Hm & Hmw & Hmb); [lia|lia|lia|lia| | |].
  - replace (e - (i + step)) with ((e - i) + (-1) * step) by lia. rewrite Z.div_add by lia. lia.
  - destruct Hret as [Hw Hret]. split; [apply is_word_lor; [lia|done|apply bit_word]|].
    intros x Hx. rewrite Z.lor_spec, orb_true_iff, Hret, testbit_bit, bool_decide_eq_true by done.
    by rewrite Z.rem_mod_nonneg by lia.
  - exists m. split; [done|]. split; [done|]. intros x Hx. rewrite Hmb by done. split.
    + intros [[?| -> ]|(k & Hk & Hke & ->)]; [by left| |].
      * right. exists 0. split_and!; [lia|lia|]. f_equal. lia.
      * right. exists (k + 1). split_and!; [lia|lia|]. f_equal. lia.
    + intros [?|(k & Hk & Hke & ->)]; [by left; left|].
      destruct (decide (k = 0)) as [->|Hk0]; [left; right; f_equal; lia|].
      right. exists (k - 1). split_and!; [lia|lia|]. f_equal. lia.
Qed.

(** ** Elements *)

Lemma times_text_chars c t min n :
  (let '(a, b) := bounds min n t in 0 <= a <= b /\ b < 1000) ->
  isdigit c = false -> c <> 42 -> c <> 45 -> Forall (fun x => x <> c) (times_text t).
Proof.
  intros Hb Hc H42 H45. destruct t as [|a|a b]; simpl in *.
  - by repeat constructor.
  - apply digits_ne; [apply (print_u_number 32)|]; auto; lia.
  - apply Forall_app. split; [|constructor; [done|]];
      (apply digits_ne; [apply (print_u_number 32)|]; auto; lia).
Qed.

Lemma parse_item_ok min n i ret (P : Z -> Prop) :
  0 <= min -> 0 < n <= 64 -> item_ok min n i -> holds ret P ->
  exists m, parse_item (item_text i) min n ret = Some m /\
    holds m (fun x => P x \/ exists v, item_has min n i v /\ x = (v - min) mod n).
Proof using HT.
  intros Hmin Hn Hi Hret. unfold item_ok in Hi. unfold item_has.
  destruct (bounds min n (i_times i)) as [a b] eqn:Eb. destruct Hi as (Ha & Hb & Hs).
  assert (forall c, isdigit c = false -> c <> 42 -> c <> 45 ->
    Forall (fun x => x <> c) (times_text (i_times i))) as Hchars.
  { intros c ? ? ?. apply (times_text_chars c _ min n); try done. rewrite Eb. lia. }
  assert (parse_item (item_text i) min n ret =
    times_loop (Z.to_nat ((b - a) / step_of i + 1)) (a - min) (b - min) (step_of i) n ret) as ->.
  { unfold parse_item, item_text.
    assert ((match str_split 47 (item_text i) with Some (u, v) => (u, strict_atoi v)
      | None => (item_text i, 1) end) = (times_text (i_times i), step_of i)) as Hstep.
    { unfold item_text, step_of in *. destruct (i_step i) as [s|]; simpl in *.
      - rewrite str_split_app by (by apply Hchars). by rewrite strict_atoi_print by lia.
      - by rewrite str_split_none by (by apply Hchars). }
    unfold item_text in Hstep. rewrite Hstep. rewrite (proj2 (Z.leb_gt _ 0)) by lia.
    assert ((match str_split 45 (times_text (i_times i)) with Some (u, v) => (strict_atoi u, strict_atoi v)
      | None => if bool_decide (times_text (i_times i) = str "*") then (min, min + n - 1)
                else (strict_atoi (times_text (i_times i)), strict_atoi (times_text (i_times i))) end) = (a, b)) as ->.
    { destruct (i_times i) as [|v|u v]; simpl in Eb |- *.
      - by simplify_eq.
      - simplify_eq. destruct (print_u_number 32 b) as (_ & Hd & Hnil); [by left|lia|].
        rewrite str_split_none by (by apply digits_ne). rewrite bool_decide_eq_false_2.
        + by rewrite strict_atoi_print by lia.
        + intros E. rewrite E in Hd. apply Forall_cons in Hd as [Hd _]. discriminate Hd.
      - simplify_eq. destruct (print_u_number 32 a) as (_ & Hd & _); [by left|lia|].
        rewrite str_split_app by (by apply digits_ne). by rewrite !strict_atoi_print by lia. }
    rewrite (proj2 (Z.ltb_ge a min)), (proj2 (Z.ltb_ge b min)) by lia. done. }
  destruct (times_loop_ok (Z.to_nat ((b - a) / step_of i + 1)) (a - min) (b - min) (step_of i) n ret P)
    as (m & Hm & Hw & Hmb); [lia|lia|lia|lia| |done|].
  - replace (b - min - (a - min)) with (b - a) by lia.
    pose proof (Z.div_pos (b - a) (step_of i) ltac:(lia) ltac:(lia)). lia.
  - exists m. split; [done|]. split; [done|]. intros x Hx. rewrite Hmb by done.
    apply or_iff_compat_l. simpl. split.
    + intros (k & Hk & Hke & ->). exists (a + k * step_of i). split; [exists k; split_and!; lia|]. f_equal. lia.
    + intros (v & (k & Hk & -> & Hke) & ->). exists k. split_and!; [done|lia|]. f_equal. lia.
Qed.

(** ** Columns *)

Lemma item_has_first min n i : item_ok min n i -> exists v, item_has min n i v.
Proof.
  unfold item_ok, item_has. destruct (bounds min n (i_times i)) as [a b] eqn:E. intros (? & ? & ?).
  exists a. exists 0. simpl. lia.
Qed.

Lemma item_text_chars min n i c :
  0 <= min -> item_ok min n i -> isdigit c = false -> c <> 42 -> c <> 45 -> c <> 47 ->
  Forall (fun x => x <> c) (item_text i).
Proof.
  intros Hmin Hi Hc H42 H45 H47. unfold item_ok in Hi. unfold item_text, step_of in *.
  assert (Forall (fun x => x <> c) (times_text (i_times i))).
  { apply (times_text_chars c _ min n); try done. destruct (bounds min n (i_times i)). lia. }
  destruct (bounds min n (i_times i)) as [a b]. destruct (i_step i) as [s|]; [|done].
  apply Forall_app. split; [done|]. constructor; [done|]. simpl in Hi.
  apply digits_ne; [|done]. apply (print_u_number 32); [by left|lia].
Qed.

Lemma times_text_nil t : times_text t <> [].
Proof.
  assert (forall v, print_u v <> []) as Hp.
  { intros v. unfold print_u. assert (forall f x acc, dec_digits (S f) x acc <> []) as H; [|apply (H 19%nat)].
    intros f. induction f as [|f IH]; intros x acc; cbn [dec_digits]; destruct (x <? 10); try done. apply IH. }
  destruct t as [|a|a b]; simpl; [done|apply Hp|]. by destruct (print_u a).
Qed.

Lemma item_text_nil i : item_text i <> [].
Proof.
  unfold item_text. destruct (i_step i); [|apply times_text_nil]. intros H. by apply app_eq_nil in H as [_ H].
Qed.

Lemma field_text_cons i l : l <> [] -> field_text (i :: l) = item_text i ++ 44 :: field_text l.
Proof. by destruct l. Qed.

Lemma field_fuel l : (length l <= S (length (field_text l)))%nat.
Proof.
  induction l as [|i l IH]; [simpl; lia|]. destruct l as [|i' l']; [simpl; lia|].
  rewrite field_text_cons, length_app by done. simpl length in *. lia.
Qed.

Lemma parse_times_fuel_ok min n l : forall fuel,
  0 <= min -> 0 < n <= 64 -> l <> [] -> Forall (item_ok min n) l -> (length l <= S fuel)%nat ->
  exists m, parse_times_fuel fuel (field_text l) min n = Some m /\ holds m (selected min n l).
Proof using HT.
  intros fuel Hmin Hn. revert fuel. induction l as [|i l IH]; intros fuel Hne Hl Hf; [done|].
  apply Forall_cons in Hl as [Hi Hl]. pose proof (item_text_chars min n i 44 Hmin Hi) as Hc.
  specialize (Hc ltac:(done) ltac:(done) ltac:(done) ltac:(done)).
  destruct (decide (l = [])) as [->|Hl0].
  - destruct (parse_item_ok min n i 0 (fun _ => False)) as (m & Hm & Hw & Hb); [done..| |].
    { split; [done|]. intros x _. by rewrite Z.bits_0. }
    exists m. split.
    + destruct fuel; simpl; by rewrite str_split_none.
    + split; [done|]. intros x Hx. rewrite Hb by done. unfold selected. split.
      * intros [[]|(v & Hv & ->)]. exists i, v. split_and!; [left|done..].
      * intros (i' & v & Hin & Hv & ->). apply list_elem_of_singleton in Hin as ->. right. by exists v.
  - destruct fuel as [|f]; [destruct l; [done|]; simpl in Hf; lia|].
    destruct (IH f Hl0 Hl) as (m' & Hm' & Hh'); [simpl in Hf; lia|].
    rewrite field_text_cons by done. cbn [parse_times_fuel]. rewrite str_split_app by done.
    rewrite Hm'. cbn [mbind option_bind].
    assert (m' <> 0) as H0.
    { destruct l as [|i' l']; [done|]. apply Forall_cons in Hl as [Hi' _].
      destruct (item_has_first min n i' Hi') as [v Hv].
      apply (holds_nonzero m' _ ((v - min) mod n) Hh'); [apply Z.mod_pos_bound; lia|].
      exists i', v. split_and!; [left|done..]. }
    rewrite (proj2 (Z.eqb_neq m' 0)) by done.
    destruct (parse_item_ok min n i m' _ Hmin Hn Hi Hh') as (m & Hm & Hw & Hb).
    exists m. split; [done|]. split; [done|]. intros x Hx. rewrite Hb by done. unfold selected. split.
    + intros [(i' & v & Hin & Hv & ->)|(v & Hv & ->)]; [exists i', v; split_and!; [by right|done..]|].
      exists i, v. split_and!; [left|done..].
    + intros (i' & v & [->|Hin]%elem_of_cons & Hv & ->); [right; by exists v|left; by exists i', v].
Qed.

Lemma selected_bound min n l x : 0 < n -> selected min n l x -> 0 <= x < n.
Proof. intros Hn (i & v & _ & _ & ->). by apply Z.mod_pos_bound. Qed.

(** A set that fits its type is not cut. *)
Lemma holds_wrap w m (P : Z -> Prop) : 0 <= w -> holds m P -> (forall x, P x -> x < w) -> wrap w m = m.
Proof.
  intros Hw [Hm H] Hb. apply Z.bits_inj'. intros x Hx. unfold wrap.
  destruct (Z.lt_ge_cases x w) as [Hlt|Hge]; [by rewrite Z.mod_pow2_bits_low|].
  rewrite Z.mod_pow2_bits_high by lia. destruct (Z.testbit m x) eqn:E; [|done].
  apply H in E; [|done]. apply Hb in E. lia.
Qed.

(** A column of numbers. *)
Definition field_ok (min n : Z) (l : field) : Prop := l <> [] /\ Forall (item_ok min n) l.

Lemma field_steps min n l : Forall (item_ok min n) l -> Forall (fun i => 0 < step_of i) l.
Proof.
  intros H. eapply Forall_impl; [exact H|]. unfold item_ok. intros i. destruct (bounds min n (i_times i)). lia.
Qed.

Lemma parse_times_ok min n l :
  0 <= min -> 0 < n <= 64 -> field_ok min n l ->
  exists m, parse_times (field_text l) min n = Some m /\ is_word 64 m /\ m <> 0 /\
    (forall w, n <= w -> wrap w m = m) /\
    forall x, 0 <= x -> Z.testbit m x = selects min n l x.
Proof using HT.
  intros Hmin Hn [Hne Hl]. unfold parse_times.
  destruct (parse_times_fuel_ok min n l (length (field_text l))) as (m & Hm & Hh); [done..|apply field_fuel|].
  exists m. split_and!; [done|apply Hh| | |].
  - destruct l as [|i l']; [done|]. apply Forall_cons in Hl as [Hi _].
    destruct (item_has_first min n i Hi) as [v Hv].
    apply (holds_nonzero m _ ((v - min) mod n) Hh); [apply Z.mod_pos_bound; lia|].
    exists i, v. split_and!; [left|done..].
  - intros w Hw. apply (holds_wrap w m _ ltac:(lia) Hh). intros x Hx.
    apply selected_bound in Hx; lia.
  - intros x Hx. apply eq_true_iff_eq. rewrite (selects_spec min n l x (field_steps min n l Hl)).
    by apply Hh.
Qed.
End Props.

(** [parse_times] on the text of a column returns the set of the positions
    the column stands for: every value of every element (a number, a range or
    the star, with its step), counted from the first value of the column and
    modulo its size. *)
Theorem parse_times_correct {T : Target} {HT : TargetLaws T} min n l
    (Hmin : 0 <= min) (Hn : 0 < n <= 64) (Hl : field_ok min n l) :
  exists m, parse_times (field_text l) min n = Some m /\ m <> 0 /\
    forall x, 0 <= x < n -> has m x = selects min n l x.
Proof.
  destruct (parse_times_ok min n l Hmin Hn Hl) as (m & Hm & Hw & H0 & _ & Hb).
  exists m. split_and!; [done..|]. intros x Hx. rewrite has_testbit by (done || lia). apply Hb. lia.
Qed.

(** Minutes ["50-70/10,*/20,5"]. *)
Definition demo_field : field :=
  [Item (Range 50 70) (Some 10); Item All (Some 20); Item (One 5) None].

Lemma parse_times_correct_witness :
  exists m, parse_times (T := demo_target LE) (str "50-70/10,*/20,5") 0 60 = Some m /\
    has m 50 = true /\ has m 10 = true /\ has m 40 = true /\ has m 5 = true /\ has m 6 = false.
Proof.
  destruct (parse_times_correct (T := demo_target LE) 0 60 demo_field) as (m & Hm & _ & Hb).
  - lia.
  - lia.
  - split; [discriminate|]. unfold demo_field. rewrite !Forall_cons, Forall_nil.
    unfold item_ok, step_of. simpl. lia.
  - exists m. split; [exact Hm|]. rewrite !Hb by lia. vm_compute. split_and!; reflexivity.
Defined.
