(* ===== verification/MicrondRun.v ===== *)
(** * micrond: lines and the clock *)
From stdpp Require Import sets options.
From S2P Require Import Prelude CLib Owip OwipMain Micrond MicrondProps.

(** ** Schedules *)

(** A month or a day of the week may be a name. *)
Inductive column := Times (l : field) | Named (k : nat).

Record schedule := Schedule {
  s_min : field; s_hour : field; s_dom : field; s_mon : column; s_dow : column }.

Definition column_text (names : list cstr) (c : column) : cstr :=
  match c with Times l => field_text l | Named k => nth k names [] end.
Definition column_selects (min n : Z) (c : column) (x : Z) : bool :=
  match c with Times l => selects min n l x | Named k => x =? Z.of_nat k end.

Definition matches (s : schedule) (t : tm) : bool :=
  selects 0 60 (s_min s) (tm_min t) && selects 0 24 (s_hour s) (tm_hour t) &&
  selects 1 31 (s_dom s) (tm_mday t - 1) && column_selects 1 12 (s_mon s) (tm_mon t) &&
  column_selects 0 7 (s_dow s) (tm_wday t).

Definition line_text (s : schedule) (cmd : cstr) : cstr :=
  field_text (s_min s) ++ 32 :: field_text (s_hour s) ++ 32 :: field_text (s_dom s) ++ 32 ::
  column_text MONTHS (s_mon s) ++ 32 :: column_text WEEKDAYS (s_dow s) ++ 32 :: cmd.

Definition column_ok (names : list cstr) (min n : Z) (c : column) : Prop :=
  match c with Times l => field_ok min n l | Named k => (k < length names)%nat end.

Record schedule_ok (s : schedule) : Prop := {
  so_min : field_ok 0 60 (s_min s);
  so_hour : field_ok 0 24 (s_hour s);
  so_dom : field_ok 1 31 (s_dom s);
  so_mon : column_ok MONTHS 1 12 (s_mon s);
  so_dow : column_ok WEEKDAYS 0 7 (s_dow s) }.

(** A command begins with a character that is not white space and has no
    comment sign. *)
Definition command_ok (cmd : cstr) : Prop :=
  Forall (fun c => c <> 35) cmd /\ exists c r, cmd = c :: r /\ isspace c = false.

Record tm_ok (t : tm) : Prop := {
  to_min : 0 <= tm_min t < 60;
  to_hour : 0 <= tm_hour t < 24;
  to_mday : 1 <= tm_mday t <= 31;
  to_mon : 0 <= tm_mon t < 12;
  to_wday : 0 <= tm_wday t < 7 }.

(** ** Words *)

(** No white space, no comment. *)
Definition word (w : cstr) : Prop := w <> [] /\ Forall (fun c => isspace c = false /\ c <> 35) w.

Lemma take_word_app w r : Forall (fun c => isspace c = false /\ c <> 35) w -> take_word (w ++ 32 :: r) = (w, 32 :: r).
Proof. induction 1 as [|c w [Hc _] _ IH]; [done|]. simpl. by rewrite Hc, IH. Qed.

Lemma skip_space_word c r : isspace c = false -> skip_space (c :: r) = (O, c :: r).
Proof. intros H. simpl. by rewrite H. Qed.

Lemma scan_word_app w r : word w -> scan_word (w ++ 32 :: r) = Some (w, 32 :: r).
Proof.
  intros [Hne Hw]. unfold scan_word. destruct w as [|c w]; [done|].
  rewrite <- app_comm_cons, skip_space_word by (by apply Forall_cons in Hw as [[? _] _]).
  cbn [snd]. rewrite app_comm_cons, take_word_app by done. done.
Qed.

Lemma scan_word_space s : scan_word (32 :: s) = scan_word s.
Proof. unfold scan_word. simpl. by destruct (skip_space s). Qed.

Lemma scan_words_app n w r :
  word w -> scan_words (S n) (w ++ 32 :: r) = (w :: (scan_words n (32 :: r)).1, (scan_words n (32 :: r)).2).
Proof. intros Hw. cbn [scan_words]. rewrite scan_word_app by done. by destruct (scan_words n (32 :: r)). Qed.

Lemma scan_words_next n w r :
  word w -> scan_words (S n) (32 :: w ++ 32 :: r) =
  (w :: (scan_words n (32 :: r)).1, (scan_words n (32 :: r)).2).
Proof.
  intros Hw. rewrite <- scan_words_app by done. cbn [scan_words].
  rewrite scan_word_space, scan_word_app by done. done.
Qed.

Lemma digit_word c : isdigit c = true -> isspace c = false /\ c <> 35.
Proof. unfold isdigit, isspace. intros H. split; [b2p; lia|]. intros ->. discriminate H. Qed.

Lemma item_word min n i : 0 <= min -> item_ok min n i -> word (item_text i).
Proof.
  intros Hmin Hi. split; [apply item_text_nil|]. unfold item_ok in Hi.
  assert (forall v, 0 <= v < 1000 -> Forall (fun c => isspace c = false /\ c <> 35) (print_u v)) as Hp.
  { intros v Hv. destruct (print_u_number 32 v) as (_ & Hd & _); [by left|done|].
    eapply Forall_impl; [exact Hd|]. apply digit_word. }
  assert (Forall (fun c => isspace c = false /\ c <> 35) (times_text (i_times i))) as Ht.
  { destruct (i_times i) as [|a|a b]; simpl in *.
    - by repeat constructor.
    - apply Hp. lia.
    - apply Forall_app. split; [apply Hp; lia|]. constructor; [done|]. apply Hp. lia. }
  unfold item_text, step_of in *. destruct (bounds min n (i_times i)) as [a b].
  destruct (i_step i) as [s|]; [|done]. apply Forall_app. split; [done|].
  constructor; [done|]. apply Hp. simpl in Hi. lia.
Qed.

Lemma field_word min n l : 0 <= min -> field_ok min n l -> word (field_text l).
Proof.
  intros Hmin [Hne Hl]. induction Hl as [|i l Hi Hl IH]; [done|].
  pose proof (item_word min n i Hmin Hi) as [Hn Hw].
  destruct (decide (l = [])) as [->|Hl0]; [done|].
  rewrite field_text_cons by done. destruct (IH Hl0) as [_ Hw']. split.
  - intros H. by apply app_eq_nil in H as [H _].
  - apply Forall_app. split; [done|]. by constructor.
Qed.

Lemma name_word names k :
  Forall word names -> (k < length names)%nat -> word (nth k names []).
Proof. intros H Hk. rewrite Forall_nth in H. by apply H. Qed.

Lemma months_words : Forall word MONTHS.
Proof. unfold MONTHS. repeat constructor; vm_compute; discriminate || reflexivity. Qed.

Lemma weekdays_words : Forall word WEEKDAYS.
Proof. unfold WEEKDAYS. repeat constructor; vm_compute; discriminate || reflexivity. Qed.

Lemma column_word names min n c :
  0 <= min -> Forall word names -> column_ok names min n c -> word (column_text names c).
Proof. intros Hmin Hn. destruct c as [l|k]; simpl; [by apply field_word|by apply name_word]. Qed.

(** ** Names *)

(** A column of numbers begins with a digit or the star. *)
Definition starts_number (s : cstr) : Prop := exists c r, s = c :: r /\ (isdigit c = true \/ c = 42).

Lemma field_starts min n l : 0 <= min -> field_ok min n l -> starts_number (field_text l).
Proof.
  intros Hmin [Hne Hl]. destruct l as [|i l]; [done|]. apply Forall_cons in Hl as [Hi _].
  assert (forall s r, starts_number s -> starts_number (s ++ r)) as Happ.
  { intros s r (c & r' & -> & Hc). by exists c, (r' ++ r). }
  assert (starts_number (item_text i)) as Hs.
  { assert (forall v, 0 <= v < 1000 -> starts_number (print_u v)) as Hp.
    { intros v Hv. destruct (print_u_number 32 v) as (_ & Hd & Hnil); [by left|done|].
      destruct (print_u v) as [|c r]; [done|]. apply Forall_cons in Hd as [Hd _]. exists c, r. auto. }
    assert (starts_number (times_text (i_times i))) as Ht.
    { unfold item_ok in Hi. destruct (i_times i) as [|a|a b]; simpl in *.
      - exists 42, []. auto.
      - apply Hp. lia.
      - apply Happ, Hp. lia. }
    unfold item_text. destruct (i_step i); [by apply Happ|done]. }
  destruct (decide (l = [])) as [->|]; [done|]. rewrite field_text_cons by done. by apply Happ.
Qed.

Definition starts_letter (s : cstr) : bool :=
  match s with c :: _ => (97 <=? c) && (c <=? 122) | [] => false end.

Lemma number_not_name s names i :
  starts_number s -> forallb starts_letter names = true -> find_string i s names = 0.
Proof.
  intros (c & r & -> & Hc). revert i. induction names as [|w names IH]; intros i Hn; [done|].
  simpl in Hn |- *. apply andb_true_iff in Hn as [Hw Hn].
  assert (same_word (c :: r) w = false) as ->; [|by apply IH].
  apply bool_decide_eq_false. destruct w as [|d w]; [done|]. simpl. intros [= E _].
  unfold starts_letter in Hw. unfold tolower, isdigit in *.
  destruct ((65 <=? c) && (c <=? 90)) eqn:E1, ((65 <=? d) && (d <=? 90)) eqn:E2; b2p; lia.
Qed.

Lemma name_bits k :
  ((k < 12)%nat -> parse_strings (nth k MONTHS []) MONTHS = bit (Z.of_nat k)) /\
  ((k < 7)%nat -> parse_strings (nth k WEEKDAYS []) WEEKDAYS = bit (Z.of_nat k)).
Proof.
  split; intros Hk.
  - do 12 (destruct k as [|k]; [vm_compute; reflexivity|]). lia.
  - do 7 (destruct k as [|k]; [vm_compute; reflexivity|]). lia.
Qed.

Lemma small_bit k w : 0 <= k < w -> w <= 64 -> wrap w (bit k) = bit k /\ bit k <> 0.
Proof.
  intros Hk Hw. assert (bit k = 2 ^ k) as ->.
  { unfold bit, u64. rewrite Z.shiftl_1_l. apply wrap_small. split; [lia|]. apply Z.pow_lt_mono_r; lia. }
  assert (0 < 2 ^ k) by (apply Z.pow_pos_nonneg; lia). split; [|lia].
  apply wrap_small. split; [lia|]. apply Z.pow_lt_mono_r; lia.
Qed.

Section Run.
Context {T : Target} {HT : TargetLaws T}.

Lemma parse_named_ok names w min n c :
  0 <= min -> 0 < n <= w -> w <= 64 -> n = Z.of_nat (length names) ->
  forallb starts_letter names = true ->
  (forall k, (k < length names)%nat -> parse_strings (nth k names []) names = bit (Z.of_nat k)) ->
  column_ok names min n c ->
  exists m, parse_named (column_text names c) names w min n = Some m /\ m <> 0 /\
    forall x, 0 <= x < n -> has m x = column_selects min n c x.
Proof using HT.
  intros Hmin Hn Hw Hlen Hlet Hbits Hc. unfold parse_named. destruct c as [l|k]; simpl in *.
  - unfold parse_strings. rewrite number_not_name by (done || by eapply field_starts).
    destruct (parse_times_ok min n l Hmin ltac:(lia) Hc) as (m & -> & Hm & H0 & Hwrap & Hb).
    change (wrap w 0 =? 0) with (0 mod 2 ^ w =? 0). rewrite Zmod_0_l. simpl.
    rewrite Hwrap by lia. exists m. split_and!; [done..|]. intros x Hx.
    rewrite has_testbit by (done || lia). apply Hb. lia.
  - rewrite Hbits by done. destruct (small_bit (Z.of_nat k) w) as [-> H0]; [lia..|].
    rewrite (proj2 (Z.eqb_neq _ 0)) by done. eexists. split_and!; [done..|]. intros x Hx.
    rewrite has_testbit, testbit_bit by (try apply bit_word; lia).
    destruct (Z.eqb_spec x (Z.of_nat k)); [by apply bool_decide_eq_true|by apply bool_decide_eq_false].
Qed.

(** ** A line *)

Lemma schedule_words s :
  schedule_ok s ->
  word (field_text (s_min s)) /\ word (field_text (s_hour s)) /\ word (field_text (s_dom s)) /\
  word (column_text MONTHS (s_mon s)) /\ word (column_text WEEKDAYS (s_dow s)).
Proof.
  intros [H1 H2 H3 H4 H5].
  split_and!; [apply (field_word 0 60)|apply (field_word 0 24)|apply (field_word 1 31)
    |apply (column_word _ 1 12)|apply (column_word _ 0 7)]; try done; try lia.
  - apply months_words.
  - apply weekdays_words.
Qed.

Lemma line_words s cmd :
  schedule_ok s -> command_ok cmd ->
  scan_words 5 (line_text s cmd) =
  ([field_text (s_min s); field_text (s_hour s); field_text (s_dom s);
    column_text MONTHS (s_mon s); column_text WEEKDAYS (s_dow s)], cmd).
Proof.
  intros Hs [_ (c & r & -> & Hc)]. unfold line_text.
  destruct (schedule_words s Hs) as (W1 & W2 & W3 & W4 & W5).
  rewrite scan_words_app, !scan_words_next by done. cbn [scan_words fst snd]. simpl.
  by rewrite Hc.
Qed.

Lemma line_comment s cmd : schedule_ok s -> command_ok cmd -> cut_comment (line_text s cmd) = line_text s cmd.
Proof.
  intros Hs [Hc _]. unfold cut_comment. rewrite str_split_none; [done|].
  destruct (schedule_words s Hs) as (W1 & W2 & W3 & W4 & W5).
  assert (forall w r, word w -> Forall (fun c => c <> 35) r -> Forall (fun c => c <> 35) (w ++ 32 :: r)) as Hw.
  { intros w r [_ H] Hr. apply Forall_app. split; [|by constructor].
    eapply Forall_impl; [exact H|]. by intros c [_ ?]. }
  unfold line_text. by repeat (apply Hw; [done|]).
Qed.

(** The job a line adds. *)
Lemma handle_line_ok s cmd jobs :
  schedule_ok s -> command_ok cmd ->
  exists j, handle_line (line_text s cmd) jobs = Some (0, j :: jobs) /\ command j = cmd /\
    forall t, tm_ok t -> check_job j t = matches s t.
Proof using HT.
  intros Hs Hc. unfold handle_line. rewrite line_words by done. destruct Hs as [H1 H2 H3 H4 H5].
  destruct (parse_times_ok 0 60 _ ltac:(lia) ltac:(lia) H1) as (m1 & -> & W1 & N1 & _ & B1).
  destruct (parse_times_ok 0 24 _ ltac:(lia) ltac:(lia) H2) as (m2 & -> & W2 & N2 & R2 & B2).
  destruct (parse_times_ok 1 31 _ ltac:(lia) ltac:(lia) H3) as (m3 & -> & W3 & N3 & R3 & B3).
  destruct (parse_named_ok MONTHS 16 1 12 (s_mon s)) as (m4 & -> & N4 & B4);
    [lia|lia|lia|done|done|intros k; apply name_bits|done|].
  destruct (parse_named_ok WEEKDAYS 8 0 7 (s_dow s)) as (m5 & -> & N5 & B5);
    [lia|lia|lia|done|done|intros k; apply name_bits|done|].
  cbn [mbind option_bind]. unfold u32. rewrite R2, R3 by lia.
  rewrite !(proj2 (Z.eqb_neq _ 0)) by done. eexists. split_and!; [reflexivity|done|].
  intros t [T1 T2 T3 T4 T5]. unfold check_job, matches. cbn [minutes hours doms months dows].
  rewrite !has_testbit by (done || lia). rewrite B1, B2, B3, B4, B5 by lia. done.
Qed.
End Run.

(** ** The clock *)

(** The commands of [l] that are due at [t], the last line first. *)
Definition due (l : list (schedule * cstr)) (t : tm) : list cstr :=
  map snd (List.filter (fun e => matches e.1 t) (rev l)).

(** Each wake-up is one minute after the previous one. *)
Fixpoint steady (minute : Z) (ts : list tm) : Prop :=
  match ts with
  | [] => True
  | t :: ts' => tm_min t = (minute + 1) mod 60 /\ steady (tm_min t) ts'
  end.

Section Clock.
Context {T : Target} {HT : TargetLaws T}.

(** The jobs in memory stand for the lines that were read. *)
Definition stands_for (jobs : list job) (l : list (schedule * cstr)) : Prop :=
  Forall2 (fun j e => command j = e.2 /\ forall t, tm_ok t -> check_job j t = matches e.1 t) jobs (rev l).

Lemma read_crontab_ok l : forall jobs l0,
  Forall (fun e => schedule_ok e.1 /\ command_ok e.2) l -> stands_for jobs l0 ->
  exists jobs', read_crontab (map (fun e => line_text e.1 e.2) l) jobs = Some jobs' /\
                stands_for jobs' (l0 ++ l).
Proof using HT.
  induction l as [|[s cmd] l IH]; intros jobs l0 Hl Hj.
  { exists jobs. by rewrite app_nil_r. }
  apply Forall_cons in Hl as [[Hs Hc] Hl]. simpl in Hs, Hc |- *. rewrite line_comment by done.
  destruct (handle_line_ok s cmd jobs Hs Hc) as (j & -> & Hcmd & Hch). cbn [mbind option_bind].
  destruct (IH (j :: jobs) (l0 ++ [(s, cmd)]) Hl) as (jobs' & Hr & Hst).
  - unfold stands_for. rewrite rev_app_distr. simpl. by constructor.
  - exists jobs'. split; [done|]. by rewrite <- app_assoc in Hst.
Qed.

Lemma due_jobs jobs l t :
  stands_for jobs l -> tm_ok t -> map command (List.filter (fun j => check_job j t) jobs) = due l t.
Proof.
  unfold stands_for, due. intros H Ht. induction H as [|j e jobs l' [Hc Hj] _ IH]; [done|].
  simpl. rewrite (Hj t Ht). destruct (matches e.1 t); simpl; by rewrite ?Hc, IH.
Qed.

Lemma run_steady jobs l ts : forall minute,
  stands_for jobs l -> Forall tm_ok ts -> steady minute ts ->
  run jobs minute ts = map (due l) ts.
Proof.
  induction ts as [|t ts IH]; intros minute Hj Hts Hs; [done|].
  apply Forall_cons in Hts as [Ht Hts]. destruct Hs as [Hm Hs]. simpl. unfold wake.
  rewrite <- Hm, Z.eqb_refl. simpl. rewrite due_jobs with (l := l) by done. by rewrite IH.
Qed.
End Clock.

(** C18: micrond runs what the crontab says: after reading the lines of a crontab,
    on every wake-up of a clock that advances by minutes the commands that are
    run are exactly those of the lines whose five columns match the time. *)
Theorem cron_runs_due {T : Target} {HT : TargetLaws T} l minute ts
    (Hl : Forall (fun e => schedule_ok e.1 /\ command_ok e.2) l)
    (Hts : Forall tm_ok ts) (Hs : steady minute ts) :
  exists jobs, read_crontab (map (fun e => line_text e.1 e.2) l) [] = Some jobs /\
    run jobs minute ts = map (due l) ts.
Proof.
  destruct (read_crontab_ok l [] [] Hl) as (jobs & Hr & Hj); [constructor|].
  exists jobs. split; [done|]. by apply run_steady.
Qed.

(** Every quarter of an hour on week days; at noon in January. *)
Definition demo_crontab : list (schedule * cstr) :=
  [(Schedule [Item All (Some 15)] [Item All None] [Item All None] (Times [Item All None])
      (Times [Item (Range 1 5) None]), str "sync");
   (Schedule [Item (One 0) None] [Item (One 12) None] [Item All None] (Named 0) (Times [Item All None]), str "bell")].

Lemma demo_crontab_ok : Forall (fun e => schedule_ok e.1 /\ command_ok e.2) demo_crontab.
Proof.
  unfold demo_crontab. rewrite !Forall_cons, Forall_nil. split_and!; [..|exact I].
  1,3: split; unfold column_ok, field_ok; simpl; try lia;
    (split; [discriminate|]); rewrite Forall_cons, Forall_nil; unfold item_ok, step_of; simpl; lia.
  all: split; [vm_compute; repeat constructor; discriminate|eexists _, _; split; reflexivity].
Qed.

(** Monday, 12 January, 11:59, then 12:00. *)
Lemma cron_runs_due_witness :
  exists jobs, read_crontab (T := demo_target LE) [str "*/15 * * * 1-5 sync"; str "0 12 * jan * bell"] [] = Some jobs /\
    run jobs 58 [Tm 59 11 12 0 1; Tm 0 12 12 0 1] = [[]; [str "bell"; str "sync"]].
Proof.
  destruct (cron_runs_due (T := demo_target LE) demo_crontab 58 [Tm 59 11 12 0 1; Tm 0 12 12 0 1] demo_crontab_ok)
    as (jobs & Hr & Hrun).
  - rewrite !Forall_cons, Forall_nil. split_and!; [..|exact I]; split; simpl; lia.
  - simpl. split_and!; reflexivity.
  - exists jobs. split; [exact Hr|]. rewrite Hrun. vm_compute. reflexivity.
Defined.

(** After the clock was moved nothing runs until the next minute. *)
Lemma clock_moved jobs minute t :
  tm_min t <> (minute + 1) mod 60 -> wake jobs minute t = (tm_min t, []).
Proof. intros H. unfold wake. by rewrite (proj2 (Z.eqb_neq _ _)). Qed.

(** A number near the largest int overflows the loop variable. *)
Example huge_minute :
  parse_times (T := demo_target LE) (str "2147483647") 0 60 = None.
Proof. vm_compute. reflexivity. Qed.

(** Empty numbers count as 0. *)
Example empty_number :
  parse_times (T := demo_target LE) (str "-2") 0 60 = parse_times (T := demo_target LE) (str "0-2") 0 60.
Proof. vm_compute. reflexivity. Qed.
