(* ===== verification/Crc32.v ===== *)
(** * The CRC of the flash tool

    [crc32_table] and [crc32] of src/package/system/mtd/src/crc32.c and crc32.h,
    shared by the jffs2 writer and the image formats, and the proof that the
    table-driven loop divides by the polynomial that crc32.c names. *)

From stdpp Require Import options.
From S2P Require Import Prelude.

(** The table of crc32.c, in its order. *)
Definition crc32_table : list Z :=
  [0x00000000; 0x77073096; 0xee0e612c; 0x990951ba;
   0x076dc419; 0x706af48f; 0xe963a535; 0x9e6495a3;
   0x0edb8832; 0x79dcb8a4; 0xe0d5e91e; 0x97d2d988;
   0x09b64c2b; 0x7eb17cbd; 0xe7b82d07; 0x90bf1d91;
   0x1db71064; 0x6ab020f2; 0xf3b97148; 0x84be41de;
   0x1adad47d; 0x6ddde4eb; 0xf4d4b551; 0x83d385c7;
   0x136c9856; 0x646ba8c0; 0xfd62f97a; 0x8a65c9ec;
   0x14015c4f; 0x63066cd9; 0xfa0f3d63; 0x8d080df5;
   0x3b6e20c8; 0x4c69105e; 0xd56041e4; 0xa2677172;
   0x3c03e4d1; 0x4b04d447; 0xd20d85fd; 0xa50ab56b;
   0x35b5a8fa; 0x42b2986c; 0xdbbbc9d6; 0xacbcf940;
   0x32d86ce3; 0x45df5c75; 0xdcd60dcf; 0xabd13d59;
   0x26d930ac; 0x51de003a; 0xc8d75180; 0xbfd06116;
   0x21b4f4b5; 0x56b3c423; 0xcfba9599; 0xb8bda50f;
   0x2802b89e; 0x5f058808; 0xc60cd9b2; 0xb10be924;
   0x2f6f7c87; 0x58684c11; 0xc1611dab; 0xb6662d3d;
   0x76dc4190; 0x01db7106; 0x98d220bc; 0xefd5102a;
   0x71b18589; 0x06b6b51f; 0x9fbfe4a5; 0xe8b8d433;
   0x7807c9a2; 0x0f00f934; 0x9609a88e; 0xe10e9818;
   0x7f6a0dbb; 0x086d3d2d; 0x91646c97; 0xe6635c01;
   0x6b6b51f4; 0x1c6c6162; 0x856530d8; 0xf262004e;
   0x6c0695ed; 0x1b01a57b; 0x8208f4c1; 0xf50fc457;
   0x65b0d9c6; 0x12b7e950; 0x8bbeb8ea; 0xfcb9887c;
   0x62dd1ddf; 0x15da2d49; 0x8cd37cf3; 0xfbd44c65;
   0x4db26158; 0x3ab551ce; 0xa3bc0074; 0xd4bb30e2;
   0x4adfa541; 0x3dd895d7; 0xa4d1c46d; 0xd3d6f4fb;
   0x4369e96a; 0x346ed9fc; 0xad678846; 0xda60b8d0;
   0x44042d73; 0x33031de5; 0xaa0a4c5f; 0xdd0d7cc9;
   0x5005713c; 0x270241aa; 0xbe0b1010; 0xc90c2086;
   0x5768b525; 0x206f85b3; 0xb966d409; 0xce61e49f;
   0x5edef90e; 0x29d9c998; 0xb0d09822; 0xc7d7a8b4;
   0x59b33d17; 0x2eb40d81; 0xb7bd5c3b; 0xc0ba6cad;
   0xedb88320; 0x9abfb3b6; 0x03b6e20c; 0x74b1d29a;
   0xead54739; 0x9dd277af; 0x04db2615; 0x73dc1683;
   0xe3630b12; 0x94643b84; 0x0d6d6a3e; 0x7a6a5aa8;
   0xe40ecf0b; 0x9309ff9d; 0x0a00ae27; 0x7d079eb1;
   0xf00f9344; 0x8708a3d2; 0x1e01f268; 0x6906c2fe;
   0xf762575d; 0x806567cb; 0x196c3671; 0x6e6b06e7;
   0xfed41b76; 0x89d32be0; 0x10da7a5a; 0x67dd4acc;
   0xf9b9df6f; 0x8ebeeff9; 0x17b7be43; 0x60b08ed5;
   0xd6d6a3e8; 0xa1d1937e; 0x38d8c2c4; 0x4fdff252;
   0xd1bb67f1; 0xa6bc5767; 0x3fb506dd; 0x48b2364b;
   0xd80d2bda; 0xaf0a1b4c; 0x36034af6; 0x41047a60;
   0xdf60efc3; 0xa867df55; 0x316e8eef; 0x4669be79;
   0xcb61b38c; 0xbc66831a; 0x256fd2a0; 0x5268e236;
   0xcc0c7795; 0xbb0b4703; 0x220216b9; 0x5505262f;
   0xc5ba3bbe; 0xb2bd0b28; 0x2bb45a92; 0x5cb36a04;
   0xc2d7ffa7; 0xb5d0cf31; 0x2cd99e8b; 0x5bdeae1d;
   0x9b64c2b0; 0xec63f226; 0x756aa39c; 0x026d930a;
   0x9c0906a9; 0xeb0e363f; 0x72076785; 0x05005713;
   0x95bf4a82; 0xe2b87a14; 0x7bb12bae; 0x0cb61b38;
   0x92d28e9b; 0xe5d5be0d; 0x7cdcefb7; 0x0bdbdf21;
   0x86d3d2d4; 0xf1d4e242; 0x68ddb3f8; 0x1fda836e;
   0x81be16cd; 0xf6b9265b; 0x6fb077e1; 0x18b74777;
   0x88085ae6; 0xff0f6a70; 0x66063bca; 0x11010b5c;
   0x8f659eff; 0xf862ae69; 0x616bffd3; 0x166ccf45;
   0xa00ae278; 0xd70dd2ee; 0x4e048354; 0x3903b3c2;
   0xa7672661; 0xd06016f7; 0x4969474d; 0x3e6e77db;
   0xaed16a4a; 0xd9d65adc; 0x40df0b66; 0x37d83bf0;
   0xa9bcae53; 0xdebb9ec5; 0x47b2cf7f; 0x30b5ffe9;
   0xbdbdf21c; 0xcabac28a; 0x53b39330; 0x24b4a3a6;
   0xbad03605; 0xcdd70693; 0x54de5729; 0x23d967bf;
   0xb3667a2e; 0xc4614ab8; 0x5d681b02; 0x2a6f2b94;
   0xb40bbe37; 0xc30c8ea1; 0x5a05df1b; 0x2d02ef8d].

(** [val = crc32_table[(val ^ *s++) & 0xff] ^ (val >> 8)] *)
Definition crc32_step (val b : Z) : Z :=
  Z.lxor (nth (Z.to_nat (Z.land (Z.lxor val b) 255)) crc32_table 0)
         (Z.shiftr val 8).

(** [crc32(val, ss, len)]: the [len] bytes of [ss] are the list. *)
Definition crc32 (val : Z) (ss : list Z) : Z := fold_left crc32_step ss val.

Definition crc32buf (buf : list Z) : Z := crc32 0xFFFFFFFF buf.

(** ** The polynomial *)

(** X^32+X^26+X^23+X^22+X^16+X^12+X^11+X^10+X^8+X^7+X^5+X^4+X^2+X^1+X^0, the
    coefficient of X^31 in the lowest bit. *)
Definition poly_exponents : list Z := [26; 23; 22; 16; 12; 11; 10; 8; 7; 5; 4; 2; 1; 0].
Definition poly : Z := fold_right (fun k acc => Z.lor (Z.shiftl 1 (31 - k)) acc) 0 poly_exponents.

(** Division of one more bit: the register moves by one bit towards X^32 and the
    polynomial is subtracted when a coefficient of X^32 appears. *)
Definition poly_shift (x : Z) : Z :=
  Z.lxor (Z.shiftr x 1) (if Z.odd x then poly else 0).

Definition poly_byte (val b : Z) : Z := Nat.iter 8 poly_shift (Z.lxor val b).

Definition poly_crc (val : Z) (bs : list Z) : Z := fold_left poly_byte bs val.

(** ** The loop divides by the polynomial *)

Lemma poly_shift_lxor a b :
  poly_shift (Z.lxor a b) = Z.lxor (poly_shift a) (poly_shift b).
Proof.
  unfold poly_shift. rewrite Z.shiftr_lxor, <- !Z.bit0_odd, Z.lxor_spec.
  generalize (Z.shiftr a 1), (Z.shiftr b 1). intros x y.
  apply Z.bits_inj'. intros i Hi.
  destruct (Z.testbit a 0), (Z.testbit b 0); simpl; rewrite !Z.lxor_spec, ?Z.bits_0;
    by destruct (Z.testbit x i), (Z.testbit y i), (Z.testbit poly i).
Qed.

Lemma iter_poly_shift_lxor n a b :
  Nat.iter n poly_shift (Z.lxor a b)
  = Z.lxor (Nat.iter n poly_shift a) (Nat.iter n poly_shift b).
Proof. induction n as [|n IH]; simpl; [done|]. by rewrite IH, poly_shift_lxor. Qed.

(** Bits that have not reached the end of the register only move. *)
Lemma iter_poly_shift_high n x :
  Nat.iter n poly_shift (Z.shiftl x (Z.of_nat n)) = x.
Proof.
  induction n as [|n IH]; [apply Z.shiftl_0_r|].
  rewrite Nat.iter_succ_r, Nat2Z.inj_succ.
  replace (poly_shift _) with (Z.shiftl x (Z.of_nat n)); [done|].
  unfold poly_shift. rewrite <- Z.bit0_odd, Z.shiftl_spec_low by lia.
  rewrite Z.lxor_0_r, Z.shiftr_shiftl_l by lia. f_equal. lia.
Qed.

Lemma crc32_table_poly k :
  0 <= k < 256 -> nth (Z.to_nat k) crc32_table 0 = Nat.iter 8 poly_shift k.
Proof.
  apply (below_dec (fun k => nth (Z.to_nat k) crc32_table 0 = Nat.iter 8 poly_shift k)).
  by vm_compute.
Qed.

Lemma split_low_byte x : x = Z.lxor (Z.land x 255) (Z.shiftl (Z.shiftr x 8) 8).
Proof.
  apply Z.bits_inj'. intros i Hi. rewrite Z.lxor_spec, Z.land_spec.
  change 255 with (Z.ones 8). rewrite Z.testbit_ones_nonneg by lia.
  destruct (Z.ltb_spec i 8).
  - rewrite Z.shiftl_spec_low by lia. by destruct (Z.testbit x i).
  - rewrite Z.shiftl_spec_high, Z.shiftr_spec by lia.
    replace (i - 8 + 8) with i by lia. by destruct (Z.testbit x i).
Qed.

Lemma crc32_step_poly val b : is_word 8 b -> crc32_step val b = poly_byte val b.
Proof.
  intros Hb. unfold crc32_step, poly_byte.
  rewrite (split_low_byte (Z.lxor val b)) at 2.
  rewrite iter_poly_shift_lxor, (iter_poly_shift_high 8), crc32_table_poly.
  - f_equal. rewrite Z.shiftr_lxor, (Z.shiftr_div_pow2 b), (Z.div_small b) by (unfold is_word in Hb; lia).
    by rewrite Z.lxor_0_r.
  - change 255 with (Z.ones 8). rewrite Z.land_ones by lia.
    apply Z.mod_pos_bound. lia.
Qed.

(** The table-driven checksum of any bytes is their remainder modulo the
    polynomial that the table's comment names. *)
Theorem crc32_correct val bs :
  Forall (is_word 8) bs -> crc32 val bs = poly_crc val bs.
Proof.
  intros Hbs. revert val. induction Hbs as [|b bs Hb _ IH]; intros val; [done|].
  unfold crc32, poly_crc in *. simpl. by rewrite crc32_step_poly.
Qed.

(** ** Range *)

Lemma crc32_step_word val b : is_word 32 val -> is_word 8 b -> is_word 32 (crc32_step val b).
Proof.
  intros Hv Hb. unfold crc32_step. apply is_word_lxor; [lia| |].
  - assert (0 <= Z.land (Z.lxor val b) 255 < 256) as Hk.
    { change 255 with (Z.ones 8). rewrite Z.land_ones by lia. apply Z.mod_pos_bound. lia. }
    revert Hk. generalize (Z.land (Z.lxor val b) 255). intros k.
    apply (below_dec (fun k => is_word 32 (nth (Z.to_nat k) crc32_table 0))).
    by vm_compute.
  - unfold is_word in *. rewrite Z.shiftr_div_pow2 by lia. split.
    + apply Z.div_pos; lia.
    + apply Z.div_lt_upper_bound; lia.
Qed.

Lemma crc32_word val bs :
  is_word 32 val -> Forall (is_word 8) bs -> is_word 32 (crc32 val bs).
Proof.
  intros Hv Hbs. revert val Hv. induction Hbs as [|b bs Hb _ IH]; intros val Hv; [done|].
  unfold crc32 in *. simpl. by apply IH, crc32_step_word.
Qed.
