(* ===== verification/Mtd.v ===== *)
(** * Flash devices and the flash tool

    What src/package/system/mtd/src/mtd.c asks of the kernel ([Flash]: the
    ioctls MEMGETINFO, MEMGETBADBLOCK, MEMUNLOCK, MEMERASE and reads and writes
    at a position), what it relies on ([FlashLaws]), files that are read in
    pieces, and the commands of mtd.c that work on whole blocks. *)

From stdpp Require Import options.
From S2P Require Import Prelude.

(** ** Files that are read *)

(** What the next call of read(2) does: deliver at most [S k] bytes, be
    interrupted by a signal, or fail. *)
Inductive rd_event :=
| RdMax (k : nat)
| RdIntr
| RdErr.

(** An open file: the bytes not yet read and what the coming calls do (after the
    listed ones, each call delivers as much as was asked for). *)
Record file := { f_rest : list Z; f_sched : list rd_event }.

Inductive rd_result :=
| Got (bs : list Z)
| Failed (intr : bool).

Definition file_read (f : file) (n : Z) : rd_result * file :=
  let get k sched :=
    let m := Nat.min (Z.to_nat n) k in
    (Got (take m (f_rest f)), {| f_rest := drop m (f_rest f); f_sched := sched |}) in
  match f_sched f with
  | [] => get (Z.to_nat n) []
  | RdMax k :: l => get (S k) l
  | RdIntr :: l => (Failed true, {| f_rest := f_rest f; f_sched := l |})
  | RdErr :: l => (Failed false, {| f_rest := f_rest f; f_sched := l |})
  end.

(** ** Devices *)

Class Flash (D : Type) := {
  (* MEMGETINFO *)
  fl_size : D -> Z;
  fl_erasesize : D -> Z;
  fl_nand : D -> bool;
  (* MEMGETBADBLOCK: negative on error, 0 for a good block *)
  fl_isbad : D -> Z -> Z;
  (* MEMUNLOCK and MEMERASE on [start, start + length) *)
  fl_unlock : D -> Z -> Z -> D;
  fl_erase : D -> Z -> Z -> D * Z;
  (* read and write at a position *)
  fl_read : D -> Z -> Z -> list Z;
  fl_write : D -> Z -> list Z -> D * Z;
}.

Section ops.
Context {D : Type} `{Flash D}.

(** [mtd_block_is_bad]: only NAND devices are asked. *)
Definition mtd_block_is_bad (d : D) (offset : Z) : outcome Z :=
  if fl_nand d then
    let r := fl_isbad d offset in
    if r <? 0 then Exit 1 else Done r
  else Done 0.

(** [mtd_erase_block] *)
Definition mtd_erase_block (d : D) (offset : Z) : D * Z :=
  let '(d', r) := fl_erase (fl_unlock d offset (fl_erasesize d)) offset (fl_erasesize d) in
  (d', if r <? 0 then -1 else 0).

(** The loop of [mtd_erase]; [fuel] is one more than the number of blocks. *)
Fixpoint mtd_erase_loop (fuel : nat) (d : D) (start : Z) : outcome D :=
  match fuel with
  | O => Undef
  | S fuel =>
      if start <? fl_size d then
        bad ← mtd_block_is_bad d start;
        let d' := if bad =? 0
                  then fst (fl_erase (fl_unlock d start (fl_erasesize d)) start (fl_erasesize d))
                  else d in
        mtd_erase_loop fuel d' (start + fl_erasesize d)
      else Done d
  end.

Definition mtd_erase (d : D) : outcome D :=
  mtd_erase_loop (S (Z.to_nat (fl_size d / fl_erasesize d))) d 0.

(** [mtd_unlock], for one device *)
Definition mtd_unlock (d : D) : D := fl_unlock d 0 (fl_size d).

(** ** What the tool relies on *)

(** The addresses of the erase blocks. *)
Definition is_block (d : D) (a : Z) : Prop :=
  0 <= a < fl_size d /\ a mod fl_erasesize d = 0.

Definition good_block (d : D) (a : Z) : Prop :=
  is_block d a /\ mtd_block_is_bad d a = Done 0.

Definition block (d : D) (a : Z) : list Z := fl_read d a (fl_erasesize d).

Definition same_info (d d' : D) : Prop :=
  fl_size d' = fl_size d /\ fl_erasesize d' = fl_erasesize d /\ fl_nand d' = fl_nand d /\
  forall a, fl_isbad d' a = fl_isbad d a.

(** [d'] is [d] with the block at [a] replaced by [bs]. *)
Definition block_set (d : D) (a : Z) (bs : list Z) (d' : D) : Prop :=
  same_info d d' /\ block d' a = bs /\
  forall b, is_block d b -> b <> a -> block d' b = block d b.

End ops.

(** The documented behaviour of a flash device: erasing a good block sets all its
    bits, and writing an erased block of a good device stores the bytes;
    the bits of other blocks stay. *)
Class FlashLaws (D : Type) `{Flash D} := {
  fl_geometry : forall d : D, 0 < fl_erasesize d /\ 0 <= fl_size d < 2 ^ 31 /\
    fl_size d mod fl_erasesize d = 0;
  fl_isbad_range : forall (d : D) a, is_block d a -> 0 <= fl_isbad d a;
  fl_unlock_same : forall (d : D) a n, same_info d (fl_unlock d a n) /\
    forall b, is_block d b -> block (fl_unlock d a n) b = block d b;
  fl_read_block : forall (d : D) a, is_block d a ->
    Z.of_nat (length (block d a)) = fl_erasesize d /\ Forall (is_word 8) (block d a);
  (* a read inside a block gives that part of the block *)
  fl_read_part : forall (d : D) a k n, is_block d a -> 0 <= k -> 0 <= n -> k + n <= fl_erasesize d ->
    fl_read d (a + k) n = take (Z.to_nat n) (drop (Z.to_nat k) (block d a));
  (* and behind the last block there is nothing to read *)
  fl_read_end : forall (d : D) n, fl_read d (fl_size d) n = [];
  fl_erase_block : forall (d : D) a d' r, good_block d a ->
    fl_erase (fl_unlock d a (fl_erasesize d)) a (fl_erasesize d) = (d', r) ->
    0 <= r /\ block_set d a (replicate (Z.to_nat (fl_erasesize d)) 255) d';
  fl_write_block : forall (d : D) a bs d' r, good_block d a ->
    block d a = replicate (Z.to_nat (fl_erasesize d)) 255 ->
    Z.of_nat (length bs) = fl_erasesize d -> Forall (is_word 8) bs ->
    fl_write d a bs = (d', r) ->
    r = fl_erasesize d /\ block_set d a bs d';
  (* behind the last block, both ioctls report an error *)
  fl_end_bad : forall d : D, fl_nand d = true -> fl_isbad d (fl_size d) < 0;
  fl_end_erase : forall (d : D) d' r,
    fl_erase (fl_unlock d (fl_size d) (fl_erasesize d)) (fl_size d) (fl_erasesize d) = (d', r) -> r < 0;
}.

Section facts.
Context {D : Type} `{FL : FlashLaws D}.

Lemma same_info_refl (d : D) : same_info d d.
Proof using. repeat split. Qed.

Lemma same_info_trans (d1 d2 d3 : D) : same_info d1 d2 -> same_info d2 d3 -> same_info d1 d3.
Proof using.
  intros (?&?&?&Hb1) (?&?&?&Hb2). repeat split; try congruence.
Qed.

Lemma same_info_is_block (d d' : D) a : same_info d d' -> is_block d' a <-> is_block d a.
Proof using. intros (Hs & He & _). unfold is_block. by rewrite Hs, He. Qed.

Lemma same_info_bad (d d' : D) a :
  same_info d d' -> mtd_block_is_bad d' a = mtd_block_is_bad d a.
Proof using. intros (_ & _ & Hn & Hb). unfold mtd_block_is_bad. by rewrite Hn, Hb. Qed.

Lemma same_info_good (d d' : D) a : same_info d d' -> good_block d' a <-> good_block d a.
Proof using.
  intros Hi. unfold good_block. by rewrite (same_info_is_block d), (same_info_bad d) by done.
Qed.

(** Erasing a good block and writing it stores the bytes, whatever it held. *)
Lemma erase_write_block (d : D) a bs :
  good_block d a -> Z.of_nat (length bs) = fl_erasesize d -> Forall (is_word 8) bs ->
  exists d1 d2, mtd_erase_block d a = (d1, 0) /\
    fl_write d1 a bs = (d2, fl_erasesize d) /\ block_set d a bs d2.
Proof using FL.
  intros Hg Hl Hbs. unfold mtd_erase_block.
  destruct (fl_erase _ _ _) as [d1 r1] eqn:He.
  destruct (fl_erase_block d a d1 r1 Hg He) as (Hr & Hi1 & Hb1 & Hf1).
  destruct (fl_write d1 a bs) as [d2 r2] eqn:Hw.
  assert (fl_erasesize d1 = fl_erasesize d) as Hes by apply Hi1.
  destruct (fl_write_block d1 a bs d2 r2) as (-> & Hi2 & Hb2 & Hf2).
  { by apply (same_info_good d). } { by rewrite Hb1, Hes. } { lia. } { done. } { done. }
  exists d1, d2. rewrite Hes in *. split; [by rewrite (proj2 (Z.ltb_ge r1 0)) by lia|].
  split; [done|]. split; [by apply (same_info_trans d d1)|]. split; [done|].
  intros b Hb Hne. rewrite Hf2, Hf1; [done..|by apply (same_info_is_block d)|done].
Qed.

Lemma mtd_block_is_bad_cases (d : D) a :
  is_block d a -> exists r, mtd_block_is_bad d a = Done r /\ 0 <= r.
Proof using FL.
  intros Ha. unfold mtd_block_is_bad. destruct (fl_nand d); [|by exists 0].
  pose proof (fl_isbad_range d a Ha). rewrite (proj2 (Z.ltb_ge _ _)) by lia. eauto.
Qed.

End facts.
