(* ===== verification/MtdGood.v ===== *)
(** * Good blocks in order

    The blocks that the tool writes: [goods d a] are the addresses of the good
    blocks from [a] on, and [programmed] states that a list of blocks has been
    stored in the first of them and nothing else has changed. *)

From stdpp Require Import options.
From S2P Require Import Prelude Mtd.

Section goods.
Context {D : Type} `{FL : FlashLaws D}.

Definition is_bad (d : D) (a : Z) : bool :=
  match mtd_block_is_bad d a with Done 0 => false | _ => true end.

Fixpoint goods_n (n : nat) (d : D) (a : Z) : list Z :=
  match n with
  | O => []
  | S n => let l := goods_n n d (a + fl_erasesize d) in if is_bad d a then l else a :: l
  end.

(** How many blocks there are from [a] on. *)
Definition blocks_left (d : D) (a : Z) : nat := Z.to_nat ((fl_size d - a) / fl_erasesize d).

Definition goods (d : D) (a : Z) : list Z :=
  goods_n (blocks_left d a) d a.

(** Block addresses and the end of the device. *)
Definition boundary (d : D) (a : Z) : Prop :=
  0 <= a <= fl_size d /\ a mod fl_erasesize d = 0.

Lemma boundary_next d a : is_block d a -> boundary d (a + fl_erasesize d).
Proof using FL.
  intros [Ha Hm]. destruct (fl_geometry d) as (He & Hs & Hd).
  apply Z.mod_divide in Hm as [k ->], Hd as [m Hm]; [|lia..].
  rewrite <- Z.mul_succ_l. unfold boundary. rewrite Hm in *.
  assert (0 <= k < m) by nia. split; [nia|]. apply Z.mod_mul. lia.
Qed.

Lemma boundary_block d a : boundary d a -> a < fl_size d -> is_block d a.
Proof using. intros [? ?] ?. split; [lia|done]. Qed.

Lemma blocks_left_next d a : is_block d a -> blocks_left d a = S (blocks_left d (a + fl_erasesize d)).
Proof using FL.
  intros Hb. pose proof (boundary_next d a Hb) as [Hn _]. unfold blocks_left.
  destruct (fl_geometry d) as (He & _ & _).
  replace (fl_size d - a) with (fl_size d - (a + fl_erasesize d) + 1 * fl_erasesize d) by lia.
  rewrite Z.div_add by lia.
  pose proof (Z.div_pos (fl_size d - (a + fl_erasesize d)) (fl_erasesize d)). lia.
Qed.

Lemma goods_step d a : is_block d a ->
  goods d a = if is_bad d a then goods d (a + fl_erasesize d)
              else a :: goods d (a + fl_erasesize d).
Proof using FL. intros Hb. unfold goods. by rewrite (blocks_left_next d a Hb). Qed.

Lemma goods_end d : goods d (fl_size d) = [].
Proof using FL.
  destruct (fl_geometry d). unfold goods, blocks_left. by rewrite Z.sub_diag, Z.div_0_l by lia.
Qed.

Lemma goods_same d d' a : same_info d d' -> goods d' a = goods d a.
Proof using.
  intros Hi. unfold goods, blocks_left. pose proof Hi as (Hs & He & _ & _).
  rewrite Hs, He. generalize (Z.to_nat ((fl_size d - a) / fl_erasesize d)). intros n.
  revert a. induction n as [|n IH]; intros a; [done|]. cbn [goods_n]. unfold is_bad.
  rewrite (same_info_bad d d' a) by done. by rewrite He, IH.
Qed.

Lemma is_bad_good d a : is_block d a -> is_bad d a = false <-> good_block d a.
Proof using.
  intros Ha. unfold good_block, is_bad.
  destruct (mtd_block_is_bad d a) as [[]| |]; naive_solver.
Qed.

Lemma blocks_left_le d a : 0 <= a -> (blocks_left d a <= Z.to_nat (fl_size d / fl_erasesize d))%nat.
Proof using FL.
  intros. unfold blocks_left. destruct (fl_geometry d) as (He & _ & _).
  pose proof (Z.div_le_mono (fl_size d - a) (fl_size d) (fl_erasesize d)). lia.
Qed.

(** Two blocks less than a block apart are the same. *)
Lemma is_block_near d a b : is_block d a -> is_block d b -> a <= b < a + fl_erasesize d -> b = a.
Proof using FL.
  intros [? Ha] [? Hb] Hlt. destruct (fl_geometry d) as (He & _).
  apply Z.mod_divide in Ha as [x ->], Hb as [y ->]; [|lia..]. assert (x = y) by nia. by subst.
Qed.

(** Induction over the blocks of a device, from an address to the end. *)
Lemma block_ind d (P : Z -> Prop) :
  P (fl_size d) ->
  (forall a, is_block d a -> P (a + fl_erasesize d) -> P a) ->
  forall a, boundary d a -> P a.
Proof using FL.
  intros Hend Hstep a Ha.
  remember (blocks_left d a) as n eqn:Hn. revert a Ha Hn. induction n as [|n IH]; intros a Ha Hn.
  - destruct (decide (a = fl_size d)) as [->|]; [done|].
    assert (is_block d a) as Hb by (apply boundary_block; [done|destruct Ha; lia]).
    rewrite blocks_left_next in Hn by done. lia.
  - destruct (decide (a = fl_size d)) as [->|]; [done|].
    assert (is_block d a) as Hb by (apply boundary_block; [done|destruct Ha; lia]).
    rewrite blocks_left_next in Hn by done. apply Hstep; [done|].
    apply IH; [by apply boundary_next|lia].
Qed.

Lemma goods_cons_inv d a g rest : boundary d a -> goods d a = g :: rest ->
  a <= g /\ good_block d g /\ goods d (g + fl_erasesize d) = rest.
Proof using FL.
  intros Ha. revert a Ha. apply (block_ind d (fun a => goods d a = g :: rest -> _)).
  - by rewrite goods_end.
  - intros a Ha IH. rewrite goods_step by done. destruct (is_bad d a) eqn:Hbad.
    + intros Hg. destruct (IH Hg) as (? & ? & ?). destruct (fl_geometry d). split; [lia|done].
    + intros [= <- <-]. split; [lia|]. split; [by apply is_bad_good|done].
Qed.

Lemma goods_ge d a x : boundary d a -> x ∈ goods d a -> a <= x.
Proof using FL.
  intros Ha. revert a Ha. apply (block_ind d (fun a => x ∈ goods d a -> a <= x)).
  - rewrite goods_end. by intros ?%not_elem_of_nil.
  - intros a Ha IH. rewrite goods_step by done. destruct (fl_geometry d).
    case_match; [intros Hx%IH; lia|]. intros [->|Hx%IH]%elem_of_cons; lia.
Qed.

(** [blks] have been stored in the first good blocks from [o] on; the next good
    block is the first one from [a] on. *)
Definition programmed (d0 : D) (o : Z) (blks : list (list Z)) (d : D) (a : Z) : Prop :=
  same_info d0 d /\ boundary d0 a /\ o + fl_erasesize d0 * Z.of_nat (length blks) <= a /\
  exists addrs, goods d0 o = addrs ++ goods d0 a /\ Forall (fun x => is_block d0 x /\ x < a) addrs /\
    map (block d) addrs = blks /\
    forall b, is_block d0 b -> b ∉ addrs -> block d b = block d0 b.

Lemma programmed_nil d o : boundary d o -> programmed d o [] d o.
Proof using.
  intros Ho. split; [apply same_info_refl|]. split; [done|]. split; [simpl; lia|]. by exists [].
Qed.

Lemma programmed_snoc d0 o blks d a g rest bs d' :
  programmed d0 o blks d a -> goods d0 a = g :: rest -> block_set d g bs d' ->
  programmed d0 o (blks ++ [bs]) d' (g + fl_erasesize d0).
Proof using FL.
  intros (Hi & Ha & Hsp & addrs & Ho & Hlt & Hm & Hf) Hg (Hi' & Hb & Hf').
  destruct (goods_cons_inv d0 a g rest Ha Hg) as (Hle & [Hgb _] & Hrest).
  split; [by eapply same_info_trans|]. split; [by apply boundary_next|].
  split; [rewrite length_app; simpl; lia|]. exists (addrs ++ [g]). split_and!.
  - by rewrite Ho, Hg, Hrest, <- app_assoc.
  - apply Forall_app. destruct (fl_geometry d0). split; [|constructor; [split; [done|lia]|done]].
    eapply Forall_impl; [done|]. simpl. intros x [? ?]. split; [done|lia].
  - rewrite map_app. simpl. f_equal; [|by rewrite Hb]. rewrite <- Hm.
    apply map_ext_in. intros x Hx%list_elem_of_In. rewrite Forall_forall in Hlt.
    destruct (Hlt x Hx) as [Hxb ?]. apply Hf'; [by apply (same_info_is_block d0)|lia].
  - intros b Hbb Hn. rewrite not_elem_of_app, not_elem_of_cons in Hn.
    destruct Hn as (Hn & Hne & _). rewrite Hf', Hf; [done..|by apply (same_info_is_block d0)|done].
Qed.

(** More blocks behind those that have been stored. *)
Lemma programmed_app d0 o blks d a blks' d' a' :
  programmed d0 o blks d a -> programmed d a blks' d' a' ->
  programmed d0 o (blks ++ blks') d' a'.
Proof using FL.
  intros (Hi & Ha & Hsp & addrs & Ho & Hlt & Hm & Hf) (Hi' & Ha' & Hsp' & addrs' & Ho' & Hlt' & Hm' & Hf').
  pose proof Hi as (Hs & He & _). assert (boundary d0 a') as Hba by (unfold boundary in *; by rewrite Hs, He in Ha').
  rewrite He in Hsp'. rewrite !(goods_same d0 d) in Ho' by done.
  destruct (fl_geometry d0) as (Hpos & _).
  assert (forall x, x ∈ addrs' -> is_block d0 x /\ a <= x < a') as Hin.
  { intros x Hx. rewrite Forall_forall in Hlt'. destruct (Hlt' x Hx) as [Hxb Hxa].
    split; [by apply (same_info_is_block d0 d)|]. split; [|done].
    by apply (goods_ge d0 a x Ha); rewrite Ho'; apply elem_of_app; left. }
  split; [by eapply same_info_trans|]. split; [done|]. split; [rewrite length_app; lia|].
  exists (addrs ++ addrs'). split_and!.
  - by rewrite Ho, Ho', app_assoc.
  - apply Forall_app. split.
    + eapply Forall_impl; [done|]. simpl. intros x [? ?]. split; [done|lia].
    + apply Forall_forall. intros x Hx. destruct (Hin x Hx). split; [done|lia].
  - rewrite map_app. f_equal; [|done]. rewrite <- Hm. apply map_ext_in. intros x Hx%list_elem_of_In.
    rewrite Forall_forall in Hlt. destruct (Hlt x Hx) as [Hxb ?].
    apply Hf'; [by apply (same_info_is_block d0 d)|]. intros Hx'. apply Hin in Hx'. lia.
  - intros b Hb Hn. rewrite not_elem_of_app in Hn. destruct Hn.
    rewrite Hf', Hf; [done..|by apply (same_info_is_block d0 d)|done].
Qed.

(** ** [mtd erase] *)

Lemma mtd_erase_loop_ok d0 : forall fuel d a, boundary d0 a -> same_info d0 d ->
  (blocks_left d0 a < fuel)%nat ->
  exists d', mtd_erase_loop fuel d a = Done d' /\ same_info d0 d' /\
    forall b, is_block d0 b -> block d' b =
      if (a <=? b) && negb (is_bad d0 b) then replicate (Z.to_nat (fl_erasesize d0)) 255 else block d b.
Proof using FL.
  intros fuel d a Ha. revert fuel d. revert a Ha. destruct (fl_geometry d0) as (Hpos & _).
  refine (block_ind d0 _ _ _).
  - intros [|fuel] d Hi Hf; [lia|]. pose proof Hi as (Hs & _). cbn [mtd_erase_loop]. rewrite Hs, Z.ltb_irrefl.
    exists d. split_and!; try done. intros b [? ?]. by rewrite (proj2 (Z.leb_gt _ _)) by lia.
  - intros a Ha IH [|fuel] d Hi Hf; [lia|]. pose proof Hi as (Hs & He & _).
    rewrite blocks_left_next in Hf by done. cbn [mtd_erase_loop]. rewrite Hs, (proj2 (Z.ltb_lt _ _)) by apply Ha.
    destruct (mtd_block_is_bad_cases d0 a Ha) as (r & Hr & Hr0).
    rewrite (same_info_bad d0), Hr, He by done. cbn [mbind outcome_bind].
    assert (forall b, is_block d0 b -> b <> a -> (a <=? b) = (a + fl_erasesize d0 <=? b)) as Hnext.
    { intros b Hb Hne. destruct (Z.leb_spec a b); destruct (Z.leb_spec (a + fl_erasesize d0) b); [done| |lia|done].
      exfalso. apply Hne. eapply (is_block_near d0); [done..|lia]. }
    destruct (Z.eqb_spec r 0) as [-> |Hr1].
    + destruct (fl_erase _ _ _) as [d1 r1] eqn:Her. rewrite <- He in Her.
      assert (good_block d0 a) as Hg by done. apply fl_erase_block in Her as (_ & Hi1 & Hb1 & Ho1); [|by apply (same_info_good d0)].
      destruct (IH fuel d1) as (d' & Hrun & Hi' & Hb'); [by eapply same_info_trans|lia|].
      exists d'. split_and!; [done..|]. intros b Hb. rewrite Hb' by done.
      destruct (decide (b = a)) as [-> |Hne].
      * rewrite (proj2 (is_bad_good d0 a Ha) Hg), Z.leb_refl, Hb1, He. by case_match.
      * rewrite (Hnext b Hb Hne), Ho1; [done|by apply (same_info_is_block d0)|done].
    + destruct (IH fuel d Hi) as (d' & Hrun & Hi' & Hb'); [lia|].
      exists d'. split_and!; [done..|]. intros b Hb. rewrite Hb' by done.
      destruct (decide (b = a)) as [-> |Hne]; [|by rewrite (Hnext b Hb Hne)].
      assert (is_bad d0 a = true) as -> by (unfold is_bad; rewrite Hr; by destruct r). by rewrite !andb_false_r.
Qed.

(** [mtd erase] ends with every good block erased and every bad block as it was. *)
Theorem mtd_erase_correct d : exists d', mtd_erase d = Done d' /\ same_info d d' /\
  forall b, is_block d b -> block d' b =
    if is_bad d b then block d b else replicate (Z.to_nat (fl_erasesize d)) 255.
Proof using FL.
  destruct (fl_geometry d) as (Hpos & Hs & _).
  destruct (mtd_erase_loop_ok d (S (Z.to_nat (fl_size d / fl_erasesize d))) d 0) as (d' & Hrun & Hi & Hb).
  - split; [lia|]. by apply Z.mod_0_l; lia.
  - apply same_info_refl.
  - pose proof (blocks_left_le d 0). lia.
  - exists d'. split_and!; [done..|]. intros b Hbb. rewrite Hb by done. destruct Hbb as [? _].
    rewrite (proj2 (Z.leb_le _ _)) by lia. by destruct (is_bad d b).
Qed.

End goods.
