(* ===== verification/MtdNor.v ===== *)
(** * A flash device

    An instance of [Flash] and its laws: an array of bytes in which erasing a block
    sets all bits and writing can only clear bits. *)

From stdpp Require Import options.
From S2P Require Import Prelude Mtd.

Definition nor_valid (cells : list Z) (es : Z) : bool :=
  (0 <? es) && (Z.of_nat (length cells) <? 2 ^ 31) && (Z.of_nat (length cells) mod es =? 0) &&
  forallb (fun b => (0 <=? b) && (b <? 256)) cells.

(** The cells, the size of an erase block, the addresses of the bad blocks, and
    whether the device reports them. *)
Record nor := Nor {
  n_cells : list Z; n_es : Z; n_bad : list Z; n_nand : bool;
  n_valid : nor_valid n_cells n_es = true }.

Lemma nor_bytes (cells : list Z) :
  forallb (fun b => (0 <=? b) && (b <? 256)) cells = true <-> Forall (is_word 8) cells.
Proof.
  rewrite forallb_forall, Forall_forall. unfold is_word. split; intros H x Hx.
  - apply list_elem_of_In, H in Hx. b2p. lia.
  - apply list_elem_of_In in Hx. apply H in Hx. apply andb_true_intro. split; lia.
Qed.

(** Writing a byte over a byte. *)
Definition program (old new : list Z) : list Z := zip_with Z.land old new.

Definition new_cells (cells : list Z) (es : Z) (a : Z) (bs : list Z) : list Z :=
  match mem_write cells (Z.to_nat a) bs with
  | Some cells' => if nor_valid cells' es then cells' else cells
  | None => cells
  end.

Lemma new_cells_valid cells es a bs :
  nor_valid cells es = true -> nor_valid (new_cells cells es a bs) es = true.
Proof. intros. unfold new_cells. repeat case_match; done. Qed.

Definition nor_put (d : nor) (a : Z) (bs : list Z) : nor :=
  Nor (new_cells (n_cells d) (n_es d) a bs) (n_es d) (n_bad d) (n_nand d)
      (new_cells_valid _ _ _ _ (n_valid d)).

Definition nor_size (d : nor) : Z := Z.of_nat (length (n_cells d)).

Definition nor_slice (d : nor) (a n : Z) : list Z := take (Z.to_nat n) (drop (Z.to_nat a) (n_cells d)).

Definition nor_isbad (d : nor) (a : Z) : Z :=
  if (0 <=? a) && (a <? nor_size d) then if bool_decide (a - a mod n_es d ∈ n_bad d) then 1 else 0 else -1.

Definition nor_erase (d : nor) (a n : Z) : nor * Z :=
  if (0 <=? a) && (a + n <=? nor_size d) && (a mod n_es d =? 0) && (n =? n_es d) &&
     negb (n_nand d && bool_decide (a ∈ n_bad d))
  then (nor_put d a (replicate (Z.to_nat n) 255), 0) else (d, -1).

Definition nor_write (d : nor) (a : Z) (bs : list Z) : nor * Z :=
  if (0 <=? a) && (a + Z.of_nat (length bs) <=? nor_size d)
  then (nor_put d a (program (nor_slice d a (Z.of_nat (length bs))) bs), Z.of_nat (length bs))
  else (d, -1).

#[export] Instance nor_flash : Flash nor := {
  fl_size := nor_size; fl_erasesize := n_es; fl_nand := n_nand; fl_isbad := nor_isbad;
  fl_unlock := fun d _ _ => d; fl_erase := nor_erase; fl_read := nor_slice;
  fl_write := nor_write }.

(** ** The laws *)

Lemma nor_valid_spec (d : nor) :
  0 < n_es d /\ nor_size d < 2 ^ 31 /\ nor_size d mod n_es d = 0 /\ Forall (is_word 8) (n_cells d).
Proof.
  pose proof (n_valid d) as Hv. unfold nor_valid in Hv. rewrite !andb_true_iff in Hv.
  destruct Hv as [[[? ?] ?] Hb]. apply nor_bytes in Hb. unfold nor_size. b2p. split_and!; try done; lia.
Qed.

Lemma nor_put_spec d a bs :
  0 <= a -> a + Z.of_nat (length bs) <= nor_size d -> Forall (is_word 8) bs ->
  mem_write (n_cells d) (Z.to_nat a) bs = Some (n_cells (nor_put d a bs)).
Proof.
  intros Ha Hl Hb. unfold nor_size in Hl. cbn [nor_put n_cells]. unfold new_cells.
  destruct (mem_write_some (n_cells d) (Z.to_nat a) bs) as [c Hc]; [lia|]. rewrite Hc.
  pose proof (mem_write_length _ _ _ _ Hc) as Hlen.
  pose proof (n_valid d) as Hv. unfold nor_valid in *. rewrite Hlen.
  rewrite !andb_true_iff in Hv. destruct Hv as [[[-> ->] ->] Hv]. simpl.
  replace (forallb _ c) with true; [done|]. symmetry. apply nor_bytes. apply nor_bytes in Hv.
  unfold mem_write in Hc. case_decide; [|done]. injection Hc as <-.
  rewrite !Forall_app. auto using Forall_take, Forall_drop.
Qed.

Lemma nor_put_size d a bs : nor_size (nor_put d a bs) = nor_size d.
Proof.
  unfold nor_size. cbn [nor_put n_cells]. unfold new_cells.
  destruct (mem_write _ _ _) as [c|] eqn:Hc; [|done]. case_match; [|done].
  by rewrite (mem_write_length _ _ _ _ Hc).
Qed.

Lemma nor_put_info d a bs : same_info d (nor_put d a bs).
Proof.
  split_and!; try done; [apply nor_put_size|]. intros b. simpl. unfold nor_isbad.
  by rewrite nor_put_size.
Qed.

Lemma nor_slice_read d a n :
  0 <= a -> 0 <= n -> a + n <= nor_size d ->
  mem_read (n_cells d) (Z.to_nat a) (Z.to_nat n) = Some (nor_slice d a n).
Proof. intros. unfold mem_read, nor_slice, nor_size in *. by rewrite decide_True by lia. Qed.

Lemma nor_block_end (d : nor) a : is_block d a -> 0 <= a /\ a + n_es d <= nor_size d.
Proof.
  intros [Ha Hm]. simpl in *. destruct (nor_valid_spec d) as (He & _ & Hd & _).
  apply Z.mod_divide in Hm as [k Hk], Hd as [m Hm]; [|lia..].
  assert (k < m) by nia. split; [lia|]. nia.
Qed.

Lemma nor_blocks_apart (d : nor) a b : is_block d a -> is_block d b -> b <> a ->
  b + n_es d <= a \/ a + n_es d <= b.
Proof.
  intros [_ Ha] [_ Hb] Hne. simpl in *. destruct (nor_valid_spec d) as (He & _).
  apply Z.mod_divide in Ha as [k Hk], Hb as [m Hm]; [|lia..].
  assert (k + 1 <= m \/ m + 1 <= k) as [?|?] by (assert (k <> m) by congruence; lia); nia.
Qed.

Lemma nor_put_block (d : nor) a bs : is_block d a -> Z.of_nat (length bs) = n_es d ->
  Forall (is_word 8) bs -> block_set d a bs (nor_put d a bs).
Proof.
  intros Ha Hl Hb. destruct (nor_block_end d a Ha) as [Ha0 Hae].
  pose proof (nor_put_spec d a bs Ha0 ltac:(lia) Hb) as Hw. destruct (nor_valid_spec d) as (He & _).
  split; [apply nor_put_info|]. unfold block. simpl. split.
  - pose proof (mem_read_write_eq _ _ _ _ Hw) as Hr. rewrite <- (Nat2Z.id (length bs)), Hl in Hr.
    rewrite nor_slice_read in Hr by (rewrite ?nor_put_size; lia). by injection Hr.
  - intros b Hbb Hne. destruct (nor_block_end d b Hbb) as [Hb0 Hbe].
    pose proof (nor_blocks_apart d a b Ha Hbb Hne) as Hap.
    pose proof (mem_read_write_ne _ _ _ _ (Z.to_nat b) (Z.to_nat (n_es d)) Hw ltac:(lia)) as Hr.
    rewrite !nor_slice_read in Hr by (rewrite ?nor_put_size; lia). by injection Hr.
Qed.

Lemma land_255 bs : Forall (is_word 8) bs -> zip_with Z.land (replicate (length bs) 255) bs = bs.
Proof.
  induction 1 as [|b bs Hb _ IH]; [done|]. simpl. f_equal; [|done].
  rewrite Z.land_comm. change 255 with (Z.ones 8). rewrite Z.land_ones by lia. by apply Z.mod_small.
Qed.

#[export] Instance nor_laws : FlashLaws nor.
Proof.
  split.
  - intros d. destruct (nor_valid_spec d) as (? & ? & ? & _). simpl. unfold nor_size in *.
    split_and!; try done; lia.
  - intros d a [Ha _]. simpl in *. unfold nor_isbad.
    rewrite (proj2 (Z.leb_le _ _)), (proj2 (Z.ltb_lt _ _)) by lia. simpl. by case_bool_decide.
  - intros d a n. simpl. split; [apply same_info_refl|done].
  - intros d a Ha. destruct (nor_block_end d a Ha). destruct (nor_valid_spec d) as (? & _ & _ & Hb).
    unfold block. simpl. unfold nor_slice, nor_size in *. split; [slen|].
    auto using Forall_take, Forall_drop.
  - intros d a k n Ha Hk Hn Hkn. destruct (nor_block_end d a Ha). unfold block. simpl in *. unfold nor_slice.
    rewrite skipn_firstn_comm, drop_drop, take_take. f_equal; [lia|]. f_equal. lia.
  - intros d n. simpl. unfold nor_slice, nor_size. by rewrite drop_ge, take_nil by lia.
  - intros d a d' r [Ha Hgood]. destruct (nor_block_end d a Ha). simpl. unfold nor_erase.
    assert (negb (n_nand d && bool_decide (a ∈ n_bad d)) = true) as Hnb.
    { unfold mtd_block_is_bad in Hgood. simpl in Hgood. unfold nor_isbad in Hgood. destruct (n_nand d); [|done].
      simpl. rewrite (proj2 (Z.leb_le _ _)), (proj2 (Z.ltb_lt a _)) in Hgood by (destruct Ha; simpl in *; lia).
      simpl in Hgood. destruct Ha as [_ Ha]. change (fl_erasesize d) with (n_es d) in Ha.
      rewrite Ha, Z.sub_0_r in Hgood. by case_bool_decide. }
    rewrite (proj2 (Z.leb_le 0 a)), (proj2 (Z.leb_le (a + _) _)), Z.eqb_refl, Hnb by lia.
    pose proof (proj2 Ha) as Hm. simpl in Hm. rewrite Hm. simpl. intros [= <- <-].
    destruct (nor_valid_spec d) as (? & _). split; [done|]. apply nor_put_block; [done|slen|].
    apply Forall_replicate. unfold is_word. lia.
  - intros d a bs d' r [Ha _] He Hl Hb. destruct (nor_block_end d a Ha). simpl in *. unfold nor_write.
    rewrite (proj2 (Z.leb_le 0 a)), (proj2 (Z.leb_le (a + _) _)) by lia. simpl. intros [= <- <-].
    split; [done|]. rewrite Hl. unfold block in He. simpl in He. rewrite He, <- Hl, Nat2Z.id.
    unfold program. rewrite land_255 by done. by apply nor_put_block.
  - intros d _. simpl. unfold nor_isbad. by rewrite Z.ltb_irrefl, andb_false_r.
  - intros d d' r. simpl. unfold nor_erase. destruct (nor_valid_spec d) as (? & _).
    rewrite (proj2 (Z.leb_gt (_ + _) _)) by lia. rewrite andb_false_r. simpl. by intros [= <- <-].
Qed.
