(* ===== verification/Jffs2.v ===== *)
(** * The jffs2 writer of the flash tool

    src/package/system/mtd/src/jffs2.c: the file that holds the preserved
    configuration is appended to the jffs2 file system of an image as a log of
    nodes, one buffer of the size of an erase block at a time.  The file-scope
    variables of jffs2.c are the record [jffs2]; the functions are state
    transformers on it. *)

From stdpp Require Import options.
From S2P Require Import Prelude Crc32 Mtd.

(** ** On-disk structures (jffs2.h) *)

Definition JFFS2_MAGIC_BITMASK : Z := 0x1985.
Definition KSAMTIB_CIGAM_2SFFJ : Z := 0x8519.
Definition JFFS2_NODETYPE_DIRENT : Z := 0xe001.
Definition JFFS2_NODETYPE_INODE : Z := 0xe002.
Definition JFFS2_NODETYPE_CLEANMARKER : Z := 0x2003.

Definition S_IFDIR : Z := 0x4000.
Definition DT_DIR : Z := 4.
Definition DT_REG : Z := 8.

(** [struct jffs2_raw_dirent], without the name that follows it *)
Record jffs2_raw_dirent := {
  de_magic : Z; de_nodetype : Z; de_totlen : Z; de_hdr_crc : Z; de_pino : Z;
  de_version : Z; de_ino : Z; de_mctime : Z; de_nsize : Z; de_type : Z;
  de_node_crc : Z; de_name_crc : Z }.

(** [struct jffs2_raw_inode], without the data that follow it *)
Record jffs2_raw_inode := {
  ri_magic : Z; ri_nodetype : Z; ri_totlen : Z; ri_hdr_crc : Z; ri_ino : Z;
  ri_version : Z; ri_mode : Z; ri_uid : Z; ri_gid : Z; ri_isize : Z; ri_atime : Z;
  ri_mtime : Z; ri_ctime : Z; ri_offset : Z; ri_csize : Z; ri_dsize : Z;
  ri_compr : Z; ri_usercompr : Z; ri_flags : Z; ri_data_crc : Z; ri_node_crc : Z }.

Definition sizeof_unknown_node : Z := 12.
Definition sizeof_dirent : Z := 40.
Definition sizeof_inode : Z := 68.

(** The bytes of a structure in memory, in the byte order of the target. *)
Definition dirent_bytes (o : endian) (de : jffs2_raw_dirent) : list Z :=
  enc o 2 (de_magic de) ++ enc o 2 (de_nodetype de) ++ enc o 4 (de_totlen de) ++
  enc o 4 (de_hdr_crc de) ++ enc o 4 (de_pino de) ++ enc o 4 (de_version de) ++
  enc o 4 (de_ino de) ++ enc o 4 (de_mctime de) ++ enc o 1 (de_nsize de) ++
  enc o 1 (de_type de) ++ [0; 0] ++ enc o 4 (de_node_crc de) ++ enc o 4 (de_name_crc de).

Definition inode_bytes (o : endian) (ri : jffs2_raw_inode) : list Z :=
  enc o 2 (ri_magic ri) ++ enc o 2 (ri_nodetype ri) ++ enc o 4 (ri_totlen ri) ++
  enc o 4 (ri_hdr_crc ri) ++ enc o 4 (ri_ino ri) ++ enc o 4 (ri_version ri) ++
  enc o 4 (ri_mode ri) ++ enc o 2 (ri_uid ri) ++ enc o 2 (ri_gid ri) ++
  enc o 4 (ri_isize ri) ++ enc o 4 (ri_atime ri) ++ enc o 4 (ri_mtime ri) ++
  enc o 4 (ri_ctime ri) ++ enc o 4 (ri_offset ri) ++ enc o 4 (ri_csize ri) ++
  enc o 4 (ri_dsize ri) ++ enc o 1 (ri_compr ri) ++ enc o 1 (ri_usercompr ri) ++
  enc o 2 (ri_flags ri) ++ enc o 4 (ri_data_crc ri) ++ enc o 4 (ri_node_crc ri).

(** [CLEANMARKER]: a string per byte order *)
Definition CLEANMARKER (o : endian) : list Z :=
  match o with
  | BE => [0x19; 0x85; 0x20; 0x03; 0x00; 0x00; 0x00; 0x0c; 0xf0; 0x60; 0xdc; 0x98]
  | LE => [0x85; 0x19; 0x03; 0x20; 0x0c; 0x00; 0x00; 0x00; 0xb1; 0xb0; 0x1e; 0xe4]
  end.

Definition JFFS2_EOF : list Z := [0xde; 0xad; 0xc0; 0xde].

(** [PAD(x)], on a 32-bit unsigned argument *)
Definition PAD (x : Z) : Z := Z.land (u32 (x + 3)) (u32 (-4)).

(** ** Files of the host *)

Record stat := { st_mode : Z; st_size : Z; st_atime : Z; st_mtime : Z; st_ctime : Z }.

(** What stat(2) and open(2) give for a name. *)
Definition host := cstr -> option (stat * option file).

(** What follows the last slash of a path. *)
Fixpoint strrchr_slash (s : cstr) : option cstr :=
  match s with
  | [] => None
  | c :: s' =>
      match strrchr_slash s' with
      | Some r => Some r
      | None => if c =? 47 then Some s' else None
      end
  end.

Definition base_name (name : cstr) : cstr :=
  match strrchr_slash name with Some r => r | None => name end.

(** The byte order and the width of [size_t] of the target. *)
Record target := { t_order : endian; t_size_bits : Z }.

Section writer.
Context {D : Type} `{Flash D} (tg : target).
(** [mtdsize] and [erasesize], which [mtd_check_open] sets *)
Context (mtdsize erasesize : Z).

Abbreviation order := (t_order tg).

(** The file-scope variables of jffs2.c; [outfd] is a device and a position. *)
Record jffs2 := {
  last_ino : Z; last_version : Z; buf : list Z; ofs : Z;
  dev : D; pos : Z; mtdofs : Z; target_ino : Z }.

(** Their initial values, when [outfd] is the device [d]. *)
Definition jffs2_init (d : D) : jffs2 :=
  {| last_ino := 0; last_version := 0; buf := []; ofs := 0; dev := d; pos := 0; mtdofs := 0;
     target_ino := 0 |}.

Definition set_last_ino s x := {| last_ino := x; last_version := last_version s;
  buf := buf s; ofs := ofs s; dev := dev s; pos := pos s; mtdofs := mtdofs s;
  target_ino := target_ino s |}.
Definition set_last_version s x := {| last_ino := last_ino s; last_version := x;
  buf := buf s; ofs := ofs s; dev := dev s; pos := pos s; mtdofs := mtdofs s;
  target_ino := target_ino s |}.
Definition set_buf s x := {| last_ino := last_ino s; last_version := last_version s;
  buf := x; ofs := ofs s; dev := dev s; pos := pos s; mtdofs := mtdofs s;
  target_ino := target_ino s |}.
Definition set_ofs s x := {| last_ino := last_ino s; last_version := last_version s;
  buf := buf s; ofs := x; dev := dev s; pos := pos s; mtdofs := mtdofs s;
  target_ino := target_ino s |}.
Definition set_out s d p m := {| last_ino := last_ino s; last_version := last_version s;
  buf := buf s; ofs := ofs s; dev := d; pos := p; mtdofs := m;
  target_ino := target_ino s |}.
Definition set_target s x := {| last_ino := last_ino s; last_version := last_version s;
  buf := buf s; ofs := ofs s; dev := dev s; pos := pos s; mtdofs := mtdofs s;
  target_ino := x |}.

(** [memcpy(buf + p, bs, ...)] and [memset(buf + p, v, n)] *)
Definition memcpy (s : jffs2) (p : Z) (bs : list Z) : outcome jffs2 :=
  b ← defined (mem_write (buf s) (Z.to_nat p) bs); Done (set_buf s b).
Definition memset (s : jffs2) (p v n : Z) : outcome jffs2 :=
  memcpy s p (replicate (Z.to_nat n) v).

(** [x++] on an [int]: overflow is undefined *)
Definition int_incr (x : Z) : outcome Z :=
  if x =? 2 ^ 31 - 1 then Undef else Done (x + 1).

(** ** Blocks *)

(** [while (mtd_block_is_bad(outfd, mtdofs) && (mtdofs < mtdsize))]; [fuel] is one
    more than the number of blocks *)
Fixpoint skip_bad (fuel : nat) (s : jffs2) : outcome jffs2 :=
  match fuel with
  | O => Undef
  | S fuel =>
      bad ← mtd_block_is_bad (dev s) (mtdofs s);
      if negb (bad =? 0) && (mtdofs s <? mtdsize)
      then skip_bad fuel (set_out s (dev s) (pos s + erasesize) (mtdofs s + erasesize))
      else Done s
  end.

(** the writing of a full buffer in [pad] *)
Definition flush (s : jffs2) : outcome jffs2 :=
  s ← skip_bad (S (Z.to_nat (mtdsize / erasesize))) s;
  let '(d1, _) := mtd_erase_block (dev s) (mtdofs s) in
  let '(d2, r) := fl_write d1 (pos s) (buf s) in
  Done (set_out s d2 (pos s + Z.max 0 r) (mtdofs s + erasesize)).

Definition pad (size : Z) (s : jffs2) : outcome jffs2 :=
  if (Z.rem (ofs s) size =? 0) && (ofs s <? erasesize) then Done s else
  s ← (if ofs s <? erasesize then
         let n := size - Z.rem (ofs s) size in
         s' ← memset s (ofs s) 255 n; Done (set_ofs s' (ofs s + n))
       else Done s);
  let s := set_ofs s (Z.rem (ofs s) erasesize) in
  if ofs s =? 0 then flush s else Done s.

Definition rbytes (s : jffs2) : Z := erasesize - Z.rem (ofs s) erasesize.

(** [add_data] and [prep_eraseblock] call each other; [fuel] bounds the depth. *)
Fixpoint add_data_rec (fuel : nat) (ptr : list Z) (s : jffs2) : outcome jffs2 :=
  s ← (if erasesize <? ofs s + Z.of_nat (length ptr) then
         s ← pad erasesize s;
         match fuel with
         | O => Undef
         | S fuel => if 0 <? ofs s then Done s else add_data_rec fuel (CLEANMARKER order) s
         end
       else Done s);
  s ← memcpy s (ofs s) ptr;
  Done (set_ofs s (ofs s + Z.of_nat (length ptr))).

Definition add_data (ptr : list Z) (s : jffs2) : outcome jffs2 := add_data_rec 1 ptr s.

Definition prep_eraseblock (s : jffs2) : outcome jffs2 :=
  if 0 <? ofs s then Done s else add_data (CLEANMARKER order) s.

(** ** Directory entries *)

(** The assignments to [*de] in their order; a checksum covers the bytes of the
    structure at that point. *)
Definition make_dirent (name : cstr) (type ino parent version : Z) : jffs2_raw_dirent :=
  let de hdr_crc version nsize node_crc :=
    {| de_magic := JFFS2_MAGIC_BITMASK; de_nodetype := JFFS2_NODETYPE_DIRENT;
       de_totlen := sizeof_dirent + Z.of_nat (strlen name); de_hdr_crc := hdr_crc;
       de_pino := parent; de_version := version; de_ino := ino; de_mctime := 0;
       de_nsize := nsize; de_type := type; de_node_crc := node_crc;
       de_name_crc := crc32 0 name |} in
  let nsize := u8 (Z.of_nat (strlen name)) in
  let hdr_crc := crc32 0 (take 8 (dirent_bytes order (de 0 0 0 0))) in
  let node_crc := crc32 0 (take 32 (dirent_bytes order (de hdr_crc version nsize 0))) in
  de hdr_crc version nsize node_crc.

Definition add_dirent (name : cstr) (type parent : Z) (s : jffs2) : outcome (Z * jffs2) :=
  s ← (if wrap (t_size_bits tg) (ofs s - erasesize)
          <? sizeof_dirent + Z.of_nat (strlen name)
       then pad erasesize s else Done s);
  s ← prep_eraseblock s;
  ino ← int_incr (last_ino s);
  let p := ofs s in
  s ← memset s p 0 sizeof_dirent;
  ino' ← int_incr ino;
  version' ← int_incr (last_version s);
  let de := make_dirent name type ino parent (last_version s) in
  let s := set_last_version (set_last_ino s ino') version' in
  s ← memcpy s p (dirent_bytes order de);
  s ← memcpy s (p + sizeof_dirent) name;
  s ← pad 4 (set_ofs s (p + sizeof_dirent + de_nsize de));
  (* return de->ino: the structure is still in the buffer *)
  r ← defined (get32 order (buf s) (Z.to_nat (p + 20)));
  Done (s32 r, s).

(** The fields that [add_dir] and [add_file] set for every node: the header, then
    version, offset and sizes, then the checksum over all but the last eight bytes. *)
Definition seal_inode (ri : jffs2_raw_inode) (version offset len data_crc : Z) : jffs2_raw_inode :=
  let mk hdr_crc version offset len data_crc node_crc :=
    {| ri_magic := ri_magic ri; ri_nodetype := ri_nodetype ri;
       ri_totlen := sizeof_inode + len; ri_hdr_crc := hdr_crc; ri_ino := ri_ino ri;
       ri_version := version; ri_mode := ri_mode ri; ri_uid := 0; ri_gid := 0;
       ri_isize := ri_isize ri; ri_atime := ri_atime ri; ri_mtime := ri_mtime ri;
       ri_ctime := ri_ctime ri; ri_offset := offset; ri_csize := len; ri_dsize := len;
       ri_compr := 0; ri_usercompr := 0; ri_flags := 0; ri_data_crc := data_crc;
       ri_node_crc := node_crc |} in
  let hdr_crc := crc32 0 (take 8 (inode_bytes order (mk 0 0 0 len 0 0))) in
  let node_crc := crc32 0 (take 60 (inode_bytes order (mk hdr_crc version offset len 0 0))) in
  mk hdr_crc version offset len data_crc node_crc.

Definition add_dir (name : cstr) (parent : Z) (s : jffs2) : outcome (Z * jffs2) :=
  '(inode, s) ← add_dirent name DT_DIR parent s;
  s ← (if rbytes s <? sizeof_inode then pad erasesize s else Done s);
  s ← prep_eraseblock s;
  let ri := {| ri_magic := JFFS2_MAGIC_BITMASK; ri_nodetype := JFFS2_NODETYPE_INODE;
       ri_totlen := 0; ri_hdr_crc := 0; ri_ino := inode; ri_version := 0;
       ri_mode := Z.lor S_IFDIR 493; ri_uid := 0; ri_gid := 0; ri_isize := 0;
       ri_atime := 0; ri_mtime := 0; ri_ctime := 0; ri_offset := 0; ri_csize := 0;
       ri_dsize := 0; ri_compr := 0; ri_usercompr := 0; ri_flags := 0;
       ri_data_crc := 0; ri_node_crc := 0 |} in
  s ← add_data (inode_bytes order (seal_inode ri 1 0 0 0)) s;
  s ← pad 4 s;
  Done (inode, s).

(** ** File data *)

(** The inner loop of [add_file].  After one round the block holds only its clean
    marker, so a second failure repeats for ever. *)
Fixpoint file_room (fuel : nat) (s : jffs2) : outcome (Z * jffs2) :=
  match fuel with
  | O => Undef
  | S fuel =>
      let len := s32 (rbytes s - sizeof_inode) in
      if 128 <? len then Done (len, s) else
      s ← pad erasesize s;
      s ← prep_eraseblock s;
      file_room fuel s
  end.

Definition file_node (ri : jffs2_raw_inode) (version f_offset : Z) (data : list Z) : list Z :=
  inode_bytes order (seal_inode ri version f_offset (Z.of_nat (length data)) (crc32 0 data)).

Fixpoint file_loop (fuel : nat) (ri : jffs2_raw_inode) (f : file) (f_offset : Z) (s : jffs2)
    : outcome jffs2 :=
  match fuel with
  | O => Undef
  | S fuel =>
      '(len, s) ← file_room 2 s;
      let len := if 4096 <? len then 4096 else len in
      match file_read f len with
      | (Failed _, _) => Done s
      | (Got [], _) => Done s
      | (Got wbuf, f) =>
          version ← int_incr (last_version s);
          let s := set_last_version s version in
          s ← add_data (file_node ri version f_offset wbuf) s;
          s ← add_data wbuf s;
          s ← pad 4 s;
          s ← prep_eraseblock s;
          file_loop fuel ri f (f_offset + Z.of_nat (length wbuf)) s
      end
  end.

Definition file_inode (st : stat) (inode : Z) : jffs2_raw_inode :=
  {| ri_magic := JFFS2_MAGIC_BITMASK; ri_nodetype := JFFS2_NODETYPE_INODE;
     ri_totlen := 0; ri_hdr_crc := 0; ri_ino := inode; ri_version := 0;
     ri_mode := st_mode st; ri_uid := 0; ri_gid := 0; ri_isize := st_size st;
     ri_atime := st_atime st; ri_mtime := st_mtime st; ri_ctime := st_ctime st;
     ri_offset := 0; ri_csize := 0; ri_dsize := 0; ri_compr := 0; ri_usercompr := 0;
     ri_flags := 0; ri_data_crc := 0; ri_node_crc := 0 |}.

Definition add_file (h : host) (name : cstr) (parent : Z) (s : jffs2) : outcome jffs2 :=
  match h name with
  | None => Done s
  | Some (st, fd) =>
      '(inode, s) ← add_dirent (base_name name) DT_REG parent s;
      match fd with
      | None => Done s
      | Some f => file_loop (S (length (f_rest f))) (file_inode st inode) f 0 s
      end
  end.

(** [add_data(JFFS2_EOF, ...)] between two [pad(erasesize)] *)
Definition add_eof (s : jffs2) : outcome jffs2 :=
  s ← pad erasesize s;
  s ← add_data JFFS2_EOF s;
  pad erasesize s.

(** [mtd_replace_jffs2], called with the file-scope variables [s], the device and
    its position; [junk] is the uninitialised buffer. *)
Definition mtd_replace_jffs2 (h : host) (d : D) (p o : Z) (junk : list Z) (filename : cstr)
    (s : jffs2) : outcome (Z * jffs2) :=
  let s := set_target (set_buf (set_out s d p o) junk) 1 in
  let s := if last_ino s =? 0 then set_last_ino s 1 else s in
  s ← add_file h filename (target_ino s) s;
  s ← add_eof s;
  Done (mtdofs s - o, s).

(** ** Reading the nodes of a block *)

(** [!strncmp(a, b, n)] on a buffer and a C string with its terminator *)
Fixpoint strncmp_eq (n : nat) (a b : list Z) : option bool :=
  match n with
  | O => Some true
  | S n =>
      match a, b with
      | x :: a, y :: b =>
          if x =? y then if x =? 0 then Some true else strncmp_eq n a b else Some false
      | _, _ => None
      end
  end.

Definition get16 (m : list Z) (p : nat) : option Z :=
  bs ← mem_read m p 2; Some (dec order bs).
Definition get8 (m : list Z) (p : nat) : option Z := m !! p.

(** the branch for directory entries *)
Definition parse_dirent (b : list Z) (dir : cstr) (o : nat) (s : jffs2) : option jffs2 :=
  pino ← get32 order b (o + 12);
  version ← get32 order b (o + 16);
  ino ← get32 order b (o + 20);
  nsize ← get8 b (o + 28);
  here ← (if negb (bool_decide (dir = [])) && (pino =? 1)
          then strncmp_eq (Z.to_nat nsize) (drop (o + 40) b) (dir ++ [0])
          else Some false);
  let s := if (here : bool) then set_target s (s32 ino) else s in
  let s := if u32 (last_ino s) <? ino then set_last_ino s (s32 ino) else s in
  let s := if u32 (last_version s) <? version then set_last_version s (s32 version) else s in
  Some s.

(** The loop of [mtd_parse_jffs2data]; [fuel] is one more than the number of words. *)
Fixpoint parse_nodes (fuel : nat) (b : list Z) (dir : cstr) (o : Z) (s : jffs2)
    : outcome jffs2 :=
  match fuel with
  | O => Undef
  | S fuel =>
      if o <? u32 erasesize then
        let p := Z.to_nat o in
        magic ← defined (get16 b p);
        if negb (magic =? JFFS2_MAGIC_BITMASK) then Done s else
        totlen ← defined (get32 order b (p + 4));
        nodetype ← defined (get16 b (p + 2));
        s ← (if nodetype =? JFFS2_NODETYPE_DIRENT
             then defined (parse_dirent b dir p s) else Done s);
        parse_nodes fuel b dir (u32 (o + PAD totlen)) s
      else Done s
  end.

Definition mtd_parse_jffs2data (b : list Z) (dir : cstr) (s : jffs2) : outcome jffs2 :=
  parse_nodes (S (Z.to_nat (erasesize / 4))) b dir 0 s.

(** ** Appending to a partition *)

(** How the first loop of [mtd_write_jffs2] ends. *)
Inductive scan_end := EndOfFs | EndOfDevice | WrongEndian.

(** [fuel] is one more than the number of blocks. *)
Fixpoint scan_blocks (fuel : nat) (dir : cstr) (s : jffs2) : outcome (scan_end * jffs2) :=
  match fuel with
  | O => Undef
  | S fuel =>
      let bs := fl_read (dev s) (pos s) erasesize in
      if negb (Z.of_nat (length bs) =? erasesize) then Done (EndOfDevice, s) else
      let s := set_out (set_buf s bs) (dev s) (pos s + erasesize) (mtdofs s + erasesize) in
      magic ← defined (get16 bs 0);
      if magic =? KSAMTIB_CIGAM_2SFFJ then Done (WrongEndian, s) else
      if negb (magic =? JFFS2_MAGIC_BITMASK) then Done (EndOfFs, s) else
      s ← mtd_parse_jffs2data bs dir s;
      scan_blocks fuel dir s
  end.

(** [mtd_write_jffs2] on an opened device, for targets without [trx_fixup]. *)
Definition mtd_write_jffs2 (h : host) (junk : list Z) (filename dir : cstr) (s : jffs2)
    : outcome (Z * jffs2) :=
  let s := set_buf s junk in
  let s := if bool_decide (dir = []) then set_target s 1 else s in
  '(r, s) ← scan_blocks (S (Z.to_nat (mtdsize / erasesize))) dir s;
  match r with
  | EndOfFs =>
      let s := set_out s (dev s) (mtdofs s - erasesize) (mtdofs s - erasesize) in
      let s := set_ofs s 0 in
      let s := if last_ino s =? 0 then set_last_ino s 1 else s in
      s ← (if target_ino s =? 0 then
             '(ino, s) ← add_dir dir 1 s; Done (set_target s ino)
           else Done s);
      s ← add_file h filename (target_ino s) s;
      s ← add_eof s;
      Done (0, s)
  | EndOfDevice | WrongEndian => Done (-1, s)
  end.

End writer.
