(* ===== verification/Jffs2Spec.v ===== *)
(** * The jffs2 format

    A reference reader of jffs2: nodes, their encoding, the scan of an erase block
    and the files that a log of nodes holds.  The layout is that of jffs2.h; a
    reader accepts a node when its checksums are right, follows the directory
    entry with the highest version, and reads each byte of a file from the node
    with the highest version that covers it. *)

From stdpp Require Import options.
From S2P Require Import Prelude Crc32 Mtd Jffs2.

(** ** Nodes *)

Record inode_info := {
  ii_ino : Z; ii_version : Z; ii_mode : Z; ii_isize : Z;
  ii_atime : Z; ii_mtime : Z; ii_ctime : Z; ii_offset : Z }.

Inductive node :=
| NClean
| NDirent (pino version ino type : Z) (name : list Z)
| NInode (i : inode_info) (data : list Z).

#[export] Instance inode_info_eq_dec : EqDecision inode_info.
Proof. solve_decision. Defined.
#[export] Instance node_eq_dec : EqDecision node.
Proof. solve_decision. Defined.

Section format.
Context (o : endian).

(** The [n]-byte integer at offset [p]. *)
Definition field (bs : list Z) (p n : nat) : Z := dec o (take n (drop p bs)).

Definition parse_dirent_node (bs : list Z) : option node :=
  let nsize := Z.to_nat (field bs 28 1) in
  let name := take nsize (drop 40 bs) in
  if decide ((40 + nsize <= length bs)%nat /\
             field bs 32 4 = crc32 0 (take 32 bs) /\ field bs 36 4 = crc32 0 name)
  then Some (NDirent (field bs 12 4) (field bs 16 4) (field bs 20 4) (field bs 29 1) name)
  else None.

(** Data are not compressed. *)
Definition parse_inode_node (bs : list Z) : option node :=
  let csize := field bs 48 4 in
  if decide (68 + csize <= Z.of_nat (length bs) /\ field bs 52 4 = csize /\
             field bs 56 1 = 0 /\ field bs 64 4 = crc32 0 (take 60 bs))
  then
    let data := take (Z.to_nat csize) (drop 68 bs) in
    if decide (field bs 60 4 = crc32 0 data)
    then Some (NInode {| ii_ino := field bs 12 4; ii_version := field bs 16 4;
                         ii_mode := field bs 20 4; ii_isize := field bs 28 4;
                         ii_atime := field bs 32 4; ii_mtime := field bs 36 4;
                         ii_ctime := field bs 40 4; ii_offset := field bs 44 4 |} data)
    else None
  else None.

(** The node at the head of [bs] and the length in its header. *)
Definition parse_node (bs : list Z) : option (node * nat) :=
  let totlen := field bs 4 4 in
  if decide (12 <= totlen <= Z.of_nat (length bs) /\ field bs 0 2 = JFFS2_MAGIC_BITMASK /\
             field bs 8 4 = crc32 0 (take 8 bs))
  then
    let body := take (Z.to_nat totlen) bs in
    let type := field bs 2 2 in
    n ← (if type =? JFFS2_NODETYPE_CLEANMARKER then Some NClean
         else if type =? JFFS2_NODETYPE_DIRENT then parse_dirent_node body
         else if type =? JFFS2_NODETYPE_INODE then parse_inode_node body
         else None);
    Some (n, Z.to_nat totlen)
  else None.

(** Nodes start at multiples of four bytes. *)
Definition round4 (n : nat) : nat := (n + 3) / 4 * 4.

Fixpoint scan_nodes (fuel : nat) (bs : list Z) : list node :=
  match fuel with
  | O => []
  | S fuel =>
      match parse_node bs with
      | Some (n, totlen) => n :: scan_nodes fuel (drop (round4 totlen) bs)
      | None => []
      end
  end.

Definition scan_block (bs : list Z) : list node := scan_nodes (length bs) bs.

(** ** Encoding *)

Definition info_inode (i : inode_info) : jffs2_raw_inode :=
  {| ri_magic := JFFS2_MAGIC_BITMASK; ri_nodetype := JFFS2_NODETYPE_INODE;
     ri_totlen := 0; ri_hdr_crc := 0; ri_ino := ii_ino i; ri_version := 0;
     ri_mode := ii_mode i; ri_uid := 0; ri_gid := 0; ri_isize := ii_isize i;
     ri_atime := ii_atime i; ri_mtime := ii_mtime i; ri_ctime := ii_ctime i;
     ri_offset := 0; ri_csize := 0; ri_dsize := 0; ri_compr := 0; ri_usercompr := 0;
     ri_flags := 0; ri_data_crc := 0; ri_node_crc := 0 |}.

Definition node_bytes (tg : target) (n : node) : list Z :=
  match n with
  | NClean => CLEANMARKER (t_order tg)
  | NDirent pino version ino type name =>
      dirent_bytes (t_order tg) (make_dirent tg name type ino pino version) ++ name
  | NInode i data =>
      file_node tg (info_inode i) (ii_version i) (ii_offset i) data ++ data
  end.

End format.

(** A node with the erased bytes up to the next multiple of four. *)
Definition padded (tg : target) (n : node) : list Z :=
  let bs := node_bytes tg n in bs ++ replicate (round4 (length bs) - length bs) 255.

Definition log_bytes (tg : target) (ns : list node) : list Z := concat (map (padded tg) ns).

(** A block that holds nodes and is erased behind them. *)
Definition block_of (tg : target) (erasesize : nat) (ns : list node) : list Z :=
  log_bytes tg ns ++ replicate (erasesize - length (log_bytes tg ns)) 255.

(** ** Files of a log *)

(** The element with the highest key, the last one of those. *)
Definition latest {A} (key : A -> Z) (l : list A) : option A :=
  fold_left (fun best x => match best with
                           | Some y => if key x <? key y then Some y else Some x
                           | None => Some x end) l None.

Definition dirents (pino : Z) (name : list Z) (ns : list node) : list (Z * Z) :=
  omap (fun n => match n with
                 | NDirent p v i _ nm => if decide (p = pino /\ nm = name) then Some (v, i) else None
                 | _ => None end) ns.

Definition inodes (ino : Z) (ns : list node) : list (inode_info * list Z) :=
  omap (fun n => match n with
                 | NInode i data => if decide (ii_ino i = ino) then Some (i, data) else None
                 | _ => None end) ns.

Definition covers (k : Z) (x : inode_info * list Z) : bool :=
  (ii_offset (fst x) <=? k) && (k <? ii_offset (fst x) + Z.of_nat (length (snd x))).

(** The byte at position [k]; a hole reads as zero. *)
Definition file_byte (xs : list (inode_info * list Z)) (k : Z) : Z :=
  match latest (fun x => ii_version (fst x)) (List.filter (covers k) xs) with
  | Some (i, data) => nth (Z.to_nat (k - ii_offset i)) data 0
  | None => 0
  end.

(** The content of the file [name] in the directory with inode number [pino]; an
    entry whose inode has no node is not a file. *)
Definition read_file (ns : list node) (pino : Z) (name : list Z) : option (list Z) :=
  '(_, ino) ← latest fst (dirents pino name ns);
  let xs := inodes ino ns in
  '(i, _) ← latest (fun x => ii_version (fst x)) xs;
  Some (map (file_byte xs) (seqZ 0 (ii_isize i))).

(** ** The nodes of a file written in pieces *)

Definition chunk_info (st : stat) (ino version offset : Z) : inode_info :=
  {| ii_ino := ino; ii_version := version; ii_mode := st_mode st; ii_isize := st_size st;
     ii_atime := st_atime st; ii_mtime := st_mtime st; ii_ctime := st_ctime st;
     ii_offset := offset |}.

(** Consecutive pieces with consecutive versions. *)
Fixpoint file_chunks (st : stat) (ino version offset : Z) (chunks : list (list Z)) : list node :=
  match chunks with
  | [] => []
  | c :: cs => NInode (chunk_info st ino version offset) c
               :: file_chunks st ino (version + 1) (offset + Z.of_nat (length c)) cs
  end.
