(* ===== verification/Jffs2Facts.v ===== *)
(** * Nodes and blocks of jffs2 as bytes

    The reader of [Jffs2Spec] reads back the nodes that the writer encodes, in any
    block and in both byte orders. *)

From stdpp Require Import options.
From S2P Require Import Prelude Crc32 Mtd Jffs2 Jffs2Spec.

(** ** Fields *)

Lemma field_enc_skip o k v b p n :
  (k <= p)%nat -> field o (enc o k v ++ b) p n = field o b (p - k) n.
Proof. intros. unfold field. rewrite drop_app_ge by slen. by rewrite length_enc. Qed.

Lemma field_skip o a b p n :
  (length a <= p)%nat -> field o (a ++ b) p n = field o b (p - length a) n.
Proof. intros. unfold field. by rewrite drop_app_ge. Qed.

Lemma field_here o n v b : field o (enc o n v ++ b) 0 n = v mod 256 ^ Z.of_nat n.
Proof. unfold field. by rewrite drop_0, take_app_length' by slen; rewrite dec_enc. Qed.

Lemma field_app_in o a b p n : (p + n <= length a)%nat -> field o (a ++ b) p n = field o a p n.
Proof.
  intros. unfold field. destruct (decide (n = 0)%nat) as [->|]; [done|].
  rewrite drop_app_le by lia. by rewrite take_app_le by slen.
Qed.

Lemma take_enc o k n v b : (k <= n)%nat -> take n (enc o k v ++ b) = enc o k v ++ take (n - k) b.
Proof. intros. rewrite take_app_ge by slen. by rewrite length_enc. Qed.

Lemma field_here_word o n v b :
  is_word (8 * Z.of_nat n) v -> field o (enc o n v ++ b) 0 n = v.
Proof.
  intros Hv. rewrite field_here. unfold is_word in Hv.
  apply Z.mod_small. replace (256 ^ Z.of_nat n) with (2 ^ (8 * Z.of_nat n)); [done|].
  rewrite Z.pow_mul_r by lia. done.
Qed.

(** Walk each field to the integer it reads. *)
Ltac fields :=
  repeat match goal with
  | |- context [field ?o (enc ?o ?k ?v ++ ?b) ?p ?n] =>
      rewrite (field_enc_skip o k v b p n) by (cbn; lia); cbn [Nat.sub]
  | |- context [field ?o ([0; 0] ++ ?b) ?p ?n] =>
      rewrite (field_skip o [0; 0] b p n) by (cbn; lia); cbn [Nat.sub length]
  end.

Lemma crc32_word0 bs : Forall (is_word 8) bs -> is_word 32 (crc32 0 bs).
Proof. apply crc32_word. unfold is_word. lia. Qed.

(** ** Prefixes covered by the checksums *)

Lemma dirent_bytes_8 o de : take 8 (dirent_bytes o de)
  = enc o 2 (de_magic de) ++ enc o 2 (de_nodetype de) ++ enc o 4 (de_totlen de).
Proof.
  unfold dirent_bytes. do 3 rewrite take_enc by lia. cbn [Nat.sub].
  by rewrite take_0, app_nil_r.
Qed.

Lemma dirent_bytes_32 o de : take 32 (dirent_bytes o de)
  = enc o 2 (de_magic de) ++ enc o 2 (de_nodetype de) ++ enc o 4 (de_totlen de) ++
    enc o 4 (de_hdr_crc de) ++ enc o 4 (de_pino de) ++ enc o 4 (de_version de) ++
    enc o 4 (de_ino de) ++ enc o 4 (de_mctime de) ++ enc o 1 (de_nsize de) ++
    enc o 1 (de_type de) ++ [0; 0].
Proof. unfold dirent_bytes. do 10 rewrite take_enc by lia. done. Qed.

Lemma inode_bytes_8 o ri : take 8 (inode_bytes o ri)
  = enc o 2 (ri_magic ri) ++ enc o 2 (ri_nodetype ri) ++ enc o 4 (ri_totlen ri).
Proof.
  unfold inode_bytes. do 3 rewrite take_enc by lia. cbn [Nat.sub].
  by rewrite take_0, app_nil_r.
Qed.

Lemma inode_bytes_60 o ri : take 60 (inode_bytes o ri)
  = enc o 2 (ri_magic ri) ++ enc o 2 (ri_nodetype ri) ++ enc o 4 (ri_totlen ri) ++
    enc o 4 (ri_hdr_crc ri) ++ enc o 4 (ri_ino ri) ++ enc o 4 (ri_version ri) ++
    enc o 4 (ri_mode ri) ++ enc o 2 (ri_uid ri) ++ enc o 2 (ri_gid ri) ++
    enc o 4 (ri_isize ri) ++ enc o 4 (ri_atime ri) ++ enc o 4 (ri_mtime ri) ++
    enc o 4 (ri_ctime ri) ++ enc o 4 (ri_offset ri) ++ enc o 4 (ri_csize ri) ++
    enc o 4 (ri_dsize ri) ++ enc o 1 (ri_compr ri) ++ enc o 1 (ri_usercompr ri) ++
    enc o 2 (ri_flags ri).
Proof.
  unfold inode_bytes. do 19 rewrite take_enc by lia. cbn [Nat.sub].
  by rewrite take_0, app_nil_r.
Qed.

Lemma length_dirent_bytes o de : length (dirent_bytes o de) = 40%nat.
Proof. unfold dirent_bytes. slen. Qed.
Lemma length_inode_bytes o ri : length (inode_bytes o ri) = 68%nat.
Proof. unfold inode_bytes. slen. Qed.
#[export] Hint Rewrite length_dirent_bytes length_inode_bytes : len.

Lemma dirent_bytes_range o de : Forall (is_word 8) (dirent_bytes o de).
Proof.
  unfold dirent_bytes. rewrite !Forall_app. repeat split; try apply enc_range.
  rewrite !Forall_cons, Forall_nil. unfold is_word. lia.
Qed.
Lemma inode_bytes_range o ri : Forall (is_word 8) (inode_bytes o ri).
Proof. unfold inode_bytes. rewrite !Forall_app. repeat split; apply enc_range. Qed.

Lemma make_dirent_hdr_crc tg name type ino parent version :
  let de := make_dirent tg name type ino parent version in
  de_hdr_crc de = crc32 0 (take 8 (dirent_bytes (t_order tg) de)).
Proof. cbv zeta. rewrite dirent_bytes_8. cbn. by rewrite dirent_bytes_8. Qed.

Lemma make_dirent_node_crc tg name type ino parent version :
  let de := make_dirent tg name type ino parent version in
  de_node_crc de = crc32 0 (take 32 (dirent_bytes (t_order tg) de)).
Proof. cbv zeta. rewrite dirent_bytes_32. cbn. by rewrite dirent_bytes_32. Qed.

Lemma seal_inode_hdr_crc tg ri version offset len crc :
  let ri' := seal_inode tg ri version offset len crc in
  ri_hdr_crc ri' = crc32 0 (take 8 (inode_bytes (t_order tg) ri')).
Proof. cbv zeta. rewrite inode_bytes_8. cbn. by rewrite inode_bytes_8. Qed.

Lemma seal_inode_node_crc tg ri version offset len crc :
  let ri' := seal_inode tg ri version offset len crc in
  ri_node_crc ri' = crc32 0 (take 60 (inode_bytes (t_order tg) ri')).
Proof. cbv zeta. rewrite inode_bytes_60. cbn. by rewrite inode_bytes_60. Qed.

(** ** Reading a node back *)

Definition wf_node (n : node) : Prop :=
  match n with
  | NClean => True
  | NDirent pino version ino type name =>
      is_word 32 pino /\ is_word 32 version /\ is_word 32 ino /\ is_word 8 type /\
      Forall (is_word 8) name /\ (length name < 256)%nat
  | NInode i data =>
      is_word 32 (ii_ino i) /\ is_word 32 (ii_version i) /\ is_word 32 (ii_mode i) /\
      is_word 32 (ii_isize i) /\ is_word 32 (ii_atime i) /\ is_word 32 (ii_mtime i) /\
      is_word 32 (ii_ctime i) /\ is_word 32 (ii_offset i) /\
      Forall (is_word 8) data /\ 68 + Z.of_nat (length data) < 2 ^ 32
  end.

Definition node_len (n : node) : nat :=
  match n with
  | NClean => 12
  | NDirent _ _ _ _ name => 40 + length name
  | NInode _ data => 68 + length data
  end.

Lemma length_node_bytes tg n : length (node_bytes tg n) = node_len n.
Proof. destruct n; cbn [node_bytes node_len]; unfold file_node; slen. by destruct (t_order tg). Qed.
#[export] Hint Rewrite length_node_bytes : len.

Lemma node_bytes_range tg n : wf_node n -> Forall (is_word 8) (node_bytes tg n).
Proof.
  destruct n; cbn [node_bytes wf_node]; unfold file_node.
  - intros _. destruct (t_order tg); cbn; rewrite !Forall_cons, Forall_nil; unfold is_word; lia.
  - intros (_&_&_&_&?&_). apply Forall_app. split; [apply dirent_bytes_range|done].
  - intros (_&_&_&_&_&_&_&_&?&_). apply Forall_app. split; [apply inode_bytes_range|done].
Qed.

Lemma parse_dirent_node_bytes tg pino version ino type name :
  wf_node (NDirent pino version ino type name) ->
  parse_dirent_node (t_order tg) (node_bytes tg (NDirent pino version ino type name))
  = Some (NDirent pino version ino type name).
Proof.
  intros (Hp & Hv & Hi & Ht & Hn & Hl). cbn [node_bytes].
  pose proof (make_dirent_node_crc tg name type ino pino version) as Hcrc. cbv zeta in Hcrc.
  set (de := make_dirent tg name type ino pino version) in *.
  assert (field (t_order tg) (dirent_bytes (t_order tg) de ++ name) 28 1 = Z.of_nat (length name)) as Hsz.
  { unfold dirent_bytes. rewrite <- !app_assoc. fields. rewrite field_here.
    subst de. cbn. unfold u8, wrap. rewrite Z.mod_mod by lia. apply Z.mod_small. unfold strlen. lia. }
  unfold parse_dirent_node. rewrite Hsz, Nat2Z.id.
  rewrite drop_app_length' by slen. rewrite firstn_all.
  rewrite take_app_le by slen. rewrite <- Hcrc.
  assert (is_word 32 (de_node_crc de)) as Hw1.
  { rewrite Hcrc. apply crc32_word0, Forall_take, dirent_bytes_range. }
  assert (is_word 32 (de_name_crc de)) as Hw2 by (subst de; cbn; by apply crc32_word0).
  rewrite decide_True.
  - unfold dirent_bytes. rewrite <- !app_assoc. fields. rewrite !field_here_word by done. done.
  - split; [slen|]. unfold dirent_bytes. rewrite <- !app_assoc. fields.
    rewrite !field_here_word by done. done.
Qed.

Lemma parse_inode_node_bytes tg i data :
  wf_node (NInode i data) ->
  parse_inode_node (t_order tg) (node_bytes tg (NInode i data)) = Some (NInode i data).
Proof.
  intros (Hi & Hv & Hm & Hs & Ha & Ht & Hc & Ho & Hd & Hl). cbn [node_bytes]. unfold file_node.
  set (len := Z.of_nat (length data)).
  pose proof (seal_inode_node_crc tg (info_inode i) (ii_version i) (ii_offset i) len
    (crc32 0 data)) as Hcrc. cbv zeta in Hcrc.
  set (ri := seal_inode _ _ _ _ _ _) in *.
  assert (field (t_order tg) (inode_bytes (t_order tg) ri ++ data) 48 4 = len) as Hsz.
  { unfold inode_bytes. rewrite <- !app_assoc. fields. rewrite field_here_word; [done|].
    subst ri len. unfold is_word. cbn. lia. }
  unfold parse_inode_node. rewrite Hsz. replace (Z.to_nat len) with (length data) by lia.
  rewrite (take_app_le _ _ 60) by slen. rewrite <- Hcrc.
  assert (is_word 32 (ri_node_crc ri)) as Hw1.
  { rewrite Hcrc. apply crc32_word0, Forall_take, inode_bytes_range. }
  assert (is_word 32 (crc32 0 data)) as Hw2 by by apply crc32_word0.
  rewrite decide_True.
  - rewrite drop_app_length' by slen. rewrite firstn_all. rewrite decide_True.
    + unfold inode_bytes. rewrite <- !app_assoc. fields. rewrite !field_here_word by done.
      by destruct i.
    + unfold inode_bytes. rewrite <- !app_assoc. fields. by rewrite !field_here_word by done.
  - split; [slen|]. unfold inode_bytes. rewrite <- !app_assoc. fields.
    rewrite !field_here_word by (try done; subst ri len; unfold is_word; cbn; lia). done.
Qed.

(** The header that all nodes share. *)
Lemma node_header tg n rest : wf_node n ->
  let bs := node_bytes tg n ++ rest in
  field (t_order tg) bs 0 2 = JFFS2_MAGIC_BITMASK /\
  field (t_order tg) bs 2 2 = match n with
    | NClean => JFFS2_NODETYPE_CLEANMARKER | NDirent _ _ _ _ _ => JFFS2_NODETYPE_DIRENT
    | NInode _ _ => JFFS2_NODETYPE_INODE end /\
  field (t_order tg) bs 4 4 = Z.of_nat (node_len n) /\
  field (t_order tg) bs 8 4 = crc32 0 (take 8 bs).
Proof.
  intros Hwf. cbv zeta. destruct n as [|pino version ino type name|i data].
  - rewrite take_app_le, !field_app_in by slen.
    cbn [node_bytes]. destruct (t_order tg); repeat split; by vm_compute.
  - destruct Hwf as (_&_&_&_&_&Hl). cbn [node_bytes node_len].
    pose proof (make_dirent_hdr_crc tg name type ino pino version) as Hcrc. cbv zeta in Hcrc.
    rewrite <- app_assoc, take_app_le by slen. rewrite <- Hcrc.
    assert (is_word 32 (de_hdr_crc (make_dirent tg name type ino pino version))) as Hw
      by (rewrite Hcrc; apply crc32_word0, Forall_take, dirent_bytes_range).
    assert (is_word 32 (40 + Z.of_nat (length name))) as Hw' by (unfold is_word; lia).
    unfold dirent_bytes. rewrite <- !app_assoc. fields.
    change (de_totlen _) with (40 + Z.of_nat (length name)).
    rewrite !field_here_word by done. repeat split. lia.
  - destruct Hwf as (_&_&_&_&_&_&_&_&_&Hl). cbn [node_bytes node_len]. unfold file_node.
    set (len := Z.of_nat (length data)) in *.
    pose proof (seal_inode_hdr_crc tg (info_inode i) (ii_version i) (ii_offset i) len
      (crc32 0 data)) as Hcrc. cbv zeta in Hcrc.
    set (ri := seal_inode _ _ _ _ _ _) in *.
    rewrite <- app_assoc, take_app_le by slen. rewrite <- Hcrc.
    assert (is_word 32 (ri_hdr_crc ri)) as Hw
      by (rewrite Hcrc; apply crc32_word0, Forall_take, inode_bytes_range).
    assert (is_word 32 (68 + len)) as Hw' by (unfold is_word; lia).
    unfold inode_bytes. rewrite <- !app_assoc. fields.
    change (ri_totlen ri) with (68 + len).
    rewrite !field_here_word by done. repeat split. lia.
Qed.

Lemma parse_node_bytes tg n rest : wf_node n ->
  parse_node (t_order tg) (node_bytes tg n ++ rest) = Some (n, node_len n).
Proof.
  intros Hwf. destruct (node_header tg n rest Hwf) as (Hm & Ht & Hl & Hc).
  unfold parse_node. rewrite Hm, Ht, Hl, Hc, Nat2Z.id.
  rewrite decide_True; [|split; [destruct n; cbn [node_len]; slen|done]].
  rewrite take_app_length' by slen.
  destruct n; [done| |].
  - by rewrite parse_dirent_node_bytes.
  - by rewrite parse_inode_node_bytes.
Qed.

(** ** Blocks *)

Lemma round4_spec n : (n <= round4 n < n + 4 /\ round4 n mod 4 = 0)%nat.
Proof.
  unfold round4. split; [|by apply Nat.Div0.mod_mul].
  pose proof (Nat.div_mod_eq (n + 3) 4). pose proof (Nat.mod_upper_bound (n + 3) 4). lia.
Qed.

Lemma round4_Z n : Z.of_nat n <= Z.of_nat (round4 n) < Z.of_nat n + 4 /\
  Z.of_nat (round4 n) mod 4 = 0.
Proof.
  destruct (round4_spec n) as [H1 H2]. split; [lia|].
  change 4 with (Z.of_nat 4). by rewrite <- Nat2Z.inj_mod, H2.
Qed.

(** Bytes with erased bytes up to the alignment. *)
Definition pad4_bytes (bs : list Z) : list Z :=
  bs ++ replicate (round4 (length bs) - length bs) 255.

Lemma length_pad4_bytes bs : length (pad4_bytes bs) = round4 (length bs).
Proof. unfold pad4_bytes. pose proof (round4_spec (length bs)). slen. Qed.

Lemma rem_round4 n : 0 < Z.rem (Z.of_nat n) 4 ->
  4 - Z.rem (Z.of_nat n) 4 = Z.of_nat (round4 n - n).
Proof.
  rewrite Z.rem_mod_nonneg by lia. intros Hr. destruct (round4_Z n) as [H1 H2].
  rewrite Nat2Z.inj_sub by lia. dlia.
Qed.

Lemma length_padded tg n : length (padded tg n) = round4 (node_len n).
Proof. unfold padded. pose proof (round4_spec (node_len n)). slen. Qed.
#[export] Hint Rewrite length_padded : len.

Lemma padded_range tg n : wf_node n -> Forall (is_word 8) (padded tg n).
Proof.
  intros. apply Forall_app. split; [by apply node_bytes_range|].
  apply Forall_replicate. unfold is_word. lia.
Qed.

Lemma log_bytes_app tg a b : log_bytes tg (a ++ b) = log_bytes tg a ++ log_bytes tg b.
Proof. unfold log_bytes. by rewrite map_app, concat_app. Qed.

Lemma log_bytes_range tg ns : Forall wf_node ns -> Forall (is_word 8) (log_bytes tg ns).
Proof.
  induction 1 as [|n ns Hn _ IH]; [constructor|].
  apply Forall_app. split; [by apply padded_range|done].
Qed.

Lemma log_bytes_length_mod tg ns : (length (log_bytes tg ns) mod 4 = 0)%nat.
Proof.
  induction ns as [|n ns IH]; [done|]. change (log_bytes tg (n :: ns)) with (padded tg n ++ log_bytes tg ns).
  rewrite length_app, Nat.Div0.add_mod, IH, length_padded.
  by rewrite (proj2 (round4_spec _)).
Qed.

Lemma round4_add a b : (a mod 4 = 0)%nat -> round4 (a + b) = (a + round4 b)%nat.
Proof.
  intros Ha. apply Nat.Div0.mod_divides in Ha as [k ->]. unfold round4.
  replace (4 * k + b + 3)%nat with (b + 3 + k * 4)%nat by lia.
  rewrite Nat.div_add by lia. lia.
Qed.

(** A node added behind aligned nodes and padded is a longer log. *)
Lemma log_bytes_snoc tg ns n :
  log_bytes tg (ns ++ [n]) = pad4_bytes (log_bytes tg ns ++ node_bytes tg n).
Proof.
  rewrite log_bytes_app. unfold log_bytes at 2. cbn [map concat]. rewrite app_nil_r.
  unfold padded, pad4_bytes. rewrite <- app_assoc. do 3 f_equal.
  rewrite length_app, round4_add by apply log_bytes_length_mod. lia.
Qed.

Lemma log_bytes_clean tg : log_bytes tg [NClean] = CLEANMARKER (t_order tg).
Proof. unfold log_bytes, padded. cbn. by destruct (t_order tg). Qed.

Lemma log_bytes_length_ge tg ns : (length ns <= length (log_bytes tg ns))%nat.
Proof.
  induction ns as [|n ns IH]; [done|]. change (log_bytes tg (n :: ns)) with (padded tg n ++ log_bytes tg ns).
  pose proof (round4_spec (node_len n)). assert (12 <= node_len n)%nat by (destruct n; simpl; lia).
  slen.
Qed.

Lemma log_bytes_nil_inv tg ns : log_bytes tg ns = [] -> ns = [].
Proof.
  intros H. pose proof (log_bytes_length_ge tg ns). rewrite H in *. by destruct ns; [|simpl in *; lia].
Qed.

Lemma parse_node_erased o k : parse_node o (replicate k 255) = None.
Proof.
  unfold parse_node. rewrite decide_False; [done|]. intros (Hl & Hm & _).
  rewrite length_replicate in Hl. destruct k as [|[|k]]; [lia|lia|].
  revert Hm. unfold field. rewrite drop_0. by destruct o.
Qed.

Lemma scan_nodes_log tg ns tail fuel :
  Forall wf_node ns -> (length ns <= fuel)%nat -> parse_node (t_order tg) tail = None ->
  scan_nodes (t_order tg) fuel (log_bytes tg ns ++ tail) = ns.
Proof.
  intros Hwf Hf Ht. revert fuel Hf. induction Hwf as [|n ns Hn _ IH]; intros fuel Hf.
  - destruct fuel; [done|]. cbn [log_bytes map concat app scan_nodes]. by rewrite Ht.
  - destruct fuel as [|fuel]; [simpl in Hf; lia|].
    change (log_bytes tg (n :: ns)) with (padded tg n ++ log_bytes tg ns).
    cbn [scan_nodes]. rewrite <- app_assoc.
    replace (parse_node _ _) with (Some (n, node_len n)).
    + rewrite drop_app_length' by slen. f_equal. apply IH. simpl in Hf. lia.
    + unfold padded. rewrite <- app_assoc. by rewrite parse_node_bytes.
Qed.

Lemma length_block_of tg E ns :
  (length (log_bytes tg ns) <= E)%nat -> length (block_of tg E ns) = E.
Proof. intros. unfold block_of. slen. Qed.

Lemma block_of_range tg E ns : Forall wf_node ns -> Forall (is_word 8) (block_of tg E ns).
Proof.
  intros. apply Forall_app. split; [by apply log_bytes_range|].
  apply Forall_replicate. unfold is_word. lia.
Qed.

(** A block written by the tool scans to its nodes. *)
Lemma scan_block_of tg E ns :
  Forall wf_node ns -> scan_block (t_order tg) (block_of tg E ns) = ns.
Proof.
  intros. unfold scan_block, block_of. apply scan_nodes_log; [done| |apply parse_node_erased].
  pose proof (log_bytes_length_ge tg ns). slen.
Qed.
