(* ===== verification/Jffs2Log.v ===== *)
(** * Logs of nodes

    What a reader finds in a log: a directory entry followed by the pieces of a file, in a
    log whose older entries of that name have no higher version and whose older nodes do
    not use the inode number, reads as the file.  And how the state of jffs2.c represents
    a log. *)

From stdpp Require Import options.
From S2P Require Import Prelude Crc32 Mtd MtdGood Jffs2 Jffs2Spec Jffs2Facts.

(** The nodes other than clean markers. *)
Definition is_clean (n : node) : bool := match n with NClean => true | _ => false end.
Definition body (ns : list node) : list node := List.filter (fun n => negb (is_clean n)) ns.

Lemma body_app a b : body (a ++ b) = body a ++ body b.
Proof. apply List.filter_app. Qed.

Lemma dirents_body pino name ns : dirents pino name (body ns) = dirents pino name ns.
Proof. induction ns as [|[] ns IH]; simpl; [done..| |]; repeat case_decide; by rewrite IH. Qed.

Lemma inodes_body ino ns : inodes ino (body ns) = inodes ino ns.
Proof. induction ns as [|[] ns IH]; simpl; [done..| |]; repeat case_decide; by rewrite IH. Qed.

Lemma dirents_app pino name a b : dirents pino name (a ++ b) = dirents pino name a ++ dirents pino name b.
Proof. apply omap_app. Qed.

Lemma inodes_app ino a b : inodes ino (a ++ b) = inodes ino a ++ inodes ino b.
Proof. apply omap_app. Qed.

(** The last element wins when no key is higher. *)
Lemma latest_snoc {A} (key : A -> Z) l x :
  Forall (fun y => key y <= key x) l -> latest key (l ++ [x]) = Some x.
Proof.
  intros Hl. unfold latest. rewrite fold_left_app. cbn [fold_left].
  assert (forall acc, (forall y, acc = Some y -> key y <= key x) ->
    forall y, fold_left (fun best x => match best with
      | Some y => if key x <? key y then Some y else Some x | None => Some x end) l acc = Some y ->
    key y <= key x) as Hinv.
  { induction Hl as [|z l Hz _ IH]; intros acc Hacc y Hy; [by apply Hacc|].
    cbn [fold_left] in Hy. eapply IH, Hy. intros y' Hy'.
    destruct acc as [a|]; [destruct (key z <? key a)|]; simplify_eq; auto. }
  destruct (fold_left _ l None) as [y|] eqn:Hy; [|done].
  apply Hinv in Hy; [|done]. by rewrite (proj2 (Z.ltb_ge _ _)) by lia.
Qed.

Lemma dirents_chunks pino name st ino v off cs : dirents pino name (file_chunks st ino v off cs) = [].
Proof. revert v off. induction cs; intros; simpl; [done|]. apply IHcs. Qed.

(** The pieces as the reader sees them. *)
Fixpoint pieces (st : stat) (ino version offset : Z) (cs : list (list Z)) : list (inode_info * list Z) :=
  match cs with
  | [] => []
  | c :: cs => (chunk_info st ino version offset, c)
               :: pieces st ino (version + 1) (offset + Z.of_nat (length c)) cs
  end.

Lemma inodes_chunks st ino v off cs : inodes ino (file_chunks st ino v off cs) = pieces st ino v off cs.
Proof.
  revert v off. induction cs as [|c cs IH]; intros; simpl; [done|].
  rewrite decide_True by done. by rewrite <- IH.
Qed.

Lemma pieces_app st ino v off a b :
  pieces st ino v off (a ++ b) = pieces st ino v off a
    ++ pieces st ino (v + Z.of_nat (length a)) (off + Z.of_nat (length (concat a))) b.
Proof.
  revert v off. induction a as [|c a IH]; intros; simpl.
  - by rewrite !Z.add_0_r.
  - rewrite IH. do 2 f_equal. f_equal; slen.
Qed.

Lemma pieces_version st ino v off cs :
  Forall (fun x => v <= ii_version (fst x) < v + Z.of_nat (length cs)) (pieces st ino v off cs).
Proof.
  revert v off. induction cs as [|c cs IH]; intros; simpl; constructor; [simpl; lia|].
  eapply Forall_impl; [apply IH|]. simpl. lia.
Qed.

Lemma pieces_isize st ino v off cs : Forall (fun x => ii_isize (fst x) = st_size st) (pieces st ino v off cs).
Proof. revert v off. induction cs; intros; simpl; constructor; auto. Qed.

Lemma pieces_below st ino v off cs k : k < off -> List.filter (covers k) (pieces st ino v off cs) = [].
Proof.
  revert v off. induction cs as [|c cs IH]; intros v off Hk; simpl; [done|].
  unfold covers at 1. simpl. rewrite (proj2 (Z.leb_gt _ _)) by lia. apply IH. lia.
Qed.

(** Each byte is read from the one piece that covers it. *)
Lemma file_byte_pieces st ino v off cs k :
  off <= k < off + Z.of_nat (length (concat cs)) ->
  file_byte (pieces st ino v off cs) k = nth (Z.to_nat (k - off)) (concat cs) 0.
Proof.
  revert v off. induction cs as [|c cs IH]; intros v off Hk; simpl in *; [lia|].
  rewrite length_app in Hk. unfold file_byte. simpl. unfold covers at 1. simpl.
  rewrite (proj2 (Z.leb_le _ _)) by lia. simpl.
  destruct (Z.ltb_spec k (off + Z.of_nat (length c))).
  - rewrite pieces_below by lia. simpl. rewrite app_nth1 by lia. done.
  - rewrite app_nth2 by lia. change (file_byte (pieces st ino (v + 1) (off + Z.of_nat (length c)) cs) k
      = nth (Z.to_nat (k - off) - length c) (concat cs) 0).
    rewrite IH by lia. f_equal. lia.
Qed.

Lemma map_file_byte st ino v cs :
  map (file_byte (pieces st ino v 0 cs)) (seqZ 0 (Z.of_nat (length (concat cs)))) = concat cs.
Proof.
  apply list_eq. intros i. rewrite list_lookup_fmap.
  destruct (decide (i < length (concat cs))%nat).
  - rewrite lookup_seqZ_lt by lia. simpl.
    rewrite file_byte_pieces by lia. rewrite Z.sub_0_r, Z.add_0_l, Nat2Z.id.
    destruct (lookup_lt_is_Some_2 (concat cs) i) as [x Hx]; [done|].
    rewrite Hx. f_equal. by apply nth_lookup_Some.
  - rewrite lookup_seqZ_ge by lia. symmetry. apply lookup_ge_None. lia.
Qed.

Lemma read_file_appended ns old pino v ino type name st v1 cs :
  body ns = old ++ NDirent pino v ino type name :: file_chunks st ino v1 0 cs ->
  Forall (fun x => fst x <= v) (dirents pino name old) ->
  inodes ino old = [] ->
  cs <> [] -> st_size st = Z.of_nat (length (concat cs)) ->
  read_file ns pino name = Some (concat cs).
Proof.
  intros Hb Hd Hi Hcs Hst. unfold read_file.
  rewrite <- dirents_body, Hb, dirents_app.
  change (NDirent pino v ino type name :: ?l) with ([NDirent pino v ino type name] ++ l).
  rewrite dirents_app, dirents_chunks, app_nil_r. cbn [dirents omap list_omap].
  rewrite decide_True by done. rewrite latest_snoc by done. simpl.
  rewrite <- inodes_body, Hb, inodes_app, Hi. simpl.
  change (omap _ (file_chunks st ino v1 0 cs)) with (inodes ino (file_chunks st ino v1 0 cs)).
  rewrite inodes_chunks.
  destruct (exists_last Hcs) as (cs' & c & Hlast).
  rewrite Hlast at 1. rewrite pieces_app. simpl. rewrite latest_snoc.
  - simpl. rewrite Hst. by rewrite map_file_byte.
  - eapply Forall_impl; [apply pieces_version|]. simpl. lia.
Qed.

(** ** The buffer and the device as a log

    The state of jffs2.c represents a log: the blocks already on the device, the
    nodes in the buffer, and the last numbers given out.  Each operation of the
    writer is simulated by an operation on logs. *)

Record log := Log { l_done : list (list node); l_cur : list node; l_ino : Z; l_ver : Z }.

(** All nodes in their order. *)
Definition log_nodes (L : log) : list node := concat (l_done L) ++ l_cur L.

Set Default Proof Using "Type*".

Section sim.
Context {D : Type} `{FL : FlashLaws D} (tg : target) (mtdsize E : Z).
Context (E_min : 1024 <= E < 2 ^ 31) (E_mod : E mod 4 = 0).

Abbreviation jst := (@jffs2 D).
Abbreviation En := (Z.to_nat E).

(** The buffer starts with [bs]. *)
Definition holds (s : jst) (bs : list Z) : Prop :=
  length (buf s) = En /\ Forall (is_word 8) (buf s) /\ ofs s = Z.of_nat (length bs) /\
  take (length bs) (buf s) = bs.

(** [blks] have been written from [o] on. *)
Definition wrote (d0 : D) (o : Z) (s : jst) (blks : list (list Z)) : Prop :=
  fl_size d0 = mtdsize /\ fl_erasesize d0 = E /\
  pos s = mtdofs s /\ programmed d0 o blks (dev s) (mtdofs s).

(** The variables that writing does not touch. *)
Definition same_vars (s s' : jst) : Prop :=
  last_ino s' = last_ino s /\ last_version s' = last_version s /\ target_ino s' = target_ino s.

Lemma holds_length s bs : holds s bs -> (length bs <= En)%nat.
Proof.
  intros (Hl & _ & _ & Ht). apply (f_equal length) in Ht. rewrite length_take in Ht. lia.
Qed.

(** ** Buffer *)

Lemma memcpy_append s bs x :
  holds s bs -> (length bs + length x <= En)%nat -> Forall (is_word 8) x ->
  exists b, memcpy s (ofs s) x = Done (set_buf s b) /\
    holds (set_ofs (set_buf s b) (ofs s + Z.of_nat (length x))) (bs ++ x).
Proof.
  intros (Hl & Hb & Ho & Ht) Hx Hxb. unfold memcpy, mem_write. rewrite Ho, Nat2Z.id.
  rewrite decide_True by lia. simpl. eexists. split; [done|].
  unfold holds. simpl. rewrite Ht. split_and!.
  - pose proof (f_equal length Ht). slen.
  - rewrite <- Ht. rewrite !Forall_app. auto using Forall_take, Forall_drop.
  - slen.
  - rewrite app_assoc. by rewrite take_app_length' by slen.
Qed.

Lemma memset_append s bs n :
  holds s bs -> Z.of_nat (length bs) + n <= E -> 0 <= n ->
  exists b, memset s (ofs s) 255 n = Done (set_buf s b) /\
    holds (set_ofs (set_buf s b) (ofs s + n)) (bs ++ replicate (Z.to_nat n) 255).
Proof.
  intros Hh Hn Hn0. destruct (memcpy_append s bs (replicate (Z.to_nat n) 255) Hh) as (b & Hm & Hh').
  - slen.
  - apply Forall_replicate. unfold is_word. lia.
  - exists b. split; [done|]. by rewrite length_replicate, Z2Nat.id in Hh'.
Qed.

(** ** Writing a block *)

Lemma skip_bad_spec d0 s g rest fuel :
  same_info d0 (dev s) -> fl_size d0 = mtdsize -> fl_erasesize d0 = E ->
  boundary d0 (mtdofs s) -> goods d0 (mtdofs s) = g :: rest ->
  (blocks_left d0 (mtdofs s) < fuel)%nat ->
  skip_bad mtdsize E fuel s = Done (set_out s (dev s) (pos s + (g - mtdofs s)) g).
Proof.
  intros Hi HS HE Ha Hg Hf.
  remember (mtdofs s) as a eqn:Has.
  revert a Ha s Has Hi Hg fuel Hf.
  apply (block_ind d0 (fun a => forall s : jst, a = mtdofs s -> same_info d0 (dev s) ->
    goods d0 a = g :: rest -> forall fuel, (blocks_left d0 a < fuel)%nat ->
    skip_bad mtdsize E fuel s = Done (set_out s (dev s) (pos s + (g - a)) g))).
  - intros s _ _ Hg. by rewrite goods_end in Hg.
  - intros a Hb IH s -> Hi Hg fuel Hf. destruct fuel as [|fuel]; [lia|]. cbn [skip_bad].
    rewrite (same_info_bad d0) by done.
    rewrite goods_step in Hg by done. unfold is_bad in Hg.
    destruct (mtd_block_is_bad_cases d0 (mtdofs s) Hb) as (r & Hr & Hr0). rewrite Hr in *. simpl.
    destruct (Z.eqb_spec r 0) as [-> |Hne].
    + simplify_eq/=. rewrite Z.sub_diag, Z.add_0_r. by destruct s.
    + rewrite (proj2 (Z.ltb_lt _ _)) by (destruct Hb; lia). simpl.
      rewrite blocks_left_next in Hf by done. subst E.
      rewrite (IH (set_out s (dev s) (pos s + fl_erasesize d0) (mtdofs s + fl_erasesize d0)))
        by (try done; try lia; by destruct r).
      simpl. f_equal. unfold set_out. simpl. f_equal. lia.
Qed.

Lemma flush_spec d0 o s blks :
  length (buf s) = En -> Forall (is_word 8) (buf s) -> wrote d0 o s blks ->
  (length blks < length (goods d0 o))%nat ->
  exists s', flush mtdsize E s = Done s' /\ same_vars s s' /\ buf s' = buf s /\ ofs s' = ofs s /\
    wrote d0 o s' (blks ++ [buf s]).
Proof.
  intros Hl Hb (HS & HE & Hp & Hpr) Hroom.
  pose proof Hpr as (Hi & Ha & _ & addrs & Ho & _ & Hm & _).
  rewrite Ho, <- Hm, length_map, length_app in Hroom.
  destruct (goods d0 (mtdofs s)) as [|g rest] eqn:Hg; [simpl in Hroom; lia|].
  destruct (goods_cons_inv d0 _ g rest Ha Hg) as (Hle & Hgood & _).
  unfold flush. rewrite (skip_bad_spec d0 s g rest); try done.
  2:{ pose proof (blocks_left_le d0 (mtdofs s)) as Hbl. destruct Ha. rewrite HS, HE in Hbl. lia. }
  simpl. destruct (erase_write_block (dev s) g (buf s)) as (d1 & d2 & He & Hw & Hset).
  { by apply (same_info_good d0). }
  { destruct Hi as (_ & Hi & _). rewrite Hi. lia. } { done. }
  rewrite He. replace (pos s + (g - mtdofs s)) with g by lia. rewrite Hw.
  eexists. split; [done|]. simpl. split_and!; try done.
  destruct Hi as (_ & Hes & _). split; [done|]. split; [done|]. simpl. split; [lia|].
  rewrite <- HE. by eapply programmed_snoc.
Qed.

(** ** Padding *)

Lemma pad_block_nil s : holds s [] -> pad mtdsize E E s = Done s.
Proof.
  intros (_ & _ & Ho & _). unfold pad. rewrite Ho. simpl.
  rewrite Z.rem_0_l by lia. by rewrite (proj2 (Z.ltb_lt _ E)) by (simpl; lia).
Qed.

(** [pad(erasesize)] writes what the buffer holds, erased behind it. *)
Lemma pad_block d0 o s bs blks :
  holds s bs -> bs <> [] -> wrote d0 o s blks -> (length blks < length (goods d0 o))%nat ->
  exists s', pad mtdsize E E s = Done s' /\ same_vars s s' /\ holds s' [] /\
    wrote d0 o s' (blks ++ [bs ++ replicate (En - length bs) 255]).
Proof.
  intros Hh Hne Hw Hroom. pose proof (holds_length s bs Hh) as Hle.
  assert (0 < length bs)%nat as Hpos by (destruct bs; [done|simpl; lia]).
  pose proof Hh as (Hl & Hb & Ho & Ht). unfold pad.
  destruct (decide (length bs = En)) as [Heq|Hlt].
  - rewrite Ho, Heq, Z2Nat.id by lia. rewrite Z.rem_same, Z.ltb_irrefl by lia. simpl.
    rewrite Ho, Heq, Z2Nat.id, Z.rem_same by lia. simpl.
    destruct (flush_spec d0 o (set_ofs s 0) blks) as (s' & Hf & Hv & Hb' & Ho' & Hw'); try done.
    exists s'. rewrite Hf. split; [done|]. split; [done|]. split.
    + unfold holds. rewrite Hb', Ho'. done.
    + rewrite Nat.sub_diag, app_nil_r. simpl in Hw'.
      rewrite Heq, firstn_all2 in Ht by lia. by rewrite <- Ht.
  - rewrite Ho, Z.rem_small by lia. rewrite (proj2 (Z.eqb_neq _ _)) by lia. simpl.
    rewrite (proj2 (Z.ltb_lt _ _)) by lia. rewrite <- Ho.
    destruct (memset_append s bs (E - ofs s) Hh) as (b & Hm & Hh'); [lia..|].
    rewrite Hm. simpl. replace (ofs s + (E - ofs s)) with E in * by lia.
    rewrite Z.rem_same by lia. simpl.
    replace (Z.to_nat (E - ofs s)) with (En - length bs)%nat in Hh' by lia.
    destruct Hh' as (Hl' & Hb' & _ & Ht'). simpl in *.
    rewrite firstn_all2 in Ht' by slen.
    destruct (flush_spec d0 o (set_ofs (set_ofs (set_buf s b) E) 0) blks)
      as (s' & Hf & Hv & Hbf & Hof & Hwf); try done.
    exists s'. rewrite Hf. split; [done|]. split; [done|]. split.
    + unfold holds. rewrite Hbf, Hof. done.
    + simpl in Hwf. by rewrite Ht' in Hwf.
Qed.

(** Rounding up to the alignment, before the block is written. *)
Lemma pad4_fill s bs :
  holds s bs -> exists s', same_vars s s' /\ holds s' (pad4_bytes bs) /\
    dev s' = dev s /\ pos s' = pos s /\ mtdofs s' = mtdofs s /\
    pad mtdsize E 4 s = if decide (length (pad4_bytes bs) < En)%nat then Done s'
                        else flush mtdsize E (set_ofs s' 0).
Proof.
  intros Hh. pose proof (holds_length s bs Hh) as Hle. pose proof Hh as (Hl & Hb & Ho & Ht).
  rewrite length_pad4_bytes. destruct (round4_Z (length bs)) as [H1 H2].
  assert (Z.of_nat (round4 (length bs)) <= E) as Hr4 by (clear -E_mod E_min H1 H2 Hle; dlia).
  unfold pad. destruct (Z.eqb_spec (Z.rem (ofs s) 4) 0) as [Hz|Hz].
  - assert (round4 (length bs) = length bs) as Heq.
    { rewrite Ho, Z.rem_mod_nonneg in Hz by lia. clear -Hz H1 H2. dlia. }
    exists s. unfold pad4_bytes. rewrite Heq, Nat.sub_diag, app_nil_r. split_and!; try done.
    case_decide as Hd.
    + by rewrite (proj2 (Z.ltb_lt _ _)) by lia.
    + rewrite (proj2 (Z.ltb_ge _ _)) by lia. simpl.
      replace (ofs s) with E by lia. by rewrite Z.rem_same by lia.
  - assert (0 < Z.rem (ofs s) 4) as Hpos by (rewrite Ho in *; rewrite Z.rem_mod_nonneg in * by lia; dlia).
    rewrite Ho in Hpos. pose proof (rem_round4 (length bs) Hpos) as Hn. rewrite <- Ho in Hn.
    assert (length bs <> 0)%nat as Hl0 by (intros Hl0; by rewrite Hl0 in Hpos).
    simpl. rewrite (proj2 (Z.ltb_lt (ofs s) E)) by (clear -Hz Ho Hle E_mod; dlia).
    destruct (memset_append s bs (4 - Z.rem (ofs s) 4) Hh) as (b & Hm & Hh'); [lia..|].
    rewrite Hm. simpl. rewrite Hn in *. rewrite Nat2Z.id in Hh'.
    exists (set_ofs (set_buf s b) (ofs s + Z.of_nat (round4 (length bs) - length bs))).
    split_and!; try done. case_decide as Hd.
    + rewrite Z.rem_small by lia. rewrite (proj2 (Z.eqb_neq _ _)) by lia. done.
    + replace (ofs s + _) with E by lia. by rewrite Z.rem_same by lia.
Qed.


(** ** Logs *)

Definition log_size (L : log) : nat := length (log_bytes tg (l_cur L)).

Definition rep (d0 : D) (o : Z) (s : jst) (L : log) : Prop :=
  holds s (log_bytes tg (l_cur L)) /\ (log_size L < En)%nat /\
  wrote d0 o s (map (block_of tg En) (l_done L)) /\
  last_ino s = l_ino L /\ last_version s = l_ver L /\ Forall wf_node (l_cur L).

(** The current block is finished. *)
Definition cut (L : log) : log :=
  match l_cur L with
  | [] => L
  | _ => Log (l_done L ++ [l_cur L]) [] (l_ino L) (l_ver L)
  end.

(** A new block starts with a clean marker. *)
Definition prep (L : log) : log :=
  match l_cur L with
  | [] => Log (l_done L) [NClean] (l_ino L) (l_ver L)
  | _ => L
  end.

(** A node is added; a full block is finished. *)
Definition push (n : node) (L : log) : log :=
  let cur := l_cur L ++ [n] in
  if decide (length (log_bytes tg cur) < En)%nat
  then Log (l_done L) cur (l_ino L) (l_ver L)
  else Log (l_done L ++ [cur]) [] (l_ino L) (l_ver L).

Definition numbered (ino ver : Z) (L : log) : log := Log (l_done L) (l_cur L) ino ver.

Definition room (d0 : D) (o : Z) (L : log) : Prop :=
  (length (l_done L) <= length (goods d0 o))%nat.

(** [f] takes a state that represents [L] to one that represents [L'], on every
    device with room for the blocks of [L']. *)
Definition sim (f : jst -> outcome jst) (L L' : log) : Prop :=
  (length (l_done L) <= length (l_done L'))%nat /\
  forall d0 o s, rep d0 o s L -> room d0 o L' -> exists s', f s = Done s' /\ rep d0 o s' L'.

Definition simv {A} (f : jst -> outcome (A * jst)) (L : log) (v : A) (L' : log) : Prop :=
  (length (l_done L) <= length (l_done L'))%nat /\
  forall d0 o s, rep d0 o s L -> room d0 o L' -> exists s', f s = Done (v, s') /\ rep d0 o s' L'.

Lemma sim_id L : sim Done L L.
Proof. split; [done|]. intros d0 o s Hr _. by exists s. Qed.

Lemma sim_bind f g L L1 L2 : sim f L L1 -> sim g L1 L2 -> sim (fun s => s ← f s; g s) L L2.
Proof.
  intros [Hl1 Hf] [Hl2 Hg]. split; [lia|]. intros d0 o s Hr Hroom. unfold room in *.
  destruct (Hf d0 o s Hr) as (s1 & Hs1 & Hr1); [unfold room; lia|].
  destruct (Hg d0 o s1 Hr1) as (s2 & Hs2 & Hr2); [done|].
  exists s2. by rewrite Hs1.
Qed.

Lemma simv_bind {A} (f : jst -> outcome (A * jst)) g L v L1 L2 :
  simv f L v L1 -> sim (g v) L1 L2 -> sim (fun s => '(v, s) ← f s; g v s) L L2.
Proof.
  intros [Hl1 Hf] [Hl2 Hg]. split; [lia|]. intros d0 o s Hr Hroom. unfold room in *.
  destruct (Hf d0 o s Hr) as (s1 & Hs1 & Hr1); [unfold room; lia|].
  destruct (Hg d0 o s1 Hr1) as (s2 & Hs2 & Hr2); [done|].
  exists s2. by rewrite Hs1.
Qed.

Lemma sim_ext f g L L' : (forall s, f s = g s) -> sim g L L' -> sim f L L'.
Proof.
  intros Hfg [Hl Hg]. split; [done|]. intros d0 o s Hr Hroom. rewrite Hfg. by apply Hg.
Qed.

(** ** Simulations of the block operations *)

Lemma sim_pad_block L : sim (pad mtdsize E E) L (cut L).
Proof.
  unfold cut. destruct (l_cur L) as [|n cur] eqn:Hc.
  { split; [done|]. intros d0 o s Hr _. exists s. split; [|done].
    destruct Hr as (Hh & _). rewrite Hc in Hh. by apply pad_block_nil. }
  split; [simpl; slen|]. intros d0 o s (Hh & Hsz & Hw & Hi & Hv & Hwf) Hroom.
  unfold room in Hroom. simpl in Hroom. rewrite length_app in Hroom. simpl in Hroom.
  destruct (pad_block d0 o s (log_bytes tg (l_cur L)) (map (block_of tg En) (l_done L)))
    as (s' & Hp & (Hv1 & Hv2 & _) & Hh' & Hw'); [done| |done|slen|].
  { intros Hnil%log_bytes_nil_inv. by rewrite Hc in Hnil. }
  exists s'. split; [done|]. split_and!; simpl; try done; try congruence.
  - unfold log_size. simpl. lia.
  - rewrite map_app. simpl. by rewrite <- Hc.
Qed.

Definition same_out (s s' : jst) : Prop :=
  dev s' = dev s /\ pos s' = pos s /\ mtdofs s' = mtdofs s.

Lemma wrote_same_out d0 o s s' blks : same_out s s' -> wrote d0 o s blks -> wrote d0 o s' blks.
Proof. intros (Hd & Hp & Hm). unfold wrote. by rewrite Hd, Hp, Hm. Qed.

Lemma add_data_fits s bs x fuel :
  holds s bs -> (length bs + length x <= En)%nat -> Forall (is_word 8) x ->
  exists s', add_data_rec tg mtdsize E fuel x s = Done s' /\ same_vars s s' /\ same_out s s' /\
    holds s' (bs ++ x).
Proof.
  intros Hh Hx Hxb. pose proof Hh as (_ & _ & Ho & _).
  destruct (memcpy_append s bs x Hh Hx Hxb) as (b & Hm & Hh').
  eexists. split; [|split; [|split]]; [| | |exact Hh'].
  - destruct fuel; cbn [add_data_rec]; rewrite (proj2 (Z.ltb_ge _ _)) by lia; simpl; by rewrite Hm.
  - done.
  - done.
Qed.

Lemma sim_prep L : sim (prep_eraseblock tg mtdsize E) L (prep L).
Proof.
  unfold prep. destruct (l_cur L) as [|n cur] eqn:Hc.
  - split; [done|]. intros d0 o s (Hh & Hsz & Hw & Hi & Hv & Hwf) _.
    rewrite Hc in Hh. pose proof Hh as (_ & _ & Ho & _). unfold prep_eraseblock. rewrite Ho. simpl.
    destruct (add_data_fits s [] (CLEANMARKER (t_order tg)) 1 Hh) as (s' & Ha & (Hv1 & Hv2 & _) & Hs & Hh').
    { destruct (t_order tg); simpl; lia. }
    { rewrite <- (log_bytes_clean tg). apply log_bytes_range. by repeat constructor. }
    exists s'. split; [done|]. rewrite app_nil_l, <- log_bytes_clean in Hh'.
    split_and!; simpl; try done; try congruence.
    + unfold log_size. simpl. rewrite log_bytes_clean. destruct (t_order tg); simpl; lia.
    + by eapply wrote_same_out.
    + by repeat constructor.
  - split; [done|]. intros d0 o s Hr _. exists s. split; [|done].
    destruct Hr as ((_ & _ & Ho & _) & _). unfold prep_eraseblock.
    pose proof (log_bytes_length_ge tg (l_cur L)) as Hge. rewrite Hc in Hge at 1. simpl in Hge.
    by rewrite (proj2 (Z.ltb_lt 0 _)) by lia.
Qed.

(** [pad(4)] after the bytes of a node. *)
Lemma pad4_push d0 o s done cur n :
  holds s (log_bytes tg cur ++ node_bytes tg n) ->
  (length (log_bytes tg (cur ++ [n])) <= En)%nat ->
  wrote d0 o s (map (block_of tg En) done) -> Forall wf_node (cur ++ [n]) ->
  let L := Log done cur (last_ino s) (last_version s) in
  room d0 o (push n L) ->
  exists s', pad mtdsize E 4 s = Done s' /\ rep d0 o s' (push n L) /\
    take (length (log_bytes tg cur ++ node_bytes tg n)) (buf s') = log_bytes tg cur ++ node_bytes tg n.
Proof.
  intros Hh Hsz Hw Hwf L Hroom.
  destruct (pad4_fill s _ Hh) as (s1 & (Hv1 & Hv2 & Hv3) & Hh1 & Hd & Hp & Hm & Hpad).
  rewrite <- log_bytes_snoc in Hh1, Hpad. rewrite Hpad. clear Hpad.
  assert (forall b, take (length (log_bytes tg (cur ++ [n]))) b = log_bytes tg (cur ++ [n]) ->
    take (length (log_bytes tg cur ++ node_bytes tg n)) b = log_bytes tg cur ++ node_bytes tg n) as Hpre.
  { intros b Hb. rewrite log_bytes_snoc in Hb. unfold pad4_bytes in Hb.
    rewrite length_app in Hb. apply (f_equal (take (length (log_bytes tg cur ++ node_bytes tg n)))) in Hb.
    rewrite take_take, Nat.min_l, take_app_length in Hb by lia. done. }
  assert (wrote d0 o s1 (map (block_of tg En) done)) as Hw1 by (by eapply wrote_same_out).
  unfold push in *. simpl in *. case_decide as Hlt.
  - exists s1. split; [done|]. split; [by split_and!|]. apply Hpre, Hh1.
  - unfold room in Hroom. simpl in Hroom. rewrite length_app in Hroom. simpl in Hroom.
    pose proof Hh1 as (Hl & Hb & Ho & Ht).
    destruct (flush_spec d0 o (set_ofs s1 0) (map (block_of tg En) done))
      as (s' & Hf & (Hv4 & Hv5 & _) & Hb' & Ho' & Hw'); try done; [slen|].
    simpl in *. exists s'. split; [done|]. split.
    + split_and!; simpl; try done; try congruence.
      * unfold holds. rewrite Hb', Ho'. done.
      * unfold log_size. simpl. lia.
      * rewrite map_app. simpl. unfold block_of at 2.
        replace (En - _)%nat with O by lia. rewrite app_nil_r.
        rewrite firstn_all2 in Ht by lia. by rewrite <- Ht.
    + rewrite Hb'. by apply Hpre.
Qed.

End sim.
