(* ===== verification/Jffs2Write.v ===== *)
(** * Directory entries and files in the log

    [add_dirent], [add_dir] and [add_file] of jffs2.c append the nodes of the
    format to the log, whatever the sizes in which the file is read. *)

From stdpp Require Import options.
From S2P Require Import Prelude Crc32 Mtd MtdGood Jffs2 Jffs2Spec Jffs2Facts Jffs2Log.

Set Default Proof Using "Type*".

Section write.
Context {D : Type} `{FL : FlashLaws D} (tg : target) (mtdsize E : Z).
Context (E_min : 1024 <= E < 2 ^ 31) (E_mod : E mod 4 = 0).
Context (tg_ok : t_size_bits tg = 32 \/ t_size_bits tg = 64).

Abbreviation jst := (@jffs2 D).
Abbreviation En := (Z.to_nat E).
Abbreviation rep := (rep tg mtdsize E).
Abbreviation sim := (sim tg mtdsize E).
Abbreviation simv := (simv tg mtdsize E).
Abbreviation push := (push tg E).
Abbreviation holds := (holds E).
Abbreviation size := (log_size tg).

(** ** Several copies into the buffer *)

Lemma memcpy_set_ofs (s : jst) k p x b :
  memcpy (set_ofs s k) p x = Done (set_buf (set_ofs s k) b) -> memcpy s p x = Done (set_buf s b).
Proof using.
  unfold memcpy. simpl. destruct (mem_write _ _ _); simpl; [|done]. intros [= ->]. done.
Qed.

Lemma holds_prefix (s : jst) k bs x :
  holds (set_ofs s k) (bs ++ x) -> holds (set_ofs s (Z.of_nat (length bs))) bs.
Proof using.
  intros (Hl & Hb & _ & Ht). split_and!; try done. simpl in *.
  apply (f_equal (take (length bs))) in Ht.
  rewrite length_app, take_take, Nat.min_l, take_app_length in Ht by lia. done.
Qed.

Lemma set_ofs_same (s : jst) : set_ofs s (ofs s) = s.
Proof using. by destruct s. Qed.

(** A copy at the end of [bs] when [ofs] still points to its start. *)
Lemma memcpy_behind (s : jst) bs x k :
  holds (set_ofs s k) bs -> (length bs + length x <= En)%nat -> Forall (is_word 8) x ->
  exists b, memcpy s k x = Done (set_buf s b) /\
    holds (set_ofs (set_buf s b) (k + Z.of_nat (length x))) (bs ++ x).
Proof.
  intros Hh Hl Hx.
  destruct (memcpy_append E E_min E_mod (set_ofs s k) bs x Hh Hl Hx) as (b & Hm & Hh').
  exists b. simpl in *. split; [by eapply memcpy_set_ofs|done].
Qed.

(** ** Sizes *)

Lemma int_incr_ok x : x + 1 < 2 ^ 31 -> int_incr x = Done (x + 1).
Proof using. intros. unfold int_incr. by rewrite (proj2 (Z.eqb_neq _ _)) by lia. Qed.

Lemma size_snoc_le L n :
  (size L + node_len n <= En)%nat -> (length (log_bytes tg (l_cur L ++ [n])) <= En)%nat.
Proof.
  unfold log_size. intros Hle. rewrite log_bytes_snoc, length_pad4_bytes, length_app, length_node_bytes.
  destruct (round4_Z (length (log_bytes tg (l_cur L)) + node_len n)) as [H1 H2].
  clear -H1 H2 Hle E_min E_mod. zify. dlia.
Qed.

(** The inode number that [add_dirent] reads back from the buffer. *)
Lemma read_back_ino b cur pino version ino type name p :
  wf_node (NDirent pino version ino type name) -> p = length (log_bytes tg cur) ->
  let bs := log_bytes tg cur ++ node_bytes tg (NDirent pino version ino type name) in
  take (length bs) b = bs -> get32 (t_order tg) b (p + 20) = Some ino.
Proof using.
  intros (_ & _ & Hi & _) -> bs Ht. unfold get32.
  replace (mem_read b _ 4) with (Some (take 4 (drop 20 (node_bytes tg (NDirent pino version ino type name))))).
  - simpl. f_equal. change (field (t_order tg) (node_bytes tg (NDirent pino version ino type name)) 20 4 = ino).
    cbn [node_bytes]. unfold dirent_bytes. rewrite <- !app_assoc. fields. by rewrite field_here_word.
  - assert (length bs = length (log_bytes tg cur) + (40 + length name))%nat as Hlen
      by (subst bs; rewrite length_app, length_node_bytes; done).
    assert (length bs <= length b)%nat by (apply (f_equal length) in Ht; rewrite length_take in Ht; lia).
    unfold mem_read. rewrite decide_True by lia. f_equal.
    rewrite <- (take_drop (length bs) b), Ht. unfold bs.
    rewrite <- app_assoc, drop_app_add', drop_app_le, take_app_le by slen. done.
Qed.

(** ** Directory entries *)

(** The three copies of [add_dirent] into the buffer. *)
Lemma dirent_copies (s : jst) ino ver bs name de :
  holds s bs -> (length bs + 40 + length name <= En)%nat -> Forall (is_word 8) name ->
  exists b1 b2 b3,
    let s2 := set_last_version (set_last_ino (set_buf s b1) ino) ver in
    let s3 := set_buf (set_buf s2 b2) b3 in
    memset s (ofs s) 0 sizeof_dirent = Done (set_buf s b1) /\
    memcpy s2 (ofs s) (dirent_bytes (t_order tg) de) = Done (set_buf s2 b2) /\
    memcpy (set_buf s2 b2) (ofs s + sizeof_dirent) name = Done s3 /\
    holds (set_ofs s3 (ofs s + sizeof_dirent + Z.of_nat (length name)))
      (bs ++ dirent_bytes (t_order tg) de ++ name).
Proof.
  intros Hh Hfit Hname. pose proof Hh as (_ & _ & Ho & _). rewrite <- (set_ofs_same s) in Hh.
  destruct (memcpy_behind s bs (replicate 40 0) (ofs s) Hh) as (b1 & Hm1 & Hh1); [slen| |].
  { apply Forall_replicate. unfold is_word. lia. }
  apply holds_prefix in Hh1. rewrite <- Ho in Hh1.
  set (s2 := set_last_version (set_last_ino (set_buf s b1) ino) ver).
  destruct (memcpy_behind s2 bs (dirent_bytes (t_order tg) de) (ofs s)) as (b2 & Hm2 & Hh2);
    [done|slen|apply dirent_bytes_range|].
  rewrite length_dirent_bytes in Hh2.
  destruct (memcpy_behind (set_buf s2 b2) (bs ++ dirent_bytes (t_order tg) de) name (ofs s + 40))
    as (b3 & Hm3 & Hh3); [done|slen|done|].
  exists b1, b2, b3. rewrite <- app_assoc in Hh3. done.
Qed.

Definition dirent_log (L : log) (name : list Z) (type parent : Z) : log :=
  push (NDirent parent (l_ver L) (l_ino L + 1) type name)
       (numbered (l_ino L + 2) (l_ver L + 1) (prep L)).

(** The numbers that a directory entry uses up and the space it needs. *)
Definition dirent_pre (L : log) (name : list Z) (type parent : Z) : Prop :=
  0 <= l_ino L /\ l_ino L + 2 < 2 ^ 31 /\ 0 <= l_ver L /\ l_ver L + 1 < 2 ^ 31 /\
  is_word 32 parent /\ is_word 8 type /\ Forall (is_word 8) name /\ (length name < 256)%nat /\
  (size (prep L) + 40 + length name <= En)%nat.

Lemma dirent_wf L name type parent : dirent_pre L name type parent ->
  wf_node (NDirent parent (l_ver L) (l_ino L + 1) type name).
Proof. intros (?&?&?&?&?&?&?&?&_). unfold wf_node, is_word in *. split_and!; try done; lia. Qed.

Lemma prep_numbers L : l_ino (prep L) = l_ino L /\ l_ver (prep L) = l_ver L /\ l_done (prep L) = l_done L.
Proof using. unfold prep. by destruct (l_cur L). Qed.

Lemma push_done n L : exists t, l_done (push n L) = l_done L ++ t.
Proof using.
  unfold Jffs2Log.push. case_decide; simpl; [exists []; by rewrite app_nil_r|by eexists].
Qed.

(** The space check compares an unsigned difference, so it never asks for a new block. *)
Lemma dirent_check_false (s : jst) bs (len : nat) : holds s bs -> (length bs < En)%nat -> (len < 256)%nat ->
  wrap (t_size_bits tg) (ofs s - E) <? sizeof_dirent + Z.of_nat len = false.
Proof.
  intros (_ & _ & Ho & _) Hsz Hlen. apply Z.ltb_ge. unfold wrap, sizeof_dirent. rewrite Ho.
  destruct tg_ok as [-> | -> ]; rewrite <- (Z.mod_add _ 1), Z.mod_small by lia; lia.
Qed.

Lemma add_dirent_sim L name type parent :
  dirent_pre L name type parent ->
  simv (add_dirent tg mtdsize E name type parent) L (l_ino L + 1) (dirent_log L name type parent).
Proof.
  intros Hpre. pose proof (dirent_wf _ _ _ _ Hpre) as Hwf.
  destruct Hpre as (Hi0 & Hi & Hv0 & Hv & _ & _ & Hname & Hlen & Hfit).
  set (n := NDirent parent (l_ver L) (l_ino L + 1) type name) in *.
  destruct (prep_numbers L) as (Hpi & Hpv & Hpd).
  destruct (push_done n (numbered (l_ino L + 2) (l_ver L + 1) (prep L))) as [t Ht].
  destruct (sim_prep tg mtdsize E E_min E_mod L) as [_ Hprep].
  unfold simv, dirent_log, room. fold n. rewrite Ht. simpl. rewrite Hpd. split; [slen|].
  intros d0 o s Hr Hroom.
  destruct (Hprep d0 o s Hr) as (s1 & Hs1 & (Hh & Hsz & Hw & Hi1 & Hv1 & Hwf1)).
  { unfold room. rewrite Hpd. slen. }
  unfold add_dirent. destruct Hr as (Hh0 & Hsz0 & _).
  rewrite (dirent_check_false s _ (strlen name) Hh0) by done. simpl. rewrite Hs1. simpl.
  rewrite Hi1, Hpi, int_incr_ok by lia. simpl.
  set (de := make_dirent tg name type (l_ino L + 1) parent (l_ver L)).
  destruct (dirent_copies s1 (l_ino L + 1 + 1) (l_ver L + 1) _ name de Hh) as (b1 & b2 & b3 & Hc);
    [unfold log_size in Hfit; lia|done|].
  cbv zeta in Hc. destruct Hc as (Hm1 & Hm2 & Hm3 & Hh3).
  rewrite Hm1. simpl. rewrite int_incr_ok by lia. simpl. rewrite Hv1, Hpv, int_incr_ok by lia. simpl.
  fold de. rewrite Hm2. simpl. rewrite Hm3. simpl.
  replace (u8 (Z.of_nat (strlen name))) with (Z.of_nat (length name))
    by (unfold u8, wrap, strlen; rewrite Z.mod_small; lia).
  match type of Hh3 with Jffs2Log.holds _ ?s3 _ => set (s3' := s3) in * end.
  destruct (pad4_push tg mtdsize E E_min E_mod d0 o s3' (l_done (prep L)) (l_cur (prep L)) n)
    as (s' & Hpad & Hr' & Htk); [exact Hh3| |exact Hw| | |].
  - apply (size_snoc_le (prep L)). simpl. unfold log_size in *. lia.
  - apply Forall_app. split; [done|by constructor].
  - unfold room. replace (Log _ _ _ _) with (numbered (l_ino L + 2) (l_ver L + 1) (prep L))
      by (unfold numbered; f_equal; simpl; lia).
    rewrite Ht. simpl. rewrite Hpd. slen.
  - rewrite Hpad. simpl. pose proof Hh as (_ & _ & Ho & _).
    rewrite Ho, Z2Nat.inj_add, Nat2Z.id by lia.
    change (Z.to_nat 20) with 20%nat.
    rewrite (read_back_ino (buf s') _ parent (l_ver L) (l_ino L + 1) type name _ Hwf eq_refl Htk). simpl.
    exists s'. split.
    + unfold s32, signed, wrap. rewrite Z.mod_small by lia. by rewrite (proj2 (Z.ltb_lt _ _)) by lia.
    + replace (Log _ _ _ _) with (numbered (l_ino L + 2) (l_ver L + 1) (prep L)) in Hr'
        by (unfold numbered; f_equal; simpl; lia). exact Hr'.
Qed.

(** ** Inode nodes *)

(** [f] appends the bytes of [n] to the buffer. *)
Definition appends (f : jst -> outcome jst) (n : node) : Prop :=
  forall s bs, holds s bs -> (length bs + node_len n <= En)%nat ->
  exists s', f s = Done s' /\ same_vars s s' /\ same_out s s' /\ holds s' (bs ++ node_bytes tg n).

Lemma node_sim f n L :
  appends f n -> wf_node n -> (size L + node_len n <= En)%nat ->
  sim (fun s => s ← f s; pad mtdsize E 4 s) L (push n L).
Proof.
  intros Hf Hwf Hfit. destruct (push_done n L) as [t Ht]. split; [rewrite Ht; slen|].
  intros d0 o s (Hh & Hsz & Hw & Hi & Hv & Hwfs) Hroom.
  destruct (Hf s _ Hh Hfit) as (s1 & Hs1 & (Hv1 & Hv2 & _) & Ho & Hh1). rewrite Hs1. simpl.
  assert (Log (l_done L) (l_cur L) (last_ino s1) (last_version s1) = L) as HL
    by (rewrite Hv1, Hv2, Hi, Hv; by destruct L).
  destruct (pad4_push tg mtdsize E E_min E_mod d0 o s1 (l_done L) (l_cur L) n Hh1) as (s2 & Hp & Hr & _).
  - by apply size_snoc_le.
  - by eapply wrote_same_out.
  - apply Forall_app. split; [done|by constructor].
  - by rewrite HL.
  - exists s2. rewrite HL in Hr. done.
Qed.

Lemma add_data_one s bs x :
  holds s bs -> (length bs + length x <= En)%nat -> Forall (is_word 8) x ->
  exists s', add_data tg mtdsize E x s = Done s' /\ same_vars s s' /\ same_out s s' /\ holds s' (bs ++ x).
Proof. intros. by apply (add_data_fits tg mtdsize E E_min E_mod). Qed.

Lemma inode_appends i data : wf_node (NInode i data) ->
  appends (fun s => s ← add_data tg mtdsize E (file_node tg (info_inode i) (ii_version i) (ii_offset i) data) s;
                    add_data tg mtdsize E data s) (NInode i data).
Proof.
  intros (_&_&_&_&_&_&_&_&Hd&_) s bs Hh Hl. simpl in Hl.
  destruct (add_data_one s bs (file_node tg (info_inode i) (ii_version i) (ii_offset i) data))
    as (s1 & Hs1 & (?&?&?) & (?&?&?) & Hh1); [done|unfold file_node; slen|apply inode_bytes_range|].
  destruct (add_data_one s1 _ data Hh1) as (s2 & Hs2 & (?&?&?) & (?&?&?) & Hh2);
    [unfold file_node; slen|done|].
  exists s2. rewrite Hs1. simpl. rewrite Hs2, <- app_assoc in *.
  unfold same_vars, same_out. split_and!; try done; congruence.
Qed.

(** ** Directories *)

Definition dir_info (ino : Z) : inode_info :=
  {| ii_ino := ino; ii_version := 1; ii_mode := Z.lor S_IFDIR 493; ii_isize := 0;
     ii_atime := 0; ii_mtime := 0; ii_ctime := 0; ii_offset := 0 |}.

(** A block in which an inode fits. *)
Definition dir_room (L : log) : log :=
  if E - Z.of_nat (size L) <? sizeof_inode then cut L else L.

Definition dir_log (L : log) (name : list Z) (parent : Z) : log :=
  let L1 := dirent_log L name DT_DIR parent in
  push (NInode (dir_info (l_ino L + 1)) [])
       (prep (dir_room L1)).

Lemma rep_rbytes d0 o s L : rep d0 o s L -> rbytes E s = E - Z.of_nat (size L).
Proof.
  intros ((_ & _ & Ho & _) & Hsz & _). unfold rbytes, log_size in *.
  rewrite Ho, Z.rem_small by lia. done.
Qed.

Lemma size_prep L : l_cur L <> [] -> size (prep L) = size L.
Proof using. intros Hne. unfold prep. by destruct (l_cur L) eqn:Hc. Qed.

Lemma size_clean L : l_cur L = [] -> size (prep L) = 12%nat.
Proof using. unfold prep, log_size. intros ->. simpl. rewrite log_bytes_clean. by destruct (t_order tg). Qed.

Lemma cut_cur L : l_cur (cut L) = [].
Proof using. unfold cut. by destruct (l_cur L) eqn:Hc. Qed.

Lemma dir_room_fits L1 : (size (prep (dir_room L1)) + 68 <= En)%nat.
Proof.
  unfold dir_room.
  destruct (Z.ltb_spec (E - Z.of_nat (size L1)) sizeof_inode) as [Hlt|Hge].
  - rewrite size_clean by apply cut_cur. lia.
  - unfold sizeof_inode in Hge. destruct (decide (l_cur L1 = [])).
    + rewrite size_clean by done. lia.
    + rewrite size_prep by done. lia.
Qed.

Lemma add_dir_sim L name parent :
  dirent_pre L name DT_DIR parent ->
  simv (add_dir tg mtdsize E name parent) L (l_ino L + 1) (dir_log L name parent).
Proof.
  intros Hpre. pose proof (add_dirent_sim L name DT_DIR parent Hpre) as [Hd1 Hsim1].
  set (L1 := dirent_log L name DT_DIR parent) in *.
  set (n := NInode (dir_info (l_ino L + 1)) []).
  assert (wf_node n) as Hwf.
  { destruct Hpre as (?&?&_). subst n. unfold wf_node, is_word. cbn. split_and!; try done; lia. }
  set (L2 := dir_room L1).
  assert (sim (fun s => if rbytes E s <? sizeof_inode then pad mtdsize E E s else Done s) L1 L2) as Hsim2.
  { subst L2. unfold dir_room. destruct (sim_pad_block tg mtdsize E E_min E_mod L1) as [Hl Hp].
    split; [by case_match|]. intros d0 o s Hr Hroom.
    rewrite (rep_rbytes d0 o s L1 Hr). case_match; [by apply Hp|by exists s]. }
  assert (sim (fun s => s ← add_data tg mtdsize E (node_bytes tg n) s; pad mtdsize E 4 s)
    (prep L2) (push n (prep L2))) as Hsim3.
  { apply node_sim; [|done|apply dir_room_fits]. intros s bs Hh Hl.
    apply add_data_one; [done|by rewrite length_node_bytes|by apply node_bytes_range]. }
  pose proof (sim_bind _ _ _ E_min E_mod _ _ _ _ _ (sim_bind _ _ _ E_min E_mod _ _ _ _ _ Hsim2
    (sim_prep tg mtdsize E E_min E_mod L2)) Hsim3) as [Hl Hall].
  split; [unfold dir_log; fold L1 L2 n; lia|]. intros d0 o s Hr Hroom.
  destruct (Hsim1 d0 o s Hr) as (s1 & Hs1 & Hr1).
  { unfold room in *. revert Hroom. unfold dir_log. fold L1 L2 n. lia. }
  destruct (Hall d0 o s1 Hr1 Hroom) as (s2 & Hs2 & Hr2).
  exists s2. split; [|done]. unfold add_dir. rewrite Hs1. simpl.
  revert Hs2. cbn [node_bytes n]. rewrite app_nil_r.
  destruct (if rbytes E s1 <? sizeof_inode then _ else _) as [s3| |]; simpl; try done.
  destruct (prep_eraseblock _ _ _ _) as [s4| |]; simpl; try done.
  change (file_node tg (info_inode (dir_info (l_ino L + 1))) _ _ []) with
    (inode_bytes (t_order tg) (seal_inode tg (info_inode (dir_info (l_ino L + 1))) 1 0 0 0)).
  unfold info_inode, dir_info. cbn [ii_ino ii_mode ii_isize ii_atime ii_mtime ii_ctime].
  destruct (add_data _ _ _ _ _) as [s5| |]; simpl; try done. by intros ->.
Qed.

End write.
