(* ===== verification/Jffs2Props.v ===== *)
(** * Appending a file to a jffs2 file system

    What [mtd_replace_jffs2] leaves on the device, read with the reference reader
    of [Jffs2Spec]. *)

From stdpp Require Import options.
From S2P Require Import Prelude Crc32 Mtd MtdGood Jffs2 Jffs2Spec Jffs2Facts Jffs2Log Jffs2Write.

Set Default Proof Using "Type*".

Lemma s32_id x : - 2 ^ 31 <= x < 2 ^ 31 -> s32 x = x.
Proof. intros. unfold s32, signed, wrap. case_match; b2p; dlia. Qed.

(** A file whose reads neither fail nor are interrupted. *)
Definition delivers (f : file) : Prop := Forall (fun ev => exists k, ev = RdMax k) (f_sched f).

Lemma file_read_ok f n : delivers f -> 0 < n ->
  exists m f', file_read f n = (Got (take m (f_rest f)), f') /\ f_rest f' = drop m (f_rest f) /\
    delivers f' /\ (0 < m <= Z.to_nat n)%nat.
Proof.
  intros Hd Hn. unfold file_read, delivers in *. destruct Hd as [|ev l [k ->] Hd].
  - do 2 eexists. split; [done|]. simpl. split; [done|]. split; [by constructor|]. lia.
  - do 2 eexists. split; [done|]. simpl. split; [done|]. split; [done|]. lia.
Qed.

Section files.
Context {D : Type} `{FL : FlashLaws D} (tg : target) (mtdsize E : Z).
Context (E_min : 1024 <= E < 2 ^ 31) (E_mod : E mod 4 = 0).
Context (tg_ok : t_size_bits tg = 32 \/ t_size_bits tg = 64).

Abbreviation jst := (@jffs2 D).
Abbreviation En := (Z.to_nat E).
Abbreviation rep := (rep tg mtdsize E).
Abbreviation sim := (sim tg mtdsize E).
Abbreviation simv := (simv tg mtdsize E).
Abbreviation push := (push tg E).
Abbreviation holds := (holds E).
Abbreviation size := (log_size tg).

(** ** Well-formed logs *)

(** A block of nodes that fit, the first one a clean marker. *)
Definition good_blk (b : list node) : Prop :=
  Forall wf_node b /\ (length (log_bytes tg b) <= En)%nat /\ exists t, b = NClean :: t.

Definition good_log (L : log) : Prop :=
  Forall good_blk (l_done L) /\ (l_cur L = [] \/ good_blk (l_cur L)).

Lemma good_cut L : good_log L -> good_log (cut L).
Proof using.
  intros [Hd Hc]. unfold cut. destruct (l_cur L) eqn:Hcur; [by split; [|left]|].
  split; simpl; [|by left]. apply Forall_app. split; [done|].
  destruct Hc as [|Hc]; [done|]. by constructor.
Qed.

Lemma good_prep L : good_log L -> good_log (prep L) /\ l_cur (prep L) <> [].
Proof.
  intros [Hd Hc]. unfold prep. destruct (l_cur L) eqn:Hcur.
  - split; [|done]. split; [done|]. right. split; [by repeat constructor|].
    split; [|by eexists]. simpl. rewrite log_bytes_clean. destruct (t_order tg); simpl; lia.
  - split; [|by rewrite Hcur]. split; [done|]. by rewrite Hcur.
Qed.

Lemma good_push n L :
  good_log L -> l_cur L <> [] -> wf_node n -> (size L + node_len n <= En)%nat -> good_log (push n L).
Proof.
  intros [Hd Hc] Hne Hwf Hfit.
  assert (good_blk (l_cur L ++ [n])) as Hb.
  { destruct Hc as [|(Hw & _ & t & Ht)]; [done|]. split_and!.
    - apply Forall_app. split; [done|by constructor].
    - by apply (size_snoc_le tg E E_min E_mod).
    - exists (t ++ [n]). by rewrite Ht. }
  unfold Jffs2Log.push. case_decide; split; simpl; try done.
  - by right.
  - apply Forall_app. split; [done|by constructor].
  - by left.
Qed.

Lemma nodes_cut L : log_nodes (cut L) = log_nodes L.
Proof using.
  unfold cut, log_nodes. destruct (l_cur L) eqn:Hc; simpl; [by rewrite Hc|].
  rewrite concat_app. simpl. by rewrite !app_nil_r.
Qed.

Lemma nodes_prep L : body (log_nodes (prep L)) = body (log_nodes L).
Proof using.
  unfold prep, log_nodes. destruct (l_cur L) eqn:Hc; simpl; [|by rewrite Hc].
  rewrite body_app. simpl. by rewrite !app_nil_r.
Qed.

Lemma nodes_push n L : log_nodes (push n L) = log_nodes L ++ [n].
Proof using.
  unfold Jffs2Log.push, log_nodes. case_decide; simpl; [by rewrite app_assoc|].
  rewrite concat_app. simpl. by rewrite !app_nil_r, app_assoc.
Qed.

(** ** The inner loop *)

Definition room_log (L : log) : log :=
  if 128 <? E - Z.of_nat (size L) - sizeof_inode then L else prep (cut L).

Definition room_len (L : log) : Z := E - Z.of_nat (size L) - sizeof_inode.

Lemma room_log_len L : 128 < room_len (room_log L).
Proof.
  unfold room_log, room_len. destruct (Z.ltb_spec 128 (E - Z.of_nat (size L) - sizeof_inode)); [done|].
  rewrite size_clean by apply cut_cur. unfold sizeof_inode. lia.
Qed.

Lemma size_mod L : Z.of_nat (size L) mod 4 = 0.
Proof using.
  unfold log_size. pose proof (log_bytes_length_mod tg (l_cur L)) as Hm.
  change 4 with (Z.of_nat 4). by rewrite <- Nat2Z.inj_mod, Hm.
Qed.

Lemma file_room_step fuel d0 o s L : rep d0 o s L ->
  file_room tg mtdsize E (S fuel) s =
    if 128 <? room_len L then Done (room_len L, s)
    else s ← pad mtdsize E E s; s ← prep_eraseblock tg mtdsize E s; file_room tg mtdsize E fuel s.
Proof.
  intros Hr. cbn [file_room]. rewrite (rep_rbytes tg mtdsize E E_min E_mod tg_ok d0 o s L Hr).
  destruct Hr as (_ & Hsz & _). fold (room_len L).
  rewrite s32_id by (unfold room_len, sizeof_inode; lia). done.
Qed.

Lemma file_room_sim L : simv (file_room tg mtdsize E 2) L (room_len (room_log L)) (room_log L).
Proof.
  pose proof (sim_bind _ _ _ E_min E_mod _ _ _ _ _ (sim_pad_block tg mtdsize E E_min E_mod L)
    (sim_prep tg mtdsize E E_min E_mod (cut L))) as [Hl Hs].
  pose proof (room_log_len L) as Hlen. unfold room_log in *. fold (room_len L) in *.
  destruct (Z.ltb_spec 128 (room_len L)) as [Hlt|Hge].
  - split; [done|]. intros d0 o s Hr _. exists s. split; [|done].
    rewrite (file_room_step 1 d0 o s L Hr). by rewrite (proj2 (Z.ltb_lt _ _)).
  - split; [done|]. intros d0 o s Hr Hroom. destruct (Hs d0 o s Hr Hroom) as (s' & Hs' & Hr').
    exists s'. split; [|done]. rewrite (file_room_step 1 d0 o s L Hr).
    rewrite (proj2 (Z.ltb_ge _ _)) by done. revert Hs'.
    destruct (pad mtdsize E E s) as [s1| |]; cbn [mbind outcome_bind]; try done.
    intros ->. cbn [mbind outcome_bind].
    rewrite (file_room_step 0 d0 o s' _ Hr'). by rewrite (proj2 (Z.ltb_lt _ _)).
Qed.

(** ** Pieces *)

Definition st_ok (st : stat) : Prop :=
  is_word 32 (st_mode st) /\ is_word 32 (st_size st) /\ is_word 32 (st_atime st) /\
  is_word 32 (st_mtime st) /\ is_word 32 (st_ctime st).

Definition chunk_log (L : log) (st : stat) (ino off : Z) (data : list Z) : log :=
  prep (push (NInode (chunk_info st ino (l_ver L + 1) off) data)
             (numbered (l_ino L) (l_ver L + 1) (room_log L))).

Lemma rep_numbered d0 o s L v : rep d0 o s L -> l_ino L = last_ino s ->
  rep d0 o (set_last_version s v) (numbered (l_ino L) v L).
Proof using. intros (Hh & Hsz & Hw & Hi & Hv & Hwf) _. by split_and!. Qed.

Lemma room_numbers L : l_ino (room_log L) = l_ino L /\ l_ver (room_log L) = l_ver L.
Proof using.
  unfold room_log. case_match; [done|]. destruct (prep_numbers (cut L)) as (-> & -> & _).
  unfold cut. by destruct (l_cur L).
Qed.

Lemma chunk_wf L st ino off data :
  st_ok st -> is_word 32 ino -> 0 <= l_ver L -> l_ver L + 1 < 2 ^ 31 -> is_word 32 off ->
  Forall (is_word 8) data -> Z.of_nat (length data) <= E ->
  wf_node (NInode (chunk_info st ino (l_ver L + 1) off) data).
Proof.
  intros (?&?&?&?&?) ? ? ? ? ? ?. unfold wf_node, is_word in *. simpl. split_and!; try done; lia.
Qed.

Lemma chunk_sim L st ino off data :
  wf_node (NInode (chunk_info st ino (l_ver L + 1) off) data) ->
  l_ver L + 1 < 2 ^ 31 -> Z.of_nat (length data) <= room_len (room_log L) ->
  sim (fun s => version ← int_incr (last_version s);
                let s := set_last_version s version in
                s ← add_data tg mtdsize E (file_node tg (file_inode st ino) version off data) s;
                s ← add_data tg mtdsize E data s;
                s ← pad mtdsize E 4 s;
                prep_eraseblock tg mtdsize E s) (room_log L) (chunk_log L st ino off data).
Proof.
  intros Hwf Hv Hlen. set (n := NInode _ data) in *.
  set (L1 := numbered (l_ino L) (l_ver L + 1) (room_log L)).
  destruct (room_numbers L) as [Hi Hv'].
  assert (size L1 + node_len n <= En)%nat as Hfit.
  { change (size L1) with (size (room_log L)). cbn [node_len n].
    unfold room_len, sizeof_inode in Hlen. lia. }
  pose proof (sim_bind _ _ _ E_min E_mod _ _ _ _ _
    (node_sim tg mtdsize E E_min E_mod tg_ok _ n L1
      (inode_appends tg mtdsize E E_min E_mod tg_ok _ data Hwf) Hwf Hfit)
    (sim_prep tg mtdsize E E_min E_mod (push n L1))) as [Hl Hs].
  split; [done|]. intros d0 o s Hr Hroom.
  assert (rep d0 o (set_last_version s (l_ver L + 1)) L1) as Hr1.
  { subst L1. rewrite <- Hi. apply rep_numbered; [done|]. symmetry. apply Hr. }
  destruct (Hs d0 o _ Hr1 Hroom) as (s' & Hs' & Hr'). exists s'. split; [|exact Hr'].
  replace (last_version s) with (l_ver L) by (rewrite <- Hv'; symmetry; apply Hr).
  rewrite int_incr_ok by done. simpl. revert Hs'. simpl. unfold info_inode, file_inode. simpl.
  destruct (add_data _ _ _ _ _) as [s2| |]; simpl; try done.
  by destruct (add_data _ _ _ _ _) as [s3| |].
Qed.

Lemma good_chunk L st ino off data :
  good_log L -> l_cur L <> [] -> wf_node (NInode (chunk_info st ino (l_ver L + 1) off) data) ->
  Z.of_nat (length data) <= room_len (room_log L) ->
  good_log (chunk_log L st ino off data) /\ l_cur (chunk_log L st ino off data) <> [] /\
  body (log_nodes (chunk_log L st ino off data))
    = body (log_nodes L) ++ [NInode (chunk_info st ino (l_ver L + 1) off) data] /\
  l_ino (chunk_log L st ino off data) = l_ino L /\ l_ver (chunk_log L st ino off data) = l_ver L + 1.
Proof.
  intros Hg Hne Hwf Hlen. unfold chunk_log. set (n := NInode _ data) in *.
  set (L1 := numbered (l_ino L) (l_ver L + 1) (room_log L)).
  assert (good_log (room_log L) /\ l_cur (room_log L) <> []) as [Hg1 Hne1].
  { unfold room_log. case_match; [done|]. by apply good_prep, good_cut. }
  assert (good_log (push n L1)) as Hg2.
  { apply good_push; [done..|]. change (size L1) with (size (room_log L)). cbn [node_len n].
    unfold room_len, sizeof_inode in Hlen. lia. }
  destruct (good_prep _ Hg2) as [Hg3 Hne3]. split; [done|]. split; [done|].
  rewrite nodes_prep, nodes_push, body_app. split.
  - f_equal. change (log_nodes L1) with (log_nodes (room_log L)).
    unfold room_log. case_match; [done|]. by rewrite nodes_prep, nodes_cut.
  - destruct (prep_numbers (push n L1)) as (-> & -> & _). unfold Jffs2Log.push. by case_decide.
Qed.

(** ** The loop over the file *)

Lemma file_loop_end fuel ri f off L :
  delivers f -> f_rest f = [] -> sim (file_loop tg mtdsize E (S fuel) ri f off) L (room_log L).
Proof.
  intros Hd Hrest. destruct (file_room_sim L) as [Hl Hs]. pose proof (room_log_len L) as Hlen.
  split; [done|]. intros d0 o s Hr Hroom. destruct (Hs d0 o s Hr Hroom) as (s' & Hs' & Hr').
  exists s'. split; [|done]. cbn [file_loop]. rewrite Hs'. cbn [mbind outcome_bind].
  destruct (file_read_ok f (if 4096 <? room_len (room_log L) then 4096 else room_len (room_log L)) Hd)
    as (m & f' & -> & _); [case_match; lia|].
  by rewrite Hrest, take_nil.
Qed.

Lemma file_loop_step fuel st ino f off L :
  delivers f -> f_rest f <> [] ->
  exists data f', f_rest f = data ++ f_rest f' /\ data <> [] /\ delivers f' /\
    Z.of_nat (length data) <= room_len (room_log L) /\
    forall L', wf_node (NInode (chunk_info st ino (l_ver L + 1) off) data) -> l_ver L + 1 < 2 ^ 31 ->
      sim (file_loop tg mtdsize E fuel (file_inode st ino) f' (off + Z.of_nat (length data)))
          (chunk_log L st ino off data) L' ->
      sim (file_loop tg mtdsize E (S fuel) (file_inode st ino) f off) L L'.
Proof.
  intros Hd Hrest. pose proof (room_log_len L) as Hlen.
  set (len := if 4096 <? room_len (room_log L) then 4096 else room_len (room_log L)).
  destruct (file_read_ok f len Hd) as (m & f' & Hread & Hrest' & Hd' & Hm); [subst len; case_match; lia|].
  exists (take m (f_rest f)), f'. split; [by rewrite Hrest', take_drop|].
  assert (take m (f_rest f) <> []) as Hne by (destruct m, (f_rest f); simpl; try done; lia).
  assert (Z.of_nat (length (take m (f_rest f))) <= room_len (room_log L)) as Hle.
  { rewrite length_take. subst len. case_match; b2p; lia. }
  split_and!; try done. intros L' Hwf Hv Hnext.
  destruct (sim_bind _ _ _ E_min E_mod _ _ _ _ _ (chunk_sim L st ino off _ Hwf Hv Hle) Hnext) as [Hl2 Hs2].
  destruct (file_room_sim L) as [Hl1 Hs1]. split; [lia|]. intros d0 o s Hr Hroom.
  destruct (Hs1 d0 o s Hr) as (s1 & Hr1 & Hrep1); [unfold room in *; lia|].
  destruct (Hs2 d0 o s1 Hrep1 Hroom) as (s2 & Hr2 & Hrep2). exists s2. split; [|done].
  cbn [file_loop]. rewrite Hr1. cbn [mbind outcome_bind]. fold len. rewrite Hread.
  revert Hr2. destruct (take m (f_rest f)) as [|x data] eqn:Hdata; [done|].
  destruct (int_incr (last_version s1)) as [v| |]; cbn [mbind outcome_bind]; try done.
  destruct (add_data _ _ _ _ _) as [s3| |]; cbn [mbind outcome_bind]; try done.
  destruct (add_data _ _ _ _ _) as [s4| |]; cbn [mbind outcome_bind]; try done.
  by destruct (pad mtdsize E 4 s4) as [s5| |].
Qed.

Lemma file_loop_sim st ino fuel : forall f off L,
  st_ok st -> is_word 32 ino -> delivers f -> (length (f_rest f) < fuel)%nat ->
  Forall (is_word 8) (f_rest f) ->
  good_log L -> l_cur L <> [] -> 0 <= l_ver L -> l_ver L + Z.of_nat (length (f_rest f)) < 2 ^ 31 ->
  0 <= off -> off + Z.of_nat (length (f_rest f)) < 2 ^ 32 ->
  exists L' cs, concat cs = f_rest f /\ (f_rest f <> [] -> cs <> []) /\
    sim (file_loop tg mtdsize E fuel (file_inode st ino) f off) L L' /\ good_log L' /\
    l_cur L' <> [] /\
    body (log_nodes L') = body (log_nodes L) ++ file_chunks st ino (l_ver L + 1) off cs.
Proof.
  induction fuel as [|fuel IH]; intros f off L Hst Hino Hd Hf Hb Hg Hne Hv0 Hv Ho0 Ho; [lia|].
  destruct (decide (f_rest f = [])) as [Hnil|Hrest].
  - exists (room_log L), []. rewrite Hnil. split_and!; try done.
    + by apply file_loop_end.
    + unfold room_log. case_match; [done|]. by apply good_prep, good_cut.
    + unfold room_log. case_match; [done|]. by apply good_prep, good_cut.
    + rewrite app_nil_r. unfold room_log. case_match; [done|]. by rewrite nodes_prep, nodes_cut.
  - destruct (file_loop_step fuel st ino f off L Hd Hrest) as (data & f' & Hsplit & Hdne & Hd' & Hle & Hstep).
    assert (0 < length data)%nat as Hpos by (destruct data; [done|simpl; lia]).
    rewrite Hsplit in *. rewrite length_app in *. apply Forall_app in Hb as [Hb1 Hb2].
    assert (wf_node (NInode (chunk_info st ino (l_ver L + 1) off) data)) as Hwf.
    { apply chunk_wf; try done; [lia|unfold is_word; lia|]. unfold room_len, sizeof_inode in Hle. lia. }
    destruct (good_chunk L st ino off data Hg Hne Hwf Hle) as (Hg1 & Hne1 & Hbody & Hi1 & Hv1).
    destruct (IH f' (off + Z.of_nat (length data)) (chunk_log L st ino off data))
      as (L' & cs & Hcs & _ & Hsim & Hg' & Hne' & Hbody'); try done; try lia.
    exists L', (data :: cs). split_and!; try done.
    + simpl. by rewrite Hcs.
    + apply Hstep; [done|lia|done].
    + rewrite Hbody', Hbody, Hv1, <- app_assoc. done.
Qed.

(** ** Whole files *)

(** What [add_file] appends for a file that can be read. *)
Lemma add_file_sim h name parent st f L :
  h name = Some (st, Some f) -> st_ok st -> delivers f -> Forall (is_word 8) (f_rest f) ->
  st_size st = Z.of_nat (length (f_rest f)) ->
  good_log L -> dirent_pre tg E L (base_name name) DT_REG parent ->
  (size (prep L) + 40 + length (base_name name) < En - 4)%nat ->
  l_ver L + 1 + Z.of_nat (length (f_rest f)) < 2 ^ 31 ->
  exists L' cs, concat cs = f_rest f /\ (f_rest f <> [] -> cs <> []) /\
    sim (add_file tg mtdsize E h name parent) L L' /\ good_log L' /\ l_cur L' <> [] /\
    body (log_nodes L') = body (log_nodes L)
      ++ NDirent parent (l_ver L) (l_ino L + 1) DT_REG (base_name name)
      :: file_chunks st (l_ino L + 1) (l_ver L + 2) 0 cs.
Proof.
  intros Hh Hst Hd Hb Hsz Hg Hpre Hfit Hv.
  pose proof (dirent_wf tg E E_min E_mod tg_ok _ _ _ _ Hpre) as Hwf.
  set (n := NDirent parent (l_ver L) (l_ino L + 1) DT_REG (base_name name)) in *.
  set (L1 := dirent_log tg E L (base_name name) DT_REG parent).
  destruct (good_prep L Hg) as [Hgp Hnep]. destruct (prep_numbers L) as (Hpi & Hpv & _).
  assert (L1 = Log (l_done (prep L)) (l_cur (prep L) ++ [n]) (l_ino L + 2) (l_ver L + 1)) as HL1.
  { subst L1. unfold dirent_log, Jffs2Log.push, numbered. cbn [l_cur l_done l_ino l_ver]. fold n.
    rewrite decide_True; [done|].
    rewrite log_bytes_snoc, length_pad4_bytes, length_app, length_node_bytes.
    cbn [node_len n]. match goal with |- (round4 ?k < _)%nat => pose proof (round4_spec k) end.
    unfold log_size in Hfit. lia. }
  assert (good_log L1) as Hg1.
  { subst L1. apply good_push; [done..|]. cbn [node_len n].
    change (size (numbered _ _ (prep L))) with (size (prep L)). lia. }
  assert (l_cur L1 <> []) as Hne1 by (rewrite HL1; simpl; by destruct (l_cur (prep L))).
  destruct Hpre as (Hi0 & Hi & Hv0 & Hv1 & Hrest) eqn:Hpre'.
  destruct (file_loop_sim st (l_ino L + 1) (S (length (f_rest f))) f 0 L1)
    as (L' & cs & Hcs & Hcne & Hsim & Hg' & Hne' & Hbody); try done; try (rewrite ?HL1; simpl; unfold is_word; lia).
  exists L', cs. split_and!; try done.
  - destruct (add_dirent_sim tg mtdsize E E_min E_mod tg_ok L (base_name name) DT_REG parent Hpre) as [Hl1 Hs1].
    destruct Hsim as [Hl2 Hs2]. split; [fold L1 in Hl1; lia|]. intros d0 o s Hr Hroom.
    destruct (Hs1 d0 o s Hr) as (s1 & Hr1 & Hrep1); [unfold room in *; fold L1; lia|].
    destruct (Hs2 d0 o s1 Hrep1 Hroom) as (s2 & Hr2 & Hrep2). exists s2. split; [|done].
    unfold add_file. rewrite Hh, Hr1. done.
  - rewrite Hbody, HL1. unfold log_nodes at 1. cbn [l_done l_cur l_ver].
    rewrite app_assoc, body_app. change (concat (l_done (prep L)) ++ l_cur (prep L)) with (log_nodes (prep L)).
    rewrite nodes_prep, <- app_assoc. simpl. by replace (l_ver L + 1 + 1) with (l_ver L + 2) by lia.
Qed.

End files.

(** ** What [mtd_replace_jffs2] leaves *)


(** The block that ends the file system. *)
Definition eof_block (E : Z) : list Z := JFFS2_EOF ++ replicate (Z.to_nat E - 4) 255.

(** A target that the writer supports, and an erase block it can fill. *)
Definition target_ok (tg : target) (E : Z) : Prop :=
  1024 <= E < 2 ^ 31 /\ E mod 4 = 0 /\ (t_size_bits tg = 32 \/ t_size_bits tg = 64).

Section replace.
Context {D : Type} `{FL : FlashLaws D} (tg : target) (mtdsize E : Z).
Context (E_min : 1024 <= E < 2 ^ 31) (E_mod : E mod 4 = 0).
Context (tg_ok : t_size_bits tg = 32 \/ t_size_bits tg = 64).

Abbreviation jst := (@jffs2 D).
Abbreviation En := (Z.to_nat E).

Lemma add_eof_spec d0 o s L :
  rep tg mtdsize E d0 o s L -> (length (l_done (cut L)) < length (goods d0 o))%nat ->
  exists s', add_eof tg mtdsize E s = Done s' /\
    wrote mtdsize E d0 o s' (map (block_of tg En) (l_done (cut L)) ++ [eof_block E]).
Proof.
  intros Hr Hroom. destruct (sim_pad_block tg mtdsize E E_min E_mod L) as [_ Hs].
  destruct (Hs d0 o s Hr) as (s1 & Hs1 & (Hh & _ & Hw & _)); [unfold room; lia|].
  rewrite cut_cur in Hh. unfold add_eof. rewrite Hs1. simpl.
  destruct (add_data_one tg mtdsize E E_min E_mod tg_ok s1 [] JFFS2_EOF Hh) as (s2 & Hs2 & _ & Ho & Hh2).
  { simpl. lia. } { unfold JFFS2_EOF. rewrite !Forall_cons, Forall_nil. unfold is_word. lia. }
  rewrite Hs2. simpl.
  destruct (pad_block mtdsize E E_min E_mod d0 o s2 JFFS2_EOF (map (block_of tg En) (l_done (cut L))))
    as (s3 & Hs3 & _ & _ & Hw3); [done|done|by eapply wrote_same_out|slen|].
  exists s3. split; [done|]. exact Hw3.
Qed.

(** The state in which [mtd_replace_jffs2] calls [add_file] represents an empty log. *)
Lemma start_rep (d0 : D) o (s : jst) junk ino :
  fl_size d0 = mtdsize -> fl_erasesize d0 = E -> boundary d0 o ->
  length junk = En -> Forall (is_word 8) junk -> ofs s = 0 ->
  rep tg mtdsize E d0 o (set_last_ino (set_target (set_buf (set_out s d0 o o) junk) 1) ino)
    (Log [] [] ino (last_version s)).
Proof.
  intros HS HE Hb Hl Hj Ho. split_and!; try done.
  - unfold log_size. simpl. lia.
  - split_and!; try done. by apply programmed_nil.
Qed.

Lemma good_log_empty ino ver : good_log tg E (Log [] [] ino ver).
Proof using. split; [by constructor|by left]. Qed.

Lemma cut_done_le L : (length (l_done L) <= length (l_done (cut L)))%nat.
Proof using. unfold cut. destruct (l_cur L); simpl; slen. Qed.

Lemma cut_done_nodes L : concat (l_done (cut L)) = log_nodes L.
Proof using. rewrite <- nodes_cut. unfold log_nodes. by rewrite cut_cur, app_nil_r. Qed.

End replace.

(** The number after which new inode numbers are given out. *)
Definition first_ino (n : Z) : Z := if n =? 0 then 1 else n.

(** Bounds under which the numbers of the new nodes do not overflow. *)
Definition numbers_ok (last_ino last_version : Z) (content : list Z) : Prop :=
  0 <= last_ino /\ last_ino + 2 < 2 ^ 31 /\ 0 <= last_version /\
  last_version + 1 + Z.of_nat (length content) < 2 ^ 31.

(** A file of the host that can be read to its end. *)
Definition host_file (h : host) (name content : list Z) : Prop :=
  exists st f, h name = Some (st, Some f) /\ f_rest f = content /\ st_ok st /\ delivers f /\
    Forall (is_word 8) content /\ st_size st = Z.of_nat (length content) /\ content <> [] /\
    Forall (is_word 8) (base_name name) /\ (length (base_name name) < 256)%nat.

Section replace_correct.
Context {D : Type} `{FL : FlashLaws D}.

(** [mtd_replace_jffs2] appends a file.  There are blocks of nodes, the first node of
    each a clean marker, such that on every device with room for them the
    run stores exactly these blocks and a block with the end marker in the good
    blocks from the current one on; a jffs2 reader finds these nodes in them, and
    reads the content of the file behind any older nodes that respect the numbers
    the writer started from. *)
Lemma mtd_replace_spec (tg : target) (mtdsize E : Z) h filename content li lv :
  target_ok tg E -> host_file h filename content -> numbers_ok li lv content ->
  exists blks : list (list node),
    Forall (fun b => head b = Some NClean) blks /\
    map (scan_block (t_order tg)) (map (block_of tg (Z.to_nat E)) blks) = blks /\
    (forall old, Forall (fun x => fst x <= lv) (dirents 1 (base_name filename) old) ->
       inodes (first_ino li + 1) old = [] ->
       read_file (old ++ concat blks) 1 (base_name filename) = Some content) /\
    forall (d : D) o junk (s : @jffs2 D), fl_size d = mtdsize -> fl_erasesize d = E -> boundary d o ->
      length junk = Z.to_nat E -> Forall (is_word 8) junk ->
      ofs s = 0 -> last_ino s = li -> last_version s = lv ->
      (length blks < length (goods d o))%nat ->
      exists s', mtd_replace_jffs2 tg mtdsize E h d o o junk filename s = Done (mtdofs s' - o, s') /\
        pos s' = mtdofs s' /\ programmed d o (map (block_of tg (Z.to_nat E)) blks ++ [eof_block E]) (dev s') (mtdofs s').
Proof using FL.
  intros (HE1 & HE2 & Htg) (st & f & Hh & Hf & Hst & Hd & Hc & Hsz & Hne & Hnm & Hnl) (Hi0 & Hi & Hv0 & Hv).
  subst content. set (ino := first_ino li).
  assert (1 <= ino < 2 ^ 31 - 2) as Hino by (subst ino; unfold first_ino; case_match; b2p; lia).
  set (L0 := Log [] [] ino lv).
  assert (log_size tg (prep L0) = 12%nat) as Hs0 by (by apply size_clean).
  destruct (add_file_sim tg mtdsize E HE1 HE2 Htg (D := D) h filename 1 st f L0)
    as (L' & cs & Hcs & Hcne & [_ Hsim] & Hg' & _ & Hbody); try done; try lia.
  { apply good_log_empty. }
  { unfold dirent_pre. rewrite Hs0. subst L0. cbn [l_ino l_ver]. unfold is_word, DT_REG.
    split_and!; try done; lia. }
  exists (l_done (cut L')). apply good_cut in Hg' as [Hgd _].
  split_and!.
  - eapply Forall_impl; [exact Hgd|]. intros b (_ & _ & t & ->). done.
  - rewrite map_map. rewrite <- (map_id (l_done (cut L'))) at 2. apply map_ext_Forall.
    eapply Forall_impl; [exact Hgd|]. intros b (Hwf & _). by apply scan_block_of.
  - intros old Hdir Hin. rewrite cut_done_nodes, <- Hcs.
    apply (read_file_appended _ (body old) 1 lv (ino + 1) DT_REG _ st (lv + 2)).
    + by rewrite body_app, Hbody.
    + by rewrite dirents_body.
    + by rewrite inodes_body.
    + by apply Hcne.
    + by rewrite Hcs.
  - intros d o junk s HS HE Hb Hl Hj Ho Hli Hlv Hroom.
    destruct (Hsim d o (set_last_ino (set_target (set_buf (set_out s d o o) junk) 1) ino))
      as (s1 & Hs1 & Hr1); [subst L0; rewrite <- Hlv; by apply start_rep|unfold room; pose proof (cut_done_le L'); lia|].
    destruct (add_eof_spec tg mtdsize E HE1 HE2 Htg d o s1 L' Hr1 Hroom) as (s2 & Hs2 & (_ & _ & Hpos & Hp)).
    exists s2. split; [|done]. unfold mtd_replace_jffs2.
    replace (if last_ino _ =? 0 then _ else _)
      with (set_last_ino (set_target (set_buf (set_out s d o o) junk) 1) ino)
      by (subst ino; rewrite <- Hli; unfold first_ino; simpl; by case_match).
    change (target_ino _) with 1. rewrite Hs1. simpl. by rewrite Hs2.
Qed.

End replace_correct.
