(* ===== verification/Jffs2Scan.v ===== *)
(** * Reading the numbers of an existing file system

    [mtd_parse_jffs2data] and the first loop of [mtd_write_jffs2] compute, from
    blocks of nodes, the directory that was asked for and the highest inode and
    version numbers of the directory entries. *)

From stdpp Require Import options.
From S2P Require Import Prelude Crc32 Mtd MtdGood Jffs2 Jffs2Spec Jffs2Facts Jffs2Log Jffs2Props.

Set Default Proof Using "Type*".

(** ** What a node contributes *)

(** The entry of the root directory that the tool takes for the directory: its name
    is a beginning of the name that was asked for. *)
Definition names_dir (dir : cstr) (pino : Z) (name : list Z) : bool :=
  negb (bool_decide (dir = [])) && (pino =? 1) && bool_decide (name `prefix_of` dir).

(** Directory, last inode number and last version number. *)
Definition numbers := (Z * Z * Z)%type.

Definition see_node (dir : cstr) (x : numbers) (n : node) : numbers :=
  let '(target, ino, version) := x in
  match n with
  | NDirent p v i _ name =>
      (if names_dir dir p name then i else target, Z.max ino i, Z.max version v)
  | _ => x
  end.

Definition see_nodes (dir : cstr) (x : numbers) (ns : list node) : numbers :=
  fold_left (see_node dir) ns x.

(** [PAD] rounds up to a multiple of four. *)
Lemma PAD_round4 n : Z.of_nat n + 3 < 2 ^ 32 -> PAD (Z.of_nat n) = Z.of_nat (round4 n).
Proof.
  intros Hn. unfold PAD, round4. set (y := Z.of_nat n + 3).
  rewrite Nat2Z.inj_mul, Nat2Z.inj_div, Nat2Z.inj_add. change (Z.of_nat n + Z.of_nat 3) with y.
  change (Z.of_nat 4) with (2 ^ 2). unfold u32 at 1. rewrite wrap_small by (unfold is_word, y; lia).
  change (u32 (-4)) with (Z.shiftl (Z.ones 30) 2).
  rewrite <- Z.shiftr_div_pow2, <- Z.shiftl_mul_pow2 by lia.
  apply Z.bits_inj'. intros i Hi. rewrite Z.land_spec.
  destruct (Z.lt_ge_cases i 2).
  - rewrite !Z.shiftl_spec_low by lia. apply andb_false_r.
  - rewrite !Z.shiftl_spec_high, Z.shiftr_spec, Z.testbit_ones_nonneg by lia.
    replace (i - 2 + 2) with i by lia. destruct (Z.ltb_spec (i - 2) 30); [apply andb_true_r|].
    rewrite andb_false_r. symmetry. apply Z.bits_above_log2; [unfold y; lia|].
    apply Z.log2_lt_pow2; [unfold y; lia|]. apply Z.lt_le_trans with (2 ^ 32); [unfold y; lia|].
    apply Z.pow_le_mono_r; lia.
Qed.

Section scan.
Context {D : Type} `{FL : FlashLaws D} (tg : target) (mtdsize E : Z).
Context (E_min : 1024 <= E < 2 ^ 31) (E_mod : E mod 4 = 0).

Abbreviation jst := (@jffs2 D).
Abbreviation En := (Z.to_nat E).

Definition numbers_of (s : jst) : numbers := (target_ino s, last_ino s, last_version s).

(** The other variables are those of [s]. *)
Definition with_numbers (s : jst) (x : numbers) : jst :=
  let '(t, i, v) := x in set_last_version (set_last_ino (set_target s t) i) v.

Lemma with_numbers_of s : with_numbers s (numbers_of s) = s.
Proof using. by destruct s. Qed.

(** Nodes that fit the signed variables of the tool. *)
Definition small_node (n : node) : Prop :=
  match n with
  | NDirent p v i _ name => 0 <= i < 2 ^ 31 /\ 0 <= v < 2 ^ 31 /\ no_nul name
  | _ => True
  end.

Definition small_numbers (x : numbers) : Prop :=
  let '(t, i, v) := x in 0 <= i < 2 ^ 31 /\ 0 <= v < 2 ^ 31.

Lemma see_node_small dir x n : small_node n -> small_numbers x -> small_numbers (see_node dir x n).
Proof using.
  destruct x as [[t i] v], n; simpl; try done. intros (?&?&_) [? ?]. clear -H0 H1 H2 H3. lia.
Qed.

Lemma strncmp_eq_prefix name dir rest : no_nul name -> no_nul dir ->
  strncmp_eq (length name) (name ++ rest) (dir ++ [0]) = Some (bool_decide (name `prefix_of` dir)).
Proof using.
  intros Hn. revert dir. induction Hn as [|c name Hc _ IH]; intros dir Hd.
  - done.
  - destruct dir as [|c' dir]; cbn [strncmp_eq app length].
    + rewrite (proj2 (Z.eqb_neq c 0)) by done. rewrite bool_decide_false; [done|].
      apply prefix_nil_not.
    + inversion Hd; subst. destruct (Z.eqb_spec c c') as [-> |Hne].
      * rewrite (proj2 (Z.eqb_neq c' 0)) by done. rewrite IH by done. f_equal.
        apply bool_decide_ext. split; [apply prefix_cons|apply prefix_cons_inv_2].
      * rewrite bool_decide_false; [done|]. by intros ?%prefix_cons_inv_1.
Qed.

(** ** Fields in a block *)

(** The [n]-byte integer at offset [k] of what follows [pre]. *)
Lemma mem_read_field pre bs k n :
  (k + n <= length bs)%nat -> mem_read (pre ++ bs) (length pre + k) n = Some (take n (drop k bs)).
Proof using. intros. unfold mem_read. rewrite decide_True by slen. by rewrite drop_app_add'. Qed.

Lemma get32_field pre bs k :
  (k + 4 <= length bs)%nat -> get32 (t_order tg) (pre ++ bs) (length pre + k) = Some (field (t_order tg) bs k 4).
Proof using. intros. unfold get32. by rewrite mem_read_field. Qed.

Lemma get16_field pre bs k :
  (k + 2 <= length bs)%nat -> get16 tg (pre ++ bs) (length pre + k) = Some (field (t_order tg) bs k 2).
Proof using. intros. unfold get16. by rewrite mem_read_field. Qed.

Lemma get8_field pre bs k :
  (k < length bs)%nat -> get8 (pre ++ bs) (length pre + k) = Some (field (t_order tg) bs k 1).
Proof using.
  intros Hk. unfold get8. rewrite lookup_app_r by lia.
  replace (length pre + k - length pre)%nat with k by lia.
  destruct (lookup_lt_is_Some_2 bs k Hk) as [x Hx]. rewrite Hx. f_equal. unfold field.
  rewrite (drop_S _ _ _ Hx). destruct (t_order tg); simpl; by rewrite Z.add_0_r.
Qed.

Lemma dirent_fields pino version ino type name rest :
  let n := NDirent pino version ino type name in
  let bs := node_bytes tg n ++ rest in
  wf_node n ->
  field (t_order tg) bs 12 4 = pino /\ field (t_order tg) bs 16 4 = version /\
  field (t_order tg) bs 20 4 = ino /\ field (t_order tg) bs 28 1 = Z.of_nat (length name) /\
  drop 40 bs = name ++ rest.
Proof using.
  intros n bs (Hp & Hv & Hi & Ht & Hn & Hl). subst n bs. cbn [node_bytes]. rewrite <- app_assoc.
  split_and!; [| | | |by rewrite drop_app_length' by slen];
    unfold dirent_bytes; rewrite <- !app_assoc; fields; rewrite ?field_here_word by done; try done.
  rewrite field_here. cbn. unfold u8, wrap, strlen. rewrite Z.mod_mod by lia. apply Z.mod_small.
  clear -Hl. lia.
Qed.

Lemma s32_small_id x : 0 <= x < 2 ^ 31 -> s32 x = x.
Proof using. intros. apply s32_id. clear -H0. lia. Qed.

Lemma u32_small_id x : 0 <= x < 2 ^ 31 -> u32 x = x.
Proof using. intros. apply wrap_small. unfold is_word. clear -H0. lia. Qed.

Lemma parse_dirent_ok pre pino version ino type name rest dir s :
  let n := NDirent pino version ino type name in
  wf_node n -> small_node n -> no_nul dir -> small_numbers (numbers_of s) ->
  parse_dirent tg (pre ++ node_bytes tg n ++ rest) dir (length pre) s
    = Some (with_numbers s (see_node dir (numbers_of s) n)).
Proof using.
  intros n Hwf (Hi & Hv & Hnul) Hdir (Hsi & Hsv).
  destruct (dirent_fields pino version ino type name rest Hwf) as (F1 & F2 & F3 & F4 & F5).
  assert (40 + length name <= length (node_bytes tg n ++ rest))%nat as Hlen
    by (rewrite length_app, length_node_bytes; clear; simpl; lia).
  unfold parse_dirent. rewrite !get32_field, get8_field by (clear -Hlen; lia).
  cbn [mbind option_bind]. subst n. rewrite F1, F2, F3, F4, Nat2Z.id.
  rewrite drop_app_add', F5, strncmp_eq_prefix by done.
  unfold numbers_of, see_node, names_dir.
  replace (if negb (bool_decide (dir = [])) && (pino =? 1) then Some (bool_decide (name `prefix_of` dir)) else Some false)
    with (Some (negb (bool_decide (dir = [])) && (pino =? 1) && bool_decide (name `prefix_of` dir)))
    by (by destruct (negb _ && _)).
  cbn [mbind option_bind]. f_equal. generalize (negb (bool_decide (dir = [])) && (pino =? 1) && bool_decide (name `prefix_of` dir)).
  intros here. rewrite !s32_small_id by done.
  destruct s as [li lv b oo dd pp mm tt]. simpl in *.
  destruct here; simpl; rewrite (u32_small_id li) by done;
    destruct (Z.ltb_spec li ino); simpl; rewrite (u32_small_id lv) by done;
    destruct (Z.ltb_spec lv version); unfold set_last_ino, set_last_version, set_target; simpl;
    f_equal; clear -H0 H1; lia.
Qed.

(** ** The walk over a block *)

Lemma with_numbers_twice s x y : with_numbers (with_numbers s x) y = with_numbers s y.
Proof using. by destruct x as [[]], y as [[]]. Qed.

Lemma numbers_of_with s x : numbers_of (with_numbers s x) = x.
Proof using. by destruct x as [[]]. Qed.

(** What follows the nodes does not look like a node. *)
Definition ends_log (tail : list Z) : Prop :=
  tail = [] \/ ((2 <= length tail)%nat /\ field (t_order tg) tail 0 2 <> JFFS2_MAGIC_BITMASK).

Lemma parse_nodes_step fuel pre n rest dir s :
  Z.of_nat (length (pre ++ padded tg n ++ rest)) = E ->
  wf_node n -> small_node n -> no_nul dir -> small_numbers (numbers_of s) ->
  parse_nodes tg E (S fuel) (pre ++ padded tg n ++ rest) dir (Z.of_nat (length pre)) s
  = parse_nodes tg E fuel ((pre ++ padded tg n) ++ rest) dir (Z.of_nat (length (pre ++ padded tg n)))
      (with_numbers s (see_node dir (numbers_of s) n)).
Proof.
  intros HE Hwf Hsm Hdir Hnum. cbn [parse_nodes]. rewrite !length_app in HE.
  rewrite length_padded in HE. destruct (round4_Z (node_len n)) as [Hr _].
  assert (12 <= node_len n)%nat as Hmin by (destruct n; simpl; lia).
  unfold u32 at 1. rewrite wrap_small by (unfold is_word; lia).
  rewrite (proj2 (Z.ltb_lt _ _)) by lia. rewrite Nat2Z.id.
  unfold padded. rewrite <- (app_assoc (node_bytes tg n)). set (rest' := replicate _ 255 ++ rest).
  destruct (node_header tg n rest' Hwf) as (Hm & Ht & Hl & _).
  rewrite <- (Nat.add_0_r (length pre)) at 1.
  rewrite !get16_field, get32_field by (rewrite length_app, length_node_bytes; lia).
  cbn [defined mbind outcome_bind]. rewrite Hm, Hl, Ht. cbn [negb Z.eqb Pos.eqb JFFS2_MAGIC_BITMASK].
  replace (u32 _) with (Z.of_nat (length (pre ++ padded tg n))).
  - rewrite <- !app_assoc. fold rest'.
    destruct n as [|pino version ino type name|i data]; cbn [Z.eqb].
    + change (see_node dir (numbers_of s) NClean) with (numbers_of s). by rewrite with_numbers_of.
    + cbn [Z.eqb Pos.eqb JFFS2_NODETYPE_DIRENT].
      by rewrite parse_dirent_ok by done.
    + change (see_node dir (numbers_of s) (NInode i data)) with (numbers_of s). by rewrite with_numbers_of.
  - rewrite PAD_round4 by lia. rewrite length_app, length_padded.
    symmetry. rewrite Nat2Z.inj_add. apply wrap_small. unfold is_word. lia.
Qed.

Lemma parse_nodes_ok dir ns : forall fuel pre tail s,
  Z.of_nat (length (pre ++ log_bytes tg ns ++ tail)) = E ->
  Forall wf_node ns -> Forall small_node ns -> no_nul dir -> small_numbers (numbers_of s) ->
  ends_log tail -> (length ns < fuel)%nat ->
  parse_nodes tg E fuel (pre ++ log_bytes tg ns ++ tail) dir (Z.of_nat (length pre)) s
  = Done (with_numbers s (see_nodes dir (numbers_of s) ns)).
Proof.
  induction ns as [|n ns IH]; intros fuel pre tail s HE Hwf Hsm Hdir Hnum Htail Hf.
  - destruct fuel as [|fuel]; [simpl in Hf; lia|]. cbn [log_bytes map concat app] in *.
    unfold see_nodes. cbn [fold_left parse_nodes]. rewrite with_numbers_of.
    unfold u32. rewrite wrap_small by (unfold is_word; lia). rewrite length_app in HE.
    destruct Htail as [-> |[Hl Hm]].
    + rewrite (proj2 (Z.ltb_ge _ _)); [done|]. simpl in HE. lia.
    + rewrite (proj2 (Z.ltb_lt _ _)) by lia. rewrite Nat2Z.id.
      rewrite <- (Nat.add_0_r (length pre)), get16_field by lia. cbn [defined mbind outcome_bind].
      by rewrite (proj2 (Z.eqb_neq _ _) Hm).
  - destruct fuel as [|fuel]; [simpl in Hf; lia|].
    change (log_bytes tg (n :: ns)) with (padded tg n ++ log_bytes tg ns) in *.
    rewrite <- app_assoc in *. apply Forall_cons in Hwf as [Hw1 Hw2]. apply Forall_cons in Hsm as [Hs1 Hs2].
    rewrite parse_nodes_step by done.
    rewrite IH; rewrite ?numbers_of_with; try done.
    + by rewrite with_numbers_twice.
    + by rewrite <- app_assoc.
    + by apply see_node_small.
    + simpl in Hf. lia.
Qed.

(** A block of nodes, erased behind them. *)
Lemma parse_block_ok dir ns s :
  Forall wf_node ns -> Forall small_node ns -> no_nul dir -> small_numbers (numbers_of s) ->
  (length (log_bytes tg ns) <= En)%nat ->
  mtd_parse_jffs2data tg E (block_of tg En ns) dir s
  = Done (with_numbers s (see_nodes dir (numbers_of s) ns)).
Proof.
  intros Hwf Hsm Hdir Hnum Hl. unfold mtd_parse_jffs2data, block_of.
  apply (parse_nodes_ok dir ns _ []); try done.
  - simpl. rewrite length_app, length_replicate. lia.
  - set (k := (En - length (log_bytes tg ns))%nat).
    pose proof (size_mod tg (Log [] ns 0 0)) as Hm. unfold log_size in Hm. cbn [l_cur] in Hm.
    destruct (decide (k = 0)%nat) as [Hk|Hk]; [left; by rewrite Hk|right].
    assert (4 <= k)%nat as Hk4 by (subst k; clear -Hm Hk E_mod E_min Hl; dlia).
    rewrite length_replicate. split; [lia|].
    destruct k as [|[|k]]; [lia|lia|]. unfold field. rewrite drop_0. by destruct (t_order tg).
  - assert (12 * length ns <= length (log_bytes tg ns))%nat.
    { clear. induction ns as [|n ns IH]; [done|].
      change (log_bytes tg (n :: ns)) with (padded tg n ++ log_bytes tg ns).
      pose proof (round4_spec (node_len n)). assert (12 <= node_len n)%nat by (destruct n; simpl; lia).
      slen. }
    apply Nat.lt_succ_r. zify. dlia.
Qed.

End scan.
