(* ===== verification/Jffs2Append.v ===== *)
(** * Appending a file to a partition

    [mtd_write_jffs2]: the blocks of the existing file system are scanned, the
    directory is found or made, and the file and the end marker are written behind
    them. *)

From stdpp Require Import options.
From S2P Require Import Prelude Crc32 Mtd MtdGood Jffs2 Jffs2Spec Jffs2Facts Jffs2Log Jffs2Write Jffs2Props Jffs2Scan.

Set Default Proof Using "Type*".

(** ** The numbers of a file system *)

Lemma see_nodes_max dir ns : forall x,
  let '(t, i, v) := x in let '(_, i', v') := see_nodes dir x ns in
  i <= i' /\ v <= v' /\
  Forall (fun n => match n with NDirent _ v0 i0 _ _ => i0 <= i' /\ v0 <= v' | _ => True end) ns.
Proof.
  induction ns as [|n ns IH]; intros [[t i] v]; [by split_and!; try constructor|].
  specialize (IH (see_node dir (t, i, v) n)). unfold see_nodes in *. cbn [fold_left].
  destruct n as [|p v0 i0 ty nm|]; cbn [see_node] in *;
    destruct (fold_left _ ns _) as [[t' i'] v']; destruct IH as (? & ? & ?); split_and!; try lia;
    constructor; try done; lia.
Qed.

(** The entries that are taken for the directory. *)
Definition dir_entries (dir : cstr) (ns : list node) : list Z :=
  omap (fun n => match n with
                 | NDirent p _ i _ name => if names_dir dir p name then Some i else None
                 | _ => None end) ns.

Lemma see_nodes_target dir ns : forall x,
  fst (fst (see_nodes dir x ns)) = default (fst (fst x)) (last (dir_entries dir ns)).
Proof.
  induction ns as [|n ns IH]; intros [[t i] v]; [done|]. unfold see_nodes in *. cbn [fold_left].
  rewrite IH. destruct n as [|p v0 i0 ty nm|]; cbn [see_node dir_entries omap list_omap fst]; try done.
  destruct (names_dir dir p nm); cbn [fst]; [|done].
  change (omap _ ns) with (dir_entries dir ns). rewrite last_cons.
  by destruct (last (dir_entries dir ns)).
Qed.

Lemma see_nodes_root ns x : fst (fst (see_nodes [] x ns)) = fst (fst x).
Proof.
  rewrite see_nodes_target. replace (dir_entries [] ns) with (@nil Z); [done|].
  induction ns as [|[] ns IH]; simpl; done.
Qed.

(** The root directory has no entry that is a proper beginning of the name, and at
    most one entry of the name. *)
Definition dir_unique (dir : cstr) (ns : list node) : Prop :=
  (forall v i ty nm, NDirent 1 v i ty nm ∈ ns -> nm `prefix_of` dir -> nm = dir) /\
  (dirents 1 dir ns = [] \/ exists v i, dirents 1 dir ns = [(v, i)] /\ 1 < i < 2 ^ 31).

Lemma dir_entries_dirents dir ns : dir <> [] ->
  (forall v i ty nm, NDirent 1 v i ty nm ∈ ns -> nm `prefix_of` dir -> nm = dir) ->
  dir_entries dir ns = map snd (dirents 1 dir ns).
Proof.
  intros Hne. induction ns as [|n ns IH]; intros Hu; [done|].
  assert (dir_entries dir ns = map snd (dirents 1 dir ns)) as IH'.
  { apply IH. intros. eapply Hu; [by apply elem_of_cons; right|done]. }
  destruct n as [|p v0 i0 ty nm|]; try done.
  unfold dir_entries, dirents in *. cbn [omap list_omap].
  assert (names_dir dir p nm = bool_decide (p = 1 /\ nm = dir)) as ->.
  { unfold names_dir. rewrite (bool_decide_false (dir = [])) by done. simpl.
    apply Bool.eq_iff_eq_true. rewrite andb_true_iff, !bool_decide_eq_true, Z.eqb_eq. split.
    - intros [-> Hp]. split; [done|]. eapply Hu; [by apply elem_of_cons; left|done].
    - by intros [-> ->]. }
  case_bool_decide as Hd; case_decide; try done. simpl. by rewrite IH'.
Qed.

(** ** The scan of the device *)

Section append.
Context {D : Type} `{FL : FlashLaws D} (tg : target) (mtdsize E : Z).
Context (E_min : 1024 <= E < 2 ^ 31) (E_mod : E mod 4 = 0).
Context (tg_ok : t_size_bits tg = 32 \/ t_size_bits tg = 64).

Abbreviation jst := (@jffs2 D).
Abbreviation En := (Z.to_nat E).

(** Nodes of a block of the file system. *)
Definition fs_block (ns : list node) : Prop :=
  Forall wf_node ns /\ Forall small_node ns /\ ns <> [] /\ (length (log_bytes tg ns) <= En)%nat.

(** The blocks from [a] on hold these nodes, and the block behind them none. *)
Fixpoint fs_on (d : D) (a : Z) (blks : list (list node)) : Prop :=
  is_block d a /\
  match blks with
  | [] => ~ field (t_order tg) (block d a) 0 2 ∈ [JFFS2_MAGIC_BITMASK; KSAMTIB_CIGAM_2SFFJ]
  | ns :: blks => block d a = block_of tg En ns /\ fs_block ns /\ fs_on d (a + E) blks
  end.

Lemma get16_head bs : (2 <= length bs)%nat -> get16 tg bs 0 = Some (field (t_order tg) bs 0 2).
Proof using. intros. by apply (get16_field tg []). Qed.

Lemma block_magic ns : fs_block ns -> field (t_order tg) (block_of tg En ns) 0 2 = JFFS2_MAGIC_BITMASK.
Proof using.
  intros (Hwf & _ & Hne & _). destruct ns as [|n ns]; [done|]. apply Forall_cons in Hwf as [Hw _].
  unfold block_of. change (log_bytes tg (n :: ns)) with (padded tg n ++ log_bytes tg ns).
  unfold padded. rewrite <- !app_assoc. by apply node_header.
Qed.

Lemma see_nodes_small dir ns : forall x, Forall small_node ns -> small_numbers x ->
  small_numbers (see_nodes dir x ns).
Proof using.
  induction ns as [|n ns IH]; intros x Hs Hx; [done|]. apply Forall_cons in Hs as [? ?].
  apply IH; [done|]. by apply see_node_small.
Qed.

Lemma scan_blocks_ok dir blks : forall d a fuel (s : jst),
  fl_erasesize d = E -> fs_on d a blks -> no_nul dir -> dev s = d -> pos s = a -> mtdofs s = a ->
  small_numbers (numbers_of s) -> (blocks_left d a < fuel)%nat ->
  exists s', scan_blocks tg E fuel dir s = Done (EndOfFs, s') /\ dev s' = d /\
    mtdofs s' = a + E * (Z.of_nat (length blks) + 1) /\ length (buf s') = En /\
    Forall (is_word 8) (buf s') /\
    numbers_of s' = see_nodes dir (numbers_of s) (concat blks).
Proof.
  induction blks as [|ns blks IH]; intros d a fuel s HE [Ha Hfs] Hdir Hd Hp Hm Hnum Hf;
    (destruct fuel as [|fuel]; [lia|]); cbn [scan_blocks]; rewrite Hd, Hp, <- HE;
    fold (block d a); destruct (fl_read_block d a Ha) as [Hl Hb]; rewrite Hl, HE, Z.eqb_refl; cbn [negb].
  - rewrite get16_head by lia. cbn [defined mbind outcome_bind].
    rewrite not_elem_of_cons, list_elem_of_singleton in Hfs. destruct Hfs as [H1 H2].
    rewrite (proj2 (Z.eqb_neq _ _) H2), (proj2 (Z.eqb_neq _ _) H1). cbn [negb].
    eexists. split; [done|]. simpl. split_and!; try done; lia.
  - destruct Hfs as (Hblk & Hns & Hfs). rewrite get16_head by lia. cbn [defined mbind outcome_bind].
    rewrite Hblk, block_magic by done. cbn [negb Z.eqb Pos.eqb JFFS2_MAGIC_BITMASK KSAMTIB_CIGAM_2SFFJ].
    destruct Hns as (Hwf & Hsm & _ & Hsz).
    rewrite parse_block_ok by done. cbn [mbind outcome_bind].
    match goal with |- context [scan_blocks _ _ fuel dir ?s1] => set (s' := s1) end.
    assert (numbers_of s' = see_nodes dir (numbers_of s) ns) as Hn' by apply numbers_of_with.
    destruct (IH d (a + E) fuel s') as (s2 & Hs2 & Hd2 & Hm2 & Hl2 & Hb2 & Hn2); try done.
    { subst s'. unfold with_numbers. by destruct (see_nodes _ _ _) as [[]]. }
    { subst s'. unfold with_numbers. destruct (see_nodes _ _ _) as [[]]. simpl. lia. }
    { subst s'. unfold with_numbers. destruct (see_nodes _ _ _) as [[]]. simpl. lia. }
    { rewrite Hn'. by apply see_nodes_small. }
    { rewrite blocks_left_next in Hf by done. rewrite HE in Hf. lia. }
    exists s2. split; [done|]. split_and!; try done.
    + rewrite Hm2. simpl length. lia.
    + rewrite Hn2, Hn'. unfold see_nodes. simpl. by rewrite fold_left_app.
Qed.

(** ** The new nodes *)

Lemma dir_log_eq ino ver dir : (length dir < 256)%nat ->
  dir_log tg E (Log [] [] ino ver) dir 1
  = Log [] [NClean; NDirent 1 ver (ino + 1) DT_DIR dir; NInode (dir_info (ino + 1)) []] (ino + 2) (ver + 1).
Proof.
  intros Hd. pose proof (round4_spec (40 + length dir)) as Hr.
  assert (length (log_bytes tg [NClean; NDirent 1 ver (ino + 1) DT_DIR dir]) = 12 + round4 (40 + length dir))%nat as H1.
  { unfold log_bytes. cbn [map concat]. rewrite !length_app, !length_padded. cbn [node_len]. cbn [length]. change (round4 12) with 12%nat. lia. }
  assert (length (log_bytes tg [NClean; NDirent 1 ver (ino + 1) DT_DIR dir; NInode (dir_info (ino + 1)) []])
    = 80 + round4 (40 + length dir))%nat as H2.
  { unfold log_bytes. cbn [map concat]. rewrite !length_app, !length_padded. cbn [node_len length].
    change (round4 12) with 12%nat. change (round4 (68 + 0)) with 68%nat. lia. }
  unfold dir_log, dirent_log. cbn [prep l_cur l_done l_ino l_ver]. unfold push at 2, numbered.
  cbn [prep l_cur l_done l_ino l_ver app]. rewrite decide_True by lia.
  unfold dir_room, log_size, sizeof_inode. cbn [l_cur]. rewrite H1.
  rewrite (proj2 (Z.ltb_ge _ _)) by lia. unfold prep, push. cbn [l_cur l_done l_ino l_ver app].
  by rewrite decide_True by lia.
Qed.

(** The state after the scan, with the block pointer moved back. *)
Lemma start_append d a (s : jst) t i v :
  fl_size d = mtdsize -> fl_erasesize d = E -> boundary d a ->
  dev s = d -> length (buf s) = En -> Forall (is_word 8) (buf s) -> numbers_of s = (t, i, v) ->
  rep tg mtdsize E d a
    (let s := set_ofs (set_out s d a a) 0 in if last_ino s =? 0 then set_last_ino s 1 else s)
    (Log [] [] (first_ino i) v).
Proof.
  intros HS HE Ha Hd Hl Hb [= Ht Hi Hv]. unfold first_ino. cbv zeta. cbn [last_ino set_ofs set_out].
  rewrite Hi. split_and!; case_match; simpl; try done.
  all: try (unfold log_size; simpl; lia). all: try (split_and!; try done; by apply programmed_nil).
Qed.

End append.

(** ** Paths *)

(** The content of a file of the root directory or of one of its directories. *)
Definition read_path (ns : list node) (dir name : list Z) : option (list Z) :=
  if decide (dir = []) then read_file ns 1 name
  else '(_, ino) ← latest fst (dirents 1 dir ns); read_file ns ino name.

(** Inode nodes belong to the root or to a directory entry. *)
Definition inodes_owned (ns : list node) : Prop :=
  forall i data, NInode i data ∈ ns ->
    ii_ino i = 1 \/ exists p v ty nm, NDirent p v (ii_ino i) ty nm ∈ ns.

(** Numbers that leave room for those of the new nodes. *)
Definition numbers_left (ns : list node) (content : list Z) : Prop :=
  forall p v i ty nm, NDirent p v i ty nm ∈ ns ->
    0 <= i /\ i + 4 < 2 ^ 31 /\ 0 <= v /\ v + 2 + Z.of_nat (length content) < 2 ^ 31.

Lemma inodes_above ns x : inodes_owned ns -> 1 < x ->
  (forall p v i ty nm, NDirent p v i ty nm ∈ ns -> i < x) -> inodes x ns = [].
Proof.
  intros Ho Hx Hi. unfold inodes. destruct (omap _ ns) as [|[i data] l] eqn:Hl; [done|exfalso].
  assert ((i, data) ∈ (i, data) :: l) as Hin by apply elem_of_cons, or_introl, eq_refl.
  rewrite <- Hl, list_elem_of_omap in Hin. destruct Hin as ([| |i' data'] & Hin & Heq); try done.
  case_decide as Hc; simplify_eq. destruct (Ho _ _ Hin) as [H1|(p & v & ty & nm & Hd)]; [lia|].
  apply Hi in Hd. lia.
Qed.

Lemma dirents_below ns p nm v :
  (forall p v0 i ty nm, NDirent p v0 i ty nm ∈ ns -> v0 <= v) ->
  Forall (fun x => fst x <= v) (dirents p nm ns).
Proof.
  intros Hv. apply Forall_forall. intros [v0 i] Hin. unfold dirents in Hin.
  rewrite list_elem_of_omap in Hin. destruct Hin as ([|p' v' i' ty' nm'|] & Hin & Heq); try done.
  case_decide; simplify_eq. simpl. by eapply Hv.
Qed.

(** ** From the scan to the end marker *)

(** The nodes written for a target directory [t], where 0 stands for one that must
    be made: the nodes of the directory, the parent, and the numbers of the file. *)
Definition append_plan (dir : cstr) (t ino v : Z) : list node * Z * Z * Z :=
  if t =? 0
  then ([NDirent 1 v (ino + 1) DT_DIR dir; NInode (dir_info (ino + 1)) []], ino + 1, v + 1, ino + 3)
  else ([], t, v, ino + 1).

Section plan.
Context {D : Type} `{FL : FlashLaws D} (tg : target) (mtdsize E : Z).
Context (tgE : target_ok tg E).

Definition dir_step (dir : cstr) (s : @jffs2 D) : outcome jffs2 :=
  if target_ino s =? 0
  then '(ino, s) ← add_dir tg mtdsize E dir 1 s; Done (set_target s ino) else Done s.

(** The log after a directory has been made. *)
Definition new_dir (ino v : Z) (dir : cstr) : log :=
  Log [] [NClean; NDirent 1 v (ino + 1) DT_DIR dir; NInode (dir_info (ino + 1)) []] (ino + 2) (v + 1).

Lemma new_dir_size ino v dir :
  log_size tg (new_dir ino v dir) = (80 + round4 (40 + length dir))%nat.
Proof using.
  unfold log_size, new_dir, log_bytes. cbn [l_cur map concat].
  rewrite !length_app, !length_padded. cbn [node_len length].
  change (round4 12) with 12%nat. change (round4 (68 + 0)) with 68%nat. lia.
Qed.

Lemma new_dir_good ino v dir :
  0 <= ino -> ino + 1 < 2 ^ 31 -> 0 <= v < 2 ^ 31 -> Forall (is_word 8) dir -> (length dir < 256)%nat ->
  good_log tg E (new_dir ino v dir).
Proof.
  intros Hi0 Hi Hv Hdb Hdl. destruct tgE as (HE1 & _ & _).
  split; [by constructor|]. right. split_and!; [|  |by eexists].
  - unfold new_dir. cbn [l_cur]. rewrite !Forall_cons, Forall_nil. unfold wf_node, is_word, DT_DIR.
    cbn. split_and!; try done; lia.
  - pose proof (new_dir_size ino v dir) as Hs. unfold log_size in Hs. rewrite Hs.
    pose proof (round4_spec (40 + length dir)). lia.
Qed.

Lemma append_plan_sim h filename content dir t ino v :
  host_file h filename content -> Forall (is_word 8) dir -> (length dir < 256)%nat ->
  0 <= t < 2 ^ 31 -> 1 <= ino -> ino + 4 < 2 ^ 31 -> 0 <= v ->
  v + 2 + Z.of_nat (length content) < 2 ^ 31 ->
  let '(pre, parent, ver, file_ino) := append_plan dir t ino v in
  exists L' st cs, concat cs = content /\ cs <> [] /\ st_size st = Z.of_nat (length content) /\
    good_log tg E L' /\
    body (log_nodes L') = pre ++ NDirent parent ver file_ino DT_REG (base_name filename)
                          :: file_chunks st file_ino (ver + 2) 0 cs /\
    forall d0 o s, rep tg mtdsize E d0 o s (Log [] [] ino v) -> target_ino s = t -> room d0 o L' ->
      exists s1 s2, dir_step dir s = Done s1 /\
        add_file tg mtdsize E h filename (target_ino s1) s1 = Done s2 /\ rep tg mtdsize E d0 o s2 L'.
Proof.
  destruct tgE as (HE1 & HE2 & Htg).
  intros (st & f & Hh & Hf & Hst & Hd & Hc & Hsz & Hne & Hnm & Hnl) Hdb Hdl Ht Hi1 Hi Hv0 Hv.
  subst content. unfold append_plan, dir_step. destruct (Z.eqb_spec t 0) as [-> |Hnz].
  - pose proof (dir_log_eq tg E HE1 HE2 Htg ino v dir Hdl) as HL1.
    set (L0 := Log [] [] ino v) in *. fold (new_dir ino v dir) in HL1.
    set (L1 := new_dir ino v dir) in *. pose proof (round4_spec (40 + length dir)) as Hr.
    assert (log_size tg (prep L1) = 80 + round4 (40 + length dir))%nat as Hs1 by apply new_dir_size.
    assert (dirent_pre tg E L0 dir DT_DIR 1) as Hpre0.
    { unfold dirent_pre. rewrite size_clean by done. subst L0. cbn [l_ino l_ver].
      unfold is_word, DT_DIR. split_and!; try done; lia. }
    destruct (add_file_sim tg mtdsize E HE1 HE2 Htg (D := D) h filename (ino + 1) st f L1)
      as (L' & cs & Hcs & Hcne & [_ Hsim] & Hg' & _ & Hbody); try done; try lia.
    { apply new_dir_good; try done; lia. }
    { unfold dirent_pre. rewrite Hs1. subst L1. cbn [l_ino l_ver new_dir]. unfold is_word, DT_REG.
      split_and!; try done; lia. }
    { subst L1. cbn [l_ver new_dir]. lia. }
    exists L', st, cs. split_and!; try done; [by apply Hcne| |].
    + rewrite Hbody. subst L1. cbn [l_ino l_ver new_dir]. unfold log_nodes.
      cbn [l_done l_cur new_dir concat body List.filter is_clean negb app].
      by replace (ino + 2 + 1) with (ino + 3) by lia.
    + intros d0 o s Hr0 -> Hroom. cbn [Z.eqb].
      destruct (add_dir_sim tg mtdsize E HE1 HE2 Htg L0 dir 1 Hpre0) as [_ Hdir].
      destruct (Hdir d0 o s Hr0) as (s1 & Hs1' & Hr1); [rewrite HL1; unfold room; simpl; lia|].
      rewrite HL1 in Hr1. rewrite Hs1'. cbn [mbind outcome_bind].
      destruct (Hsim d0 o (set_target s1 (l_ino L0 + 1)) Hr1 Hroom) as (s2 & Hs2 & Hr2).
      exists (set_target s1 (l_ino L0 + 1)), s2. done.
  - set (L0 := Log [] [] ino v).
    assert (log_size tg (prep L0) = 12%nat) as Hs0 by (by apply size_clean).
    destruct (add_file_sim tg mtdsize E HE1 HE2 Htg (D := D) h filename t st f L0)
      as (L' & cs & Hcs & Hcne & [_ Hsim] & Hg' & _ & Hbody); try done; try lia.
    { apply good_log_empty. }
    { unfold dirent_pre. rewrite Hs0. subst L0. cbn [l_ino l_ver]. unfold is_word, DT_REG.
      split_and!; try done; lia. }
    { subst L0. cbn [l_ver]. lia. }
    exists L', st, cs. split_and!; try done; [by apply Hcne|].
    intros d0 o s Hr0 Htt Hroom. rewrite Htt, (proj2 (Z.eqb_neq _ _) Hnz).
    destruct (Hsim d0 o s Hr0 Hroom) as (s2 & Hs2 & Hr2). exists s, s2. by rewrite Htt.
Qed.

End plan.

(** ** What a reader finds *)

(** A file system to which a file can be appended in [dir]. *)
Definition fs_ok (dir : cstr) (old : list node) (content : list Z) : Prop :=
  inodes_owned old /\ numbers_left old content /\ (dir = [] \/ dir_unique dir old) /\
  3 + Z.of_nat (length content) < 2 ^ 31.

(** Where the search for the directory starts: the root directory needs none. *)
Definition start_dir (dir : cstr) : Z := if bool_decide (dir = []) then 1 else 0.

Lemma seen_bounds dir t0 old content t i v :
  numbers_left old content -> 3 + Z.of_nat (length content) < 2 ^ 31 ->
  see_nodes dir (t0, 0, 0) old = (t, i, v) ->
  (0 <= i /\ i + 4 < 2 ^ 31) /\ (0 <= v /\ v + 2 + Z.of_nat (length content) < 2 ^ 31) /\
  (forall p v0 i0 ty nm, NDirent p v0 i0 ty nm ∈ old -> i0 <= i /\ v0 <= v).
Proof.
  intros Hn Hc Hsee.
  assert (forall ns x, (forall n, n ∈ ns -> n ∈ old) ->
    let '(_, i, v) := x in 0 <= i /\ i + 4 < 2 ^ 31 /\ 0 <= v /\ v + 2 + Z.of_nat (length content) < 2 ^ 31 ->
    let '(_, i', v') := see_nodes dir x ns in
    0 <= i' /\ i' + 4 < 2 ^ 31 /\ 0 <= v' /\ v' + 2 + Z.of_nat (length content) < 2 ^ 31) as Hgen.
  { induction ns as [|n ns IH]; intros [[t1 i1] v1] Hin Hx; [done|].
    specialize (IH (see_node dir (t1, i1, v1) n)). unfold see_nodes in *. cbn [fold_left].
    assert (n ∈ old) as Hold by (apply Hin; by apply elem_of_cons; left).
    destruct n as [|p v0 i0 ty nm|]; cbn [see_node] in *; (apply IH; [intros; apply Hin; by apply elem_of_cons; right|]); try done.
    apply Hn in Hold. lia. }
  specialize (Hgen old (t0, 0, 0) ltac:(done)). cbn beta iota in Hgen.
  pose proof (see_nodes_max dir old (t0, 0, 0)) as Hmax. cbn beta iota in Hmax.
  rewrite Hsee in Hgen, Hmax. destruct Hmax as (_ & _ & Hall). rewrite Forall_forall in Hall.
  destruct Hgen as (?&?&?&?); [lia|]. split_and!; try done; intros p v0 i0 ty nm Hin; by apply Hall in Hin.
Qed.

Lemma target_range dir old content t i v :
  fs_ok dir old content -> see_nodes dir (start_dir dir, 0, 0) old = (t, i, v) ->
  (dir = [] /\ t = 1) \/
  (dir <> [] /\ dirents 1 dir old = [] /\ t = 0) \/
  (dir <> [] /\ exists v0, dirents 1 dir old = [(v0, t)] /\ 1 < t < 2 ^ 31).
Proof.
  intros (_ & _ & Hdir & _) Hsee.
  assert (t = fst (fst (see_nodes dir (start_dir dir, 0, 0) old))) as Ht by by rewrite Hsee.
  destruct (decide (dir = [])) as [-> |Hne].
  { left. split; [done|]. rewrite Ht, see_nodes_root. done. }
  right. destruct Hdir as [|[Hu Hd]]; [done|].
  rewrite see_nodes_target, (dir_entries_dirents dir old Hne Hu) in Ht.
  unfold start_dir in Ht. rewrite bool_decide_false in Ht by done.
  destruct Hd as [Hd|(v0 & i0 & Hd & Hi0)]; rewrite Hd in Ht; simpl in Ht; subst t; [by left|right].
  split; [done|]. by exists v0.
Qed.

Lemma plan_reads dir old content name t i v pre parent ver ino st cs new :
  fs_ok dir old content -> see_nodes dir (start_dir dir, 0, 0) old = (t, i, v) ->
  append_plan dir t (first_ino i) v = (pre, parent, ver, ino) ->
  body new = pre ++ NDirent parent ver ino DT_REG name :: file_chunks st ino (ver + 2) 0 cs ->
  concat cs = content -> cs <> [] -> st_size st = Z.of_nat (length content) ->
  read_path (old ++ new) dir name = Some content.
Proof.
  intros Hfs Hsee Hplan Hbody Hcs Hne Hst. pose proof Hfs as (Hown & Hleft & _ & Hlen).
  destruct (seen_bounds dir _ old content t i v Hleft Hlen Hsee) as (Hi & Hv & Hmax).
  assert (1 <= first_ino i /\ i <= first_ino i) as [Hf1 Hf2] by (unfold first_ino; case_match; b2p; lia).
  assert (inodes ino old = []) as Hino.
  { apply inodes_above; [done|revert Hplan; unfold append_plan; case_match; intros [=]; lia|].
    intros p v0 i0 ty nm Hin. apply Hmax in Hin.
    revert Hplan. unfold append_plan. case_match; intros [=]; lia. }
  assert (Forall (fun x => fst x <= ver) (dirents parent name old)) as Hver.
  { apply dirents_below. intros p v0 i0 ty nm Hin. apply Hmax in Hin.
    revert Hplan. unfold append_plan. case_match; intros [=]; lia. }
  assert (read_file (old ++ new) parent name = Some content) as Hread.
  { subst content. apply (read_file_appended _ (body old ++ pre) parent ver ino DT_REG name st (ver + 2)); try done.
    - by rewrite body_app, Hbody, app_assoc.
    - rewrite dirents_app, dirents_body. apply Forall_app. split; [done|].
      revert Hplan. unfold append_plan. case_match; intros [=]; subst; [|by constructor].
      simpl. case_decide as Hd; [|by constructor]. lia.
    - rewrite inodes_app, inodes_body, Hino. revert Hplan. unfold append_plan.
      case_match; intros [=]; subst; [|done]. simpl. by rewrite decide_False by lia. }
  unfold read_path. destruct (target_range dir old content t i v Hfs Hsee)
    as [(-> & ->)|[(Hd & Hdn & ->)|(Hd & v0 & Hdn & Ht)]].
  - rewrite decide_True by done. unfold append_plan in Hplan. cbn [Z.eqb] in Hplan. by simplify_eq.
  - rewrite decide_False by done. rewrite dirents_app, Hdn, <- (dirents_body _ _ new), Hbody.
    unfold append_plan in Hplan. cbn [Z.eqb] in Hplan. injection Hplan as <- <- <- <-.
    rewrite dirents_app. simpl. rewrite decide_True by done. rewrite decide_False by lia.
    change (omap _ (file_chunks _ _ _ _ _)) with (dirents 1 dir (file_chunks st (first_ino i + 3) (v + 1 + 2) 0 cs)).
    rewrite dirents_chunks. simpl. exact Hread.
  - rewrite decide_False by done. rewrite dirents_app, Hdn, <- (dirents_body _ _ new), Hbody.
    unfold append_plan in Hplan. rewrite (proj2 (Z.eqb_neq t 0)) in Hplan by lia. injection Hplan as <- <- <- <-.
    simpl. rewrite decide_False by lia.
    change (omap _ (file_chunks _ _ _ _ _)) with (dirents 1 dir (file_chunks st (first_ino i + 1) (v + 2) 0 cs)).
    rewrite dirents_chunks. simpl. exact Hread.
Qed.

(** ** The inode numbers of the new nodes *)

(** The number [i] stands in an entry or an inode node. *)
Definition uses (ns : list node) (i : Z) : Prop :=
  (exists p v ty nm, NDirent p v i ty nm ∈ ns) \/ (exists info data, NInode info data ∈ ns /\ ii_ino info = i).

Definition entry_inos (ns : list node) : list Z :=
  omap (fun n => match n with NDirent _ _ i _ _ => Some i | _ => None end) ns.

(** The new nodes use numbers that the old ones do not use, a different one for each entry. *)
Definition fresh_numbers (old new : list node) : Prop :=
  (forall i, uses new i -> ~ uses old i) /\ NoDup (entry_inos new).

Lemma elem_of_body n ns : n ∈ body ns <-> n ∈ ns /\ n <> NClean.
Proof.
  unfold body. rewrite !list_elem_of_In, filter_In. split; intros [? Hn]; (split; [done|]); by destruct n.
Qed.

Lemma uses_body ns i : uses (body ns) i <-> uses ns i.
Proof. unfold uses. setoid_rewrite elem_of_body. naive_solver. Qed.

Lemma entry_inos_body ns : entry_inos (body ns) = entry_inos ns.
Proof. induction ns as [|[] ns IH]; simpl; unfold entry_inos in *; simpl; by rewrite ?IH. Qed.

Lemma uses_chunks st ino cs i : forall v off, uses (file_chunks st ino v off cs) i -> i = ino.
Proof.
  induction cs as [|c cs IH]; intros v off [(p & v0 & ty & nm & Hin)|(info & data & Hin & <-)]; simpl in Hin;
    try by apply not_elem_of_nil in Hin.
  - apply elem_of_cons in Hin as [?|Hin]; [done|]. apply (IH (v + 1) (off + Z.of_nat (length c))). left. eauto.
  - apply elem_of_cons in Hin as [[= -> ->]|Hin]; [done|].
    apply (IH (v + 1) (off + Z.of_nat (length c))). right. eauto.
Qed.

Lemma entry_inos_chunks st ino cs : forall v off, entry_inos (file_chunks st ino v off cs) = [].
Proof. induction cs as [|c cs IH]; intros v off; [done|]. apply IH. Qed.

Lemma uses_cons n ns i : uses (n :: ns) i -> uses [n] i \/ uses ns i.
Proof. unfold uses. setoid_rewrite elem_of_cons. setoid_rewrite elem_of_nil. naive_solver. Qed.

Lemma uses_one n i : uses [n] i ->
  match n with NClean => False | NDirent _ _ j _ _ => i = j | NInode info _ => i = ii_ino info end.
Proof. unfold uses. setoid_rewrite list_elem_of_singleton. naive_solver. Qed.

Lemma uses_above old content t i v dir t0 : inodes_owned old -> numbers_left old content ->
  3 + Z.of_nat (length content) < 2 ^ 31 -> see_nodes dir (t0, 0, 0) old = (t, i, v) ->
  forall x, 1 < x -> i < x -> ~ uses old x.
Proof.
  intros Hown Hleft Hlen Hsee x Hx1 Hx. destruct (seen_bounds dir t0 old content t i v Hleft Hlen Hsee) as (_ & _ & Hmax).
  intros [(p & v0 & ty & nm & Hin)|(info & data & Hin & <-)]; [apply Hmax in Hin; lia|].
  apply Hown in Hin as [?|(p & v0 & ty & nm & Hin)]; [lia|apply Hmax in Hin; lia].
Qed.

Lemma plan_fresh dir old content name t i v pre parent ver ino st cs new :
  fs_ok dir old content -> see_nodes dir (start_dir dir, 0, 0) old = (t, i, v) ->
  append_plan dir t (first_ino i) v = (pre, parent, ver, ino) ->
  body new = pre ++ NDirent parent ver ino DT_REG name :: file_chunks st ino (ver + 2) 0 cs ->
  fresh_numbers old new.
Proof.
  intros (Hown & Hleft & _ & Hlen) Hsee Hplan Hbody.
  destruct (seen_bounds dir _ old content t i v Hleft Hlen Hsee) as (Hi & _).
  assert (1 <= first_ino i /\ i <= first_ino i) as [Hf1 Hf2] by (unfold first_ino; case_match; b2p; lia).
  pose proof (uses_above old content t i v dir _ Hown Hleft Hlen Hsee) as Hab.
  revert Hplan. unfold append_plan. split.
  - intros x Hu. rewrite <- uses_body, Hbody in Hu. apply Hab; revert Hplan; case_match; intros [= <- <- <- <-];
      revert Hu; simpl; intros Hu;
      repeat (apply uses_cons in Hu as [Hu%uses_one|Hu]; [simpl in Hu; lia|]); apply uses_chunks in Hu; lia.
  - rewrite <- entry_inos_body, Hbody. revert Hplan. case_match; intros [= <- <- <- <-];
      unfold entry_inos; simpl; change (omap _ ?l) with (entry_inos l); rewrite entry_inos_chunks.
    + apply NoDup_cons. split; [rewrite list_elem_of_singleton; lia|apply NoDup_singleton].
    + apply NoDup_singleton.
Qed.

Section run.
Context {D : Type} `{FL : FlashLaws D} (tg : target) (mtdsize E : Z).
Context (tgE : target_ok tg E).

Lemma fs_on_end (d : D) blks : forall a, fs_on tg E d a blks -> is_block d (a + E * Z.of_nat (length blks)).
Proof using.
  induction blks as [|ns blks IH]; intros a [Ha Hon].
  - by rewrite Z.mul_0_r, Z.add_0_r.
  - destruct Hon as (_ & _ & Hon). apply IH in Hon. simpl length.
    by replace (a + E * Z.of_nat (S (length blks))) with (a + E + E * Z.of_nat (length blks)) by lia.
Qed.

Lemma append_run h filename dir old t i v L' (d : D) junk :
  no_nul dir -> see_nodes dir (start_dir dir, 0, 0) (concat old) = (t, i, v) ->
  (forall d0 o s, rep tg mtdsize E d0 o s (Log [] [] (first_ino i) v) -> target_ino s = t -> room d0 o L' ->
     exists s1 s2, dir_step tg mtdsize E dir s = Done s1 /\
       add_file tg mtdsize E h filename (target_ino s1) s1 = Done s2 /\ rep tg mtdsize E d0 o s2 L') ->
  fl_size d = mtdsize -> fl_erasesize d = E -> fs_on tg E d 0 old ->
  let a := E * Z.of_nat (length old) in
  (length (l_done (cut L')) < length (goods d a))%nat ->
  exists s', mtd_write_jffs2 tg mtdsize E h junk filename dir (jffs2_init d) = Done (0, s') /\
    programmed d a (map (block_of tg (Z.to_nat E)) (l_done (cut L')) ++ [eof_block E]) (dev s') (mtdofs s').
Proof.
  intros Hdn Hsee Hsim HS HE Hon a Hroom. destruct tgE as (HE1 & HE2 & Htg).
  pose proof (fs_on_end d old 0 Hon) as Ha. rewrite Z.add_0_l in Ha. fold a in Ha.
  unfold mtd_write_jffs2.
  set (s0 := if bool_decide (dir = []) then _ else _).
  assert (numbers_of s0 = (start_dir dir, 0, 0)) as Hn0 by (subst s0; unfold start_dir; by case_bool_decide).
  destruct (scan_blocks_ok tg E HE1 HE2 Htg dir old d 0 (S (Z.to_nat (mtdsize / E))) s0)
    as (s1 & Hs1 & Hd1 & Hm1 & Hl1 & Hb1 & Hn1); try done;
    try (subst s0; by case_bool_decide).
  { pose proof (blocks_left_le d 0). rewrite HS, HE in *. lia. }
  rewrite Hs1. cbn [mbind outcome_bind]. rewrite Hn0, Hsee in Hn1.
  replace (mtdofs s1 - E) with a by (subst a; lia). rewrite Hd1.
  assert (boundary d a) as Hba by (split; [|apply Ha]; destruct Ha; lia).
  pose proof (start_append tg mtdsize E HE1 HE2 Htg d a s1 t i v HS HE Hba Hd1 Hl1 Hb1 Hn1) as Hr.
  cbv zeta in Hr. set (s2 := if _ =? 0 then _ else _) in *.
  destruct (Hsim d a s2 Hr) as (s3 & s4 & Hs3 & Hs4 & Hr4).
  { injection Hn1 as Ht _ _. subst s2. by case_match. }
  { unfold room. pose proof (cut_done_le L'). lia. }
  unfold dir_step in Hs3. rewrite Hs3. cbn [mbind outcome_bind]. rewrite Hs4. cbn [mbind outcome_bind].
  destruct (add_eof_spec tg mtdsize E HE1 HE2 Htg d a s4 L' Hr4 Hroom) as (s5 & Hs5 & (_ & _ & _ & Hp)).
  rewrite Hs5. cbn [mbind outcome_bind]. by exists s5.
Qed.

End run.

Section append_correct.
Context {D : Type} `{FL : FlashLaws D}.


End append_correct.
