(* ===== verification/MtdWrite.v ===== *)
(** * Writing an image

    [mtd_write] of src/package/system/mtd/src/mtd.c for targets without FIS
    partition tables and without the weak functions for TRX, Seama, WRG and TP-Link
    images: the image is read a block at a time, good blocks are erased and written
    one after the other, the next device of a list is taken when a device is full,
    and the end marker of a jffs2 file system is replaced by new data. *)

From stdpp Require Import options.
From S2P Require Import Prelude Crc32 Mtd Jffs2.

Section mtd_write.
Context {D : Type} `{Flash D} (tg : target) (h : host).
(** [no_erase], [part_offset], [jffs2_skip_bytes], [jffs2dir], and the uninitialised
    buffer of [mtd_replace_jffs2] *)
Context (no_erase : bool) (part_offset jffs2_skip_bytes : Z) (jffs2dir : cstr) (junk : list Z).

(** The variables of [mtd_write] and the file-scope variables it uses; [wfd] and
    [wpos] are the open device and its position, [wnext] the devices that follow,
    [wdone] those that are closed. *)
Record mtdw := {
  wbuf : list Z; buflen : Z; woffset : Z; w : Z; e : Z; skip : Z; skip_bad_blocks : Z;
  wfd : D; wpos : Z; wnext : list D; wdone : list D;
  imagefd : file; jffs2file : option cstr; jffs2_replaced : bool; jst : @jffs2 D }.

Definition set_image s b n f := {| wbuf := b; buflen := n; woffset := woffset s; w := w s; e := e s;
  skip := skip s; skip_bad_blocks := skip_bad_blocks s; wfd := wfd s; wpos := wpos s;
  wnext := wnext s; wdone := wdone s; imagefd := f; jffs2file := jffs2file s;
  jffs2_replaced := jffs2_replaced s; jst := jst s |}.
Definition set_skip s k n := {| wbuf := wbuf s; buflen := n; woffset := woffset s; w := w s; e := e s;
  skip := k; skip_bad_blocks := skip_bad_blocks s; wfd := wfd s; wpos := wpos s;
  wnext := wnext s; wdone := wdone s; imagefd := imagefd s; jffs2file := jffs2file s;
  jffs2_replaced := jffs2_replaced s; jst := jst s |}.
Definition set_erased s d p e' k := {| wbuf := wbuf s; buflen := buflen s; woffset := woffset s; w := w s;
  e := e'; skip := skip s; skip_bad_blocks := k; wfd := d; wpos := p;
  wnext := wnext s; wdone := wdone s; imagefd := imagefd s; jffs2file := jffs2file s;
  jffs2_replaced := jffs2_replaced s; jst := jst s |}.
Definition set_jst s j := {| wbuf := wbuf s; buflen := buflen s; woffset := woffset s; w := w s; e := e s;
  skip := skip s; skip_bad_blocks := skip_bad_blocks s; wfd := wfd s; wpos := wpos s;
  wnext := wnext s; wdone := wdone s; imagefd := imagefd s; jffs2file := jffs2file s;
  jffs2_replaced := jffs2_replaced s; jst := j |}.
(** [w += buflen; buflen = 0; offset = 0] *)
Definition set_written s d p := {| wbuf := wbuf s; buflen := 0; woffset := 0; w := w s + buflen s;
  e := e s; skip := skip s; skip_bad_blocks := skip_bad_blocks s; wfd := d; wpos := p;
  wnext := wnext s; wdone := wdone s; imagefd := imagefd s; jffs2file := jffs2file s;
  jffs2_replaced := jffs2_replaced s; jst := jst s |}.

(** [mtd_check_open] sets [erasesize] and [mtdsize] from the open device. *)
Definition erasesize (s : mtdw) : Z := fl_erasesize (wfd s).

(** ** Reading the image *)

(** [while (buflen < erasesize)]: interrupted calls are repeated, other errors end
    the loop.  [fuel] bounds the calls. *)
Fixpoint fill (fuel : nat) (s : mtdw) : outcome mtdw :=
  match fuel with
  | O => Undef
  | S fuel =>
      if buflen s <? erasesize s then
        match file_read (imagefd s) (erasesize s - buflen s) with
        | (Failed true, f) => fill fuel (set_image s (wbuf s) (buflen s) f)
        | (Failed false, f) => Done (set_image s (wbuf s) (buflen s) f)
        | (Got [], f) => Done (set_image s (wbuf s) (buflen s) f)
        | (Got bs, f) =>
            b ← defined (mem_write (wbuf s) (Z.to_nat (buflen s)) bs);
            fill fuel (set_image s b (buflen s + Z.of_nat (length bs)) f)
        end
      else Done s
  end.

Definition fill_fuel (s : mtdw) : nat :=
  (2 + length (f_sched (imagefd s)) + Z.to_nat (erasesize s))%nat.

(** [memset(&buf[buflen], 0xff, erasesize - buflen)] *)
Definition pad_block_ff (s : mtdw) : outcome mtdw :=
  if buflen s <? erasesize s then
    b ← defined (mem_set (wbuf s) (Z.to_nat (buflen s)) 255 (Z.to_nat (erasesize s - buflen s)));
    Done (set_image s b (erasesize s) (imagefd s))
  else Done s.

(** ** Erasing *)

(** The device is full and there is another one. *)
Definition next_device (s : mtdw) (n : D) (rest : list D) : outcome mtdw :=
  '(d, off) ← (if w s <? e s then
                 bs ← defined (mem_read (wbuf s) (Z.to_nat (woffset s)) (Z.to_nat (e s - w s)));
                 Done (fst (fl_write (wfd s) (wpos s) bs), e s - w s)
               else Done (wfd s, woffset s));
  Done {| wbuf := wbuf s; buflen := buflen s; woffset := off; w := 0; e := 0; skip := skip s;
          skip_bad_blocks := skip_bad_blocks s; wfd := n; wpos := part_offset;
          wnext := rest; wdone := wdone s ++ [d]; imagefd := imagefd s;
          jffs2file := jffs2file s; jffs2_replaced := jffs2_replaced s; jst := jst s |}.

(** [while (w + buflen > e - skip_bad_blocks)]; the result says whether the loop went
    to its end or the next device was opened. *)
Fixpoint erase_loop (fuel : nat) (s : mtdw) : outcome (bool * mtdw) :=
  match fuel with
  | O => Undef
  | S fuel =>
      if e s - skip_bad_blocks s <? w s + buflen s then
        bad ← mtd_block_is_bad (wfd s) (e s);
        if negb (bad =? 0) then
          erase_loop fuel (set_erased s (wfd s) (wpos s + erasesize s) (e s + erasesize s)
                             (skip_bad_blocks s + erasesize s))
        else
          let '(d, r) := mtd_erase_block (wfd s) (e s + part_offset) in
          if r <? 0 then
            match wnext s with
            | n :: rest => s ← next_device (set_erased s d (wpos s) (e s) (skip_bad_blocks s)) n rest;
                           Done (false, s)
            | [] => Exit 1
            end
          else erase_loop fuel (set_erased s d (wpos s) (e s + erasesize s) (skip_bad_blocks s))
      else Done (true, s)
  end.

Definition erase_fuel (s : mtdw) : nat := (3 + Z.to_nat (fl_size (wfd s) / erasesize s))%nat.

(** ** One block *)

(** [write(fd, buf + offset, buflen)] *)
Definition write_block (s : mtdw) : outcome mtdw :=
  bs ← defined (mem_read (wbuf s) (Z.to_nat (woffset s)) (Z.to_nat (buflen s)));
  let '(d, r) := fl_write (wfd s) (wpos s) bs in
  if r <? buflen s then Exit 1 else Done (set_written s d (wpos s + r)).

(** Erase and write; [false] when the block is still to be written to the next device. *)
Definition erase_write (s : mtdw) : outcome mtdw :=
  '(go, s) ← (if no_erase then Done (true, s) else erase_loop (erase_fuel s) s);
  if (go : bool) then write_block s else Done s.

(** The end marker is replaced by the file. *)
Definition replace_eof (s : mtdw) (filename : cstr) : outcome mtdw :=
  '(n, j) ← mtd_replace_jffs2 tg (fl_size (wfd s)) (erasesize s) h (wfd s) (wpos s) (e s) junk filename (jst s);
  Done {| wbuf := wbuf s; buflen := 0; woffset := 0; w := w s + n; e := e s + n;
          skip := n - buflen s; skip_bad_blocks := skip_bad_blocks s; wfd := dev j; wpos := pos j;
          wnext := wnext s; wdone := wdone s; imagefd := imagefd s; jffs2file := None;
          jffs2_replaced := true; jst := j |}.

(** What the loop does with a full buffer. *)
Definition handle_block (s : mtdw) : outcome mtdw :=
  if 0 <? skip s then Done (set_skip s (skip s - buflen s) 0) else
  match jffs2file s with
  | Some filename =>
      if jffs2_skip_bytes <=? w s then
        if bool_decide (take 4 (wbuf s) = JFFS2_EOF) then replace_eof s filename
        else
          j ← mtd_parse_jffs2data tg (erasesize s) (wbuf s) jffs2dir (jst s);
          erase_write (set_jst s j)
      else erase_write s
  | None => erase_write s
  end.

Fixpoint write_loop (fuel : nat) (s : mtdw) : outcome mtdw :=
  match fuel with
  | O => Undef
  | S fuel =>
      s ← fill (fill_fuel s) s;
      if buflen s =? 0 then Done s else
      s ← pad_block_ff s;
      s ← handle_block s;
      write_loop fuel s
  end.

(** The start of [mtd_write]: [b] and [n] are the buffer and [buflen], which hold what
    [image_check] has read. *)
Definition mtd_write_init (b : list Z) (n : Z) (f : file) (d : D) (devs : list D) (jf : option cstr) : mtdw :=
  {| wbuf := b; buflen := n; woffset := 0; w := 0; e := 0; skip := 0; skip_bad_blocks := 0;
     wfd := d; wpos := part_offset; wnext := devs; wdone := []; imagefd := f; jffs2file := jf;
     jffs2_replaced := false; jst := jffs2_init d |}.

(** Each round reads a byte of the image, writes the buffered block or goes to the
    next device. *)
Definition mtd_write (b : list Z) (n : Z) (f : file) (d : D) (devs : list D) (jf : option cstr) : outcome mtdw :=
  write_loop (3 + length (f_rest f) + length (f_sched f) + length devs) (mtd_write_init b n f d devs jf).

End mtd_write.
