(* ===== verification/MtdWriteProps.v ===== *)
(** * What [mtd_write] leaves on the device

    The loop of [mtd_write] loads the image block by block, whatever the sizes of the
    reads, and each block goes into the next good block of the device. *)

From stdpp Require Import options.
From S2P Require Import Prelude Crc32 Mtd MtdGood Jffs2 Jffs2Spec Jffs2Facts Jffs2Log Jffs2Write Jffs2Props Jffs2Scan Jffs2Append MtdWrite.

Set Default Proof Using "Type*".

(** ** The blocks of an image *)

(** [bs] with erased bytes up to the size of a block. *)
Definition ff_block (E : nat) (bs : list Z) : list Z := bs ++ replicate (E - length bs) 255.

Fixpoint image_blocks_fuel (fuel E : nat) (img : list Z) : list (list Z) :=
  match fuel, img with
  | S fuel, _ :: _ => ff_block E (take E img) :: image_blocks_fuel fuel E (drop E img)
  | _, _ => []
  end.

(** The image cut into blocks, the last one filled up with erased bytes. *)
Definition image_blocks (E : nat) (img : list Z) : list (list Z) :=
  image_blocks_fuel (length img) E img.

Lemma image_blocks_fuel_enough E img : forall n m, (0 < E)%nat ->
  (length img <= n)%nat -> (length img <= m)%nat ->
  image_blocks_fuel n E img = image_blocks_fuel m E img.
Proof.
  intros n. revert img. induction n as [|n IH]; intros img m HE Hn Hm.
  - destruct img; [by destruct m|simpl in Hn; lia].
  - destruct img as [|x img]; [by destruct m|]. destruct m as [|m]; [simpl in Hm; lia|].
    cbn [image_blocks_fuel]. f_equal. apply IH; [done|..]; rewrite length_drop; simpl in *; lia.
Qed.

Lemma image_blocks_cons E img : (0 < E)%nat -> img <> [] ->
  image_blocks E img = ff_block E (take E img) :: image_blocks E (drop E img).
Proof.
  intros HE Hne. destruct img as [|x img]; [done|]. unfold image_blocks. cbn [length image_blocks_fuel].
  f_equal. apply image_blocks_fuel_enough; [done|..]; rewrite ?length_drop; simpl; lia.
Qed.

Lemma length_ff_block E bs : (length bs <= E)%nat -> length (ff_block E bs) = E.
Proof. intros. unfold ff_block. slen. Qed.

Lemma ff_block_range E bs : Forall (is_word 8) bs -> Forall (is_word 8) (ff_block E bs).
Proof. intros. apply Forall_app. split; [done|]. apply Forall_replicate. unfold is_word. lia. Qed.

(** An image whose reads may be interrupted but do not fail. *)
Definition patient (f : file) : Prop := Forall (fun ev => ev <> RdErr) (f_sched f).

Section image.
Context {D : Type} `{FL : FlashLaws D} (E : Z) (E_pos : 0 < E).

Abbreviation ws := (@mtdw D).
Abbreviation En := (Z.to_nat E).

(** The part of the state that reading the image does not touch. *)
Definition same_dev (s s' : ws) : Prop :=
  woffset s' = woffset s /\ w s' = w s /\ e s' = e s /\ skip s' = skip s /\
  skip_bad_blocks s' = skip_bad_blocks s /\ wfd s' = wfd s /\ wpos s' = wpos s /\
  wnext s' = wnext s /\ jffs2file s' = jffs2file s /\ jst s' = jst s /\
  jffs2_replaced s' = jffs2_replaced s.

(** What is left of the image: the bytes in the buffer and those not yet read. *)
Definition pending (s : ws) (img : list Z) : Prop :=
  length (wbuf s) = En /\ 0 <= buflen s <= E /\ patient (imagefd s) /\
  fl_erasesize (wfd s) = E /\
  take (Z.to_nat (buflen s)) (wbuf s) ++ f_rest (imagefd s) = img /\ Forall (is_word 8) img.

(** The buffer holds a block, the rest has not been read. *)
Definition loaded (s : ws) (blk img : list Z) : Prop :=
  wbuf s = blk /\ length blk = En /\ Forall (is_word 8) blk /\ buflen s = E /\
  patient (imagefd s) /\ fl_erasesize (wfd s) = E /\ f_rest (imagefd s) = img /\
  Forall (is_word 8) img.

Lemma same_dev_refl s : same_dev s s.
Proof using. by unfold same_dev. Qed.

Lemma same_dev_trans s1 s2 s3 : same_dev s1 s2 -> same_dev s2 s3 -> same_dev s1 s3.
Proof using. unfold same_dev. intros (?&?&?&?&?&?&?&?&?&?&?) (?&?&?&?&?&?&?&?&?&?&?). split_and!; congruence. Qed.

Lemma take_mem_write (b : list Z) p bs b' :
  mem_write b p bs = Some b' -> take (p + length bs) b' = take p b ++ bs.
Proof using.
  unfold mem_write. case_decide as Hd; [|done]. intros [= <-].
  rewrite app_assoc. by rewrite take_app_length' by slen.
Qed.

Lemma file_read_patient (f : file) n : patient f -> 0 < n ->
  match file_read f n with
  | (Got bs, f') => f_rest f = bs ++ f_rest f' /\ Z.of_nat (length bs) <= n /\ patient f' /\
      (bs = [] -> f_rest f = []) /\ (length (f_sched f') <= length (f_sched f))%nat
  | (Failed i, f') => i = true /\ f_rest f' = f_rest f /\ patient f' /\
      (length (f_sched f') < length (f_sched f))%nat
  end.
Proof using.
  intros Hp Hn. unfold file_read, patient in *.
  destruct Hp as [|ev l Hev Hp]; [|destruct ev as [k| |]]; try done; simpl; split_and!; try done; try slen.
  - by rewrite take_drop.
  - intros Ht%(f_equal length). rewrite length_take in Ht. simpl in Ht.
    destruct (f_rest f); [done|simpl in Ht; lia].
  - by rewrite take_drop.
  - intros Ht%(f_equal length). rewrite length_take in Ht. simpl in Ht.
    destruct (f_rest f); [done|simpl in Ht; lia].
Qed.

(** The reading loop ends with a full buffer or the whole image. *)
Lemma fill_ok img : forall fuel s, pending s img ->
  (Z.to_nat (E - buflen s) + length (f_sched (imagefd s)) < fuel)%nat ->
  exists s', fill fuel s = Done s' /\ same_dev s s' /\ pending s' img /\
    buflen s' = Z.min E (Z.of_nat (length img)).
Proof.
  intros fuel. induction fuel as [|fuel IH]; intros s Hp Hf; [lia|].
  pose proof Hp as (Hl & Hb & Hpat & HE & Himg & Hby). cbn [fill]. unfold erasesize. rewrite HE.
  assert (length img = Z.to_nat (buflen s) + length (f_rest (imagefd s)))%nat as Hlen by (rewrite <- Himg; slen).
  destruct (Z.ltb_spec (buflen s) E) as [Hlt|Hge].
  2:{ exists s. split; [done|]. split; [apply same_dev_refl|]. split; [done|]. lia. }
  pose proof (file_read_patient (imagefd s) (E - buflen s) Hpat ltac:(lia)) as Hr.
  destruct (file_read (imagefd s) (E - buflen s)) as [[bs|i] f'].
  - destruct Hr as (Hrest & Hle & Hpat' & Hnil & Hsch). destruct bs as [|x bs].
    + eexists. split; [done|]. split; [by unfold same_dev|].
      rewrite app_nil_l in Hrest. rewrite (Hnil eq_refl) in *. simpl.
      split; [|simpl in Hlen; lia]. split_and!; simpl; try done; try lia. by rewrite <- Hrest.
    + destruct (mem_write_some (wbuf s) (Z.to_nat (buflen s)) (x :: bs)) as [b' Hw]; [lia|].
      rewrite Hw. cbn [defined mbind outcome_bind].
      pose proof (mem_write_length _ _ _ _ Hw) as Hl'.
      destruct (IH (set_image s b' (buflen s + Z.of_nat (length (x :: bs))) f')) as (s' & Hs' & Hd & Hp' & Hb').
      * split_and!; simpl; try done; try (simpl in *; lia).
        rewrite Z2Nat.inj_add, Nat2Z.id by lia. change (S (length bs)) with (length (x :: bs)).
        rewrite (take_mem_write _ _ _ _ Hw), <- app_assoc, <- Hrest. done.
      * simpl in *. lia.
      * exists s'. split; [done|]. split; [|done]. by eapply same_dev_trans; [|exact Hd].
  - destruct Hr as (-> & Hrest & Hpat' & Hsch).
    destruct (IH (set_image s (wbuf s) (buflen s) f')) as (s' & Hs' & Hd & Hp' & Hb').
    + split_and!; simpl; try done; try lia. by rewrite Hrest.
    + simpl. lia.
    + exists s'. split; [done|]. split; [|done]. by eapply same_dev_trans; [|exact Hd].
Qed.

(** A round starts by loading the next block. *)
Lemma load_ok s img : pending s img ->
  exists s1, fill (fill_fuel s) s = Done s1 /\ same_dev s s1 /\
    (buflen s1 =? 0) = bool_decide (img = []) /\
    (img <> [] -> exists s2, pad_block_ff s1 = Done s2 /\ same_dev s s2 /\
       loaded s2 (ff_block En (take En img)) (drop En img)).
Proof.
  intros Hp. pose proof Hp as (_ & Hb0 & _ & HE0 & _).
  destruct (fill_ok img (fill_fuel s) s Hp) as (s1 & Hs1 & Hd1 & Hp1 & Hb1).
  { unfold fill_fuel, erasesize. rewrite HE0. lia. }
  exists s1. split; [done|]. split; [done|]. split.
  { case_bool_decide as Hn; [rewrite Hn in Hb1; simpl in Hb1; apply Z.eqb_eq; lia|].
    apply Z.eqb_neq. destruct img; [done|]. simpl in Hb1. lia. }
  intros Hne. pose proof Hp1 as (Hl & Hb & Hpat & HE & Himg & Hby).
  assert (take (Z.to_nat (buflen s1)) (wbuf s1) = take En img /\ f_rest (imagefd s1) = drop En img) as [Ht Hr].
  { destruct (Z.le_gt_cases E (Z.of_nat (length img))).
    - assert (buflen s1 = E) as HbE by lia. rewrite HbE in *.
      rewrite <- Himg, take_app_length', drop_app_length' by slen. done.
    - rewrite (firstn_all2 img), (skipn_all2 img) by lia.
      assert (length (f_rest (imagefd s1)) = 0%nat) as Hz.
      { apply (f_equal length) in Himg. rewrite length_app, length_take in Himg. lia. }
      apply nil_length_inv in Hz. rewrite Hz in *. by rewrite app_nil_r in Himg. }
  unfold pad_block_ff, erasesize. rewrite HE.
  destruct (Z.ltb_spec (buflen s1) E) as [Hlt|Hge].
  - unfold mem_set, mem_write. rewrite decide_True by slen. cbn [defined mbind outcome_bind].
    eexists. split; [done|]. split; [done|]. rewrite Ht, length_replicate, drop_ge by lia.
    rewrite app_nil_r. split_and!; simpl; try done.
    + unfold ff_block. do 2 f_equal. rewrite length_take. lia.
    + rewrite length_ff_block; [done|slen].
    + by apply ff_block_range, Forall_take.
    + by apply Forall_drop.
  - exists s1. split; [done|]. split; [done|]. assert (buflen s1 = E) as HbE by lia. rewrite HbE in *.
    rewrite firstn_all2 in Ht by lia. unfold ff_block. rewrite length_take.
    replace (En - _)%nat with O by lia. rewrite app_nil_r. split_and!; try done.
    + rewrite length_take. lia.
    + by apply Forall_take.
    + by apply Forall_drop.
Qed.

End image.

(** ** What [mtd_write] leaves on the device

    An image is stored in the good blocks of the device; with an option for a jffs2
    file, the end marker of the image is replaced by the nodes of the file. *)


Section erase.
Context {D : Type} `{FL : FlashLaws D} (E : Z) (E_pos : 0 < E).

Abbreviation ws := (@mtdw D).
Abbreviation En := (Z.to_nat E).

(** The first [blks] blocks are on the device, the position is behind them. *)
Definition placed (d0 : D) (s : ws) (blks : list (list Z)) : Prop :=
  fl_erasesize d0 = E /\ woffset s = 0 /\ 0 <= w s /\
  e s - skip_bad_blocks s = w s /\ wpos s = e s /\ wnext s = [] /\
  programmed d0 0 blks (wfd s) (e s).

Lemma erase_loop_good (d0 : D) g rest d1 fuel (s : ws) :
  fl_erasesize d0 = E -> same_info d0 (wfd s) -> boundary d0 (e s) -> goods d0 (e s) = g :: rest ->
  mtd_erase_block (wfd s) g = (d1, 0) -> same_info d0 d1 ->
  e s - skip_bad_blocks s = w s -> buflen s = E -> (S (blocks_left d0 (e s)) < fuel)%nat ->
  erase_loop 0 fuel s
  = Done (true, set_erased s d1 (wpos s + (g - e s)) (g + E) (skip_bad_blocks s + (g - e s))).
Proof.
  intros HE Hi Ha Hg Her Hi1 Hw Hb Hf. remember (e s) as a eqn:Hea. revert a Ha s Hea Hi Hg Her Hw Hb fuel Hf.
  apply (block_ind d0 (fun a => forall s : ws, a = e s -> same_info d0 (wfd s) -> goods d0 a = g :: rest ->
    mtd_erase_block (wfd s) g = (d1, 0) -> a - skip_bad_blocks s = w s -> buflen s = E ->
    forall fuel, (S (blocks_left d0 a) < fuel)%nat -> _)).
  - intros s _ _ Hg. by rewrite goods_end in Hg.
  - intros a Hbl IH s -> Hi Hg Her Hw Hb fuel Hf. destruct fuel as [|fuel]; [lia|]. cbn [erase_loop].
    assert (erasesize s = E) as Hes by (unfold erasesize; destruct Hi as (_ & -> & _); done).
    rewrite (proj2 (Z.ltb_lt _ _)) by lia. rewrite (same_info_bad d0) by done.
    rewrite goods_step in Hg by done. unfold is_bad in Hg. rewrite blocks_left_next in Hf by done.
    destruct (mtd_block_is_bad_cases d0 (e s) Hbl) as (r & Hr & Hr0). rewrite Hr in *. cbn [mbind outcome_bind].
    rewrite Hes. destruct (Z.eqb_spec r 0) as [-> |Hne]; cbn [negb].
    + injection Hg as <- _. rewrite Z.add_0_r, Her, Z.sub_diag, !Z.add_0_r. cbn [Z.ltb Z.compare].
      destruct fuel as [|fuel]; [lia|]. cbn [erase_loop]. simpl.
      by rewrite (proj2 (Z.ltb_ge _ _)) by lia.
    + rewrite HE in IH. assert (goods d0 (e s + E) = g :: rest) as Hg' by (rewrite HE in Hg; by destruct r).
      rewrite (IH (set_erased s (wfd s) (wpos s + E) (e s + E) (skip_bad_blocks s + E)));
        simpl; try done; try lia.
      * unfold set_erased. simpl. do 3 f_equal; lia.
      * rewrite HE in Hf. lia.
Qed.

Lemma erase_loop_full (d0 : D) fuel (s : ws) :
  fl_erasesize d0 = E -> same_info d0 (wfd s) -> boundary d0 (e s) -> goods d0 (e s) = [] ->
  e s - skip_bad_blocks s = w s -> buflen s = E -> wnext s = [] ->
  (blocks_left d0 (e s) < fuel)%nat ->
  erase_loop 0 fuel s = Exit 1.
Proof.
  intros HE Hi Ha Hg Hw Hb Hn Hf. remember (e s) as a eqn:Hea. revert a Ha s Hea Hi Hg Hw Hb Hn fuel Hf.
  apply (block_ind d0 (fun a => forall s : ws, a = e s -> same_info d0 (wfd s) -> goods d0 a = [] ->
    a - skip_bad_blocks s = w s -> buflen s = E -> wnext s = [] ->
    forall fuel, (blocks_left d0 a < fuel)%nat -> _)).
  - intros s Hea Hi _ Hw Hb Hn fuel Hf. destruct fuel as [|fuel]; [lia|]. cbn [erase_loop].
    rewrite <- Hea, (proj2 (Z.ltb_lt _ _)) by lia.
    pose proof Hi as (Hs & He & Hnd & Hbad). rewrite <- Hs. unfold mtd_block_is_bad.
    destruct (fl_nand (wfd s)) eqn:Hnand.
    + pose proof (fl_end_bad (wfd s) Hnand). by rewrite (proj2 (Z.ltb_lt _ _)) by lia.
    + cbn [mbind outcome_bind Z.eqb negb]. rewrite Z.add_0_r. unfold mtd_erase_block.
      destruct (fl_erase _ _ _) as [d' r] eqn:Her. apply fl_end_erase in Her.
      rewrite (proj2 (Z.ltb_lt r 0)) by lia. cbn [Z.ltb Z.compare]. by rewrite Hn.
  - intros a Hbl IH s -> Hi Hg Hw Hb Hn fuel Hf. destruct fuel as [|fuel]; [lia|]. cbn [erase_loop].
    assert (erasesize s = E) as Hes by (unfold erasesize; destruct Hi as (_ & -> & _); done).
    rewrite (proj2 (Z.ltb_lt _ _)) by lia. rewrite (same_info_bad d0) by done.
    rewrite goods_step in Hg by done. unfold is_bad in Hg. rewrite blocks_left_next in Hf by done.
    destruct (mtd_block_is_bad_cases d0 (e s) Hbl) as (r & Hr & Hr0). rewrite Hr in *. cbn [mbind outcome_bind].
    rewrite Hes. destruct (Z.eqb_spec r 0) as [-> |Hne]; cbn [negb]; [done|].
    rewrite HE in *. apply (IH (set_erased s (wfd s) (wpos s + E) (e s + E) (skip_bad_blocks s + E)));
      simpl; try done; try lia. by destruct r.
Qed.

Lemma erase_fuel_enough (d0 : D) (s : ws) :
  same_info d0 (wfd s) -> boundary d0 (e s) -> (S (blocks_left d0 (e s)) < erase_fuel s)%nat.
Proof.
  intros (Hs & He & _) [Ha _]. unfold erase_fuel, erasesize. rewrite Hs, He.
  pose proof (blocks_left_le d0 (e s)). lia.
Qed.

(** The buffered block goes into the next good block. *)
Lemma erase_write_good (d0 : D) s blks blk img :
  placed d0 s blks -> loaded E s blk img -> (length blks < length (goods d0 0))%nat ->
  exists s', erase_write false 0 s = Done s' /\ placed d0 s' (blks ++ [blk]) /\ pending E s' img /\
    skip s' = skip s /\ jffs2file s' = jffs2file s /\ jst s' = jst s /\
    jffs2_replaced s' = jffs2_replaced s.
Proof.
  intros (HE & Ho & Hw & He & Hp & Hn & Hprog) (Hbuf & Hbl & Hbb & Hb & Hpat & HEs & Himg & Hib) Hroom.
  pose proof Hprog as (Hi & Ha & _ & addrs & Hgo & _ & Hm & _).
  rewrite Hgo, <- Hm, length_map, length_app in Hroom.
  destruct (goods d0 (e s)) as [|g rest] eqn:Hg; [simpl in Hroom; lia|].
  destruct (goods_cons_inv d0 _ g rest Ha Hg) as (Hle & Hgood & _).
  destruct (erase_write_block (wfd s) g blk) as (d1 & d2 & Her & Hwr & Hset).
  { by apply (same_info_good d0). } { rewrite HEs. lia. } { done. }
  assert (same_info d0 d1) as Hi1.
  { unfold mtd_erase_block in Her. destruct (fl_erase _ _ _) as [d' r] eqn:Hfe. injection Her as <- _.
    assert (good_block (wfd s) g) as Hgw by (by apply (same_info_good d0)).
    destruct (fl_erase_block _ _ _ _ Hgw Hfe) as (_ & Hii & _). by eapply same_info_trans. }
  unfold erase_write. rewrite (erase_loop_good d0 g rest d1); try done.
  2:{ by apply erase_fuel_enough. }
  cbn [mbind outcome_bind]. unfold write_block. simpl. rewrite Ho, Hb, Hbuf. unfold mem_read.
  rewrite decide_True by (simpl; lia). cbn [defined mbind outcome_bind].
  rewrite drop_0, firstn_all2 by lia. replace (wpos s + (g - e s)) with g by lia. rewrite Hwr, HEs.
  rewrite Z.ltb_irrefl. eexists. split; [done|]. split.
  - split_and!; simpl; try done; try lia.
    rewrite <- HE. by eapply programmed_snoc.
  - split; [|done]. split_and!; simpl; try done; try lia.
    + by rewrite Hbuf.
    + destruct Hset as ((_ & Hs2 & _) & _). rewrite Hs2. done.
Qed.

Lemma erase_write_full (d0 : D) s blks blk img :
  placed d0 s blks -> loaded E s blk img -> length blks = length (goods d0 0) ->
  erase_write false 0 s = Exit 1.
Proof.
  intros (HE & Ho & Hw & He & Hp & Hn & Hprog) (Hbuf & Hbl & Hbb & Hb & Hpat & HEs & Himg & Hib) Hroom.
  pose proof Hprog as (Hi & Ha & _ & addrs & Hgo & _ & Hm & _).
  rewrite Hgo, <- Hm, length_map, length_app in Hroom.
  assert (goods d0 (e s) = []) as Hg by (apply nil_length_inv; lia).
  unfold erase_write. rewrite (erase_loop_full d0); try done.
  pose proof (erase_fuel_enough d0 s Hi Ha). lia.
Qed.

End erase.

(** ** Images without a jffs2 file *)

Section plain.
Context {D : Type} `{FL : FlashLaws D} (E : Z) (E_pos : 0 < E).
Context (tg : target) (h : host) (skipb : Z) (jdir : cstr) (junk : list Z).

Abbreviation ws := (@mtdw D).
Abbreviation En := (Z.to_nat E).
Abbreviation loop := (write_loop tg h false 0 skipb jdir junk).

Lemma placed_same_dev (d0 : D) s s' blks : same_dev s s' -> placed E d0 s blks -> placed E d0 s' blks.
Proof using.
  intros (Ho & Hw & He & _ & Hk & Hd & Hp & Hn & _). unfold placed. by rewrite Ho, Hw, He, Hk, Hd, Hp, Hn.
Qed.

(** A round that meets the end of the image, and one that loads a block. *)
Lemma loop_end fuel (s : ws) : pending E s [] -> exists s', loop (S fuel) s = Done s' /\ same_dev s s'.
Proof.
  intros Hp. destruct (load_ok E E_pos s [] Hp) as (s1 & Hs1 & Hd1 & Hb1 & _).
  exists s1. cbn [write_loop]. rewrite Hs1. cbn [mbind outcome_bind]. by rewrite Hb1.
Qed.

Lemma loop_round fuel (s : ws) img : pending E s img -> img <> [] ->
  exists s2, same_dev s s2 /\ loaded E s2 (ff_block En (take En img)) (drop En img) /\
    loop (S fuel) s = (s3 ← handle_block tg h false 0 skipb jdir junk s2; loop fuel s3).
Proof.
  intros Hp Hne. destruct (load_ok E E_pos s img Hp) as (s1 & Hs1 & Hd1 & Hb1 & H2).
  destruct (H2 Hne) as (s2 & Hs2 & Hd2 & Hl2). exists s2. split; [done|]. split; [done|].
  cbn [write_loop]. rewrite Hs1. cbn [mbind outcome_bind].
  rewrite Hb1, bool_decide_false by done. by rewrite Hs2.
Qed.

Lemma write_loop_plain (d0 : D) fuel : forall img (s : ws) blks,
  placed E d0 s blks -> pending E s img -> jffs2file s = None -> skip s = 0 ->
  (length blks <= length (goods d0 0))%nat -> (length (image_blocks En img) < fuel)%nat ->
  if decide (length blks + length (image_blocks En img) <= length (goods d0 0))%nat
  then exists s', loop fuel s = Done s' /\ placed E d0 s' (blks ++ image_blocks En img) /\
         jffs2_replaced s' = jffs2_replaced s
  else loop fuel s = Exit 1.
Proof.
  induction fuel as [|fuel IH]; intros img s blks Hpl Hpe Hj Hk Hroom Hf; [lia|].
  destruct (decide (img = [])) as [-> |Hne].
  - destruct (loop_end fuel s Hpe) as (s' & Hs' & Hd). change (image_blocks En []) with (@nil (list Z)) in *.
    rewrite decide_True by (simpl; lia). exists s'. rewrite app_nil_r. split; [done|].
    split; [by eapply placed_same_dev|]. by destruct Hd as (_&_&_&_&_&_&_&_&_&_&->).
  - destruct (loop_round fuel s img Hpe Hne) as (s2 & Hd & Hld & ->).
    pose proof (placed_same_dev d0 s s2 blks Hd Hpl) as Hpl2.
    pose proof Hd as (_ & _ & _ & Hk2 & _ & _ & _ & _ & Hj2 & _ & Hr2).
    rewrite image_blocks_cons in * by (try done; lia). simpl length in *.
    unfold handle_block. rewrite Hk2, Hk, Hj2, Hj. cbn [Z.ltb Z.compare].
    destruct (decide (length blks < length (goods d0 0))%nat) as [Hlt|Hge].
    + destruct (erase_write_good E E_pos d0 s2 blks _ _ Hpl2 Hld Hlt)
        as (s3 & -> & Hpl3 & Hpe3 & Hk3 & Hj3 & _ & Hr3). cbn [mbind outcome_bind].
      specialize (IH (drop En img) s3 (blks ++ [ff_block En (take En img)]) Hpl3 Hpe3).
      rewrite length_app in IH. simpl length in IH.
      specialize (IH ltac:(congruence) ltac:(congruence) ltac:(lia) ltac:(lia)).
      rewrite <- app_assoc, Hr3, Hr2 in IH. case_decide as Hc; case_decide as Hc'; try lia; done.
    + rewrite (erase_write_full E E_pos d0 s2 blks _ _ Hpl2 Hld) by lia. cbn [mbind outcome_bind].
      by rewrite decide_False by lia.
Qed.

End plain.

(** ** Writing an image *)

Lemma image_blocks_length E img : (0 < E)%nat -> (length (image_blocks E img) <= 1 + length (drop E img))%nat.
Proof.
  intros HE. assert (forall n img, (length (image_blocks_fuel n E img) <= length img)%nat) as Hle.
  { clear img. induction n as [|n IH]; intros [|x img]; try (simpl; lia). cbn [image_blocks_fuel length].
    specialize (IH (drop E (x :: img))). rewrite length_drop in IH. simpl in *. lia. }
  destruct (decide (img = [])) as [-> |Hne]; [simpl; lia|].
  rewrite image_blocks_cons by done. cbn [length]. specialize (Hle (length (drop E img)) (drop E img)).
  unfold image_blocks. lia.
Qed.

Section image_correct.
Context {D : Type} `{FL : FlashLaws D}.

Lemma init_placed (d : D) E b n f devs jf :
  0 < E -> fl_erasesize d = E -> devs = [] -> placed E d (mtd_write_init 0 b n f d devs jf) [].
Proof using FL.
  intros HE0 HE ->. destruct (fl_geometry d) as (_ & Hs & _). split_and!; try done; simpl; try lia.
  apply programmed_nil. split; [lia|]. by apply Z.mod_0_l; lia.
Qed.

(** [mtd write] of an image.  The image is what [image_check] has left in the
    buffer followed by the file, which may be read in pieces of any size and with
    interruptions.  If the image fits into the good blocks of the device, the run ends
    with the blocks of the image, the last one filled up with erased bytes, in the
    first good blocks, and no other block has changed; if it does not fit, the process
    exits with status 1.  There is no other outcome. *)
Theorem mtd_write_image (tg : target) (h : host) skipb jdir junk (d : D) b n f :
  let E := fl_erasesize d in
  let img := take (Z.to_nat n) b ++ f_rest f in
  length b = Z.to_nat E -> 0 <= n <= E -> patient f -> Forall (is_word 8) img ->
  match mtd_write tg h false 0 skipb jdir junk b n f d [] None with
  | Done s => (length (image_blocks (Z.to_nat E) img) <= length (goods d 0))%nat /\
              programmed d 0 (image_blocks (Z.to_nat E) img) (wfd s) (e s)
  | Exit c => c = 1 /\ (length (goods d 0) < length (image_blocks (Z.to_nat E) img))%nat
  | Undef => False
  end.
Proof using FL.
  intros E img Hb Hn Hf Himg. destruct (fl_geometry d) as (HE & _). fold E in HE.
  pose proof (init_placed d E b n f [] None HE eq_refl eq_refl) as Hpl.
  assert (pending E (mtd_write_init 0 b n f d [] None) img) as Hpe by (split_and!; try done; simpl; lia).
  pose proof (write_loop_plain E HE tg h skipb jdir junk d
    (3 + length (f_rest f) + length (f_sched f) + 0) img _ [] Hpl Hpe eq_refl eq_refl ltac:(simpl; lia)) as Hrun.
  unfold mtd_write. simpl length in *. case_decide as Hfit.
  - destruct Hrun as (s' & -> & (_ & _ & _ & _ & _ & _ & Hprog) & _); [|done].
    pose proof (image_blocks_length (Z.to_nat E) img ltac:(lia)) as Hl.
    rewrite length_drop in Hl. subst img. rewrite length_app, length_take in Hl. lia.
  - rewrite Hrun; [lia|].
    pose proof (image_blocks_length (Z.to_nat E) img ltac:(lia)) as Hl.
    rewrite length_drop in Hl. subst img. rewrite length_app, length_take in Hl. lia.
Qed.

End image_correct.
