(* ===== verification/MtdJffs2.v ===== *)
(** * Writing an image with a jffs2 file

    [mtd -j file write image device]: the blocks of the image are written up to the
    end marker of its jffs2 file system, which is replaced by the nodes of the file. *)

From stdpp Require Import options.
From S2P Require Import Prelude Crc32 Mtd MtdGood Jffs2 Jffs2Spec Jffs2Facts Jffs2Log Jffs2Write Jffs2Props Jffs2Scan Jffs2Append MtdWrite MtdWriteProps.

Set Default Proof Using "Type*".

(** A block before the end marker with its nodes: a block of the file system, or one
    that does not start like a node. *)
Definition image_block (tg : target) (E : Z) (x : list Z * list node) : Prop :=
  (snd x = [] /\ field (t_order tg) (fst x) 0 2 <> JFFS2_MAGIC_BITMASK /\ take 4 (fst x) <> JFFS2_EOF) \/
  (fst x = block_of tg (Z.to_nat E) (snd x) /\ fs_block tg E (snd x)).

Section with_file.
Context {D : Type} `{FL : FlashLaws D} (tg : target) (E : Z) (tgE : target_ok tg E).
Context (h : host) (filename jdir : cstr) (junk : list Z) (jdir_nul : no_nul jdir).

Abbreviation ws := (@mtdw D).
Abbreviation En := (Z.to_nat E).
Abbreviation loop := (write_loop tg h false 0 0 jdir junk).

Lemma E_facts : 0 < E /\ 1024 <= E < 2 ^ 31 /\ E mod 4 = 0.
Proof using tgE. destruct tgE as (? & ? & _). split_and!; try done; lia. Qed.

Lemma block_not_eof ns : fs_block tg E ns -> take 4 (block_of tg En ns) <> JFFS2_EOF.
Proof using tgE.
  intros Hns Heq. pose proof (block_magic tg E ns Hns) as Hm.
  unfold field in Hm. rewrite drop_0 in Hm.
  assert (take 2 (block_of tg En ns) = [0xde; 0xad]) as H2.
  { apply (f_equal (take 2)) in Heq. by rewrite take_take in Heq. }
  rewrite H2 in Hm. by destruct (t_order tg).
Qed.

(** A block before the end marker changes only the numbers. *)
Lemma parse_image_block x (j : @jffs2 D) :
  image_block tg E x -> length (fst x) = En -> Forall small_node (snd x) ->
  small_numbers (numbers_of j) ->
  mtd_parse_jffs2data tg E (fst x) jdir j = Done (with_numbers j (see_nodes jdir (numbers_of j) (snd x))).
Proof.
  destruct E_facts as (HE0 & HE1 & HE2).
  intros [(Hn & Hm & _)|(-> & Hwf & Hsm & _ & Hl)] Hlen _ Hnum; [|by apply parse_block_ok].
  rewrite Hn. unfold see_nodes. cbn [fold_left]. rewrite with_numbers_of.
  unfold mtd_parse_jffs2data. cbn [parse_nodes]. unfold u32. rewrite wrap_small by (unfold is_word; lia).
  rewrite (proj2 (Z.ltb_lt 0 E)) by lia. rewrite get16_head by lia. cbn [defined mbind outcome_bind].
  by rewrite (proj2 (Z.eqb_neq _ _) Hm).
Qed.

Lemma placed_set_jst (d0 : D) s blks j : placed E d0 s blks -> placed E d0 (set_jst s j) blks.
Proof using. done. Qed.

(** The state of the writer while blocks are read. *)
Definition reading (s : ws) (x : numbers) : Prop :=
  jffs2file s = Some filename /\ skip s = 0 /\ numbers_of (jst s) = x /\ ofs (jst s) = 0 /\
  jffs2_replaced s = false.

Lemma with_numbers_ofs (j : @jffs2 D) x : ofs (with_numbers j x) = ofs j.
Proof using. by destruct x as [[]]. Qed.

(** The rounds before the end marker. *)
Lemma loop_before (d0 : D) fuel pre : forall img rest (s : ws) blks x,
  placed E d0 s blks -> pending E s img -> reading s x -> small_numbers x ->
  image_blocks En img = map fst pre ++ rest -> Forall (image_block tg E) pre ->
  Forall small_node (concat (map snd pre)) ->
  (length blks + length pre <= length (goods d0 0))%nat ->
  exists s' img', loop (length pre + fuel) s = loop fuel s' /\ placed E d0 s' (blks ++ map fst pre) /\
    pending E s' img' /\ image_blocks En img' = rest /\
    reading s' (see_nodes jdir x (concat (map snd pre))).
Proof.
  destruct E_facts as (HE0 & HE1 & HE2).
  induction pre as [|p pre IH]; intros img rest s blks x Hpl Hpe Hr Hsm Himg Hpre Hsn Hroom.
  { exists s, img. rewrite app_nil_r. done. }
  assert (img <> []) as Hne by (intros ->; done).
  cbn [length Nat.add]. destruct (loop_round E HE0 tg h 0 jdir junk (length pre + fuel) s img Hpe Hne)
    as (s2 & Hd & Hld & ->).
  rewrite image_blocks_cons in Himg by (try done; lia). injection Himg as Hp Himg.
  rewrite Hp in Hld. pose proof Hld as (Hbuf & Hbl & _ & _ & _ & HEs & _).
  apply Forall_cons in Hpre as [Hp1 Hpre]. cbn [map concat] in Hsn. apply Forall_app in Hsn as [Hs1 Hs2].
  destruct Hr as (Hj & Hk & Hx & Hof & Hrep).
  pose proof Hd as (_ & Hw2 & _ & Hk2 & _ & _ & _ & _ & Hj2 & Hjs2 & Hr2).
  assert (0 <= w s2) as Hw0 by (rewrite Hw2; destruct Hpl as (_ & _ & ? & _); lia).
  unfold handle_block. rewrite Hk2, Hk, Hj2, Hj, Hbuf. cbn [Z.ltb Z.compare].
  rewrite (proj2 (Z.leb_le _ _)) by lia. rewrite bool_decide_false.
  2:{ destruct Hp1 as [(_ & _ & ?)|(-> & ?)]; [done|by apply block_not_eof]. }
  unfold erasesize. rewrite HEs, Hjs2, (parse_image_block p (jst s)) by (rewrite ?Hx; done).
  cbn [mbind outcome_bind]. set (j' := with_numbers (jst s) (see_nodes jdir (numbers_of (jst s)) (snd p))).
  destruct (erase_write_good E HE0 d0 (set_jst s2 j') blks (fst p) (drop En img))
    as (s3 & -> & Hpl3 & Hpe3 & Hk3 & Hj3 & Hjs3 & Hr3).
  { apply placed_set_jst. by eapply placed_same_dev. } { done. } { simpl in Hroom. lia. }
  cbn [mbind outcome_bind]. simpl in Hk3, Hj3, Hjs3, Hr3.
  destruct (IH (drop En img) rest s3 (blks ++ [fst p]) (see_nodes jdir x (snd p)))
    as (s' & img' & Hrun & Hpl' & Hpe' & Himg' & Hr'); try done.
  - split_and!; try congruence; [rewrite Hjs3|rewrite Hjs3].
    + unfold j'. by rewrite numbers_of_with, Hx.
    + unfold j'. by rewrite with_numbers_ofs.
  - by apply see_nodes_small.
  - rewrite length_app. simpl in *. lia.
  - exists s', img'. split; [done|]. split; [by rewrite <- app_assoc in Hpl'|]. split; [done|]. split; [done|].
    cbn [map concat]. unfold see_nodes in *. by rewrite fold_left_app.
Qed.

(** The rounds behind the end marker skip what the file has taken. *)
Lemma loop_skip (d0 : D) blks fuel k : forall img (s : ws),
  placed E d0 s blks -> pending E s img -> skip s = E * Z.of_nat k -> jffs2file s = None ->
  exists s' img', loop (k `min` length (image_blocks En img) + fuel) s = loop fuel s' /\
    placed E d0 s' blks /\ pending E s' img' /\ image_blocks En img' = drop k (image_blocks En img) /\
    (img' <> [] -> skip s' = 0) /\ jffs2file s' = None /\
    jffs2_replaced s' = jffs2_replaced s.
Proof.
  destruct E_facts as (HE0 & HE1 & HE2).
  induction k as [|k IH]; intros img s Hpl Hpe Hsk Hj.
  { exists s, img. rewrite drop_0. split_and!; try done. intros _. lia. }
  destruct (decide (img = [])) as [-> |Hne].
  { exists s, []. split_and!; done. }
  rewrite image_blocks_cons by (try done; lia). cbn [length Nat.min Nat.add drop].
  destruct (loop_round E HE0 tg h 0 jdir junk (k `min` length (image_blocks En (drop En img)) + fuel) s img Hpe Hne)
    as (s2 & Hd & Hld & ->).
  pose proof (placed_same_dev E d0 s s2 blks Hd Hpl) as Hpl2.
  destruct Hd as (_ & _ & _ & Hk2 & _ & _ & _ & _ & Hj2 & _ & Hr2).
  destruct Hld as (Hbuf & Hbl & Hbb & Hb & Hpat & HEs & Himg & Hib).
  unfold handle_block. rewrite (proj2 (Z.ltb_lt 0 (skip s2))) by lia. cbn [mbind outcome_bind].
  rewrite <- Hr2. apply (IH (drop En img) (set_skip s2 (skip s2 - buflen s2) 0)); simpl; try done; try lia; [|congruence].
  split_and!; simpl; try done; try lia. by rewrite Hbuf.
Qed.

(** Behind the marker: what the file has taken is skipped, the rest is stored. *)
Lemma loop_behind (d0 : D) blks fuel k img (s : ws) :
  placed E d0 s blks -> pending E s img -> skip s = E * Z.of_nat k -> jffs2file s = None ->
  (length blks <= length (goods d0 0))%nat -> (length (image_blocks En img) < fuel)%nat ->
  let more := drop k (image_blocks En img) in
  if decide (length blks + length more <= length (goods d0 0))%nat
  then exists s', loop fuel s = Done s' /\ placed E d0 s' (blks ++ more) /\
         jffs2_replaced s' = jffs2_replaced s
  else loop fuel s = Exit 1.
Proof.
  destruct E_facts as (HE0 & HE1 & HE2). intros Hpl Hpe Hsk Hj Hroom Hf more.
  set (m := (k `min` length (image_blocks En img))%nat).
  destruct (loop_skip d0 blks (fuel - m) k img s Hpl Hpe Hsk Hj)
    as (s' & img' & Hrun & Hpl' & Hpe' & Himg' & Hk' & Hj' & Hr').
  fold m in Hrun. replace (m + (fuel - m))%nat with fuel in Hrun by lia.
  rewrite Hrun. subst more. rewrite <- Himg', <- Hr'.
  assert (length (image_blocks En img') = length (image_blocks En img) - k)%nat as Hl by (rewrite Himg'; apply length_drop).
  destruct (decide (img' = [])) as [-> |Hne].
  - change (image_blocks En []) with (@nil (list Z)) in *.
    rewrite decide_True by (simpl; lia). destruct (fuel - m)%nat as [|f] eqn:Hfm; [lia|].
    destruct (loop_end E HE0 tg h 0 jdir junk f s' Hpe') as (s'' & -> & Hd). exists s''.
    rewrite app_nil_r. split; [done|]. split; [by eapply placed_same_dev|].
    by destruct Hd as (_&_&_&_&_&_&_&_&_&_&->).
  - apply (write_loop_plain E HE0 tg h 0 jdir junk d0); try done; [by apply Hk'|lia].
Qed.


(** The round that meets the end marker. *)
Lemma loop_eof (d0 : D) fuel (s : ws) blks t i v eofb rest img new :
  placed E d0 s blks -> pending E s img -> reading s (t, i, v) ->
  image_blocks En img = eofb :: rest -> take 4 eofb = JFFS2_EOF ->
  length junk = En -> Forall (is_word 8) junk -> fl_size d0 = fl_size (wfd s) ->
  (length blks + length new < length (goods d0 0))%nat ->
  (forall (d : D) o junk (s : @jffs2 D), fl_size d = fl_size d0 -> fl_erasesize d = E -> boundary d o ->
      length junk = En -> Forall (is_word 8) junk ->
      ofs s = 0 -> last_ino s = i -> last_version s = v -> (length new < length (goods d o))%nat ->
      exists s', mtd_replace_jffs2 tg (fl_size d0) E h d o o junk filename s = Done (mtdofs s' - o, s') /\
        pos s' = mtdofs s' /\ programmed d o (map (block_of tg En) new ++ [eof_block E]) (dev s') (mtdofs s')) ->
  (length rest < fuel)%nat ->
  exists d2 a2, programmed (wfd s) (e s) (map (block_of tg En) new ++ [eof_block E]) d2 a2 /\
    let blks2 := blks ++ map (block_of tg En) new ++ [eof_block E] in
    let more := drop (Z.to_nat ((a2 - e s) / E) - 1) rest in
    if decide (length blks2 + length more <= length (goods d0 0))%nat
    then exists s', loop (S fuel) s = Done s' /\ jffs2_replaced s' = true /\
      programmed d0 0 (blks2 ++ more) (wfd s') (e s')
    else loop (S fuel) s = Exit 1.
Proof.
  destruct E_facts as (HE0 & HE1 & HE2).
  intros Hpl Hpe (Hj & Hk & Hx & Hof & _) Himg Heof Hjl Hjb Hsz Hroom Hspec Hf.
  assert (img <> []) as Hne by (intros ->; done).
  destruct (loop_round E HE0 tg h 0 jdir junk fuel s img Hpe Hne) as (s2 & Hd & Hld & ->).
  rewrite image_blocks_cons in Himg by (try done; lia). injection Himg as He Himg. rewrite He in Hld.
  pose proof (placed_same_dev E d0 s s2 blks Hd Hpl) as Hpl2.
  pose proof Hld as (Hbuf & Hbl & _ & Hb2 & Hpat & HEs & Hfr & Hib).
  pose proof Hd as (_ & Hw2 & He2 & Hk2 & _ & Hd2 & _ & _ & Hj2 & Hjs2 & Hr2).
  destruct Hpl2 as (HE & Ho & Hw & Hek & Hp & Hn & Hprog).
  pose proof Hprog as (Hi & Ha & _ & addrs & Hgo & _ & Hm & _).
  unfold handle_block. rewrite Hk2, Hk, Hj2, Hj, Hbuf. cbn [Z.ltb Z.compare].
  rewrite (proj2 (Z.leb_le _ _)) by lia. rewrite bool_decide_true by done.
  unfold replace_eof, erasesize. rewrite HEs, Hp, Hjs2.
  assert (fl_size (wfd s2) = fl_size d0) as Hsz2 by (rewrite Hd2; done). rewrite Hsz2.
  injection Hx as _ Hxi Hxv.
  destruct (Hspec (wfd s2) (e s2) junk (jst s)) as (j' & -> & Hpos & Hprog'); try done.
  { destruct Hi as (Hi1 & Hi2 & _). unfold boundary in *. by rewrite Hi1, Hi2. }
  { rewrite (goods_same d0) by done. rewrite Hgo, <- Hm, length_map, length_app in Hroom. lia. }
  cbn [mbind outcome_bind]. pose proof (programmed_app _ _ _ _ _ _ _ _ Hprog Hprog') as Hall.
  exists (dev j'), (mtdofs j'). rewrite <- Hd2, <- He2. split; [done|]. cbv zeta.
  pose proof Hprog' as ((_ & Hes' & _) & Ha' & Hspan & _). rewrite HEs in *.
  rewrite length_app, length_map in Hspan. simpl in Hspan.
  pose proof Ha as [_ Ha1]. destruct Ha' as [_ Ha2]. rewrite HEs in Ha2. rewrite HE in Ha1.
  destruct (Z.mod_divide (e s2) E) as [[x1 Hx1] _]; [lia|done|].
  destruct (Z.mod_divide (mtdofs j') E) as [[x2 Hx2] _]; [lia|done|].
  assert ((mtdofs j' - e s2) / E = x2 - x1) as Hdiv
    by (replace (mtdofs j' - e s2) with ((x2 - x1) * E) by lia; apply Z.div_mul; lia).
  match goal with |- context [loop fuel ?s4] => set (s4' := s4) end.
  set (blks2 := blks ++ map (block_of tg En) new ++ [eof_block E]) in *.
  assert (length blks2 <= length (goods d0 0))%nat as Hroom2
    by (subst blks2; rewrite !length_app, length_map; simpl; lia).
  rewrite <- Himg. pose proof (loop_behind d0 blks2 fuel (Z.to_nat ((mtdofs j' - e s2) / E) - 1) (drop En img) s4') as Hrun.
  cbv zeta in Hrun. case_decide as Hfit.
  - destruct Hrun as (s' & Hs' & (_ & _ & _ & _ & _ & _ & Hp') & Hr'); try done.
    + split_and!; simpl; try done; try nia. by replace (e s2 + _) with (mtdofs j') by lia.
    + split_and!; simpl; try done; try lia. by rewrite Hbuf.
    + simpl. nia.
    + by rewrite Himg.
    + by exists s'.
  - apply Hrun; try done.
    + split_and!; simpl; try done; try nia. by replace (e s2 + _) with (mtdofs j') by lia.
    + split_and!; simpl; try done; try lia. by rewrite Hbuf.
    + simpl. nia.
    + by rewrite Himg.
Qed.

End with_file.

Section with_file_correct.
Context {D : Type} `{FL : FlashLaws D}.


End with_file_correct.
