(* ===== verification/MtdTrx.v ===== *)
(** * TRX headers

    [mtd_fixtrx] of src/package/system/mtd/src/trx.c: on the first boot after an
    image was written, length and checksum of the TRX header are recomputed over the
    part of the flash that the boot loader checks, and the block of the header is
    rewritten. *)

From stdpp Require Import options.
From S2P Require Import Prelude Crc32 Mtd MtdGood.

Set Default Proof Using "Type*".

Definition TRX_CRC32_DATA_OFFSET : Z := 12.
Definition TRX_CRC32_DATA_SIZE : Z := 16.
Definition sizeof_trx_header : Z := 28.

(** [STORE32_LE] *)
Definition STORE32_LE (o : endian) (x : Z) : Z :=
  match o with
  | LE => x
  | BE => Z.lor (Z.lor (Z.lor (Z.shiftl (Z.land x 0x000000FF) 24) (Z.shiftl (Z.land x 0x0000FF00) 8))
                       (Z.shiftr (Z.land x 0x00FF0000) 8))
                (Z.shiftr (Z.land x 0xFF000000) 24)
  end.

(** [w] is the width of [size_t] and [o] the byte order of the target. *)
Section fixtrx.
Context {D : Type} `{Flash D} (w : Z) (o : endian) (opt_trxmagic : Z).

(** The loop that collects the data: bad blocks are left out. *)
Fixpoint read_data (fuel : nat) (d : D) (data_offset data_size : Z) (acc : list Z) : outcome (list Z) :=
  match fuel with
  | O => Undef
  | S fuel =>
      if data_size =? 0 then Done acc else
      let es := fl_erasesize d in
      let read_block_offset := Z.land data_offset (Z.lnot (es - 1)) in
      let read_chunk := Z.min (es - Z.land data_offset (es - 1)) data_size in
      bad ← mtd_block_is_bad d read_block_offset;
      acc ← (if bad =? 0 then
               let bs := fl_read d data_offset read_chunk in
               if Z.of_nat (length bs) =? read_chunk then Done (acc ++ bs) else Exit 1
             else Done acc);
      read_data fuel d (wrap w (data_offset + read_chunk)) (data_size - read_chunk) acc
  end.

(** [pwrite(fd, first_block, erasesize, block_offset)] after the block was erased *)
Definition rewrite_block (d : D) (block_offset : Z) (first_block : list Z) : outcome D :=
  let '(d1, r) := mtd_erase_block d block_offset in
  if negb (r =? 0) then Exit 1 else
  let '(d2, n) := fl_write d1 block_offset first_block in
  if negb (n =? fl_erasesize d) then Exit 1 else Done d2.

Definition mtd_fixtrx (d : D) (offset data_size : Z) : outcome D :=
  let es := fl_erasesize d in
  let data_offset := wrap w (offset + TRX_CRC32_DATA_OFFSET) in
  let data_size := wrap w (if data_size =? 0 then es - TRX_CRC32_DATA_OFFSET
                           else data_size + TRX_CRC32_DATA_SIZE) in
  let block_offset := Z.land offset (Z.lnot (es - 1)) in
  let hdr := Z.to_nat (offset - block_offset) in
  if fl_size d <? wrap w (data_offset + data_size) then Exit 1 else
  let first_block := fl_read d block_offset es in
  if negb (Z.of_nat (length first_block) =? es) then Exit 1 else
  magic ← defined (get32 BE first_block hdr);
  if negb (magic =? opt_trxmagic) then Exit 1 else
  buf ← read_data (3 + Z.to_nat (data_size / es)) d data_offset data_size [];
  let size := Z.of_nat (length buf) in
  len ← defined (get32 o first_block (hdr + 4));
  crc ← defined (get32 o first_block (hdr + 8));
  if (len =? STORE32_LE o (size + TRX_CRC32_DATA_OFFSET)) && (crc =? STORE32_LE o (crc32buf buf))
  then Done d else
  fb ← defined (put32 o first_block (hdr + 4) (STORE32_LE o (size + TRX_CRC32_DATA_OFFSET)));
  fb ← defined (put32 o fb (hdr + 8) (STORE32_LE o (crc32buf buf)));
  rewrite_block d block_offset fb.

End fixtrx.

(** ** Little-endian fields *)


Lemma bswap_bytes b0 b1 b2 b3 :
  is_word 8 b0 -> is_word 8 b1 -> is_word 8 b2 -> is_word 8 b3 ->
  Z.lor (Z.lor (Z.lor (Z.shiftl b0 24) (Z.shiftl b1 16)) (Z.shiftl b2 8)) b3
  = b3 + b2 * 2 ^ 8 + b1 * 2 ^ 16 + b0 * 2 ^ 24.
Proof.
  unfold is_word. intros H0 H1 H2 H3.
  rewrite (Z.lor_comm _ b3), (Z.lor_comm _ (Z.shiftl b2 8)), Z.lor_assoc.
  rewrite (lor_disjoint_add b3 b2 8) by lia.
  rewrite (Z.lor_comm (Z.shiftl b0 24)), Z.lor_assoc.
  rewrite (lor_disjoint_add _ b1 16) by lia. rewrite (lor_disjoint_add _ b0 24) by lia. done.
Qed.

Lemma land_byte x k : 0 <= k -> Z.land x (Z.shiftl 255 k) = Z.shiftl (Z.land (Z.shiftr x k) 255) k.
Proof.
  intros Hk. apply Z.bits_inj'. intros i Hi. rewrite Z.land_spec.
  destruct (Z.lt_ge_cases i k).
  - rewrite !Z.shiftl_spec_low by lia. apply andb_false_r.
  - rewrite !Z.shiftl_spec_high, Z.land_spec, Z.shiftr_spec by lia. by replace (i - k + k) with i by lia.
Qed.

Lemma shifted_byte x k : 0 <= k -> Z.land (Z.shiftr x k) 255 = (x / 2 ^ k) mod 256.
Proof. intros. rewrite Z.shiftr_div_pow2 by done. change 255 with (Z.ones 8). by rewrite Z.land_ones. Qed.

Lemma get32_some e m p : (p + 4 <= length m)%nat -> exists x, get32 e m p = Some x.
Proof. intros. unfold get32, mem_read. rewrite decide_True by done. eauto. Qed.

Lemma mem_write_Forall (P : Z -> Prop) m p bs m' :
  mem_write m p bs = Some m' -> Forall P m -> Forall P bs -> Forall P m'.
Proof.
  unfold mem_write. case_decide; [|done]. intros [= <-] Hm Hbs.
  rewrite !Forall_app. split_and!; [by apply Forall_take|done|by apply Forall_drop].
Qed.

(** The fuel of [read_data] is enough for data that starts anywhere in a block. *)
Lemma fixtrx_fuel E a n : 0 < E -> 0 <= n ->
  (if n =? 0 then 0 else 1 + (a mod E + n - 1) / E) < Z.of_nat (3 + Z.to_nat (n / E)).
Proof.
  intros HE Hn. pose proof (Z.mod_pos_bound a E HE). pose proof (Z.div_pos n E Hn HE).
  case_match; [lia|].
  assert ((a mod E + n - 1) / E <= n / E + 1); [|lia].
  rewrite <- Z.div_add by lia. apply Z.div_le_mono; lia.
Qed.

(** The macro gives the word whose bytes in memory are the little-endian ones. *)
Lemma STORE32_LE_dec o x : is_word 32 x -> STORE32_LE o x = dec o (le_bytes 4 x).
Proof.
  intros Hx. destruct o; cbn [dec]; [by rewrite le_val_le_bytes, Z.mod_small|]. unfold STORE32_LE.
  change 0x0000FF00 with (Z.shiftl 255 8). change 0x00FF0000 with (Z.shiftl 255 16).
  change 0xFF000000 with (Z.shiftl 255 24). change (Z.land x 0xFF) with (Z.land (Z.shiftr x 0) 255).
  rewrite !land_byte, !shifted_byte by lia.
  rewrite (Z.shiftl_shiftl _ 8 8), (Z.shiftr_shiftl_l _ 16 8), (Z.shiftr_shiftl_l _ 24 24) by lia.
  cbn [Z.add Z.sub Z.opp Pos.add Pos.succ Z.pos_sub Pos.pred_double Pos.sub_mask]. rewrite Z.shiftl_0_r.
  assert (forall k, is_word 8 ((x / 2 ^ k) mod 256)) as Hw by (intros; unfold is_word; apply Z.mod_pos_bound; lia).
  rewrite bswap_bytes by done. cbn [le_bytes rev app le_val]. rewrite !Z.div_div by lia. rewrite Z.div_1_r.
  change (256 * (256 * 256)) with (2 ^ 24). change (256 * 256) with (2 ^ 16). change (x / 256) with (x / 2 ^ 8). lia.
Qed.

Lemma put32_STORE32_LE o m p x : is_word 32 x -> put32 o m p (STORE32_LE o x) = put32 LE m p x.
Proof.
  intros Hx. unfold put32. rewrite STORE32_LE_dec by done. f_equal.
  apply (enc_dec o (le_bytes 4 x)), le_bytes_range.
Qed.

(** Comparing a field with the value of the macro compares the little-endian field. *)
Lemma get32_STORE32_LE o m p y x : Forall (is_word 8) m -> is_word 32 x -> get32 o m p = Some y ->
  (y =? STORE32_LE o x) = bool_decide (get32 LE m p = Some x).
Proof.
  intros Hm Hx. unfold get32, mem_read. case_decide as Hp; [|done]. intros [= <-]. cbn [mbind option_bind].
  set (bs := take 4 (drop p m)).
  assert (Forall (is_word 8) bs) as Hbs by (by apply Forall_take, Forall_drop).
  assert (length bs = 4%nat) as Hl by (subst bs; rewrite length_take, length_drop; lia).
  rewrite STORE32_LE_dec by done. cbn [dec].
  pose proof (enc_dec o bs Hbs) as E1. rewrite Hl in E1.
  pose proof (enc_dec o (le_bytes 4 x) (le_bytes_range 4 x)) as E2. rewrite length_le_bytes in E2.
  pose proof (le_bytes_le_val bs Hbs) as E3. rewrite Hl in E3.
  destruct (Z.eqb_spec (dec o bs) (dec o (le_bytes 4 x))) as [He|He]; symmetry.
  - apply bool_decide_eq_true. rewrite <- E1, He, E2, le_val_le_bytes. by rewrite Z.mod_small.
  - apply bool_decide_eq_false. intros [= Hv]. apply He. by rewrite <- E3, Hv.
Qed.

(** ** The bytes that a boot loader checks *)

Section spec.
Context {D : Type} `{FL : FlashLaws D}.

Definition base (d : D) (x : Z) : Z := x - x mod fl_erasesize d.

(** The byte at an address of a good block. *)
Definition flash_byte (d : D) (x : Z) : option Z :=
  if is_bad d (base d x) then None else Some (nth (Z.to_nat (x mod fl_erasesize d)) (block d (base d x)) 0).

(** The bytes from [a] to [a + n] that lie in good blocks. *)
Definition flash_bytes (d : D) (a n : Z) : list Z := omap (flash_byte d) (seqZ a n).

(** A header that matches the bytes behind it: the checksum covers [n] bytes from the
    flag word on, and the length counts them and the first three words. *)
Definition trx_valid (magic : Z) (d : D) (off n : Z) : Prop :=
  let bytes := flash_bytes d (off + TRX_CRC32_DATA_OFFSET) n in
  let hdr := Z.to_nat (off mod fl_erasesize d) in
  get32 BE (block d (base d off)) hdr = Some magic /\
  get32 LE (block d (base d off)) (hdr + 4) = Some (Z.of_nat (length bytes) + TRX_CRC32_DATA_OFFSET) /\
  get32 LE (block d (base d off)) (hdr + 8) = Some (crc32buf bytes).

(** Erase blocks have a power of two as size. *)
Definition pow2_blocks (d : D) : Prop := exists k, 0 <= k /\ fl_erasesize d = 2 ^ k.

Lemma land_base (d : D) x : pow2_blocks d -> Z.land x (Z.lnot (fl_erasesize d - 1)) = base d x.
Proof using.
  intros (k & Hk & HE). unfold base. rewrite HE, <- Z.ldiff_land, Z.sub_1_r, <- (Z.ones_equiv k).
  rewrite Z.ldiff_ones_r, Z.shiftl_mul_pow2, Z.shiftr_div_pow2 by done.
  pose proof (Z.div_mod x (2 ^ k) ltac:(apply Z.pow_nonzero; lia)). lia.
Qed.

Lemma land_mod (d : D) x : pow2_blocks d -> Z.land x (fl_erasesize d - 1) = x mod fl_erasesize d.
Proof using. intros (k & Hk & HE). rewrite HE, Z.sub_1_r, <- (Z.ones_equiv k). by rewrite Z.land_ones. Qed.

Lemma base_block (d : D) x : 0 <= x < fl_size d -> is_block d (base d x).
Proof.
  intros Hx. destruct (fl_geometry d) as (He & _). unfold base.
  pose proof (Z.mod_pos_bound x (fl_erasesize d) He). pose proof (Z.mod_le x (fl_erasesize d)).
  split; [lia|]. rewrite Zminus_mod_idemp_r, Z.sub_diag. apply Z.mod_0_l. lia.
Qed.

Lemma flash_bytes_app (d : D) a n m : 0 <= n -> 0 <= m ->
  flash_bytes d a (n + m) = flash_bytes d a n ++ flash_bytes d (a + n) m.
Proof using. intros. unfold flash_bytes. by rewrite seqZ_app, omap_app. Qed.

Lemma base_same (d : D) a i : 0 <= a -> 0 <= i -> a mod fl_erasesize d + i < fl_erasesize d ->
  base d (a + i) = base d a /\ (a + i) mod fl_erasesize d = a mod fl_erasesize d + i.
Proof.
  intros Ha Hi Hlt. destruct (fl_geometry d) as (He & _).
  pose proof (Z.mod_pos_bound a (fl_erasesize d) He).
  assert ((a + i) mod fl_erasesize d = a mod fl_erasesize d + i) as Hm.
  { rewrite <- Z.add_mod_idemp_l by lia. apply Z.mod_small. lia. }
  split; [|done]. unfold base. lia.
Qed.

Lemma flash_bytes_part (d : D) a n :
  0 <= a < fl_size d -> a mod fl_erasesize d + Z.of_nat n <= fl_erasesize d ->
  flash_bytes d a (Z.of_nat n) = if is_bad d (base d a) then []
    else take n (drop (Z.to_nat (a mod fl_erasesize d)) (block d (base d a))).
Proof.
  intros Ha Hfit. destruct (fl_geometry d) as (He & _).
  pose proof (Z.mod_pos_bound a (fl_erasesize d) He) as Hm.
  destruct (fl_read_block d _ (base_block d a Ha)) as [Hlen _].
  induction n as [|n IH]; [by case_match|]. rewrite Nat2Z.inj_succ in Hfit.
  rewrite Nat2Z.inj_succ, <- Z.add_1_r, flash_bytes_app, IH by lia.
  destruct (base_same d a (Z.of_nat n)) as [Hb Hi]; [lia..|].
  unfold flash_bytes. rewrite seqZ_cons, seqZ_nil by lia. cbn [omap list_omap].
  unfold flash_byte. rewrite Hb, Hi. destruct (is_bad d (base d a)); [done|].
  rewrite Z2Nat.inj_add, Nat2Z.id by lia.
  set (l := drop (Z.to_nat (a mod fl_erasesize d)) (block d (base d a))).
  destruct (lookup_lt_is_Some_2 l n) as [x Hx]; [subst l; slen|].
  rewrite (take_S_r _ _ _ Hx). do 2 f_equal.
  subst l. rewrite lookup_drop in Hx. by rewrite nth_lookup, Hx.
Qed.

(** A piece inside a block is read as it is, or left out. *)
Lemma flash_bytes_piece (d : D) a n :
  0 <= a < fl_size d -> 0 <= n -> a mod fl_erasesize d + n <= fl_erasesize d ->
  flash_bytes d a n = (if is_bad d (base d a) then [] else fl_read d a n) /\
  Z.of_nat (length (fl_read d a n)) = n.
Proof.
  intros Ha Hn Hfit. destruct (fl_geometry d) as (He & _).
  pose proof (Z.mod_pos_bound a (fl_erasesize d) He) as Hm.
  pose proof (base_block d a Ha) as Hb. destruct (fl_read_block d _ Hb) as [Hlen _].
  pose proof (fl_read_part d (base d a) (a mod fl_erasesize d) n Hb (proj1 Hm) Hn Hfit) as Hr.
  replace (base d a + a mod fl_erasesize d) with a in Hr by (unfold base; lia).
  rewrite <- (Z2Nat.id n) at 1 by lia. rewrite flash_bytes_part by lia. rewrite Hr. split; [done|]. slen.
Qed.

Lemma read_data_ok w (d : D) : 32 <= w -> pow2_blocks d -> forall fuel a n acc,
  0 <= a -> 0 <= n -> a + n <= fl_size d ->
  (if n =? 0 then 0 else 1 + (a mod fl_erasesize d + n - 1) / fl_erasesize d) < Z.of_nat fuel ->
  read_data w fuel d a n acc = Done (acc ++ flash_bytes d a n).
Proof.
  intros Hw Hp. destruct (fl_geometry d) as (He & Hs & _).
  pose proof (Z.pow_le_mono_r 2 31 w ltac:(lia) ltac:(lia)) as Hpow.
  induction fuel as [|fuel IH]; intros a n acc Ha Hn Hsz Hf.
  { destruct (Z.eqb_spec n 0); [lia|].
    pose proof (Z.mod_pos_bound a (fl_erasesize d) He).
    pose proof (Z.div_pos (a mod fl_erasesize d + n - 1) (fl_erasesize d)). lia. }
  cbn [read_data]. destruct (Z.eqb_spec n 0) as [-> |Hn0].
  { unfold flash_bytes. simpl. by rewrite app_nil_r. }
  rewrite land_base, land_mod by done. pose proof (Z.mod_pos_bound a (fl_erasesize d) He) as Hm.
  set (c := Z.min (fl_erasesize d - a mod fl_erasesize d) n).
  destruct (flash_bytes_piece d a c) as [Hpc Hlen]; [lia..|].
  destruct (mtd_block_is_bad_cases d (base d a)) as (r & Hr & Hr0); [apply base_block; lia|].
  rewrite Hr. cbn [mbind outcome_bind]. rewrite (wrap_small w (a + c)) by (unfold is_word; lia).
  assert (flash_bytes d a n = flash_bytes d a c ++ flash_bytes d (a + c) (n - c)) as ->.
  { rewrite <- flash_bytes_app by lia. f_equal. lia. }
  rewrite Hpc.
  unfold is_bad. rewrite Hr. rewrite Hlen, Z.eqb_refl.
  assert ((if n - c =? 0 then 0 else 1 + ((a + c) mod fl_erasesize d + (n - c) - 1) / fl_erasesize d) < Z.of_nat fuel) as Hf'.
  { destruct (Z.eqb_spec (n - c) 0) as [|Hnc].
    - pose proof (Z.div_pos (a mod fl_erasesize d + n - 1) (fl_erasesize d)). lia.
    - assert (c = fl_erasesize d - a mod fl_erasesize d) as Hc by lia.
      replace (a + c) with (base d a + 1 * fl_erasesize d) by (unfold base; lia).
      rewrite Z.mod_add by lia.
      assert (base d a mod fl_erasesize d = 0) as -> by (apply base_block; lia).
      replace (a mod fl_erasesize d + n - 1) with ((0 + (n - c) - 1) + 1 * fl_erasesize d) in Hf by lia.
      rewrite Z.div_add in Hf by lia. lia. }
  destruct (Z.eqb_spec r 0) as [-> |Hne]; cbn [mbind outcome_bind].
  - rewrite IH by lia. by rewrite <- app_assoc.
  - rewrite IH by lia. by destruct r.
Qed.

(** ** The repaired header *)

Lemma flash_byte_range (d : D) x : 0 <= x < fl_size d -> forall v, flash_byte d x = Some v -> is_word 8 v.
Proof.
  intros Hx v. unfold flash_byte. case_match; [done|]. intros [= <-].
  destruct (fl_read_block d _ (base_block d x Hx)) as [Hlen Hw]. rewrite Forall_lookup in Hw.
  destruct (fl_geometry d) as (He & _). pose proof (Z.mod_pos_bound x (fl_erasesize d) He).
  destruct (lookup_lt_is_Some_2 (block d (base d x)) (Z.to_nat (x mod fl_erasesize d))) as [y Hy]; [slen|].
  rewrite nth_lookup, Hy. by eapply Hw.
Qed.

Lemma flash_bytes_range (d : D) a n : 0 <= a -> a + n <= fl_size d -> Forall (is_word 8) (flash_bytes d a n).
Proof.
  intros Ha Hn. apply Forall_forall. intros v Hv. apply list_elem_of_omap in Hv as (x & Hx & Hv).
  apply elem_of_seqZ in Hx. eapply flash_byte_range; [|done]. lia.
Qed.

Lemma flash_bytes_length (d : D) a n : 0 <= n -> Z.of_nat (length (flash_bytes d a n)) <= n.
Proof using.
  intros Hn. unfold flash_bytes. assert (forall l, length (omap (flash_byte d) l) <= length l)%nat as Hl.
  { induction l as [|x l IH]; [done|]. cbn [omap list_omap]. case_match; simpl; lia. }
  specialize (Hl (seqZ a n)). rewrite length_seqZ in Hl. lia.
Qed.

(** The checked bytes stay when one block changes in front of them. *)
Lemma flash_bytes_same (d d' : D) b fb a n :
  block_set d b fb d' -> 0 <= a -> a + n <= fl_size d ->
  (forall i, a - b <= Z.of_nat i -> fb !! i = block d b !! i) ->
  flash_bytes d' a n = flash_bytes d a n.
Proof.
  intros (Hi & Hb & Ho) Ha Hn Hsame. pose proof Hi as (_ & He & _). unfold flash_bytes.
  destruct (fl_geometry d) as (Hpos & _).
  assert (forall x, x ∈ seqZ a n -> flash_byte d' x = flash_byte d x) as Hx.
  { intros x Hx%elem_of_seqZ. unfold flash_byte, base, is_bad. rewrite (same_info_bad d), He by done.
    fold (base d x). fold (is_bad d (base d x)). case_match; [done|]. f_equal. rewrite !nth_lookup.
    destruct (decide (base d x = b)) as [Hxb|Hne].
    - rewrite Hxb, Hb, Hsame; [done|]. pose proof (Z.mod_pos_bound x (fl_erasesize d) Hpos). unfold base in Hxb. lia.
    - rewrite Ho; [done|apply base_block; lia|done]. }
  induction (seqZ a n) as [|x l IH]; [done|]. cbn [omap list_omap].
  rewrite Hx by (by left). rewrite IH; [done|]. intros y Hy. apply Hx. by right.
Qed.

Context (w : Z) (o : endian) (magic : Z) (Hw : 32 <= w).

(** The number of bytes that the command covers. *)
Definition trx_data (d : D) (data_size : Z) : Z :=
  if data_size =? 0 then fl_erasesize d - TRX_CRC32_DATA_OFFSET else data_size + TRX_CRC32_DATA_SIZE.

(** A header inside one good block, with data behind it that the device holds. *)
Definition trx_at (d : D) (off data_size : Z) : Prop :=
  pow2_blocks d /\ 0 <= off /\ 0 <= data_size /\
  off mod fl_erasesize d + TRX_CRC32_DATA_OFFSET <= fl_erasesize d /\
  off + TRX_CRC32_DATA_OFFSET + trx_data d data_size <= fl_size d /\
  good_block d (base d off) /\
  get32 BE (block d (base d off)) (Z.to_nat (off mod fl_erasesize d)) = Some magic.

Lemma trx_words (d : D) off ds : 0 <= off -> 0 <= trx_data d ds ->
  off + TRX_CRC32_DATA_OFFSET + trx_data d ds <= fl_size d ->
  let bytes := flash_bytes d (off + TRX_CRC32_DATA_OFFSET) (trx_data d ds) in
  is_word 32 (Z.of_nat (length bytes) + TRX_CRC32_DATA_OFFSET) /\ is_word 32 (crc32buf bytes).
Proof using FL.
  intros Hoff Hn Hsz bytes. unfold TRX_CRC32_DATA_OFFSET in *. destruct (fl_geometry d) as (_ & Hs & _).
  pose proof (flash_bytes_length d (off + 12) (trx_data d ds) Hn) as Hl. split.
  - subst bytes. unfold is_word. lia.
  - apply crc32_word; [done|]. apply flash_bytes_range; lia.
Qed.

Lemma trx_data_pos (d : D) off ds : trx_at d off ds -> 0 <= trx_data d ds.
Proof using FL.
  intros (_ & _ & Hds & Hfit & _). destruct (fl_geometry d) as (He & _).
  pose proof (Z.mod_pos_bound off (fl_erasesize d) He).
  unfold trx_data, TRX_CRC32_DATA_SIZE, TRX_CRC32_DATA_OFFSET in *. case_match; lia.
Qed.

(** What the command does, in terms of the checked bytes. *)
Lemma mtd_fixtrx_eq (d : D) off ds : trx_at d off ds ->
  let bytes := flash_bytes d (off + TRX_CRC32_DATA_OFFSET) (trx_data d ds) in
  let fb := block d (base d off) in
  let hdr := Z.to_nat (off mod fl_erasesize d) in
  let len := Z.of_nat (length bytes) + TRX_CRC32_DATA_OFFSET in
  mtd_fixtrx w o magic d off ds =
    if bool_decide (get32 LE fb (hdr + 4) = Some len) && bool_decide (get32 LE fb (hdr + 8) = Some (crc32buf bytes))
    then Done d
    else fb ← defined (put32 LE fb (hdr + 4) len);
         fb ← defined (put32 LE fb (hdr + 8) (crc32buf bytes));
         rewrite_block d (base d off) fb.
Proof.
  intros Hat bytes fb hdr len. pose proof (trx_data_pos d off ds Hat) as Hn.
  destruct Hat as (Hp & Hoff & Hds & Hfit & Hsz & Hg & Hmagic). unfold mtd_fixtrx.
  fold (trx_data d ds). unfold TRX_CRC32_DATA_OFFSET in *.
  destruct (fl_geometry d) as (He & Hs & _). destruct (fl_read_block d _ (proj1 Hg)) as [Hlen Hbytes].
  pose proof (Z.pow_le_mono_r 2 31 w ltac:(lia) ltac:(lia)) as Hpow.
  pose proof (Z.mod_pos_bound off (fl_erasesize d) He) as Hm.
  rewrite !(wrap_small w) by (unfold is_word; rewrite ?(wrap_small w) by (unfold is_word; lia); lia).
  rewrite (proj2 (Z.ltb_ge _ _)) by lia. rewrite land_base by done. fold (block d (base d off)).
  rewrite Hlen, Z.eqb_refl. replace (off - base d off) with (off mod fl_erasesize d) by (unfold base; lia).
  cbn [negb]. subst fb hdr. rewrite Hmagic. cbn [defined mbind outcome_bind]. rewrite Z.eqb_refl. cbn [negb].
  rewrite read_data_ok by (try done; try lia; apply fixtrx_fuel; lia).
  cbn [mbind outcome_bind app]. fold bytes. fold len.
  destruct (trx_words d off ds Hoff Hn Hsz) as [Hwl Hwc].
  destruct (get32_some o (block d (base d off)) (Z.to_nat (off mod fl_erasesize d) + 4)) as [x Hx]; [lia|].
  destruct (get32_some o (block d (base d off)) (Z.to_nat (off mod fl_erasesize d) + 8)) as [y Hy]; [lia|].
  rewrite Hx, Hy. cbn [defined mbind outcome_bind].
  rewrite (get32_STORE32_LE o _ _ x len Hbytes Hwl Hx), (get32_STORE32_LE o _ _ y (crc32buf bytes) Hbytes Hwc Hy).
  rewrite put32_STORE32_LE by done. case_match; [done|].
  destruct (put32 LE _ _ len) as [fb|]; [|done]. cbn [defined mbind outcome_bind]. by rewrite put32_STORE32_LE.
Qed.

Lemma rewrite_block_ok (d : D) b fb : good_block d b ->
  length fb = length (block d b) -> Forall (is_word 8) fb ->
  exists d', rewrite_block d b fb = Done d' /\ block_set d b fb d'.
Proof using FL.
  intros Hg Hl Hfb. destruct (fl_read_block d b (proj1 Hg)) as [Hlen _].
  destruct (erase_write_block d b fb Hg) as (d1 & d2 & He & Hwr & Hset); [lia|done|].
  exists d2. unfold rewrite_block. rewrite He. cbn [negb Z.eqb]. rewrite Hwr, Z.eqb_refl. done.
Qed.

(** The two words that are stored. *)
Lemma put_header (fb : list Z) hdr len crc :
  (hdr + 12 <= length fb)%nat -> Forall (is_word 8) fb -> is_word 32 len -> is_word 32 crc ->
  exists fb1 fb2, put32 LE fb (hdr + 4) len = Some fb1 /\ put32 LE fb1 (hdr + 8) crc = Some fb2 /\
    length fb2 = length fb /\ Forall (is_word 8) fb2 /\
    get32 BE fb2 hdr = get32 BE fb hdr /\ get32 LE fb2 (hdr + 4) = Some len /\ get32 LE fb2 (hdr + 8) = Some crc /\
    forall i, (i < hdr + 4 \/ hdr + 12 <= i)%nat -> fb2 !! i = fb !! i.
Proof using.
  intros Hl Hfb Hlen Hcrc.
  destruct (put32_some LE fb (hdr + 4) len) as [fb1 H1]; [lia|]. pose proof (put32_length _ _ _ _ _ H1) as Hl1.
  destruct (put32_some LE fb1 (hdr + 8) crc) as [fb2 H2]; [lia|]. pose proof (put32_length _ _ _ _ _ H2) as Hl2.
  exists fb1, fb2. split_and!; [done|done|lia| | | | |].
  - eapply mem_write_Forall; [exact H2| |apply enc_range]. eapply mem_write_Forall; [exact H1|done|apply enc_range].
  - unfold get32. by rewrite (mem_read_write_ne _ _ _ _ _ _ H2), (mem_read_write_ne _ _ _ _ _ _ H1) by lia.
  - rewrite (get_put32_ne _ _ _ _ _ _ H2) by lia. rewrite (get_put32_eq _ _ _ _ _ H1). f_equal. by apply Z.mod_small.
  - rewrite (get_put32_eq _ _ _ _ _ H2). f_equal. by apply Z.mod_small.
  - intros i Hi. rewrite (mem_write_lookup_out _ _ _ _ _ H2), (mem_write_lookup_out _ _ _ _ _ H1);
      rewrite ?length_enc; [done|lia..].
Qed.

Lemma trx_data_same (d d' : D) ds : same_info d d' -> trx_data d' ds = trx_data d ds.
Proof using. intros (_ & He & _). unfold trx_data. by rewrite He. Qed.

Lemma trx_at_same (d d' : D) off ds n : same_info d d' -> trx_valid magic d' off n -> trx_at d off ds -> trx_at d' off ds.
Proof using.
  intros Hi (Hm & _) (Hp & ? & ? & ? & ? & Hg & _). pose proof Hi as (Hs & He & _).
  unfold trx_at. rewrite (trx_data_same d d') by done. unfold pow2_blocks, base in *. rewrite Hs, He in *.
  split_and!; try done. by apply (same_info_good d).
Qed.

Lemma fixtrx_valid (d : D) off ds : trx_at d off ds -> trx_valid magic d off (trx_data d ds) ->
  mtd_fixtrx w o magic d off ds = Done d.
Proof.
  intros Hat (_ & Hl & Hc). rewrite mtd_fixtrx_eq by done.
  by rewrite !bool_decide_eq_true_2.
Qed.

Lemma fixtrx_ends (d : D) off ds : trx_at d off ds ->
  exists d', mtd_fixtrx w o magic d off ds = Done d' /\
    trx_valid magic d' off (trx_data d ds) /\
    same_info d d' /\
    (forall b, is_block d b -> b <> base d off -> block d' b = block d b) /\
    (forall i, ~ (off mod fl_erasesize d + 4 <= Z.of_nat i < off mod fl_erasesize d + TRX_CRC32_DATA_OFFSET) ->
       block d' (base d off) !! i = block d (base d off) !! i) /\
    (trx_valid magic d off (trx_data d ds) -> d' = d).
Proof.
  intros Hat. pose proof (trx_data_pos d off ds Hat) as Hn. rewrite mtd_fixtrx_eq by done. destruct Hat as (Hp & Hoff & Hds & Hfit & Hsz & Hg & Hmagic).
  unfold trx_valid, TRX_CRC32_DATA_OFFSET in *. set (n := trx_data d ds) in *. set (h := Z.to_nat (off mod fl_erasesize d)) in *.
  set (bytes := flash_bytes d (off + 12) n). destruct (fl_read_block d _ (proj1 Hg)) as [Hlen Hw8].
  destruct (fl_geometry d) as (He & Hs & _). pose proof (Z.mod_pos_bound off (fl_erasesize d) He) as Hm.
  case_bool_decide as Hl; [case_bool_decide as Hc|]; cbn [andb].
  { exists d. by split_and!. }
  all: destruct (put_header (block d (base d off)) h (Z.of_nat (length bytes) + 12) (crc32buf bytes))
    as (fb1 & fb2 & H1 & H2 & Hlf & Hwf & Hgm & Hgl & Hgc & Hout);
    [lia|done|by apply (trx_words d off ds)..|];
    rewrite H1; cbn [defined mbind outcome_bind]; rewrite H2; cbn [defined mbind outcome_bind];
    destruct (rewrite_block_ok d (base d off) fb2 Hg Hlf Hwf) as (d' & Hrun & Hset);
    pose proof Hset as (Hi & Hb & Ho); pose proof Hi as (_ & HE & _).
  all: exists d'; unfold base; rewrite HE; fold (base d off); rewrite Hb; fold h.
  all: assert (flash_bytes d' (off + 12) n = bytes) as -> by
    (eapply flash_bytes_same; [done|lia|lia|]; intros i Hx; apply Hout; unfold base in Hx; lia).
  all: split_and!; try done; [by etrans|intros i Hx; apply Hout; lia|naive_solver].
Qed.

(** C36: [mtd_fixtrx] on a header in one good block always ends with a header that
    matches the flash: the length counts and the checksum covers the bytes of the good
    blocks behind it, whatever the byte order of the target.  Of the device, only these two words
    change, a header that matched before is not rewritten at all, and a second
    run finds nothing to do. *)
Theorem mtd_fixtrx_correct (d : D) off ds : trx_at d off ds ->
  exists d', mtd_fixtrx w o magic d off ds = Done d' /\
    trx_valid magic d' off (trx_data d ds) /\
    same_info d d' /\
    (forall b, is_block d b -> b <> base d off -> block d' b = block d b) /\
    (forall i, ~ (off mod fl_erasesize d + 4 <= Z.of_nat i < off mod fl_erasesize d + TRX_CRC32_DATA_OFFSET) ->
       block d' (base d off) !! i = block d (base d off) !! i) /\
    (trx_valid magic d off (trx_data d ds) -> d' = d) /\
    mtd_fixtrx w o magic d' off ds = Done d'.
Proof.
  intros Hat. destruct (fixtrx_ends d off ds Hat) as (d' & Hrun & Hv & Hi & Hb & Hs & Hn).
  exists d'. split_and!; try done. apply fixtrx_valid.
  - by apply (trx_at_same d d' off ds (trx_data d ds)).
  - by rewrite (trx_data_same d).
Qed.

End spec.
