(* ===== verification/MtdTool.v ===== *)
(** * The commands of the flash tool

    [main] of src/package/system/mtd/src/mtd.c with the functions it needs beside
    [mtd_write]: the options, the check of an image before anything is erased
    ([image_check] and, on targets that link trx.c, [trx_check]), [mtd_dump], and
    the repair of a TRX checksum after a file was added ([trx_fixup]). *)

From Stdlib Require Import Ascii.
From stdpp Require Import gmap options.
From S2P Require Import Prelude CLib Crc32 Mtd Jffs2 MtdWrite MtdTrx.

Set Default Proof Using "Type*".

Definition SEAMA_MAGIC : Z := 0x5ea3a417.
Definition WRG_MAGIC : Z := 0x20040220.
Definition WRGG03_MAGIC : Z := 0x20080321.
Definition TRX_MAGIC : Z := 0x48445230.
Definition MAX_ARGS : nat := 8.

Inductive mtd_image_format :=
| MTD_IMAGE_FORMAT_UNKNOWN
| MTD_IMAGE_FORMAT_TRX
| MTD_IMAGE_FORMAT_SEAMA
| MTD_IMAGE_FORMAT_WRG
| MTD_IMAGE_FORMAT_WRGG03.

(** ** Options *)

Record options := {
  o_force : bool; o_boot : bool; no_erase : bool; o_jffs2file : option cstr;
  jffs2_skip_bytes : Z; erase : list cstr; jffs2dir : cstr; part_offset : Z;
  dump_len : Z; opt_trxmagic : Z; o_offset : Z; data_size : Z }.

Definition default_options : options :=
  {| o_force := false; o_boot := false; no_erase := false; o_jffs2file := None;
     jffs2_skip_bytes := 0; erase := []; jffs2dir := []; part_offset := 0;
     dump_len := 0; opt_trxmagic := TRX_MAGIC; o_offset := 0; data_size := 0 |}.

Section tool.
Context {D : Type} `{Flash D} (tg : target) (h : host).
(** What fresh memory of a size holds, and the standard input. *)
Context (malloc : Z -> list Z) (stdin : file).
(** Whether the target links trx.c, and whether [target_brcm] is set. *)
Context (trx_linked target_brcm : bool).
(** Storing bytes through a synchronised mapping of the block device, which is the work of the
    kernel. *)
Context (map_store : D -> Z -> list Z -> D).

Abbreviation order := (t_order tg).
Abbreviation long_bits := (t_size_bits tg).

(** [errno = 0; x = strtoul(optarg, 0, 0); if (errno) usage();] *)
Definition number (optarg : cstr) : outcome Z :=
  let '(v, _, range) := strtoul long_bits 0 optarg in
  if range then Exit 1 else Done v.

(** The case of an option that getopt returned; [-t] and [-q] have no effect here. *)
Definition set_option (o : options) (ch : Ascii.ascii) (optarg : cstr) : outcome options :=
  let mk force boot ne jf sk er jd po dl mg off ds :=
    {| o_force := force; o_boot := boot; no_erase := ne; o_jffs2file := jf; jffs2_skip_bytes := sk;
       erase := er; jffs2dir := jd; part_offset := po; dump_len := dl; opt_trxmagic := mg;
       o_offset := off; data_size := ds |} in
  let upd po dl mg off ds :=
    mk (o_force o) (o_boot o) (no_erase o) (o_jffs2file o) (jffs2_skip_bytes o) (erase o) (jffs2dir o)
       po dl mg off ds in
  let first force boot ne jf sk er jd :=
    mk force boot ne jf sk er jd (part_offset o) (dump_len o) (opt_trxmagic o) (o_offset o) (data_size o) in
  match ch with
  | "f"%char => Done (first true (o_boot o) (no_erase o) (o_jffs2file o) (jffs2_skip_bytes o) (erase o) (jffs2dir o))
  | "r"%char => Done (first (o_force o) true (no_erase o) (o_jffs2file o) (jffs2_skip_bytes o) (erase o) (jffs2dir o))
  | "n"%char => Done (first (o_force o) (o_boot o) true (o_jffs2file o) (jffs2_skip_bytes o) (erase o) (jffs2dir o))
  | "j"%char => Done (first (o_force o) (o_boot o) (no_erase o) (Some optarg) (jffs2_skip_bytes o) (erase o) (jffs2dir o))
  | "s"%char => v ← number optarg;
                Done (first (o_force o) (o_boot o) (no_erase o) (o_jffs2file o) (s32 v) (erase o) (jffs2dir o))
  | "q"%char | "t"%char => Done o
  | "e"%char =>
      (* the terminating NULL of an eighth name is stored behind the array *)
      if bool_decide (S (length (erase o)) < MAX_ARGS)%nat
      then Done (first (o_force o) (o_boot o) (no_erase o) (o_jffs2file o) (jffs2_skip_bytes o) (erase o ++ [optarg]) (jffs2dir o))
      else Undef
  | "d"%char => Done (first (o_force o) (o_boot o) (no_erase o) (o_jffs2file o) (jffs2_skip_bytes o) (erase o) optarg)
  | "p"%char => v ← number optarg; Done (upd v (dump_len o) (opt_trxmagic o) (o_offset o) (data_size o))
  | "l"%char => v ← number optarg; Done (upd (part_offset o) v (opt_trxmagic o) (o_offset o) (data_size o))
  | "M"%char => v ← number optarg; Done (upd (part_offset o) (dump_len o) (u32 v) (o_offset o) (data_size o))
  | "o"%char => v ← number optarg; Done (upd (part_offset o) (dump_len o) (opt_trxmagic o) v (data_size o))
  | "c"%char => v ← number optarg; Done (upd (part_offset o) (dump_len o) (opt_trxmagic o) (o_offset o) v)
  | _ => Exit 1
  end.

Fixpoint set_options (o : options) (l : list (Ascii.ascii * cstr)) : outcome options :=
  match l with
  | [] => Done o
  | (ch, optarg) :: l => o ← set_option o ch optarg; set_options o l
  end.

(** ** Devices by name *)

Abbreviation devices := (gmap cstr D).

(** [mtd_check_open], for callers that exit when it fails *)
Definition open_dev (w : devices) (name : cstr) : outcome D :=
  match w !! name with Some d => Done d | None => Exit 1 end.

(** The names of a list [a:b:c]. *)
Fixpoint split_names (fuel : nat) (s : cstr) : list cstr :=
  match fuel, str_split 58 s with
  | S fuel, Some (a, b) => a :: split_names fuel b
  | _, _ => [s]
  end.
Definition names (s : cstr) : list cstr := split_names (length s) s.

(** [mtd_unlock] takes a list of names, [mtd_erase] one name. *)
Fixpoint unlock_all (w : devices) (l : list cstr) : outcome devices :=
  match l with
  | [] => Done w
  | n :: l => d ← open_dev w n; unlock_all (<[n := mtd_unlock d]> w) l
  end.

Definition unlock_names (w : devices) (mtd : cstr) : outcome devices := unlock_all w (names mtd).

Definition erase_name (w : devices) (mtd : cstr) : outcome devices :=
  d ← open_dev w mtd; d ← mtd_erase d; Done (<[mtd := d]> w).

(** [mtd_check]: all devices can be opened; the buffer has the block size of the first. *)
Definition mtd_check (w : devices) (mtd : cstr) : outcome (list D) :=
  match mapM (fun n => w !! n) (names mtd) with Some l => Done l | None => Exit 1 end.

(** ** The check of an image *)

(** [while (buflen < sizeof(magic))] *)
Fixpoint read_magic (fuel : nat) (buf : list Z) (buflen : Z) (f : file) : outcome (list Z * Z * file) :=
  match fuel with
  | O => Done (buf, buflen, f)
  | S fuel =>
      if buflen <? 4 then
        match file_read f (4 - buflen) with
        | (Failed _, f) | (Got [], f) => Done (buf, buflen, f)
        | (Got bs, f) =>
            buf ← defined (mem_write buf (Z.to_nat buflen) bs);
            read_magic fuel buf (buflen + Z.of_nat (length bs)) f
        end
      else Done (buf, buflen, f)
  end.

Definition firmware : cstr := str "firmware".

(** [trx_check]; a failed read counts as -1 bytes. *)
Definition trx_check (w : devices) (magic : Z) (mtd : cstr) (buf : list Z) (len : Z) (f : file)
    : outcome (bool * (list Z * Z * file)) :=
  if negb (bool_decide (mtd = firmware)) then Done (true, (buf, len, f)) else
  '(buf, len, f) ← (if len <? 32 then
      match file_read f (32 - len) with
      | (Failed _, f) => Done (buf, len - 1, f)
      | (Got bs, f) =>
          buf ← defined (mem_write buf (Z.to_nat len) bs);
          Done (buf, len + Z.of_nat (length bs), f)
      end else Done (buf, len, f));
  if len <? 32 then Done (false, (buf, len, f)) else
  m ← defined (get32 BE buf 0);
  tlen ← defined (get32 order buf 4);
  if negb (m =? magic) || (tlen <? sizeof_trx_header) then Done (false, (buf, len, f)) else
  d ← open_dev w mtd;
  Done (negb (fl_size d <? tlen), (buf, len, f)).

Definition format_of (magic : Z) (buf : list Z) : outcome mtd_image_format :=
  be ← defined (get32 BE buf 0);
  le ← defined (get32 LE buf 0);
  Done (if be =? magic then MTD_IMAGE_FORMAT_TRX
        else if be =? SEAMA_MAGIC then MTD_IMAGE_FORMAT_SEAMA
        else if le =? WRG_MAGIC then MTD_IMAGE_FORMAT_WRG
        else if le =? WRGG03_MAGIC then MTD_IMAGE_FORMAT_WRGG03
        else MTD_IMAGE_FORMAT_UNKNOWN).

Definition image_check (w : devices) (magic : Z) (mtd : cstr) (buf : list Z) (f : file)
    : outcome (bool * mtd_image_format * (list Z * Z * file)) :=
  '(buf, buflen, f) ← read_magic 4 buf 0 f;
  if buflen <? 4 then Done (false, MTD_IMAGE_FORMAT_UNKNOWN, (buf, buflen, f)) else
  fmt ← format_of magic buf;
  match fmt with
  | MTD_IMAGE_FORMAT_TRX =>
      '(ret, b) ← (if trx_linked then trx_check w magic mtd buf buflen f else Done (true, (buf, buflen, f)));
      Done (ret, fmt, b)
  | MTD_IMAGE_FORMAT_UNKNOWN =>
      Done (negb (target_brcm && bool_decide (mtd = firmware)), fmt, (buf, buflen, f))
  | _ => Done (true, fmt, (buf, buflen, f))
  end.

(** ** The other operations *)

(** [trx_fixup]: the checksum of a header at the start of the device.  crc32 takes
    the count as an int, and a negative one for 0. *)
Definition trx_fixup (magic : Z) (d : D) : outcome D :=
  if fl_size d <=? 0 then Done d else
  let bytes := fl_read d 0 (fl_size d) in
  m ← defined (get32 BE bytes 0);
  if negb (m =? magic) then Done d else
  len ← defined (get32 order bytes 4);
  data ← defined (mem_read bytes 12 (Z.to_nat (s32 (len - TRX_CRC32_DATA_OFFSET))));
  Done (map_store d 8 (enc order 4 (crc32buf data))).

(** The loop of [mtd_dump]: position of the file, [offset], [size] and what is written
    to the standard output.  Each round reads at least a byte. *)
Fixpoint dump_loop (fuel : nat) (d : D) (pos offset size : Z) (out : list Z) : outcome (list Z) :=
  match fuel with
  | O => Undef
  | S fuel =>
      let len := if fl_erasesize d <? size then fl_erasesize d else size in
      if len <? 0 then Undef else
      let bs := fl_read d pos len in
      let rlen := Z.of_nat (length bs) in
      if (rlen =? 0) || negb (rlen =? len) then Done out else
      bad ← mtd_block_is_bad d offset;
      let '(size, out) := if bad =? 0 then (size - rlen, out ++ bs) else (size, out) in
      if 0 <? size then dump_loop fuel d (pos + rlen) (offset + rlen) size out else Done out
  end.

Definition mtd_dump (d : D) (part_offset size : Z) : outcome (list Z) :=
  let size := if size =? 0 then fl_size d else size in
  (* lseek refuses a negative position *)
  let pos := if part_offset <? 0 then 0 else part_offset in
  dump_loop (S (Z.to_nat (fl_size d))) d pos 0 size [].

(** ** The commands *)

(** [-e]: each named device is unlocked and erased; the flag says whether the device
    of the command was among them. *)
Fixpoint erase_all (w : devices) (l : list cstr) (device : cstr) (unlocked : bool) : outcome (devices * bool) :=
  match l with
  | [] => Done (w, unlocked)
  | n :: l =>
      w ← unlock_names w n;
      w ← erase_name w n;
      erase_all w l device (unlocked || bool_decide (n = device))
  end.

Definition unlock_unless (unlocked : bool) (w : devices) (device : cstr) : outcome devices :=
  if unlocked then Done w else unlock_names w device.

(** The device and the ones that follow it in the list after [mtd_write]. *)
Definition put_back (w : devices) (l : list cstr) (s : @mtdw D) : devices :=
  foldr (fun '(n, d) w => <[n := d]> w) w (zip l (wdone s ++ wfd s :: wnext s)).

(** [mtd_write] with the repair of the checksum at its end; Seama and WRG headers are those
    of other targets.  A list that names a device twice is left out. *)
Definition write_names (w : devices) (o : options) (device : cstr) (fmt : mtd_image_format)
    (img : list Z * Z * file) : outcome devices :=
  let '(buf, buflen, f) := img in
  if negb (bool_decide (NoDup (names device))) then Undef else
  ds ← mtd_check w device;
  match ds with
  | [] => Undef
  | d :: devs =>
      s ← mtd_write tg h (no_erase o) (part_offset o) (jffs2_skip_bytes o) (jffs2dir o)
            (malloc (fl_erasesize d)) buf buflen f d devs (o_jffs2file o);
      d ← (match fmt with
           | MTD_IMAGE_FORMAT_TRX =>
               if trx_linked && jffs2_replaced s then trx_fixup (opt_trxmagic o) (wfd s) else Done (wfd s)
           | _ => Done (wfd s)
           end);
      Done (put_back w (names device) (set_erased s d (wpos s) (e s) (skip_bad_blocks s)))
  end.

Definition jffs2write (w : devices) (o : options) (file device : cstr) : outcome devices :=
  match w !! device with
  | None => Done w
  | Some d =>
      '(err, s) ← mtd_write_jffs2 tg (fl_size d) (fl_erasesize d) h (malloc (fl_erasesize d)) file (jffs2dir o)
                    (jffs2_init d);
      d ← (if trx_linked && (err =? 0) then trx_fixup (opt_trxmagic o) (dev s) else Done (dev s));
      Done (<[device := d]> w)
  end.

Definition open_image (name : cstr) : outcome file :=
  if bool_decide (name = str "-") then Done stdin else
  match h name with Some (_, Some f) => Done f | _ => Exit 1 end.

(** [main] behind the options: the devices and the standard output. *)
Definition run (w : devices) (o : options) (argv : list cstr) : outcome (devices * list Z) :=
  match argv with
  | [cmd; device] =>
      let after k := '(w, unlocked) ← erase_all w (erase o) device false; k w unlocked in
      if bool_decide (cmd = str "unlock") then
        after (fun w u => w ← unlock_unless u w device; Done (w, []))
      else if bool_decide (cmd = str "erase") then
        after (fun w u => w ← unlock_unless u w device; w ← erase_name w device; Done (w, []))
      else if bool_decide (cmd = str "fixtrx") && trx_linked then
        after (fun w _ => d ← open_dev w device;
                 d ← mtd_fixtrx long_bits order (opt_trxmagic o) d (o_offset o) (data_size o);
                 Done (<[device := d]> w, []))
      else if bool_decide (cmd = str "dump") then
        after (fun w _ => match w !! device with
                          | None => Done (w, [])
                          | Some d => out ← mtd_dump d (s32 (o_offset o)) (s32 (dump_len o)); Done (w, out)
                          end)
      else Exit 1
  | [cmd; file; device] =>
      let after k := '(w, unlocked) ← erase_all w (erase o) device false; k w unlocked in
      if bool_decide (cmd = str "verify") then after (fun w _ => Done (w, []))
      else if bool_decide (cmd = str "write") then
        f ← open_image file;
        ds ← mtd_check w device;
        buf ← (match ds with [] => Undef | d :: _ => Done (malloc (fl_erasesize d)) end);
        '(ok, fmt, img) ← image_check w (opt_trxmagic o) device buf f;
        if negb ok && negb (o_force o) then Exit 1 else
        after (fun w u => w ← unlock_unless u w device;
                 w ← write_names w o device fmt img; Done (w, []))
      else if bool_decide (cmd = str "jffs2write") then
        _ ← mtd_check w device;
        after (fun w u => w ← unlock_unless u w device; w ← jffs2write w o file device; Done (w, []))
      else Exit 1
  | _ => Exit 1
  end.

(** [main] on the options that getopt returned and the other arguments. *)
Definition main (w : devices) (l : list (Ascii.ascii * cstr)) (argv : list cstr) : outcome (devices * list Z) :=
  o ← set_options default_options l; run w o argv.

End tool.
