(* ===== verification/MtdToolProps.v ===== *)
(** * What the commands of the flash tool do

    The check of an image passes it on unchanged, and an image that is written can be
    dumped again. *)

From stdpp Require Import gmap options.
From S2P Require Import Prelude CLib Crc32 Mtd MtdGood Jffs2 Jffs2Spec Jffs2Facts Jffs2Log Jffs2Write Jffs2Props Jffs2Scan Jffs2Append MtdWrite MtdWriteProps MtdTrx MtdTool.

Set Default Proof Using "Type*".

(** ** What [mtd_write] keeps without further devices and without a file *)

Section frame.
Context {D : Type} `{Flash D} (tg : target) (h : host).

Definition frame (s s' : @mtdw D) : Prop :=
  wdone s' = wdone s /\ jffs2_replaced s' = jffs2_replaced s /\ wnext s' = wnext s /\ jffs2file s' = jffs2file s.

Lemma frame_refl s : frame s s.
Proof. done. Qed.

Lemma frame_trans s1 s2 s3 : frame s1 s2 -> frame s2 s3 -> frame s1 s3.
Proof. unfold frame. intuition congruence. Qed.

Lemma fill_frame fuel : forall s s', fill fuel s = Done s' -> frame s s'.
Proof.
  induction fuel as [|fuel IH]; intros s s'; [done|]. cbn [fill]. case_match; [|by intros [= <-]].
  destruct (file_read _ _) as [[[|c bs]|[]] f]; [by intros [= <-]| |by intros Hr%IH|by intros [= <-]].
  destruct (mem_write _ _ _); [|done]. cbn [defined mbind outcome_bind]. by intros Hr%IH.
Qed.

Lemma pad_block_ff_frame s s' : pad_block_ff s = Done s' -> frame s s'.
Proof.
  unfold pad_block_ff. case_match; [|by intros [= <-]].
  destruct (mem_set _ _ _ _); [|done]. by intros [= <-].
Qed.

Lemma erase_loop_frame po fuel : forall s b s', wnext s = [] ->
  erase_loop po fuel s = Done (b, s') -> b = true /\ frame s s'.
Proof.
  induction fuel as [|fuel IH]; intros s b s' Hn; [done|]. cbn [erase_loop].
  case_match; [|by intros [= <- <-]]. destruct (mtd_block_is_bad _ _) as [r| |]; [|done..].
  cbn [mbind outcome_bind]. case_match; [by intros Hr%IH|].
  destruct (mtd_erase_block _ _) as [d r']. case_match; [by rewrite Hn|by intros Hr%IH].
Qed.

Lemma write_block_frame s s' : write_block s = Done s' -> frame s s'.
Proof.
  unfold write_block. destruct (mem_read _ _ _); [|done]. cbn [defined mbind outcome_bind].
  destruct (fl_write _ _ _). case_match; [done|]. by intros [= <-].
Qed.

Lemma erase_write_frame po s s' : wnext s = [] -> erase_write false po s = Done s' -> frame s s'.
Proof.
  intros Hn. unfold erase_write. destruct (erase_loop _ _ _) as [[b s1]| |] eqn:He; [|done..].
  apply erase_loop_frame in He as [-> He]; [|done]. cbn [mbind outcome_bind].
  intros Hw%write_block_frame. by eapply frame_trans.
Qed.

Lemma write_loop_frame po skipb jdir junk fuel : forall s s', wnext s = [] -> jffs2file s = None ->
  write_loop tg h false po skipb jdir junk fuel s = Done s' -> frame s s'.
Proof.
  induction fuel as [|fuel IH]; intros s s' Hn Hj; [done|]. cbn [write_loop].
  destruct (fill _ _) as [s1| |] eqn:H1; [|done..]. cbn [mbind outcome_bind].
  apply fill_frame in H1. case_match; [by intros [= <-]|].
  destruct (pad_block_ff _) as [s2| |] eqn:H2; [|done..]. cbn [mbind outcome_bind].
  apply pad_block_ff_frame in H2. pose proof (frame_trans _ _ _ H1 H2) as H12.
  pose proof H12 as (_ & _ & Hn2 & Hj2). rewrite Hn in Hn2. rewrite Hj in Hj2.
  unfold handle_block. rewrite Hj2. destruct (0 <? skip s2).
  - cbn [mbind outcome_bind]. intros H3%IH; [|done..]. by eapply frame_trans.
  - destruct (erase_write _ _ _) as [s3| |] eqn:H3; [|done..]. cbn [mbind outcome_bind].
    apply erase_write_frame in H3; [|done]. pose proof H3 as (_ & _ & Hn3 & Hj3).
    intros H4%IH; [|congruence..]. do 2 (eapply frame_trans; [done|]). done.
Qed.

Lemma mtd_write_frame po skipb jdir junk b n f d s :
  mtd_write tg h false po skipb jdir junk b n f d [] None = Done s ->
  wdone s = [] /\ jffs2_replaced s = false /\ wnext s = [].
Proof. intros (? & ? & ? & _)%write_loop_frame; done. Qed.

End frame.

(** ** Images that are read promptly *)

(** The next [k] calls deliver 32 bytes when there are so many; later ones may deliver
    fewer and may be interrupted, but do not fail. *)
Definition prompt (k : nat) (f : file) : Prop :=
  Forall (fun ev => exists m, ev = RdMax m /\ (31 <= m)%nat) (take k (f_sched f)) /\ patient f.

Lemma prompt_le k k' f : (k' <= k)%nat -> prompt k f -> prompt k' f.
Proof.
  intros Hk [Hf Hp]. split; [|done]. replace k' with (k' `min` k)%nat by lia. rewrite <- take_take. by apply Forall_take.
Qed.

Lemma prompt_read k f n : prompt (S k) f -> 0 <= n <= 32 ->
  exists f', file_read f n = (Got (take (Z.to_nat n) (f_rest f)), f') /\
    f_rest f' = drop (Z.to_nat n) (f_rest f) /\ prompt k f'.
Proof.
  unfold prompt, file_read, patient. intros [Hp Ha] Hn. destruct (f_sched f) as [|ev l].
  - rewrite Nat.min_id. eexists. split; [done|]. split; [done|]. cbn [f_sched]. by rewrite take_nil.
  - cbn [take] in Hp. apply Forall_cons in Hp as [(m & -> & Hm) Hl]. apply Forall_cons in Ha as [_ Ha].
    rewrite Nat.min_l by lia. by eexists.
Qed.

(** Reading into the buffer keeps the image: what is buffered and what is left. *)
Definition buffered (k E : nat) (img : list Z) (x : list Z * Z * file) : Prop :=
  let '(buf, n, f) := x in
  length buf = E /\ 0 <= n <= Z.of_nat E /\ take (Z.to_nat n) buf ++ f_rest f = img /\ prompt k f.

Lemma buffered_le j j' E img x : (j' <= j)%nat -> buffered j E img x -> buffered j' E img x.
Proof. destruct x as [[b n] f]. intros Hj (?&?&?&?). split_and!; try done; try lia. by eapply prompt_le. Qed.

Lemma buffered_read j E img buf n f k :
  buffered (S j) E img (buf, n, f) -> n + k <= Z.of_nat E -> 0 <= k <= 32 ->
  exists bs buf' f', file_read f k = (Got bs, f') /\
    mem_write buf (Z.to_nat n) bs = Some buf' /\
    Z.of_nat (length bs) = Z.min k (Z.of_nat (length img) - n) /\
    buffered j E img (buf', n + Z.of_nat (length bs), f').
Proof.
  intros (Hb & Hn & Himg & Hp) Hfit Hk. destruct (prompt_read j f k Hp Hk) as (f' & Hr & Hrest & Hp').
  destruct (mem_write_some buf (Z.to_nat n) (take (Z.to_nat k) (f_rest f))) as [buf' Hw]; [rewrite length_take; lia|].
  exists (take (Z.to_nat k) (f_rest f)), buf', f'. split; [done|]. split; [done|].
  assert (Z.of_nat (length img) = n + Z.of_nat (length (f_rest f))) as Hl.
  { rewrite <- Himg, length_app, length_take. lia. }
  split; [rewrite length_take; lia|]. pose proof (mem_write_length _ _ _ _ Hw) as Hlen.
  split; [lia|]. split; [rewrite length_take; lia|]. split; [|done].
  unfold mem_write in Hw. case_decide; [|done]. injection Hw as <-.
  rewrite Hrest, app_assoc, take_app_le by (rewrite length_app, !length_take; lia).
  rewrite take_ge by (rewrite length_app, !length_take; lia).
  rewrite <- app_assoc, take_drop. done.
Qed.

Lemma buffered_stop j j' E img buf n f k buf' f' :
  buffered j E img (buf, n, f) -> mem_write buf (Z.to_nat n) [] = Some buf' ->
  buffered j' E img (buf', n + Z.of_nat (length (@nil Z)), f') -> file_read f k = (Got [], f') ->
  buffered j' E img (buf, n, f').
Proof.
  intros (Hl & Hn & _). rewrite mem_write_nil by lia. intros [= <-]. by rewrite Z.add_0_r.
Qed.

Lemma buffered_field j E img buf n f e p : buffered j E img (buf, n, f) -> (p + 4 <= Z.to_nat n)%nat ->
  get32 e buf p = Some (dec e (take 4 (drop p img))).
Proof.
  intros (Hb & Hn & Himg & _) Hp. unfold get32, mem_read. rewrite decide_True by lia.
  cbn [mbind option_bind]. do 2 f_equal. rewrite <- Himg.
  rewrite drop_app_le by (rewrite length_take; lia).
  rewrite take_app_le by (rewrite length_drop, length_take; lia).
  rewrite skipn_firstn_comm, take_take. f_equal. lia.
Qed.

Section check.
Context {D : Type} `{FL : FlashLaws D} (tg : target) (trx_linked target_brcm : bool).

(** What [image_check] answers for an image that is to be written to [dev]. *)
Definition acceptable (magic size : Z) (dev : cstr) (img : list Z) : bool :=
  let be := dec BE (take 4 img) in
  let le := dec LE (take 4 img) in
  let tlen := dec (t_order tg) (take 4 (drop 4 img)) in
  (4 <=? Z.of_nat (length img)) &&
  if be =? magic then
    negb (trx_linked && bool_decide (dev = firmware)) ||
    (32 <=? Z.of_nat (length img)) && (sizeof_trx_header <=? tlen) && (tlen <=? size)
  else (be =? SEAMA_MAGIC) || (le =? WRG_MAGIC) || (le =? WRGG03_MAGIC) ||
       negb (target_brcm && bool_decide (dev = firmware)).

Lemma read_magic_ok E img buf f : (32 <= E)%nat -> buffered 2 E img (buf, 0, f) ->
  exists x, read_magic 4 buf 0 f = Done x /\ buffered (if x.1.2 =? 4 then 1 else 0) E img x /\
    x.1.2 = Z.min 4 (Z.of_nat (length img)).
Proof using.
  intros HE Hb. cbn [read_magic]. change (0 <? 4) with true. change (4 - 0) with 4.
  destruct (buffered_read 1 E img buf 0 f 4 Hb) as (bs & buf1 & f1 & Hr & Hw & Hl & Hb1); [lia..|].
  rewrite Hr. destruct bs as [|c bs].
  { exists (buf, 0, f1). split; [done|]. simpl in Hl. split; [|simpl; lia].
    apply (buffered_le 1); [simpl; lia|]. by eapply buffered_stop. }
  rewrite Hw. cbn [defined mbind outcome_bind]. set (n := 0 + Z.of_nat (length (c :: bs))) in *.
  destruct (Z.ltb_spec n 4) as [Hlt|Hge]; [|exists (buf1, n, f1); split; [done|]; split; [|simpl; lia];
    apply (buffered_le 1); [case_match; lia|done]].
  destruct (buffered_read 0 E img buf1 n f1 (4 - n) Hb1) as (bs2 & buf2 & f2 & Hr2 & Hw2 & Hl2 & Hb2); [lia..|].
  assert (bs2 = []) as -> by (destruct bs2; [done|simpl length in *; lia]).
  rewrite Hr2. exists (buf1, n, f2). split; [done|]. split; [|simpl; lia].
  cbn [fst snd]. rewrite (proj2 (Z.eqb_neq n 4)) by lia. by eapply buffered_stop.
Qed.

Lemma trx_check_ok (E : nat) (img : list Z) (w : gmap cstr D) d magic dev buf f : (32 <= E)%nat ->
  w !! dev = Some d -> buffered 1 E img (buf, 4, f) -> dec BE (take 4 img) = magic ->
  exists x, trx_check tg w magic dev buf 4 f
    = Done (negb (bool_decide (dev = firmware)) ||
            (32 <=? Z.of_nat (length img)) && (sizeof_trx_header <=? dec (t_order tg) (take 4 (drop 4 img))) &&
            (dec (t_order tg) (take 4 (drop 4 img)) <=? fl_size d), x) /\ buffered 0 E img x.
Proof using.
  intros HE Hd Hb Hm. unfold trx_check. destruct (negb (bool_decide (dev = firmware))); [eexists; split; [done|]; by apply (buffered_le 1); [lia|]|].
  change (4 <? 32) with true. cbn [orb].
  destruct (buffered_read 0 E img buf 4 f 28 Hb) as (bs & buf1 & f1 & Hr & Hw & Hl & Hb1); [lia..|].
  change (32 - 4) with 28. rewrite Hr, Hw. cbn [defined mbind outcome_bind]. set (n := 4 + Z.of_nat (length bs)) in *.
  assert (4 <= Z.of_nat (length img)) as Himg.
  { destruct Hb as (Hbl & _ & <- & _). rewrite length_app, length_take. lia. }
  destruct (Z.ltb_spec n 32); destruct (Z.leb_spec 32 (Z.of_nat (length img))); try lia; [by eexists|].
  cbn [andb]. rewrite !(buffered_field 0 E img buf1 n f1) by (try done; lia). cbn [defined mbind outcome_bind].
  rewrite drop_0, Hm, Z.eqb_refl. cbn [negb orb].
  set (tl := dec _ _). unfold open_dev. rewrite Hd, (Z.ltb_antisym sizeof_trx_header tl), (Z.leb_antisym (fl_size d) tl).
  destruct (_ <=? tl); cbn [negb andb mbind outcome_bind]; by eexists.
Qed.

(** The check answers and loses nothing of the image. *)
Lemma image_check_ok (E : nat) (img : list Z) (w : gmap cstr D) d magic dev buf f : (32 <= E)%nat ->
  w !! dev = Some d -> buffered 2 E img (buf, 0, f) ->
  exists fmt x, image_check tg trx_linked target_brcm w magic dev buf f
    = Done (acceptable magic (fl_size d) dev img, fmt, x) /\ buffered 0 E img x.
Proof using.
  intros HE Hd Hb. unfold image_check, acceptable.
  destruct (read_magic_ok E img buf f HE Hb) as ([[buf1 n] f1] & -> & Hb1 & Hn). simpl in Hn.
  cbn [mbind outcome_bind]. destruct (Z.ltb_spec n 4); destruct (Z.leb_spec 4 (Z.of_nat (length img))); try lia.
  { do 2 eexists. split; [done|]. by eapply buffered_le; [|exact Hb1]; lia. }
  assert (n = 4) as -> by lia. simpl in Hb1. assert (buffered 0 E img (buf1, 4, f1)) as Hb0 by (by apply (buffered_le 1); [lia|]). unfold format_of.
  rewrite !(buffered_field 1 E img buf1 4 f1) by (try done; lia). rewrite drop_0. cbn [defined mbind outcome_bind andb].
  destruct (Z.eqb_spec (dec BE (take 4 img)) magic) as [Hm|].
  - destruct trx_linked; cbn [mbind outcome_bind andb negb orb]; [|by do 2 eexists].
    destruct (trx_check_ok E img w d magic dev buf1 f1 HE Hd Hb1 Hm) as (x & -> & Hx). by do 2 eexists.
  - destruct (_ =? SEAMA_MAGIC); [by do 2 eexists|]. destruct (_ =? WRG_MAGIC); [by do 2 eexists|].
    destruct (_ =? WRGG03_MAGIC); by do 2 eexists.
Qed.

End check.

(** ** Dumps *)

Section dump.
Context {D : Type} `{FL : FlashLaws D}.

Definition good_bytes (d : D) (a : Z) : list Z := concat (map (block d) (goods d a)).

(** A size of whole blocks, or a device without bad blocks. *)
Definition dumpable (d : D) (size : Z) : Prop :=
  size mod fl_erasesize d = 0 \/ forall a, is_block d a -> is_bad d a = false.

Lemma dumpable_next d size : dumpable d size -> dumpable d (size - fl_erasesize d).
Proof.
  destruct (fl_geometry d) as (HE & _). intros [Hm|Hg]; [left|by right].
  rewrite <- (Z.mod_add _ 1) by lia. by replace (size - fl_erasesize d + 1 * fl_erasesize d) with size by lia.
Qed.

Lemma dump_loop_ok d a : boundary d a -> forall fuel size out,
  0 < size -> dumpable d size -> (blocks_left d a < fuel)%nat ->
  dump_loop fuel d a a size out = Done (out ++ take (Z.to_nat size) (good_bytes d a)).
Proof.
  destruct (fl_geometry d) as (HE & _). revert a. refine (block_ind d _ _ _).
  - intros [|fuel] size out Hs Hd Hf; [lia|]. cbn [dump_loop]. rewrite (proj2 (Z.ltb_ge _ _)) by (case_match; lia).
    rewrite fl_read_end. unfold good_bytes. rewrite goods_end. cbn [map concat]. by rewrite take_nil, app_nil_r.
  - intros a Ha IH [|fuel] size out Hs Hd Hf; [lia|]. cbn [dump_loop].
    rewrite blocks_left_next in Hf by done. destruct (fl_read_block d a Ha) as [Hlen _].
    set (len := if fl_erasesize d <? size then fl_erasesize d else size).
    assert (0 < len <= fl_erasesize d /\ len <= size) as Hle by (subst len; destruct (Z.ltb_spec (fl_erasesize d) size); lia).
    rewrite (proj2 (Z.ltb_ge len 0)) by lia.
    pose proof (fl_read_part d a 0 len Ha) as Hr. rewrite Z.add_0_r, drop_0 in Hr. rewrite Hr by lia.
    assert (Z.of_nat (length (take (Z.to_nat len) (block d a))) = len) as Hll by (rewrite length_take; lia).
    rewrite Hll, (proj2 (Z.eqb_neq len 0)), Z.eqb_refl by lia. cbn [orb negb].
    destruct (mtd_block_is_bad_cases d a Ha) as (r & Hbad & Hr0). rewrite Hbad. cbn [mbind outcome_bind].
    unfold good_bytes. rewrite goods_step by done. assert (is_bad d a = negb (r =? 0)) as Hib by (unfold is_bad; rewrite Hbad; by destruct r).
    assert (r <> 0 -> len = fl_erasesize d) as Hfull.
    { intros Hr1. destruct Hd as [Hd|Hd].
      - destruct (Z.ltb_spec (fl_erasesize d) size); subst len; [done|].
        apply Z.mod_divide in Hd as [k ->]; [|lia]. assert (k = 1) by nia. lia.
      - rewrite Hd in Hib by done. by destruct (Z.eqb_spec r 0). }
    rewrite Hib. destruct (Z.eqb_spec r 0) as [-> |Hr1]; cbn [negb].
    + cbn [map concat]. destruct (Z.ltb_spec 0 (size - len)) as [Hmore|Hend].
      * assert (len = fl_erasesize d) as Hl by (subst len; destruct (Z.ltb_spec (fl_erasesize d) size); lia).
        rewrite Hl, IH by (try lia; by apply dumpable_next). rewrite take_ge by lia.
        rewrite (take_app_ge (block d a)), <- app_assoc by lia. do 4 f_equal. lia.
      * rewrite take_app_le by lia. do 3 f_equal. lia.
    + rewrite (proj2 (Z.ltb_lt 0 size)), Hfull, IH by (try done; lia). done.
Qed.

Lemma mtd_dump_ok d size : 0 <= size -> dumpable d size ->
  mtd_dump d 0 size = Done (take (Z.to_nat (if size =? 0 then fl_size d else size)) (good_bytes d 0)).
Proof.
  intros Hs Hd. destruct (fl_geometry d) as (HE & Hsz & Hm). unfold mtd_dump. change (0 <? 0) with false.
  assert (boundary d 0) as H0 by (split; [lia|by apply Z.mod_0_l; lia]).
  assert (blocks_left d 0 < S (Z.to_nat (fl_size d)))%nat as Hf.
  { pose proof (blocks_left_le d 0). pose proof (Z.div_le_upper_bound (fl_size d) (fl_erasesize d) (fl_size d)).
    assert (fl_size d / fl_erasesize d <= fl_size d) by (apply Z.div_le_upper_bound; nia). lia. }
  destruct (Z.eqb_spec size 0) as [-> |]; [|by rewrite dump_loop_ok by (try done; lia)].
  destruct (decide (fl_size d = 0)) as [Hz|]; [|rewrite dump_loop_ok by (try done; try lia; by left); done].
  rewrite Hz. cbn [dump_loop]. rewrite (proj2 (Z.ltb_ge (fl_erasesize d) 0)) by lia.
  change (0 <? 0) with false. pose proof (fl_read_end d 0) as Hr. rewrite Hz in Hr. by rewrite Hr.
Qed.

End dump.

(** ** Writing and dumping *)

(** The blocks of an image hold the image and erased bytes behind it. *)
Lemma concat_image_blocks E img : (0 < E)%nat ->
  exists k, (k < E)%nat /\ concat (image_blocks E img) = img ++ replicate k 255 /\
    length (concat (image_blocks E img)) = (E * length (image_blocks E img))%nat.
Proof.
  intros HE. remember (length img) as n eqn:Hn. revert img Hn.
  induction n as [n IH] using lt_wf_ind. intros img Hn.
  destruct (decide (img = [])) as [-> |Hne]; [exists O; simpl; split; [lia|split; [done|lia]]|].
  rewrite image_blocks_cons by done. cbn [concat length].
  assert (0 < length img)%nat by (destruct img; [done|simpl; lia]).
  destruct (IH (length (drop E img))) with (img := drop E img) as (k & Hk & Hc & Hl); [rewrite length_drop; lia|done|].
  rewrite length_app, Hl, length_ff_block by (rewrite length_take; lia).
  destruct (decide (length img <= E)%nat) as [Hle|Hgt].
  - rewrite (drop_ge img E), (take_ge img E) by done. unfold ff_block.
    exists (E - length img)%nat. split; [lia|]. split; [by rewrite app_nil_r|lia].
  - exists k. split; [done|]. rewrite Hc. unfold ff_block. rewrite length_take.
    replace (E - _)%nat with O by lia. cbn [replicate]. rewrite app_nil_r, app_assoc, take_drop. split; [done|lia].
Qed.

Section write_dump.
Context {D : Type} `{FL : FlashLaws D} (tg : target) (h : host) (malloc : Z -> list Z) (stdin : file).
Context (trx_linked target_brcm : bool) (map_store : D -> Z -> list Z -> D).
Abbreviation run_tool := (run tg h malloc stdin trx_linked target_brcm map_store).

(** One device, written from its start and erased on the way; [-f] and [-M] are free. *)
Definition plain_write (o : options) : Prop :=
  no_erase o = false /\ part_offset o = 0 /\ o_jffs2file o = None /\ erase o = [].

Definition dump_first (o : options) (n : Z) : Prop :=
  erase o = [] /\ o_offset o = 0 /\ dump_len o = n.

Lemma names_one (dev : cstr) : 58 ∉ dev -> names dev = [dev].
Proof using.
  intros Hd. unfold names. destruct dev as [|c dev]; [done|]. cbn [length split_names].
  assert (str_split 58 (c :: dev) = None) as ->; [|done]. generalize dependent (c :: dev). clear.
  induction l as [|x l IH]; [done|]. intros Hx. rewrite not_elem_of_cons in Hx. destruct Hx as [Hne Hx]. simpl.
  rewrite (proj2 (Z.eqb_neq _ _)) by done. by rewrite IH.
Qed.

(** Unlocking keeps the blocks. *)
Lemma unlock_info (d : D) : same_info d (mtd_unlock d).
Proof using FL. apply (fl_unlock_same d). Qed.

Lemma programmed_unlock (d : D) blks d' a :
  programmed (mtd_unlock d) 0 blks d' a -> programmed d 0 blks d' a.
Proof using FL.
  destruct (fl_geometry d) as (HE & Hs & _). destruct (fl_unlock_same d 0 (fl_size d)) as [Hi Hb].
  apply (programmed_app d 0 [] (mtd_unlock d) 0 blks). split; [done|].
  split; [split; [lia|by apply Z.mod_0_l; lia]|]. split; [simpl; lia|].
  exists []. split_and!; try done. intros b Hbb _. by apply Hb.
Qed.

(** [mtd_write] on one device, with its new content put back. *)
Lemma write_names_one (w : gmap cstr D) o dev fmt d b n f : plain_write o -> 58 ∉ dev -> w !! dev = Some d ->
  write_names tg h malloc trx_linked map_store w o dev fmt (b, n, f) =
  match mtd_write tg h false 0 (jffs2_skip_bytes o) (jffs2dir o) (malloc (fl_erasesize d)) b n f d [] None with
  | Done s => Done (<[dev := wfd s]> w)
  | Exit c => Exit c
  | Undef => Undef
  end.
Proof using.
  intros (Hne & Hpo & Hjf & _) Hdev Hd. unfold write_names, mtd_check. rewrite (names_one dev Hdev).
  rewrite bool_decide_true by (by apply NoDup_singleton). cbn [negb].
  cbn [mapM]. rewrite Hd. cbn [mbind option_bind outcome_bind mret option_ret]. rewrite Hne, Hpo, Hjf.
  destruct (mtd_write _ _ _ _ _ _ _ _ _ _ _ _ _) as [s| |] eqn:Hw; [|done..].
  destruct (mtd_write_frame tg h _ _ _ _ _ _ _ _ _ Hw) as (Hdone & Hrep & Hnext). cbn [mbind outcome_bind].
  assert (forall fmt : mtd_image_format, match fmt with
     | MTD_IMAGE_FORMAT_TRX =>
         if trx_linked && jffs2_replaced s then trx_fixup tg map_store (opt_trxmagic o) (wfd s) else Done (wfd s)
     | _ => Done (wfd s) end = Done (wfd s)) as -> by (intros []; by rewrite ?Hrep, ?andb_false_r).
  cbn [mbind outcome_bind]. unfold put_back, set_erased. cbn [wdone wfd wnext]. by rewrite Hdone, Hnext.
Qed.

(** [mtd write] behind the check of the image. *)
Lemma run_write_eq (w : gmap cstr D) o img dev d f st : plain_write o -> 58 ∉ dev -> w !! dev = Some d ->
  (forall n, length (malloc n) = Z.to_nat n) -> 32 <= fl_erasesize d ->
  img <> str "-" -> h img = Some (st, Some f) -> prompt 2 f ->
  exists b n f', buffered 0 (Z.to_nat (fl_erasesize d)) (f_rest f) (b, n, f') /\
  run_tool w o [str "write"; img; dev] =
    if acceptable tg trx_linked target_brcm (opt_trxmagic o) (fl_size d) dev (f_rest f) || o_force o then
      match mtd_write tg h false 0 (jffs2_skip_bytes o) (jffs2dir o) (malloc (fl_erasesize d)) b n f' (mtd_unlock d) [] None with
      | Done s => Done (<[dev := wfd s]> w, [])
      | Exit c => Exit c
      | Undef => Undef
      end
    else Exit 1.
Proof using FL.
  intros Ho Hdev Hd Hm HE Himg Hh Hp. pose proof Ho as (_ & _ & _ & Her).
  assert (32 <= Z.to_nat (fl_erasesize d))%nat as HEn by lia.
  assert (buffered 2 (Z.to_nat (fl_erasesize d)) (f_rest f) (malloc (fl_erasesize d), 0, f)) as Hb by (split_and!; try done; lia).
  destruct (image_check_ok tg trx_linked target_brcm _ _ w d (opt_trxmagic o) dev _ _ HEn Hd Hb)
    as (fmt & [[b n] f'] & Hchk & Hb').
  exists b, n, f'. split; [done|]. unfold run.
  rewrite (bool_decide_false (str "write" = str "verify")), (bool_decide_true (str "write" = str "write")) by done.
  unfold open_image. rewrite (bool_decide_false (img = _)), Hh by done. cbn [mbind outcome_bind].
  unfold mtd_check. rewrite (names_one dev Hdev). cbn [mapM]. rewrite Hd.
  cbn [mbind option_bind outcome_bind mret option_ret]. rewrite Hchk. cbn [mbind outcome_bind].
  rewrite <- negb_orb. destruct (_ || _); cbn [negb]; [|done].
  rewrite Her. cbn [erase_all mbind outcome_bind unlock_unless]. unfold unlock_names. rewrite (names_one dev Hdev).
  cbn [unlock_all]. unfold open_dev. rewrite Hd. cbn [mbind outcome_bind].
  rewrite (write_names_one _ o dev fmt (mtd_unlock d)) by (try done; by rewrite lookup_insert_eq).
  destruct (unlock_info d) as (_ & -> & _).
  destruct (mtd_write _ _ _ _ _ _ _ _ _ _ _ _ _) as [s| |]; [|done..]. cbn [mbind outcome_bind].
  by rewrite insert_insert_eq.
Qed.

Lemma run_dump_eq (w : gmap cstr D) o n dev d : dump_first o n -> w !! dev = Some d -> 0 <= n < 2 ^ 31 ->
  dumpable d n ->
  run_tool w o [str "dump"; dev]
  = Done (w, take (Z.to_nat (if n =? 0 then fl_size d else n)) (good_bytes d 0)).
Proof using FL.
  intros (He & Ho & Hn) Hd Hr Hdm. unfold run.
  rewrite (bool_decide_false (str "dump" = str "unlock")), (bool_decide_false (str "dump" = str "erase")),
    (bool_decide_false (str "dump" = str "fixtrx")), (bool_decide_true (str "dump" = str "dump")) by done.
  cbn [andb]. rewrite He. cbn [erase_all mbind outcome_bind]. rewrite Hd, Ho, Hn.
  change (s32 0) with 0. rewrite (s32_small_id n) by lia. by rewrite mtd_dump_ok by (done || lia).
Qed.

(** What the first blocks hold is what a dump of their size gives. *)
Lemma programmed_bytes (d d' : D) blks a : programmed d 0 blks d' a ->
  exists rest, good_bytes d' 0 = concat blks ++ rest.
Proof using.
  intros (Hi & _ & _ & addrs & Hg & _ & Hm & _). exists (concat (map (block d') (goods d a))).
  unfold good_bytes. by rewrite (goods_same d d'), Hg, map_app, concat_app, Hm.
Qed.

(** C16: [mtd write image device] and [mtd dump device], for a device that is written from
    its start and erased on the way, and an image file that is not the standard input.
    The first two reads, which fetch the header, deliver 32 bytes if there are so many
    (the code refuses an image whose header comes in smaller pieces); later reads may
    deliver any number of bytes and may be interrupted, but do not fail ([prompt 2]).
    The command ends in one of two ways.  If [image_check] accepts the image, or -f is
    given, and the image fits into the good blocks, then it is stored in the first good
    blocks and nothing else has changed on this or another device; a dump of as many
    blocks gives back the image and the erased bytes that fill its last block.
    Otherwise the process exits with status 1. *)
Theorem mtd_write_dump (w : gmap cstr D) o img dev d f st : plain_write o -> 58 ∉ dev -> w !! dev = Some d ->
  (forall n, length (malloc n) = Z.to_nat n) -> 32 <= fl_erasesize d ->
  img <> str "-" -> h img = Some (st, Some f) -> prompt 2 f -> Forall (is_word 8) (f_rest f) ->
  let E := Z.to_nat (fl_erasesize d) in
  let blks := image_blocks E (f_rest f) in
  let ok := acceptable tg trx_linked target_brcm (opt_trxmagic o) (fl_size d) dev (f_rest f) || o_force o in
  match run_tool w o [str "write"; img; dev] with
  | Done (w', out) =>
      ok = true /\ (length blks <= length (goods d 0))%nat /\ out = [] /\
      exists d' a, w' = <[dev := d']> w /\ programmed d 0 blks d' a /\
        forall o', f_rest f <> [] -> dump_first o' (fl_erasesize d * Z.of_nat (length blks)) ->
          exists k, (k < E)%nat /\ run_tool w' o' [str "dump"; dev] = Done (w', f_rest f ++ replicate k 255)
  | Exit c => c = 1 /\ (ok = false \/ length (goods d 0) < length blks)%nat
  | Undef => False
  end.
Proof using FL.
  intros Ho Hdev Hd Hm HE Himg Hh Hp Hw8 E blks ok.
  destruct (run_write_eq w o img dev d f st Ho Hdev Hd Hm HE Himg Hh Hp) as (b & n & f' & Hbuf & ->). fold ok.
  destruct ok eqn:Hok; [|by auto]. destruct Hbuf as (Hbl & Hn & Himgeq & Hp').
  pose proof (unlock_info d) as Hi. pose proof Hi as (_ & HEu & _).
  pose proof (mtd_write_image tg h (jffs2_skip_bytes o) (jffs2dir o) (malloc (fl_erasesize d)) (mtd_unlock d) b n f') as Hrun.
  cbn zeta in Hrun. rewrite HEu, Himgeq, (goods_same d) in Hrun by done.
  specialize (Hrun ltac:(lia) ltac:(lia) (proj2 Hp') Hw8). fold E blks in Hrun.
  destruct (mtd_write _ _ _ _ _ _ _ _ _ _ _ _ _) as [s|c|]; [|destruct Hrun; auto|done].
  destruct Hrun as (Hfit & Hprog%programmed_unlock). split_and!; [done..|].
  exists (wfd s), (e s). split_and!; [done..|]. intros o' Hne Hdf.
  destruct (concat_image_blocks E (f_rest f)) as (k & Hk & Hc & Hlen); [lia|].
  exists k. split; [done|]. destruct (programmed_bytes d (wfd s) blks (e s) Hprog) as [rest Hrest].
  destruct Hprog as ((Hs' & He' & _) & [Hb1 _] & Hb2 & _). destruct (fl_geometry d) as (_ & Hs & _).
  rewrite (run_dump_eq _ o' _ dev (wfd s) Hdf) by first [apply lookup_insert_eq | lia | left; rewrite He', Z.mul_comm; apply Z.mod_mul; lia].
  assert (0 < length blks)%nat by (subst blks; rewrite image_blocks_cons by (done || lia); simpl; lia).
  rewrite (proj2 (Z.eqb_neq _ 0)), Hrest, take_app_le, take_ge by (fold blks in Hlen; lia).
  by rewrite <- Hc.
Qed.

End write_dump.
