(* ===== verification/Padjffs2.v ===== *)
(** * Padding an image for the flash

    src/tools/padjffs2/src/padjffs2.c: the build appends the end marker, or a jffs2
    padding node, at the next multiple of every block size in question, so that
    [mtd -j] finds it at the start of a block.  The marks
    are at the right places, the image is unchanged, and a block of the padded image starts with the marker. *)

From Stdlib Require Import Ascii.
From stdpp Require Import options.
From S2P Require Import Prelude CLib Crc32 Mtd MtdGood Jffs2 Jffs2Spec MtdWrite MtdWriteProps.

Set Default Proof Using "Type*".

Definition eof_mark : list Z := [0xde; 0xad; 0xc0; 0xde].
Definition jffs2_pad_be : list Z := [0x19; 0x85; 0x20; 0x04; 0x04; 0x00; 0x00; 0x00; 0xc4; 0x94; 0xdb; 0xf4].
Definition jffs2_pad_le : list Z := [0x85; 0x19; 0x04; 0x20; 0x00; 0x00; 0x00; 0x04; 0xa8; 0xfb; 0xa0; 0xb4].
Definition BUF_SIZE : Z := 64 * 1024.

(** [ALIGN] of an [ssize_t] of 64 bits to a mask of 32 bits: the complement is taken in 32 bits. *)
Definition ALIGN (x y : Z) : Z := Z.land (x + (y - 1)) (2 ^ 32 - y).

(** The variables of the file. *)
Record padopts := PadOpts { xtra_offset : Z; pad : list Z; pad_to_stdout : bool }.

(** What is written behind the image or to the standard output, and the number of writes so far. *)
Record padded := Padded { out : list Z; writes : nat }.

Section padjffs2.
(** The result of the [n]-th call of write for a number of bytes. *)
Context (write_result : nat -> Z -> Z).

Definition write (s : padded) (bs : list Z) : Z * padded :=
  let t := write_result (writes s) (Z.of_nat (length bs)) in
  (t, Padded (out s ++ take (Z.to_nat t) bs) (S (writes s))).

(** The first [mask] of the loop over the bits from 10 on that is in [pad_mask], or the last one. *)
Fixpoint first_mask (n : nat) (i : Z) (pad_mask : Z) : Z :=
  let mask := 2 ^ i in
  match n with
  | O => mask
  | S n => if negb (Z.land pad_mask mask =? 0) then mask else first_mask n (i + 1) pad_mask
  end.

(** The bits whose block size divides the length are done. *)
Fixpoint clear_masks (n : nat) (i : Z) (in_len pad_mask : Z) : Z :=
  match n with
  | O => pad_mask
  | S n =>
      let mask := 2 ^ i in
      clear_masks n (i + 1) in_len (if Z.land in_len (mask - 1) =? 0 then Z.land pad_mask (2 ^ 32 - 1 - mask) else pad_mask)
  end.

(** Bytes 0xff up to [in_len]; false when a write fails. *)
Fixpoint fill_ff (fuel : nat) (in_len out_len : Z) (s : padded) : outcome (bool * Z * padded) :=
  if out_len <? in_len then
    match fuel with
    | O => Undef
    | S fuel =>
        let len := Z.min (in_len - out_len) BUF_SIZE in
        let '(t, s) := write s (replicate (Z.to_nat len) 0xff) in
        if negb (t =? len) then Done (false, out_len, s) else fill_ff fuel in_len (out_len + len) s
    end
  else Done (true, out_len, s).

Fixpoint pad_loop (fuel : nat) (o : padopts) (pad_mask in_len out_len : Z) (s : padded) : outcome (Z * padded) :=
  if pad_mask =? 0 then Done (0, s) else
  match fuel with
  | O => Undef
  | S fuel =>
      let mask := first_mask 21 10 pad_mask in
      let in_len := ALIGN in_len mask in
      let pad_mask := clear_masks 22 10 in_len pad_mask in
      '(ok, out_len, s) ← fill_ff (Z.to_nat (in_len - out_len)) in_len out_len s;
      if negb ok then Done (-1, s) else
      let '(t, s) := write s (pad o) in
      if negb (t =? Z.of_nat (length (pad o))) then Done (-1, s) else
      pad_loop fuel o pad_mask in_len (out_len + Z.of_nat (length (pad o))) s
  end.

(** [pad_image] on an image that could be opened; every round clears at least one of 32 bits. *)
Definition pad_image (o : padopts) (image : list Z) (pad_mask : Z) : outcome (Z * padded) :=
  let in_len := Z.of_nat (length image) + xtra_offset o in
  pad_loop 33 o pad_mask in_len in_len (Padded [] 0).

(** ** Command line *)

Context (long_bits : Z).

Definition default_options : padopts := PadOpts 0 eof_mark false.

(** The case of an option that getopt returned. *)
Definition set_option (o : padopts) (ch : ascii) (optarg : cstr) : outcome padopts :=
  match ch with
  | "x"%char => let '(v, _, _) := strtoul long_bits 0 optarg in Done (PadOpts (u32 v) (pad o) (pad_to_stdout o))
  | "J"%char => Done (PadOpts (xtra_offset o) jffs2_pad_be (pad_to_stdout o))
  | "j"%char => Done (PadOpts (xtra_offset o) jffs2_pad_le (pad_to_stdout o))
  | "c"%char => Done (PadOpts (xtra_offset o) (pad o) true)
  | _ => Exit 1
  end.

Fixpoint set_options (o : padopts) (l : list (ascii * cstr)) : outcome padopts :=
  match l with
  | [] => Done o
  | (ch, optarg) :: l => o ← set_option o ch optarg; set_options o l
  end.

(** The block sizes, in units of 1024 bytes. *)
Fixpoint sizes_mask (pad_mask : Z) (argv : list cstr) : Z :=
  match argv with
  | [] => pad_mask
  | a :: argv => let '(v, _, _) := strtoul long_bits 0 a in sizes_mask (u32 (Z.lor pad_mask (v * 1024))) argv
  end.

Definition default_mask : Z := Z.lor (Z.lor (Z.lor (4 * 1024) (8 * 1024)) (64 * 1024)) (128 * 1024).

(** The rest of [main], behind the options. *)
Definition run (o : padopts) (image : option (list Z)) (argv : list cstr) : outcome (Z * list Z * list Z) :=
  let pad_mask := sizes_mask 0 argv in
  let pad_mask := if pad_mask =? 0 then default_mask else pad_mask in
  match image with
  | None => Exit 1
  | Some image =>
      '(err, s) ← pad_image o image pad_mask;
      Done (if err =? 0 then 0 else 1, if pad_to_stdout o then image else image ++ out s,
            if pad_to_stdout o then out s else [])
  end.

(** [main] for the content of the image, [None] when it cannot be opened, the options and the
    other arguments: exit status, the new content of the image and the standard output. *)
Definition main (image : option (list Z)) (l : list (ascii * cstr)) (argv : list cstr)
    : outcome (Z * list Z * list Z) :=
  o ← set_options default_options l; run o image argv.

End padjffs2.

(** ** Masks and block boundaries *)

(** The first multiple of [2^k] that is not below [x]. *)
Definition next_block (x k : Z) : Z := (x + 2 ^ k - 1) / 2 ^ k * 2 ^ k.

Lemma next_block_spec x k : 0 <= k -> exists c, next_block x k = c * 2 ^ k /\ x <= next_block x k < x + 2 ^ k.
Proof.
  intros Hk. pose proof (Z.pow_pos_nonneg 2 k ltac:(lia) Hk) as Hp. exists ((x + 2 ^ k - 1) / 2 ^ k). unfold next_block.
  pose proof (Z.div_mod (x + 2 ^ k - 1) (2 ^ k)). pose proof (Z.mod_pos_bound (x + 2 ^ k - 1) (2 ^ k)). split; [done|nia].
Qed.

(** There is one such multiple. *)
Lemma next_block_unique x k c : 0 <= k -> x <= c * 2 ^ k < x + 2 ^ k -> next_block x k = c * 2 ^ k.
Proof.
  intros Hk Hc. destruct (next_block_spec x k Hk) as (c' & -> & Hc'). f_equal.
  pose proof (Z.pow_pos_nonneg 2 k ltac:(lia) Hk). nia.
Qed.

Lemma ALIGN_next x k : 0 <= k < 32 -> 0 <= x -> x + 2 ^ k - 1 < 2 ^ 32 -> ALIGN x (2 ^ k) = next_block x k.
Proof.
  intros Hk Hx Hb. unfold ALIGN, next_block. rewrite Z.add_sub_assoc. set (a := x + 2 ^ k - 1) in *.
  pose proof (Z.pow_pos_nonneg 2 k ltac:(lia) ltac:(lia)) as Hp.
  replace (2 ^ 32 - 2 ^ k) with (Z.shiftl (Z.ones (32 - k)) k).
  2:{ rewrite Z.shiftl_mul_pow2, Z.ones_equiv by lia. rewrite <- Z.sub_1_r, Z.mul_sub_distr_r, <- Z.pow_add_r by lia.
      replace (32 - k + k) with 32 by lia. lia. }
  rewrite <- (Z.shiftl_mul_pow2 _ k), <- Z.shiftr_div_pow2 by lia. apply Z.bits_inj'. intros j Hj.
  rewrite Z.land_spec. destruct (Z.lt_ge_cases j k) as [Hlt|Hge].
  - rewrite !(Z.shiftl_spec_low _ _ _ Hlt). apply andb_false_r.
  - rewrite !Z.shiftl_spec, Z.shiftr_spec by lia. replace (j - k + k) with j by lia.
    destruct (Z.lt_ge_cases j 32) as [H32|H32].
    + rewrite Z.ones_spec_low by lia. apply andb_true_r.
    + assert (Z.testbit a j = false) as ->; [|done].
      rewrite <- (Z.mod_small a (2 ^ 32)) by lia. by apply Z.mod_pow2_bits_high.
Qed.

(** Bit masks with bits from 10 to 31. *)
Definition mask_ok (m : Z) : Prop := 0 <= m < 2 ^ 32 /\ forall j, 0 <= j < 10 -> Z.testbit m j = false.

Lemma land_pow2 m i : 0 <= i -> (Z.land m (2 ^ i) =? 0) = negb (Z.testbit m i).
Proof.
  intros Hi. assert (Z.land m (2 ^ i) = if Z.testbit m i then 2 ^ i else 0) as ->.
  { apply Z.bits_inj'. intros j Hj. rewrite Z.land_spec, Z.pow2_bits_eqb by done.
    destruct (Z.eqb_spec i j) as [->|Hne].
    - destruct (Z.testbit m j); [by rewrite Z.pow2_bits_true|by rewrite Z.bits_0].
    - rewrite andb_false_r. destruct (Z.testbit m i); [by rewrite Z.pow2_bits_false by done|by rewrite Z.bits_0]. }
  destruct (Z.testbit m i); [|done]. apply Z.eqb_neq. pose proof (Z.pow_pos_nonneg 2 i ltac:(lia) Hi). lia.
Qed.

Lemma mask_zero m : mask_ok m -> (forall j, 0 <= j < 32 -> Z.testbit m j = false) -> m = 0.
Proof.
  intros [Hm _] Hz. apply Z.bits_inj'. intros j Hj. rewrite Z.bits_0. destruct (Z.lt_ge_cases j 32); [by apply Hz|].
  rewrite <- (Z.mod_small m (2 ^ 32)) by done. by apply Z.mod_pow2_bits_high.
Qed.

Lemma first_mask_spec n : forall i m, 0 <= i -> i + Z.of_nat n = 31 -> mask_ok m -> m <> 0 ->
  (forall j, 0 <= j < i -> Z.testbit m j = false) ->
  exists k, first_mask n i m = 2 ^ k /\ i <= k < 32 /\ Z.testbit m k = true /\ forall j, 0 <= j < k -> Z.testbit m j = false.
Proof.
  induction n as [|n IH]; intros i m Hi Hn Hm H0 Hlow; cbn [first_mask].
  - exists i. split_and!; [done|lia|lia| |done]. destruct (Z.testbit m i) eqn:Hb; [done|]. destruct H0. apply mask_zero; [done|].
    intros j Hj. destruct (Z.eq_dec j i) as [-> |]; [done|]. apply Hlow. lia.
  - rewrite land_pow2, negb_involutive by done. destruct (Z.testbit m i) eqn:Hb; [by exists i; split_and!; [done|lia..|done|done]|].
    destruct (IH (i + 1) m) as (k & -> & Hk & Hkb & Hkl); [lia|lia|done|done| |].
    + intros j Hj. destruct (Z.eq_dec j i) as [-> |]; [done|]. apply Hlow. lia.
    + exists k. split_and!; [done|lia|lia|done|done].
Qed.

Lemma without_bit i j : 0 <= i < 32 -> 0 <= j < 32 -> Z.testbit (2 ^ 32 - 1 - 2 ^ i) j = negb (i =? j).
Proof.
  intros Hi Hj. assert (forallb (fun i => forallb (fun j => Bool.eqb (Z.testbit (2 ^ 32 - 1 - 2 ^ i) j) (negb (i =? j)))
    (seqZ 0 32)) (seqZ 0 32) = true) as Hall by (vm_compute; reflexivity).
  rewrite forallb_forall in Hall. specialize (Hall i). rewrite <- list_elem_of_In, elem_of_seqZ, forallb_forall in Hall.
  specialize (Hall ltac:(lia) j). rewrite <- list_elem_of_In, elem_of_seqZ in Hall. apply eqb_prop, Hall. lia.
Qed.

Lemma clear_masks_spec n : forall i c m, 0 <= i -> i + Z.of_nat n <= 32 -> mask_ok m ->
  mask_ok (clear_masks n i c m) /\
  forall j, 0 <= j < 32 -> Z.testbit (clear_masks n i c m) j =
    Z.testbit m j && negb ((i <=? j) && (j <? i + Z.of_nat n) && (c mod 2 ^ j =? 0)).
Proof.
  induction n as [|n IH]; intros i c m Hi Hn Hm; cbn [clear_masks].
  - split; [done|]. intros j Hj. replace (i + Z.of_nat 0) with i by lia.
    assert ((i <=? j) && (j <? i) = false) as -> by lia. by rewrite andb_true_r.
  - replace (2 ^ i - 1) with (Z.ones i) by (rewrite Z.ones_equiv; lia). rewrite Z.land_ones by done.
    set (m' := if c mod 2 ^ i =? 0 then Z.land m (2 ^ 32 - 1 - 2 ^ i) else m).
    assert (forall j, 0 <= j < 32 -> Z.testbit m' j = Z.testbit m j && negb ((i =? j) && (c mod 2 ^ j =? 0))) as Hbit.
    { intros j Hj. subst m'. destruct (c mod 2 ^ i =? 0) eqn:Hc.
      - rewrite Z.land_spec, without_bit by lia. destruct (Z.eqb_spec i j) as [->|]; [by rewrite Hc|done].
      - destruct (Z.eqb_spec i j) as [->|]; [by rewrite Hc, andb_true_r|by rewrite andb_true_r]. }
    assert (mask_ok m') as Hm'.
    { split; [|intros j Hj; rewrite Hbit by lia; by rewrite (proj2 Hm)]. subst m'. destruct (c mod 2 ^ i =? 0); [|apply Hm].
      destruct Hm as [Hm _]. pose proof (Z.pow_le_mono_r 2 i 31 ltac:(lia) ltac:(lia)) as Hp. pose proof (Z.pow_pos_nonneg 2 i ltac:(lia) Hi).
      rewrite <- (wrap_small 32 m), <- (wrap_small 32 (2 ^ 32 - 1 - 2 ^ i)), <- wrap_land by (done || (unfold is_word; lia)).
      by apply wrap_range. }
    destruct (IH (i + 1) c m') as [Hok Hs]; [lia|lia|done|]. split; [done|]. intros j Hj. rewrite Hs, Hbit by done.
    rewrite <- andb_assoc. f_equal. replace (i + 1 + Z.of_nat n) with (i + Z.of_nat (S n)) by lia.
    destruct (c mod 2 ^ j =? 0); rewrite ?andb_true_r, ?andb_false_r; [|done].
    destruct (Z.eqb_spec i j), (Z.leb_spec (i + 1) j), (Z.leb_spec i j), (Z.ltb_spec j (i + Z.of_nat (S n))); try done; lia.
Qed.

(** ** The loop *)

Section success.
Context (write_result : nat -> Z -> Z).
Context (Hwrite : forall n len, 0 <= len -> write_result n len = len).

Abbreviation write := (write write_result).

Lemma write_all s bs : write s bs = (Z.of_nat (length bs), Padded (out s ++ bs) (S (writes s))).
Proof.
  unfold Padjffs2.write. rewrite Hwrite by lia. by rewrite Nat2Z.id, take_ge by lia.
Qed.

Lemma fill_ff_run c : forall fuel p s, (Z.to_nat (c - p) <= fuel)%nat ->
  exists s', fill_ff write_result fuel c p s = Done (true, Z.max p c, s') /\ out s' = out s ++ replicate (Z.to_nat (c - p)) 0xff.
Proof.
  induction fuel as [|fuel IH]; intros p s Hf; cbn [fill_ff].
  - rewrite (proj2 (Z.ltb_ge p c)) by lia. exists s. replace (Z.to_nat (c - p)) with O by lia.
    rewrite Z.max_l by lia. by rewrite app_nil_r.
  - destruct (Z.ltb_spec p c) as [Hlt|Hge].
    + set (len := Z.min (c - p) BUF_SIZE). assert (0 < len <= c - p) as Hlen by (subst len; unfold BUF_SIZE; lia).
      rewrite write_all, length_replicate, Z2Nat.id, Z.eqb_refl by lia. cbn [negb].
      destruct (IH (p + len) (Padded (out s ++ replicate (Z.to_nat len) 0xff) (S (writes s)))) as (s' & -> & Ho); [lia|].
      exists s'. split; [do 3 f_equal; lia|]. rewrite Ho. cbn [out]. rewrite <- app_assoc, <- replicate_add. do 2 f_equal. lia.
    + exists s. replace (Z.to_nat (c - p)) with O by lia. rewrite Z.max_l by lia. by rewrite app_nil_r.
Qed.

(** The mark for blocks of [2^i] bytes is in its place. *)
Definition marked (L : Z) (pad l : list Z) (i : Z) : Prop :=
  take (length pad) (drop (Z.to_nat (next_block L i - L)) l) = pad /\ next_block L i - L + Z.of_nat (length pad) <= Z.of_nat (length l).

(** The gaps are filled with erased bytes. *)
Definition gaps (pad l : list Z) : Prop := exists ns, l = concat (map (fun n => replicate n 0xff ++ pad) ns).

Lemma marked_app L pad l l' i : 0 <= i -> marked L pad l i -> marked L pad (l ++ l') i.
Proof using Type.
  intros Hi [Ht Hl]. destruct (next_block_spec L i Hi) as (? & _ & Hb). split; [|rewrite length_app; lia].
  rewrite drop_app_le, take_app_le by (rewrite ?length_drop; lia). done.
Qed.

Lemma next_block_min x i b : 0 <= i -> x <= b * 2 ^ i -> next_block x i <= b * 2 ^ i.
Proof using Type.
  intros Hi Hx. destruct (next_block_spec x i Hi) as (c & -> & Hc). pose proof (Z.pow_pos_nonneg 2 i ltac:(lia) Hi).
  assert (c < b + 1) by (apply (Z.mul_lt_mono_pos_r (2 ^ i)); lia). apply Z.mul_le_mono_nonneg_r; lia.
Qed.

(** Larger blocks end later, at ends of smaller blocks. *)
Lemma next_block_le x k i : 0 <= k <= i -> next_block x k <= next_block x i /\ exists b, next_block x i = b * 2 ^ k.
Proof using Type.
  intros Hk. destruct (next_block_spec x i ltac:(lia)) as (c & Hc & Hb).
  assert (next_block x i = (c * 2 ^ (i - k)) * 2 ^ k) as Heq.
  { rewrite Hc, <- Z.mul_assoc, <- Z.pow_add_r by lia. do 2 f_equal. lia. }
  split; [|by eexists]. rewrite Heq. apply next_block_min; [lia|]. rewrite <- Heq. lia.
Qed.

(** One step from a length to the next boundary. *)
Lemma next_block_step L c k i : 0 <= k -> 0 <= i -> L <= c -> next_block c k = next_block L k -> next_block c i = next_block L i ->
  next_block L k <= next_block L i -> next_block (next_block c k) i = next_block L i.
Proof using Type.
  intros Hk Hi HL Hck Hci Hle. destruct (next_block_spec L i Hi) as (b & Hb & Hbb). destruct (next_block_spec c k Hk) as (a & Ha & Hab).
  rewrite Hb. apply next_block_unique; [done|]. rewrite <- Hb. rewrite Hck in *. lia.
Qed.

(** Between two rounds: [lo] is above the bits that are done, [c] the last boundary. *)
Record round (L lo m c p : Z) (P : list Z) (s : padded) : Prop := {
  r_lo : 10 <= lo;
  r_mask : mask_ok m;
  r_low : forall j, 0 <= j < lo -> Z.testbit m j = false;
  r_len : 0 <= L <= c /\ c <= 2 ^ 31;
  r_next : forall i, 0 <= i < 32 -> Z.testbit m i = true -> next_block c i = next_block L i;
  r_out : Z.of_nat (length (out s)) = p - L;
  r_pos : p = c \/ (p = c + Z.of_nat (length P) /\ (exists b, c = b * 2 ^ 10) /\
                    forall i, 0 <= i < 32 -> Z.testbit m i = true -> c mod 2 ^ i <> 0);
  r_gaps : gaps P (out s) }.

Lemma round_boundary L lo m c p P s k : round L lo m c p P s -> (length P <= 12)%nat -> lo <= k < 32 -> Z.testbit m k = true ->
  ALIGN c (2 ^ k) = next_block L k /\ p <= next_block L k <= 2 ^ 31 /\ L <= next_block L k.
Proof using Type.
  intros [Hlo _ _ [HL Hc] Hnext _ Hpos _] HP Hk Hb.
  pose proof (Z.pow_le_mono_r 2 k 31 ltac:(lia) ltac:(lia)) as Hp31. change (2 ^ 31) with 2147483648 in *.
  rewrite ALIGN_next by (try lia; change (2 ^ 32) with 4294967296; lia). rewrite Hnext by (done || lia).
  destruct (next_block_spec L k ltac:(lia)) as (b & Hnb & Hr). split_and!; [done| | |lia].
  - rewrite <- (Hnext k) in Hnb |- * by (done || lia). destruct (next_block_spec c k ltac:(lia)) as (b' & Hb' & Hr').
    destruct Hpos as [-> | (-> & (a & Ha) & Hne)]; [lia|]. specialize (Hne k ltac:(lia) Hb).
    assert (next_block c k <> c) as Hnc.
    { intros Heq. apply Hne. rewrite <- Heq, Hb'. apply Z_mod_mult. }
    destruct (next_block_le c 10 k ltac:(lia)) as [_ (d & Hd)]. change (2 ^ 10) with 1024 in *. lia.
  - pose proof (next_block_min L k (2 ^ (31 - k)) ltac:(lia)) as Hmin. rewrite <- Z.pow_add_r in Hmin by lia.
    replace (31 - k + k) with 31 in Hmin by lia. change (2 ^ 31) with 2147483648 in Hmin. lia.
Qed.

(** One round: the mark of the smallest block size is written, and those it serves as well are done. *)
Lemma round_step L lo m c p P s k : round L lo m c p P s -> (length P <= 12)%nat -> lo <= k < 32 -> Z.testbit m k = true ->
  (forall j, 0 <= j < k -> Z.testbit m j = false) ->
  let c1 := next_block L k in let m1 := clear_masks 22 10 c1 m in
  forall n, let s1 := Padded (out s ++ replicate (Z.to_nat (c1 - p)) 0xff ++ P) n in
  round L (k + 1) m1 c1 (c1 + Z.of_nat (length P)) P s1 /\
  forall i, 0 <= i < 32 -> Z.testbit m i = true -> Z.testbit m1 i = true \/ marked L P (out s1) i.
Proof using Type.
  intros Hr HP Hk Hb Hlow c1 m1 n s1. destruct (round_boundary L lo m c p P s k Hr HP Hk Hb) as (_ & Hp & HL).
  destruct Hr as [Hlo Hm Hl0 [HL0 Hc] Hnext Hout Hpos Hgaps]. fold c1 in Hp, HL.
  destruct (clear_masks_spec 22 10 c1 m ltac:(lia) ltac:(lia) Hm) as [Hm1 Hbits]. fold m1 in Hm1, Hbits.
  destruct (next_block_spec L k ltac:(lia)) as (b & Hc1 & _). fold c1 in Hc1.
  assert (forall i, 0 <= i < 32 -> Z.testbit m1 i = true -> Z.testbit m i = true /\ c1 mod 2 ^ i <> 0 /\ k < i) as Hrest.
  { intros i Hi Hbi. rewrite Hbits in Hbi by done. apply andb_prop in Hbi as [Hmi Hneg]. apply negb_true_iff in Hneg.
    assert (k <= i) as Hki by (destruct (Z.lt_ge_cases i k); [rewrite Hlow in Hmi by lia; done|done]).
    assert (c1 mod 2 ^ i <> 0) as Hne.
    { apply Z.eqb_neq. destruct (c1 mod 2 ^ i =? 0); [|done]. destruct (Z.leb_spec 10 i), (Z.ltb_spec i (10 + Z.of_nat 22)); try done; lia. }
    split_and!; [done|done|]. destruct (Z.eq_dec k i) as [->|]; [|lia]. destruct Hne. rewrite Hc1. apply Z_mod_mult. }
  assert (Z.of_nat (length (out s1)) = c1 + Z.of_nat (length P) - L) as Ho1.
  { subst s1. cbn [out]. rewrite !length_app, length_replicate. lia. }
  split.
  - constructor; try done; try lia.
    + intros j Hj. destruct (Z.testbit m1 j) eqn:Hbj; [|done]. destruct (Hrest j) as (_ & _ & ?); [lia|done|lia].
    + intros i Hi Hbi. destruct (Hrest i Hi Hbi) as (_ & _ & Hki). destruct (next_block_le L k i ltac:(lia)) as [Hle _].
      destruct (next_block_spec L i ltac:(lia)) as (d & Hd & Hbd). rewrite Hd. apply next_block_unique; [lia|]. rewrite <- Hd. fold c1 in Hle. lia.
    + right. split_and!; [done| |].
      * exists (b * 2 ^ (k - 10)). rewrite Hc1, <- Z.mul_assoc, <- Z.pow_add_r by lia. do 2 f_equal. lia.
      * intros i Hi Hbi. by apply Hrest.
    + destruct Hgaps as [ns Hns]. exists (ns ++ [Z.to_nat (c1 - p)]). subst s1. cbn [out].
      rewrite Hns, map_app, concat_app. cbn [map concat]. by rewrite app_nil_r.
  - intros i Hi Hmi. destruct (Z.testbit m1 i) eqn:Hbi; [by left|right].
    assert (k <= i) as Hki by (destruct (Z.lt_ge_cases i k); [rewrite Hlow in Hmi by lia; done|done]).
    assert (c1 mod 2 ^ i = 0) as Hmod.
    { rewrite Hbits, Hmi in Hbi by done. cbn [andb] in Hbi. apply negb_false_iff in Hbi. b2p. lia. }
    assert (next_block L i = c1) as Hnb.
    { destruct (next_block_le L k i ltac:(lia)) as [Hle _]. apply Z.mod_divide in Hmod as [d Hd]; [|pose proof (Z.pow_pos_nonneg 2 i ltac:(lia)); lia].
      pose proof (next_block_min L i d ltac:(lia) ltac:(lia)). fold c1 in Hle. lia. }
    unfold marked. rewrite Hnb. split; [|lia]. subst s1. cbn [out]. rewrite app_assoc.
    rewrite drop_app_length' by (rewrite length_app, length_replicate; lia). by rewrite take_ge.
Qed.

Lemma pad_loop_run o L : (0 < length (pad o) <= 12)%nat -> forall fuel lo m c p s,
  round L lo m c p (pad o) s -> 33 - lo <= Z.of_nat fuel ->
  exists s' l, pad_loop write_result fuel o m c p s = Done (0, s') /\ out s' = out s ++ l /\ gaps (pad o) (out s') /\
    forall i, 0 <= i < 32 -> Z.testbit m i = true -> marked L (pad o) (out s') i.
Proof using Hwrite.
  intros HP. induction fuel as [|fuel IH]; intros lo m c p s Hr Hf; cbn [pad_loop]; destruct (Z.eqb_spec m 0) as [->|Hne].
  1, 3: exists s, []; split_and!; [done|by rewrite app_nil_r|apply Hr|intros i Hi; by rewrite Z.bits_0].
  - destruct Hne. apply mask_zero; [apply Hr|]. intros j Hj. apply (r_low _ _ _ _ _ _ _ Hr). lia.
  - pose proof Hr as [Hlo Hm Hl0 _ _ _ _ _].
    destruct (first_mask_spec 21 10 m ltac:(lia) ltac:(lia) Hm Hne) as (k & -> & Hk & Hb & Hlow); [intros j Hj; apply Hl0; lia|].
    assert (lo <= k) as Hlk by (destruct (Z.lt_ge_cases k lo); [rewrite Hl0 in Hb by lia; done|done]).
    destruct (round_boundary L lo m c p (pad o) s k Hr ltac:(lia) ltac:(lia) Hb) as (-> & Hp & HL).
    destruct (fill_ff_run (next_block L k) (Z.to_nat (next_block L k - p)) p s ltac:(lia)) as (s1 & -> & Ho1).
    cbn [mbind outcome_bind negb]. rewrite write_all, Z.eqb_refl. cbn [negb]. rewrite Z.max_r by lia. rewrite Ho1, <- app_assoc.
    destruct (round_step L lo m c p (pad o) s k Hr ltac:(lia) ltac:(lia) Hb Hlow (S (writes s1))) as [Hr1 Hmk].
    destruct (IH _ _ _ _ _ Hr1 ltac:(lia)) as (s' & l & Hrun & Ho & Hg & Hmarks).
    exists s', ((replicate (Z.to_nat (next_block L k - p)) 0xff ++ pad o) ++ l).
    split_and!; [exact Hrun|rewrite Ho; cbn [out]; by rewrite <- !app_assoc|done|]. intros i Hi Hmi.
    destruct (Hmk i Hi Hmi) as [H1|H1]; [by apply Hmarks|]. rewrite Ho. apply marked_app; [lia|done].
Qed.

Lemma nth_block E img : (0 < E)%nat -> forall n, (n * E < length img)%nat ->
  exists pre rest, image_blocks E img = pre ++ ff_block E (take E (drop (n * E) img)) :: rest /\ length pre = n.
Proof using Type.
  intros HE n. revert img. induction n as [|n IH]; intros img Hn; (assert (img <> []) as Hne by (intros ->; simpl in Hn; lia)).
  - exists [], (image_blocks E (drop E img)). by rewrite image_blocks_cons by done.
  - rewrite image_blocks_cons by done.
    destruct (IH (drop E img)) as (pre & rest & -> & Hl); [rewrite length_drop; lia|].
    exists (ff_block E (take E img) :: pre), rest. rewrite drop_drop. cbn [length app Nat.mul]. by rewrite Hl.
Qed.

(** The padding for the option values [o]: a mark at the first multiple of every size, shifted by the extra
    offset, and the block of the image that starts with it. *)
Lemma pad_image_marks o image pad_mask :
  (0 < length (pad o) <= 12)%nat -> mask_ok pad_mask -> 0 <= xtra_offset o ->
  Z.of_nat (length image) + xtra_offset o <= 2 ^ 31 ->
  exists s, pad_image write_result o image pad_mask = Done (0, s) /\ gaps (pad o) (out s) /\
    forall i, 0 <= i < 32 -> Z.testbit pad_mask i = true ->
      let pos := next_block (Z.of_nat (length image) + xtra_offset o) i - xtra_offset o in
      take (length (pad o)) (drop (Z.to_nat pos) (image ++ out s)) = pad o /\
      (pad o = eof_mark -> xtra_offset o = 0 ->
       exists pre eofb rest, image_blocks (Z.to_nat (2 ^ i)) (image ++ out s) = pre ++ eofb :: rest /\
         take 4 eofb = JFFS2_EOF /\ Z.of_nat (length pre) * 2 ^ i = pos).
Proof.
  intros HP Hm Hx HL. set (L := Z.of_nat (length image) + xtra_offset o) in *. unfold pad_image. fold L.
  destruct (pad_loop_run o L HP 33 10 pad_mask L L (Padded [] 0)) as (s & l & Hrun & _ & Hg & Hmarks); [|lia|].
  { constructor; [done|done|by apply Hm|lia|done|cbn [out length]; lia|by left|by exists []]. }
  exists s. split_and!; [done|done|]. intros i Hi Hbi. cbn zeta. destruct (Hmarks i Hi Hbi) as [Ht Hlen].
  destruct (next_block_spec L i ltac:(lia)) as (b & Hb & Hbb).
  assert (take (length (pad o)) (drop (Z.to_nat (next_block L i - xtra_offset o)) (image ++ out s)) = pad o) as Htake.
  { rewrite drop_app, drop_ge by lia. cbn [app]. rewrite <- Ht at 2. do 2 f_equal. lia. }
  split; [done|]. intros Hpad Hx0. rewrite Hx0, Z.sub_0_r in *.
  pose proof (Z.pow_pos_nonneg 2 i ltac:(lia) ltac:(lia)) as Hpos. assert (0 <= b) as Hb0 by nia.
  assert (10 <= i) as Hi10 by (destruct (Z.lt_ge_cases i 10); [rewrite (proj2 Hm) in Hbi by lia; done|done]).
  pose proof (Z.pow_le_mono_r 2 10 i ltac:(lia) Hi10) as Hp10. change (2 ^ 10) with 1024 in Hp10.
  assert (Z.to_nat (next_block L i) = (Z.to_nat b * Z.to_nat (2 ^ i))%nat) as Hnat by (rewrite Hb, Z2Nat.inj_mul by lia; done).
  assert (Z.to_nat (next_block L i) + length (pad o) <= length (image ++ out s))%nat as Hfit by (rewrite length_app; lia).
  destruct (nth_block (Z.to_nat (2 ^ i)) (image ++ out s) ltac:(lia) (Z.to_nat b) ltac:(lia)) as (pre & rest & Heq & Hpre).
  exists pre, (ff_block (Z.to_nat (2 ^ i)) (take (Z.to_nat (2 ^ i)) (drop (Z.to_nat b * Z.to_nat (2 ^ i)) (image ++ out s)))), rest. split_and!; [exact Heq| |lia].
  rewrite <- Hnat. rewrite Hpad in Htake, Hfit. unfold ff_block. change (length eof_mark) with 4%nat in *.
  rewrite take_app_le by (rewrite length_take, length_drop; lia). rewrite take_take, Nat.min_l by lia. exact Htake.
Qed.

End success.

(** ** From the command line *)

Section command_line.
Context (write_result : nat -> Z -> Z) (long_bits : Z).

Lemma sizes_mask_ok argv : forall m, mask_ok m -> mask_ok (sizes_mask long_bits m argv).
Proof.
  induction argv as [|a argv IH]; intros m Hm; cbn [sizes_mask]; [done|].
  destruct (strtoul long_bits 0 a) as [[v ?] ?]. apply IH. split; [by apply wrap_range|].
  intros j Hj. unfold u32, wrap. rewrite Z.mod_pow2_bits_low, Z.lor_spec by lia. rewrite (proj2 Hm) by done. cbn [orb].
  replace (v * 1024) with (Z.shiftl v 10) by (by rewrite Z.shiftl_mul_pow2). apply Z.shiftl_spec_low. lia.
Qed.

Lemma default_mask_ok : mask_ok default_mask.
Proof.
  split; [done|]. intros j Hj. assert (j = 0 \/ j = 1 \/ j = 2 \/ j = 3 \/ j = 4 \/ j = 5 \/ j = 6 \/ j = 7 \/ j = 8 \/ j = 9) as Hc by lia.
  repeat destruct Hc as [-> |Hc]; try done. by subst.
Qed.

Lemma main_run image argv m s :
  m = (if sizes_mask long_bits 0 argv =? 0 then default_mask else sizes_mask long_bits 0 argv) ->
  pad_image write_result default_options image m = Done (0, s) ->
  main write_result long_bits (Some image) [] argv = Done (0, image ++ out s, []).
Proof.
  intros -> Hrun. assert (main write_result long_bits (Some image) [] argv = run write_result long_bits default_options (Some image) argv)
    as -> by reflexivity. unfold run. rewrite Hrun. reflexivity.
Qed.

(** C21: padjffs2 puts a mark where the flash tool looks for it.  When all writes succeed, padjffs2 without options
    succeeds and appends erased bytes and end markers only, and for every block size 2^i among the arguments
    (4, 8, 64 and 128 kB when there are none) the padded image, cut into blocks of that size
    as mtd does, has right behind the blocks of the image a block
    that starts with the end marker. *)
Theorem padjffs2_marks image argv : (forall n len, 0 <= len -> write_result n len = len) ->
  Z.of_nat (length image) <= 2 ^ 31 ->
  exists s, main write_result long_bits (Some image) [] argv = Done (0, image ++ s, []) /\ gaps eof_mark s /\
    forall i, 0 <= i < 32 ->
      Z.testbit (if sizes_mask long_bits 0 argv =? 0 then default_mask else sizes_mask long_bits 0 argv) i = true ->
      exists pre eofb rest, image_blocks (Z.to_nat (2 ^ i)) (image ++ s) = pre ++ eofb :: rest /\
        take 4 eofb = JFFS2_EOF /\ Z.of_nat (length pre) * 2 ^ i = next_block (Z.of_nat (length image)) i.
Proof.
  intros Hw Hl. assert (exists m, m = (if sizes_mask long_bits 0 argv =? 0 then default_mask else sizes_mask long_bits 0 argv)) as [m Hm0]
    by by eexists. rewrite <- Hm0.
  assert (mask_ok m) as Hm.
  { rewrite Hm0. destruct (_ =? 0); [apply default_mask_ok|]. apply sizes_mask_ok. split; [done|]. intros. apply Z.bits_0. }
  destruct (pad_image_marks write_result Hw default_options image m) as (s & Hrun & Hg & Hmarks);
    [cbn [default_options pad eof_mark length]; lia|done|done|cbn [default_options xtra_offset]; lia|].
  exists (out s). split_and!; [by eapply main_run|done|].
  intros i Hi Hb. destruct (Hmarks i Hi Hb) as [_ Hblock]. cbn [default_options xtra_offset pad] in Hblock.
  rewrite Z.add_0_r, Z.sub_0_r in Hblock. by apply Hblock.
Qed.

End command_line.

Module Ex.

Definition all_written (n : nat) (len : Z) : Z := len.

(** An image of 1500 bytes padded for blocks of 1 and 4 kB. *)
Lemma padjffs2_marks_witness :
  exists s, main all_written 64 (Some (replicate 1500 7)) [] [str "1"; str "4"] = Done (0, replicate 1500 7 ++ s, []) /\ gaps eof_mark s /\
    forall i, 0 <= i < 32 -> Z.testbit 5120 i = true ->
      exists pre eofb rest, image_blocks (Z.to_nat (2 ^ i)) (replicate 1500 7 ++ s) = pre ++ eofb :: rest /\
        take 4 eofb = JFFS2_EOF /\ Z.of_nat (length pre) * 2 ^ i = next_block 1500 i.
Proof.
  apply (padjffs2_marks all_written 64 (replicate 1500 7) [str "1"; str "4"]).
  - intros n len _. reflexivity.
  - rewrite length_replicate. lia.
Defined.

(** A length of 4 GB and a byte is cut to 32 bits by the complement of the mask. *)
Example align_4GB : ALIGN (2 ^ 32 + 1) 4096 = 4096.
Proof. reflexivity. Qed.

(** The size of the padded file, and a write that fails. *)
Example padded_length :
  (match main all_written 64 (Some (replicate 1500 7)) [] [str "1"; str "4"] with Done (c, f, o) => Some (c, length f, length o) | _ => None end)
    = Some (0, 4100%nat, 0%nat).
Proof. vm_compute. reflexivity. Qed.

Example failing_write :
  (match main (fun n len => if Nat.eqb n 1 then 2 else len) 64 (Some (replicate 1500 7)) [] [str "1"] with Done (c, f, o) => Some (c, length f) | _ => None end)
    = Some (1, 2050%nat).
Proof. vm_compute. reflexivity. Qed.

End Ex.
