(* ===== verification/MtdDemo.v ===== *)
(** * The flash tool on concrete devices

    Runs by evaluation, the inputs at which the theorems are applied,
    and inputs at which the code does something else than its comments say. *)

From stdpp Require Import options.
From Stdlib Require Import Ascii.
From stdpp Require Import gmap options.
From S2P Require Import Prelude CLib Crc32 Mtd MtdGood MtdNor Jffs2 Jffs2Spec Jffs2Facts Jffs2Log Jffs2Write Jffs2Props Jffs2Scan Jffs2Append MtdWrite MtdWriteProps MtdJffs2 MtdTrx MtdTool MtdToolProps.

Module Ex.

Definition tg : target := {| t_order := LE; t_size_bits := 32 |}.

(** A device of six blocks of 1024 bytes that have been written before; the second
    one is bad. *)
Definition used_cells (n : nat) : list Z := replicate (n * 1024) 7.

Definition flash : nor := Nor (used_cells 6) 1024 [1024] true ltac:(vm_compute; reflexivity).

Definition name : cstr := str "/tmp/sysupgrade.tgz".
Definition content : list Z := map (fun k => Z.of_nat k mod 251) (seq 0 1400).

Definition st : stat :=
  {| st_mode := 33188; st_size := 1400; st_atime := 1; st_mtime := 2; st_ctime := 3 |}.

(** The file is read in pieces of different sizes. *)
Definition f : file := {| f_rest := content; f_sched := [RdMax 99; RdMax 5000; RdMax 0] |}.

Definition h : host := fun s => if decide (s = name) then Some (st, Some f) else None.

Definition run : outcome (Z * @jffs2 nor) :=
  mtd_replace_jffs2 tg 6144 1024 h flash 0 0 (replicate 1024 0) name (jffs2_init flash).

(** The number of bytes, the nodes found in the good blocks, and the first bytes of
    the block behind them. *)
Definition after (r : outcome (Z * @jffs2 nor)) :=
  match r with
  | Done (n, s) => Some (n, read_file (concat (map (fun a => scan_block LE (block (dev s) a)) [0; 2048])) 1
                          (str "sysupgrade.tgz"),
                         take 4 (block (dev s) 3072), block (dev s) 1024)
  | _ => None
  end.

Example replace_run : after run = Some (4096, Some content, JFFS2_EOF, replicate 1024 7).
Proof. vm_compute. reflexivity. Qed.

(** ** The theorems at concrete inputs *)

Lemma forall_bytes l : bool_decide (Forall (is_word 8) l) = true -> Forall (is_word 8) l.
Proof. apply bool_decide_eq_true. Qed.

Lemma tg_ok : target_ok tg 1024.
Proof. unfold target_ok. split; [lia|]. split; [done|by left]. Qed.

Lemma h_file : host_file h name content.
Proof.
  exists st, f. split; [by vm_compute|]. split; [done|].
  split; [unfold st_ok, is_word; simpl; lia|]. split; [repeat constructor; by eexists|].
  split; [apply forall_bytes; by vm_compute|]. split; [by vm_compute|]. split; [by vm_compute|].
  split; [apply forall_bytes; by vm_compute|]. vm_compute. lia.
Qed.

(** Four bytes of the image are in the buffer when [mtd_write] starts. *)
Definition image_file : file := {| f_rest := content; f_sched := [RdMax 9; RdIntr; RdMax 700] |}.
Definition image_buf : list Z := [72; 68; 82; 48] ++ replicate 1020 0.

Lemma mtd_write_image_witness :
  exists s, mtd_write tg h false 0 0 [] [] image_buf 4 image_file flash [] None = Done s /\
    programmed flash 0 (image_blocks 1024 ([72; 68; 82; 48] ++ content)) (wfd s) (e s).
Proof.
  pose proof (mtd_write_image tg h 0 [] [] flash image_buf 4 image_file) as H.
  cbv zeta in H. change (fl_erasesize flash) with 1024 in H.
  destruct (mtd_write _ _ _ _ _ _ _ _ _ _ _ _ _) as [s|c|].
  - exists s. split; [done|]. apply H; [by vm_compute|lia|by repeat constructor|apply forall_bytes; by vm_compute].
  - exfalso. assert (forall n m : nat, (n < m)%nat -> (n <? m)%nat = true) as Hlt by (intros; by apply Nat.ltb_lt).
    destruct H as [_ H%Hlt]; [by vm_compute|lia|by repeat constructor|apply forall_bytes; by vm_compute|].
    vm_compute in H. done.
  - exfalso. apply H; [by vm_compute|lia|by repeat constructor|apply forall_bytes; by vm_compute].
Defined.

(** A file system with one directory. *)
Definition old_fs : list (list node) :=
  [[NClean; NDirent 1 1 2 DT_DIR (str "etc"); NInode (dir_info 2) []]].

Lemma old_fs_ok : fs_ok (str "etc") (concat old_fs) content.
Proof.
  split_and!.
  - intros i data Hin. right. exists 1, 1, DT_DIR, (str "etc"). simpl in Hin.
    rewrite !elem_of_cons in Hin. destruct Hin as [?|[?|[Hin|[]%not_elem_of_nil]]]; [done..|].
    injection Hin as -> ->. simpl. rewrite !elem_of_cons. auto.
  - intros p v i ty nm Hin. simpl in Hin. rewrite !elem_of_cons in Hin.
    destruct Hin as [?|[Hin|[?|[]%not_elem_of_nil]]]; [done| |done]. injection Hin as -> -> -> -> ->.
    assert (Z.of_nat (length content) = 1400) as -> by (by vm_compute). lia.
  - right. split.
    + intros v i ty nm Hin _. simpl in Hin. rewrite !elem_of_cons in Hin.
      destruct Hin as [?|[Hin|[?|[]%not_elem_of_nil]]]; [done| |done]. by injection Hin.
    + right. exists 1, 2. split; [by vm_compute|lia].
  - by vm_compute.
Qed.


(** A kernel block in front of the end marker, and a further block behind it. *)
Definition kernel : list (list Z * list node) := [(replicate 1024 1, [])].
Definition image_with_end : file :=
  {| f_rest := replicate 1024 1 ++ eof_block 1024 ++ replicate 1024 3; f_sched := [RdMax 99; RdIntr; RdMax 700] |}.


(** ** Inputs outside the theorems *)

(** [add_dirent] asks for a new block when [ofs - erasesize] is small; the difference is
    negative and the comparison unsigned, so an entry at the end of a block is written
    past the buffer. *)
Example dirent_at_block_end :
  add_dirent tg 6144 1024 (str "sysupgrade.tgz") DT_REG 1
    (set_ofs (set_buf (jffs2_init flash) (replicate 1024 0)) 1000) = Undef.
Proof. vm_compute. reflexivity. Qed.

(** The directory is compared up to the length of the entry's name, so an entry [et] is
    taken for the directory [etc]. *)
Example prefix_is_directory :
  match mtd_parse_jffs2data tg 1024 (block_of tg 1024 [NClean; NDirent 1 1 2 DT_DIR (str "et")])
          (str "etc") (jffs2_init flash) with
  | Done s => Some (target_ino s) | _ => None end = Some 2.
Proof. vm_compute. reflexivity. Qed.

(** A node with length 0 in its header is visited for ever. *)
Example zero_length_node :
  mtd_parse_jffs2data tg 1024 ([0x85; 0x19; 0; 0; 0; 0; 0; 0] ++ replicate 1016 255) [] (jffs2_init flash)
  = Undef.
Proof. vm_compute. reflexivity. Qed.

Definition host_of (f : file) : host := fun s => if decide (s = name) then
  Some ({| st_mode := 33188; st_size := Z.of_nat (length (f_rest f)); st_atime := 0; st_mtime := 0; st_ctime := 0 |},
        Some f) else None.

Definition appended (f : file) : option (option (list Z)) :=
  match mtd_replace_jffs2 tg 6144 1024 (host_of f) flash 0 0 (replicate 1024 0) name (jffs2_init flash) with
  | Done (n, s) => Some (read_file (scan_block LE (block (dev s) 0)) 1 (str "sysupgrade.tgz"))
  | _ => None
  end.

(** An empty file gets a directory entry and no inode, so it does not exist. *)
Example empty_file_lost : appended {| f_rest := []; f_sched := [] |} = Some None.
Proof. vm_compute. reflexivity. Qed.

(** A read that is interrupted ends the file: what follows reads as zeros, and the
    command reports success. *)
Example interrupted_file_truncated :
  appended {| f_rest := replicate 200 9; f_sched := [RdMax 99; RdIntr] |}
  = Some (Some (replicate 100 9 ++ replicate 100 0)).
Proof. vm_compute. reflexivity. Qed.

(** ** Options together *)

Definition flash2 : nor := Nor (used_cells 6) 1024 [] false ltac:(vm_compute; reflexivity).
Definition small : host := host_of {| f_rest := [1; 2; 3]; f_sched := [] |}.
Definition kernel_image : file := {| f_rest := replicate 1024 1 ++ JFFS2_EOF; f_sched := [] |}.

Definition flashed (no_erase : bool) (part_offset : Z) (f : file) (devs : list nor) (jf : option cstr) :=
  match mtd_write tg small no_erase part_offset 0 [] (replicate 1024 0) (replicate 1024 0) 0 f flash2 devs jf with
  | Done s => Some s | _ => None end.

(** [-j] alone: the kernel, the file and the end marker. *)
Example write_with_file :
  (fun s => (bool_decide (block (wfd s) 0 = replicate 1024 1),
             read_file (scan_block LE (block (wfd s) 1024)) 1 (str "sysupgrade.tgz"),
             take 4 (block (wfd s) 2048))) <$> flashed false 0 kernel_image [] (Some name)
  = Some (true, Some [1; 2; 3], JFFS2_EOF).
Proof. vm_compute. reflexivity. Qed.

(** A further block of the image is dropped for the block of the file; the next one is
    stored behind the new end marker. *)
Example block_behind_marker :
  (fun s => (take 4 (block (wfd s) 2048), take 4 (block (wfd s) 3072), take 4 (block (wfd s) 4096)))
    <$> flashed false 0 {| f_rest := replicate 1024 1 ++ eof_block 1024 ++ replicate 1024 3 ++ replicate 1024 4;
                           f_sched := [] |} [] (Some name)
  = Some (JFFS2_EOF, replicate 4 4, replicate 4 7).
Proof. vm_compute. reflexivity. Qed.

(** [-p 1024 -j]: the offset is not passed to [mtd_replace_jffs2], which erases the
    kernel block that has just been written and writes to a block that is not erased. *)
Example offset_with_file :
  (fun s => (bool_decide (block (wfd s) 1024 = replicate 1024 255),
             scan_block LE (block (wfd s) 2048))) <$> flashed false 1024 kernel_image [] (Some name)
  = Some (true, []).
Proof. vm_compute. reflexivity. Qed.

(** [-n -j]: without erasing, [e] stays 0 and the first block is erased. *)
Example no_erase_with_file :
  (fun s => bool_decide (block (wfd s) 0 = replicate 1024 255)) <$> flashed true 0 kernel_image [] (Some name)
  = Some true.
Proof. vm_compute. reflexivity. Qed.

(** A read error in the image is not reported: the rest of the block is filled up and
    the following bytes go to the next block. *)
Example image_read_error :
  (fun s => (take 101 (block (wfd s) 0), take 2 (block (wfd s) 1024)))
    <$> flashed false 0 {| f_rest := replicate 300 1; f_sched := [RdMax 99; RdErr] |} [] None
  = Some (replicate 100 1 ++ [255], [1; 1]).
Proof. vm_compute. reflexivity. Qed.

(** An image that continues on a second device. *)
Example two_devices :
  (fun s => (map (fun d => forallb (fun a => bool_decide (block d a = replicate 1024 1)) [0; 1024; 2048; 3072; 4096; 5120]) (wdone s),
             bool_decide (block (wfd s) 0 = replicate 1024 1), e s))
    <$> flashed false 0 {| f_rest := replicate 7168 1; f_sched := [] |} [flash2] None
  = Some ([true], true, 1024).
Proof. vm_compute. reflexivity. Qed.

(** ** TRX headers *)

(** A header at 1000 of the first block; the data reach into the third block, and
    the second one is bad. *)
Definition trx_flash : nor :=
  Nor (replicate 1000 7 ++ str "HDR0" ++ replicate 5140 9) 1024 [1024] true ltac:(vm_compute; reflexivity).

Definition trx_fixed (o : endian) : option (list Z) :=
  match mtd_fixtrx 32 o 0x48445230 trx_flash 1000 2000 with
  | Done d => Some (take 16 (drop 1000 (block d 0)))
  | _ => None
  end.

(** 12 bytes of the first block and the first 980 of the third one are covered,
    and both kinds of targets store the same bytes. *)
Example fixtrx_run : trx_fixed LE = trx_fixed BE /\
  trx_fixed LE = Some (str "HDR0" ++ le_bytes 4 1004 ++ le_bytes 4 (crc32buf (replicate 992 9)) ++ replicate 4 9).
Proof. split; vm_compute; reflexivity. Qed.

Lemma mtd_fixtrx_correct_witness :
  exists d', mtd_fixtrx 32 BE 0x48445230 trx_flash 1000 2000 = Done d' /\
    trx_valid 0x48445230 d' 1000 2016 /\ mtd_fixtrx 32 BE 0x48445230 d' 1000 2000 = Done d'.
Proof.
  destruct (mtd_fixtrx_correct 32 BE 0x48445230 ltac:(lia) trx_flash 1000 2000)
    as (d' & Hrun & Hv & _ & _ & _ & _ & Hagain).
  - split; [by exists 10|]. split; [lia|]. split; [lia|]. split; [by vm_compute|]. split; [by vm_compute|].
    split; [split; [split; [by vm_compute|by vm_compute]|by vm_compute]|by vm_compute].
  - exists d'. by split_and!.
Defined.

End Ex.

(** ** The commands of the flash tool on concrete devices *)

Definition tool_target : target := {| t_order := LE; t_size_bits := 32 |}.

(** A firmware partition of four blocks, the second one bad, and another partition. *)
Definition part : nor := Nor (replicate 4096 7) 1024 [1024] true ltac:(vm_compute; reflexivity).
Definition data_part : nor := Nor (replicate 1024 9) 512 [] false ltac:(vm_compute; reflexivity).
Definition parts : gmap cstr nor := {[ str "firmware" := part; str "data" := data_part ]}.

(** An image with a TRX header that covers 1400 bytes. *)
Definition trx_image : list Z :=
  str "HDR0" ++ le_bytes 4 1400 ++ map (fun k => Z.of_nat k mod 251) (seq 0 1392).

Definition image_stat : stat :=
  {| st_mode := 33188; st_size := 1400; st_atime := 1; st_mtime := 2; st_ctime := 3 |}.

Definition image_host (sched : list rd_event) : host := fun n =>
  if decide (n = str "a.trx") then Some (image_stat, Some {| f_rest := trx_image; f_sched := sched |}) else None.

Definition fresh (n : Z) : list Z := replicate (Z.to_nat n) 0.
Definition no_input : file := {| f_rest := []; f_sched := [] |}.

Definition store_map (d : nor) (a : Z) (bs : list Z) : nor := nor_put d a bs.

Definition tool (sched : list rd_event) :=
  main tool_target (image_host sched) fresh no_input true true store_map.

(** ** Runs *)

Definition write_then_dump (sched : list rd_event) : option (list Z) :=
  match tool sched parts [] [str "write"; str "a.trx"; str "firmware"] with
  | Done (w, _) =>
      match tool sched w [("l"%char, str "2048")] [str "dump"; str "firmware"] with
      | Done (_, out) => Some out
      | _ => None
      end
  | _ => None
  end.

Example write_dump_run : write_then_dump [RdMax 40; RdMax 500] = Some (trx_image ++ replicate 648 255).
Proof. vm_compute. reflexivity. Qed.

(** The partition must exist, and an image without a header is refused on it. *)
Example refused :
  tool [] parts [] [str "write"; str "a.trx"; str "boot"] = Exit 1 /\
  tool [] parts [("M"%char, str "0x12345678")] [str "write"; str "a.trx"; str "firmware"] = Exit 1.
Proof. split; vm_compute; reflexivity. Qed.

(** Both partitions named with -e are erased before the command. *)
Example erase_two :
  match tool [] parts [("e"%char, str "data"); ("e"%char, str "firmware")] [str "dump"; str "firmware"] with
  | Done (w, out) => (out, option_map n_cells (w !! str "data"))
  | _ => ([], None)
  end = (replicate 3072 255, Some (replicate 1024 255)).
Proof. vm_compute. reflexivity. Qed.

(** ** Behaviour that the code does not mean *)

(** A header that arrives in two reads is refused as a file that is too small. *)
Example header_in_two_reads : tool [RdMax 99; RdMax 9] parts [] [str "write"; str "a.trx"; str "firmware"] = Exit 1.
Proof. vm_compute. reflexivity. Qed.

(** When the read of the header is interrupted, -f writes the image without the
    last byte of its magic number. *)
Example forced_loses_byte :
  match tool [RdMax 99; RdIntr] parts [("f"%char, [])] [str "write"; str "a.trx"; str "firmware"] with
  | Done (w, _) => option_map (fun d => take 8 (n_cells d)) (w !! str "firmware")
  | _ => None
  end = Some (take 3 trx_image ++ take 5 (drop 4 trx_image)).
Proof. vm_compute. reflexivity. Qed.

(** A dump of 1100 bytes: the last 76 come from 40 bytes behind the start of the third
    block. *)
Definition marked : nor :=
  Nor (replicate 1024 1 ++ replicate 1024 0 ++ map (fun k => Z.of_nat k mod 251) (seq 0 1024)) 1024 [1024] true
    ltac:(vm_compute; reflexivity).

Example dump_loses_bytes :
  mtd_dump marked 0 1100 = Done (replicate 1024 1 ++ map (fun k => Z.of_nat k mod 251) (seq 40 76)).
Proof. vm_compute. reflexivity. Qed.

(** The eighth -e is stored outside the array. *)
Example eight_erase_options :
  tool [] parts (replicate 8 ("e"%char, str "data")) [str "unlock"; str "data"] = Undef.
Proof. vm_compute. reflexivity. Qed.

(** ** The theorem at a concrete input *)

Definition dump_options : options :=
  {| o_force := false; o_boot := false; no_erase := false; o_jffs2file := None; jffs2_skip_bytes := 0;
     erase := []; jffs2dir := []; part_offset := 0; dump_len := 2048; opt_trxmagic := TRX_MAGIC;
     o_offset := 0; data_size := 0 |}.

(** Short and interrupted reads behind the header. *)
Definition write_sched : list rd_event := [RdMax 40; RdMax 500; RdMax 2; RdIntr; RdMax 7].

Definition step := run tool_target (image_host write_sched) fresh no_input true true store_map.

Lemma mtd_write_dump_witness :
  exists w' k, step parts default_options [str "write"; str "a.trx"; str "firmware"] = Done (w', []) /\
    step w' dump_options [str "dump"; str "firmware"] = Done (w', trx_image ++ replicate k 255).
Proof.
  set (f := {| f_rest := trx_image; f_sched := write_sched |}).
  pose proof (mtd_write_dump tool_target (image_host write_sched) fresh no_input true true store_map
    parts default_options (str "a.trx") (str "firmware") part f image_stat) as H.
  specialize (H ltac:(by repeat split)).
  specialize (H ltac:(by apply (bool_decide_unpack _); vm_compute) ltac:(by vm_compute)).
  specialize (H ltac:(intros n; apply length_replicate) ltac:(by vm_compute) ltac:(done) ltac:(by vm_compute)).
  specialize (H ltac:(split; [repeat constructor; eexists; (split; [reflexivity|lia])|by repeat (constructor; [done|])])).
  specialize (H ltac:(by apply (bool_decide_unpack _); vm_compute)).
  cbv zeta in H. fold step in H. destruct (step parts _ _) as [[w' out]|c|] eqn:Hrun.
  - destruct H as (_ & _ & -> & d' & a & _ & _ & Hd).
    destruct (Hd dump_options) as (k & _ & Hk); [done|by repeat split|].
    exists w', k. split; [reflexivity|exact Hk].
  - exfalso. vm_compute in Hrun. discriminate Hrun.
  - destruct H.
Defined.
