(* ===== verification/Siit.v ===== *)
(** * The stateless IPv4/IPv6 translator

    src/feeds/packages/net/siit/src/siit.c: a network device that turns every IPv4
    packet sent to it into an IPv6 packet and back, and hands the result to the
    upper layer.  Headers are read and written as bytes at their offsets; the
    fields that the code converts with ntohs and ntohl are read in network order,
    those it does not convert in the byte order [e] of the target. *)

From stdpp Require Import options.
From S2P Require Import Prelude.

(** ** What the kernel provides *)

(** The checksum functions; addresses and buffers are their bytes in memory. *)
Class Csum := {
  csum_partial : list Z -> Z -> Z;
  csum_ipv6_magic : list Z -> list Z -> Z -> Z -> Z -> Z;
  csum_tcpudp_magic : list Z -> list Z -> Z -> Z -> Z -> Z;
  ip_fast_csum : list Z -> Z;
  ip_compute_csum : list Z -> Z }.

(** The sum of the 16-bit words of a buffer. *)
Fixpoint sum16 (e : endian) (l : list Z) : Z :=
  match l with
  | [] => 0
  | [a] => dec e [a; 0]
  | a :: b :: l => dec e [a; b] + sum16 e l
  end.

(** What the callers rely on: the functions compute the ones' complement sum, which is a
    sum modulo 65535, of the words of the buffer, of the pseudo header and of what was
    summed before; the last four return its complement. *)
Class CsumLaws (e : endian) `{Csum} := {
  csum_partial_word b s : is_word 32 (csum_partial b s);
  csum_partial_sum b s : csum_partial b s mod 65535 = (sum16 e b + s) mod 65535;
  ipv6_magic_word sa da len proto s : is_word 16 (csum_ipv6_magic sa da len proto s);
  ipv6_magic_sum sa da len proto s : 0 <= len -> is_word 32 s ->
    (csum_ipv6_magic sa da len proto s + sum16 e sa + sum16 e da + sum16 e (enc BE 4 len) +
     sum16 e (enc BE 4 proto) + s) mod 65535 = 0;
  ipv6_magic_ones sa da len proto s : 0 <= len -> is_word 32 s ->
    0 < sum16 e sa + sum16 e da + sum16 e (enc BE 4 len) + sum16 e (enc BE 4 proto) + s ->
    csum_ipv6_magic sa da len proto s <> 65535;
  tcpudp_magic_word sa da len proto s : is_word 16 (csum_tcpudp_magic sa da len proto s);
  tcpudp_magic_sum sa da len proto s : 0 <= len -> is_word 32 s ->
    (csum_tcpudp_magic sa da len proto s + sum16 e sa + sum16 e da + sum16 e (enc BE 4 len) +
     sum16 e (enc BE 4 proto) + s) mod 65535 = 0;
  fast_word b : is_word 16 (ip_fast_csum b);
  fast_sum b : (ip_fast_csum b + sum16 e b) mod 65535 = 0;
  compute_word b : is_word 16 (ip_compute_csum b);
  compute_sum b : (ip_compute_csum b + sum16 e b) mod 65535 = 0 }.

(** ** Constants *)

Definition FRAG_BUFF_SIZE : Z := 1232.
Definition TRANSLATED_PREFIX : Z := 0x0000ffff.
Definition MAPPED_PREFIX : Z := 0x0000ffff.
Definition IP4_IP6_HDR_DIFF : Z := 20.
Definition IP6_FRAGMENT_SIZE : Z := 8.
Definition IP6F_OFF_MASK : Z := 0xfff8.
Definition IP6F_MORE_FRAG : Z := 0x0001.

(** From the headers of the kernel. *)
Definition IP_DF : Z := 0x4000.
Definition IP_MF : Z := 0x2000.
Definition IP_OFFSET : Z := 0x1fff.
Definition IPPROTO_ICMP : Z := 1.
Definition IPPROTO_TCP : Z := 6.
Definition IPPROTO_UDP : Z := 17.
Definition NEXTHDR_HOP : Z := 0.
Definition NEXTHDR_IPV6 : Z := 41.
Definition NEXTHDR_ROUTING : Z := 43.
Definition NEXTHDR_FRAGMENT : Z := 44.
Definition NEXTHDR_ESP : Z := 50.
Definition NEXTHDR_AUTH : Z := 51.
Definition NEXTHDR_ICMP : Z := 58.
Definition NEXTHDR_NONE : Z := 59.
Definition NEXTHDR_DEST : Z := 60.
Definition ETH_P_IP : Z := 0x0800.
Definition ETH_P_IPV6 : Z := 0x86dd.

(** ** Access to packets *)

(** [return -1]: the packet is dropped. *)
Definition drop_packet {A} : outcome A := Exit (-1).

Definition byte (m : list Z) (p : nat) : outcome Z := defined (m !! p).
Definition be16 (m : list Z) (p : nat) : outcome Z := bs ← defined (mem_read m p 2); Done (dec BE bs).
Definition be32 (m : list Z) (p : nat) : outcome Z := bs ← defined (mem_read m p 4); Done (dec BE bs).
Definition bytes (m : list Z) (p n : nat) : outcome (list Z) := defined (mem_read m p n).
Definition put (m : list Z) (p : nat) (bs : list Z) : outcome (list Z) := defined (mem_write m p bs).

(** [memcpy]; a negative size is a size beyond every buffer. *)
Definition copy (dst : list Z) (q : nat) (src : list Z) (p : nat) (n : Z) : outcome (list Z) :=
  if n <? 0 then Undef else bs ← bytes src p (Z.to_nat n); put dst q bs.

(** Work on the part of a buffer behind a pointer into it. *)
Definition behind {A} (dst : list Z) (q : nat) (f : list Z -> outcome (A * list Z)) : outcome (A * list Z) :=
  '(a, d) ← f (drop q dst); Done (a, take q dst ++ d).

Record iphdr := { ihl : Z; tos : Z; tot_len : Z; id : Z; frag_off : Z; ttl : Z; protocol : Z; check : Z;
  saddr : list Z; daddr : list Z }.

Definition read_iphdr (m : list Z) : outcome iphdr :=
  b ← byte m 0; tos ← byte m 1; len ← be16 m 2; id ← be16 m 4; off ← be16 m 6; ttl ← byte m 8;
  proto ← byte m 9; check ← be16 m 10; sa ← bytes m 12 4; da ← bytes m 16 4;
  Done {| ihl := Z.land b 15; tos := tos; tot_len := len; id := id; frag_off := off; ttl := ttl;
          protocol := proto; check := check; saddr := sa; daddr := da |}.

Record ipv6hdr := { priority : Z; flow_lbl : list Z; payload_len : Z; nexthdr : Z; hop_limit : Z;
  saddr6 : list Z; daddr6 : list Z }.

Definition read_ipv6hdr (m : list Z) : outcome ipv6hdr :=
  b ← byte m 0; fl ← bytes m 1 3; len ← be16 m 4; next ← byte m 6; hop ← byte m 7; sa ← bytes m 8 16; da ← bytes m 24 16;
  Done {| priority := Z.land b 15; flow_lbl := fl; payload_len := len; nexthdr := next; hop_limit := hop;
          saddr6 := sa; daddr6 := da |}.

(** The version is 6; [payload_len] is the argument of [htons]. *)
Definition ipv6_bytes (h : ipv6hdr) : list Z :=
  [96 + priority h] ++ flow_lbl h ++ enc BE 2 (u16 (payload_len h)) ++ [nexthdr h; hop_limit h] ++ saddr6 h ++ daddr6 h.

Section siit.
Context (e : endian) {CS : Csum} (tos_ignore_flag : bool).

(** ** IPv4 to IPv6 *)

Definition prefixed (prefix : Z) (addr : list Z) : list Z := replicate 8 0 ++ enc BE 4 prefix ++ addr.

Definition frag_hdr (ih4 : iphdr) : list Z :=
  [if protocol ih4 =? IPPROTO_ICMP then NEXTHDR_ICMP else protocol ih4; 0] ++
  enc BE 2 (Z.lor (Z.shiftl (Z.land (frag_off ih4) IP_OFFSET) 3) (Z.shiftr (Z.land (frag_off ih4) IP_MF) 13)) ++
  enc BE 4 (id ih4).

(** The type, the code and the fields behind the checksum of the ICMPv6 message at [q], from the ICMPv4 message
    at [h]; true for an error message. *)
Definition icmp_4_6 (src : list Z) (len hdr_len : Z) (h : nat) (dst : list Z) (q : nat) : outcome (bool * list Z) :=
  type ← byte src h;
  if type =? 3 then
    dst ← put dst q [1];
    dst ← put dst (q + 4) [0; 0; 0; 0];
    code ← byte src (h + 1);
    if bool_decide (code ∈ [0; 1; 5; 6; 7; 8; 11; 12]) then dst ← put dst (q + 1) [0]; Done (true, dst)
    else if code =? 2 then
      dst ← put dst q [4; 1]; dst ← put dst (q + 4) (enc BE 4 6); Done (true, dst)
    else if code =? 3 then dst ← put dst (q + 1) [4]; Done (true, dst)
    else if code =? 4 then
      dst ← put dst q [2; 0];
      mtu ← be16 src (h + 6);
      dst ← put dst (q + 4) (enc BE 4 (if mtu =? 0 then 576 else mtu + IP4_IP6_HDR_DIFF));
      Done (true, dst)
    else if (code =? 9) || (code =? 10) then dst ← put dst (q + 1) [1]; Done (true, dst)
    else drop_packet
  else if type =? 11 then
    code ← byte src (h + 1);
    dst ← put dst q [3; code]; Done (true, dst)
  else if type =? 12 then
    code ← byte src (h + 1);
    dst ← put dst q [4; code];
    icmp_ptr ← byte src (h + 4);
    dst ← put dst (q + 4)
      (if icmp_ptr =? 0 then enc BE 4 0 else if icmp_ptr =? 2 then enc BE 4 4 else if icmp_ptr =? 8 then enc BE 4 7
       else if icmp_ptr =? 9 then enc BE 4 6 else if icmp_ptr =? 12 then enc BE 4 8 else if icmp_ptr =? 16 then enc BE 4 24
       else [255; 255; 255; 255]);
    Done (true, dst)
  else if type =? 8 then
    dst ← put dst q [128; 0]; dst ← copy dst (q + 4) src (h + 4) (len - hdr_len - 4); Done (false, dst)
  else if type =? 0 then
    dst ← put dst q [129; 0]; dst ← copy dst (q + 4) src (h + 4) (len - hdr_len - 4); Done (false, dst)
  else drop_packet.

(** A fragment header is added unless the packet may not be fragmented. *)
Definition fr_flag (ih4 : iphdr) (include_flag : bool) : bool := negb ((frag_off ih4 =? IP_DF) || include_flag).
Definition fr_len (ih4 : iphdr) (include_flag : bool) : Z := if fr_flag ih4 include_flag then IP6_FRAGMENT_SIZE else 0.

Definition new_tot_len (ih4 : iphdr) (include_flag : bool) : Z :=
  if fr_flag ih4 include_flag then u16 (tot_len ih4 + IP6_FRAGMENT_SIZE) else tot_len ih4.

Definition ipv6_of (ih4 : iphdr) (include_flag : bool) : ipv6hdr :=
  {| priority := if tos_ignore_flag then 0 else Z.shiftr (Z.land (tos ih4) 0xf0) 4;
     flow_lbl := [if tos_ignore_flag then 0 else Z.shiftl (Z.land (tos ih4) 0x0f) 4; 0; 0];
     payload_len := new_tot_len ih4 include_flag - ihl ih4 * 4;
     nexthdr := if fr_flag ih4 include_flag then NEXTHDR_FRAGMENT else
                if protocol ih4 =? IPPROTO_ICMP then NEXTHDR_ICMP else protocol ih4;
     hop_limit := ttl ih4;
     saddr6 := prefixed (if include_flag then TRANSLATED_PREFIX else MAPPED_PREFIX) (saddr ih4);
     daddr6 := prefixed (if include_flag then MAPPED_PREFIX else TRANSLATED_PREFIX) (daddr ih4) |}.

(** [ip4_ip6]; [included] translates the packet inside an ICMP error message. *)
Definition ip4_ip6_with (included : list Z -> Z -> list Z -> outcome (unit * list Z))
    (src : list Z) (len : Z) (dst : list Z) (include_flag : bool) : outcome (list Z) :=
  ih4 ← read_iphdr src;
  let hdr_len := ihl ih4 * 4 in
  let h := Z.to_nat hdr_len in
  let plen := new_tot_len ih4 include_flag - hdr_len in
  let fr_len := fr_len ih4 include_flag in
  let ih6 := ipv6_of ih4 include_flag in
  let q := (40 + Z.to_nat fr_len)%nat in
  dst ← (if fr_flag ih4 include_flag then put dst 40 (frag_hdr ih4) else Done dst);
  dst ← put dst 0 (ipv6_bytes ih6);
  if protocol ih4 =? IPPROTO_ICMP then
    if negb (Z.land (frag_off ih4) IP_OFFSET =? 0) || negb (Z.land (frag_off ih4) IP_MF =? 0) then drop_packet else
    if include_flag then drop_packet else
    let icmp_len := tot_len ih4 - hdr_len in
    '(icmperr, dst) ← icmp_4_6 src len hdr_len h dst q;
    '(icmp_len, dst) ← (
      if (icmperr : bool) then
        '(_, dst) ← behind dst (q + 8) (included (drop (h + 8) src) (len - hdr_len - 8));
        dst ← put dst 4 (enc BE 2 (u16 (plen + 20)));
        Done (icmp_len + 20, dst)
      else Done (icmp_len, dst));
    dst ← put dst (q + 2) [0; 0];
    if icmp_len <? 0 then Undef else
    message ← bytes dst q (Z.to_nat icmp_len);
    put dst (q + 2) (enc e 2 (csum_ipv6_magic (saddr6 ih6) (daddr6 ih6) icmp_len NEXTHDR_ICMP (csum_partial message 0)))
  else if protocol ih4 =? IPPROTO_TCP then copy dst q src h (len - hdr_len)
  else if protocol ih4 =? IPPROTO_UDP then
    fl_csum ← (
      if Z.land (frag_off ih4) IP_OFFSET =? 0 then
        c ← be16 src (h + 6);
        if negb (Z.land (frag_off ih4) IP_MF =? 0) then if c =? 0 then drop_packet else Done false
        else Done (c =? 0)
      else Done false);
    dst ← copy dst q src h (len - hdr_len);
    if fl_csum && negb include_flag then
      dst ← put dst (q + 6) [0; 0];
      if plen - fr_len <? 0 then Undef else
      datagram ← bytes dst q (Z.to_nat (plen - fr_len));
      put dst (q + 6) (enc e 2 (csum_ipv6_magic (saddr6 ih6) (daddr6 ih6) (plen - fr_len) IPPROTO_UDP (csum_partial datagram 0)))
    else Done dst
  else drop_packet.

(** A packet inside an error message is not an ICMP message, so there is no further level. *)
Definition ip4_included (src : list Z) (len : Z) (dst : list Z) : outcome (unit * list Z) :=
  dst ← ip4_ip6_with (fun _ _ _ => drop_packet) src len dst true; Done (tt, dst).

Definition ip4_ip6 (src : list Z) (len : Z) (dst : list Z) : outcome (list Z) :=
  ip4_ip6_with ip4_included src len dst false.

(** ** IPv6 to IPv4 *)

(** What the extension headers leave: the bytes left, the bytes skipped, the next
    header, and the identification and fragment offset of the IPv4 header. *)
Record chain := Chain { len_delta : Z; opts_len : Z; next_hdr : Z; c_id : Z; c_frag_off : Z }.

(** [len_delta] is an [int]. *)
Definition int_ok (x : Z) : bool := (- 2 ^ 31 <=? x) && (x <? 2 ^ 31).

Definition hop_by_hop (src : list Z) (c : chain) : outcome chain :=
  if next_hdr c =? NEXTHDR_HOP then
    (* the difference with a sizeof is unsigned and never negative *)
    hdrlen ← byte src (40 + Z.to_nat (opts_len c) + 1);
    let delta := len_delta c - (hdrlen * 8 + 8) in
    if 0 <=? delta then
      next ← byte src (40 + Z.to_nat (opts_len c));
      Done (Chain delta (opts_len c + hdrlen * 8 + 8) next (c_id c) (c_frag_off c))
    else drop_packet
  else Done c.

Definition is_transport (n : Z) : bool := (n =? NEXTHDR_ICMP) || (n =? IPPROTO_TCP) || (n =? IPPROTO_UDP).

Fixpoint ext_loop (fuel : nat) (src : list Z) (c : chain) : outcome chain :=
  if is_transport (next_hdr c) then Done c else
  match fuel with
  | O => Undef
  | S fuel =>
      let p := (40 + Z.to_nat (opts_len c))%nat in
      if next_hdr c =? NEXTHDR_DEST then
        hdrlen ← byte src (p + 1);
        let delta := len_delta c - (hdrlen * 8 + 8) in
        if negb (int_ok delta) then Undef else
        if 0 <=? delta then
          next ← byte src p;
          ext_loop fuel src (Chain delta (opts_len c + hdrlen * 8 + 8) next (c_id c) (c_frag_off c))
        else ext_loop fuel src (Chain delta (opts_len c) (next_hdr c) (c_id c) (c_frag_off c))
      else if next_hdr c =? NEXTHDR_ROUTING then
        segments_left ← byte src (p + 3);
        if negb (segments_left =? 0) then drop_packet else
        hdrlen ← byte src (p + 1);
        let delta := len_delta c - (hdrlen * 8 + 8) in
        if 0 <=? delta then
          next ← byte src p;
          ext_loop fuel src (Chain delta (opts_len c + hdrlen * 8 + 8) next (c_id c) (c_frag_off c))
        else drop_packet
      else if next_hdr c =? NEXTHDR_FRAGMENT then
        let delta := len_delta c - 8 in
        if 0 <=? delta then
          ident ← be32 src (p + 4);
          off ← be16 src (p + 2);
          next ← byte src p;
          ext_loop fuel src (Chain delta (opts_len c + 8) next (u16 ident)
            (Z.lor (Z.shiftr (Z.land off IP6F_OFF_MASK) 3) (Z.shiftl (Z.land off IP6F_MORE_FRAG) 13)))
        else drop_packet
      else if next_hdr c =? NEXTHDR_NONE then Done c
      else drop_packet
  end.

(** The IPv4 header of twenty bytes, with a zero checksum. *)
Definition ip_bytes (tos tot_len id frag_off ttl protocol : Z) (sa da : list Z) : list Z :=
  [69; tos] ++ enc BE 2 (u16 tot_len) ++ enc BE 2 id ++ enc BE 2 frag_off ++ [ttl; protocol] ++ [0; 0] ++ sa ++ da.

(** [ip_hdr->check = 0; ip_hdr->check = ip_fast_csum(ip_hdr, 5)] *)
Definition header_checksum (dst : list Z) : outcome (list Z) :=
  dst ← put dst 10 [0; 0];
  h ← bytes dst 0 20;
  put dst 10 (enc e 2 (ip_fast_csum h)).

(** The ICMPv4 message at 20 from the ICMPv6 message at [p]; [delta] bytes follow its header. *)
Definition icmp_6_4 (src : list Z) (p : nat) (delta : Z) (dst : list Z) : outcome (bool * list Z) :=
  type ← byte src p;
  code ← byte src (p + 1);
  if type =? 1 then
    dst ← put dst 20 [3];
    dst ← put dst 24 [0; 0; 0; 0];
    if bool_decide (code ∈ [0; 2; 3]) then dst ← put dst 21 [1]; Done (true, dst)
    else if code =? 1 then dst ← put dst 21 [10]; Done (true, dst)
    else if code =? 4 then dst ← put dst 21 [3]; Done (true, dst)
    else drop_packet
  else if type =? 2 then
    dst ← put dst 20 [3; 4];
    mtu ← bytes src (p + 4) 4;
    dst ← put dst 26 (enc e 2 (u16 (dec e mtu))); Done (true, dst)
  else if type =? 3 then dst ← put dst 20 [11; code]; Done (true, dst)
  else if type =? 4 then
    if code =? 1 then dst ← put dst 20 [3; 2]; Done (true, dst)
    else
      dst ← put dst 20 [12; 0];
      pointer ← be32 src (p + 4);
      dst ← put dst 24 (enc e 2
        (if pointer =? 0 then 0 else if pointer =? 4 then 2 else if pointer =? 6 then 9 else if pointer =? 7 then 8
         else if pointer =? 8 then 12 else if pointer =? 24 then 16 else 255));
      Done (true, dst)
  else if (type =? 128) || (type =? 129) then
    dst ← put dst 20 [if type =? 128 then 8 else 0; 0];
    ids ← bytes src (p + 4) 4;
    dst ← put dst 24 ids;
    dst ← (if 0 <? delta then copy dst 28 src (p + 8) delta else Done dst);
    Done (false, dst)
  else drop_packet.

(** [ip6_ip4]: the result and the packet; for an included packet the result is [opts_len]. *)
Definition ip6_ip4_with (included : list Z -> Z -> list Z -> outcome (Z * list Z))
    (src : list Z) (len : Z) (dst : list Z) (include_flag : bool) : outcome (Z * list Z) :=
  if len - 40 <? 0 then drop_packet else
  ip6 ← read_ipv6hdr src;
  if negb (bool_decide (take 4 (drop 8 (saddr6 ip6)) = enc BE 4 (if include_flag then MAPPED_PREFIX else TRANSLATED_PREFIX)))
  then drop_packet else
  if negb (bool_decide (take 4 (drop 8 (daddr6 ip6)) = enc BE 4 (if include_flag then TRANSLATED_PREFIX else MAPPED_PREFIX)))
  then drop_packet else
  c ← hop_by_hop src (Chain (len - 40) 0 (nexthdr ip6) 0 0);
  c ← (if 0 <? len_delta c then ext_loop (S (length src)) src c else Done c);
  let tos := if tos_ignore_flag then 0 else Z.lor (Z.shiftl (priority ip6) 4) (Z.shiftr (nth 0 (flow_lbl ip6) 0) 4) in
  let ntot_len := if payload_len ip6 =? 0 then 0 else payload_len ip6 + IP4_IP6_HDR_DIFF - opts_len c in
  dst ← put dst 0 (ip_bytes tos ntot_len (c_id c) (c_frag_off c) (hop_limit ip6) (next_hdr c)
                     (drop 12 (saddr6 ip6)) (drop 12 (daddr6 ip6)));
  dst ← header_checksum dst;
  let p := (40 + Z.to_nat (opts_len c))%nat in
  '(real_len, dst) ← (
    if 0 <? len_delta c then
      if next_hdr c =? NEXTHDR_ICMP then
        let delta := len_delta c - 8 in
        if delta <? 0 then drop_packet else
        dst ← put dst 9 [IPPROTO_ICMP];
        type ← byte src p;
        if include_flag && negb (type =? 128) then drop_packet else
        '(icmperr, dst) ← icmp_6_4 src p delta dst;
        '(real_len, dst) ← (
          if (icmperr : bool) then
            if 40 <=? delta then
              '(inc_opts_len, dst) ← behind dst 28 (included (drop (p + 8) src) delta);
              dst ← (if negb (ntot_len =? 0) then put dst 2 (enc BE 2 (u16 (ntot_len - inc_opts_len - IP4_IP6_HDR_DIFF)))
                     else Done dst);
              Done (20 + delta + 8 - inc_opts_len - IP4_IP6_HDR_DIFF, dst)
            else if 0 <? delta then dst ← copy dst 28 src (p + 8) delta; Done (20 + delta + 8, dst)
            else Done (20 + delta + 8, dst)
          else Done (20 + delta + 8, dst));
        dst ← header_checksum dst;
        if negb (ntot_len =? 0) then
          dst ← put dst 22 [0; 0];
          tot ← be16 dst 2;
          if tot - 20 <? 0 then Undef else
          message ← bytes dst 20 (Z.to_nat (tot - 20));
          dst ← put dst 22 (enc e 2 (ip_compute_csum message));
          Done (real_len, dst)
        else Done (real_len, dst)
      else
        dst ← copy dst 20 src p (len_delta c);
        Done (20 + len_delta c, dst)
    else Done (20, dst));
  Done (if include_flag then opts_len c else real_len, dst).

(** Inside an error message only an echo request is translated, which is no error message. *)
Definition ip6_included (src : list Z) (len : Z) (dst : list Z) : outcome (Z * list Z) :=
  ip6_ip4_with (fun _ _ _ => drop_packet) src len dst true.

Definition ip6_ip4 (src : list Z) (len : Z) (dst : list Z) : outcome (Z * list Z) :=
  ip6_ip4_with ip6_included src len dst false.

(** ** The device *)

(** [dev_alloc_skb], by the number of the call and the size: the bytes of the new buffer.
    [stack] and [array] are what [new_packet_buff] and [buff] hold on entry. *)
Context (dev_alloc_skb : nat -> Z -> option (list Z)) (stack : list Z) (array : Z -> list Z).

(** A packet handed to [netif_rx]. *)
Record packet := Packet { p_mac : list Z; p_protocol : Z; p_data : list Z }.

Record siit_dev := Dev { rx_bytes : Z; rx_packets : Z; tx_bytes : Z; tx_packets : Z; tx_errors : Z;
  rx_errors : Z; rx_dropped : Z; allocs : nat; received : list packet }.

Definition add_rx d n := Dev (rx_bytes d + n) (rx_packets d + 1) (tx_bytes d) (tx_packets d) (tx_errors d) (rx_errors d) (rx_dropped d) (allocs d) (received d).
Definition add_tx_error d := Dev (rx_bytes d) (rx_packets d) (tx_bytes d) (tx_packets d) (tx_errors d + 1) (rx_errors d) (rx_dropped d) (allocs d) (received d).
Definition add_rx_error d := Dev (rx_bytes d) (rx_packets d) (tx_bytes d) (tx_packets d) (tx_errors d) (rx_errors d + 1) (rx_dropped d) (allocs d) (received d).
Definition add_rx_dropped d := Dev (rx_bytes d) (rx_packets d) (tx_bytes d) (tx_packets d) (tx_errors d) (rx_errors d) (rx_dropped d + 1) (allocs d) (received d).
Definition add_alloc d := Dev (rx_bytes d) (rx_packets d) (tx_bytes d) (tx_packets d) (tx_errors d) (rx_errors d) (rx_dropped d) (S (allocs d)) (received d).

(** The counters and [netif_rx]; the protocol in the Ethernet header is changed. *)
Definition deliver (mac : list Z) (proto : Z) (data : list Z) d :=
  Dev (rx_bytes d) (rx_packets d) (tx_bytes d + Z.of_nat (length data)) (tx_packets d + 1) (tx_errors d) (rx_errors d) (rx_dropped d)
    (allocs d) (received d ++ [Packet (take 12 mac ++ enc BE 2 proto) proto data]).

(** The header of a fragment in [buff]. *)
Definition frag_header (buff : list Z) (hdr_len new_id off tot : Z) : outcome (list Z) :=
  buff ← put buff 4 (enc BE 2 new_id);
  buff ← put buff 6 (enc BE 2 off);
  buff ← put buff 2 (enc BE 2 (u16 tot));
  buff ← put buff 10 [0; 0];
  h ← bytes buff 0 (Z.to_nat hdr_len);
  put buff 10 (enc e 2 (ip_fast_csum h)).

(** The loop of [ip4_fragment], with the result of the function. *)
Fixpoint frag_loop (fuel : nat) (mac data : list Z) (hdr_len new_id : Z) (flag_last_mf : bool)
    (cur : nat) (rest_len frag_offset : Z) (buff : list Z) (d : siit_dev) : outcome (Z * siit_dev) :=
  match fuel with
  | O => Undef
  | S fuel =>
      let last_frag := rest_len <=? FRAG_BUFF_SIZE in
      let frag_len := if last_frag then rest_len else FRAG_BUFF_SIZE in
      buff ← copy buff 0 data 0 hdr_len;
      buff ← copy buff (Z.to_nat hdr_len) data cur frag_len;
      buff ← frag_header buff hdr_len new_id
        (if last_frag && flag_last_mf then Z.ldiff frag_offset IP_MF else Z.lor frag_offset IP_MF) (frag_len + hdr_len);
      match dev_alloc_skb (allocs d) (frag_len + hdr_len + 14 + IP4_IP6_HDR_DIFF + IP6_FRAGMENT_SIZE) with
      | None => Done (-1, add_alloc d)
      | Some m =>
          let d := add_alloc d in
          match ip4_ip6 buff (frag_len + hdr_len) (drop 14 m) with
          | Undef => Undef
          | Exit _ => Done (-1, d)
          | Done skb2 =>
              let d := deliver mac ETH_P_IPV6 skb2 d in
              if last_frag then Done (0, d)
              else frag_loop fuel mac data hdr_len new_id flag_last_mf (cur + Z.to_nat frag_len) (rest_len - frag_len)
                     (u16 ((frag_offset * 8 + frag_len) / 8)) buff d
          end
      end
  end.

(** The checksum of a UDP datagram that has none, or [None] when the packet is dropped. *)
Definition fragment_udp (ih4 : iphdr) (data : list Z) (h : nat) (flag_last_mf : bool) : outcome (option (list Z)) :=
  if (protocol ih4 =? IPPROTO_UDP) && (Z.land (frag_off ih4) IP_OFFSET =? 0) then
    c ← be16 data (h + 6);
    if negb flag_last_mf then Done (if c =? 0 then None else Some data)
    else if c =? 0 then
      udp_len ← be16 data (h + 4);
      datagram ← bytes data h (Z.to_nat udp_len);
      data ← put data (h + 6) (enc e 2 (csum_tcpudp_magic (saddr ih4) (daddr ih4) udp_len IPPROTO_UDP (csum_partial datagram 0)));
      Done (Some data)
    else Done (Some data)
  else Done (Some data).

Definition ip4_fragment (mac data : list Z) (len hdr_len : Z) (d : siit_dev) : outcome (Z * siit_dev) :=
  ih4 ← read_iphdr data;
  let flag_last_mf := Z.land (frag_off ih4) IP_MF =? 0 in
  r ← fragment_udp ih4 data (Z.to_nat hdr_len) flag_last_mf;
  match r with
  | None => Done (-1, d)
  | Some data =>
      frag_loop (S (length data)) mac data hdr_len (id ih4) flag_last_mf (Z.to_nat hdr_len) (len - hdr_len)
        (Z.land (frag_off ih4) IP_OFFSET) (array (FRAG_BUFF_SIZE + hdr_len)) d
  end.

Definition xmit_ipv4 (mac data : list Z) (d : siit_dev) : outcome siit_dev :=
  ih4 ← read_iphdr data;
  let len := Z.of_nat (length data) in
  if negb (len =? tot_len ih4) then Done (add_tx_error d) else
  let hdr_len := ihl ih4 * 4 in
  if (Z.land (frag_off ih4) IP_DF =? 0) && (FRAG_BUFF_SIZE <? len - hdr_len) then
    '(r, d) ← ip4_fragment mac data len hdr_len d;
    Done (if r =? -1 then add_tx_error d else d)
  else
    let skb_delta := if frag_off ih4 =? IP_DF then IP4_IP6_HDR_DIFF else IP4_IP6_HDR_DIFF + IP6_FRAGMENT_SIZE in
    skb_delta ← (
      if protocol ih4 =? IPPROTO_ICMP then
        type ← byte data (Z.to_nat hdr_len);
        Done (if negb (type =? 8) && negb (type =? 0) then skb_delta + IP4_IP6_HDR_DIFF else skb_delta)
      else Done skb_delta);
    match dev_alloc_skb (allocs d) (len + 14 + skb_delta) with
    | None => Done (add_rx_dropped (add_alloc d))
    | Some m =>
        let d := add_alloc d in
        match ip4_ip6 data len (drop 14 m) with
        | Undef => Undef
        | Exit _ => Done (add_rx_error d)
        | Done skb2 => Done (deliver mac ETH_P_IPV6 skb2 d)
        end
    end.

Definition xmit_ipv6 (mac data : list Z) (d : siit_dev) : outcome siit_dev :=
  match ip6_ip4 data (Z.of_nat (length data)) stack with
  | Undef => Undef
  | Exit _ => Done (add_rx_dropped d)
  | Done (new_packet_len, buff) =>
      match dev_alloc_skb (allocs d) (new_packet_len + 14) with
      | None => Done (add_rx_dropped (add_alloc d))
      | Some m =>
          skb2 ← copy (drop 14 m) 0 buff 0 new_packet_len;
          Done (deliver mac ETH_P_IP skb2 (add_alloc d))
      end
  end.

(** [siit_xmit] for a frame of the IP layer: its Ethernet header, the protocol of the
    buffer and the packet. *)
Definition siit_xmit (mac : list Z) (proto : Z) (data : list Z) (d : siit_dev) : outcome siit_dev :=
  let d := add_rx d (Z.of_nat (length mac + length data)) in
  if proto =? ETH_P_IP then xmit_ipv4 mac data d
  else if proto =? ETH_P_IPV6 then xmit_ipv6 mac data d
  else Done d.

End siit.
