(* ===== verification/SiitFacts.v ===== *)
(** * Packets as bytes

    Reading and writing headers, the translation of a packet as an equation between byte strings,
    and the arithmetic of checksums. *)

From stdpp Require Import options.
From S2P Require Import Prelude Siit.

Set Default Proof Using "Type*".

(** ** Buffers *)

Lemma put_app a b b' c p : p = length a -> length b = length b' -> put (a ++ b ++ c) p b' = Done (a ++ b' ++ c).
Proof.
  intros -> Hl. unfold put, mem_write. rewrite decide_True by (rewrite !length_app; lia). cbn [defined].
  rewrite take_app_length, drop_app, drop_ge by lia. simpl. do 3 f_equal.
  replace (length a + length b' - length a)%nat with (length b) by lia. apply drop_app_length.
Qed.

Lemma put_head b b' c : length b = length b' -> put (b ++ c) 0 b' = Done (b' ++ c).
Proof. by apply (put_app []). Qed.

Lemma bytes_eq m p n : (p + n <= length m)%nat -> bytes m p n = Done (take n (drop p m)).
Proof. intros. unfold bytes, mem_read. by rewrite decide_True by lia. Qed.

Lemma split3 (m : list Z) n k : (n + k <= length m)%nat ->
  exists a b c, m = a ++ b ++ c /\ length a = n /\ length b = k /\ c = drop (n + k) m.
Proof.
  intros Hl. exists (take n m), (take k (drop n m)), (drop (n + k) m).
  rewrite <- drop_drop, take_drop, take_drop, !length_take, length_drop. split_and!; [done|lia|lia|done].
Qed.

Lemma be16_eq m p : (p + 2 <= length m)%nat -> be16 m p = Done (dec BE (take 2 (drop p m))).
Proof. intros. unfold be16, mem_read. by rewrite decide_True by lia. Qed.

Lemma be32_eq m p : (p + 4 <= length m)%nat -> be32 m p = Done (dec BE (take 4 (drop p m))).
Proof. intros. unfold be32, mem_read. by rewrite decide_True by lia. Qed.

Lemma bytes_app a b c p n : p = length a -> n = length b -> bytes (a ++ b ++ c) p n = Done b.
Proof.
  intros -> ->. rewrite bytes_eq by (rewrite !length_app; lia).
  by rewrite drop_app_length, take_app_length.
Qed.

(** [copy] of the end of a packet over the middle of a buffer. *)
Lemma copy_app a b c q src s1 data s2 p n :
  src = s1 ++ data ++ s2 -> p = length s1 -> n = Z.of_nat (length data) -> q = length a -> length b = length data ->
  copy (a ++ b ++ c) q src p n = Done (a ++ data ++ c).
Proof.
  intros -> -> -> Hq Hb. unfold copy. rewrite (proj2 (Z.ltb_ge _ _)) by lia.
  rewrite (bytes_app s1 data s2) by lia. cbn [mbind outcome_bind]. by apply put_app.
Qed.

Lemma enc_be2 v : enc BE 2 v = [(v / 256) mod 256; v mod 256].
Proof. done. Qed.

Lemma dec2 v : is_word 16 v -> dec BE [(v / 256) mod 256; v mod 256] = v.
Proof. intros Hv. change [_; _] with (enc BE 2 v). rewrite dec_enc. by apply Z.mod_small. Qed.

Lemma dec4 v : is_word 32 v -> dec BE (enc BE 4 v) = v.
Proof. intros Hv. rewrite dec_enc. by apply Z.mod_small. Qed.

(** ** Headers *)

(** The bytes of an IPv4 header without options, and of one with the options [opts]. *)
Definition ip4_bytes (h : iphdr) : list Z :=
  [64 + ihl h; tos h] ++ enc BE 2 (tot_len h) ++ enc BE 2 (id h) ++ enc BE 2 (frag_off h) ++ [ttl h; protocol h] ++
  enc BE 2 (check h) ++ saddr h ++ daddr h.

Record hdr_ok (h : iphdr) : Prop := {
  ok_ihl : is_word 4 (ihl h);
  ok_tos : is_word 8 (tos h);
  ok_tot : is_word 16 (tot_len h);
  ok_id : is_word 16 (id h);
  ok_frag : is_word 16 (frag_off h);
  ok_ttl : is_word 8 (ttl h);
  ok_proto : is_word 8 (protocol h);
  ok_check : is_word 16 (check h);
  ok_saddr : length (saddr h) = 4%nat;
  ok_daddr : length (daddr h) = 4%nat }.

Lemma length4 (l : list Z) : length l = 4%nat -> exists a b c d, l = [a; b; c; d].
Proof. intros Hl. destruct l as [|a [|b [|c [|d [|]]]]]; try discriminate. by exists a, b, c, d. Qed.

Lemma length_ip4_bytes h : hdr_ok h -> length (ip4_bytes h) = 20%nat.
Proof.
  intros [_ _ _ _ _ _ _ _ Hs Hd]. unfold ip4_bytes. rewrite !length_app, !length_enc, Hs, Hd. done.
Qed.

Lemma low_nibble n k : is_word 4 k -> Z.land (16 * n + k) 15 = k.
Proof.
  intros [? ?]. change 15 with (Z.ones 4). rewrite Z.land_ones by lia. change (2 ^ 4) with 16 in *.
  rewrite Z.add_comm, Z.mul_comm, Z_mod_plus_full. by apply Z.mod_small.
Qed.

Lemma read_iphdr_bytes h rest : hdr_ok h -> read_iphdr (ip4_bytes h ++ rest) = Done h.
Proof.
  destruct h as [hl ts tl i fo tt pr ck sa da]. intros [Hi Ht Htl Hid Hf Htt Hp Hc Hs Hd]. cbn [ihl tos tot_len id frag_off ttl protocol check saddr daddr] in *.
  destruct (length4 sa Hs) as (s1 & s2 & s3 & s4 & ->). destruct (length4 da Hd) as (d1 & d2 & d3 & d4 & ->).
  unfold ip4_bytes. cbn [ihl tos tot_len id frag_off ttl protocol check saddr daddr]. rewrite !enc_be2.
  rewrite <- !app_assoc. cbn [app]. unfold read_iphdr, byte. cbn [lookup list_lookup defined mbind outcome_bind].
  rewrite !be16_eq, !bytes_eq by (cbn [length]; lia). cbn [take drop mbind outcome_bind]. rewrite !dec2 by done.
  by rewrite (low_nibble 4).
Qed.

(** ** IPv4 to IPv6 *)

Section to_ipv6.
Context (e : endian) {CS : Csum} (tos_ignore_flag : bool).

(** What [ip4_ip6] puts behind the IPv6 header. *)
Definition frag_bytes (h : iphdr) (inc : bool) : list Z := if fr_flag h inc then frag_hdr h else [].

Lemma length_frag_bytes h inc : Z.of_nat (length (frag_bytes h inc)) = fr_len h inc.
Proof.
  unfold frag_bytes, fr_len. destruct (fr_flag h inc); [|done]. unfold frag_hdr.
  by rewrite !length_app, !length_enc.
Qed.

Lemma length_ipv6_bytes h inc : hdr_ok h -> length (ipv6_bytes (ipv6_of tos_ignore_flag h inc)) = 40%nat.
Proof.
  intros [_ _ _ _ _ _ _ _ Hs Hd]. unfold ipv6_bytes, prefixed.
  cbn [ipv6_of priority flow_lbl payload_len nexthdr hop_limit saddr6 daddr6].
  unfold prefixed. rewrite !length_app, !length_enc, Hs, Hd. done.
Qed.

(** The headers are written over the start of the buffer. *)
Lemma headers_written {B} h inc dst (K : list Z -> outcome B) : hdr_ok h ->
  (40 + length (frag_bytes h inc) <= length dst)%nat ->
  (d ← (if fr_flag h inc then put dst 40 (frag_hdr h) else Done dst);
   d ← put d 0 (ipv6_bytes (ipv6_of tos_ignore_flag h inc)); K d) =
  K (ipv6_bytes (ipv6_of tos_ignore_flag h inc) ++ frag_bytes h inc ++ drop (40 + length (frag_bytes h inc)) dst).
Proof.
  intros Hh Hd. pose proof (length_ipv6_bytes h inc Hh) as H6.
  destruct (split3 dst 40 (length (frag_bytes h inc)) Hd) as (a & b & c & Hdst & Ha & Hb & <-).
  assert ((if fr_flag h inc then put dst 40 (frag_hdr h) else Done dst) = Done (a ++ frag_bytes h inc ++ c)) as ->.
  { subst dst. unfold frag_bytes in *. destruct (fr_flag h inc); [by apply put_app|].
    by apply nil_length_inv in Hb as ->. }
  cbn [mbind outcome_bind]. by rewrite put_head by lia.
Qed.

(** The segment or datagram is copied as it is. *)
Definition plain (h : iphdr) (data : list Z) : Prop :=
  protocol h = IPPROTO_TCP \/
  (protocol h = IPPROTO_UDP /\
   (Z.land (frag_off h) IP_OFFSET <> 0 \/ ((8 <= length data)%nat /\ dec BE (take 2 (drop 6 data)) <> 0))).

(** A packet with its options. *)
Record packet_ok (h : iphdr) (opts data : list Z) : Prop := {
  pk_hdr : hdr_ok h;
  pk_opts : Z.of_nat (length opts) = ihl h * 4 - 20;
  pk_tot : tot_len h = ihl h * 4 + Z.of_nat (length data) }.

Definition packet4 (h : iphdr) (opts data : list Z) : list Z := ip4_bytes h ++ opts ++ data.

Lemma length_packet4 h opts data : packet_ok h opts data -> Z.of_nat (length (packet4 h opts data)) = tot_len h.
Proof.
  intros [Hh Ho Ht]. unfold packet4. rewrite !length_app, length_ip4_bytes by done. lia.
Qed.

(** The start of the transport header in the packet. *)
Lemma packet4_split h opts data s2 : packet_ok h opts data ->
  packet4 h opts data ++ s2 = (ip4_bytes h ++ opts) ++ data ++ s2 /\
  Z.to_nat (ihl h * 4) = length (ip4_bytes h ++ opts).
Proof.
  intros [Hh Ho Ht]. unfold packet4. rewrite <- !app_assoc. split; [done|].
  rewrite length_app, length_ip4_bytes by done. lia.
Qed.

Lemma be16_data a data s2 k : (k + 2 <= length data)%nat ->
  be16 (a ++ data ++ s2) (length a + k) = Done (dec BE (take 2 (drop k data))).
Proof.
  intros Hk. rewrite be16_eq by (rewrite !length_app; lia).
  rewrite <- drop_drop, drop_app_length, drop_app_le, take_app_le by (rewrite ?length_drop; lia). done.
Qed.

(** The payload is copied behind the headers. *)
Lemma copy_payload h opts data s2 inc dst : packet_ok h opts data ->
  (40 + length (frag_bytes h inc) + length data <= length dst)%nat ->
  copy (ipv6_bytes (ipv6_of tos_ignore_flag h inc) ++ frag_bytes h inc ++ drop (40 + length (frag_bytes h inc)) dst)
    (40 + Z.to_nat (fr_len h inc)) (packet4 h opts data ++ s2) (Z.to_nat (ihl h * 4)) (tot_len h - ihl h * 4) =
  Done (ipv6_bytes (ipv6_of tos_ignore_flag h inc) ++ frag_bytes h inc ++ data ++
        drop (40 + length (frag_bytes h inc) + length data) dst).
Proof.
  intros Hp Hd. pose proof Hp as [Hh Ho Ht]. destruct (packet4_split h opts data s2 Hp) as [Hsrc Hhl].
  pose proof (length_frag_bytes h inc) as Hfl. set (f := frag_bytes h inc) in *. set (b6 := ipv6_bytes _).
  assert (length b6 = 40%nat) as H6 by by apply length_ipv6_bytes.
  destruct (split3 (drop (40 + length f) dst) 0 (length data)) as (a & b & c & Hdst & Ha & Hb & Hc); [rewrite length_drop; lia|].
  apply nil_length_inv in Ha as ->. rewrite drop_drop in Hc. cbn [app] in Hdst.
  change (0 + length data)%nat with (length data) in Hc. rewrite Hdst, <- Hc, !(app_assoc b6).
  apply (copy_app (b6 ++ f) b c _ _ (ip4_bytes h ++ opts) data s2); [done..|lia| |done].
  rewrite length_app. lia.
Qed.

Lemma read_packet4 h opts data s2 : packet_ok h opts data -> read_iphdr (packet4 h opts data ++ s2) = Done h.
Proof. intros [Hh _ _]. unfold packet4. rewrite <- !app_assoc. by apply read_iphdr_bytes. Qed.

Lemma ip4_ip6_plain included h opts data s2 inc dst : packet_ok h opts data -> plain h data ->
  (40 + length (frag_bytes h inc) + length data <= length dst)%nat ->
  ip4_ip6_with e tos_ignore_flag included (packet4 h opts data ++ s2) (tot_len h) dst inc =
  Done (ipv6_bytes (ipv6_of tos_ignore_flag h inc) ++ frag_bytes h inc ++ data ++
        drop (40 + length (frag_bytes h inc) + length data) dst).
Proof.
  intros Hp Hpl Hd. pose proof Hp as [Hh Ho Ht]. unfold ip4_ip6_with. rewrite (read_packet4 h opts) by done.
  cbn [mbind outcome_bind]. rewrite headers_written by (done || lia).
  pose proof (copy_payload h opts data s2 inc dst Hp Hd) as Hcopy.
  destruct (packet4_split h opts data s2 Hp) as [Hsrc Hhl].
  set (f := frag_bytes h inc) in *. set (b6 := ipv6_bytes _) in *.
  destruct Hpl as [Hpr|[Hpr Hor]]; rewrite Hpr.
  { change (IPPROTO_TCP =? IPPROTO_ICMP) with false. change (IPPROTO_TCP =? IPPROTO_TCP) with true. cbn iota. exact Hcopy. }
  change (IPPROTO_UDP =? IPPROTO_ICMP) with false. change (IPPROTO_UDP =? IPPROTO_TCP) with false.
  change (IPPROTO_UDP =? IPPROTO_UDP) with true. cbn iota.
  destruct (Z.land (frag_off h) IP_OFFSET =? 0) eqn:Hoff.
  - destruct Hor as [Hn|[Hl Hc]]; [b2p; done|].
    rewrite Hsrc at 1. rewrite Hhl at 1. rewrite be16_data by lia. cbn [mbind outcome_bind].
    rewrite (proj2 (Z.eqb_neq _ _) Hc). destruct (Z.land (frag_off h) IP_MF =? 0); cbn [negb mbind outcome_bind]; rewrite Hcopy; done.
  - cbn [mbind outcome_bind]. by rewrite Hcopy.
Qed.

Lemma put_data a data c k bs : (k + length bs <= length data)%nat ->
  put (a ++ data ++ c) (length a + k) bs = Done (a ++ (take k data ++ bs ++ drop (k + length bs) data) ++ c).
Proof.
  intros Hk. destruct (split3 data k (length bs) Hk) as (d1 & d2 & d3 & -> & <- & Hd2 & <-).
  rewrite take_app_length, <- !app_assoc, (app_assoc a d1), (app_assoc a d1 (bs ++ _)).
  apply put_app; [by rewrite length_app|done].
Qed.

Lemma plen_whole h opts data : packet_ok h opts data -> tot_len h + 8 < 2 ^ 16 ->
  new_tot_len h false - ihl h * 4 - fr_len h false = Z.of_nat (length data).
Proof.
  intros [[Hi _ _ _ _ _ _ _ _ _] Ho Ht] Hs. unfold new_tot_len, fr_len, u16, IP6_FRAGMENT_SIZE. unfold is_word in Hi.
  destruct (fr_flag h false); [|lia]. rewrite wrap_small by (unfold is_word; lia). lia.
Qed.

(** A datagram without a checksum gets one. *)
Definition udp_summed (h : iphdr) (data : list Z) : list Z :=
  take 6 data ++ enc e 2 (csum_ipv6_magic (prefixed MAPPED_PREFIX (saddr h)) (prefixed TRANSLATED_PREFIX (daddr h))
    (Z.of_nat (length data)) IPPROTO_UDP (csum_partial (take 6 data ++ [0; 0] ++ drop 8 data) 0)) ++ drop 8 data.

Lemma ip4_ip6_udp0 included h opts data s2 dst : packet_ok h opts data -> tot_len h + 8 < 2 ^ 16 ->
  protocol h = IPPROTO_UDP -> Z.land (frag_off h) IP_OFFSET = 0 -> Z.land (frag_off h) IP_MF = 0 ->
  (8 <= length data)%nat -> dec BE (take 2 (drop 6 data)) = 0 ->
  (40 + length (frag_bytes h false) + length data <= length dst)%nat ->
  ip4_ip6_with e tos_ignore_flag included (packet4 h opts data ++ s2) (tot_len h) dst false =
  Done (ipv6_bytes (ipv6_of tos_ignore_flag h false) ++ frag_bytes h false ++ udp_summed h data ++
        drop (40 + length (frag_bytes h false) + length data) dst).
Proof.
  intros Hp Hs Hpr Hoff Hmf H8 Hck Hd. pose proof Hp as [Hh Ho Ht]. unfold ip4_ip6_with. rewrite (read_packet4 h opts) by done.
  cbn [mbind outcome_bind]. rewrite headers_written by (done || lia).
  rewrite (plen_whole h opts data Hp Hs), (proj2 (Z.ltb_ge _ _)) by lia.
  pose proof (copy_payload h opts data s2 false dst Hp ltac:(lia)) as Hcopy.
  destruct (packet4_split h opts data s2 Hp) as [Hsrc Hhl]. pose proof (length_frag_bytes h false) as Hfl.
  set (f := frag_bytes h false) in *. set (b6 := ipv6_bytes _) in *.
  assert (length b6 = 40%nat) as H6 by by apply length_ipv6_bytes.
  rewrite Hpr, Hoff, Hmf. change (IPPROTO_UDP =? IPPROTO_ICMP) with false. change (IPPROTO_UDP =? IPPROTO_TCP) with false.
  change (IPPROTO_UDP =? IPPROTO_UDP) with true. change (0 =? 0) with true. cbn iota.
  rewrite Hsrc at 1. rewrite Hhl at 1. rewrite be16_data, Hck by lia. cbn [mbind outcome_bind negb Z.eqb andb].
  rewrite Hcopy. cbn [mbind outcome_bind]. replace (40 + Z.to_nat (fr_len h false))%nat with (length (b6 ++ f)) by (rewrite length_app; lia).
  rewrite !(app_assoc b6 f), put_data by (cbn [length]; lia). cbn [mbind outcome_bind length]. change (6 + 2)%nat with 8%nat.
  rewrite bytes_app; [|done|rewrite !length_app, length_take, length_drop; cbn [length]; lia]. cbn [mbind outcome_bind].
  rewrite put_data by (rewrite length_enc, !length_app, length_take, length_drop; cbn [length]; lia). rewrite length_enc. change (6 + 2)%nat with 8%nat.
  unfold udp_summed. rewrite !take_app_le, (take_ge (take 6 data)) by (rewrite ?length_take; lia). do 4 f_equal.
  f_equal. rewrite (app_assoc (take 6 data)). apply drop_app_length'. rewrite length_app, length_take. cbn [length]. lia.
Qed.

(** An echo message gets the type and the checksum of ICMPv6. *)
Definition echo6 (h : iphdr) (type : Z) (body : list Z) : list Z :=
  [type; 0] ++ enc e 2 (csum_ipv6_magic (prefixed MAPPED_PREFIX (saddr h)) (prefixed TRANSLATED_PREFIX (daddr h))
    (Z.of_nat (4 + length body)) NEXTHDR_ICMP (csum_partial ([type; 0; 0; 0] ++ body) 0)) ++ body.

Definition echo_type (t : Z) : Z := if t =? 8 then 128 else 129.

Lemma icmp_echo src len hdr_len s1 t x body s2 a w0 w1 w2 w3 xb c :
  src = s1 ++ (t :: x ++ body) ++ s2 -> length x = 3%nat -> t = 8 \/ t = 0 -> len - hdr_len = Z.of_nat (4 + length body) ->
  length xb = length body ->
  icmp_4_6 src len hdr_len (length s1) (a ++ (w0 :: w1 :: w2 :: w3 :: xb) ++ c) (length a) =
  Done (false, a ++ (echo_type t :: 0 :: w2 :: w3 :: body) ++ c).
Proof using Type.
  intros Hsrc Hx Ht Hlen Hb. unfold icmp_4_6, byte.
  assert (src !! length s1 = Some t) as -> by (by rewrite Hsrc, lookup_app_r, Nat.sub_diag by lia).
  cbn [defined mbind outcome_bind].
  assert (forall t', (d ← put (a ++ (w0 :: w1 :: w2 :: w3 :: xb) ++ c) (length a) [t'; 0];
    d ← copy d (length a + 4) src (length s1 + 4) (len - hdr_len - 4); Done (false, d)) =
    Done (false, a ++ (t' :: 0 :: w2 :: w3 :: body) ++ c)) as Hrun.
  { intros t'. change ((w0 :: w1 :: w2 :: w3 :: xb) ++ c) with ([w0; w1] ++ (w2 :: w3 :: xb) ++ c).
    rewrite put_app by done. cbn [mbind outcome_bind].
    change ([t'; 0] ++ (w2 :: w3 :: xb) ++ c) with ([t'; 0; w2; w3] ++ xb ++ c). rewrite app_assoc.
    rewrite (copy_app _ xb c _ _ (s1 ++ t :: x) body s2); [by rewrite <- app_assoc|..].
    - rewrite Hsrc, <- app_assoc. cbn [app]. by rewrite <- app_assoc.
    - rewrite length_app. simpl. lia.
    - lia.
    - by rewrite length_app.
    - done. }
  destruct Ht as [-> | ->]; [apply (Hrun 128)|apply (Hrun 129)].
Qed.

Lemma ip4_ip6_echo included h opts t x body s2 dst : packet_ok h opts (t :: x ++ body) -> length x = 3%nat -> t = 8 \/ t = 0 ->
  protocol h = IPPROTO_ICMP -> Z.land (frag_off h) IP_OFFSET = 0 -> Z.land (frag_off h) IP_MF = 0 ->
  (40 + length (frag_bytes h false) + (4 + length body) <= length dst)%nat ->
  ip4_ip6_with e tos_ignore_flag included (packet4 h opts (t :: x ++ body) ++ s2) (tot_len h) dst false =
  Done (ipv6_bytes (ipv6_of tos_ignore_flag h false) ++ frag_bytes h false ++ echo6 h (echo_type t) body ++
        drop (40 + length (frag_bytes h false) + (4 + length body)) dst).
Proof.
  intros Hp Hx Hty Hpr Hoff Hmf Hd. pose proof Hp as [Hh Ho Ht]. unfold ip4_ip6_with. rewrite (read_packet4 h opts) by done.
  cbn [mbind outcome_bind]. rewrite headers_written by (done || lia).
  destruct (packet4_split h opts (t :: x ++ body) s2 Hp) as [Hsrc Hhl]. pose proof (length_frag_bytes h false) as Hfl.
  set (f := frag_bytes h false) in *. set (b6 := ipv6_bytes _) in *.
  assert (length b6 = 40%nat) as H6 by by apply length_ipv6_bytes.
  assert (tot_len h - ihl h * 4 = Z.of_nat (4 + length body)) as Hlen by (rewrite Ht; simpl; rewrite length_app; lia).
  rewrite Hpr, Hoff, Hmf. change (IPPROTO_ICMP =? IPPROTO_ICMP) with true. cbn [negb orb Z.eqb]. cbn iota.
  destruct (split3 (drop (40 + length f) dst) 4 (length body)) as (w & xb & c & Hdst & Hw & Hxb & Hc); [rewrite length_drop; lia|].
  destruct (length4 w Hw) as (w0 & w1 & w2 & w3 & ->). rewrite drop_drop in Hc.
  replace (40 + Z.to_nat (fr_len h false))%nat with (length (b6 ++ f)) by (rewrite length_app; lia).
  rewrite Hdst, <- Hc, !(app_assoc b6 f), Hhl.
  change ([w0; w1; w2; w3] ++ xb ++ c) with ((w0 :: w1 :: w2 :: w3 :: xb) ++ c).
  rewrite (icmp_echo _ _ _ (ip4_bytes h ++ opts) t x body s2 (b6 ++ f)) by (done || (cbn [length] in *; lia)). cbn [mbind outcome_bind].
  rewrite Hlen, (proj2 (Z.ltb_ge _ _)) by lia. rewrite put_data by (cbn [length]; lia).
  cbn [mbind outcome_bind length take drop app Nat.add]. rewrite Nat2Z.id.
  rewrite drop_0. change (echo_type t :: 0 :: 0 :: 0 :: body ++ c) with ((echo_type t :: 0 :: 0 :: 0 :: body) ++ c).
  rewrite bytes_app by done. cbn [mbind outcome_bind]. rewrite put_data by (rewrite length_enc; cbn [length]; lia).
  rewrite length_enc. cbn [take drop app Nat.add]. rewrite drop_0. done.
Qed.
End to_ipv6.

(** ** Ones' complement sums *)

Lemma sum16_app e a b : Nat.Even (length a) -> sum16 e (a ++ b) = sum16 e a + sum16 e b.
Proof.
  intros [k Hk]. revert a Hk. induction k as [|k IH]; intros a Hk.
  - by apply nil_length_inv in Hk as ->.
  - destruct a as [|x [|y a]]; cbn [length] in Hk; [lia|lia|]. cbn [app sum16]. rewrite IH by lia. lia.
Qed.

Lemma dec_word2 e a b : dec e [a; b] = match e with LE => a + 256 * b | BE => 256 * a + b end.
Proof. destruct e; unfold dec; simpl; lia. Qed.

(** Swapping the bytes of all words multiplies the sum by 256. *)
Lemma sum16_nonneg e l : Forall (is_word 8) l -> 0 <= sum16 e l.
Proof.
  remember (length l) as n eqn:Hn. assert (length l <= n)%nat as Hl by lia. clear Hn. revert l Hl.
  induction n as [|n IH]; intros [|a [|b l]] Hl Hb; cbn [length] in Hl; try lia; cbn [sum16]; try done.
  - inversion Hb as [|? ? [? ?] _]; subst. rewrite dec_word2. destruct e; lia.
  - inversion Hb as [|? ? [? ?] Hb']; subst. inversion Hb' as [|? ? [? ?] Hb'']; subst.
    specialize (IH l ltac:(lia) Hb''). rewrite dec_word2. destruct e; lia.
Qed.

Lemma sum16_swap n l : (length l <= n)%nat -> exists k, 256 * sum16 LE l = sum16 BE l + 65535 * k.
Proof.
  revert l. induction n as [|n IH]; intros [|a [|b l]] Hl; cbn [length] in Hl; try lia; cbn [sum16]; rewrite ?dec_word2.
  - by exists 0.
  - by exists 0.
  - exists 0. lia.
  - destruct (IH l) as [k Hk]; [lia|]. exists (b + k). lia.
Qed.

(** The ones' complement sum of a text with its checksum is all ones (or zero, which only
    a text of zeros gives). *)
Definition checksum_ok (l : list Z) : Prop := sum16 BE l mod 65535 = 0.

Lemma checksum_endian e l : sum16 e l mod 65535 = 0 <-> checksum_ok l.
Proof.
  unfold checksum_ok. destruct e; [|done]. destruct (sum16_swap (length l) l) as [k Hk]; [lia|].
  rewrite !Z.mod_divide by lia. split; intros [c Hc].
  - exists (256 * c - k). lia.
  - exists (256 * c + 256 * k - sum16 LE l). lia.
Qed.

(** The pseudo headers of RFC 793 and RFC 2460. *)
Definition pseudo4 (sa da : list Z) (proto len : Z) : list Z := sa ++ da ++ [0; proto] ++ enc BE 2 len.
Definition pseudo6 (sa da : list Z) (proto len : Z) : list Z := sa ++ da ++ enc BE 4 len ++ [0; 0; 0; proto].

Lemma sum16_enc2 e v : is_word 16 v -> sum16 e (enc e 2 v) = v.
Proof.
  intros Hv. assert (exists a b, enc e 2 v = [a; b]) as (a & b & He) by (destruct e; by eexists _, _).
  rewrite He. cbn [sum16]. rewrite <- He, dec_enc. rewrite Z.mod_small by done. lia.
Qed.

Lemma sum16_enc4 v : is_word 16 v -> sum16 BE (enc BE 4 v) = v.
Proof.
  intros [Hv1 Hv2]. unfold enc. cbn [le_bytes rev app sum16]. rewrite !dec_word2. change (2 ^ 16) with 65536 in Hv2.
  rewrite (Z.div_small (v / 256 / 256)), (Z.div_small (v / 256) 256) by dlia. dlia.
Qed.

Lemma length_prefixed p a : length (prefixed p a) = (12 + length a)%nat.
Proof. unfold prefixed. by rewrite !length_app, length_enc. Qed.

Lemma sum16_prefixed a : length a = 4%nat -> sum16 BE (prefixed 0xffff a) = 65535 + sum16 BE a.
Proof. intros (w & x & y & z & ->)%length4. unfold prefixed. cbn [app replicate]. done. Qed.

(** The prefixes do not change a checksum. *)
Lemma pseudo_neutral sa da proto len seg : length sa = 4%nat -> length da = 4%nat -> is_word 8 proto -> is_word 16 len ->
  checksum_ok (pseudo6 (prefixed MAPPED_PREFIX sa) (prefixed TRANSLATED_PREFIX da) proto len ++ seg) <->
  checksum_ok (pseudo4 sa da proto len ++ seg).
Proof.
  intros Hs Hd Hp Hl. unfold checksum_ok, pseudo6, pseudo4, MAPPED_PREFIX, TRANSLATED_PREFIX.
  rewrite !sum16_app by (rewrite ?length_app, ?length_enc, ?length_prefixed, ?Hs, ?Hd; by apply Nat.even_spec).
  rewrite !sum16_prefixed, sum16_enc4, sum16_enc2 by done.
  change (sum16 BE [0; 0; 0; proto]) with (dec BE [0; 0] + (dec BE [0; proto] + 0)).
  change (sum16 BE [0; proto]) with (dec BE [0; proto] + 0). change (dec BE [0; 0]) with 0.
  set (S := _ + sum16 BE seg). set (S' := _ + sum16 BE seg). replace S with (S' + 2 * 65535) by (subst S S'; lia).
  by rewrite Z_mod_plus_full.
Qed.

Section laws.
Context (e : endian) `{CL : CsumLaws e}.

Lemma sum_through X T s : s mod 65535 = (T + 0) mod 65535 -> (X + s) mod 65535 = 0 -> (X + T) mod 65535 = 0.
Proof using Type. rewrite Z.add_0_r. intros Hs HX. by rewrite Zplus_mod, <- Hs, <- Zplus_mod. Qed.

(** A checksum computed over a text with zeros in its place completes the text. *)
Lemma ipv6_magic_valid sa da len proto a b : Nat.Even (length sa) -> Nat.Even (length da) -> Nat.Even (length a) ->
  0 <= len -> is_word 8 proto ->
  checksum_ok (pseudo6 sa da proto len ++ a ++
    enc e 2 (csum_ipv6_magic sa da len proto (csum_partial (a ++ [0; 0] ++ b) 0)) ++ b).
Proof using Type*.
  intros Hsa Hda Ha Hl Hp. apply (checksum_endian e). unfold pseudo6.
  assert (forall v, Nat.Even (length (enc e 2 v))) as He2 by (intros; rewrite length_enc; by apply Nat.even_spec).
  assert (Nat.Even (length (enc BE 4 len))) as He4 by (rewrite length_enc; by apply Nat.even_spec).
  rewrite <- !app_assoc, !sum16_app by (done || by apply Nat.even_spec).
  rewrite sum16_enc2 by apply ipv6_magic_word.
  assert (enc BE 4 proto = [0; 0; 0; proto]) as Hep.
  { unfold enc. cbn [le_bytes rev app]. unfold is_word in Hp.
    rewrite (Z.div_small proto 256), (Z.mod_small proto 256) by lia. done. }
  pose proof (ipv6_magic_sum sa da len proto (csum_partial (a ++ [0; 0] ++ b) 0) Hl (csum_partial_word _ _)) as Hm.
  eapply sum_through in Hm; [|apply csum_partial_sum]. rewrite Hep in Hm.
  rewrite !sum16_app in Hm by (done || by apply Nat.even_spec). change (sum16 e [0; 0]) with (dec e [0; 0] + 0) in Hm.
  rewrite dec_word2 in Hm. etrans; [|exact Hm]. f_equal. destruct e; lia.
Qed.

(** The computed checksum is zero, which means that there is none, when the text with zeros
    in its place is complete already. *)
Lemma ipv6_magic_zero sa da len proto a b : Nat.Even (length sa) -> Nat.Even (length da) -> Nat.Even (length a) ->
  0 <= len -> is_word 8 proto -> 0 < sum16 e sa -> 0 <= sum16 e da ->
  csum_ipv6_magic sa da len proto (csum_partial (a ++ [0; 0] ++ b) 0) = 0 <->
  checksum_ok (pseudo6 sa da proto len ++ a ++ [0; 0] ++ b).
Proof using Type*.
  intros Hsa Hda Ha Hl Hp Hs0 Hd0. rewrite <- (checksum_endian e). unfold pseudo6.
  set (c := csum_partial (a ++ [0; 0] ++ b) 0). set (F := csum_ipv6_magic _ _ _ _ _).
  assert (Nat.Even (length (enc BE 4 len))) as He4 by (rewrite length_enc; by apply Nat.even_spec).
  assert (enc BE 4 proto = [0; 0; 0; proto]) as Hep.
  { unfold enc. cbn [le_bytes rev app]. unfold is_word in Hp.
    rewrite (Z.div_small proto 256), (Z.mod_small proto 256) by lia. done. }
  assert (0 <= sum16 e (enc BE 4 len)) as Hl0 by (apply sum16_nonneg, enc_range).
  assert (0 <= sum16 e (enc BE 4 proto)) as Hp0 by (apply sum16_nonneg, enc_range).
  pose proof (csum_partial_word (a ++ [0; 0] ++ b) 0) as Hc. fold c in Hc.
  pose proof (ipv6_magic_sum sa da len proto c Hl Hc) as Hm. fold F in Hm.
  pose proof (ipv6_magic_ones sa da len proto c Hl Hc) as Hn. fold F in Hn.
  specialize (Hn ltac:(unfold is_word in Hc; lia)).
  pose proof (ipv6_magic_word sa da len proto c) as HF. fold F in HF.
  eapply sum_through in Hm; [|apply csum_partial_sum]. rewrite Hep in Hm.
  rewrite <- !app_assoc, !sum16_app by (done || by apply Nat.even_spec).
  rewrite !sum16_app in Hm by (done || by apply Nat.even_spec).
  match goal with |- _ <-> ?T mod _ = 0 => set (U := T) end.
  assert ((F + U) mod 65535 = 0) as HU by (etrans; [|exact Hm]; f_equal; subst U; lia).
  unfold is_word in HF. split.
  - intros HF0. by rewrite HF0 in HU.
  - intros HU0. rewrite Zplus_mod, HU0, Z.add_0_r, Zmod_mod in HU.
    apply Z.mod_divide in HU as [k Hk]; lia.
Qed.

End laws.

(** ** Extension headers *)

(** A destination options header, a routing header without segments left, or a
    fragment header; the bodies are what follows the fields the code reads. *)
Inductive ext :=
| Dest (hdrlen : Z) (body : list Z)
| Routing (hdrlen type : Z) (body : list Z)
| Frag (reserved off ident : Z).

Definition ext_code (x : ext) : Z :=
  match x with Dest _ _ => NEXTHDR_DEST | Routing _ _ _ => NEXTHDR_ROUTING | Frag _ _ _ => NEXTHDR_FRAGMENT end.

Definition ext_ok (x : ext) : Prop :=
  match x with
  | Dest n body => 0 <= n /\ Z.of_nat (length body) = n * 8 + 6
  | Routing n _ body => 0 <= n /\ Z.of_nat (length body) = n * 8 + 4
  | Frag _ off ident => is_word 16 off /\ is_word 32 ident
  end.

Definition first_code (l : list ext) (last : Z) : Z := match l with [] => last | x :: _ => ext_code x end.

Definition ext_enc (x : ext) (next : Z) : list Z :=
  match x with
  | Dest n body => [next; n] ++ body
  | Routing n type body => [next; n; type; 0] ++ body
  | Frag r off ident => [next; r] ++ enc BE 2 off ++ enc BE 4 ident
  end.

Fixpoint exts_enc (l : list ext) (last : Z) : list Z :=
  match l with [] => [] | x :: l => ext_enc x (first_code l last) ++ exts_enc l last end.

(** The identification, offset and more-fragments flag for the IPv4 header. *)
Definition ext_frag (x : ext) (s : Z * Z) : Z * Z :=
  match x with
  | Frag _ off ident => (u16 ident, Z.lor (Z.shiftr (Z.land off IP6F_OFF_MASK) 3) (Z.shiftl (Z.land off IP6F_MORE_FRAG) 13))
  | _ => s
  end.

Definition exts_frag (l : list ext) (s : Z * Z) : Z * Z := fold_left (fun s x => ext_frag x s) l s.

Definition ends_chain (n : Z) : bool := is_transport n || (n =? NEXTHDR_NONE).

Lemma byte_app a b k v : b !! k = Some v -> byte (a ++ b) (length a + k) = Done v.
Proof. intros Hk. unfold byte. rewrite lookup_app_r by lia. by rewrite Nat.add_comm, Nat.add_sub, Hk. Qed.

Lemma ext_step fuel pre x next rest c : ext_ok x -> length pre = (40 + Z.to_nat (opts_len c))%nat -> 0 <= opts_len c ->
  next_hdr c = ext_code x -> Z.of_nat (length (ext_enc x next)) <= len_delta c < 2 ^ 31 ->
  ext_loop (S fuel) (pre ++ ext_enc x next ++ rest) c =
  ext_loop fuel (pre ++ ext_enc x next ++ rest)
    (Chain (len_delta c - Z.of_nat (length (ext_enc x next))) (opts_len c + Z.of_nat (length (ext_enc x next))) next
       (ext_frag x (c_id c, c_frag_off c)).1 (ext_frag x (c_id c, c_frag_off c)).2).
Proof.
  intros Hx Hpre Ho Hn Hd. destruct c as [delta opts nh i fo]. cbn [len_delta opts_len next_hdr c_id c_frag_off] in *. subst nh.
  set (src := pre ++ _). cbn [ext_loop next_hdr opts_len len_delta c_id c_frag_off].
  rewrite <- Hpre. destruct x as [n body|n type body|r off ident]; cbn [ext_ok ext_code ext_enc ext_frag fst snd] in *.
  - destruct Hx as [Hn Hb]. cbn [app length] in Hd. cbn [is_transport NEXTHDR_DEST NEXTHDR_ICMP IPPROTO_TCP IPPROTO_UDP Z.eqb Pos.eqb orb].
    subst src. rewrite (byte_app pre _ 1 n) by done. cbn [mbind outcome_bind].
    rewrite <- (Nat.add_0_r (length pre)) at 1. rewrite (byte_app pre _ 0 next) by done. cbn [mbind outcome_bind app length].
    unfold int_ok. rewrite (proj2 (Z.leb_le _ _)), (proj2 (Z.ltb_lt _ _)), (proj2 (Z.leb_le 0 _)) by lia. cbn [andb negb].
    f_equal. f_equal; lia.
  - destruct Hx as [Hn Hb]. cbn [app length] in Hd. cbn [is_transport NEXTHDR_ROUTING NEXTHDR_DEST NEXTHDR_ICMP IPPROTO_TCP IPPROTO_UDP Z.eqb Pos.eqb orb].
    subst src. rewrite (byte_app pre _ 3 0) by done. cbn [mbind outcome_bind negb Z.eqb]. rewrite (byte_app pre _ 1 n) by done. cbn [mbind outcome_bind].
    rewrite <- (Nat.add_0_r (length pre)) at 1. rewrite (byte_app pre _ 0 next) by done. cbn [mbind outcome_bind app length].
    rewrite (proj2 (Z.leb_le 0 _)) by lia. f_equal. f_equal; lia.
  - destruct Hx as [Hoff Hid]. cbn [is_transport NEXTHDR_FRAGMENT NEXTHDR_ROUTING NEXTHDR_DEST NEXTHDR_ICMP IPPROTO_TCP IPPROTO_UDP Z.eqb Pos.eqb orb].
    rewrite !length_app, !length_enc in Hd |- *. cbn [length Nat.add] in Hd |- *.
    rewrite (proj2 (Z.leb_le 0 _)) by lia.
    assert (be32 src (length pre + 4) = Done ident) as ->.
    { subst src. rewrite be32_eq by (rewrite !length_app, !length_enc; cbn [length]; lia).
      rewrite <- drop_drop, drop_app_length. rewrite <- !app_assoc. cbn [app]. rewrite enc_be2. cbn [app drop].
      by rewrite drop_0, take_app_length' , dec4 by (done || apply length_enc). }
    assert (be16 src (length pre + 2) = Done off) as ->.
    { subst src. rewrite be16_eq by (rewrite !length_app, !length_enc; cbn [length]; lia).
      rewrite <- drop_drop, drop_app_length. rewrite <- !app_assoc, enc_be2. cbn [app drop take]. by rewrite dec2. }
    cbn [mbind outcome_bind]. subst src. rewrite <- (Nat.add_0_r (length pre)) at 1. by rewrite (byte_app pre _ 0 next) by done.
Qed.

Lemma ext_run l last seg : forall fuel pre c, Forall ext_ok l -> ends_chain last = true ->
  length pre = (40 + Z.to_nat (opts_len c))%nat -> 0 <= opts_len c -> next_hdr c = first_code l last ->
  Z.of_nat (length (exts_enc l last)) <= len_delta c < 2 ^ 31 -> (length l < fuel)%nat ->
  ext_loop fuel (pre ++ exts_enc l last ++ seg) c =
  Done (Chain (len_delta c - Z.of_nat (length (exts_enc l last))) (opts_len c + Z.of_nat (length (exts_enc l last))) last
    (exts_frag l (c_id c, c_frag_off c)).1 (exts_frag l (c_id c, c_frag_off c)).2).
Proof.
  induction l as [|x l IH]; intros fuel pre c Hl Hlast Hpre Ho Hn Hd Hf; cbn [exts_enc first_code] in *.
  - destruct c as [delta opts nh i fo]. cbn [len_delta opts_len next_hdr c_id c_frag_off length exts_frag fold_left fst snd] in *. subst nh.
    replace (delta - Z.of_nat 0) with delta by lia. replace (opts + Z.of_nat 0) with opts by lia. unfold ends_chain in Hlast.
    destruct fuel as [|fuel]; [lia|]. cbn [ext_loop next_hdr]. destruct (is_transport last) eqn:Ht; [done|].
    apply Z.eqb_eq in Hlast as ->. done.
  - destruct fuel as [|fuel]; [lia|]. apply Forall_cons in Hl as [Hx Hl]. rewrite length_app in Hd.
    rewrite <- app_assoc. rewrite ext_step by (done || lia). rewrite app_assoc.
    rewrite IH; cbn [len_delta opts_len next_hdr c_id c_frag_off]; try done.
    + cbn [exts_frag fold_left]. rewrite length_app. destruct (ext_frag x (c_id c, c_frag_off c)) as [i fo] eqn:He.
      cbn [fst snd]. unfold exts_frag. f_equal. f_equal; lia.
    + rewrite length_app. lia.
    + lia.
    + lia.
    + cbn [length] in Hf. lia.
Qed.

Lemma ext_enc_pos x next : ext_ok x -> (8 <= length (ext_enc x next))%nat.
Proof.
  destruct x; cbn [ext_ok ext_enc]; intros [? ?]; rewrite !length_app, ?length_enc; cbn [length]; lia.
Qed.

Lemma exts_count l last : Forall ext_ok l -> (8 * length l <= length (exts_enc l last))%nat.
Proof.
  induction 1 as [|x l Hx Hl IH]; [done|]. cbn [exts_enc length]. rewrite length_app.
  pose proof (ext_enc_pos x (first_code l last) Hx). lia.
Qed.

(** An optional hop-by-hop header in front. *)
Definition hop_ok (hop : option (Z * list Z)) : Prop :=
  match hop with Some (n, body) => 0 <= n /\ Z.of_nat (length body) = n * 8 + 6 | None => True end.

Definition hop_enc (hop : option (Z * list Z)) (next : Z) : list Z :=
  match hop with Some (n, body) => [next; n] ++ body | None => [] end.

Definition hop_code (hop : option (Z * list Z)) (next : Z) : Z := match hop with Some _ => NEXTHDR_HOP | None => next end.

Lemma hop_run pre hop next rest delta : hop_ok hop -> length pre = 40%nat -> next <> NEXTHDR_HOP ->
  Z.of_nat (length (hop_enc hop next)) <= delta ->
  hop_by_hop (pre ++ hop_enc hop next ++ rest) (Chain delta 0 (hop_code hop next) 0 0) =
  Done (Chain (delta - Z.of_nat (length (hop_enc hop next))) (Z.of_nat (length (hop_enc hop next))) next 0 0).
Proof.
  intros Hh Hpre Hn Hd. unfold hop_by_hop. destruct hop as [[n body]|]; cbn [hop_ok hop_enc hop_code next_hdr opts_len len_delta c_id c_frag_off] in *.
  - destruct Hh as [H0 Hb]. change (NEXTHDR_HOP =? NEXTHDR_HOP) with true. cbn iota. cbn [app length] in Hd.
    change (40 + Z.to_nat 0 + 1)%nat with (40 + 1)%nat. change (40 + Z.to_nat 0)%nat with (40 + 0)%nat. rewrite <- Hpre.
    rewrite (byte_app pre _ 1 n) by done. cbn [mbind outcome_bind]. rewrite (byte_app pre _ 0 next) by done. cbn [mbind outcome_bind app length].
    rewrite (proj2 (Z.leb_le 0 _)) by lia. f_equal. f_equal; lia.
  - rewrite (proj2 (Z.eqb_neq _ _) Hn). cbn [length]. f_equal. f_equal; lia.
Qed.

(** ** The checksum of the IPv4 header *)

Definition set_check (h : iphdr) (c : Z) : iphdr :=
  {| ihl := ihl h; tos := tos h; tot_len := tot_len h; id := id h; frag_off := frag_off h; ttl := ttl h;
     protocol := protocol h; check := c; saddr := saddr h; daddr := daddr h |}.

Definition first10 (h : iphdr) : list Z :=
  [64 + ihl h; tos h] ++ enc BE 2 (tot_len h) ++ enc BE 2 (id h) ++ enc BE 2 (frag_off h) ++ [ttl h; protocol h].

Lemma ip4_bytes_split h : ip4_bytes h = first10 h ++ enc BE 2 (check h) ++ saddr h ++ daddr h.
Proof. unfold ip4_bytes, first10. by rewrite <- !app_assoc. Qed.

Lemma length_first10 h : length (first10 h) = 10%nat.
Proof. unfold first10. by rewrite !length_app, !length_enc. Qed.

Section header_sum.
Context (e : endian) `{CL : CsumLaws e}.

Definition summed (h : iphdr) : iphdr := set_check h (dec BE (enc e 2 (ip_fast_csum (ip4_bytes (set_check h 0))))).

Lemma enc_summed h : enc BE 2 (check (summed h)) = enc e 2 (ip_fast_csum (ip4_bytes (set_check h 0))).
Proof using Type.
  cbn [summed set_check check]. set (l := enc e 2 _).
  replace 2%nat with (length l) by apply length_enc. apply enc_dec, enc_range.
Qed.

Lemma header_checksum_run h rest : length (saddr h) = 4%nat -> length (daddr h) = 4%nat ->
  header_checksum e (ip4_bytes h ++ rest) = Done (ip4_bytes (summed h) ++ rest).
Proof using Type.
  intros Hs Hd. unfold header_checksum. rewrite (ip4_bytes_split h), (ip4_bytes_split (summed h)), enc_summed.
  rewrite <- !app_assoc, put_app by (by rewrite ?length_first10, ?length_enc). cbn [mbind outcome_bind].
  assert (first10 h ++ [0; 0] ++ saddr h ++ daddr h ++ rest = [] ++ ip4_bytes (set_check h 0) ++ rest) as Heq.
  { rewrite ip4_bytes_split, <- !app_assoc. done. }
  rewrite Heq at 1. rewrite bytes_app; [|done|rewrite ip4_bytes_split, !length_app, length_first10, length_enc;
    cbn [set_check saddr daddr]; by rewrite Hs, Hd].
  cbn [mbind outcome_bind]. by rewrite put_app by (by rewrite ?length_first10, ?length_enc).
Qed.

Lemma summed_ok h : Nat.Even (length (saddr h)) -> checksum_ok (ip4_bytes (summed h)).
Proof using Type*.
  intros Hs. apply (checksum_endian e). rewrite ip4_bytes_split, enc_summed.
  assert (Nat.Even (length (first10 h))) as H10 by (rewrite length_first10; by apply Nat.even_spec).
  assert (forall o v, Nat.Even (length (enc o 2 v))) as He2 by (intros; rewrite length_enc; by apply Nat.even_spec).
  pose proof (fast_sum (ip4_bytes (set_check h 0))) as Hf. rewrite ip4_bytes_split in Hf at 2.
  cbn [set_check check saddr daddr] in *. replace (enc BE 2 0) with (enc e 2 0) in Hf by (by destruct e).
  change (first10 (set_check h 0)) with (first10 h) in Hf. change (first10 (summed h)) with (first10 h).
  rewrite !sum16_app in Hf |- * by done. rewrite sum16_enc2 in Hf |- * by (done || apply fast_word).
  etrans; [|exact Hf]. f_equal. cbn [summed set_check saddr daddr]. lia.
Qed.

End header_sum.
