(* ===== verification/SiitProps.v ===== *)
(** * The translator: theorems *)

From stdpp Require Import options.
From S2P Require Import Prelude Siit SiitFacts.

Set Default Proof Using "Type*".

(** ** Reading an IPv6 packet *)

(** Source, destination, protocol and segment of a packet that is not fragmented; a
    fragment header may be present. *)
Definition segment6 (p : list Z) : option (list Z * list Z * Z * list Z) :=
  match read_ipv6hdr p with
  | Done h =>
      let body := take (Z.to_nat (payload_len h)) (drop 40 p) in
      if nexthdr h =? NEXTHDR_FRAGMENT then proto ← body !! 0%nat; Some (saddr6 h, daddr6 h, proto, drop 8 body)
      else Some (saddr6 h, daddr6 h, nexthdr h, body)
  | _ => None
  end.

Record hdr6_ok (h : ipv6hdr) : Prop := {
  ok6_prio : is_word 4 (priority h);
  ok6_flow : length (flow_lbl h) = 3%nat;
  ok6_len : is_word 16 (payload_len h);
  ok6_saddr : length (saddr6 h) = 16%nat;
  ok6_daddr : length (daddr6 h) = 16%nat }.

Lemma read_ipv6hdr_bytes h rest : hdr6_ok h -> read_ipv6hdr (ipv6_bytes h ++ rest) = Done h.
Proof.
  destruct h as [pr fl pl nh hl sa da]. intros [Hp Hf Hl Hs Hd]. cbn [priority flow_lbl payload_len nexthdr hop_limit saddr6 daddr6] in *.
  unfold ipv6_bytes. cbn [priority flow_lbl payload_len nexthdr hop_limit saddr6 daddr6].
  destruct fl as [|f1 [|f2 [|f3 [|]]]]; try discriminate. unfold u16. rewrite wrap_small, enc_be2 by done.
  rewrite <- !app_assoc. cbn [app]. unfold read_ipv6hdr, byte. cbn [lookup list_lookup defined mbind outcome_bind].
  rewrite be16_eq by (cbn [length]; lia). rewrite !bytes_eq by (cbn [length]; rewrite !length_app; lia).
  cbn [take drop mbind outcome_bind]. rewrite dec2 by done.
  rewrite drop_0, (take_app_length' sa), (drop_app_length' sa), (take_app_length' da) by done. by rewrite (low_nibble 6).
Qed.

(** ** Bit fields *)

Definition frag6 (fo : Z) : Z := Z.lor (Z.shiftl (Z.land fo IP_OFFSET) 3) (Z.shiftr (Z.land fo IP_MF) 13).
Definition frag4 (off : Z) : Z := Z.lor (Z.shiftr (Z.land off IP6F_OFF_MASK) 3) (Z.shiftl (Z.land off IP6F_MORE_FRAG) 13).

Lemma frag_bits fo : is_word 16 fo -> is_word 16 (frag6 fo) /\ frag4 (frag6 fo) = Z.land fo 0x3fff.
Proof.
  intros Hfo. set (ok := fun z => (0 <=? frag6 z) && (frag6 z <? 65536) && (frag4 (frag6 z) =? Z.land z 0x3fff)).
  assert (ok (256 * (fo / 256) + fo mod 256) = true) as Hok.
  { assert (forallb (fun a => forallb (fun b => ok (256 * a + b)) (seqZ 0 256)) (seqZ 0 256) = true) as Hall by (vm_compute; reflexivity).
    unfold is_word in Hfo. change (2 ^ 16) with 65536 in Hfo. rewrite forallb_forall in Hall.
    specialize (Hall (fo / 256)). rewrite <- list_elem_of_In, elem_of_seqZ, forallb_forall in Hall.
    apply Hall; [dlia|]. rewrite <- list_elem_of_In, elem_of_seqZ. dlia. }
  rewrite <- Z.div_mod in Hok by lia. subst ok. cbn beta in Hok. unfold is_word. change (2 ^ 16) with 65536. b2p. lia.
Qed.

Lemma tos_bits t : 0 <= t < 256 ->
  is_word 8 (Z.shiftl (Z.land t 0x0f) 4) /\
  Z.lor (Z.shiftl (Z.shiftr (Z.land t 0xf0) 4) 4) (Z.shiftr (Z.shiftl (Z.land t 0x0f) 4) 4) = t.
Proof.
  intros Ht. apply (below_dec (fun t => is_word 8 (Z.shiftl (Z.land t 0x0f) 4) /\
    Z.lor (Z.shiftl (Z.shiftr (Z.land t 0xf0) 4) 4) (Z.shiftr (Z.shiftl (Z.land t 0x0f) 4) 4) = t) 256 t); [vm_compute; reflexivity|done].
Qed.

Section theorems.
Context (e : endian) `{CL : CsumLaws e} (tos_ignore_flag : bool).

Abbreviation to6 := (ip4_ip6 e tos_ignore_flag).
Abbreviation to4 := (ip6_ip4 e tos_ignore_flag).

Lemma nibble_high t : is_word 8 t -> is_word 4 (Z.shiftr (Z.land t 0xf0) 4).
Proof using Type.
  intros [Ht1 Ht2]. rewrite Z.shiftr_land. change (Z.shiftr 0xf0 4) with (Z.ones 4). rewrite Z.land_ones by lia.
  unfold is_word. apply Z.mod_pos_bound. lia.
Qed.

Lemma ipv6_of_ok h opts data : packet_ok h opts data -> tot_len h + 8 < 2 ^ 16 -> hdr6_ok (ipv6_of tos_ignore_flag h false).
Proof using Type.
  intros Hp Hs. pose proof (plen_whole h opts data Hp Hs) as Hl. destruct Hp as [Hh Ho Ht].
  destruct Hh as [Hi Hto Htl _ _ _ _ _ Hsa Hda].
  constructor; cbn [ipv6_of priority flow_lbl payload_len saddr6 daddr6]; rewrite ?length_prefixed; try lia.
  - destruct tos_ignore_flag; [done|by apply nibble_high].
  - done.
  - unfold fr_len, IP6_FRAGMENT_SIZE in Hl. unfold is_word. destruct (fr_flag h false); lia.
Qed.

(** The protocol number of the translated packet. *)
Definition proto6 (p : Z) : Z := if p =? IPPROTO_ICMP then NEXTHDR_ICMP else p.

(** A translated packet holds its segment. *)
Lemma segment6_translated h opts data seg c : packet_ok h opts data -> tot_len h + 8 < 2 ^ 16 -> protocol h <> NEXTHDR_FRAGMENT ->
  length seg = length data ->
  segment6 (ipv6_bytes (ipv6_of tos_ignore_flag h false) ++ frag_bytes h false ++ seg ++ c) =
  Some (prefixed MAPPED_PREFIX (saddr h), prefixed TRANSLATED_PREFIX (daddr h), proto6 (protocol h), seg).
Proof using Type.
  intros Hp Hs Hf Hl. unfold segment6. rewrite read_ipv6hdr_bytes by (by eapply ipv6_of_ok).
  pose proof (plen_whole h opts data Hp Hs) as Hlen. pose proof Hp as [Hh Ho Ht].
  rewrite drop_app_length' by (by rewrite length_ipv6_bytes).
  cbn [ipv6_of payload_len nexthdr saddr6 daddr6]. rewrite app_assoc.
  rewrite take_app_length' by (rewrite length_app; pose proof (length_frag_bytes h false); lia).
  unfold frag_bytes, fr_len in *. destruct (fr_flag h false) eqn:Hfr.
  - change (NEXTHDR_FRAGMENT =? NEXTHDR_FRAGMENT) with true. cbn iota.
    assert ((frag_hdr h ++ seg) !! 0%nat = Some (proto6 (protocol h))) as -> by done. cbn [mbind option_bind].
    by rewrite drop_app_length' by (unfold frag_hdr; by rewrite !length_app, !length_enc).
  - assert (proto6 (protocol h) <> NEXTHDR_FRAGMENT) as Hne by (unfold proto6; by case_match).
    fold (proto6 (protocol h)). rewrite (proj2 (Z.eqb_neq _ _) Hne). done.
Qed.

(** Addresses, length and text of the segment of an IPv4 packet sum to all ones. *)
Definition segment_ok4 (h : iphdr) (data : list Z) : Prop :=
  checksum_ok (pseudo4 (saddr h) (daddr h) (protocol h) (Z.of_nat (length data)) ++ data).

Definition segment_ok6 (p : list Z) : Prop :=
  match segment6 p with
  | Some (sa, da, proto, seg) => checksum_ok (pseudo6 sa da proto (Z.of_nat (length seg)) ++ seg)
  | None => False
  end.

(** What the translator can do with a packet that is not a fragment. *)
Definition whole (h : iphdr) (data : list Z) : Prop :=
  Z.land (frag_off h) IP_OFFSET = 0 /\ Z.land (frag_off h) IP_MF = 0 /\
  (protocol h = IPPROTO_TCP \/ (protocol h = IPPROTO_UDP /\ (8 <= length data)%nat) \/
   (protocol h = IPPROTO_ICMP /\ (8 <= length data)%nat /\ (head data = Some 8 \/ head data = Some 0))).

(** The checksum of an IPv4 packet is right, or it is computed during the translation. *)
Definition sum_ok (h : iphdr) (data : list Z) : Prop :=
  if protocol h =? IPPROTO_ICMP then True
  else if (protocol h =? IPPROTO_UDP) && (dec BE (take 2 (drop 6 data)) =? 0) then True
  else segment_ok4 h data.

Definition sum_ok6 (h : iphdr) (seg : list Z) : Prop :=
  checksum_ok (pseudo6 (prefixed MAPPED_PREFIX (saddr h)) (prefixed TRANSLATED_PREFIX (daddr h)) (proto6 (protocol h))
    (Z.of_nat (length seg)) ++ seg).

Lemma even_prefixed p a : length a = 4%nat -> Nat.Even (length (prefixed p a)).
Proof using Type. intros Ha. rewrite length_prefixed, Ha. by apply Nat.even_spec. Qed.

Lemma plain_sum h data : hdr_ok h -> is_word 16 (Z.of_nat (length data)) -> protocol h <> IPPROTO_ICMP ->
  sum_ok6 h data <-> segment_ok4 h data.
Proof using Type.
  intros Hh Hl Hp. unfold sum_ok6, segment_ok4, proto6. rewrite (proj2 (Z.eqb_neq _ _) Hp).
  apply pseudo_neutral; [apply Hh..|done].
Qed.

(** The checksum field of a UDP datagram; zero means that there is no checksum. *)
Definition udp_sum (seg : list Z) : Z := dec BE (take 2 (drop 6 seg)).

(** When a datagram without a checksum is given one, and when this is the value zero. *)
Definition udp_result (h : iphdr) (data seg : list Z) : Prop :=
  protocol h = IPPROTO_UDP ->
  if udp_sum data =? 0
  then Forall (is_word 8) (saddr h ++ daddr h ++ data) -> (udp_sum seg = 0 <-> sum_ok6 h data)
  else seg = data.

Lemma udp_result_other h data seg : protocol h <> IPPROTO_UDP -> udp_result h data seg.
Proof using Type. by intros Hp ?. Qed.

Lemma dec_zero e' v : is_word 16 v -> dec BE (enc e' 2 v) = 0 <-> v = 0.
Proof using Type.
  intros Hv. pose proof (enc_range e' 2 v) as Hr. pose proof (dec_enc e' 2 v) as Hd.
  rewrite Z.mod_small in Hd by (unfold is_word in Hv; simpl; lia).
  assert (exists a b, enc e' 2 v = [a; b]) as (a & b & He) by (destruct e'; by eexists _, _).
  rewrite He in *. rewrite dec_word2 in *. inversion Hr as [|? ? [? ?] Hr']; subst.
  inversion Hr' as [|? ? [? ?] _]; subst. destruct e'; lia.
Qed.

Lemma unsummed_data data : (8 <= length data)%nat -> Forall (is_word 8) data -> udp_sum data = 0 ->
  data = take 6 data ++ [0; 0] ++ drop 8 data.
Proof using Type.
  intros Hl Hb Hz. unfold udp_sum in Hz. rewrite <- (take_drop 6 data) at 1. f_equal.
  rewrite <- (take_drop 2 (drop 6 data)), drop_drop. f_equal.
  pose proof (Forall_take _ 2 _ (Forall_drop _ 6 _ Hb)) as Hr.
  assert (length (take 2 (drop 6 data)) = 2%nat) as H2 by (rewrite length_take, length_drop; lia).
  destruct (take 2 (drop 6 data)) as [|a [|b [|]]]; try done. rewrite dec_word2 in Hz.
  inversion Hr as [|? ? [? ?] Hr']; subst. inversion Hr' as [|? ? [? ?] _]; subst.
  assert (a = 0) as -> by lia. assert (b = 0) as -> by lia. done.
Qed.

Lemma udp_summed_zero h data : hdr_ok h -> protocol h = IPPROTO_UDP -> (8 <= length data)%nat ->
  udp_sum data = 0 -> Forall (is_word 8) (saddr h ++ daddr h ++ data) ->
  udp_sum (udp_summed e h data) = 0 <-> sum_ok6 h data.
Proof using Type*.
  intros Hh Hpr Hl Hz [Hsa [Hda Hb]%Forall_app]%Forall_app. unfold udp_sum, udp_summed.
  assert (length (take 6 data) = 6%nat) as H6 by (rewrite length_take; lia).
  rewrite drop_app_length' by lia. rewrite take_app_length' by (by rewrite length_enc).
  rewrite dec_zero by apply ipv6_magic_word.
  rewrite (ipv6_magic_zero e); [|by apply even_prefixed; apply Hh..| |lia|done| |].
  - rewrite <- unsummed_data by done. unfold sum_ok6, proto6. by rewrite Hpr.
  - rewrite H6. by apply Nat.even_spec.
  - unfold prefixed. rewrite !sum16_app by (rewrite ?length_enc; by apply Nat.even_spec).
    pose proof (sum16_nonneg e (saddr h) Hsa). change (sum16 e (replicate 8 0)) with (sum16 e [0; 0; 0; 0; 0; 0; 0; 0]).
    change (enc BE 4 MAPPED_PREFIX) with [0; 0; 255; 255]. cbn [sum16]. rewrite !dec_word2. destruct e; lia.
  - apply sum16_nonneg. unfold prefixed. rewrite !Forall_app. split_and!; [apply Forall_replicate; unfold is_word; lia|apply enc_range|done].
Qed.

(** The packet made of a whole packet. *)
Lemma whole_translated h opts data dst :
  packet_ok h opts data -> tot_len h + 8 < 2 ^ 16 -> whole h data ->
  (40 + length (frag_bytes h false) + length data <= length dst)%nat ->
  exists seg, to6 (packet4 h opts data) (tot_len h) dst =
    Done (ipv6_bytes (ipv6_of tos_ignore_flag h false) ++ frag_bytes h false ++ seg ++
          drop (40 + length (frag_bytes h false) + length data) dst) /\
    length seg = length data /\ (protocol h = IPPROTO_TCP -> seg = data) /\ udp_result h data seg /\
    (sum_ok6 h seg <-> sum_ok h data).
Proof.
  intros Hp Hs (Hoff & Hmf & Hpr) Hd. pose proof Hp as [Hh Ho Ht]. pose proof Hh as [Hi _ Htl _ _ _ Hp8 _ Hsa Hda].
  unfold ip4_ip6. rewrite <- (app_nil_r (packet4 h opts data)).
  assert (is_word 16 (Z.of_nat (length data))) as Hdl by (unfold is_word in *; lia).
  unfold sum_ok. destruct Hpr as [Hpr|[[Hpr H8]|(Hpr & H8 & Hty)]].
  - exists data. split_and!; [by apply ip4_ip6_plain; [|left|]|done|done|by apply udp_result_other; rewrite Hpr|].
    rewrite plain_sum by (done || by rewrite Hpr). by rewrite Hpr.
  - destruct (dec BE (take 2 (drop 6 data)) =? 0) eqn:Hck; b2p.
    + exists (udp_summed e h data). assert (length (udp_summed e h data) = length data) as Hl.
      { unfold udp_summed. rewrite !length_app, length_enc, length_take, length_drop. lia. }
      split_and!; [by apply ip4_ip6_udp0|done|by rewrite Hpr| |].
      { intros _. unfold udp_sum at 1. rewrite Hck. cbn [Z.eqb]. intros Hb. by apply udp_summed_zero. } rewrite Hpr. cbn [IPPROTO_UDP IPPROTO_ICMP Z.eqb Pos.eqb andb].
      split; [done|]. intros _. unfold sum_ok6. rewrite Hl, Hpr.
      apply (ipv6_magic_valid e _ _ _ IPPROTO_UDP (take 6 data) (drop 8 data)); [by apply even_prefixed..| |lia|done].
      rewrite length_take_le by lia. by apply Nat.even_spec.
    + exists data. split_and!; [apply ip4_ip6_plain; [done|right; auto|done]|done|done| |].
      { intros _. unfold udp_sum. by rewrite (proj2 (Z.eqb_neq _ _) Hck). }
      rewrite plain_sum by (done || by rewrite Hpr). by rewrite Hpr.
  - destruct data as [|t [|x1 [|x2 [|x3 body]]]]; cbn [length] in H8; try lia. cbn [head] in Hty.
    exists (echo6 e h (echo_type t) body). split_and!.
    + apply (ip4_ip6_echo e tos_ignore_flag _ h opts t [x1; x2; x3] body [] dst); [done|done| |done..].
      destruct Hty as [[= -> ] | [= -> ]]; auto.
    + unfold echo6. by rewrite !length_app, length_enc.
    + by rewrite Hpr.
    + by apply udp_result_other; rewrite Hpr.
    + rewrite Hpr. split; [done|]. intros _. unfold sum_ok6, echo6. rewrite Hpr, !length_app, length_enc.
      apply (ipv6_magic_valid e _ _ _ NEXTHDR_ICMP [echo_type t; 0] body); [by apply even_prefixed..| |lia|done].
      by apply Nat.even_spec.
Qed.

(** C20: Checksums survive the translation.  An IPv4 packet of less than 65528 bytes that is not a fragment and holds TCP, UDP or an ICMP
    echo message is translated into an IPv6 packet with the mapped addresses, the same
    protocol and a segment of the same length; the ones' complement sum of that segment over
    the IPv6 pseudo header is right exactly if that of the IPv4 packet was, where
    the checksum of ICMP, and of a UDP datagram that has none, is computed anew.
    TCP segments, and UDP datagrams with a checksum, are not changed at all.  A datagram
    without a checksum gets the value zero, so that it has none in IPv6 either, exactly
    when it sums up to all ones already (the code does not store 0xffff instead,
    as RFC 768 says); in all other cases it gets a checksum. *)
Theorem siit_checksums h opts data dst :
  packet_ok h opts data -> tot_len h + 8 < 2 ^ 16 -> whole h data ->
  (40 + Z.to_nat (fr_len h false) + length data <= length dst)%nat ->
  exists p seg, to6 (packet4 h opts data) (tot_len h) dst = Done p /\
    segment6 p = Some (prefixed MAPPED_PREFIX (saddr h), prefixed TRANSLATED_PREFIX (daddr h), proto6 (protocol h), seg) /\
    length seg = length data /\ (protocol h = IPPROTO_TCP -> seg = data) /\ udp_result h data seg /\
    (segment_ok6 p <-> sum_ok h data).
Proof.
  intros Hp Hs Hw Hd. pose proof (length_frag_bytes h false) as Hfl.
  destruct (whole_translated h opts data dst Hp Hs Hw) as (seg & Hrun & Hl & Htcp & Hudp & Hck); [lia|].
  assert (protocol h <> NEXTHDR_FRAGMENT) as Hnf by (destruct Hw as (_ & _ & [-> | [[-> _] | [-> _]]]); done).
  pose proof (segment6_translated h opts data seg
    (drop (40 + length (frag_bytes h false) + length data) dst) Hp Hs Hnf Hl) as Hseg.
  eexists _, seg. split_and!; [exact Hrun|exact Hseg|done|done|done|]. unfold segment_ok6. by rewrite Hseg.
Qed.

(** ** IPv6 to IPv4 *)

(** An IPv6 packet with an optional hop-by-hop header and a chain of extension headers. *)
Definition packet6 (h : ipv6hdr) (hop : option (Z * list Z)) (l : list ext) (last : Z) (seg : list Z) : list Z :=
  ipv6_bytes h ++ hop_enc hop (first_code l last) ++ exts_enc l last ++ seg.

Record packet6_ok (h : ipv6hdr) (sa da : list Z) (hop : option (Z * list Z)) (l : list ext) (last : Z) (seg : list Z) : Prop := {
  p6_hdr : hdr6_ok h;
  p6_saddr : saddr6 h = prefixed TRANSLATED_PREFIX sa;
  p6_daddr : daddr6 h = prefixed MAPPED_PREFIX da;
  p6_next : nexthdr h = hop_code hop (first_code l last);
  p6_len : payload_len h = Z.of_nat (length (hop_enc hop (first_code l last)) + length (exts_enc l last) + length seg);
  p6_hop : hop_ok hop;
  p6_exts : Forall ext_ok l;
  p6_last : last = IPPROTO_TCP \/ last = IPPROTO_UDP;
  p6_seg : (0 < length seg)%nat;
  p6_flow : Forall (is_word 8) (flow_lbl h);
  p6_ttl : is_word 8 (hop_limit h) }.

(** The header of the IPv4 packet. *)
Definition header4 (h : ipv6hdr) (sa da : list Z) (l : list ext) (last : Z) (seg : list Z) : iphdr :=
  summed e {| ihl := 5; tos := if tos_ignore_flag then 0 else Z.lor (Z.shiftl (priority h) 4) (Z.shiftr (nth 0 (flow_lbl h) 0) 4);
     tot_len := 20 + Z.of_nat (length seg); id := (exts_frag l (0, 0)).1; frag_off := (exts_frag l (0, 0)).2;
     ttl := hop_limit h; protocol := last; check := 0; saddr := sa; daddr := da |}.

Lemma prefixed_parts p a : take 4 (drop 8 (prefixed p a)) = enc BE 4 p /\ drop 12 (prefixed p a) = a.
Proof using Type. unfold prefixed. by rewrite (drop_app_length' (replicate 8 0)), take_app_length' by done. Qed.

(** Reading the extension headers of a packet. *)
Lemma chain_run h sa da hop l last seg : packet6_ok h sa da hop l last seg ->
  let src := packet6 h hop l last seg in
  let k := Z.of_nat (length (hop_enc hop (first_code l last)) + length (exts_enc l last)) in
  (c ← hop_by_hop src (Chain (Z.of_nat (length src) - 40) 0 (nexthdr h) 0 0);
   if 0 <? len_delta c then ext_loop (S (length src)) src c else Done c) =
  Done (Chain (Z.of_nat (length seg)) k last (exts_frag l (0, 0)).1 (exts_frag l (0, 0)).2).
Proof using Type.
  intros [Hh Hsa Hda Hn Hl Hhop Hex Hlast Hseg _ _]. cbn zeta. unfold packet6. set (o := hop_enc hop _) in *. set (x := exts_enc l last) in *.
  assert (length (ipv6_bytes h) = 40%nat) as H6.
  { destruct Hh as [_ Hf _ Hs6 Hd6]. unfold ipv6_bytes. by rewrite !length_app, length_enc, Hf, Hs6, Hd6. }
  assert (is_word 16 (payload_len h)) as Hw by apply Hh. unfold is_word in Hw.
  rewrite !length_app, H6, Hn. assert (first_code l last <> NEXTHDR_HOP) as Hfc.
  { destruct l as [|[] ?]; cbn [first_code ext_code]; try done. by destruct Hlast as [-> | -> ]. }
  rewrite (hop_run _ hop (first_code l last) (x ++ seg)) by (done || fold o; lia). fold o. cbn [mbind outcome_bind len_delta].
  rewrite (proj2 (Z.ltb_lt 0 _)) by lia. rewrite (app_assoc (ipv6_bytes h)).
  pose proof (exts_count l last Hex) as Hcnt. fold x in Hcnt.
  rewrite (ext_run l last seg _ (ipv6_bytes h ++ o)); cbn [opts_len len_delta next_hdr c_id c_frag_off]; fold x; try done.
  - f_equal. f_equal; lia.
  - by destruct Hlast as [-> | -> ].
  - rewrite length_app, H6. lia.
  - lia.
  - lia.
  - lia.
Qed.

Lemma ip6_ip4_plain included h sa da hop l last seg dst : packet6_ok h sa da hop l last seg ->
  length sa = 4%nat -> length da = 4%nat -> 20 + Z.of_nat (length seg) < 2 ^ 16 -> (20 + length seg <= length dst)%nat ->
  ip6_ip4_with e tos_ignore_flag included (packet6 h hop l last seg) (Z.of_nat (length (packet6 h hop l last seg))) dst false =
  Done (20 + Z.of_nat (length seg), ip4_bytes (header4 h sa da l last seg) ++ seg ++ drop (20 + length seg) dst).
Proof using Type.
  intros Hp Hsa Hda Hs Hd. pose proof (chain_run h sa da hop l last seg Hp) as Hc. cbn zeta in Hc.
  pose proof Hp as [Hh Hps Hpd Hn Hl _ _ Hlast Hseg _ _]. set (src := packet6 _ _ _ _ _) in *.
  assert (src = ipv6_bytes h ++ hop_enc hop (first_code l last) ++ exts_enc l last ++ seg) as Hsrc by done.
  assert (length (ipv6_bytes h) = 40%nat) as H6.
  { destruct Hh as [_ Hf _ Hs6 Hd6]. unfold ipv6_bytes. by rewrite !length_app, length_enc, Hf, Hs6, Hd6. }
  unfold ip6_ip4_with. rewrite (proj2 (Z.ltb_ge _ 0)) by (rewrite Hsrc, length_app; lia).
  rewrite Hsrc at 1. rewrite read_ipv6hdr_bytes by done. cbn [mbind outcome_bind].
  rewrite Hps, Hpd. destruct (prefixed_parts TRANSLATED_PREFIX sa) as [-> ->]. destruct (prefixed_parts MAPPED_PREFIX da) as [-> ->].
  rewrite !bool_decide_true by done. cbn [negb]. destruct (hop_by_hop src _) as [c1| |]; [|done..].
  cbn [mbind outcome_bind] in Hc |- *. rewrite Hc. cbn [mbind outcome_bind len_delta opts_len next_hdr c_id c_frag_off].
  rewrite (proj2 (Z.eqb_neq (payload_len h) 0)) by lia.
  set (k := (length (hop_enc hop _) + length (exts_enc l last))%nat) in *.
  set (h0 := {| ihl := 5; tos := if tos_ignore_flag then 0 else Z.lor (Z.shiftl (priority h) 4) (Z.shiftr (nth 0 (flow_lbl h) 0) 4);
     tot_len := 20 + Z.of_nat (length seg); id := (exts_frag l (0, 0)).1; frag_off := (exts_frag l (0, 0)).2;
     ttl := hop_limit h; protocol := last; check := 0; saddr := sa; daddr := da |}).
  assert (forall t, ip_bytes t (payload_len h + IP4_IP6_HDR_DIFF - Z.of_nat k) (id h0) (frag_off h0) (ttl h0) last sa da =
    ip4_bytes (Build_iphdr 5 t (tot_len h0) (id h0) (frag_off h0) (ttl h0) last 0 sa da)) as Hip.
  { intros t. unfold ip_bytes, ip4_bytes, u16, IP4_IP6_HDR_DIFF. cbn [ihl tos tot_len id frag_off ttl protocol check saddr daddr h0].
    rewrite wrap_small by (unfold is_word; lia). replace (payload_len h + 20 - Z.of_nat k) with (20 + Z.of_nat (length seg)) by lia. done. }
  cbn [h0 id frag_off ttl] in Hip. rewrite Hip. fold h0.
  destruct (split3 dst 20 (length seg) Hd) as (a & b & c & -> & Ha & Hb & <-).
  rewrite put_head by (unfold ip4_bytes; rewrite !length_app, !length_enc; cbn [saddr daddr]; rewrite Hsa, Hda; done).
  cbn [mbind outcome_bind]. rewrite header_checksum_run by done. cbn [mbind outcome_bind].
  rewrite (proj2 (Z.ltb_lt 0 _)) by lia. rewrite (proj2 (Z.eqb_neq last NEXTHDR_ICMP)) by (by destruct Hlast as [-> | -> ]).
  rewrite (copy_app _ b c _ src (ipv6_bytes h ++ hop_enc hop (first_code l last) ++ exts_enc l last) seg []); [done|..].
  - by rewrite Hsrc, app_nil_r, <- !app_assoc.
  - rewrite !length_app, H6. lia.
  - done.
  - unfold ip4_bytes. rewrite !length_app, !length_enc. cbn [summed set_check saddr daddr h0]. by rewrite Hsa, Hda.
  - done.
Qed.

(** C28: From IPv6 to IPv4.  A packet between translated addresses with any chain of hop-by-hop, destination options,
    routing (without segments left) and fragment headers in front of a TCP or UDP segment
    becomes an IPv4 packet of 20 + n bytes for a segment of n bytes: its addresses are
    the last four bytes of the IPv6 addresses, its time to live, traffic class and
    protocol those of the packet, its identification and fragment offset those of the
    last fragment header, its header checksum is right, and the segment
    is unchanged, with a right checksum exactly if it was right before. *)
Theorem ip6_ip4_correct h sa da hop l last seg dst :
  packet6_ok h sa da hop l last seg -> length sa = 4%nat -> length da = 4%nat ->
  20 + Z.of_nat (length seg) < 2 ^ 16 -> (20 + length seg <= length dst)%nat ->
  exists p h4, to4 (packet6 h hop l last seg) (Z.of_nat (length (packet6 h hop l last seg))) dst =
      Done (20 + Z.of_nat (length seg), p) /\
    take (20 + length seg) p = packet4 h4 [] seg /\ drop (20 + length seg) p = drop (20 + length seg) dst /\
    (ihl h4, tot_len h4, saddr h4, daddr h4) = (5, 20 + Z.of_nat (length seg), sa, da) /\
    (ttl h4, protocol h4) = (hop_limit h, last) /\ (id h4, frag_off h4) = exts_frag l (0, 0) /\
    tos h4 = (if tos_ignore_flag then 0 else priority h * 16 + nth 0 (flow_lbl h) 0 / 16) /\
    checksum_ok (ip4_bytes h4) /\
    (segment_ok4 h4 seg <-> checksum_ok (pseudo6 (saddr6 h) (daddr6 h) last (Z.of_nat (length seg)) ++ seg)).
Proof.
  intros Hp Hsa Hda Hs Hd. eexists _, (header4 h sa da l last seg).
  assert (length (ip4_bytes (header4 h sa da l last seg) ++ seg) = (20 + length seg)%nat) as Hlen.
  { unfold ip4_bytes, header4. rewrite !length_app, !length_enc. cbn [summed set_check saddr daddr]. by rewrite Hsa, Hda. }
  pose proof Hp as [Hh Hps Hpd _ Hl _ _ Hlast Hseg Hfl _]. split; [by apply ip6_ip4_plain|].
  rewrite app_assoc, take_app_length', drop_app_length' by done. split_and!; [done..| | | |].
  - cbn [header4 summed set_check id frag_off]. by destruct (exts_frag l (0, 0)).
  - cbn [header4 summed set_check tos]. destruct tos_ignore_flag; [done|]. destruct Hh as [Hpr Hf3 _ _ _].
    destruct (flow_lbl h) as [|f0 ?]; [done|]. apply Forall_cons in Hfl as [Hf0 _]. cbn [nth].
    unfold is_word in *. change (2 ^ 8) with 256 in Hf0. rewrite Z.lor_comm, (Z.shiftr_div_pow2 f0) by lia.
    rewrite lor_disjoint_add by (change (2 ^ 4) with 16; dlia). change (2 ^ 4) with 16. lia.
  - apply summed_ok; [done|]. change (Nat.Even (length sa)). rewrite Hsa. by apply Nat.even_spec.
  - rewrite Hps, Hpd. unfold segment_ok4. cbn [header4 summed set_check saddr daddr protocol]. symmetry.
    apply (pseudo_neutral sa da last); [done..|by destruct Hlast as [-> | -> ]|unfold is_word; lia].
Qed.

(** ** There and back *)

Context (dev_alloc_skb : nat -> Z -> option (list Z)) (stack : list Z) (array : Z -> list Z).

(** Allocation succeeds, and the array on the stack has its size. *)
Definition memory_ok : Prop :=
  (forall k n, 0 <= n -> exists m, dev_alloc_skb k n = Some m /\ length m = Z.to_nat n) /\ length stack = 2048%nat /\
  (forall n, length (array n) = Z.to_nat n).

Abbreviation xmit := (siit_xmit e tos_ignore_flag dev_alloc_skb stack array).

(** The fragment header as an extension header. *)
Definition frag_exts (h : iphdr) : list ext :=
  if fr_flag h false then
    [Frag 0 (Z.lor (Z.shiftl (Z.land (frag_off h) IP_OFFSET) 3) (Z.shiftr (Z.land (frag_off h) IP_MF) 13)) (id h)]
  else [].

(** The header that comes back: the identification and the offset of a packet that may not be
    fragmented are lost. *)
Definition returned (h : iphdr) : iphdr :=
  summed e {| ihl := 5; tos := if tos_ignore_flag then 0 else tos h; tot_len := tot_len h;
    id := if frag_off h =? IP_DF then 0 else id h; frag_off := if frag_off h =? IP_DF then 0 else Z.land (frag_off h) 0x3fff;
    ttl := ttl h; protocol := protocol h; check := 0; saddr := saddr h; daddr := daddr h |}.

Lemma translated_packet6 h data : hdr_ok h -> ihl h = 5 -> tot_len h = 20 + Z.of_nat (length data) -> tot_len h + 8 < 2 ^ 16 ->
  plain h data -> (0 < length data)%nat ->
  ipv6_bytes (ipv6_of tos_ignore_flag h false) ++ frag_bytes h false ++ data =
    packet6 (ipv6_of tos_ignore_flag h false) None (frag_exts h) (protocol h) data /\
  packet6_ok (ipv6_of tos_ignore_flag h false) (saddr h) (daddr h) None (frag_exts h) (protocol h) data.
Proof using Type.
  intros Hh Hi Ht Hs Hpl H0. assert (protocol h = IPPROTO_TCP \/ protocol h = IPPROTO_UDP) as Hpr.
  { destruct Hpl as [?|[? _]]; auto. }
  assert ((if protocol h =? IPPROTO_ICMP then NEXTHDR_ICMP else protocol h) = protocol h) as Hp6 by (by destruct Hpr as [-> | -> ]).
  assert (exts_enc (frag_exts h) (protocol h) = frag_bytes h false) as Hex.
  { unfold frag_exts, frag_bytes, frag_hdr. rewrite Hp6. destruct (fr_flag h false); [|done]. cbn [exts_enc ext_enc first_code].
    by rewrite app_nil_r. }
  assert (packet_ok h [] data) as Hpk by (constructor; [done|rewrite Hi; done|rewrite Hi; lia]).
  pose proof (plen_whole h [] data Hpk Hs) as Hlen. pose proof (length_frag_bytes h false) as Hfl.
  split; [unfold packet6; by rewrite Hex|]. constructor; try done.
  - by eapply ipv6_of_ok.
  - cbn [ipv6_of nexthdr hop_code]. rewrite Hp6. unfold frag_exts. by destruct (fr_flag h false).
  - rewrite Hex. cbn [ipv6_of payload_len hop_enc length]. lia.
  - unfold frag_exts. destruct (fr_flag h false); [|constructor]. repeat constructor; [by apply frag_bits, Hh..| |].
    + destruct (ok_id h Hh). lia.
    + destruct (ok_id h Hh). lia.
  - cbn [ipv6_of flow_lbl]. destruct (ok_tos h Hh). repeat constructor; try lia; destruct tos_ignore_flag; try lia; by apply tos_bits.
  - apply Hh.
Qed.

Lemma returned_header h data : hdr_ok h -> tot_len h = 20 + Z.of_nat (length data) ->
  header4 (ipv6_of tos_ignore_flag h false) (saddr h) (daddr h) (frag_exts h) (protocol h) data = returned h.
Proof using Type.
  intros Hh Ht. unfold header4, returned. rewrite Ht. cbn [ipv6_of priority flow_lbl hop_limit nth].
  assert ((if tos_ignore_flag then 0 else Z.lor (Z.shiftl (if tos_ignore_flag then 0 else Z.shiftr (Z.land (tos h) 0xf0) 4) 4)
    (Z.shiftr (if tos_ignore_flag then 0 else Z.shiftl (Z.land (tos h) 0x0f) 4) 4)) = if tos_ignore_flag then 0 else tos h) as ->.
  { destruct tos_ignore_flag; [done|]. apply tos_bits, Hh. }
  unfold frag_exts, fr_flag. rewrite orb_false_r. destruct (frag_off h =? IP_DF); [done|]. cbn [negb exts_frag fold_left ext_frag fst snd].
  fold (frag6 (frag_off h)) (frag4 (frag6 (frag_off h))). destruct (frag_bits (frag_off h) (ok_frag h Hh)) as [_ ->].
  unfold u16. rewrite wrap_small; [done|]. apply Hh.
Qed.

(** A packet that the device translates as a whole, without fragmenting it. *)
Record small_packet (h : iphdr) (data : list Z) : Prop := {
  sp_hdr : hdr_ok h;
  sp_ihl : ihl h = 5;
  sp_tot : tot_len h = 20 + Z.of_nat (length data);
  sp_plain : plain h data;
  sp_pos : (0 < length data)%nat;
  sp_size : Z.of_nat (length data) <= (if Z.land (frag_off h) IP_DF =? 0 then FRAG_BUFF_SIZE else 2028) }.

Lemma small_size h data : small_packet h data -> Z.of_nat (length data) <= 2028.
Proof using Type. intros [_ _ _ _ _ Hs]. unfold FRAG_BUFF_SIZE in Hs. case_match; lia. Qed.

(** The device sends the translated packet. *)
Lemma xmit_small mac h data d : memory_ok -> small_packet h data ->
  exists d1, xmit mac ETH_P_IP (packet4 h [] data) d = Done d1 /\
    received d1 = received d ++ [Packet (take 12 mac ++ enc BE 2 ETH_P_IPV6) ETH_P_IPV6
      (ipv6_bytes (ipv6_of tos_ignore_flag h false) ++ frag_bytes h false ++ data)] /\
    tx_packets d1 = tx_packets d + 1.
Proof using Type.
  intros (Hal & _ & _) Hsp. pose proof (small_size h data Hsp) as Hsz. destruct Hsp as [Hh Hi Ht Hpl H0 Hsize].
  assert (packet_ok h [] data) as Hpk by (constructor; [done|rewrite Hi; done|rewrite Hi; lia]).
  pose proof (length_packet4 h [] data Hpk) as Hlen. unfold siit_xmit. change (ETH_P_IP =? ETH_P_IP) with true. cbn iota.
  pose proof (read_packet4 h [] data [] Hpk) as Hrd. rewrite app_nil_r in Hrd.
  unfold xmit_ipv4. rewrite Hrd. cbn [mbind outcome_bind].
  rewrite Hlen, Z.eqb_refl. cbn [negb]. rewrite (proj2 (andb_false_iff _ _)).
  2:{ destruct (Z.land (frag_off h) IP_DF =? 0); [right|by left]. rewrite Hi. apply Z.ltb_ge. lia. }
  assert (protocol h =? IPPROTO_ICMP = false) as -> by (destruct Hpl as [-> | [-> _]]; done). cbn [mbind outcome_bind].
  set (delta := if frag_off h =? IP_DF then _ else _).
  assert (delta = 20 + fr_len h false) as Hdelta.
  { subst delta. unfold fr_len, fr_flag, IP4_IP6_HDR_DIFF, IP6_FRAGMENT_SIZE. rewrite orb_false_r. by destruct (frag_off h =? IP_DF). }
  pose proof (length_frag_bytes h false) as Hfl.
  destruct (Hal (allocs (add_rx d (Z.of_nat (length mac + length (packet4 h [] data))))) (tot_len h + 14 + delta)) as (m & -> & Hm); [lia|].
  pose proof (ip4_ip6_plain e tos_ignore_flag (ip4_included e tos_ignore_flag) h [] data [] false (drop 14 m) Hpk Hpl) as Hrun.
  rewrite app_nil_r in Hrun. unfold ip4_ip6. rewrite Hrun by (rewrite length_drop; lia).
  rewrite drop_ge, app_nil_r by (rewrite length_drop; lia). eexists. split; [reflexivity|]. done.
Qed.

(** C19: There and back.  An unfragmented or already fragmented IPv4 packet without options that holds TCP, or UDP with a
    checksum, is sent on as one IPv6 packet; when that packet comes to a translator, it
    becomes the original packet again: the payload is the same, and the header
    has the same length, type of service, time to live, protocol and addresses, a right
    checksum, and the same identification, offset and more-fragments flag, unless the
    packet may not be fragmented; then identification and don't-fragment flag are lost. *)
Theorem siit_roundtrip mac h data d : memory_ok -> small_packet h data ->
  exists d1 p, xmit mac ETH_P_IP (packet4 h [] data) d = Done d1 /\
    received d1 = received d ++ [p] /\ p_protocol p = ETH_P_IPV6 /\
    forall mac' d', exists d2, xmit mac' ETH_P_IPV6 (p_data p) d' = Done d2 /\
      received d2 = received d' ++ [Packet (take 12 mac' ++ enc BE 2 ETH_P_IP) ETH_P_IP (packet4 (returned h) [] data)].
Proof using Type.
  intros Hmem Hsp. destruct (xmit_small mac h data d Hmem Hsp) as (d1 & Hx & Hrec & _).
  eexists d1, _. split_and!; [exact Hx|exact Hrec|done|]. intros mac' d'. destruct Hmem as (Hal & Hst & _).
  pose proof (small_size h data Hsp) as Hsz. destruct Hsp as [Hh Hi Ht Hpl H0 Hsize].
  destruct (translated_packet6 h data Hh Hi Ht ltac:(lia) Hpl H0) as [Heq Hok].
  unfold siit_xmit. change (ETH_P_IPV6 =? ETH_P_IP) with false. change (ETH_P_IPV6 =? ETH_P_IPV6) with true. cbn iota.
  unfold xmit_ipv6, ip6_ip4. cbn [p_data]. rewrite Heq.
  rewrite (ip6_ip4_plain _ _ (saddr h) (daddr h)) by (done || apply Hh || lia).
  rewrite returned_header by done.
  destruct (Hal (allocs (add_rx d' (Z.of_nat (length mac' + length (packet6 (ipv6_of tos_ignore_flag h false) None (frag_exts h) (protocol h) data)))))
    (20 + Z.of_nat (length data) + 14)) as (m & -> & Hm); [lia|].
  assert (length (ip4_bytes (returned h) ++ data) = (20 + length data)%nat) as Hl.
  { unfold ip4_bytes. rewrite !length_app, !length_enc. cbn [returned summed set_check saddr daddr].
    by rewrite (ok_saddr h Hh), (ok_daddr h Hh). }
  rewrite (app_assoc (ip4_bytes _)). set (pk := ip4_bytes (returned h) ++ data) in *.
  rewrite <- (app_nil_r (drop 14 m)). rewrite (copy_app [] (drop 14 m) [] 0 _ [] pk (drop (20 + length data) stack));
    [|done|done|lia|done|rewrite length_drop; lia].
  cbn [mbind outcome_bind app]. rewrite app_nil_r. eexists. split; [reflexivity|]. done.
Qed.

End theorems.
