(* ===== verification/SiitFrag.v ===== *)
(** * Fragmentation

    Packets that would be longer than 1280 bytes are cut before they are
    translated; the fragments put together are the packet. *)

From stdpp Require Import options.
From S2P Require Import Prelude Siit SiitFacts SiitProps.

Set Default Proof Using "Type*".

(** ** Reading and joining fragments *)

(** What a fragment says of itself: addresses, protocol, identification, offset in units of
    eight bytes, more-fragments flag and data. *)
Record fragment := Fragment { f_src : list Z; f_dst : list Z; f_proto : Z; f_ident : Z; f_off : Z; f_more : bool; f_data : list Z }.

Definition fragment6 (p : list Z) : option fragment :=
  match read_ipv6hdr p with
  | Done h =>
      let body := take (Z.to_nat (payload_len h)) (drop 40 p) in
      if (nexthdr h =? NEXTHDR_FRAGMENT) && bool_decide (8 <= length body)%nat then
        let off := dec BE (take 2 (drop 2 body)) in
        Some (Fragment (saddr6 h) (daddr6 h) (nth 0 body 0) (dec BE (take 4 (drop 4 body))) (off / 8) (Z.odd off) (drop 8 body))
      else None
  | _ => None
  end.

(** The fragments, in order, hold [data] from the offset [off] on; [more] fragments follow the last. *)
Inductive pieces (src dst : list Z) (proto ident : Z) : Z -> list fragment -> list Z -> bool -> Prop :=
| pieces_last off data more : pieces src dst proto ident off [Fragment src dst proto ident off more data] data more
| pieces_more off data l rest more : Z.of_nat (length data) mod 8 = 0 ->
    pieces src dst proto ident (off + Z.of_nat (length data) / 8) l rest more ->
    pieces src dst proto ident off (Fragment src dst proto ident off true data :: l) (data ++ rest) more.

Lemma frag6_read o m : 0 <= o < 8192 ->
  let v := frag6 (if m : bool then Z.lor o IP_MF else o) in v / 8 = o /\ Z.odd v = m /\ is_word 16 v.
Proof.
  intros Ho. cbn zeta. set (ok := fun o => forallb (fun m => let v := frag6 (if m : bool then Z.lor o IP_MF else o) in
    (v / 8 =? o) && Bool.eqb (Z.odd v) m && (0 <=? v) && (v <? 65536)) [true; false]).
  assert (forallb ok (seqZ 0 8192) = true) as Hall by (vm_compute; reflexivity).
  rewrite forallb_forall in Hall. specialize (Hall o). rewrite <- list_elem_of_In, elem_of_seqZ in Hall.
  specialize (Hall ltac:(lia)). subst ok. cbn [forallb] in Hall. unfold is_word. change (2 ^ 16) with 65536.
  destruct m; b2p; split_and!; try lia; by apply eqb_prop.
Qed.

Lemma offset_bits o : 0 <= o < 8192 ->
  Z.ldiff o IP_MF = o /\ Z.land o IP_OFFSET = o /\ Z.land (Z.lor o IP_MF) IP_OFFSET = o /\
  Z.lor o IP_MF = o + 8192.
Proof.
  intros Ho. set (ok := fun o => (Z.ldiff o IP_MF =? o) && (Z.land o IP_OFFSET =? o) && (Z.land (Z.lor o IP_MF) IP_OFFSET =? o) &&
    (Z.lor o IP_MF =? o + 8192)).
  assert (forallb ok (seqZ 0 8192) = true) as Hall by (vm_compute; reflexivity).
  rewrite forallb_forall in Hall. specialize (Hall o). rewrite <- list_elem_of_In, elem_of_seqZ in Hall.
  specialize (Hall ltac:(lia)). subst ok. cbn beta in Hall. b2p. split_and!; lia.
Qed.

Section fragments.
Context (e : endian) `{CL : CsumLaws e} (tos_ignore_flag : bool).
Context (dev_alloc_skb : nat -> Z -> option (list Z)) (stack : list Z) (array : Z -> list Z).

(** ** One fragment *)

Definition with_frag (h : iphdr) (off tot : Z) : iphdr :=
  {| ihl := ihl h; tos := tos h; tot_len := tot; id := id h; frag_off := off; ttl := ttl h; protocol := protocol h;
     check := 0; saddr := saddr h; daddr := daddr h |}.

(** [frag_header] turns the copied header into that of the fragment. *)
Lemma frag_header_run h rest off tot : hdr_ok h -> ihl h = 5 -> is_word 16 tot ->
  frag_header e (ip4_bytes h ++ rest) 20 (id h) off tot = Done (ip4_bytes (summed e (with_frag h off tot)) ++ rest).
Proof using Type.
  intros Hh Hi Ht. unfold frag_header, u16. rewrite wrap_small by done.
  rewrite (ip4_bytes_split h). unfold first10. rewrite <- !app_assoc.
  set (a := [64 + ihl h; tos h]). set (c := enc BE 2 (check h) ++ _).
  rewrite (app_assoc a), put_app by (by rewrite ?length_app, ?length_enc). cbn [mbind outcome_bind].
  rewrite <- (app_assoc a). rewrite (app_assoc a), (app_assoc (a ++ _)), put_app by (by rewrite ?length_app, ?length_enc).
  cbn [mbind outcome_bind]. rewrite <- !app_assoc, put_app by (by rewrite ?length_app, ?length_enc). cbn [mbind outcome_bind].
  set (h1 := set_check (with_frag h off tot) (check h)).
  assert (a ++ enc BE 2 tot ++ enc BE 2 (id h) ++ enc BE 2 off ++ [ttl h; protocol h] ++ c = ip4_bytes h1 ++ rest) as ->.
  { subst h1 a c. unfold ip4_bytes. by rewrite <- !app_assoc. }
  change (header_checksum e (ip4_bytes h1 ++ rest) = Done (ip4_bytes (summed e (with_frag h off tot)) ++ rest)).
  rewrite header_checksum_run by apply Hh. done.
Qed.

(** The bytes sent for the fragment with the offset [o]. *)
Definition frag_packet (h : iphdr) (chunk : list Z) : list Z :=
  ipv6_bytes (ipv6_of tos_ignore_flag h false) ++ frag_hdr h ++ chunk.

Lemma fragment6_packet h chunk o m : hdr_ok h -> ihl h = 5 -> tot_len h = 20 + Z.of_nat (length chunk) -> (length chunk <= 1232)%nat ->
  0 <= o < 8192 -> frag_off h = (if m : bool then Z.lor o IP_MF else o) -> protocol h <> IPPROTO_ICMP ->
  fragment6 (frag_packet h chunk) =
  Some (Fragment (prefixed MAPPED_PREFIX (saddr h)) (prefixed TRANSLATED_PREFIX (daddr h)) (protocol h) (id h) o m chunk).
Proof using Type.
  intros Hh Hi Ht Hc Ho Hfo Hp. assert (packet_ok h [] chunk) as Hpk by (constructor; [done|rewrite Hi; done|rewrite Hi; lia]).
  assert (fr_flag h false = true) as Hfr.
  { unfold fr_flag. rewrite orb_false_r. apply negb_true_iff, Z.eqb_neq. rewrite Hfo. unfold IP_DF.
    destruct (offset_bits o Ho) as (_ & _ & _ & Hlor). destruct m; lia. }
  unfold fragment6, frag_packet. rewrite read_ipv6hdr_bytes by (eapply ipv6_of_ok; [done|lia]).
  pose proof (plen_whole h [] chunk Hpk ltac:(lia)) as Hpl. unfold fr_len, IP6_FRAGMENT_SIZE in Hpl. rewrite Hfr in Hpl.
  assert (length (frag_hdr h) = 8%nat) as H8 by (unfold frag_hdr; by rewrite !length_app, !length_enc).
  rewrite drop_app_length' by (by rewrite length_ipv6_bytes). cbn [ipv6_of payload_len nexthdr saddr6 daddr6]. rewrite Hfr.
  rewrite take_ge by (rewrite length_app; lia). rewrite bool_decide_true by (rewrite length_app; lia).
  change (NEXTHDR_FRAGMENT =? NEXTHDR_FRAGMENT) with true. cbn [andb].
  assert (drop 8 (frag_hdr h ++ chunk) = chunk) as -> by (by apply drop_app_length').
  unfold frag_hdr. rewrite (proj2 (Z.eqb_neq _ _) Hp). rewrite <- !app_assoc. fold (frag6 (frag_off h)). rewrite enc_be2. cbn [app nth drop take].
  destruct (frag6_read o m Ho) as (Hv1 & Hv2 & Hv3). rewrite <- Hfo in Hv1, Hv2, Hv3. rewrite dec2, Hv1, Hv2 by done.
  rewrite drop_0, take_app_length' by (by rewrite length_enc). rewrite dec4; [done|].
  destruct (ok_id h Hh). unfold is_word. lia.
Qed.

(** The fragment in the buffer. *)
Lemma buff_filled h data k chunk rest buff off : hdr_ok h -> ihl h = 5 -> drop k data = chunk ++ rest -> (k <= length data)%nat ->
  (length chunk <= 1232)%nat -> length buff = 1252%nat ->
  exists stale, length stale = (1232 - length chunk)%nat /\
  (b ← copy buff 0 (packet4 h [] data) 0 20; b ← copy b 20 (packet4 h [] data) (20 + k) (Z.of_nat (length chunk));
   frag_header e b 20 (id h) off (Z.of_nat (length chunk) + 20)) =
  Done (ip4_bytes (summed e (with_frag h off (Z.of_nat (length chunk) + 20))) ++ chunk ++ stale).
Proof using Type.
  intros Hh Hi Hdrop Hk Hc Hb. pose proof (length_ip4_bytes h Hh) as H20.
  destruct (split3 buff 20 (length chunk)) as (a & b & stale & -> & Ha & Hbl & Hst); [lia|].
  exists stale. split; [rewrite !length_app in Hb; lia|].
  assert (copy (a ++ b ++ stale) 0 (packet4 h [] data) 0 20 = Done (ip4_bytes h ++ b ++ stale)) as ->.
  { apply (copy_app [] a (b ++ stale) 0 (packet4 h [] data) [] (ip4_bytes h) data 0 20); [done|done|lia|done|lia]. }
  cbn [mbind outcome_bind].
  assert (packet4 h [] data = (ip4_bytes h ++ take k data) ++ chunk ++ rest) as Hsrc.
  { unfold packet4. cbn [app]. rewrite <- app_assoc, <- Hdrop, take_drop. done. }
  rewrite (copy_app (ip4_bytes h) b stale 20 (packet4 h [] data) (ip4_bytes h ++ take k data) chunk rest); [|done| |done|done|done].
  2:{ rewrite length_app, length_take. lia. }
  cbn [mbind outcome_bind]. apply frag_header_run; [done..|]. unfold is_word. lia.
Qed.

Lemma with_frag_ok h off tot : hdr_ok h -> is_word 16 off -> is_word 16 tot -> hdr_ok (summed e (with_frag h off tot)).
Proof using Type.
  intros [] Ho Ht. constructor; try done. cbn [summed set_check check]. set (l := enc e 2 _).
  assert (length (rev l) = 2%nat) as Hl by (rewrite length_rev; apply length_enc).
  pose proof (le_val_range (rev l) ltac:(apply Forall_rev, enc_range)) as Hr. rewrite Hl in Hr. exact Hr.
Qed.

(** ** The loop *)

Definition frag_plain (h : iphdr) (o : Z) (rest : list Z) : Prop :=
  protocol h = IPPROTO_TCP \/
  (protocol h = IPPROTO_UDP /\ (o <> 0 \/ ((8 <= length rest)%nat /\ dec BE (take 2 (drop 6 rest)) <> 0))).

(** A fragment is translated. *)
Lemma frag_translated h o m chunk stale mem : hdr_ok h -> ihl h = 5 -> 0 <= o < 8192 -> (length chunk <= 1232)%nat ->
  frag_plain h o chunk -> length mem = (length chunk + 62)%nat ->
  let h1 := summed e (with_frag h (if m : bool then Z.lor o IP_MF else o) (Z.of_nat (length chunk) + 20)) in
  ip4_ip6 e tos_ignore_flag (ip4_bytes h1 ++ chunk ++ stale) (Z.of_nat (length chunk) + 20) (drop 14 mem) =
    Done (frag_packet h1 chunk) /\
  length (frag_packet h1 chunk) = (48 + length chunk)%nat /\
  fragment6 (frag_packet h1 chunk) =
    Some (Fragment (prefixed MAPPED_PREFIX (saddr h)) (prefixed TRANSLATED_PREFIX (daddr h)) (protocol h) (id h) o m chunk).
Proof using Type.
  intros Hh Hi Ho Hc Hpl Hm. cbn zeta. destruct (offset_bits o Ho) as (_ & Hoff & HoffM & Hlor).
  set (off := if m then _ else o). set (h1 := summed e _).
  assert (is_word 16 off) as Hw by (subst off; unfold is_word; destruct m; lia).
  assert (hdr_ok h1) as Hh1 by (apply with_frag_ok; [done..|unfold is_word; lia]).
  assert (packet_ok h1 [] chunk) as Hpk by (constructor; [done|cbn; rewrite Hi; done|cbn; rewrite Hi; lia]).
  assert (Z.land (frag_off h1) IP_OFFSET = o) as Ho1 by (cbn [h1 summed set_check with_frag frag_off]; subst off; by destruct m).
  assert (fr_flag h1 false = true) as Hfr.
  { unfold fr_flag. rewrite orb_false_r. apply negb_true_iff, Z.eqb_neq. cbn [h1 summed set_check with_frag frag_off]. subst off.
    unfold IP_DF. destruct m; lia. }
  assert (length (frag_hdr h1) = 8%nat) as H8 by (unfold frag_hdr; by rewrite !length_app, !length_enc).
  assert (frag_bytes h1 false = frag_hdr h1) as Hfb by (unfold frag_bytes; by rewrite Hfr).
  split_and!.
  - replace (Z.of_nat (length chunk) + 20) with (tot_len h1) by done.
    pose proof (ip4_ip6_plain e tos_ignore_flag (ip4_included e tos_ignore_flag) h1 [] chunk stale false (drop 14 mem) Hpk) as Hrun.
    unfold packet4 in Hrun. cbn [app] in Hrun. rewrite <- app_assoc in Hrun. unfold ip4_ip6. rewrite Hrun, Hfb.
    + rewrite drop_ge, app_nil_r by (rewrite length_drop; lia). done.
    + destruct Hpl as [?|[? Hor]]; [by left|right]. split; [done|]. rewrite Ho1. done.
    + rewrite Hfb, length_drop. lia.
  - unfold frag_packet. rewrite !length_app, length_ipv6_bytes, H8 by done. lia.
  - apply (fragment6_packet h1 chunk o m); try done; [cbn; lia|]. destruct Hpl as [Hp|[Hp _]]; cbn; by rewrite Hp.
Qed.

Definition sent_ok (p : packet) : Prop := p_protocol p = ETH_P_IPV6 /\ (length (p_data p) <= 1280)%nat.

Abbreviation loop := (frag_loop e tos_ignore_flag dev_alloc_skb).
Abbreviation joins h := (pieces (prefixed MAPPED_PREFIX (saddr h)) (prefixed TRANSLATED_PREFIX (daddr h)) (protocol h) (id h)).

(** One round: the fragment is delivered and the loop ends or goes on. *)
Lemma frag_round fuel mac h data k chunk rest last o flag buff d : memory_ok dev_alloc_skb stack array -> hdr_ok h -> ihl h = 5 ->
  drop k data = chunk ++ rest -> (k <= length data)%nat -> 0 <= o < 8192 -> frag_plain h o chunk -> length buff = 1252%nat ->
  last = (Z.of_nat (length (chunk ++ rest)) <=? FRAG_BUFF_SIZE) ->
  Z.of_nat (length chunk) = (if last then Z.of_nat (length (chunk ++ rest)) else FRAG_BUFF_SIZE) ->
  exists buff' p d1, length buff' = 1252%nat /\ sent_ok p /\ received d1 = received d ++ [p] /\
    fragment6 (p_data p) = Some (Fragment (prefixed MAPPED_PREFIX (saddr h)) (prefixed TRANSLATED_PREFIX (daddr h)) (protocol h)
      (id h) o (negb (last && flag)) chunk) /\
    loop (S fuel) mac (packet4 h [] data) 20 (id h) flag (20 + k) (Z.of_nat (length (chunk ++ rest))) o buff d =
    if last then Done (0, d1)
    else loop fuel mac (packet4 h [] data) 20 (id h) flag (20 + k + length chunk)
           (Z.of_nat (length (chunk ++ rest)) - Z.of_nat (length chunk)) (u16 ((o * 8 + Z.of_nat (length chunk)) / 8)) buff' d1.
Proof using Type.
  intros (Hal & _ & _) Hh Hi Hdrop Hk Ho Hpl Hb Hlast Hlen. unfold FRAG_BUFF_SIZE in *.
  assert (length chunk <= 1232)%nat as Hc by (destruct last; [symmetry in Hlast; b2p|]; lia).
  cbn [frag_loop]. unfold FRAG_BUFF_SIZE. rewrite <- Hlast, <- Hlen. destruct (offset_bits o Ho) as (Hld & _ & _ & _).
  set (off := if last && flag then Z.ldiff o IP_MF else Z.lor o IP_MF).
  assert (off = if negb (last && flag) then Z.lor o IP_MF else o) as Hoff by (subst off; rewrite Hld; by destruct (last && flag)).
  destruct (buff_filled h data k chunk rest buff off Hh Hi Hdrop Hk Hc Hb) as (stale & Hst & Hfill).
  destruct (copy buff 0 (packet4 h [] data) 0 20) as [b1| |]; [|discriminate..]. cbn [mbind outcome_bind] in Hfill |- *.
  change (Z.to_nat 20) with 20%nat.
  destruct (copy b1 20 _ _ _) as [b2| |]; [|discriminate..]. cbn [mbind outcome_bind] in Hfill |- *. rewrite Hfill. cbn [mbind outcome_bind].
  destruct (Hal (allocs d) (Z.of_nat (length chunk) + 20 + 14 + IP4_IP6_HDR_DIFF + IP6_FRAGMENT_SIZE)) as (m & -> & Hm);
    [unfold IP4_IP6_HDR_DIFF, IP6_FRAGMENT_SIZE; lia|].
  destruct (frag_translated h o (negb (last && flag)) chunk stale m Hh Hi Ho Hc Hpl) as (Hrun & Hlp & Hfr);
    [unfold IP4_IP6_HDR_DIFF, IP6_FRAGMENT_SIZE in Hm; lia|].
  rewrite <- Hoff in Hrun, Hlp, Hfr. rewrite Hrun. set (h1 := summed e _) in *.
  exists (ip4_bytes h1 ++ chunk ++ stale), (Packet (take 12 mac ++ enc BE 2 ETH_P_IPV6) ETH_P_IPV6 (frag_packet h1 chunk)).
  exists (deliver mac ETH_P_IPV6 (frag_packet h1 chunk) (add_alloc d)). split_and!; [| |reflexivity|exact Hfr|].
  - rewrite !length_app, length_ip4_bytes by (apply with_frag_ok; [done|subst off; unfold is_word;
      destruct (offset_bits o Ho) as (_ & _ & _ & Hlor); destruct (last && flag); lia|unfold is_word; lia]). lia.
  - split; [done|]. cbn [p_data]. lia.
  - rewrite Nat2Z.id. done.
Qed.

Lemma frag_loop_run mac h data flag : memory_ok dev_alloc_skb stack array -> hdr_ok h -> ihl h = 5 ->
  forall fuel k rest o buff d, drop k data = rest -> (k <= length data)%nat -> (0 < length rest < fuel)%nat ->
  0 <= o -> o * 8 + Z.of_nat (length rest) < 2 ^ 16 -> frag_plain h o rest -> length buff = 1252%nat ->
  exists frs pcs d1,
    loop fuel mac (packet4 h [] data) 20 (id h) flag (20 + k) (Z.of_nat (length rest)) o buff d = Done (0, d1) /\
    received d1 = received d ++ frs /\ Forall sent_ok frs /\
    map (fun p => fragment6 (p_data p)) frs = map Some pcs /\ joins h o pcs rest (negb flag).
Proof using Type.
  intros Hmem Hh Hi. induction fuel as [|fuel IH]; intros k rest o buff d Hdrop Hk Hr Ho Hsz Hpl Hb; [lia|].
  destruct (Z.of_nat (length rest) <=? FRAG_BUFF_SIZE) eqn:Hlast.
  - destruct (frag_round fuel mac h data k rest [] true o flag buff d) as (buff' & p & d1 & _ & Hsent & Hrec & Hfr & Hrun);
      rewrite ?app_nil_r; try done; [lia|]. rewrite app_nil_r in Hrun.
    exists [p], [Fragment (prefixed MAPPED_PREFIX (saddr h)) (prefixed TRANSLATED_PREFIX (daddr h)) (protocol h) (id h) o (negb flag) rest], d1.
    split_and!; [done|done|by constructor|cbn [map]; by rewrite Hfr|constructor].
  - b2p. unfold FRAG_BUFF_SIZE in *. assert (length (take 1232 rest) = 1232%nat) as Hl by (rewrite length_take; lia).
    destruct (frag_round fuel mac h data k (take 1232 rest) (drop 1232 rest) false o flag buff d)
      as (buff' & p & d1 & Hb' & Hsent & Hrec & Hfr & Hrun); rewrite ?take_drop; try done; [lia| | |rewrite Hl; done|].
    { destruct Hpl as [?|[? Hor]]; [by left|right]. split; [done|]. destruct Hor as [?|[? ?]]; [by left|right].
      rewrite Hl, skipn_firstn_comm, take_take. split; [lia|done]. }
    { symmetry. apply Z.leb_gt. unfold FRAG_BUFF_SIZE. lia. }
    rewrite take_drop, Hl in Hrun. change (Z.of_nat 1232) with 1232 in Hrun.
    replace (u16 ((o * 8 + 1232) / 8)) with (o + 154) in Hrun by (unfold u16; rewrite wrap_small; [dlia|unfold is_word; dlia]).
    replace (Z.of_nat (length rest) - 1232) with (Z.of_nat (length (drop 1232 rest))) in Hrun by (rewrite length_drop; lia).
    replace (20 + k + 1232)%nat with (20 + (k + 1232))%nat in Hrun by lia.
    assert (k + 1232 <= length data)%nat as Hk' by (apply (f_equal length) in Hdrop; rewrite length_drop in Hdrop; lia).
    destruct (IH (k + 1232)%nat (drop 1232 rest) (o + 154) buff' d1) as (frs & pcs & d2 & Hrun2 & Hrec2 & Hs2 & Hf2 & Hj2);
      rewrite ?length_drop; try done; try lia; [by rewrite <- drop_drop, Hdrop| |].
    { destruct Hpl as [?|[? _]]; [by left|right]. split; [done|left; lia]. }
    exists (p :: frs), (Fragment (prefixed MAPPED_PREFIX (saddr h)) (prefixed TRANSLATED_PREFIX (daddr h)) (protocol h) (id h) o true (take 1232 rest) :: pcs), d2.
    split_and!; [by rewrite Hrun|by rewrite Hrec2, Hrec, <- app_assoc|by constructor|cbn [map]; rewrite Hfr, Hf2; done|].
    rewrite <- (take_drop 1232 rest) at 2. constructor; rewrite Hl; [done|]. exact Hj2.
Qed.

(** C26: Long packets.  An IPv4 packet without options that may be fragmented, has more than 1232 bytes of TCP, or of UDP with a
    checksum, is sent as IPv6 fragments of at most 1280 bytes each, all with the
    mapped addresses, the protocol and the identification of the packet; read in order, their offsets follow each
    other from the offset of the packet on, all but the last have the more-fragments
    flag, the last has that of the packet, and their data put together are
    the data of the packet. *)
Theorem siit_fragments mac h data d : memory_ok dev_alloc_skb stack array -> hdr_ok h -> ihl h = 5 ->
  tot_len h = 20 + Z.of_nat (length data) -> Z.land (frag_off h) IP_DF = 0 -> 1232 < Z.of_nat (length data) ->
  Z.land (frag_off h) IP_OFFSET * 8 + Z.of_nat (length data) < 2 ^ 16 -> plain h data ->
  exists frs pcs d1,
    siit_xmit e tos_ignore_flag dev_alloc_skb stack array mac ETH_P_IP (packet4 h [] data) d = Done d1 /\
    received d1 = received d ++ frs /\ Forall sent_ok frs /\
    map (fun p => fragment6 (p_data p)) frs = map Some pcs /\
    joins h (Z.land (frag_off h) IP_OFFSET) pcs data (negb (Z.land (frag_off h) IP_MF =? 0)).
Proof using Type.
  intros Hmem Hh Hi Ht Hdf Hbig Hsz Hpl.
  assert (packet_ok h [] data) as Hpk by (constructor; [done|rewrite Hi; done|rewrite Hi; lia]).
  pose proof (length_packet4 h [] data Hpk) as Hlen. unfold siit_xmit. change (ETH_P_IP =? ETH_P_IP) with true. cbn iota.
  pose proof (read_packet4 h [] data [] Hpk) as Hrd. rewrite app_nil_r in Hrd.
  unfold xmit_ipv4. rewrite Hrd. cbn [mbind outcome_bind]. rewrite Hlen, Z.eqb_refl, Hdf, Hi. unfold FRAG_BUFF_SIZE at 1. cbn [negb].
  rewrite (proj2 (Z.ltb_lt 1232 _)) by lia. cbn [andb Z.eqb]. unfold ip4_fragment. rewrite Hrd. cbn [mbind outcome_bind].
  assert (fragment_udp e h (packet4 h [] data) 20 (Z.land (frag_off h) IP_MF =? 0) = Done (Some (packet4 h [] data))) as Hudp.
  { unfold fragment_udp. destruct Hpl as [-> | [-> Hor]]; [done|]. change (IPPROTO_UDP =? IPPROTO_UDP) with true. cbn [andb].
    destruct (Z.land (frag_off h) IP_OFFSET =? 0) eqn:Hoff; [|done]. destruct Hor as [?|[H8 Hc]]; [by b2p|].
    pose proof (be16_data (ip4_bytes h) data [] 6 ltac:(lia)) as Hbe. rewrite app_nil_r, length_ip4_bytes in Hbe by done.
    change (ip4_bytes h ++ data) with (packet4 h [] data) in Hbe. rewrite Hbe. cbn [mbind outcome_bind]. rewrite (proj2 (Z.eqb_neq _ _) Hc).
    by destruct (Z.land (frag_off h) IP_MF =? 0). }
  change (Z.to_nat (5 * 4)) with 20%nat. rewrite Hudp. cbn [mbind outcome_bind].
  replace (tot_len h - 5 * 4) with (Z.of_nat (length data)) by lia. change (5 * 4) with 20.
  assert (0 <= Z.land (frag_off h) IP_OFFSET) as Hnn by (apply Z.land_nonneg; right; done).
  destruct (frag_loop_run mac h data (Z.land (frag_off h) IP_MF =? 0) Hmem Hh Hi (S (length (packet4 h [] data))) 0 data
    (Z.land (frag_off h) IP_OFFSET) (array (FRAG_BUFF_SIZE + 20)) (add_rx d (Z.of_nat (length mac + length (packet4 h [] data)))))
    as (frs & pcs & d1 & Hrun & Hrec & Hrest); [done|lia|unfold packet4; rewrite !length_app; lia|done|done|done| |].
  { destruct Hmem as (_ & _ & Har). by rewrite Har. }
  exists frs, pcs, d1. change (20 + 0)%nat with 20%nat in Hrun. rewrite Hrun. split; [done|]. split; [exact Hrec|exact Hrest].
Qed.

End fragments.
