(* ===== verification/SiitDemo.v ===== *)
(** * The translator on concrete packets

    An instance of the checksum functions, the inputs at which the theorems are applied, and
    packets with which the code does something else than it means to. *)

From stdpp Require Import options.
From S2P Require Import Prelude Siit SiitFacts SiitProps SiitFrag.

(** ** Reference checksums *)

(** The complement of the folded sum, which is only 0 for the sum 0. *)
Definition complement (s : Z) : Z := if s =? 0 then 65535 else 65534 - (s - 1) mod 65535.

Definition ref_csum (e : endian) : Csum := {|
  csum_partial b s := (sum16 e b + s) mod 65535;
  csum_ipv6_magic sa da len proto s :=
    complement (sum16 e sa + sum16 e da + sum16 e (enc BE 4 len) + sum16 e (enc BE 4 proto) + s);
  csum_tcpudp_magic sa da len proto s :=
    complement (sum16 e sa + sum16 e da + sum16 e (enc BE 4 len) + sum16 e (enc BE 4 proto) + s);
  ip_fast_csum b := complement (sum16 e b);
  ip_compute_csum b := complement (sum16 e b) |}.

Lemma complement_word s : is_word 16 (complement s).
Proof. unfold complement, is_word. pose proof (Z.mod_pos_bound (s - 1) 65535). case_match; lia. Qed.

Lemma complement_sum s : (complement s + s) mod 65535 = 0.
Proof.
  unfold complement. destruct (Z.eqb_spec s 0) as [-> |]; [done|].
  apply Z.mod_divide; [lia|]. exists (1 + (s - 1) / 65535). pose proof (Z.div_mod (s - 1) 65535). lia.
Qed.

Lemma complement_ones s : s <> 0 -> complement s <> 65535.
Proof. unfold complement. intros Hs%Z.eqb_neq. rewrite Hs. pose proof (Z.mod_pos_bound (s - 1) 65535). lia. Qed.

Lemma ref_csum_laws e : @CsumLaws e (ref_csum e).
Proof.
  constructor; intros; cbn [ref_csum csum_partial csum_ipv6_magic csum_tcpudp_magic ip_fast_csum ip_compute_csum].
  - unfold is_word. pose proof (Z.mod_pos_bound (sum16 e b + s) 65535). lia.
  - by rewrite Zmod_mod.
  - apply complement_word.
  - etrans; [|apply (complement_sum (sum16 e sa + sum16 e da + sum16 e (enc BE 4 len) + sum16 e (enc BE 4 proto) + s))]. f_equal. lia.
  - apply complement_ones. lia.
  - apply complement_word.
  - etrans; [|apply (complement_sum (sum16 e sa + sum16 e da + sum16 e (enc BE 4 len) + sum16 e (enc BE 4 proto) + s))]. f_equal. lia.
  - apply complement_word.
  - apply complement_sum.
  - apply complement_word.
  - apply complement_sum.
Qed.

Module Ex.

Definition host1 : list Z := [192; 0; 2; 33].
Definition host2 : list Z := [198; 51; 100; 7].

Definition header (proto fo : Z) (n : nat) : iphdr :=
  {| ihl := 5; tos := 0x2c; tot_len := 20 + Z.of_nat n; id := 4660; frag_off := fo; ttl := 63; protocol := proto; check := 0;
     saddr := host1; daddr := host2 |}.

Definition segment : list Z := [4; 210; 0; 80] ++ replicate 20 7.
Definition long_segment : list Z := [4; 210; 0; 80] ++ replicate 1500 7.

Definition alloc (k : nat) (n : Z) : option (list Z) := Some (replicate (Z.to_nat n) 170).
Definition stack : list Z := replicate 2048 85.
Definition array (n : Z) : list Z := replicate (Z.to_nat n) 0.
Definition mac : list Z := replicate 14 1.
Definition dev0 : siit_dev := Dev 0 0 0 0 0 0 0 0 [].

Lemma alloc_memory : memory_ok alloc stack array.
Proof.
  split_and!; [|done|].
  - intros k n _. eexists. split; [done|]. by rewrite length_replicate.
  - intros n. apply length_replicate.
Qed.

Lemma header_ok proto fo n : is_word 8 proto -> is_word 16 fo -> Z.of_nat n < 2 ^ 16 - 20 -> hdr_ok (header proto fo n).
Proof. intros [? ?] [? ?] ?. constructor; cbn [header ihl tos tot_len id frag_off ttl protocol check saddr daddr]; unfold is_word; try lia; done. Qed.

Lemma siit_checksums_witness : let h := header IPPROTO_UDP 0 24 in let data := [4; 210; 0; 80; 0; 24; 0; 0] ++ replicate 16 9 in
  exists p seg, @ip4_ip6 LE (ref_csum LE) false (packet4 h [] data) (tot_len h) (replicate 72 170) = Done p /\
    segment6 p = Some (prefixed MAPPED_PREFIX host1, prefixed TRANSLATED_PREFIX host2, IPPROTO_UDP, seg) /\
    length seg = 24%nat /\ (IPPROTO_UDP = IPPROTO_TCP -> seg = data) /\
    udp_result h data seg /\ (segment_ok6 p <-> sum_ok h data).
Proof.
  apply (@siit_checksums LE (ref_csum LE) (ref_csum_laws LE) false (header IPPROTO_UDP 0 24) []
    ([4; 210; 0; 80; 0; 24; 0; 0] ++ replicate 16 9) (replicate 72 170)).
  - constructor; [apply header_ok; vm_compute; split; congruence || lia|done|done].
  - done.
  - split_and!; [done|done|]. right. left. split; [done|]. vm_compute. lia.
  - vm_compute. lia.
Defined.

Definition header6 : ipv6hdr :=
  {| priority := 2; flow_lbl := [192; 0; 0]; payload_len := 48; nexthdr := 0; hop_limit := 64;
     saddr6 := prefixed TRANSLATED_PREFIX host1; daddr6 := prefixed MAPPED_PREFIX host2 |}.

Lemma ip6_ip4_correct_witness : let src := packet6 header6 (Some (0, replicate 6 1)) [Dest 0 (replicate 6 2); Frag 0 8 99] IPPROTO_TCP segment in
  exists p h4, @ip6_ip4 LE (ref_csum LE) false src (Z.of_nat (length src)) stack = Done (44, p) /\
    take 44 p = packet4 h4 [] segment /\ drop 44 p = drop 44 stack /\
    (ihl h4, tot_len h4, saddr h4, daddr h4) = (5, 44, host1, host2) /\
    (ttl h4, protocol h4) = (64, IPPROTO_TCP) /\ (id h4, frag_off h4) = (99, 1) /\ tos h4 = 44 /\
    checksum_ok (ip4_bytes h4) /\
    (segment_ok4 h4 segment <-> checksum_ok (pseudo6 (saddr6 header6) (daddr6 header6) IPPROTO_TCP 24 ++ segment)).
Proof.
  apply (@ip6_ip4_correct LE (ref_csum LE) (ref_csum_laws LE) false header6 host1 host2 (Some (0, replicate 6 1))
    [Dest 0 (replicate 6 2); Frag 0 8 99] IPPROTO_TCP segment stack).
  - constructor; [| | | | | | | | | |].
    + constructor; [split; [discriminate|reflexivity]|reflexivity|split; [discriminate|reflexivity]|reflexivity|reflexivity].
    + reflexivity.
    + reflexivity.
    + reflexivity.
    + reflexivity.
    + split; [discriminate|reflexivity].
    + apply Forall_cons; split; [split; [discriminate|reflexivity]|]. apply Forall_cons; split; [|apply Forall_nil_2].
      split; split; [discriminate|reflexivity|discriminate|reflexivity].
    + left. reflexivity.
    + unfold segment. rewrite length_app. cbn [length]. lia.
    + repeat (apply Forall_cons; split; [split; [discriminate|reflexivity]|]). apply Forall_nil_2.
    + split; [discriminate|reflexivity].
  - reflexivity.
  - reflexivity.
  - reflexivity.
  - unfold segment, stack. rewrite length_app, !length_replicate. cbn [length]. lia.
Defined.

Lemma siit_roundtrip_witness : let h := header IPPROTO_TCP 0 24 in
  exists d1 p, @siit_xmit LE (ref_csum LE) false alloc stack array mac ETH_P_IP (packet4 h [] segment) dev0 = Done d1 /\
    received d1 = [p] /\ p_protocol p = ETH_P_IPV6 /\
    forall mac' d', exists d2, @siit_xmit LE (ref_csum LE) false alloc stack array mac' ETH_P_IPV6 (p_data p) d' = Done d2 /\
      received d2 = received d' ++ [Packet (take 12 mac' ++ enc BE 2 ETH_P_IP) ETH_P_IP (packet4 (@returned LE (ref_csum LE) false h) [] segment)].
Proof.
  apply (@siit_roundtrip LE (ref_csum LE) false alloc stack array mac (header IPPROTO_TCP 0 24) segment dev0 alloc_memory).
  constructor; [apply header_ok; vm_compute; split; congruence || lia|done|done|by left|vm_compute; lia|vm_compute; congruence].
Defined.

Lemma siit_fragments_witness : let h := header IPPROTO_TCP 0 1504 in
  exists frs pcs d1, @siit_xmit LE (ref_csum LE) false alloc stack array mac ETH_P_IP (packet4 h [] long_segment) dev0 = Done d1 /\
    received d1 = frs /\ Forall sent_ok frs /\ map (fun p => fragment6 (p_data p)) frs = map Some pcs /\
    pieces (prefixed MAPPED_PREFIX host1) (prefixed TRANSLATED_PREFIX host2) IPPROTO_TCP 4660 0 pcs long_segment false.
Proof.
  apply (@siit_fragments LE (ref_csum LE) false alloc stack array mac (header IPPROTO_TCP 0 1504) long_segment dev0 alloc_memory);
    [apply header_ok; vm_compute; split; congruence || lia|done|done|done|done|done|by left].
Defined.

(** ** Where the code does not do what it means to *)

(** A destination options header that is longer than what is left of the packet is not refused: its
    length is subtracted again and again, and no number of rounds ends the loop. *)
Lemma truncated_options_loop src opts n id fo : src !! (40 + Z.to_nat opts + 1)%nat = Some n -> 0 <= n ->
  forall fuel delta, delta < n * 8 + 8 -> ext_loop fuel src (Chain delta opts NEXTHDR_DEST id fo) = Undef.
Proof.
  intros Hn H0. induction fuel as [|fuel IH]; intros delta Hd; [done|]. cbn [ext_loop next_hdr opts_len len_delta c_id c_frag_off].
  cbn [is_transport NEXTHDR_DEST NEXTHDR_ICMP IPPROTO_TCP IPPROTO_UDP Z.eqb Pos.eqb orb]. unfold byte. rewrite Hn.
  cbn [defined mbind outcome_bind]. destruct (negb _); [done|]. rewrite (proj2 (Z.leb_gt 0 _)) by lia. apply IH. lia.
Qed.

Abbreviation run4 e := (@ip4_ip6 e (ref_csum e) false).
Abbreviation run6 e := (@ip6_ip4 e (ref_csum e) false).

Definition v6 (next : Z) (body : list Z) : list Z :=
  ipv6_bytes {| priority := 0; flow_lbl := [0; 0; 0]; payload_len := Z.of_nat (length body); nexthdr := next; hop_limit := 64;
    saddr6 := prefixed TRANSLATED_PREFIX host1; daddr6 := prefixed MAPPED_PREFIX host2 |} ++ body.

Example truncated_options : run6 LE (v6 NEXTHDR_DEST ([6; 1] ++ replicate 6 0)) 48 stack = Undef.
Proof. vm_compute. reflexivity. Qed.

(** The packet that an ICMPv6 message "too big" or "parameter problem" refers to. *)
Definition inner6 : list Z :=
  ipv6_bytes {| priority := 0; flow_lbl := [0; 0; 0]; payload_len := 8; nexthdr := IPPROTO_UDP; hop_limit := 64;
    saddr6 := prefixed MAPPED_PREFIX host2; daddr6 := prefixed TRANSLATED_PREFIX host1 |} ++ [4; 210; 0; 80; 0; 8; 0; 0].

Definition icmp4_bytes (r : outcome (Z * list Z)) : option (list Z) :=
  match r with Done (_, p) => Some (take 2 (drop 20 p) ++ take 4 (drop 24 p)) | _ => None end.

(** The MTU of "packet too big" is cut to the first two bytes in memory: on a little-endian
    machine 1400 becomes 0.  The two bytes before it are what was on the stack. *)
Example too_big_mtu : icmp4_bytes (run6 LE (v6 NEXTHDR_ICMP ([2; 0; 0; 0] ++ enc BE 4 1400 ++ inner6)) 96 stack) = Some [3; 4; 85; 85; 0; 0].
Proof. vm_compute. reflexivity. Qed.

(** The pointer of "parameter problem" is right on little-endian machines only; the bytes
    behind it are what was on the stack. *)
Example problem_pointer :
  icmp4_bytes (run6 LE (v6 NEXTHDR_ICMP ([4; 0; 0; 0] ++ enc BE 4 7 ++ inner6)) 96 stack) = Some [12; 0; 8; 0; 85; 85] /\
  icmp4_bytes (run6 BE (v6 NEXTHDR_ICMP ([4; 0; 0; 0] ++ enc BE 4 7 ++ inner6)) 96 stack) = Some [12; 0; 0; 8; 85; 85].
Proof. vm_compute. split; reflexivity. Qed.

(** "Time exceeded" is sent with four bytes that were never written, in both directions. *)
Example time_exceeded_leaks :
  icmp4_bytes (run6 LE (v6 NEXTHDR_ICMP ([3; 0; 0; 0; 0; 0; 0; 0] ++ inner6)) 96 stack) = Some [11; 0; 85; 85; 85; 85] /\
  match run4 LE (packet4 (header IPPROTO_ICMP IP_DF 36) [] ([11; 0; 0; 0; 0; 0; 0; 0] ++
    packet4 (header IPPROTO_TCP IP_DF 8) [] (replicate 8 7))) 56 (replicate 96 170) with
  | Done p => take 2 (drop 40 p) ++ take 4 (drop 44 p) = [3; 0; 170; 170; 170; 170]
  | _ => False
  end.
Proof. vm_compute. split; reflexivity. Qed.

(** Only four bytes of the addresses are checked: a packet from 2001:db8::ffff:192.0.2.33 is translated. *)
Example foreign_prefix_accepted :
  exists n p, run6 LE (ipv6_bytes {| priority := 0; flow_lbl := [0; 0; 0]; payload_len := 24; nexthdr := IPPROTO_TCP; hop_limit := 64;
    saddr6 := [32; 1; 13; 184; 0; 0; 0; 0; 0; 0; 255; 255] ++ host1; daddr6 := prefixed MAPPED_PREFIX host2 |} ++ segment) 64 stack = Done (n, p).
Proof. eexists _, _. vm_compute. reflexivity. Qed.

(** A UDP datagram without a checksum that sums up to all ones: the computed value is zero, so
    the IPv6 packet has no checksum either. *)
Example udp_sum_stays_zero :
  let data := [4; 210; 0; 80; 0; 10; 0; 0; 14; 92] in
  match run4 LE (packet4 (header IPPROTO_UDP IP_DF 10) [] data) 30 (replicate 50 170) with
  | Done p => drop 40 p = data | _ => False end.
Proof. vm_compute. reflexivity. Qed.

(** An ICMPv4 echo message of two bytes: the size of the copy is negative. *)
Example short_echo : run4 LE (packet4 (header IPPROTO_ICMP IP_DF 2) [] [8; 0]) 22 (replicate 42 170) = Undef.
Proof. vm_compute. reflexivity. Qed.

(** The options of an IPv4 packet are dropped, but the buffer of the new packet is as long as
    if they were kept: bytes that were never written follow the packet. *)
Example options_leak :
  let h := {| ihl := 6; tos := 0; tot_len := 48; id := 1; frag_off := IP_DF; ttl := 63; protocol := IPPROTO_TCP; check := 0;
              saddr := host1; daddr := host2 |} in
  match @siit_xmit LE (ref_csum LE) false alloc stack array mac ETH_P_IP (packet4 h [1; 1; 1; 0] segment) dev0 with
  | Done d => map (fun p => drop 64 (p_data p)) (received d) = [[170; 170; 170; 170]]
  | _ => False
  end.
Proof. vm_compute. reflexivity. Qed.

(** A packet that does not fit the array on the stack. *)
Example long_packet6 : run6 LE (v6 IPPROTO_TCP (replicate 2029 0)) 2069 stack = Undef.
Proof. vm_compute. reflexivity. Qed.

End Ex.
