(* ===== verification/Lmo.v ===== *)
(** * Translation catalogues of LuCI: template_lmo.c and po2lmo.c

    The compiler from PO files to archives (po2lmo.c: line reader, string
    extraction, message and index output) and the runtime lookup (hash,
    canonical keys, opening an archive, binary search, plural forms,
    catalogues).  A mapped archive is the list of its bytes; reading outside of
    it is [None].  [die] of po2lmo is the [Die] result. *)
From stdpp Require Import options.
From S2P Require Import Prelude CLib.

(** ** template_lmo.h *)

Definition sfh_get16 (d : list Z) : Z :=
  match d with a :: b :: _ => Z.shiftl b 8 + a | _ => 0 end.

Record lmo_entry := LmoEntry { key_id : Z; val_id : Z; offset : Z; length_ : Z }.

(** [fd] and [end] are not read by the lookup. *)
Record lmo_archive := Archive { ar_mmap : list Z; ar_size : Z; ar_index : Z; ar_length : Z }.

Record lmo_catalog := Catalog { lang : cstr; archives : list lmo_archive }.

(** ** Hash *)

Definition sfh_step (hash : Z) (data : list Z) : Z :=
  let hash := u32 (hash + sfh_get16 data) in
  let tmp := Z.lxor (u32 (Z.shiftl (sfh_get16 (drop 2 data)) 11)) hash in
  let hash := Z.lxor (u32 (Z.shiftl hash 16)) tmp in
  u32 (hash + Z.shiftr hash 11).

Fixpoint sfh_loop (n : nat) (hash : Z) (data : list Z) : Z * list Z :=
  match n with
  | O => (hash, data)
  | S n' => sfh_loop n' (sfh_step hash data) (drop 4 data)
  end.

Definition sfh_end (rem : Z) (hash : Z) (data : list Z) : Z :=
  if rem =? 3 then
    let hash := u32 (hash + sfh_get16 data) in
    let hash := Z.lxor hash (u32 (Z.shiftl hash 16)) in
    let hash := Z.lxor hash (u32 (signed 8 (nth 2 data 0) * 2 ^ 18)) in
    u32 (hash + Z.shiftr hash 11)
  else if rem =? 2 then
    let hash := u32 (hash + sfh_get16 data) in
    let hash := Z.lxor hash (u32 (Z.shiftl hash 11)) in
    u32 (hash + Z.shiftr hash 17)
  else if rem =? 1 then
    let hash := u32 (hash + signed 8 (nth 0 data 0)) in
    let hash := Z.lxor hash (u32 (Z.shiftl hash 10)) in
    u32 (hash + Z.shiftr hash 1)
  else hash.

Definition sfh_avalanche (hash : Z) : Z :=
  let hash := Z.lxor hash (u32 (Z.shiftl hash 3)) in
  let hash := u32 (hash + Z.shiftr hash 5) in
  let hash := Z.lxor hash (u32 (Z.shiftl hash 4)) in
  let hash := u32 (hash + Z.shiftr hash 17) in
  let hash := Z.lxor hash (u32 (Z.shiftl hash 25)) in
  u32 (hash + Z.shiftr hash 6).

Definition sfh_hash (data : list Z) : Z :=
  let len := Z.of_nat (length data) in
  if len <=? 0 then 0
  else
    let '(hash, data) := sfh_loop (length data / 4) len data in
    sfh_avalanche (sfh_end (len mod 4) hash data).

(** sizeof(res) *)
Definition RES_SIZE : nat := Z.to_nat 4096.

(** The copying loop of [lmo_canon_hash]: [None] is [return 0]. *)
Fixpoint canon_loop (prev : Z) (s res : cstr) : option cstr :=
  match s with
  | [] => Some res
  | c :: s' =>
      if decide (RES_SIZE <= length res)%nat then None
      else canon_loop c s'
             (if isspace c then (if isspace prev then res else res ++ [32]) else res ++ [c])
  end.

(** A trailing space is dropped: [if (ptr > res && isspace(ptr[-1])) ptr--]. *)
Definition canon_strip (res : cstr) : cstr :=
  match last res with Some c => if isspace c then removelast res else res | None => res end.

(** [snprintf(ptr, 3, "\2%d", plural)] returns the untruncated length: for two
    digits the last of the three bytes counted is the terminator. *)
Definition plural_suffix (plural : Z) : cstr :=
  if plural <? 10 then [2; 48 + plural] else [2; 48 + plural / 10; 0].

Definition lmo_canon_hash (str : cstr) (ctx : option cstr) (plural : Z) : Z :=
  match
    res ← (match ctx with
           | None => Some []
           | Some c =>
               res ← canon_loop 32 c [];
               let res := canon_strip res in
               if decide (RES_SIZE <= length res)%nat then None else Some (res ++ [1])
           end);
    res ← canon_loop 32 str res;
    let res := canon_strip res in
    if plural >? -1 then
      if (plural >=? 100) || bool_decide (RES_SIZE <= length res + 3)%nat then None
      else Some (res ++ plural_suffix plural)
    else Some res
  with
  | Some res => sfh_hash res
  | None => 0
  end.

(** ** Archives *)

(** [lmo_open] on the mapped bytes, with [W]-bit size_t; the outer [None] is an
    access before the mapping, the inner one [return NULL]. *)
Definition lmo_open (W : Z) (file : list Z) : option (option lmo_archive) :=
  let size := u32 (Z.of_nat (length file)) in
  if size =? 0 then Some None
  else
    if size <? 4 then None
    else
      idx_offset ← get32 BE file (Z.to_nat (size - 4));
      if idx_offset >=? size then Some None
      else Some (Some (Archive file size idx_offset
                         (s32 (wrap W (size - idx_offset - 4) / 16)))).

(** [ntohl(ar->index[m].field)], the field at byte [k] of the entry. *)
Definition index_field (ar : lmo_archive) (m k : Z) : option Z :=
  get32 BE (ar_mmap ar) (Z.to_nat (ar_index ar + 16 * m + k)).

(** The [while (1)] of [lmo_find_entry] on unsigned [l] and [r]; the result is
    the position of the entry. *)
Fixpoint find_loop (fuel : nat) (ar : lmo_archive) (hash l r : Z) : option (option Z) :=
  match fuel with
  | O => None
  | S f =>
      let m := u32 (l + u32 (r - l) / 2) in
      if r <? l then Some None
      else
        k ← index_field ar m 0;
        if k =? hash then Some (Some m)
        else if k >? hash
             then if m =? 0 then Some None else find_loop f ar hash l (m - 1)
             else find_loop f ar hash (u32 (m + 1)) r
  end.

Definition lmo_find_entry (ar : lmo_archive) (hash : Z) : option (option Z) :=
  find_loop 64 ar hash 0 (u32 (ar_length ar - 1)).

(** The text of an entry: [ar->mmap + ntohl(e->offset)] and its length. *)
Definition entry_text (ar : lmo_archive) (m : Z) : option cstr :=
  off ← index_field ar m 8;
  len ← index_field ar m 12;
  mem_read (ar_mmap ar) (Z.to_nat off) (Z.to_nat len).

(** The first archive with an entry for [hash]. *)
Fixpoint find_in (ars : list lmo_archive) (hash : Z) : option (option cstr) :=
  match ars with
  | [] => Some None
  | ar :: ars' =>
      e ← lmo_find_entry ar hash;
      match e with
      | Some m => t ← entry_text ar m; Some (Some t)
      | None => find_in ars' hash
      end
  end.

(** The return value and the text in [*out], [*outlen]. *)
Definition lmo_translate_ctxt (active : option lmo_catalog) (key : cstr) (ctx : option cstr) :
    option (Z * option cstr) :=
  match active with
  | None => Some (-2, None)
  | Some cat =>
      let hash := lmo_canon_hash key ctx (-1) in
      if hash >? 0 then
        t ← find_in (archives cat) hash;
        Some (match t with Some t => (0, Some t) | None => (-1, None) end)
      else Some (-1, None)
  end.

Definition lmo_translate (active : option lmo_catalog) (key : cstr) : option (Z * option cstr) :=
  lmo_translate_ctxt active key None.

(** ** Catalogues *)

(** sizeof(cat->lang) - 1: what [snprintf] keeps of the name. *)
Definition LANG_LEN : nat := 5.

Record catalogs := Catalogs { cats : list lmo_catalog; active_catalog : option lmo_catalog }.

(** [strncmp(cat->lang, lang, 6)] on the stored prefix. *)
Definition lang_match (cat : lmo_catalog) (lang_ : cstr) : bool :=
  bool_decide (take (S LANG_LEN) (lang cat ++ [0]) = take (S LANG_LEN) (lang_ ++ [0])).

Definition lmo_change_catalog (lang_ : cstr) (g : catalogs) : Z * catalogs :=
  match List.find (fun c => lang_match c lang_) (cats g) with
  | Some c => (0, Catalogs (cats g) (Some c))
  | None => (-1, g)
  end.

(** The directory is the list of the contents of the files whose names match
    the pattern, in the order of [readdir]; [None]: it cannot be opened. *)
Fixpoint load_archives (W : Z) (files : list (list Z)) (ars : list lmo_archive) :
    option (list lmo_archive) :=
  match files with
  | [] => Some ars
  | f :: fs =>
      ar ← lmo_open W f;
      load_archives W fs (match ar with Some ar => ar :: ars | None => ars end)
  end.

Definition lmo_load_catalog (W : Z) (lang_ : cstr) (dir : option (list (list Z))) (g : catalogs) :
    option (Z * catalogs) :=
  let '(r, g1) := lmo_change_catalog lang_ g in
  if r =? 0 then Some (0, g1)
  else
    match dir with
    | None => Some (-1, g)
    | Some files =>
        ars ← load_archives W files [];
        let cat := Catalog (take LANG_LEN lang_) ars in
        Some (match ars with [] => -1 | _ => 0 end,
              Catalogs (cat :: cats g)
                       (match active_catalog g with None => Some cat | a => a end))
    end.

(** ** Plural forms *)

Inductive token :=
| T_NUM (n : Z) | T_EQ | T_NE | T_NOT | T_AND | T_OR | T_LE | T_LT | T_GE | T_GT
| T_MUL | T_DIV | T_MOD | T_ADD | T_SUB | T_N | T_QMARK | T_COLON | T_LPAREN | T_RPAREN.

(** The digits that follow the first one; the scan is not limited by [len]. *)
Fixpoint scan_num (n : Z) (p : list Z) : option (Z * list Z) :=
  match p with
  | [] => None
  | c :: p' => if isdigit c then scan_num (s32 (n * 10 + (c - 48))) p' else Some (n, p)
  end.

(** One- or two-character operators, by the next character. *)
Definition two_char (x : Z) (yes_ : token) (no_ : option token) (p : list Z) :
    option (option token * list Z) :=
  match p with
  | [] => None
  | c :: p' => if c =? x then Some (Some yes_, p') else Some (no_, p)
  end.

(** The [switch]: [None] in the first component is a syntax error. *)
Definition lex1 (c : Z) (p : list Z) : option (option token * list Z) :=
  if isdigit c then '(n, p) ← scan_num (c - 48) p; Some (Some (T_NUM n), p)
  else if c =? 61 then two_char 61 T_EQ None p
  else if c =? 33 then two_char 61 T_NE (Some T_NOT) p
  else if c =? 38 then two_char 38 T_AND None p
  else if c =? 124 then two_char 124 T_OR None p
  else if c =? 60 then two_char 61 T_LE (Some T_LT) p
  else if c =? 62 then two_char 61 T_GE (Some T_GT) p
  else Some (if c =? 42 then Some T_MUL else if c =? 47 then Some T_DIV
             else if c =? 37 then Some T_MOD else if c =? 43 then Some T_ADD
             else if c =? 45 then Some T_SUB else if c =? 110 then Some T_N
             else if c =? 63 then Some T_QMARK else if c =? 58 then Some T_COLON
             else if c =? 40 then Some T_LPAREN else if c =? 41 then Some T_RPAREN
             else None, p).

(** The [while (len-- > 0)]: the tokens, or [inl] of those before a syntax
    error; [len] counts iterations, not characters. *)
Fixpoint lex_loop (len : nat) (p : list Z) : option (list token + list token) :=
  match len with
  | O => Some (inr [])
  | S len' =>
      match p with
      | [] => None
      | c :: p =>
          if (c =? 32) || (c =? 9) then lex_loop len' p
          else if (c =? 59) || (c =? 10) || (c =? 0) then Some (inr [])
          else
            '(t, p) ← lex1 c p;
            match t with
            | None => Some (inl [])
            | Some t =>
                r ← lex_loop len' p;
                Some (match r with inl ts => inl (t :: ts) | inr ts => inr (t :: ts) end)
            end
      end
  end.

(** [while (len > 7) ... strncmp(expr, "plural=", 7)]: what follows. *)
Fixpoint find_plural (len : nat) (expr : list Z) : option (list Z * nat) :=
  match len with
  | S (S (S (S (S (S (S (S _))))))) =>
      if decide (take 7 expr = str "plural=") then Some (drop 7 expr, (len - 7)%nat)
      else match len, expr with
           | S len', _ :: e => find_plural len' e
           | _, _ => None
           end
  | _ => None
  end.

Section Plural.
(** The generated parser: [s.res] after feeding it the tokens, with or without
    the end of input, for [s.num]. *)
Context (pluralParse : list token -> bool -> Z -> Z).

Definition lmo_eval_plural (expr : list Z) (len : nat) (val : Z) : option Z :=
  match find_plural len expr with
  | None => Some (-1)
  | Some (p, len) =>
      r ← lex_loop len p;
      Some (match r with
            | inl ts => pluralParse ts false val
            | inr ts => pluralParse ts true val
            end)
  end.

(** The plural index of the first archive that has a formula (key 0). *)
Fixpoint plural_index (ars : list lmo_archive) (n : Z) : option Z :=
  match ars with
  | [] => Some (-1)
  | ar :: ars' =>
      e ← lmo_find_entry ar 0;
      match e with
      | Some m =>
          off ← index_field ar m 8;
          len ← index_field ar m 12;
          lmo_eval_plural (drop (Z.to_nat off) (ar_mmap ar)) (Z.to_nat len) n
      | None => plural_index ars' n
      end
  end.

Definition lmo_translate_plural_ctxt (active : option lmo_catalog) (n : Z) (skey pkey : cstr)
    (ctx : option cstr) : option (Z * option cstr) :=
  match active with
  | None => Some (-2, None)
  | Some cat =>
      pid ← plural_index (archives cat) n;
      let pid := if pid =? -1 then Z.b2z (negb (n =? 1)) else pid in
      let hash := lmo_canon_hash skey ctx pid in
      if hash =? 0 then Some (-1, None)
      else
        t ← find_in (archives cat) hash;
        Some (0, Some (match t with
                       | Some t => t
                       | None => if n =? 1 then skey else pkey
                       end))
  end.
End Plural.
