(* ===== verification/Po2lmo.v ===== *)
(** * The compiler of translation catalogues: po2lmo.c

    State passing over the output stream and the index under construction.  The
    result type distinguishes [die] (exit 1) from undefined behaviour. *)
From stdpp Require Import options.
From S2P Require Import Prelude CLib Lmo.

(** Undefined behaviour, [die], or a value. *)
Inductive res (A : Type) := Undef | Die | Ret (a : A).
Arguments Undef {A}.
Arguments Die {A}.
Arguments Ret {A} a.

Definition res_bind {A B} (r : res A) (k : A -> res B) : res B :=
  match r with Undef => Undef | Die => Die | Ret a => k a end.
Notation "'let*' p ':=' r 'in' k" := (res_bind r (fun x => let p := x in k))
  (at level 200, p pattern, r at level 100, k at level 200).

(** qsort as the C library documents it: the entries in the order of
    [cmp_index], equal keys in any order. *)
Definition cmp_index (a b : lmo_entry) : Z :=
  if key_id a <? key_id b then -1 else if key_id a >? key_id b then 1 else 0.

Class QSort := qsort : list lmo_entry -> list lmo_entry.
Class QSortLaws (Q : QSort) := {
  qsort_perm l : qsort l ≡ₚ l;
  qsort_sorted l i j a b :
    (i < j)%nat -> qsort l !! i = Some a -> qsort l !! j = Some b -> cmp_index a b <= 0 }.

(** ** Output *)

(** [print(ptr, size, 1, out)]: [fwrite] of nothing returns 0, which is taken
    for an error. *)
Definition print (bytes out : list Z) : res (list Z) :=
  match bytes with
  | [] => Die
  | _ => Ret (out ++ bytes ++ replicate ((4 - length bytes mod 4) mod 4) 0)
  end.

Definition print_uint32 (x : Z) (out : list Z) : res (list Z) := print (enc BE 4 x) out.

Fixpoint print_entries (es : list lmo_entry) (out : list Z) : res (list Z) :=
  match es with
  | [] => Ret out
  | e :: es' =>
      let* out := print_uint32 (key_id e) out in
      let* out := print_uint32 (val_id e) out in
      let* out := print_uint32 (offset e) out in
      let* out := print_uint32 (length_ e) out in
      print_entries es' out
  end.

Definition print_index {Q : QSort} (array : list lmo_entry) (out : list Z) : res (list Z) :=
  print_entries (qsort array) out.

(** ** Strings *)

(** [dest[i] = c] *)
Definition store (dest : list Z) (i : nat) (c : Z) : res (list Z) :=
  if decide (i < length dest)%nat then Ret (<[i := c]> dest) else Undef.

(** The [for] of [extract_string] from position [pos]: [off] ([None] for -1)
    and the buffer. *)
Fixpoint extract_loop (src : cstr) (pos : nat) (off : option nat) (esc : bool) (dest : list Z)
    (len : nat) : res (option nat * list Z) :=
  match src with
  | [] => Ret (off, dest)
  | c :: src' =>
      if decide (len <= pos)%nat then Ret (off, dest)
      else
        match off with
        | None =>
            extract_loop src' (S pos) (if c =? 34 then Some (S pos) else None) esc dest len
        | Some o =>
            if esc then
              let o := if (c =? 34) || (c =? 92) then S o else o in
              let* dest := store dest (pos - o) c in
              extract_loop src' (S pos) (Some o) false dest len
            else if c =? 92 then
              let* dest := store dest (pos - o) c in
              extract_loop src' (S pos) (Some o) true dest len
            else if negb (c =? 34) then
              let* dest := store dest (pos - o) c in
              extract_loop src' (S pos) (Some o) false dest len
            else
              let* dest := store dest (pos - o) 0 in
              Ret (Some o, dest)
        end
  end.

(** The return value ([None] for -1) and the buffer. *)
Definition extract_string (src : cstr) (dest : list Z) : res (option nat * list Z) :=
  if bool_decide (head src = Some 35) then Ret (None, dest)
  else
    let* (off, dest) := extract_loop src 0 None false dest (length dest) in
    match off with
    | None => Ret (None, dest)
    | Some _ =>
        match c_string dest with
        | Some (s, _) => Ret (Some (length s), dest)
        | None => Undef
        end
    end.

(** ** Messages *)

Inductive field := F_ctxt | F_id | F_id_plural | F_val (i : nat).

Record msg := Msg {
  plural_num : Z;
  ctxt : option cstr; id : option cstr; id_plural : option cstr;
  val : list (option cstr);
  cur : option field }.

Definition empty_msg (n : Z) : msg := Msg n None None None (replicate 10 None) None.

Definition get_field (m : msg) (f : field) : option cstr :=
  match f with
  | F_ctxt => ctxt m | F_id => id m | F_id_plural => id_plural m
  | F_val i => nth i (val m) None
  end.

Definition set_field (m : msg) (f : field) (v : option cstr) : msg :=
  match f with
  | F_ctxt => Msg (plural_num m) v (id m) (id_plural m) (val m) (cur m)
  | F_id => Msg (plural_num m) (ctxt m) v (id_plural m) (val m) (cur m)
  | F_id_plural => Msg (plural_num m) (ctxt m) (id m) v (val m) (cur m)
  | F_val i => Msg (plural_num m) (ctxt m) (id m) (id_plural m) (<[i := v]> (val m)) (cur m)
  end.

(** [free(...); field = NULL; msg.cur = &field; msg.len = 0] *)
Definition start_field (f : field) (m : msg) : msg :=
  let m := set_field m f None in
  Msg (plural_num m) (ctxt m) (id m) (id_plural m) (val m) (Some f).

(** The globals [array], [offset] and the output stream. *)
Record st := St { array : list lmo_entry; off : Z; outb : list Z }.

(** sizeof(key) *)
Definition KEY_SIZE : nat := Z.to_nat 4096.

(** The key of plural form [i], as [snprintf] leaves it in [key]. *)
Definition msg_key (m : msg) (id_ : cstr) (i : nat) : cstr :=
  let num := print_u (Z.of_nat i) in
  take (KEY_SIZE - 1)
    (match ctxt m, id_plural m with
     | Some c, Some _ => c ++ [1] ++ id_ ++ [2] ++ num
     | Some c, None => c ++ [1] ++ id_
     | None, Some _ => id_ ++ [2] ++ num
     | None, None => id_
     end).

(** A new index entry for the text [v]. *)
Definition add_entry (key vid : Z) (v : cstr) (s : st) : res st :=
  let len := Z.of_nat (length v) in
  let* o := print v (outb s) in
  Ret (St (array s ++ [LmoEntry key vid (u32 (off s)) (u32 len)])
          (off s + (len + (4 - len mod 4) mod 4)) o).

(** [for (i = 0; i <= msg->plural_num; i++)], the remaining forms [vs]. *)
Fixpoint print_forms (m : msg) (id_ : cstr) (i : nat) (vs : list (option cstr)) (s : st) : res st :=
  match vs with
  | [] => Ret s
  | v :: vs' =>
      let* s := (match v with
                 | None => Ret s
                 | Some v =>
                     let key := sfh_hash (msg_key m id_ i) in
                     if key =? sfh_hash v then Ret s
                     else add_entry key (u32 (plural_num m + 1)) v s
                 end) in
      print_forms m id_ (S i) vs' s
  end.

Definition tolower (c : Z) : Z := if (65 <=? c) && (c <=? 90) then c + 32 else c.

(** [!strncasecmp(field, "Plural-Forms: ", 14)] *)
Definition is_plural_forms (f : cstr) : bool :=
  bool_decide (map tolower (take 14 f) = map tolower (str "Plural-Forms: ")).

(** The scan of the header for its escaped line ends: the text of the
    Plural-Forms line. *)
Fixpoint scan_header (fld p : cstr) (esc : bool) : option cstr :=
  match p with
  | [] => None
  | c :: p' =>
      if esc then
        if c =? 110 then
          let f := removelast fld in
          if is_plural_forms f then Some (drop 14 f) else scan_header [] p' false
        else scan_header (fld ++ [c]) p' false
      else scan_header (fld ++ [c]) p' (c =? 92)
  end.

(** [print_msg], up to the [memset] of the message. *)
Definition print_msg (m : msg) (s : st) : res (msg * st) :=
  let* s := (match id m, nth 0 (val m) None with
             | Some i, Some _ => print_forms m i 0 (take (Z.to_nat (plural_num m + 1)) (val m)) s
             | None, Some v =>
                 match scan_header [] v false with
                 | Some f => add_entry 0 0 f s
                 | None => Ret s
                 end
             | _, None => Ret s
             end) in
  Ret (empty_msg 0, s).

(** ** The main loop *)

(** [!strncmp(line, p, strlen(p))] *)
Fixpoint starts (p line : cstr) : bool :=
  match p, line with
  | [], _ => true
  | a :: p', b :: line' => (a =? b) && starts p' line'
  | _ :: _, [] => false
  end.

(** [if (msg.id || msg.val[0]) print_msg(&msg, out)] *)
Definition flush_msg (m : msg) (s : st) : res (msg * st) :=
  if bool_decide (is_Some (id m)) || bool_decide (is_Some (nth 0 (val m) None))
  then print_msg m s else Ret (m, s).

(** The dispatch on the beginning of the line. *)
Definition po_keyword (W : Z) (eof : bool) (line : cstr) (m : msg) (s : st) : res (msg * st) :=
  if starts (str "msgctxt " ++ [34]) line then
    let* (m, s) := flush_msg m s in Ret (start_field F_ctxt m, s)
  else if eof || starts (str "msgid " ++ [34]) line then
    let* (m, s) := flush_msg m s in Ret (start_field F_id m, s)
  else if starts (str "msgid_plural " ++ [34]) line then Ret (start_field F_id_plural m, s)
  else if starts (str "msgstr " ++ [34]) line || starts (str "msgstr[") line then
    let n := if nth 6 line 0 =? 91
             then let '(v, _, _) := strtoul W 10 (drop 7 line) in s32 v else 0 in
    if n >=? 10 then Die
    else if n <? 0 then Undef
    else
      let m := Msg n (ctxt m) (id m) (id_plural m) (val m) (cur m) in
      Ret (start_field (F_val (Z.to_nat n)) m, s)
  else Ret (m, s).

(** The string on the line is appended to the current field. *)
Definition po_text (line : cstr) (tmp : list Z) (m : msg) : res (msg * list Z) :=
  match cur m with
  | None => Ret (m, tmp)
  | Some f =>
      let* (n, tmp) := extract_string line tmp in
      match n with
      | Some (S k) =>
          Ret (set_field m f (Some (default [] (get_field m f) ++ take (S k) tmp)), tmp)
      | _ => Ret (m, tmp)
      end
  end.

(** [fgets(line, sizeof(line), in)]: at most [n] bytes, up to a line end. *)
Fixpoint fgets (n : nat) (input : list Z) : list Z * list Z :=
  match n, input with
  | S n', c :: input' =>
      if c =? 10 then ([c], input')
      else let '(l, r) := fgets n' input' in (c :: l, r)
  | _, _ => ([], input)
  end.

(** The line as a C string: up to a NUL byte in the input. *)
Definition as_cstr (l : list Z) : cstr :=
  match c_string l with Some (s, _) => s | None => l end.

Fixpoint po_loop (W : Z) (fuel : nat) (input : list Z) (m : msg) (tmp : list Z) (s : st) : res st :=
  match fuel with
  | O => Undef
  | S f =>
      let '(l, rest) := fgets (KEY_SIZE - 1) input in
      let eof := bool_decide (l = []) in
      let line := as_cstr l in
      let* (m, s) := po_keyword W eof line m s in
      if eof then Ret s
      else
        let* (m, tmp) := po_text line tmp m in
        po_loop W f rest m tmp s
  end.

(** [main]: the contents of the output file, [None] when it is removed; [tmp]
    is the uninitialised buffer. *)
Definition po2lmo {Q : QSort} (W : Z) (input tmp : list Z) : res (option (list Z)) :=
  let* s := po_loop W (S (length input)) input (empty_msg (-1)) tmp (St [] 0 []) in
  let* o := print_index (array s) (outb s) in
  if off s >? 0 then let* o := print_uint32 (off s) o in Ret (Some o) else Ret None.
