(* ===== verification/Po2lmoFacts.v ===== *)
(** * The compiler of translation catalogues: lemmas

    Reading quoted strings back, the layout of the data and of the index, and
    the reader's state over the lines of one message. *)

From stdpp Require Import options.
From S2P Require Import Prelude CLib Lmo Po2lmo.
Set Default Proof Using "Type*".

(** ** Binary search *)

(** The index of [ar] holds the keys [ks], in ascending order. *)
Record index_ok (ar : lmo_archive) (ks : list Z) : Prop := {
  io_length : ar_length ar = Z.of_nat (length ks);
  io_small : Z.of_nat (length ks) < 2 ^ 31;
  io_key : forall i k, ks !! i = Some k -> index_field ar (Z.of_nat i) 0 = Some k;
  io_sorted : forall i j a b, (i < j)%nat -> ks !! i = Some a -> ks !! j = Some b -> a <= b }.

Section Find.
Context (ar : lmo_archive) (ks : list Z) (H : index_ok ar ks) (hash : Z).

(** What a search result means. *)
Definition found (r : option Z) : Prop :=
  match r with
  | Some m => exists i, m = Z.of_nat i /\ ks !! i = Some hash
  | None => hash ∉ ks
  end.

(** The keys left of [l] are smaller, those right of [r] larger. *)
Definition window (l r : Z) : Prop :=
  (forall i k, ks !! i = Some k -> Z.of_nat i < l -> k < hash) /\
  (forall i k, ks !! i = Some k -> r < Z.of_nat i -> hash < k).

Lemma window_empty l r : window l r -> r < l -> hash ∉ ks.
Proof.
  intros [Hl Hr] Hlt Hin. apply list_elem_of_lookup in Hin as [i Hi].
  destruct (Z.lt_ge_cases (Z.of_nat i) l) as [Hi'|Hi'].
  - specialize (Hl _ _ Hi Hi'). lia.
  - specialize (Hr _ _ Hi ltac:(lia)). lia.
Qed.

Lemma window_left l r m k :
  window l r -> ks !! m = Some k -> hash < k -> window l (Z.of_nat m - 1).
Proof.
  intros [Hl Hr] Hm Hk. split; [done|]. intros i k' Hi Hlt.
  destruct (decide (i = m)) as [-> |Hne]; [congruence|].
  pose proof (io_sorted _ _ H m i k k' ltac:(lia) Hm Hi). lia.
Qed.

Lemma window_right l r m k :
  window l r -> ks !! m = Some k -> k < hash -> window (Z.of_nat m + 1) r.
Proof.
  intros [Hl Hr] Hm Hk. split; [|done]. intros i k' Hi Hlt.
  destruct (decide (i = m)) as [-> |Hne]; [congruence|].
  pose proof (io_sorted _ _ H i m k' k ltac:(lia) Hi Hm). lia.
Qed.

Lemma find_loop_ok fuel : forall l r,
  0 <= l <= Z.of_nat (length ks) -> 0 <= r < Z.of_nat (length ks) -> window l r ->
  r + 1 - l < 2 ^ Z.of_nat fuel ->
  exists x, find_loop (S fuel) ar hash l r = Some x /\ found x.
Proof.
  pose proof (io_small _ _ H) as Hn.
  induction fuel as [|f IH]; intros l r Hl Hr Hw Hf.
  { cbn [find_loop]. assert (r < l) as Hlt by (simpl in Hf; lia).
    rewrite (proj2 (Z.ltb_lt r l) Hlt). exists None. split; [done|]. by eapply window_empty. }
  cbn [find_loop]. destruct (Z.ltb_spec r l) as [Hlt|Hge].
  { exists None. split; [done|]. by eapply window_empty. }
  rewrite Nat2Z.inj_succ, Z.pow_succ_r in Hf by lia.
  assert (u32 (l + u32 (r - l) / 2) = l + (r - l) / 2) as ->.
  { unfold u32. rewrite (wrap_small 32 (r - l)) by (unfold is_word; lia).
    apply wrap_small. unfold is_word. dlia. }
  set (m := Z.to_nat (l + (r - l) / 2)).
  assert (l + (r - l) / 2 = Z.of_nat m) as Hm by (unfold m; dlia).
  assert (l <= Z.of_nat m <= r /\ r - Z.of_nat m <= Z.of_nat m - l + 1 /\
          Z.of_nat m - l <= r - Z.of_nat m) as (Hmr & Hh1 & Hh2) by dlia.
  rewrite Hm. destruct (lookup_lt_is_Some_2 ks m) as [k Hk]; [lia|].
  rewrite (io_key _ _ H m k Hk). cbn [mbind option_bind].
  destruct (Z.eqb_spec k hash) as [-> |Hne].
  { exists (Some (Z.of_nat m)). split; [done|]. by exists m. }
  rewrite Z.gtb_ltb. destruct (Z.ltb_spec hash k) as [Hgt|Hle].
  - destruct (Z.eqb_spec (Z.of_nat m) 0) as [H0|H0].
    + exists None. split; [done|]. eapply (window_empty l (Z.of_nat m - 1)); [|lia].
      by eapply window_left.
    + apply IH; [lia|lia|by eapply window_left|lia].
  - assert (u32 (Z.of_nat m + 1) = Z.of_nat m + 1) as ->
      by (apply wrap_small; unfold is_word; lia).
    apply IH; [lia|lia|eapply window_right; [done|done|lia]|lia].
Qed.

Lemma lmo_find_entry_ok :
  ks <> [] -> exists x, lmo_find_entry ar hash = Some x /\ found x.
Proof.
  intros Hne. unfold lmo_find_entry. pose proof (io_small _ _ H) as Hn.
  assert (0 < length ks)%nat by (destruct ks; simpl; [done|lia]).
  rewrite (io_length _ _ H). unfold u32. rewrite wrap_small by (unfold is_word; lia).
  apply (find_loop_ok 63); [lia|lia| |].
  - split; intros i k Hi ?; [lia|]. apply lookup_lt_Some in Hi. lia.
  - change (2 ^ Z.of_nat 63) with (2 ^ 63). lia.
Qed.
End Find.

(** ** Canonical keys *)

(** No leading, doubled or non-blank white space. *)
Fixpoint canon_from (prev : Z) (s : cstr) : bool :=
  match s with
  | [] => true
  | c :: s' => (negb (isspace c) || ((c =? 32) && negb (isspace prev))) && canon_from c s'
  end.

Definition ends_plain (s : cstr) : bool :=
  match last s with Some c => negb (isspace c) | None => true end.

Definition canonical (s : cstr) : bool := canon_from 32 s && ends_plain s.

Lemma canon_loop_fixed prev s res :
  canon_from prev s = true -> (length res + length s <= RES_SIZE)%nat ->
  canon_loop prev s res = Some (res ++ s).
Proof.
  revert prev res. induction s as [|c s IH]; intros prev res Hc Hl;
    cbn [canon_loop canon_from length] in *; [by rewrite app_nil_r|].
  apply andb_prop in Hc as [Hc Hs]. rewrite decide_False by lia.
  assert ((if isspace c then if isspace prev then res else res ++ [32] else res ++ [c]) = res ++ [c])
    as ->.
  { destruct (isspace c); [|done]. simpl in Hc. apply andb_prop in Hc as [->%Z.eqb_eq Hp].
    by destruct (isspace prev). }
  rewrite IH; [by rewrite <- app_assoc|done|rewrite length_app; simpl; lia].
Qed.

Lemma canon_strip_plain s : ends_plain s = true -> canon_strip s = s.
Proof.
  unfold ends_plain, canon_strip. destruct (last s) as [c|]; [|done]. by destruct (isspace c).
Qed.

Lemma last_app_plain (a s : cstr) : s <> [] -> ends_plain (a ++ s) = ends_plain s.
Proof.
  intros Hs. unfold ends_plain. rewrite last_app. destruct (last s) eqn:Hl; [done|].
  apply last_None in Hl. done.
Qed.

(** The text whose hash is the key of a message. *)
Definition full_key (ctx : option cstr) (s : cstr) : cstr :=
  match ctx with Some c => c ++ [1] ++ s | None => s end.

Lemma lmo_canon_hash_key ctx s :
  canonical s = true -> (forall c, ctx = Some c -> canonical c = true) ->
  (length (full_key ctx s) < RES_SIZE)%nat ->
  lmo_canon_hash s ctx (-1) = sfh_hash (full_key ctx s).
Proof.
  unfold canonical, lmo_canon_hash. intros [Hs He]%andb_prop Hc Hl.
  destruct ctx as [c|]; cbn [full_key] in *.
  - destruct (andb_prop _ _ (Hc c eq_refl)) as [Hcc Hce]. rewrite !length_app in Hl. simpl in Hl.
    rewrite canon_loop_fixed by (done || simpl; lia). cbn [mbind option_bind app].
    rewrite canon_strip_plain by done. rewrite decide_False by lia. cbn [mbind option_bind].
    rewrite canon_loop_fixed by (done || rewrite ?length_app; simpl; lia). cbn [mbind option_bind].
    rewrite canon_strip_plain; [by rewrite <- app_assoc|].
    destruct s as [|x s]; [|by rewrite last_app_plain].
    rewrite app_nil_r. unfold ends_plain. by rewrite last_snoc.
  - simpl. rewrite canon_loop_fixed by (done || simpl; lia). cbn [mbind option_bind app].
    by rewrite canon_strip_plain.
Qed.

Lemma canon_from_snoc p l c :
  canon_from p (l ++ [c]) =
  canon_from p l && (negb (isspace c) || ((c =? 32) && negb (isspace (default p (last l))))).
Proof.
  revert p. induction l as [|a l IH]; intros p; simpl; [by rewrite andb_true_r|].
  rewrite IH, <- andb_assoc. do 3 f_equal. destruct l as [|b l]; [done|].
  change (last (a :: b :: l)) with (last (b :: l)). destruct (last (b :: l)) eqn:Hl; [done|].
  by apply last_None in Hl.
Qed.

(** [prev] and the output agree on whether the last character was a blank. *)
Definition blank_sync (prev : Z) (res : cstr) : Prop :=
  isspace prev = true <-> res = [] \/ ends_plain res = false.

Lemma blank_sync_snoc c x res : isspace x = isspace c -> blank_sync c (res ++ [x]).
Proof.
  intros Hx. unfold blank_sync, ends_plain. rewrite last_snoc, Hx. split.
  - intros ->. by right.
  - intros [Hn|Hn]; [by apply app_nil in Hn as [_ ?]|by apply negb_false_iff].
Qed.

Lemma blank_sync_plain prev res :
  blank_sync prev res -> isspace prev = false -> isspace (default 32 (last res)) = false.
Proof.
  unfold blank_sync, ends_plain. intros [_ Hp] Hs. rewrite Hs in Hp.
  destruct (last res) as [x|] eqn:Hl.
  - destruct (isspace x) eqn:Hx; [|exact Hx]. discriminate (Hp (or_intror eq_refl)).
  - apply last_None in Hl. discriminate (Hp (or_introl Hl)).
Qed.

Lemma canon_loop_step prev c s res r :
  canon_loop prev (c :: s) res = Some r ->
  canon_loop c s (if isspace c then if isspace prev then res else res ++ [32] else res ++ [c]) =
  Some r.
Proof. cbn [canon_loop]. by case_decide. Qed.

(** The loop produces canonical text, but for a blank at the end. *)
Lemma canon_loop_out prev s res r :
  canon_loop prev s res = Some r -> canon_from 32 res = true -> blank_sync prev res ->
  canon_from 32 r = true.
Proof.
  revert prev res. induction s as [|c s IH]; intros prev res Hr Hc Hp.
  { cbn [canon_loop] in Hr. congruence. }
  apply canon_loop_step in Hr.
  destruct (isspace c) eqn:Hsc; [destruct (isspace prev) eqn:Hsp|].
  - apply (IH c res Hr Hc). unfold blank_sync in *. rewrite Hsc. by rewrite Hsp in Hp.
  - apply (IH c (res ++ [32]) Hr); [|by apply blank_sync_snoc].
    by rewrite canon_from_snoc, Hc, (blank_sync_plain prev res Hp Hsp).
  - apply (IH c (res ++ [c]) Hr); [|by apply blank_sync_snoc].
    by rewrite canon_from_snoc, Hc, Hsc.
Qed.

(** ** The compiler *)

(** ** Strings *)

(** A string as a PO file quotes it. *)
Fixpoint quote (s : cstr) : cstr :=
  match s with
  | [] => []
  | c :: s' => (if (c =? 34) || (c =? 92) then [92; c] else [c]) ++ quote s'
  end.

Definition no_lf (s : cstr) : Prop := Forall (fun c => c <> 10) s.

Lemma store_ok dest i c : (i < length dest)%nat -> store dest i c = Ret (<[i := c]> dest).
Proof. intros. unfold store. by rewrite decide_True. Qed.

Lemma extract_step c src pos o dest len :
  (pos < len)%nat -> (pos - o < length dest)%nat -> c <> 34 -> c <> 92 ->
  extract_loop (c :: src) pos (Some o) false dest len =
  extract_loop src (S pos) (Some o) false (<[(pos - o)%nat := c]> dest) len.
Proof.
  intros Hp Hd H1 H2. cbn [extract_loop]. rewrite decide_False by lia.
  rewrite (proj2 (Z.eqb_neq c 92) H2), (proj2 (Z.eqb_neq c 34) H1). cbn [negb].
  by rewrite store_ok by done.
Qed.

(** An escaped quote or backslash takes one place. *)
Lemma extract_escape c src pos o dest len :
  (S pos < len)%nat -> (pos - o < length dest)%nat -> (o <= pos)%nat -> c = 34 \/ c = 92 ->
  extract_loop (92 :: c :: src) pos (Some o) false dest len =
  extract_loop src (S (S pos)) (Some (S o)) false (<[(pos - o)%nat := c]> dest) len.
Proof.
  intros Hp Hd Ho Hc. cbn [extract_loop]. rewrite decide_False by lia.
  change (92 =? 92) with true. rewrite store_ok by done. cbn [res_bind].
  rewrite decide_False by lia.
  assert ((c =? 34) || (c =? 92) = true) as -> by (by destruct Hc as [-> | ->]).
  replace (S pos - S o)%nat with (pos - o)%nat by lia.
  rewrite store_ok by (by rewrite length_insert). cbn [res_bind].
  by rewrite list_insert_insert_eq.
Qed.

(** The loop copies a quoted string and terminates it. *)
Lemma extract_quoted s : forall rest pos o dest len k,
  (pos - o = k)%nat -> (o <= pos)%nat -> (pos + length (quote s) < len)%nat ->
  (k + length s < length dest)%nat ->
  exists o' dest', extract_loop (quote s ++ 34 :: rest) pos (Some o) false dest len =
    Ret (Some o', dest') /\ length dest' = length dest /\ take k dest' = take k dest /\
    exists t, drop k dest' = s ++ 0 :: t.
Proof.
  induction s as [|c s IH]; intros rest pos o dest len k Hk Ho Hl Hd.
  - cbn [quote app extract_loop]. simpl in *. rewrite decide_False by lia. cbn.
    rewrite store_ok by lia. cbn [res_bind].
    exists o, (<[(pos - o)%nat := 0]> dest). split; [done|]. rewrite length_insert, Hk.
    split; [done|]. rewrite take_insert_ge by lia. split; [done|].
    exists (drop (S k) dest). rewrite drop_insert_ge, Nat.sub_diag by lia.
    destruct (lookup_lt_is_Some_2 dest k) as [x Hx]; [lia|]. by rewrite (drop_S dest x k Hx).
  - cbn [quote] in *. cbn [length] in *.
    assert (forall pos' o' dest', (pos' - o' = S k)%nat -> (o' <= pos')%nat ->
      (pos' + length (quote s) < len)%nat -> dest' = <[k := c]> dest ->
      exists o'' d, extract_loop (quote s ++ 34 :: rest) pos' (Some o') false dest' len =
        Ret (Some o'', d) /\ length d = length dest /\ take k d = take k dest /\
        exists t, drop k d = c :: s ++ 0 :: t) as Hrec.
    { intros pos' o' dest' Hk' Ho' Hl' ->.
      destruct (IH rest pos' o' (<[k := c]> dest) len (S k) Hk' Ho' Hl')
        as (o'' & d & -> & Hld & Htk & t & Hdr); [rewrite length_insert; lia|].
      exists o'', d. rewrite length_insert in Hld. split; [done|]. split; [done|].
      assert (d !! k = Some c) as Hdk.
      { assert (take (S k) d !! k = Some c) as Hx.
        { rewrite Htk, lookup_take_lt by lia. apply list_lookup_insert_eq. lia. }
        by rewrite lookup_take_lt in Hx by lia. }
      split.
      - assert (take k (take (S k) d) = take k (take (S k) (<[k:=c]> dest))) as Ht by (by rewrite Htk).
        rewrite !take_take in Ht. replace (k `min` S k)%nat with k in Ht by lia.
        by rewrite take_insert_ge in Ht by lia.
      - exists t. by rewrite (drop_S d c k Hdk), Hdr. }
    destruct ((c =? 34) || (c =? 92)) eqn:Hc; cbn [app length] in *.
    + rewrite extract_escape; [|lia|lia|lia|].
      * apply Hrec; [lia|lia|lia|by rewrite Hk].
      * apply orb_true_iff in Hc as [Hc|Hc]; apply Z.eqb_eq in Hc; auto.
    + apply orb_false_iff in Hc as [H1%Z.eqb_neq H2%Z.eqb_neq].
      rewrite extract_step by (done || lia). apply Hrec; [lia|lia|lia|by rewrite Hk].
Qed.

(** Before the opening quote nothing is copied. *)
Lemma extract_prefix p : forall src pos dest len,
  Forall (fun c => c <> 34) p -> (pos + length p < len)%nat ->
  extract_loop (p ++ 34 :: src) pos None false dest len =
  extract_loop src (S (pos + length p)) (Some (S (pos + length p))) false dest len.
Proof.
  induction p as [|c p IH]; intros src pos dest len Hp Hl; cbn [app extract_loop length] in *.
  - rewrite decide_False by lia. change (34 =? 34) with true. cbn.
    by rewrite Nat.add_0_r.
  - inversion Hp as [|? ? Hc Hp']; subst. rewrite decide_False by lia.
    rewrite (proj2 (Z.eqb_neq c 34) Hc). rewrite IH by (done || lia).
    by replace (S pos + length p)%nat with (pos + S (length p))%nat by lia.
Qed.

(** [extract_string] of a line with one quoted string. *)
Lemma extract_string_ok kw s rest dest :
  Forall (fun c => c <> 34) kw -> head kw <> Some 35 -> kw <> [] -> no_nul s ->
  (length kw + 1 + length (quote s) < length dest)%nat -> (length s < length dest)%nat ->
  exists dest', extract_string (kw ++ 34 :: quote s ++ 34 :: rest) dest =
    Ret (Some (length s), dest') /\ take (length s) dest' = s /\ length dest' = length dest.
Proof.
  intros Hkw Hh Hne Hs Hl Hd. unfold extract_string.
  rewrite bool_decide_eq_false_2 by (by destruct kw).
  rewrite extract_prefix by (done || lia). simpl (0 + length kw)%nat.
  destruct (extract_quoted s rest (S (length kw)) (S (length kw)) dest (length dest) 0)
    as (o' & d & -> & Hld & _ & t & Hdr); [lia|lia|lia|lia|].
  cbn [res_bind]. rewrite drop_0 in Hdr. rewrite Hdr, c_string_app by done.
  exists (s ++ 0 :: t). split; [done|]. split; [by rewrite take_app_length|]. by rewrite <- Hdr.
Qed.

(** ** Lines *)

Lemma fgets_line n body rest :
  no_lf body -> (length body < n)%nat -> fgets n (body ++ 10 :: rest) = (body ++ [10], rest).
Proof.
  revert n. induction body as [|c body IH]; intros n Hb Hn; simpl in *; (destruct n as [|n]; [lia|]).
  - done.
  - inversion Hb as [|? ? Hc Hb']; subst. cbn [fgets].
    rewrite (proj2 (Z.eqb_neq c 10) Hc). by rewrite IH by (done || lia).
Qed.

Lemma as_cstr_id l : no_nul l -> as_cstr l = l.
Proof.
  intros H. unfold as_cstr. destruct (c_string l) as [[s r]|] eqn:Hc; [|done].
  apply c_string_inv in Hc as [-> _]. apply Forall_app in H as [_ H]. by inversion H.
Qed.

(** ** Messages *)

Record message := Message { m_ctxt : option cstr; m_id : cstr; m_str : cstr }.

Definition po_line (kw : cstr) (s : cstr) : cstr := kw ++ 34 :: quote s ++ [34].

(** The message as three (or two) lines of a PO file. *)
Definition render (m : message) : list Z :=
  match m_ctxt m with Some c => po_line (str "msgctxt ") c ++ [10] | None => [] end ++
  (po_line (str "msgid ") (m_id m) ++ [10]) ++ (po_line (str "msgstr ") (m_str m) ++ [10]).

Definition nlines (m : message) : nat := match m_ctxt m with Some _ => 3 | None => 2 end.

(** Text that fits on a line. *)
Record wf_text (s : cstr) : Prop := {
  wt_nonempty : s <> [];
  wt_nul : no_nul s;
  wt_lf : no_lf s;
  wt_len : (length (quote s) <= Z.to_nat 4000)%nat }.

Record wf_message (m : message) : Prop := {
  wm_id : wf_text (m_id m);
  wm_str : wf_text (m_str m);
  wm_ctxt : forall c, m_ctxt m = Some c -> wf_text c }.

Lemma quote_forall (P : Z -> Prop) s : P 92 -> Forall P s -> Forall P (quote s).
Proof.
  intros H92. induction 1 as [|c s Hc _ IH]; simpl; [constructor|].
  destruct (_ || _); simpl; repeat constructor; done.
Qed.

Lemma quote_length s : (length s <= length (quote s))%nat.
Proof. induction s as [|c s IH]; simpl; [lia|]. destruct (_ || _); simpl; lia. Qed.

Section Reader.
Context (W : Z).

Lemma po_line_step kw s f rest m tmp st0 m1 st1 fld :
  wf_text s -> Forall (fun c => c <> 34 /\ c <> 10 /\ c <> 0) kw -> (0 < length kw < 10)%nat ->
  head kw <> Some 35 -> length tmp = KEY_SIZE ->
  po_keyword W false (po_line kw s ++ [10]) m st0 = Ret (m1, st1) ->
  cur m1 = Some fld -> get_field m1 fld = None ->
  exists tmp', length tmp' = KEY_SIZE /\
    po_loop W (S f) ((po_line kw s ++ [10]) ++ rest) m tmp st0 =
    po_loop W f rest (set_field m1 fld (Some s)) tmp' st1.
Proof.
  intros [Hne Hnul Hlf Hlen] Hkw Hlkw Hh Htmp Hk Hcur Hget.
  assert (no_lf (po_line kw s) /\ no_nul (po_line kw s)) as [Hl1 Hl2].
  { split; (apply Forall_app_2;
      [eapply Forall_impl; [exact Hkw|by intros c (?&?&?)]|]);
      (constructor; [done|]); (apply Forall_app_2; [by apply quote_forall|by repeat constructor]). }
  assert (length (po_line kw s) < KEY_SIZE - 1)%nat as Hll.
  { unfold po_line, KEY_SIZE. rewrite length_app. cbn [length]. rewrite length_app. cbn [length]. lia. }
  cbn [po_loop]. rewrite <- app_assoc. change ([10] ++ rest) with (10 :: rest).
  rewrite fgets_line by done.
  rewrite bool_decide_eq_false_2 by (by intros [? ?]%app_nil).
  rewrite as_cstr_id by (apply Forall_app_2; [done|by repeat constructor]).
  rewrite Hk. cbn [res_bind]. unfold po_text. rewrite Hcur.
  destruct (extract_string_ok kw s [10] tmp) as (tmp' & He & Ht & Hlt).
  - eapply Forall_impl; [exact Hkw|]. by intros c (?&?&?).
  - done.
  - intros ->. simpl in Hlkw. lia.
  - done.
  - rewrite Htmp. unfold KEY_SIZE. lia.
  - rewrite Htmp. unfold KEY_SIZE. pose proof (quote_length s). lia.
  - exists tmp'. split; [congruence|].
    assert (po_line kw s ++ [10] = kw ++ 34 :: quote s ++ 34 :: [10]) as ->
      by (unfold po_line; rewrite <- app_assoc; simpl; by rewrite <- app_assoc).
    rewrite He. cbn [res_bind].
    destruct (length s) as [|k] eqn:Hk0; [by apply nil_length_inv in Hk0|].
    rewrite Hget, Ht. done.
Qed.

(** The reader's record of a message that is still to be written. *)
Definition done_msg (m : message) : msg :=
  Msg 0 (m_ctxt m) (Some (m_id m)) None (Some (m_str m) :: replicate 9 None) (Some (F_val 0)).

Lemma read_message m f rest m0 tmp st0 n st1 :
  wf_message m -> length tmp = KEY_SIZE -> flush_msg m0 st0 = Ret (empty_msg n, st1) ->
  exists tmp', length tmp' = KEY_SIZE /\
    po_loop W (nlines m + f) (render m ++ rest) m0 tmp st0 = po_loop W f rest (done_msg m) tmp' st1.
Proof.
  intros [Hid Hstr Hctx] Htmp Hfl. unfold render, nlines.
  assert (forall m1 tmp1 st0 c k, length tmp1 = KEY_SIZE ->
    flush_msg m1 st0 = Ret (Msg k c None None (replicate 10 None) (cur m1), st1) \/
    flush_msg m1 st0 = Ret (Msg k c None None (replicate 10 None) None, st1) ->
    c = m_ctxt m ->
    exists tmp', length tmp' = KEY_SIZE /\
      po_loop W (2 + f) ((po_line (str "msgid ") (m_id m) ++ [10]) ++
        (po_line (str "msgstr ") (m_str m) ++ [10]) ++ rest) m1 tmp1 st0 =
      po_loop W f rest (done_msg m) tmp' st1) as Hmain.
  { intros m1 tmp1 st0' c k Ht1 Hf1 ->.
    destruct (po_line_step (str "msgid ") (m_id m) (S f)
      ((po_line (str "msgstr ") (m_str m) ++ [10]) ++ rest) m1 tmp1 st0'
      (Msg k (m_ctxt m) None None (replicate 10 None) (Some F_id)) st1 F_id)
      as (tmp2 & Ht2 & Hs); [done|by repeat constructor|simpl; lia|done|done| |done|done|].
    { change (po_keyword W false (po_line (str "msgid ") (m_id m) ++ [10]) m1 st0')
        with (let* (m, s) := flush_msg m1 st0' in Ret (start_field F_id m, s)).
      by destruct Hf1 as [-> | ->]. }
    change (2 + f)%nat with (S (S f)). rewrite Hs.
    destruct (po_line_step (str "msgstr ") (m_str m) f rest
      (set_field (Msg k (m_ctxt m) None None (replicate 10 None) (Some F_id)) F_id (Some (m_id m)))
      tmp2 st1
      (Msg 0 (m_ctxt m) (Some (m_id m)) None (replicate 10 None) (Some (F_val 0))) st1 (F_val 0))
      as (tmp3 & Ht3 & Hs3); [done|by repeat constructor|simpl; lia|done|done|done|done|done|].
    exists tmp3. split; [done|]. by rewrite Hs3. }
  destruct (m_ctxt m) as [c|] eqn:Hc.
  - destruct (po_line_step (str "msgctxt ") c (2 + f)
      ((po_line (str "msgid ") (m_id m) ++ [10]) ++ (po_line (str "msgstr ") (m_str m) ++ [10]) ++ rest)
      m0 tmp st0 (Msg n None None None (replicate 10 None) (Some F_ctxt)) st1 F_ctxt)
      as (tmp1 & Ht1 & Hs); [by apply Hctx|by repeat constructor|simpl; lia|done|done| |done|done|].
    { change (po_keyword W false (po_line (str "msgctxt ") c ++ [10]) m0 st0)
        with (let* (m, s) := flush_msg m0 st0 in Ret (start_field F_ctxt m, s)).
      by rewrite Hfl. }
    pose proof (Hmain (set_field (Msg n None None None (replicate 10 None) (Some F_ctxt)) F_ctxt (Some c))
      tmp1 st1 (Some c) n Ht1 ltac:(by left) eq_refl) as (tmp2 & Ht2 & Hm).
    exists tmp2. split; [done|]. rewrite <- Hm, <- Hs. f_equal. by rewrite <- !app_assoc.
  - cbn [app]. rewrite <- !app_assoc.
    destruct (Hmain m0 tmp st0 None n Htmp ltac:(by right) eq_refl) as (tmp2 & Ht2 & Hm).
    exists tmp2. split; [done|]. rewrite <- Hm. f_equal. by rewrite <- !app_assoc.
Qed.
End Reader.
