(* ===== verification/LmoProps.v ===== *)
(** * Translation catalogues: from PO file to translation

    Compiling a PO file with po2lmo, opening the archive and looking a message
    up gives its translation. *)
From stdpp Require Import sorting options.
From S2P Require Import Prelude CLib Lmo Po2lmo Po2lmoFacts.
Set Default Proof Using "Type*".

(** ** The data *)

Definition pad (n : nat) : nat := ((4 - n mod 4) mod 4)%nat.

(** The hash a message is filed under. *)
Definition msg_hash (m : message) : Z := sfh_hash (full_key (m_ctxt m) (m_id m)).

(** A message with single-line strings whose key is short enough and in canonical form. *)
Record message_wf (m : message) : Prop := {
  st_wf : wf_message m;
  st_pos : 0 < msg_hash m;
  st_key_len : (length (full_key (m_ctxt m) (m_id m)) < RES_SIZE)%nat;
  st_canon : canonical (m_id m) = true;
  st_canon_ctxt : forall c, m_ctxt m = Some c -> canonical c = true }.

(** A message whose text has the hash of its key (in practice, whose text is its key) is left
    out of the archive. *)
Definition kept (m : message) : bool := negb (msg_hash m =? sfh_hash (m_str m)).

(** The state after [print_msg] of a message that is kept. *)
Definition emit (s : Po2lmo.st) (m : message) : Po2lmo.st :=
  St (array s ++ [LmoEntry (msg_hash m) 1 (u32 (off s)) (u32 (Z.of_nat (length (m_str m))))])
     (off s + Z.of_nat (length (m_str m) + pad (length (m_str m))))
     (outb s ++ m_str m ++ replicate (pad (length (m_str m))) 0).

Lemma pad_Z n : Z.of_nat (pad n) = (4 - Z.of_nat n mod 4) mod 4.
Proof.
  unfold pad. rewrite Nat2Z.inj_mod, Nat2Z.inj_sub, Nat2Z.inj_mod; [done|].
  pose proof (Nat.mod_upper_bound n 4). lia.
Qed.

Lemma flush_done m s :
  message_wf m -> flush_msg (done_msg m) s = Ret (empty_msg 0, if kept m then emit s m else s).
Proof.
  intros [Hwf _ Hk _ _]. destruct (m_str m) as [|c t] eqn:Hs.
  { destruct Hwf as [_ [Hne _ _ _] _]. by rewrite Hs in Hne. }
  assert (msg_key (done_msg m) (m_id m) 0 = full_key (m_ctxt m) (m_id m)) as Hkey.
  { unfold msg_key, done_msg, full_key in *. cbn [ctxt id_plural].
    destruct (m_ctxt m); apply take_ge; unfold RES_SIZE, KEY_SIZE in *; lia. }
  unfold flush_msg, print_msg, done_msg. cbn [id val nth plural_num].
  rewrite bool_decide_eq_true_2 by eauto. cbn [orb].
  change (Z.to_nat (0 + 1)) with 1%nat. rewrite Hs. cbn [take print_forms].
  fold (done_msg m). rewrite <- Hs.
  assert (Msg 0 (m_ctxt m) (Some (m_id m)) None (Some (m_str m) :: replicate 9 None) (Some (F_val 0)) =
          done_msg m) as -> by done.
  rewrite Hkey. fold (msg_hash m). unfold kept.
  destruct (msg_hash m =? sfh_hash (m_str m)); [done|]. cbn [negb]. rewrite Hs.
  unfold add_entry, print. cbn [res_bind].
  do 2 f_equal. unfold emit. rewrite Hs. f_equal. rewrite Nat2Z.inj_add, pad_Z. done.
Qed.

Definition render_all (ms : list message) : list Z := concat (map render ms).

Lemma po_loop_messages W ms : forall fuel m0 tmp st0 n st1,
  Forall message_wf ms -> length tmp = KEY_SIZE -> flush_msg m0 st0 = Ret (empty_msg n, st1) ->
  (list_sum (map nlines ms) < fuel)%nat ->
  po_loop W fuel (render_all ms) m0 tmp st0 = Ret (fold_left emit (List.filter kept ms) st1).
Proof.
  induction ms as [|m ms IH]; intros fuel m0 tmp st0 n st1 Hms Htmp Hfl Hf.
  - destruct fuel as [|f]; [simpl in Hf; lia|].
    change (render_all []) with (@nil Z). cbn [po_loop].
    assert (fgets (KEY_SIZE - 1) [] = ([], [])) as -> by (by destruct (KEY_SIZE - 1)%nat).
    change (po_keyword W (bool_decide (@nil Z = [])) (as_cstr []) m0 st0)
      with (let* (m, s) := flush_msg m0 st0 in Ret (start_field F_id m, s)).
    by rewrite Hfl.
  - inversion Hms as [|? ? Hm Hms']; subst. cbn [map] in Hf.
    change (list_sum (nlines m :: map nlines ms)) with (nlines m + list_sum (map nlines ms))%nat in Hf.
    change (render_all (m :: ms)) with (render m ++ render_all ms).
    replace fuel with (nlines m + (fuel - nlines m))%nat by lia.
    destruct (read_message W m (fuel - nlines m) (render_all ms) m0 tmp st0 n st1)
      as (tmp' & Ht' & ->); [apply (st_wf m Hm)|done|done|].
    rewrite (IH _ _ _ _ 0 (if kept m then emit st1 m else st1)) by (done || (by apply flush_done) || lia).
    cbn [List.filter]. by destruct (kept m).
Qed.

(** ** Layout *)

(** The texts of the messages are where the entries say. *)
Definition entry_of (data : list Z) (e : lmo_entry) (m : message) : Prop :=
  key_id e = msg_hash m /\ val_id e = 1 /\ 0 <= offset e /\
  length_ e = Z.of_nat (length (m_str m)) /\
  (Z.to_nat (offset e) + length (m_str m) <= length data)%nat /\
  mem_read data (Z.to_nat (offset e)) (length (m_str m)) = Some (m_str m).

Lemma mem_read_prefix m m' p n bs :
  mem_read m p n = Some bs -> mem_read (m ++ m') p n = Some bs.
Proof.
  unfold mem_read. case_decide as Hd; [|done]. intros; simplify_eq.
  rewrite decide_True by (rewrite length_app; lia). f_equal.
  rewrite drop_app_le, take_app_le by (rewrite ?length_drop; lia). done.
Qed.

Lemma mem_read_at (a b c : list Z) : mem_read (a ++ b ++ c) (length a) (length b) = Some b.
Proof.
  unfold mem_read. rewrite decide_True by (rewrite !length_app; lia).
  by rewrite drop_app_length, take_app_length.
Qed.

Lemma entry_of_prefix d d' e m : entry_of d e m -> entry_of (d ++ d') e m.
Proof.
  intros (? & ? & ? & ? & ? & ?). unfold entry_of. split_and!; try done.
  - rewrite length_app. lia.
  - by apply mem_read_prefix.
Qed.

Lemma emit_all ms : forall s,
  off s = Z.of_nat (length (outb s)) -> off (fold_left emit ms s) < 2 ^ 32 ->
  exists d es, outb (fold_left emit ms s) = outb s ++ d /\
    array (fold_left emit ms s) = array s ++ es /\
    off (fold_left emit ms s) = Z.of_nat (length (outb (fold_left emit ms s))) /\
    Forall2 (entry_of (outb s ++ d)) es ms.
Proof.
  induction ms as [|m ms IH]; intros s Ho Hlt; cbn [fold_left] in *.
  - exists [], []. rewrite !app_nil_r. auto.
  - destruct (IH (emit s m)) as (d & es & Hd & He & Hoff & Hf); [|done|].
    { unfold emit. cbn [off outb]. rewrite !length_app, length_replicate, Ho. lia. }
    set (t := m_str m ++ replicate (pad (length (m_str m))) 0).
    assert (outb (emit s m) = outb s ++ t) as Hout by done.
    exists (t ++ d), (LmoEntry (msg_hash m) 1 (u32 (off s))
      (u32 (Z.of_nat (length (m_str m)))) :: es).
    assert (Z.of_nat (length (outb s)) + Z.of_nat (length (m_str m)) < 2 ^ 32) as Hsmall.
    { rewrite Hoff, Hd, Hout in Hlt. unfold t in Hlt. rewrite !length_app in Hlt. lia. }
    split; [by rewrite Hd, Hout, <- app_assoc|]. split; [rewrite He; unfold emit; cbn [array]; by rewrite <- app_assoc|].
    split; [done|]. rewrite app_assoc, <- Hout. constructor; [|done].
    apply entry_of_prefix. unfold entry_of. cbn [key_id val_id offset length_].
    rewrite Ho. unfold u32. rewrite !wrap_small by (unfold is_word; lia). rewrite Nat2Z.id, Hout.
    unfold t. split_and!; [done|done|lia|done|rewrite !length_app; lia|apply mem_read_at].
Qed.

(** ** The index *)

Definition enc_entry (e : lmo_entry) : list Z :=
  enc BE 4 (key_id e) ++ enc BE 4 (val_id e) ++ enc BE 4 (offset e) ++ enc BE 4 (length_ e).

Lemma length_enc_entry e : length (enc_entry e) = 16%nat.
Proof. unfold enc_entry. rewrite !length_app, !length_enc. done. Qed.

Lemma print_uint32_ok x o : print_uint32 x o = Ret (o ++ enc BE 4 x).
Proof.
  unfold print_uint32, print. pose proof (length_enc BE 4 x) as Hl.
  destruct (enc BE 4 x) as [|a l] eqn:He; [done|]. rewrite Hl.
  change (replicate ((4 - 4 mod 4) mod 4) 0) with (@nil Z). by rewrite app_nil_r.
Qed.

Lemma print_entries_ok es o : print_entries es o = Ret (o ++ concat (map enc_entry es)).
Proof.
  revert o. induction es as [|e es IH]; intros o; cbn [print_entries map concat];
    [by rewrite app_nil_r|].
  rewrite !print_uint32_ok. cbn [res_bind]. rewrite !print_uint32_ok. cbn [res_bind].
  rewrite !print_uint32_ok. cbn [res_bind]. rewrite !print_uint32_ok. cbn [res_bind].
  rewrite IH. unfold enc_entry. by rewrite <- !app_assoc.
Qed.

Lemma concat_entries es i e :
  es !! i = Some e -> exists a b, concat (map enc_entry es) = a ++ enc_entry e ++ b /\
    length a = (16 * i)%nat.
Proof.
  revert i. induction es as [|x es IH]; intros [|i] Hi; simpl in Hi; simplify_eq.
  - exists [], (concat (map enc_entry es)). done.
  - destruct (IH i Hi) as (a & b & Heq & Hl). exists (enc_entry x ++ a), b.
    cbn [map concat]. rewrite Heq, <- app_assoc. split; [done|].
    rewrite length_app, length_enc_entry, Hl. lia.
Qed.

Lemma length_concat_entries es : length (concat (map enc_entry es)) = (16 * length es)%nat.
Proof.
  induction es as [|e es IH]; [done|]. cbn [map concat length].
  rewrite length_app, length_enc_entry, IH. lia.
Qed.

(** The archive po2lmo writes for the data [d] and the entries [es]. *)
Definition lmo_file (d : list Z) (es : list lmo_entry) : list Z :=
  d ++ concat (map enc_entry es) ++ enc BE 4 (Z.of_nat (length d)).

Lemma length_lmo_file d es : length (lmo_file d es) = (length d + 16 * length es + 4)%nat.
Proof. unfold lmo_file. rewrite !length_app, length_concat_entries, length_enc. lia. Qed.

Section File.
Context (d : list Z) (es : list lmo_entry) (Hsz : Z.of_nat (length (lmo_file d es)) < 2 ^ 31).

Definition lmo_ar : lmo_archive :=
  Archive (lmo_file d es) (Z.of_nat (length (lmo_file d es))) (Z.of_nat (length d))
          (Z.of_nat (length es)).

Lemma lmo_open_file W : W = 32 \/ W = 64 -> lmo_open W (lmo_file d es) = Some (Some lmo_ar).
Proof.
  intros HW. unfold lmo_open. rewrite length_lmo_file in Hsz.
  assert (u32 (Z.of_nat (length (lmo_file d es))) = Z.of_nat (length (lmo_file d es))) as ->.
  { apply wrap_small. rewrite length_lmo_file. unfold is_word. lia. }
  rewrite length_lmo_file. rewrite (proj2 (Z.eqb_neq _ _)), (proj2 (Z.ltb_ge _ _)) by lia.
  assert (get32 BE (lmo_file d es) (Z.to_nat (Z.of_nat (length d + 16 * length es + 4) - 4)) =
          Some (Z.of_nat (length d))) as ->.
  { unfold get32, lmo_file. rewrite app_assoc.
    pose proof (mem_read_at (d ++ concat (map enc_entry es)) (enc BE 4 (Z.of_nat (length d))) []) as Hr.
    rewrite app_nil_r, length_app, length_concat_entries, length_enc in Hr.
    replace (Z.to_nat (Z.of_nat (length d + 16 * length es + 4) - 4))
      with (length d + 16 * length es)%nat by lia.
    rewrite Hr. cbn [mbind option_bind]. rewrite dec_enc, Z.mod_small; [done|].
    change (256 ^ Z.of_nat 4) with (2 ^ 32). lia. }
  cbn [mbind option_bind]. rewrite Z.geb_leb, (proj2 (Z.leb_gt _ _)) by lia.
  unfold lmo_ar. rewrite length_lmo_file. do 3 f_equal.
  replace (Z.of_nat (length d + 16 * length es + 4) - Z.of_nat (length d) - 4)
    with (Z.of_nat (length es) * 16) by lia.
  rewrite wrap_small by (unfold is_word; destruct HW as [-> | ->]; lia).
  rewrite Z.div_mul by lia. unfold s32, signed. rewrite wrap_small by (unfold is_word; lia).
  change (2 ^ (32 - 1)) with (2 ^ 31). by rewrite (proj2 (Z.ltb_lt _ _)) by lia.
Qed.

(** The fields of the entries of the mapped index. *)
Lemma index_field_ok i e k z a b :
  es !! i = Some e -> enc_entry e = a ++ enc BE 4 z ++ b -> length a = Z.to_nat k -> 0 <= k ->
  is_word 32 z -> index_field lmo_ar (Z.of_nat i) k = Some z.
Proof.
  intros Hi He Ha Hk Hz. unfold index_field, lmo_ar, lmo_file, get32. cbn [ar_mmap ar_index].
  destruct (concat_entries es i e Hi) as (x & y & -> & Hx). rewrite He.
  replace (Z.to_nat (Z.of_nat (length d) + 16 * Z.of_nat i + k)) with (length (d ++ x ++ a))
    by (rewrite !length_app; lia).
  pose proof (mem_read_at (d ++ x ++ a) (enc BE 4 z) (b ++ y ++ enc BE 4 (Z.of_nat (length d)))) as Hr.
  rewrite length_enc in Hr. rewrite <- !app_assoc in *. rewrite Hr. cbn [mbind option_bind].
  rewrite dec_enc. f_equal. by apply Z.mod_small.
Qed.

Lemma index_key i e : es !! i = Some e -> is_word 32 (key_id e) ->
  index_field lmo_ar (Z.of_nat i) 0 = Some (key_id e).
Proof. intros. by eapply (index_field_ok i e 0 _ []). Qed.

Lemma index_offset i e : es !! i = Some e -> is_word 32 (offset e) ->
  index_field lmo_ar (Z.of_nat i) 8 = Some (offset e).
Proof.
  intros. eapply (index_field_ok i e 8 _ (enc BE 4 (key_id e) ++ enc BE 4 (val_id e))); done.
Qed.

Lemma index_length i e : es !! i = Some e -> is_word 32 (length_ e) ->
  index_field lmo_ar (Z.of_nat i) 12 = Some (length_ e).
Proof.
  intros. eapply (index_field_ok i e 12 _
    (enc BE 4 (key_id e) ++ enc BE 4 (val_id e) ++ enc BE 4 (offset e)) []); done.
Qed.
End File.

(** ** Lookup *)

Lemma lxor_word32 a b : is_word 32 a -> is_word 32 b -> is_word 32 (Z.lxor a b).
Proof. apply is_word_lxor. lia. Qed.

Lemma u32_word x : is_word 32 (u32 x).
Proof. apply wrap_range. lia. Qed.

Lemma sfh_hash_word s : is_word 32 (sfh_hash s).
Proof.
  unfold sfh_hash. destruct (_ <=? 0); [split; done|].
  destruct (sfh_loop _ _ _). apply u32_word.
Qed.

Section Lookup.
Context {Q : QSort} {QL : QSortLaws Q}.
Context (data : list Z) (arr : list lmo_entry) (ms : list message).
Context (Hall : Forall2 (entry_of data) arr ms) (Hst : Forall message_wf ms).
Context (Hdup : NoDup (map msg_hash ms)).
Context (Hsz : Z.of_nat (length data + 16 * length arr + 4) < 2 ^ 31).

#[local] Notation es := (qsort arr).
#[local] Notation ar := (lmo_ar data (qsort arr)).

Lemma size_ok : Z.of_nat (length (lmo_file data es)) < 2 ^ 31.
Proof. rewrite length_lmo_file, (Permutation_length (qsort_perm arr)). done. Qed.

Lemma sorted_entry i e :
  es !! i = Some e -> exists m, m ∈ ms /\ entry_of data e m.
Proof.
  intros Hi%list_elem_of_lookup_2. rewrite (qsort_perm arr) in Hi.
  apply list_elem_of_lookup in Hi as [j Hj].
  destruct (Forall2_lookup_l _ _ _ _ _ Hall Hj) as (m & Hm & He).
  exists m. split; [by eapply list_elem_of_lookup_2|done].
Qed.

Lemma index_ok_sorted : index_ok ar (map key_id es).
Proof.
  pose proof size_ok as Hs. rewrite length_lmo_file in Hs. constructor.
  - by rewrite length_map.
  - rewrite length_map. lia.
  - intros i k Hi. rewrite list_lookup_fmap in Hi.
    destruct (es !! i) as [e|] eqn:He; [|done]. simplify_eq/=.
    apply index_key; [apply size_ok|done|].
    destruct (sorted_entry i e He) as (m & _ & -> & _). apply sfh_hash_word.
  - intros i j a b Hij Ha Hb. rewrite list_lookup_fmap in Ha, Hb.
    destruct (es !! i) as [x|] eqn:Hx; [|done]. destruct (es !! j) as [y|] eqn:Hy; [|done].
    simplify_eq/=. pose proof (qsort_sorted arr i j x y Hij Hx Hy) as Hc.
    unfold cmp_index in Hc. destruct (Z.ltb_spec (key_id x) (key_id y)); [lia|].
    rewrite Z.gtb_ltb in Hc. destruct (Z.ltb_spec (key_id y) (key_id x)); lia.
Qed.

Lemma hash_inj m m' : m ∈ ms -> m' ∈ ms -> msg_hash m = msg_hash m' -> m = m'.
Proof using Hdup.
  intros [i Hi]%list_elem_of_lookup [j Hj]%list_elem_of_lookup Heq.
  assert (i = j) as ->.
  { eapply (NoDup_lookup _ _ _ (msg_hash m) Hdup); rewrite list_lookup_fmap.
    - by rewrite Hi.
    - rewrite Hj. simpl. by rewrite Heq. }
  congruence.
Qed.

Lemma entry_text_ok i e m :
  es !! i = Some e -> entry_of data e m -> entry_text ar (Z.of_nat i) = Some (m_str m).
Proof.
  intros Hi (Hk & Hv & Ho & Hl & Hb & Hr). unfold entry_text.
  rewrite (index_offset data es size_ok i e Hi) by (unfold is_word; lia). cbn [mbind option_bind].
  rewrite (index_length data es size_ok i e Hi) by (rewrite Hl; unfold is_word; lia).
  cbn [mbind option_bind]. rewrite Hl, Nat2Z.id.
  unfold lmo_ar, lmo_file. cbn [ar_mmap]. by apply mem_read_prefix.
Qed.

(** The search for a hash: the text of the message filed under it, if any. *)
Lemma find_in_archive hash : ms <> [] ->
  exists r, find_in [ar] hash = Some r /\
    match r with
    | Some t => exists m, m ∈ ms /\ msg_hash m = hash /\ t = m_str m
    | None => hash ∉ map msg_hash ms
    end.
Proof.
  intros Hne. assert (map key_id es <> []) as Hks.
  { intros Hn%(f_equal length). rewrite length_map, (Permutation_length (qsort_perm arr)) in Hn.
    rewrite (Forall2_length _ _ _ Hall) in Hn. by destruct ms. }
  destruct (lmo_find_entry_ok ar (map key_id es) index_ok_sorted hash Hks) as (x & Hx & Hf).
  cbn [find_in]. rewrite Hx. cbn [mbind option_bind]. destruct x as [m|]; simpl in Hf.
  - destruct Hf as (i & -> & Hi). rewrite list_lookup_fmap in Hi.
    destruct (es !! i) as [e|] eqn:He; [|done]. simplify_eq/=.
    destruct (sorted_entry i e He) as (m & Hm & Hent).
    rewrite (entry_text_ok i e m He Hent). cbn [mbind option_bind].
    eexists. split; [done|]. exists m. split_and!; [done| |done]. symmetry. apply Hent.
  - exists None. split; [done|]. intros Hin. apply Hf.
    apply list_elem_of_fmap in Hin as (m & -> & Hm).
    apply list_elem_of_lookup in Hm as [j Hj].
    destruct (Forall2_lookup_r _ _ _ _ _ Hall Hj) as (e & He & Hk & _).
    rewrite <- Hk. apply list_elem_of_fmap_2. rewrite (qsort_perm arr). by eapply list_elem_of_lookup_2.
Qed.

Lemma translate_stored lang_ m :
  m ∈ ms -> lmo_translate_ctxt (Some (Catalog lang_ [ar])) (m_id m) (m_ctxt m) = Some (0, Some (m_str m)).
Proof.
  intros Hm. destruct (proj1 (Forall_forall _ _) Hst m Hm) as [_ Hpos Hlen Hc Hcc].
  unfold lmo_translate_ctxt. rewrite lmo_canon_hash_key by done. fold (msg_hash m).
  rewrite Z.gtb_ltb, (proj2 (Z.ltb_lt _ _) Hpos). cbn [archives].
  destruct (find_in_archive (msg_hash m)) as (r & -> & Hr); [intros Hn; rewrite Hn in Hm; by apply not_elem_of_nil in Hm|].
  cbn [mbind option_bind]. destruct r as [t|].
  - destruct Hr as (m' & Hm' & Heq & ->). by rewrite (hash_inj m' m Hm' Hm Heq).
  - destruct Hr. by apply list_elem_of_fmap_2.
Qed.

Lemma translate_absent lang_ key ctx :
  ms <> [] -> lmo_canon_hash key ctx (-1) ∉ map msg_hash ms ->
  lmo_translate_ctxt (Some (Catalog lang_ [ar])) key ctx = Some (-1, None).
Proof.
  intros Hne Habs. unfold lmo_translate_ctxt. destruct (_ >? 0); [|done]. cbn [archives].
  destruct (find_in_archive (lmo_canon_hash key ctx (-1)) Hne) as (r & -> & Hr).
  cbn [mbind option_bind]. destruct r as [t|]; [|done].
  destruct Hr as (m & Hm & Heq & _). destruct Habs. rewrite <- Heq. by apply list_elem_of_fmap_2.
Qed.
End Lookup.

(** ** End to end *)

(** The size of the data of the messages. *)
Definition data_size (ms : list message) : nat :=
  list_sum (map (fun m => length (m_str m) + pad (length (m_str m)))%nat ms).

Lemma emit_off ms s : off (fold_left emit ms s) = off s + Z.of_nat (data_size ms).
Proof.
  revert s. induction ms as [|m ms IH]; intros s; [unfold data_size; simpl; lia|].
  cbn [fold_left]. rewrite IH. unfold emit. cbn [off].
  change (data_size (m :: ms)) with (length (m_str m) + pad (length (m_str m)) + data_size ms)%nat. lia.
Qed.

Lemma nlines_length ms : (list_sum (map nlines ms) <= length (render_all ms))%nat.
Proof.
  induction ms as [|m ms IH]; [simpl; lia|]. change (render_all (m :: ms)) with (render m ++ render_all ms).
  change (list_sum (map nlines (m :: ms))) with (nlines m + list_sum (map nlines ms))%nat.
  rewrite length_app. assert (nlines m <= length (render m))%nat; [|lia].
  unfold nlines, render. destruct (m_ctxt m); rewrite !length_app; simpl; lia.
Qed.

Lemma po2lmo_kept {Q : QSort} {QL : QSortLaws Q} W ms input tmp :
  W = 32 \/ W = 64 -> ms <> [] -> Forall message_wf ms -> NoDup (map msg_hash ms) ->
  Z.of_nat (data_size ms + 16 * length ms + 4) < 2 ^ 31 ->
  po_loop W (S (length input)) input (empty_msg (-1)) tmp (St [] 0 []) = Ret (fold_left emit ms (St [] 0 [])) ->
  exists file ar,
    po2lmo W input tmp = Ret (Some file) /\ lmo_open W file = Some (Some ar) /\
    (forall lang_ m, m ∈ ms ->
       lmo_translate_ctxt (Some (Catalog lang_ [ar])) (m_id m) (m_ctxt m) =
       Some (0, Some (m_str m))) /\
    (forall lang_ key ctx, lmo_canon_hash key ctx (-1) ∉ map msg_hash ms ->
       lmo_translate_ctxt (Some (Catalog lang_ [ar])) key ctx = Some (-1, None)).
Proof.
  intros HW Hne Hst Hdup Hsz Hloop. set (s := fold_left emit ms (St [] 0 [])) in *.
  pose proof (emit_off ms (St [] 0 [])) as Hoff. cbn [off] in Hoff. fold s in Hoff.
  destruct (emit_all ms (St [] 0 []) eq_refl) as (d & es & Hd & He & Hlen & Hall);
    [fold s; lia|]. fold s in Hd, He, Hlen. cbn [outb array app] in Hd, He, Hall.
  pose proof (Forall2_length _ _ _ Hall) as Hl.
  assert (Z.of_nat (length d + 16 * length es + 4) < 2 ^ 31) as Hsz'
    by (rewrite <- Hd, Hl; rewrite Hlen in Hoff; lia).
  exists (lmo_file d (qsort es)), (lmo_ar d (qsort es)). split_and!.
  - unfold po2lmo. rewrite Hloop. cbn [res_bind]. unfold print_index.
    rewrite print_entries_ok. cbn [res_bind].
    assert (off s >? 0 = true) as ->.
    { rewrite Z.gtb_ltb. apply Z.ltb_lt. rewrite Hoff. destruct ms as [|m ms']; [done|].
      apply Forall_cons in Hst as [[[_ [Hm _ _ _] _] _ _ _ _] _].
      change (data_size (m :: ms')) with
        (length (m_str m) + pad (length (m_str m)) + data_size ms')%nat.
      destruct (m_str m); [done|]. simpl length. lia. }
    rewrite print_uint32_ok. cbn [res_bind]. rewrite Hd, He, Hlen, Hd. unfold lmo_file.
    by rewrite <- app_assoc.
  - apply lmo_open_file; [|done]. rewrite length_lmo_file, (Permutation_length (qsort_perm es)). done.
  - intros. by eapply translate_stored.
  - intros. by eapply translate_absent.
Qed.

Lemma filter_kept_nil ms : List.filter kept ms = [] <-> Forall (fun m => kept m = false) ms.
Proof.
  induction ms as [|m ms IH]; [by split|]. cbn [List.filter]. rewrite Forall_cons, <- IH.
  destruct (kept m); split; try done; by intros [].
Qed.

Lemma data_size_sub ms ms' : sublist ms ms' -> (data_size ms <= data_size ms')%nat.
Proof.
  unfold data_size. induction 1 as [|m ms ms' _ IH|m ms ms' _ IH]; simpl; lia.
Qed.

Lemma kept_sub ms : sublist (List.filter kept ms) ms.
Proof. induction ms as [|m ms IH]; [constructor|]. cbn [List.filter]. destruct (kept m); by constructor. Qed.

Lemma elem_of_kept ms m : m ∈ List.filter kept ms <-> m ∈ ms /\ kept m = true.
Proof. by rewrite !list_elem_of_In, List.filter_In. Qed.

(** A message that is not kept shares its hash with no message that is. *)
Lemma not_kept_absent ms m : NoDup (map msg_hash ms) -> m ∈ ms -> kept m = false ->
  msg_hash m ∉ map msg_hash (List.filter kept ms).
Proof.
  intros Hd Hm Hk (m' & Heq & [Hm' Hk']%elem_of_kept)%list_elem_of_fmap.
  rewrite (hash_inj ms Hd m m' Hm Hm' Heq) in Hk. congruence.
Qed.


(** C22: In an archive with a sorted, non-empty index [lmo_find_entry] terminates
    within 64 steps and is exact: it returns a position that holds the hash, or
    nothing when no entry has it. *)
Theorem find_entry_correct (ar : lmo_archive) (ks : list Z) (hash : Z) :
  index_ok ar ks -> ks <> [] ->
  exists r, lmo_find_entry ar hash = Some r /\
    match r with
    | Some m => exists i, m = Z.of_nat i /\ ks !! i = Some hash
    | None => hash ∉ ks
    end.
Proof. intros H Hne. apply (lmo_find_entry_ok ar ks H hash Hne). Qed.

(** Keys are looked up in canonical form: the text [lmo_canon_hash] hashes
    has no leading, trailing, doubled or non-blank white space, and such a text
    is its own canonical form. *)
Theorem canon_idempotent (s r : cstr) :
  canon_loop 32 s [] = Some r -> (length r < RES_SIZE)%nat ->
  canon_from 32 r = true /\ canon_loop 32 r [] = Some r /\
  lmo_canon_hash s None (-1) = sfh_hash (canon_strip r).
Proof.
  intros Hr Hl. assert (canon_from 32 r = true) as Hc.
  { eapply canon_loop_out; [exact Hr|done|]. split; [by left|done]. }
  split; [done|]. split; [by rewrite canon_loop_fixed by (done || simpl; lia)|].
  unfold lmo_canon_hash. cbn [mbind option_bind]. by rewrite Hr.
Qed.

(** ** Instances *)

(** Merge sort as a [qsort]. *)
Definition key_le (a b : lmo_entry) : Prop := key_id a <= key_id b.
#[export] Instance key_le_dec : RelDecision key_le.
Proof. intros a b. unfold key_le. apply _. Defined.
#[export] Instance key_le_total : Total key_le.
Proof. intros a b. unfold key_le. lia. Qed.
#[export] Instance key_le_trans : Transitive key_le.
Proof. intros a b c. unfold key_le. lia. Qed.

Definition merge_qsort : QSort := merge_sort key_le.

Lemma merge_qsort_laws : QSortLaws merge_qsort.
Proof.
  constructor.
  - intros l. apply merge_sort_Permutation.
  - intros l i j a b Hij Ha Hb.
    assert (key_le a b) as Hle.
    { pose proof (StronglySorted_merge_sort key_le l) as Hs. revert i j Hij Ha Hb.
      unfold qsort, merge_qsort. induction Hs as [|x l' Hs IH Hx]; intros i j Hij Ha Hb; [done|].
      destruct i as [|i], j as [|j]; try lia; simpl in *.
      - simplify_eq. by eapply (Forall_lookup_1 _ _ _ _ Hx).
      - by eapply (IH i j); [lia|..]. }
    unfold key_le in Hle. unfold cmp_index.
    destruct (Z.ltb_spec (key_id a) (key_id b)); [lia|].
    rewrite Z.gtb_ltb. destruct (Z.ltb_spec (key_id b) (key_id a)); lia.
Qed.

Definition demo_messages : list message :=
  [Message None (str "Save & Apply") (str "Speichern");
   Message (Some (str "noun")) (str "State of \ it") (str "Zustand");
   Message None (str "DNS") (str "DNS")].

Definition text_ok (s : cstr) : bool :=
  bool_decide (s <> []) && forallb (fun c => negb (c =? 0) && negb (c =? 10)) s &&
  (Z.of_nat (length (quote s)) <=? 4000).

Lemma text_ok_wf s : text_ok s = true -> wf_text s.
Proof.
  unfold text_ok. intros [[Hne Hf]%andb_prop Hl]%andb_prop. apply bool_decide_eq_true in Hne.
  rewrite forallb_forall in Hf.
  constructor; [done| | |apply Z.leb_le in Hl; lia]; apply Forall_forall; intros c Hc ->;
    apply list_elem_of_In, Hf in Hc; done.
Qed.

Definition message_ok (m : message) : bool :=
  text_ok (m_id m) && text_ok (m_str m) &&
  match m_ctxt m with Some c => text_ok c && canonical c | None => true end &&
  (0 <? msg_hash m) &&
  (Z.of_nat (length (full_key (m_ctxt m) (m_id m))) <? 4096) && canonical (m_id m).

Lemma message_ok_wf m : message_ok m = true -> message_wf m.
Proof.
  unfold message_ok. rewrite !andb_true_iff, !Z.ltb_lt.
  intros (((((Hi & Hs) & Hc) & Hp) & Hl) & Hca).
  constructor; try done.
  - constructor; [by apply text_ok_wf..|]. intros c Hcc. rewrite Hcc in Hc.
    apply text_ok_wf. by apply andb_prop in Hc as [? ?].
  - unfold RES_SIZE. lia.
  - intros c Hcc. rewrite Hcc in Hc. by apply andb_prop in Hc as [? ?].
Qed.


(** An index with the keys 5 and 9. *)
Definition two_entries : lmo_archive := Archive (enc BE 4 5 ++ replicate 12 0 ++ enc BE 4 9 ++ replicate 12 0) 32 0 2.

Lemma two_entries_ok : index_ok two_entries [5; 9].
Proof.
  constructor.
  - done.
  - done.
  - intros [|[|i]] k Hk; simpl in Hk; simplify_eq; vm_compute; reflexivity.
  - intros [|[|i]] [|[|j]] a b Hij Ha Hb; simpl in Ha, Hb; simplify_eq; lia.
Qed.

Lemma find_entry_correct_witness :
  exists r, lmo_find_entry two_entries 9 = Some r /\
    match r with
    | Some m => exists i, m = Z.of_nat i /\ [5; 9] !! i = Some 9
    | None => 9 ∉ [5; 9]
    end.
Proof. apply (find_entry_correct two_entries [5; 9] 9 two_entries_ok). done. Defined.

Lemma canon_idempotent_witness :
  canon_from 32 (str "a b ") = true /\ canon_loop 32 (str "a b ") [] = Some (str "a b ") /\
  lmo_canon_hash (str "  a " ++ [9] ++ str "b  ") None (-1) = sfh_hash (str "a b").
Proof.
  apply (canon_idempotent (str "  a " ++ [9] ++ str "b  ") (str "a b ")).
  - vm_compute. reflexivity.
  - apply Nat.ltb_lt. vm_compute. reflexivity.
Defined.

Lemma find_loop_outside f ar hash l r :
  r <? l = false -> index_field ar (u32 (l + u32 (r - l) / 2)) 0 = None ->
  find_loop (S f) ar hash l r = None.
Proof. intros Hlr Hi. cbn [find_loop]. by rewrite Hlr, Hi. Qed.

(** An archive with an empty index, such as a file of four zero bytes, is
    accepted by [lmo_open], and every search in it reads outside the mapping:
    [length - 1] wraps to the largest unsigned number. *)
Theorem empty_archive_overread (hash : Z) :
  exists ar, lmo_open 64 [0; 0; 0; 0] = Some (Some ar) /\ lmo_find_entry ar hash = None.
Proof.
  exists (Archive [0; 0; 0; 0] 4 0 0). split; [vm_compute; reflexivity|].
  unfold lmo_find_entry. apply find_loop_outside; [done|]. cbn [ar_length].
  change (u32 (0 + u32 (u32 (0 - 1) - 0) / 2)) with (2 ^ 31 - 1).
  unfold index_field, get32, mem_read. cbn [ar_mmap ar_index]. rewrite decide_False; [done|].
  cbn [length]. lia.
Qed.
