(* ===== verification/Udptunnel.v ===== *)
(** * The UDP tunnel: package/rooter/0optionalapps/udp-tunnel

    udptunnel.c: datagrams are sent over a TCP connection, each after its
    length in network byte order; the server side first expects a handshake.
    The model covers the relay between the two sockets ([udp_to_tcp],
    [tcp_to_udp], [send_udp_packet], [send_handshake]), the event loop and the
    set-up of the relay in [main].

    What the system calls return is an argument of each step.  The receive
    buffer is the list of the bytes between [buf] and [buf_ptr]; positions in
    it are offsets from [buf]. *)
From stdpp Require Import options.
From S2P Require Import Prelude.

Definition TCPBUFFERSIZE : Z := 65536.
Definition UDPBUFFERSIZE : Z := TCPBUFFERSIZE - 2.

Inductive rstate := uninitialized | reading_handshake | reading_length | reading_packet.
#[export] Instance rstate_eq_dec : EqDecision rstate.
Proof. solve_decision. Defined.

(** An address; [ss_family == 0] is [None]. *)
Definition sockaddr := Z.

Record relay := Relay {
  remote_udpaddr : option sockaddr;
  expect_handshake : bool;
  handshake : list Z;
  udp_timeout : Z; tcp_timeout : Z;
  buf : list Z;
  packet_start : Z;
  packet_length : Z;
  state : rstate }.

(** sizeof(relay->handshake) *)
Definition HANDSHAKE_LEN : Z := 32.

(** What a step produces: the relay goes on, or the process exits. *)
Inductive reason :=
| Err_sys | Remote_closed | Bad_handshake | Udp_timeout | Tcp_timeout.

Inductive outcome (A : Type) := Go (a : A) | Exit (r : reason).
Arguments Go {A} a.
Arguments Exit {A} r.

Definition obind {A B} (r : outcome A) (k : A -> outcome B) : outcome B :=
  match r with Go a => k a | Exit r => Exit r end.

(** ** UDP to TCP *)

(** [recvfrom]: an error, or a datagram, cut to the size of the buffer, and
    its source. *)
Inductive recv_result := Recv_err | Recv (from : sockaddr) (payload : list Z).

Definition set_remote (r : relay) (a : sockaddr) : relay :=
  Relay (Some a) (expect_handshake r) (handshake r) (udp_timeout r) (tcp_timeout r)
        (buf r) (packet_start r) (packet_length r) (state r).

(** The bytes [send] transmits: [struct out_packet] up to the payload. *)
Definition out_packet (payload : list Z) : list Z :=
  enc BE 2 (u16 (Z.of_nat (length payload))) ++ payload.

(** The relay and the bytes sent on the TCP connection; [send_ok] is the result
    of [send], which transmits everything on a blocking socket. *)
Definition udp_to_tcp (recv : recv_result) (send_ok : bool) (r : relay) : outcome (relay * list Z) :=
  match recv with
  | Recv_err => Exit Err_sys
  | Recv from data =>
      let payload := take (Z.to_nat UDPBUFFERSIZE) data in
      match payload with
      | [] => Go (r, [])
      | _ =>
          let r := set_remote r from in
          if send_ok then Go (r, out_packet payload) else Exit Err_sys
      end
  end.

(** ** TCP to UDP *)

(** [Send_refused]: [ECONNREFUSED], and [getsockopt] cleared the error. *)
Inductive send_result := Send_ok | Send_refused | Send_err.

Section TcpToUdp.
(** What [sendto] returns for a datagram. *)
Context (sendto : sockaddr -> list Z -> send_result).

(** The datagrams handed to [sendto]; a refused one is given up. *)
Definition send_udp_packet (r : relay) (packet : list Z) : outcome (list (sockaddr * list Z)) :=
  match remote_udpaddr r with
  | None => Go []
  | Some a =>
      match sendto a packet with
      | Send_ok | Send_refused => Go [(a, packet)]
      | Send_err => Exit Err_sys
      end
  end.

Definition with_packet (r : relay) (b : list Z) (start len : Z) (s : rstate) : relay :=
  Relay (remote_udpaddr r) (expect_handshake r) (handshake r) (udp_timeout r) (tcp_timeout r)
        b start len s.

(** [n] bytes of the buffer from position [p]. *)
Definition window (b : list Z) (p n : Z) : list Z := take (Z.to_nat n) (drop (Z.to_nat p) b).

(** The [while] loop of [tcp_to_udp]. *)
Fixpoint packet_loop (fuel : nat) (r : relay) (sent : list (sockaddr * list Z)) :
    option (outcome (relay * list (sockaddr * list Z))) :=
  match fuel with
  | O => None
  | S f =>
      if Z.of_nat (length (buf r)) - packet_start r >=? packet_length r then
        match state r with
        | reading_handshake =>
            if decide (window (buf r) (packet_start r) HANDSHAKE_LEN = handshake r)
            then packet_loop f (with_packet r (buf r) (packet_start r + HANDSHAKE_LEN) 2 reading_length)
                   sent
            else Some (Exit Bad_handshake)
        | reading_length =>
            let len := dec BE (window (buf r) (packet_start r) 2) in
            packet_loop f (with_packet r (buf r) (packet_start r + 2) len reading_packet) sent
        | reading_packet =>
            let packet := window (buf r) (packet_start r) (packet_length r) in
            match send_udp_packet r packet with
            | Exit e => Some (Exit e)
            | Go s =>
                packet_loop f
                  (with_packet r (drop (Z.to_nat (packet_start r + packet_length r)) (buf r)) 0 2
                     reading_length) (sent ++ s)
            end
        | uninitialized => None
        end
      else Some (Go (r, sent))
  end.

(** [read] returns an error or at most as many bytes as are free. *)
Inductive read_result := Read_err | Read (data : list Z).

Definition room (r : relay) : Z := TCPBUFFERSIZE - Z.of_nat (length (buf r)).

Definition init_packet (r : relay) : relay :=
  match state r with
  | uninitialized =>
      if expect_handshake r then with_packet r [] 0 HANDSHAKE_LEN reading_handshake
      else with_packet r [] 0 2 reading_length
  | _ => r
  end.

(** Enough iterations for every buffer: two per length field, one for the
    handshake. *)
Definition loop_fuel (r : relay) : nat := (2 * length (buf r) + 4)%nat.

(** The relay and the datagrams sent; [None] is a read of more than fits. *)
Definition tcp_to_udp (rd : read_result) (r : relay) :
    option (outcome (relay * list (sockaddr * list Z))) :=
  let r := init_packet r in
  match rd with
  | Read_err => Some (Exit Err_sys)
  | Read data =>
      if Z.of_nat (length data) >? room r then None
      else
        match data with
        | [] => Some (Exit Remote_closed)
        | _ =>
            let r := with_packet r (buf r ++ data) (packet_start r) (packet_length r) (state r) in
            packet_loop (loop_fuel r) r []
        end
  end.

(** [send_handshake]: the bytes sent on the TCP connection. *)
Definition send_handshake (send_ok : bool) (r : relay) : outcome (list Z) :=
  if send_ok then Go (handshake r) else Exit Err_sys.

(** ** The event loop *)

(** The time of the last input on either side, 0 when no timeout is set. *)
Record loop_st := LoopSt { rel : relay; last_udp_input : Z; last_tcp_input : Z }.

(** What [select] reports and the calls after it return; each call of [time]
    has its own result. *)
Inductive event :=
| Select_intr
| Select_err
| Select_timeout (now_udp now_tcp : Z)
| Select_ready (tcp : option (read_result * Z)) (udp : option (recv_result * bool * Z)).

(** Bytes sent on the TCP connection and datagrams sent. *)
Record output := Output { to_tcp : list Z; to_udp : list (sockaddr * list Z) }.

Definition touch (last now : Z) : Z := if last =? 0 then 0 else now.

(** One iteration of [main_loop]. *)
Definition main_loop_step (ev : event) (l : loop_st) : option (outcome (loop_st * output)) :=
  match ev with
  | Select_intr => Some (Go (l, Output [] []))
  | Select_err => Some (Exit Err_sys)
  | Select_timeout now_udp now_tcp =>
      if negb (last_udp_input l =? 0) && (now_udp - last_udp_input l >? udp_timeout (rel l))
      then Some (Exit Udp_timeout)
      else if negb (last_tcp_input l =? 0) && (now_tcp - last_tcp_input l >? tcp_timeout (rel l))
      then Some (Exit Tcp_timeout)
      else Some (Go (l, Output [] []))
  | Select_ready tcp udp =>
      r ← (match tcp with
           | None => Some (Go (l, []))
           | Some (rd, now) =>
               r ← tcp_to_udp rd (rel l);
               Some (obind r (fun '(r, s) =>
                 Go (LoopSt r (last_udp_input l) (touch (last_tcp_input l) now), s)))
           end);
      Some (obind r (fun '(l, s) =>
        match udp with
        | None => Go (l, Output [] s)
        | Some (rc, ok, now) =>
            obind (udp_to_tcp rc ok (rel l)) (fun '(r, b) =>
              Go (LoopSt r (touch (last_udp_input l) now) (last_tcp_input l), Output b s))
        end))
  end.

(** A run of the loop over the events: the state and everything sent. *)
Fixpoint main_loop (evs : list event) (l : loop_st) : option (outcome (loop_st * output)) :=
  match evs with
  | [] => Some (Go (l, Output [] []))
  | ev :: evs' =>
      r ← main_loop_step ev l;
      match r with
      | Exit e => Some (Exit e)
      | Go (l, o) =>
          r ← main_loop evs' l;
          Some (obind r (fun '(l, o') =>
            Go (l, Output (to_tcp o ++ to_tcp o') (to_udp o ++ to_udp o'))))
      end
  end.
End TcpToUdp.

(** The relay [main] sets up: the server expects the handshake and knows the
    destination of its datagrams, the client learns it from the first one. *)
Definition HANDSHAKE : list Z :=
  str "udptunnel by md." ++
  [0; 0; 0; 0x01; 0x03; 0x06; 0x10; 0x15; 0x21; 0x28; 0x36; 0x45; 0x55; 0x66; 0x78; 0x91].

Definition init_relay (is_server : bool) (timeout : Z) (udpaddr : sockaddr) : relay :=
  Relay (if is_server then Some udpaddr else None) is_server HANDSHAKE
        (if is_server then 0 else timeout) (if is_server then timeout else 0)
        [] 0 0 uninitialized.

(** [last_*_input] at the start of [main_loop]. *)
Definition init_loop (r : relay) (now : Z) : loop_st :=
  LoopSt r (if udp_timeout r =? 0 then 0 else now) (if tcp_timeout r =? 0 then 0 else now).
