(* ===== verification/UdptunnelProps.v ===== *)
(** * The UDP tunnel: theorems

    A stream of encapsulated datagrams, read in pieces of any size, is relayed
    completely and in order; the receive loop terminates on every input; the
    limit on the first datagram after the handshake. *)
From stdpp Require Import relations options.
From S2P Require Import Prelude Udptunnel.
Set Default Proof Using "Type*".

(** ** Frames *)

(** The stream the peer sends for the datagrams [ds]. *)
Definition frames (ds : list (list Z)) : list Z := concat (map out_packet ds).

(** A datagram that fits the sender's buffer. *)
Definition datagram (d : list Z) : Prop :=
  d <> [] /\ Z.of_nat (length d) <= UDPBUFFERSIZE.

Lemma out_packet_split d q :
  datagram d -> exists l, length l = 2%nat /\ out_packet d ++ q = l ++ d ++ q /\
    dec BE l = Z.of_nat (length d).
Proof.
  intros [_ Hd]. unfold UDPBUFFERSIZE, TCPBUFFERSIZE in Hd.
  exists (enc BE 2 (u16 (Z.of_nat (length d)))). split; [apply length_enc|].
  split; [unfold out_packet; by rewrite <- app_assoc|].
  rewrite dec_enc. unfold u16, wrap. change (256 ^ Z.of_nat 2) with (2 ^ 16).
  rewrite Zmod_mod. apply Z.mod_small. lia.
Qed.

Lemma window_app b p n w rest :
  0 <= p -> 0 <= n -> drop (Z.to_nat p) b = w ++ rest -> Z.of_nat (length w) = n -> window b p n = w.
Proof. intros Hp Hn Hd Hw. unfold window. rewrite Hd. apply take_app_length'. lia. Qed.

(** A prefix of what is to come is in the buffer when enough was received. *)
Lemma app_split (b q w rest : list Z) :
  b ++ q = w ++ rest -> (length w <= length b)%nat ->
  exists b', b = w ++ b' /\ b' ++ q = rest.
Proof.
  intros He Hl. exists (drop (length w) b).
  assert (take (length w) b = w) as Ht.
  { apply (f_equal (take (length w))) in He. rewrite take_app_le in He by done.
    by rewrite take_app_length in He. }
  split; [by rewrite <- Ht at 1; rewrite take_drop|].
  apply (f_equal (drop (length w))) in He. rewrite drop_app_le in He by done.
  by rewrite drop_app_length in He.
Qed.

(** ** The receive loop *)

Definition receive (r : relay) (data : list Z) : relay :=
  with_packet r (buf r ++ data) (packet_start r) (packet_length r) (state r).

Lemma tcp_to_udp_read sendto data r :
  data <> [] -> Z.of_nat (length data) <= room (init_packet r) ->
  tcp_to_udp sendto (Read data) r =
    packet_loop sendto (loop_fuel (receive (init_packet r) data)) (receive (init_packet r) data) [].
Proof.
  intros Hn Hr. unfold tcp_to_udp. rewrite Z.gtb_ltb, (proj2 (Z.ltb_ge _ _)) by lia. by destruct data.
Qed.

Lemma take_queue_nonempty n (q : list Z) : (0 < n <= length q)%nat -> take n q <> [].
Proof. intros Hn H. apply (f_equal length) in H. rewrite length_take in H. simpl in H. lia. Qed.

Definition measure (r : relay) : Z :=
  2 * (Z.of_nat (length (buf r)) - packet_start r) +
  (if decide (state r = reading_packet) then 1 else 0).

Section Relay.
Context (sendto : sockaddr -> list Z -> send_result) (a : sockaddr) (hs : list Z) (ex : bool).
Context (Hsend : forall p, sendto a p <> Send_err).
Context (Hhs : Z.of_nat (length hs) = HANDSHAKE_LEN).

Definition fixed (r : relay) : Prop :=
  remote_udpaddr r = Some a /\ handshake r = hs /\ expect_handshake r = ex.

(** The relay [r] has sent [done_], the datagrams [todo] are still in its buffer
    and in the queue [q]; [strict] when the loop has nothing left to do. *)
Definition phase (strict : bool) (r : relay) (q : list Z) (done_ todo : list (list Z)) : Prop :=
  let n := Z.of_nat (length (buf r)) in
  match state r with
  | uninitialized => False
  | reading_handshake =>
      done_ = [] /\ packet_start r = 0 /\ packet_length r = HANDSHAKE_LEN /\
      expect_handshake r = true /\
      buf r ++ q = hs ++ frames todo /\ (strict = true -> n < HANDSHAKE_LEN)
  | reading_length =>
      packet_length r = 2 /\
      (packet_start r = 0 \/ (packet_start r = HANDSHAKE_LEN /\ done_ = [] /\ expect_handshake r = true)) /\
      packet_start r <= n /\ drop (Z.to_nat (packet_start r)) (buf r) ++ q = frames todo /\
      (strict = true -> n < packet_start r + 2)
  | reading_packet =>
      exists d todo', todo = d :: todo' /\ packet_length r = Z.of_nat (length d) /\
        (packet_start r = 2 \/
         (packet_start r = HANDSHAKE_LEN + 2 /\ done_ = [] /\ expect_handshake r = true)) /\
        packet_start r <= n /\ drop (Z.to_nat (packet_start r)) (buf r) ++ q = d ++ frames todo' /\
        (strict = true -> n < packet_start r + Z.of_nat (length d))
  end.

Lemma phase_handshake r q done_ todo :
  phase false r q done_ todo -> state r = reading_handshake ->
  Z.of_nat (length (buf r)) - packet_start r >= packet_length r ->
  window (buf r) (packet_start r) HANDSHAKE_LEN = hs /\
  phase false (with_packet r (buf r) (packet_start r + HANDSHAKE_LEN) 2 reading_length) q done_ todo.
Proof.
  unfold phase. intros Hp Hst Hge. rewrite Hst in Hp. destruct Hp as (-> & Hs & Hl & He & Hb & _).
  rewrite Hs, Hl in *. destruct (app_split _ _ _ _ Hb ltac:(lia)) as (b' & Hbuf & Hrest).
  split.
  - eapply window_app; [lia|unfold HANDSHAKE_LEN; lia|by rewrite drop_0|done].
  - simpl. split; [done|]. split; [by right|]. split; [lia|]. split; [|done].
    rewrite Hbuf. replace (Z.to_nat (0 + HANDSHAKE_LEN)) with (length hs) by lia.
    by rewrite drop_app_length.
Qed.

Lemma phase_length r q done_ todo :
  Forall datagram todo -> phase false r q done_ todo -> state r = reading_length ->
  Z.of_nat (length (buf r)) - packet_start r >= packet_length r ->
  phase false (with_packet r (buf r) (packet_start r + 2)
    (dec BE (window (buf r) (packet_start r) 2)) reading_packet) q done_ todo.
Proof.
  unfold phase. intros Hd Hp Hst Hge. rewrite Hst in Hp. destruct Hp as (Hl & Hs & Hle & Hb & _). rewrite Hl in Hge.
  assert (0 <= packet_start r) as Hpos by (unfold HANDSHAKE_LEN in *; lia).
  destruct todo as [|d todo].
  { change (frames []) with (@nil Z) in Hb. apply app_nil in Hb as [Hb _].
    apply (f_equal length) in Hb. rewrite length_drop in Hb. simpl in Hb. lia. }
  inversion Hd as [|? ? Hdg Hd']; subst.
  change (frames (d :: todo)) with (out_packet d ++ frames todo) in Hb.
  destruct (out_packet_split d (frames todo) Hdg) as (l & Hl2 & He & Hdec). rewrite He in Hb.
  destruct (app_split _ _ _ _ Hb) as (b' & Hbuf & Hrest); [rewrite length_drop; lia|].
  simpl. exists d, todo. split; [done|].
  rewrite (window_app _ _ 2 l b' Hpos ltac:(lia) Hbuf ltac:(lia)). split; [done|].
  split; [unfold HANDSHAKE_LEN in *; naive_solver lia|]. split; [lia|]. split; [|done].
  replace (Z.to_nat (packet_start r + 2)) with (Z.to_nat (packet_start r) + 2)%nat by lia.
  rewrite <- drop_drop, Hbuf. rewrite <- Hl2 at 1. by rewrite drop_app_length.
Qed.

Lemma phase_packet r q done_ todo :
  phase false r q done_ todo -> state r = reading_packet ->
  Z.of_nat (length (buf r)) - packet_start r >= packet_length r ->
  exists d todo', todo = d :: todo' /\ window (buf r) (packet_start r) (packet_length r) = d /\
  phase false (with_packet r (drop (Z.to_nat (packet_start r + packet_length r)) (buf r)) 0 2
    reading_length) q (done_ ++ [d]) todo'.
Proof.
  unfold phase. intros Hp Hst Hge. rewrite Hst in Hp. destruct Hp as (d & todo' & -> & Hl & Hs & Hle & Hb & _).
  rewrite Hl in *. assert (0 <= packet_start r) as Hpos by (unfold HANDSHAKE_LEN in *; lia).
  destruct (app_split _ _ _ _ Hb) as (b' & Hbuf & Hrest); [rewrite length_drop; lia|].
  exists d, todo'. split; [done|].
  split; [by eapply window_app; [lia|lia|exact Hbuf|lia]|].
  simpl. split; [done|]. split; [by left|]. split; [lia|]. split; [|done].
  rewrite drop_0. replace (Z.to_nat (packet_start r + Z.of_nat (length d)))
    with (Z.to_nat (packet_start r) + length d)%nat by lia.
  by rewrite <- drop_drop, Hbuf, drop_app_length.
Qed.

(** The loop sends every complete datagram and stops. *)
Lemma packet_loop_ok fuel : forall r q done_ todo sent,
  fixed r -> Forall datagram todo -> phase false r q done_ todo -> measure r < Z.of_nat fuel ->
  exists r' more todo', packet_loop sendto fuel r sent = Some (Go (r', sent ++ map (pair a) more)) /\
    todo = more ++ todo' /\ fixed r' /\ phase true r' q (done_ ++ more) todo'.
Proof.
  induction fuel as [|f IH]; intros r q done_ todo sent Hr Hd Hp Hm.
  { exfalso. unfold measure, phase in *. destruct (state r) eqn:Hs; [done|..];
      repeat match goal with H : _ /\ _ |- _ => destruct H | H : exists _, _ |- _ => destruct H end;
      repeat case_decide; lia. }
  cbn [packet_loop]. rewrite Z.geb_leb.
  destruct (Z.leb_spec (packet_length r) (Z.of_nat (length (buf r)) - packet_start r)) as [Hge|Hlt].
  2: { exists r, [], todo. rewrite !app_nil_r. split; [done|]. split; [done|]. split; [done|].
       unfold phase in *. destruct (state r); [done|..]; naive_solver lia. }
  destruct (state r) eqn:Hs; [by unfold phase in Hp; rewrite Hs in Hp|..].
  - destruct (phase_handshake _ _ _ _ Hp Hs ltac:(lia)) as [Hw Hp'].
    rewrite decide_True by (by rewrite (proj1 (proj2 Hr))). apply IH; [done|done|done|].
    unfold measure in *. simpl. rewrite Hs in Hm. simpl in Hm. unfold HANDSHAKE_LEN. lia.
  - apply IH; [done|done|by apply phase_length; [..|lia]|].
    unfold measure in *. simpl. rewrite Hs in Hm. simpl in Hm. lia.
  - destruct (phase_packet _ _ _ _ Hp Hs ltac:(lia)) as (d & todo' & -> & Hw & Hp').
    inversion Hd; subst. unfold send_udp_packet at 1. rewrite (proj1 Hr).
    assert (exists s, sendto a (window (buf r) (packet_start r) (packet_length r)) = s /\ s <> Send_err)
      as (s & -> & Hs') by eauto.
    destruct (IH (with_packet r (drop (Z.to_nat (packet_start r + packet_length r)) (buf r)) 0 2
      reading_length) q _ todo' (sent ++ [(a, window (buf r) (packet_start r) (packet_length r))])
      Hr ltac:(done) Hp') as (r' & more & todo'' & Hl & -> & Hr' & Hph).
    { unfold measure in *. simpl. rewrite Hs in Hm. rewrite length_drop.
      rewrite decide_True in Hm by done. unfold phase in Hp. rewrite Hs in Hp.
      destruct Hp as (d & t & _ & Hpl & Hps & ? & _). unfold HANDSHAKE_LEN in *. lia. }
    exists r', (window (buf r) (packet_start r) (packet_length r) :: more), todo''.
    destruct s; [| |done]; (split; [by rewrite Hl, <- app_assoc|]);
      (split; [done|]); (split; [done|]); by rewrite <- app_assoc in Hph.
Qed.

(** ** The system of a relay and the bytes on their way to it *)

Record sys := Sys { s_relay : relay; s_queue : list Z; s_out : list (sockaddr * list Z) }.

(** One call of [tcp_to_udp]: [read] returns any non-empty part of the queue
    that fits the buffer. *)
Inductive sys_step : sys -> sys -> Prop :=
| sys_read r q out n r' sent :
    (0 < n <= length q)%nat -> Z.of_nat n <= room (init_packet r) ->
    tcp_to_udp sendto (Read (take n q)) r = Some (Go (r', sent)) ->
    sys_step (Sys r q out) (Sys r' (drop n q) (out ++ sent)).

(** What arrives before the first frame. *)
Definition preamble : list Z := if ex then hs else [].

(** The relay before its first read. *)
Definition fresh (r : relay) : Prop := fixed r /\ state r = uninitialized /\ buf r = [].

Context (ds : list (list Z)) (Hds : Forall datagram ds).
(** After the handshake the first datagram has less room in the buffer. *)
Context (Hfirst : ex = true -> forall d, head ds = Some d ->
  Z.of_nat (length d) <= TCPBUFFERSIZE - HANDSHAKE_LEN - 2).

Definition inv (s : sys) : Prop :=
  exists done_ todo, ds = done_ ++ todo /\ s_out s = map (pair a) done_ /\
    fixed (s_relay s) /\
    ((fresh (s_relay s) /\ done_ = [] /\ s_queue s = preamble ++ frames todo) \/
     phase true (s_relay s) (s_queue s) done_ todo).

Lemma inv_init r : fresh r -> inv (Sys r (preamble ++ frames ds) []).
Proof using Type. intros Hr. exists [], ds. split_and!; try done; [apply Hr|by left]. Qed.

(** There is always room for another byte. *)
Lemma inv_room s : inv s -> 0 < room (init_packet (s_relay s)).
Proof using Hds Hfirst.
  intros (done_ & todo & Heq & _ & Hfix & [[Hf _]|Hp]).
  - destruct Hf as (_ & Hst & _). unfold init_packet. rewrite Hst.
    destruct (expect_handshake _); done.
  - unfold phase in Hp. unfold init_packet, room, TCPBUFFERSIZE in *.
    destruct (state (s_relay s)) eqn:Hst; [done|..].
    + destruct Hp as (_ & _ & _ & _ & _ & Hlt). specialize (Hlt eq_refl).
      unfold HANDSHAKE_LEN in *. lia.
    + destruct Hp as (_ & Hs & _ & _ & Hlt). specialize (Hlt eq_refl). unfold HANDSHAKE_LEN in *. lia.
    + destruct Hp as (d & todo' & -> & _ & Hs & _ & _ & Hlt). specialize (Hlt eq_refl).
      assert (datagram d) as [_ Hd].
      { pose proof Hds as Hds'. rewrite Heq in Hds'. apply Forall_app in Hds' as [_ Hds']. by inversion Hds'. }
      unfold UDPBUFFERSIZE, TCPBUFFERSIZE, HANDSHAKE_LEN in *.
      destruct Hs as [Hs|(Hs & -> & Hex)]; [lia|].
      pose proof (Hfirst ltac:(destruct Hfix as (_ & _ & <-); done) d ltac:(by rewrite Heq)). lia.
Qed.

(** Appending received bytes moves them from the queue to the buffer. *)
Lemma phase_receive strict r q done_ todo n :
  phase strict r q done_ todo ->
  phase false (receive r (take n q)) (drop n q) done_ todo.
Proof.
  unfold phase. simpl. rewrite length_app.
  assert (forall b : list Z, (b ++ take n q) ++ drop n q = b ++ q) as Hq
    by (intros b; by rewrite <- app_assoc, take_drop).
  destruct (state r); [done|..].
  - intros (? & ? & ? & ? & Hb & _). rewrite Hq. by split_and!.
  - intros (? & Hs & ? & Hb & _). rewrite drop_app_le by lia. rewrite Hq. split_and!; (done || lia).
  - intros (d & todo' & ? & ? & Hs & ? & Hb & _). exists d, todo'.
    rewrite drop_app_le by lia. rewrite Hq. split_and!; (done || lia).
Qed.

Lemma phase_init r todo :
  fresh r -> phase false (init_packet r) (preamble ++ frames todo) [] todo.
Proof.
  intros ((_ & _ & Hex) & Hst & _). unfold init_packet, preamble. rewrite Hst, Hex.
  destruct ex eqn:He; unfold phase; simpl; split_and!; (done || lia || auto).
Qed.

(** Every read is processed. *)
Lemma inv_step s n :
  inv s -> (0 < n <= length (s_queue s))%nat -> Z.of_nat n <= room (init_packet (s_relay s)) ->
  exists r' sent, tcp_to_udp sendto (Read (take n (s_queue s))) (s_relay s) = Some (Go (r', sent)) /\
    inv (Sys r' (drop n (s_queue s)) (s_out s ++ sent)).
Proof.
  intros (done_ & todo & Heq & Hout & Hfix & Hph) Hn Hroom. destruct s as [r q out].
  cbn [s_relay s_queue s_out] in *.
  assert (Forall datagram todo) as Hd
    by (pose proof Hds as Hds'; rewrite Heq in Hds'; by apply Forall_app in Hds' as [_ ?]).
  assert (phase false (init_packet r) q done_ todo /\ fixed (init_packet r)) as [Hp Hfix'].
  { destruct Hph as [(Hf & -> & ->)|Hp].
    - split; [by apply phase_init|]. unfold init_packet. destruct (state r); try done.
      by destruct (expect_handshake r).
    - unfold init_packet. unfold phase in Hp |- *. destruct (state r) eqn:Hst; [done|..];
        (split; [|done]); rewrite Hst; naive_solver. }
  rewrite tcp_to_udp_read by (first [by apply take_queue_nonempty | rewrite length_take; lia]).
  pose proof (phase_receive _ _ _ _ _ n Hp) as Hp'. set (r1 := receive (init_packet r) (take n q)) in *.
  destruct (packet_loop_ok (loop_fuel r1) r1 (drop n q) done_ todo [] Hfix' Hd Hp')
    as (r' & more & todo' & Hl & -> & Hr' & Hph').
  { unfold measure, loop_fuel, phase in *. destruct (state r1); [done|..];
      repeat match goal with H : _ /\ _ |- _ => destruct H | H : exists _, _ |- _ => destruct H end;
      unfold HANDSHAKE_LEN in *; case_decide; lia. }
  exists r', (map (pair a) more). split; [exact Hl|].
  exists (done_ ++ more), todo'. simpl. rewrite map_app, Hout, <- app_assoc.
  split_and!; [done|done|done|by right].
Qed.

Lemma inv_reach s s' : inv s -> rtc sys_step s s' -> inv s'.
Proof.
  intros Hi Hs. induction Hs as [|x y z Hxy _ IH]; [done|]. apply IH.
  destruct Hxy as [r q out n r' sent Hn Hroom Ht].
  destruct (inv_step (Sys r q out) n Hi Hn Hroom) as (r'' & sent' & Ht' & Hi'). simpl in *.
  rewrite Ht in Ht'. by simplify_eq.
Qed.

(** When everything was read, everything was sent. *)
Lemma inv_done s : inv s -> s_queue s = [] -> s_out s = map (pair a) ds.
Proof using Hhs.
  intros (done_ & todo & Hds' & Hout & _ & Hph) Hq. rewrite Hq in Hph.
  assert (todo = []) as ->; [|by rewrite Hds', app_nil_r].
  destruct todo as [|d todo]; [done|]. exfalso.
  assert (length (frames (d :: todo)) >= 2 + length d)%nat as Hlen.
  { change (frames (d :: todo)) with (out_packet d ++ frames todo). unfold out_packet.
    rewrite !length_app, length_enc. lia. }
  destruct Hph as [(_ & _ & Hn)|Hp].
  - apply (f_equal length) in Hn. rewrite length_app in Hn. simpl in Hn. lia.
  - unfold phase in Hp. rewrite !app_nil_r in Hp. destruct (state (s_relay s)); [done|..].
    + destruct Hp as (_ & _ & _ & _ & Hb & Hlt). specialize (Hlt eq_refl).
      apply (f_equal length) in Hb. rewrite length_app in Hb. lia.
    + destruct Hp as (_ & Hs & ? & Hb & Hlt). specialize (Hlt eq_refl).
      apply (f_equal length) in Hb. rewrite length_drop in Hb. unfold HANDSHAKE_LEN in *. lia.
    + destruct Hp as (d' & todo' & Heq & _ & Hs & ? & Hb & Hlt). specialize (Hlt eq_refl).
      apply (f_equal length) in Hb. rewrite length_drop, length_app in Hb.
      unfold HANDSHAKE_LEN in *. lia.
Qed.
End Relay.

(** ** The two ends together *)

(** A datagram arrives at the client: its source, its payload, the time. *)
Definition recv_event (x : sockaddr * list Z * Z) : event :=
  let '(from, d, now) := x in Select_ready None (Some (Recv from d, true, now)).

(** The datagrams that are relayed: empty ones are ignored. *)
Definition relayed (xs : list (sockaddr * list Z * Z)) : list (list Z) :=
  filter (fun d => d <> []) (map (fun x => snd (fst x)) xs).

Definition fits (x : sockaddr * list Z * Z) : Prop :=
  Z.of_nat (length (snd (fst x))) <= UDPBUFFERSIZE.

Lemma relayed_datagrams xs : Forall fits xs -> Forall datagram (relayed xs).
Proof.
  unfold relayed. induction 1 as [|[[from d] now] xs Hx _ IH]; [constructor|].
  cbn [map fst snd]. destruct (decide (d <> [])) as [Hd|Hd].
  - rewrite filter_cons_True by done. constructor; [by split|done].
  - by rewrite filter_cons_False.
Qed.

Lemma udp_to_tcp_fits r from d :
  Z.of_nat (length d) <= UDPBUFFERSIZE ->
  exists r', udp_to_tcp (Recv from d) true r = Go (r', frames (filter (fun d => d <> []) [d])).
Proof.
  intros Hd. unfold udp_to_tcp. rewrite take_ge by lia. destruct d as [|c d]; [by eexists|].
  eexists. rewrite filter_cons_True by done. unfold frames. cbn [map concat filter list_filter].
  by rewrite app_nil_r.
Qed.

(** The client sends the frames of what it received. *)
Lemma client_run sendto xs : forall l, Forall fits xs ->
  exists l', main_loop sendto (map recv_event xs) l = Some (Go (l', Output (frames (relayed xs)) [])).
Proof.
  induction xs as [|[[from d] now] xs IH]; intros l Hxs; [by eexists|].
  inversion Hxs as [|? ? Hd Hxs']; subst.
  destruct (udp_to_tcp_fits (rel l) from d Hd) as (r' & Hr).
  destruct (IH (LoopSt r' (touch (last_udp_input l) now) (last_tcp_input l)) Hxs') as (l' & Hl).
  exists l'. cbn [map recv_event main_loop main_loop_step mbind option_bind obind].
  rewrite Hr. cbn [obind]. rewrite Hl. cbn [mbind option_bind obind to_tcp to_udp app].
  do 4 f_equal. unfold relayed, frames. cbn [map fst snd].
  rewrite <- concat_app, <- map_app. do 2 f_equal.
  change (d :: ?t) with ([d] ++ t) at 2. by rewrite filter_app.
Qed.

Lemma init_relay_fresh t a : fresh a HANDSHAKE true (init_relay true t a).
Proof. done. Qed.

(** ** The server in its event loop *)

Section server.
Context (sendto : sockaddr -> list Z -> send_result) (a : sockaddr).

(** The event loop, the bytes on their way to it and the datagrams it has sent. *)
Record srv := Srv { v_loop : loop_st; v_queue : list Z; v_out : list (sockaddr * list Z) }.

(** A reply comes from the configured address and is transmitted. *)
Definition reply_ok (u : option (recv_result * bool * Z)) : Prop :=
  match u with
  | None => True
  | Some (Recv from _, ok, _) => from = a /\ ok = true
  | Some (Recv_err, _, _) => False
  end.

(** What [select] and the calls after it can return while [q] is on the way, and what is
    on the way afterwards: [read] gets any non-empty part that fits the buffer. *)
Definition possible (ev : event) (v : srv) (q' : list Z) : Prop :=
  match ev with
  | Select_intr | Select_timeout _ _ => q' = v_queue v
  | Select_err => False
  | Select_ready None u => reply_ok u /\ q' = v_queue v
  | Select_ready (Some (Read d, _)) u => reply_ok u /\ v_queue v = d ++ q' /\ d <> [] /\
      Z.of_nat (length d) <= room (init_packet (rel (v_loop v)))
  | Select_ready (Some (Read_err, _)) _ => False
  end.

Inductive srv_step : srv -> srv -> Prop :=
| srv_event ev v q' l' o :
    possible ev v q' -> main_loop_step sendto ev (v_loop v) = Some (Go (l', o)) ->
    srv_step v (Srv l' q' (v_out v ++ to_udp o)).

Definition to_sys (v : srv) : sys := Sys (rel (v_loop v)) (v_queue v) (v_out v).

Lemma reply_step u l s : reply_ok u -> remote_udpaddr (rel l) = Some a ->
  exists l' b, (match u with
   | None => Go (l, Output [] s)
   | Some (rc, ok, now) => obind (udp_to_tcp rc ok (rel l)) (fun '(r, b) =>
       Go (LoopSt r (touch (last_udp_input l) now) (last_tcp_input l), Output b s)) end)
  = Go (l', Output b s) /\ rel l' = rel l /\ last_tcp_input l' = last_tcp_input l /\
    (last_udp_input l = 0 -> last_udp_input l' = 0).
Proof using.
  intros Hu Ha. destruct u as [[[[|from d] ok] now]|]; [done| |by do 2 eexists].
  destruct Hu as [-> ->]. cbn [udp_to_tcp].
  assert (set_remote (rel l) a = rel l) as Hid by (destruct (rel l); simpl in *; by rewrite Ha).
  assert (last_udp_input l = 0 -> touch (last_udp_input l) now = 0) as Ht by (by intros ->).
  destruct (take _ d); cbn [obind]; rewrite ?Hid; by do 2 eexists.
Qed.

Context (Hsend : forall p, sendto a p <> Send_err) (ds : list (list Z)) (Hds : Forall datagram ds).
Context (Hfirst : forall d, head ds = Some d -> Z.of_nat (length d) <= TCPBUFFERSIZE - HANDSHAKE_LEN - 2).
Context (t : Z).

Definition srv_inv (v : srv) : Prop :=
  inv a HANDSHAKE true ds (to_sys v) /\ last_udp_input (v_loop v) = 0 /\
  (t = 0 -> last_tcp_input (v_loop v) = 0).

(** Every event is processed; only the timeout for TCP input ends the server. *)
Lemma srv_progress v ev q' : srv_inv v -> possible ev v q' ->
  (exists l' o, main_loop_step sendto ev (v_loop v) = Some (Go (l', o)) /\
     srv_inv (Srv l' q' (v_out v ++ to_udp o))) \/
  (main_loop_step sendto ev (v_loop v) = Some (Exit Tcp_timeout) /\ t <> 0 /\
     exists now_udp now_tcp, ev = Select_timeout now_udp now_tcp).
Proof using Hds Hfirst Hsend.
  intros (Hi & Hu & Ht) Hp. destruct v as [l q out]. unfold to_sys in Hi. cbn [v_loop v_queue v_out] in *.
  assert (remote_udpaddr (rel l) = Some a) as Ha by (by destruct Hi as (? & ? & _ & _ & (? & _) & _)).
  destruct ev as [| |n1 n2|tcp u]; cbn [possible v_loop v_queue] in Hp; [subst q'|done|subst q'|].
  - left. do 2 eexists. split; [done|]. by rewrite app_nil_r.
  - cbn [main_loop_step]. rewrite Hu. cbn [Z.eqb negb andb].
    destruct (negb _ && _) eqn:He; [right|left].
    + split; [done|]. split; [|by do 2 eexists]. intros H0. by rewrite (Ht H0) in He.
    + do 2 eexists. split; [done|]. by rewrite app_nil_r.
  - left. cbn [main_loop_step]. destruct tcp as [[[|d] now]|]; [done| |].
    + destruct Hp as (Hr & -> & Hd & Hroom).
      destruct (inv_step sendto a HANDSHAKE true Hsend eq_refl ds Hds (fun _ => Hfirst) _ (length d) Hi)
        as (r' & sent & Hrun & Hi'); [|done|].
      { cbn [s_queue]. rewrite length_app. destruct d; [done|simpl; lia]. }
      cbn [s_queue s_relay s_out] in Hrun, Hi'. rewrite take_app_length in Hrun. rewrite drop_app_length in Hi'.
      rewrite Hrun. cbn [mbind option_bind obind].
      destruct (reply_step u (LoopSt r' (last_udp_input l) (touch (last_tcp_input l) now)) sent Hr)
        as (l' & b & Heq & Hrel & Htc & Huc).
      { by destruct Hi' as (? & ? & _ & _ & (? & _) & _). }
      rewrite Heq. do 2 eexists. split; [done|]. split; [by unfold to_sys; cbn [v_loop v_queue v_out to_udp]; rewrite Hrel|].
      split; [by apply Huc|]. intros H0. cbn [v_loop]. rewrite Htc. cbn [last_tcp_input]. by rewrite (Ht H0).
    + destruct Hp as (Hr & ->). cbn [mbind option_bind obind].
      destruct (reply_step u l [] Hr Ha) as (l' & b & Heq & Hrel & Htc & Huc).
      rewrite Heq. do 2 eexists. split; [done|]. cbn [to_udp]. rewrite app_nil_r.
      split; [by unfold to_sys; cbn [v_loop v_queue v_out]; rewrite Hrel|].
      split; [by apply Huc|]. intros H0. cbn [v_loop]. rewrite Htc. by apply Ht.
Qed.

Lemma srv_reach v v' : srv_inv v -> rtc srv_step v v' -> srv_inv v'.
Proof using Hds Hfirst Hsend.
  intros Hi Hs. induction Hs as [|x y z Hxy _ IH]; [done|]. apply IH.
  destruct Hxy as [ev v q' l' o Hp He].
  destruct (srv_progress v ev q' Hi Hp) as [(l2 & o2 & He2 & Hi2)|(He2 & _)]; rewrite He in He2; by simplify_eq.
Qed.

(** What a server with a timeout [t] has done at any point of a run on the stream of the
    datagrams [ds], and how it can go on. *)
Definition delivers (v : srv) : Prop :=
  (exists todo, exists done_, ds = done_ ++ todo /\ v_out v = map (pair a) done_) /\
  (v_queue v = [] -> v_out v = map (pair a) ds) /\
  (v_queue v <> [] -> 0 < room (init_packet (rel (v_loop v)))) /\
  forall ev q', possible ev v q' ->
    (exists l' o, main_loop_step sendto ev (v_loop v) = Some (Go (l', o))) \/
    (main_loop_step sendto ev (v_loop v) = Some (Exit Tcp_timeout) /\ t <> 0 /\
     exists now_udp now_tcp, ev = Select_timeout now_udp now_tcp).

Lemma srv_delivers v : srv_inv v -> delivers v.
Proof using Hds Hfirst Hsend.
  intros Hi. split; [|split; [|split]].
  - destruct Hi as ((done_ & todo & Heq & Hout & _) & _). eauto.
  - apply (inv_done a HANDSHAKE true eq_refl ds (to_sys v)), Hi.
  - intros _. apply (inv_room a HANDSHAKE true ds Hds (fun _ => Hfirst) (to_sys v)), Hi.
  - intros ev q' Hp. destruct (srv_progress v ev q' Hi Hp) as [(l' & o & He & _)|He]; [left; eauto|by right].
Qed.

End server.

(** C14: End to end, from the relays main sets up: the client, which only receives
    datagrams, sends the handshake and a frame for every non-empty one.  The server runs
    [main_loop] on this stream, whose reads have any sizes that fit the buffer, with
    interruptions, timeouts of [select] and replies from the configured address in between
    ([possible]).  It relays the datagrams unchanged, in order, each once and to the
    configured address, and when the stream is consumed every datagram has been sent.  It always
    has room to read more, and of all these events only a timeout of [select] when a
    timeout was configured can end it.  Assumed: [sendto] does not fail (a refused connection
    is no failure), datagrams have at most 65534 bytes and the first one at most 65502
    ([first_datagram_too_long]: with a longer one the server exits). *)
Theorem tunnel_delivers sendto a c t t' now now' xs h :
  (forall p, sendto a p <> Send_err) -> Forall fits xs ->
  (forall d, head (relayed xs) = Some d -> Z.of_nat (length d) <= TCPBUFFERSIZE - HANDSHAKE_LEN - 2) ->
  send_handshake true (init_relay false t c) = Go h ->
  exists l o,
    main_loop sendto (map recv_event xs) (init_loop (init_relay false t c) now) = Some (Go (l, o)) /\
    to_udp o = [] /\
    forall v, rtc (srv_step sendto a) (Srv (init_loop (init_relay true t' a) now') (h ++ to_tcp o) []) v ->
      delivers sendto a (relayed xs) t' v.
Proof.
  intros Hsend Hfits Hfirst Hh. injection Hh as <-.
  destruct (client_run sendto xs (init_loop (init_relay false t c) now) Hfits) as (l & Hl).
  exists l, (Output (frames (relayed xs)) []). split; [exact Hl|]. split; [done|].
  pose proof (relayed_datagrams _ Hfits) as Hds. intros v Hv.
  apply (srv_delivers sendto a Hsend _ Hds Hfirst). refine (srv_reach sendto a Hsend _ Hds Hfirst t' _ _ _ Hv).
  split; [|split; [done|intros ->; done]].
  change (inv a HANDSHAKE true (relayed xs)
    (Sys (init_relay true t' a) (preamble HANDSHAKE true ++ frames (relayed xs)) [])).
  by apply inv_init, init_relay_fresh.
Qed.

Definition demo_recvs : list (sockaddr * list Z * Z) :=
  [(7, [1; 2; 3], 0); (8, [], 1); (7, [4], 2)].

Lemma tunnel_delivers_witness :
  exists l o,
    main_loop (fun _ _ => Send_ok) (map recv_event demo_recvs)
      (init_loop (init_relay false 0 9) 0) = Some (Go (l, o)) /\
    to_udp o = [] /\
    forall v, rtc (srv_step (fun _ _ => Send_ok) 5) (Srv (init_loop (init_relay true 30 5) 100) (HANDSHAKE ++ to_tcp o) []) v ->
      delivers (fun _ _ => Send_ok) 5 [[1; 2; 3]; [4]] 30 v.
Proof.
  apply (tunnel_delivers (fun _ _ => Send_ok) 5 9 0 30 0 100 demo_recvs HANDSHAKE).
  - done.
  - unfold demo_recvs. repeat constructor; done.
  - intros d Hd. injection Hd as <-. done.
  - done.
Defined.

(** ** The handshake *)

(** While the handshake is being read nothing was sent. *)
Definition waiting (hs stream : list Z) (s : sys) : Prop :=
  handshake (s_relay s) = hs /\ expect_handshake (s_relay s) = true /\ s_out s = [] /\
  ((state (s_relay s) = uninitialized /\ s_queue s = stream) \/
   (state (s_relay s) = reading_handshake /\ packet_start (s_relay s) = 0 /\
    packet_length (s_relay s) = HANDSHAKE_LEN /\ buf (s_relay s) ++ s_queue s = stream /\
    Z.of_nat (length (buf (s_relay s))) < HANDSHAKE_LEN)).

Lemma waiting_init hs stream s : waiting hs stream s ->
  let r := init_packet (s_relay s) in
  state r = reading_handshake /\ packet_start r = 0 /\ packet_length r = HANDSHAKE_LEN /\
  buf r ++ s_queue s = stream /\ Z.of_nat (length (buf r)) < HANDSHAKE_LEN /\
  handshake r = hs /\ expect_handshake r = true.
Proof.
  intros (Hh & He & _ & [[Hs Hq]|(Hs & Hp & Hl & Hb & Hn)]); unfold init_packet; rewrite Hs.
  - rewrite He. by split_and!.
  - by split_and!.
Qed.

(** One read while waiting: wait on, or exit. *)
Lemma waiting_step sendto hs stream s n :
  waiting hs stream s -> take (Z.to_nat HANDSHAKE_LEN) stream <> hs ->
  (0 < n <= length (s_queue s))%nat -> Z.of_nat n <= room (init_packet (s_relay s)) ->
  (exists r', tcp_to_udp sendto (Read (take n (s_queue s))) (s_relay s) = Some (Go (r', [])) /\
     state r' = reading_handshake /\ waiting hs stream (Sys r' (drop n (s_queue s)) [])) \/
  tcp_to_udp sendto (Read (take n (s_queue s))) (s_relay s) = Some (Exit Bad_handshake).
Proof.
  intros Hw Hbad Hn Hroom. pose proof (waiting_init _ _ _ Hw) as (Hs & Hp & Hl & Hb & Hlt & Hh & He).
  destruct s as [r q out]. cbn [s_relay s_queue s_out] in *.
  rewrite tcp_to_udp_read by (first [by apply take_queue_nonempty | rewrite length_take; lia]).
  unfold loop_fuel, receive. rewrite Hp, Hl, Hs.
  cbn [buf with_packet]. rewrite Nat.add_comm. cbn [Nat.add packet_loop buf with_packet packet_start
    packet_length state]. rewrite Z.geb_leb, Z.sub_0_r.
  destruct (Z.leb_spec HANDSHAKE_LEN (Z.of_nat (length (buf (init_packet r) ++ take n q)))) as [Hge|Hlt'].
  - right. rewrite decide_False; [done|]. cbn [handshake with_packet]. rewrite Hh. intros Hw'. apply Hbad.
    rewrite <- Hw', <- Hb, <- (take_drop n q) at 1. unfold window. rewrite drop_0, app_assoc.
    apply take_app_le. lia.
  - left. eexists. split; [done|]. split; [done|]. split; [done|]. split; [done|]. split; [done|]. right.
    split; [done|]. split; [done|]. split; [done|]. split; [|done].
    cbn [buf with_packet s_relay s_queue]. by rewrite <- app_assoc, take_drop.
Qed.

(** A peer that does not send the right 32 bytes first gets nothing
    relayed: in every state a server can reach on such a stream no datagram was
    sent, and each read either waits for the rest of the handshake or makes the
    process exit with Bad_handshake. *)
Theorem bad_handshake_rejected sendto t a stream s n :
  take (Z.to_nat HANDSHAKE_LEN) stream <> HANDSHAKE ->
  rtc (sys_step sendto) (Sys (init_relay true t a) stream []) s ->
  (0 < n <= length (s_queue s))%nat -> Z.of_nat n <= room (init_packet (s_relay s)) ->
  s_out s = [] /\
  ((exists r', tcp_to_udp sendto (Read (take n (s_queue s))) (s_relay s) = Some (Go (r', [])) /\
      state r' = reading_handshake) \/
   tcp_to_udp sendto (Read (take n (s_queue s))) (s_relay s) = Some (Exit Bad_handshake)).
Proof.
  intros Hbad Hr Hn Hroom.
  assert (waiting HANDSHAKE stream s) as Hw.
  { clear Hn Hroom. assert (waiting HANDSHAKE stream (Sys (init_relay true t a) stream [])) as Hw0
      by (split_and!; try done; by left).
    induction Hr as [|x y z Hxy _ IH]; [done|]. apply IH. clear IH.
    destruct Hxy as [r q out m r' sent Hm Hroom Ht].
    pose proof (proj1 (proj2 (proj2 Hw0))) as Ho. cbn [s_out] in Ho. subst out.
    destruct (waiting_step sendto _ _ _ m Hw0 Hbad Hm Hroom) as [(r'' & Ht' & _ & Hw)|Ht'];
      cbn [s_queue s_relay] in Ht'; rewrite Ht in Ht'; by simplify_eq. }
  split; [apply Hw|].
  destruct (waiting_step sendto _ _ _ n Hw Hbad Hn Hroom) as [(r' & Ht & Hst & _)|?]; eauto.
Qed.

Lemma bad_handshake_rejected_witness :
  s_out (Sys (init_relay true 0 5) [1; 2] []) = [] /\
  ((exists r', tcp_to_udp (fun _ _ => Send_ok) (Read (take 2 [1; 2])) (init_relay true 0 5) =
      Some (Go (r', [])) /\ state r' = reading_handshake) \/
   tcp_to_udp (fun _ _ => Send_ok) (Read (take 2 [1; 2])) (init_relay true 0 5) =
     Some (Exit Bad_handshake)).
Proof.
  apply (bad_handshake_rejected (fun _ _ => Send_ok) 0 5 [1; 2] (Sys (init_relay true 0 5) [1; 2] []) 2).
  - done.
  - apply rtc_refl.
  - simpl. lia.
  - done.
Defined.

(** ** The room after the handshake *)

(** Three iterations: the handshake, the length, and not enough of the packet. *)
Lemma loop_partial sendto fuel r sent l d :
  state r = reading_handshake -> packet_start r = 0 -> packet_length r = HANDSHAKE_LEN ->
  Z.of_nat (length (handshake r)) = HANDSHAKE_LEN -> length l = 2%nat ->
  buf r = handshake r ++ l ++ d -> Z.of_nat (length d) < dec BE l ->
  packet_loop sendto (S (S (S fuel))) r sent =
    Some (Go (with_packet r (buf r) (HANDSHAKE_LEN + 2) (dec BE l) reading_packet, sent)).
Proof.
  intros Hs Hp Hl Hh Hl2 Hb Hd. cbn [packet_loop]. rewrite Hs, Hp, Hl, !Z.geb_leb.
  assert (length (buf r) = length (handshake r) + 2 + length d)%nat as Hlen
    by (rewrite Hb, !length_app; lia).
  rewrite (proj2 (Z.leb_le _ _)) by lia.
  rewrite decide_True by (eapply window_app; [lia|unfold HANDSHAKE_LEN; lia|by rewrite drop_0|done]).
  cbn [buf with_packet packet_start packet_length state].
  rewrite ?Z.geb_leb, (proj2 (Z.leb_le 2 _)) by lia.
  rewrite (window_app (buf r) (0 + HANDSHAKE_LEN) 2 l d) by
    first [lia | unfold HANDSHAKE_LEN; lia
          | rewrite Hb, Z.add_0_l, <- Hh, Nat2Z.id; apply drop_app_length].
  by rewrite (proj2 (Z.leb_gt _ _)) by lia.
Qed.

(** The limit on the first datagram is real: after the handshake a frame
    whose datagram has more than 65502 bytes (the sender accepts 65534) never
    fits the receive buffer.  A read that fills the buffer leaves no room, and
    since tcp_to_udp takes the empty read that follows for the end of the
    stream, the server exits with Remote_closed while the datagram and the
    rest of the stream are still unread. *)
Theorem first_datagram_too_long sendto t a d rest :
  datagram d -> Z.of_nat (length d) > TCPBUFFERSIZE - HANDSHAKE_LEN - 2 ->
  let stream := HANDSHAKE ++ out_packet d ++ rest in
  exists r', tcp_to_udp sendto (Read (take (Z.to_nat TCPBUFFERSIZE) stream)) (init_relay true t a) =
      Some (Go (r', [])) /\ room r' = 0 /\
    forall data, Z.of_nat (length data) <= room r' ->
      tcp_to_udp sendto (Read data) r' = Some (Exit Remote_closed).
Proof.
  intros Hdg Hd stream. destruct (out_packet_split d rest Hdg) as (l & Hl2 & Heq & Hdec).
  set (d1 := take (Z.to_nat TCPBUFFERSIZE - 34) (d ++ rest)).
  assert (Z.of_nat (length d1) = TCPBUFFERSIZE - 34) as Hd1.
  { unfold d1. rewrite length_take, length_app. unfold TCPBUFFERSIZE, HANDSHAKE_LEN in *. lia. }
  assert (take (Z.to_nat TCPBUFFERSIZE) stream = HANDSHAKE ++ l ++ d1) as Ht.
  { unfold stream, d1. rewrite Heq.
    rewrite (app_assoc HANDSHAKE l), (app_assoc HANDSHAKE l). rewrite take_app_ge.
    - rewrite length_app, Hl2. done.
    - rewrite length_app, Hl2. change (length HANDSHAKE) with 32%nat. unfold TCPBUFFERSIZE. lia. }
  rewrite Ht. clearbody d1. clear Ht stream.
  assert (Z.of_nat (length (HANDSHAKE ++ l ++ d1)) = TCPBUFFERSIZE) as Hlen.
  { rewrite !length_app, Hl2. change (length HANDSHAKE) with 32%nat. unfold TCPBUFFERSIZE in *. lia. }
  set (r1 := receive (init_packet (init_relay true t a)) (HANDSHAKE ++ l ++ d1)).
  exists (with_packet r1 (buf r1) (HANDSHAKE_LEN + 2) (dec BE l) reading_packet). split.
  - rewrite tcp_to_udp_read by (done || (rewrite Hlen; done)). change (receive _ _) with r1.
    unfold loop_fuel. rewrite Nat.add_comm.
    apply (loop_partial _ _ _ _ _ d1); try done. unfold TCPBUFFERSIZE, HANDSHAKE_LEN in *. lia.
  - assert (room (with_packet r1 (buf r1) (HANDSHAKE_LEN + 2) (dec BE l) reading_packet) = 0) as Hroom
      by (unfold room; change (buf r1) with (HANDSHAKE ++ l ++ d1); cbn [buf with_packet]; rewrite Hlen; lia).
    split; [exact Hroom|]. intros data Hdata. rewrite Hroom in Hdata.
    destruct data; [|simpl in Hdata; lia]. unfold tcp_to_udp.
    change (init_packet ?r) with r. by rewrite Hroom.
Qed.

Lemma first_datagram_too_long_witness :
  let d := repeat 0 (Z.to_nat 65503) in
  exists r', tcp_to_udp (fun _ _ => Send_ok)
      (Read (take (Z.to_nat TCPBUFFERSIZE) (HANDSHAKE ++ out_packet d ++ [1]))) (init_relay true 0 5) =
      Some (Go (r', [])) /\ room r' = 0 /\
    forall data, Z.of_nat (length data) <= room r' ->
      tcp_to_udp (fun _ _ => Send_ok) (Read data) r' = Some (Exit Remote_closed).
Proof.
  intros d. apply (first_datagram_too_long (fun _ _ => Send_ok) 0 5 d [1]).
  - split; [intros H; apply (f_equal length) in H; unfold d in H; rewrite repeat_length in H; simpl in H; lia|].
    unfold d. rewrite repeat_length. unfold UDPBUFFERSIZE, TCPBUFFERSIZE. lia.
  - unfold d. rewrite repeat_length. unfold TCPBUFFERSIZE, HANDSHAKE_LEN. lia.
Defined.
