(* ===== verification/TemplateUtils.v ===== *)
(** * Text output of the LuCI templates: template_utils.c

    The growing buffer, UTF-8 validation ([utf8]), escaping for XML ([pcdata]),
    removal of markup ([striptags]) and the escaping of text for Lua string
    literals ([luastr_escape], [luastr_translate]).

    The block behind a buffer is a list of cells, [None] for a byte that was
    never written; a store outside of it, a copy of a negative length or a read
    outside the input is the result [None].  Characters are unsigned bytes. *)
From stdpp Require Import options.
From S2P Require Import Prelude CLib Lmo.

(** ** The buffer *)

(** [dptr] is an offset from [data]. *)
Record template_buffer := Buf { data : list (option Z); dptr : Z; bsize : Z; fill : Z }.

Definition store (m : list (option Z)) (p : Z) (bs : list Z) : option (list (option Z)) :=
  if (0 <=? p) && (p + Z.of_nat (length bs) <=? Z.of_nat (length m))
  then Some (take (Z.to_nat p) m ++ map Some bs ++ drop (Z.to_nat p + length bs) m)
  else None.

Definition buf_init (size : Z) : option template_buffer :=
  let size := if size <=? 0 then 1024 else size in
  d ← store (replicate (Z.to_nat size) None) 0 [0];
  Some (Buf d 0 size 0).

(** [realloc] succeeds and keeps the contents; [size] is unsigned. *)
Definition buf_grow (b : template_buffer) (size : Z) : Z * template_buffer :=
  let size := if size <=? 0 then 1024 else size in
  let n := u32 (bsize b + size) in
  (n, Buf (resize (Z.to_nat n) None (data b)) (dptr b) n (fill b)).

Definition buf_putchar (b : template_buffer) (c : Z) : option (bool * template_buffer) :=
  let '(ok, b) :=
    if u32 (fill b + 1) >=? bsize b
    then let '(r, b) := buf_grow b 0 in (negb (r =? 0), b)
    else (true, b) in
  if ok then
    d ← store (data b) (dptr b) [c];
    d ← store d (dptr b + 1) [0];
    Some (true, Buf d (dptr b + 1) (bsize b) (u32 (fill b + 1)))
  else Some (false, b).

(** [s] is what the source pointer points to. *)
Definition buf_append (b : template_buffer) (s : list Z) (len : Z) :
    option (bool * template_buffer) :=
  let '(ok, b) :=
    if u32 (fill b + len + 1) >=? bsize b
    then let '(r, b) := buf_grow b (len + 1) in (negb (r =? 0), b)
    else (true, b) in
  if ok then
    if (0 <=? len) && (len <=? Z.of_nat (length s)) then
      d ← store (data b) (dptr b) (take (Z.to_nat len) s);
      let dptr' := dptr b + len in
      d ← store d dptr' [0];
      Some (negb (len =? 0), Buf d dptr' (bsize b) (u32 (fill b + len)))
    else None
  else Some (false, b).

Definition buf_length (b : template_buffer) : Z := fill b.

Definition buf_destroy (b : template_buffer) : list (option Z) := data b.

(** ** UTF-8 *)

Definition mb_num_chars (c : Z) : Z :=
  if Z.land c 0xE0 =? 0xC0 then 2
  else if Z.land c 0xF0 =? 0xE0 then 3
  else if Z.land c 0xF8 =? 0xF0 then 4
  else if Z.land c 0xFC =? 0xF8 then 5
  else if Z.land c 0xFE =? 0xFC then 6
  else 1.

Definition mb_is_cont (c : Z) : bool := (c >=? 0x80) && (c <=? 0xBF).

(** [f0(s[0]) && f1(s[1]) && ...], which reads no further than needed. *)
Fixpoint all_at (s : list Z) (fs : list (Z -> bool)) {struct fs} : option bool :=
  match fs with
  | [] => Some true
  | f :: fs' =>
      match s with
      | [] => None
      | c :: s' => if f c then all_at s' fs' else Some false
      end
  end.

Definition shr_is (k v : Z) (c : Z) : bool := Z.shiftr c k =? v.

Definition mb_is_shortest (s : list Z) (n : Z) : option bool :=
  let cont := shr_is 6 0x02 in
  negb <$>
    (if n =? 2 then all_at s [shr_is 1 0x60; cont]
     else if n =? 3 then all_at s [Z.eqb 0xE0; shr_is 5 0x04; cont]
     else if n =? 4 then all_at s [Z.eqb 0xF0; shr_is 4 0x08; cont; cont]
     else if n =? 5 then all_at s [Z.eqb 0xF8; shr_is 3 0x10; cont; cont; cont]
     else if n =? 6 then all_at s [Z.eqb 0xF8; shr_is 2 0x20; cont; cont; cont; cont]
     else Some false).

Definition mb_is_surrogate (s : list Z) (n : Z) : option bool :=
  if n =? 3 then all_at s [Z.eqb 0xED; fun c => (c >=? 0xA0) && (c <=? 0xBF)] else Some false.

Definition mb_is_illegal (s : list Z) (n : Z) : option bool :=
  if n =? 3 then all_at s [Z.eqb 0xEF; Z.eqb 0xBF; fun c => (c >=? 0xBE) && (c <=? 0xBF)]
  else Some false.

(** The loop over the continuation bytes; [k] iterations are left until
    [v <= n] fails. *)
Fixpoint count_cont (k : nat) (p : list Z) (v l : Z) : option Z :=
  match k with
  | O => Some v
  | S k' =>
      if v <? l then
        c ← p !! Z.to_nat v;
        if mb_is_cont c then count_cont k' p (v + 1) l else Some v
      else Some v
  end.

Definition andM (x : option bool) (y : option bool) : option bool :=
  b ← x; if (b : bool) then y else Some false.

(** [p] are the bytes from [*s] on; returns the bytes consumed, the new [*s]
    and the buffer. *)
Definition _validate_utf8 (p : list Z) (l : Z) (b : template_buffer) :
    option (Z * list Z * template_buffer) :=
  c ← p !! 0%nat;
  if (c >=? 0x01) && (c <=? 0x7F) then
    '(ok, b) ← buf_putchar b c;
    Some (if (ok : bool) then (1, drop 1 p, b) else (0, p, b))
  else
    let n := mb_num_chars c in
    if n >? 1 then
      v ← count_cont (Z.to_nat n) p 1 l;
      legal ← (if (n =? 6) || (n =? 5) then Some false
               else if v =? n then
                 andM (mb_is_shortest p n)
                   (andM (negb <$> mb_is_surrogate p n) (negb <$> mb_is_illegal p n))
               else Some false);
      '(ok, b) ← (if (legal : bool) then buf_append b p n else buf_putchar b 63);
      Some (if (ok : bool) then (v, drop (Z.to_nat v) p, b) else (0, p, b))
    else
      '(ok, b) ← buf_putchar b 63;
      Some (if (ok : bool) then (1, drop 1 p, b) else (0, p, b)).

(** The [for] loops run at most once per byte: their fuel is the length of the
    input. *)
Fixpoint utf8_loop (fuel : nat) (o l : Z) (p : list Z) (b : template_buffer) :
    option template_buffer :=
  if o <? l then
    match fuel with
    | O => None
    | S f =>
        c ← p !! 0%nat;
        if (c >=? 0x01) && (c <=? 0x7F) then
          '(ok, b) ← buf_putchar b c;
          if (ok : bool) then utf8_loop f (o + 1) l (drop 1 p) b else Some b
        else
          '(v, p, b) ← _validate_utf8 p (l - o) b;
          if v =? 0 then Some b else utf8_loop f (o + (v - 1) + 1) l p b
    end
  else Some b.

Definition utf8 (s : list Z) : option (list (option Z)) :=
  let l := Z.of_nat (length s) in
  b ← buf_init (s32 l);
  b ← utf8_loop (length s) 0 l s b;
  Some (buf_destroy b).

(** ** XML *)

(** [snprintf(esq, sizeof(esq), "&#%i;", c)] *)
Definition esq (c : Z) : list Z := str "&#" ++ print_u c ++ str ";".

Definition xml_invalid (c : Z) : bool :=
  ((c >=? 0x00) && (c <=? 0x08)) || ((c >=? 0x0B) && (c <=? 0x0C)) ||
  ((c >=? 0x0E) && (c <=? 0x1F)) || (c =? 0x7F).

Definition xml_special (c : Z) : bool :=
  (c =? 0x26) || (c =? 0x27) || (c =? 0x22) || (c =? 0x3C) || (c =? 0x3E).

Fixpoint pcdata_loop (fuel : nat) (o l : Z) (p : list Z) (b : template_buffer) :
    option template_buffer :=
  if o <? l then
    match fuel with
    | O => None
    | S f =>
        c ← p !! 0%nat;
        if xml_invalid c then pcdata_loop f (o + 1) l (drop 1 p) b
        else if xml_special c then
          '(ok, b) ← buf_append b (esq c) (Z.of_nat (length (esq c)));
          if (ok : bool) then pcdata_loop f (o + 1) l (drop 1 p) b else Some b
        else if c <=? 0x7F then
          '(_, b) ← buf_putchar b c;
          pcdata_loop f (o + 1) l (drop 1 p) b
        else
          '(v, p, b) ← _validate_utf8 p (l - o) b;
          if v =? 0 then Some b else pcdata_loop f (o + (v - 1) + 1) l p b
    end
  else Some b.

Definition pcdata (s : list Z) : option (list (option Z)) :=
  let l := Z.of_nat (length s) in
  b ← buf_init (s32 l);
  b ← pcdata_loop (length s) 0 l s b;
  Some (buf_destroy b).

(** ** Removal of markup *)

Definition isalpha (c : Z) : bool := ((65 <=? c) && (c <=? 90)) || ((97 <=? c) && (c <=? 122)).

(** The rest of the input after the first ['>']. *)
Fixpoint skip_tag (p : list Z) : option (list Z) :=
  match p with
  | [] => None
  | c :: p' => if c =? 62 then Some p' else skip_tag p'
  end.

(** [ptr + 2 < end], and a ['<'] with a slash or a letter after it. *)
Definition starts_tag (p : list Z) : bool :=
  match p with
  | a :: b :: _ :: _ => (a =? 60) && ((b =? 47) || isalpha b)
  | _ => false
  end.

Fixpoint striptags_loop (fuel : nat) (prev : Z) (p : list Z) (b : template_buffer) :
    option template_buffer :=
  match p with
  | [] => Some b
  | c :: p' =>
      match fuel with
      | O => None
      | S f =>
          if starts_tag p then
            match skip_tag p with
            | Some rest =>
                '(_, b) ← (if isspace prev then Some (true, b) else buf_putchar b 32);
                striptags_loop f 32 rest b
            | None => striptags_loop f prev p' b
            end
          else if isspace c then
            '(_, b) ← (if isspace prev then Some (true, b) else buf_putchar b c);
            striptags_loop f c p' b
          else
            '(_, b) ← (if xml_special c then buf_append b (esq c) (Z.of_nat (length (esq c)))
                       else buf_putchar b c);
            striptags_loop f c p' b
      end
  end.

Definition striptags (s : list Z) : option (list (option Z)) :=
  b ← buf_init (s32 (Z.of_nat (length s)));
  b ← striptags_loop (length s) 32 s b;
  Some (buf_destroy b).

(** ** Lua string literals *)

(** The bytes one character of the text becomes. *)
Definition luastr_char (escape_xml : bool) (c : Z) : option (list Z) :=
  if c =? 92 then Some [92; 92]
  else if c =? 34 then Some (if escape_xml then str "&#34;" else [92; 34])
  else if c =? 10 then Some (92 :: str "n")
  else if ((c =? 39) || (c =? 38) || (c =? 60) || (c =? 62)) && escape_xml then Some (esq c)
  else None.

Fixpoint luastr_escape (out : template_buffer) (s : list Z) (escape_xml : bool) :
    option template_buffer :=
  match s with
  | [] => Some out
  | c :: s' =>
      '(_, out) ← match luastr_char escape_xml c with
                  | Some e => buf_append out e (Z.of_nat (length e))
                  | None => buf_putchar out c
                  end;
      luastr_escape out s' escape_xml
  end.

(** The position of the first ['|'] that no backslash precedes. *)
Fixpoint find_ctxt (esc : bool) (p : list Z) : option nat :=
  match p with
  | [] => None
  | c :: p' =>
      if esc then S <$> find_ctxt false p'
      else if c =? 92 then S <$> find_ctxt true p'
      else if c =? 124 then Some O
      else S <$> find_ctxt false p'
  end.

Definition luastr_translate (active : option lmo_catalog) (out : template_buffer) (s : list Z)
    (escape_xml : bool) : option template_buffer :=
  let '(msgid, msgctxt) :=
    match find_ctxt false s with
    | Some i => (take i s, Some (drop (S i) s))
    | None => (s, None)
    end in
  '(r, tr) ← lmo_translate_ctxt active msgid msgctxt;
  match r, tr with
  | 0, Some t => luastr_escape out t escape_xml
  | _, _ => luastr_escape out s escape_xml
  end.
