(* ===== verification/TemplateUtf8.v ===== *)
(** * Text output of the LuCI templates: UTF-8 validation

    Code points and their encoding, what the byte tests of [_validate_utf8]
    decide, and the effect of one call on the buffer. *)

From stdpp Require Import options.
From S2P Require Import Prelude CLib Lmo TemplateUtils.

(** ** The buffer *)

Definition block_len (b : template_buffer) : Prop :=
  0 <= bsize b < 2 ^ 32 /\ length (data b) = Z.to_nat (bsize b).

(** The buffer holds the text [t] and there is space for [n] more bytes. *)
Definition space (b : template_buffer) (t : list Z) (n : nat) : Prop :=
  dptr b = Z.of_nat (length t) /\ fill b = Z.of_nat (length t) /\ block_len b /\
  exists rest, data b = map Some t ++ rest /\ (n <= length rest)%nat.

(** The buffer holds the text [t], terminated. *)
Definition holds (b : template_buffer) (t : list Z) : Prop :=
  dptr b = Z.of_nat (length t) /\ fill b = Z.of_nat (length t) /\ block_len b /\
  exists rest, data b = map Some t ++ Some 0 :: rest.

Lemma store_at m t rest bs :
  m = map Some t ++ rest -> (length bs <= length rest)%nat ->
  store m (Z.of_nat (length t)) bs = Some (map Some (t ++ bs) ++ drop (length bs) rest).
Proof.
  intros -> Hl. unfold store. rewrite length_app, length_map.
  rewrite (proj2 (Z.leb_le _ _)), (proj2 (Z.leb_le _ _)) by lia. simpl.
  rewrite Nat2Z.id, map_app, <- app_assoc. f_equal. f_equal.
  - apply take_app_length'. by rewrite length_map.
  - f_equal. rewrite drop_app_ge by (rewrite length_map; lia). f_equal. rewrite length_map. lia.
Qed.

Lemma space_write b t bs :
  space b t (S (length bs)) ->
  exists d d', store (data b) (dptr b) bs = Some d /\
    store d (dptr b + Z.of_nat (length bs)) [0] = Some d' /\
    holds (Buf d' (dptr b + Z.of_nat (length bs)) (bsize b) (u32 (fill b + Z.of_nat (length bs))))
      (t ++ bs).
Proof.
  intros (Hp & Hf & (Hs & Hb) & rest & Hd & Hr).
  rewrite Hp. rewrite (store_at _ _ _ _ Hd) by lia.
  eexists _, _. split; [done|].
  replace (Z.of_nat (length t) + Z.of_nat (length bs)) with (Z.of_nat (length (t ++ bs)))
    by (rewrite length_app; lia).
  rewrite (store_at _ (t ++ bs) (drop (length bs) rest)); [|done|rewrite length_drop; simpl; lia].
  split; [done|]. pose proof (f_equal length Hd) as Hlen. rewrite length_app, length_map in Hlen.
  split; [done|]. split.
  { cbn [fill]. rewrite Hf, length_app. unfold u32, wrap. rewrite Z.mod_small; lia. }
  split.
  - split; [done|]. cbn [data bsize]. rewrite length_app, length_map, !length_app, !length_drop.
    simpl. lia.
  - exists (drop 1 (drop (length bs) rest)). cbn [data].
    by rewrite (map_app _ (t ++ bs)), <- app_assoc.
Qed.

Lemma grow_space b t size n :
  holds b t -> (if size <=? 0 then 1024 else size) = n -> 0 < n -> bsize b + n < 2 ^ 32 ->
  exists b', buf_grow b size = (bsize b + n, b') /\ space b' t (S (Z.to_nat n)).
Proof.
  intros (Hp & Hf & (Hs & Hb) & rest & Hd) Hn Hpos Hlt. unfold buf_grow. rewrite Hn.
  assert (u32 (bsize b + n) = bsize b + n) as -> by (apply Z.mod_small; lia).
  eexists. split; [done|]. pose proof (f_equal length Hd) as Hlen.
  rewrite length_app, length_map in Hlen. simpl in Hlen.
  split; [done|]. split; [done|]. split.
  - split; cbn [bsize data]; [lia|]. by rewrite length_resize.
  - exists (resize (Z.to_nat (bsize b + n) - length t) None (Some 0 :: rest)). cbn [data]. split.
    + rewrite Hd, resize_app_ge by (rewrite length_map; lia). by rewrite length_map.
    + rewrite length_resize. lia.
Qed.

Lemma holds_space b t n :
  holds b t -> Z.of_nat (length t) + Z.of_nat n < bsize b -> space b t (S n).
Proof.
  intros (Hp & Hf & (Hs & Hb) & rest & Hd) Hn. split; [done|]. split; [done|]. split; [done|].
  exists (Some 0 :: rest). split; [done|].
  apply (f_equal length) in Hd. rewrite length_app, length_map in Hd. lia.
Qed.

(** Texts of up to this length are handled without overflow of the sizes. *)
Definition MAXLEN : Z := 2 ^ 31.

Lemma buf_putchar_ok b t c :
  holds b t -> Z.of_nat (length t) < MAXLEN ->
  exists b', buf_putchar b c = Some (true, b') /\ holds b' (t ++ [c]).
Proof.
  intros Hh Hl. pose proof Hh as (Hp & Hf & (Hs & Hb) & rest & Hd). unfold MAXLEN in Hl.
  unfold buf_putchar.
  assert (u32 (fill b + 1) = Z.of_nat (length t) + 1) as -> by (rewrite Hf; apply Z.mod_small; lia).
  assert (exists b', (if Z.of_nat (length t) + 1 >=? bsize b
     then let '(r, b) := buf_grow b 0 in (negb (r =? 0), b) else (true, b)) = (true, b') /\
     space b' t 2) as (b' & -> & Hsp).
  { rewrite Z.geb_leb. destruct (Z.leb_spec (bsize b) (Z.of_nat (length t) + 1)).
    - destruct (grow_space b t 0 1024 Hh eq_refl) as (b' & -> & Hsp); [lia|lia|].
      exists b'. split; [by rewrite (proj2 (Z.eqb_neq _ _)) by lia|].
      destruct Hsp as (? & ? & ? & r & ? & ?). split_and!; try done. exists r. split; [done|lia].
    - exists b. split; [done|]. apply holds_space; [done|lia]. }
  destruct (space_write b' t [c] Hsp) as (d & d' & -> & Hd' & Hh').
  change (Z.of_nat (length [c])) with 1 in *. cbn [mbind option_bind]. rewrite Hd'. by eexists.
Qed.

Lemma buf_append_ok b t s len :
  holds b t -> Z.of_nat (length t) < MAXLEN -> 0 < len <= Z.of_nat (length s) -> len < 2 ^ 29 ->
  exists b', buf_append b s len = Some (true, b') /\ holds b' (t ++ take (Z.to_nat len) s).
Proof.
  intros Hh Hl Hlen Hlt. pose proof Hh as (Hp & Hf & (Hs & Hb) & rest & Hd). unfold MAXLEN in Hl.
  unfold buf_append.
  assert (u32 (fill b + len + 1) = Z.of_nat (length t) + len + 1) as ->
    by (rewrite Hf; apply Z.mod_small; lia).
  set (bs := take (Z.to_nat len) s).
  assert (Z.of_nat (length bs) = len) as Hbs by (unfold bs; rewrite length_take; lia).
  assert (exists b', (if Z.of_nat (length t) + len + 1 >=? bsize b
     then let '(r, b) := buf_grow b (len + 1) in (negb (r =? 0), b) else (true, b)) = (true, b') /\
     space b' t (S (length bs))) as (b' & -> & Hsp).
  { rewrite Z.geb_leb. destruct (Z.leb_spec (bsize b) (Z.of_nat (length t) + len + 1)).
    - destruct (grow_space b t (len + 1) (len + 1) Hh) as (b' & -> & Hsp); [|lia|lia|].
      { by rewrite (proj2 (Z.leb_gt _ _)) by lia. }
      exists b'. split; [by rewrite (proj2 (Z.eqb_neq _ _)) by lia|].
      destruct Hsp as (? & ? & ? & r & ? & ?). split_and!; try done. exists r. split; [done|lia].
    - exists b. split; [done|]. apply holds_space; [done|lia]. }
  rewrite (proj2 (Z.leb_le 0 len)), (proj2 (Z.leb_le len _)) by lia.
  destruct (space_write b' t bs Hsp) as (d & d' & -> & Hd' & Hh'). rewrite Hbs in *.
  cbn [andb mbind option_bind]. rewrite Hd'. rewrite (proj2 (Z.eqb_neq len 0)) by lia. by eexists.
Qed.

Lemma buf_init_ok n : n < 2 ^ 32 -> exists b, buf_init n = Some b /\ holds b [].
Proof.
  intros Hn. unfold buf_init. set (size := if n <=? 0 then 1024 else n).
  assert (0 < size < 2 ^ 32) as Hsz by (unfold size; destruct (Z.leb_spec n 0); lia).
  clearbody size. change 0 with (Z.of_nat (length (@nil Z))) at 1.
  rewrite (store_at _ [] (replicate (Z.to_nat size) None)); [|done|rewrite length_replicate; simpl; lia].
  eexists. split; [done|]. split; [done|]. split; [done|]. split.
  - split; cbn [bsize data]; [lia|]. rewrite length_app, length_drop, length_replicate. simpl. lia.
  - by eexists.
Qed.

(** A whole piece of text. *)
Lemma append_all b t s :
  holds b t -> Z.of_nat (length t) < MAXLEN -> 0 < Z.of_nat (length s) < 2 ^ 29 ->
  exists b', buf_append b s (Z.of_nat (length s)) = Some (true, b') /\ holds b' (t ++ s).
Proof.
  intros Hh Ht Hs.
  destruct (buf_append_ok b t s (Z.of_nat (length s)) Hh Ht) as (b' & Hb & Hh'); [lia|lia|].
  rewrite Nat2Z.id, firstn_all in Hh'. eauto.
Qed.

(** ** Bytes and code points *)

(** ** Code points *)

Definition utf8_enc (c : Z) : list Z :=
  if c <? 0x80 then [c]
  else if c <? 0x800 then [0xC0 + c / 64; 0x80 + c mod 64]
  else if c <? 0x10000 then [0xE0 + c / 4096; 0x80 + c / 64 mod 64; 0x80 + c mod 64]
  else [0xF0 + c / 262144; 0x80 + c / 4096 mod 64; 0x80 + c / 64 mod 64; 0x80 + c mod 64].

(** Unicode code points that can stand in a text: no NUL, no surrogates, not U+FFFE or
    U+FFFF. *)
Definition codepoint (c : Z) : Prop :=
  0 < c < 0x110000 /\ ~ (0xD800 <= c <= 0xDFFF) /\ ~ (0xFFFE <= c <= 0xFFFF).

(** The numbers whose encodings the validator lets through: the code points, and the
    numbers of 21 bits above them. *)
Definition accepted (c : Z) : Prop :=
  0 < c < 0x200000 /\ ~ (0xD800 <= c <= 0xDFFF) /\ ~ (0xFFFE <= c <= 0xFFFF).

Lemma codepoint_accepted c : codepoint c <-> accepted c /\ c < 0x110000.
Proof. unfold codepoint, accepted. intuition lia. Qed.

(** A text has no encoding of an accepted number above the code points in it. *)
Definition no_high (s : list Z) : Prop :=
  forall pre cp rest, s = pre ++ utf8_enc cp ++ rest -> accepted cp -> cp < 0x110000.

Lemma no_high_suffix pre s : no_high (pre ++ s) -> no_high s.
Proof. intros H pre' cp rest -> Hcp. apply (H (pre ++ pre') cp rest); [by rewrite app_assoc|done]. Qed.

Lemma no_high_drop v s : no_high s -> no_high (drop v s).
Proof. rewrite <- (take_drop v s) at 1. apply no_high_suffix. Qed.

(** Bytes below 0xF4 make no such encoding. *)
Lemma no_high_bytes s : Forall (fun c => c < 0xF4) s -> no_high s.
Proof.
  intros Hs pre cp rest -> (Hr & _). apply Forall_app in Hs as [_ Hs]. apply Forall_app in Hs as [Hs _].
  unfold utf8_enc in Hs. repeat case_match; b2p; try lia. inversion Hs; subst. Z.to_euclidean_division_equations; lia.
Qed.

Definition byte (c : Z) : Prop := 0 <= c < 256.
Definition cont_head (p : list Z) : Prop := exists c q, p = c :: q /\ mb_is_cont c = true.

(** A text starts with an encoded accepted number that no stray continuation byte
    follows. *)
Definition legal_head (p : list Z) (cp : Z) (rest : list Z) : Prop :=
  accepted cp /\ p = utf8_enc cp ++ rest /\ (cp < 0x80 \/ ~ cont_head rest).

(** ** The byte tests *)

Lemma byte_check (f : Z -> bool) :
  forallb f (seqZ 0 256) = true -> forall c, byte c -> f c = true.
Proof.
  intros Hf c Hc. apply (proj1 (forallb_forall _ _) Hf). apply list_elem_of_In, elem_of_seqZ.
  unfold byte in Hc. lia.
Qed.

Lemma mb_num_chars_range c : byte c ->
  mb_num_chars c = (if c <? 0xC0 then 1 else if c <? 0xE0 then 2 else if c <? 0xF0 then 3
                    else if c <? 0xF8 then 4 else if c <? 0xFC then 5
                    else if c <? 0xFE then 6 else 1).
Proof.
  intros Hc. apply Z.eqb_eq. revert c Hc.
  apply (byte_check (fun c => mb_num_chars c =? _)). vm_compute. reflexivity.
Qed.

Lemma shr_is_range k v c : 0 <= k -> shr_is k v c = (v * 2 ^ k <=? c) && (c <? (v + 1) * 2 ^ k).
Proof.
  intros Hk. unfold shr_is. rewrite Z.shiftr_div_pow2 by done.
  pose proof (Z.pow_pos_nonneg 2 k ltac:(lia) Hk) as Hp.
  apply Bool.eq_iff_eq_true. rewrite Z.eqb_eq, andb_true_iff, Z.leb_le, Z.ltb_lt. split.
  - intros <-. pose proof (Z.mul_div_le c (2 ^ k) Hp). pose proof (Z.mul_succ_div_gt c (2 ^ k) Hp). lia.
  - intros [? ?]. symmetry. apply (Z.div_unique c (2 ^ k) v (c - v * 2 ^ k)); lia.
Qed.

Lemma mb_is_cont_spec c : mb_is_cont c = true <-> 0x80 <= c <= 0xBF.
Proof. unfold mb_is_cont. rewrite Z.geb_leb, andb_true_iff, !Z.leb_le. lia. Qed.

(** The tests on a sequence whose number of continuation bytes is right. *)
Definition checks (p : list Z) (n : Z) : option bool :=
  andM (mb_is_shortest p n)
    (andM (negb <$> mb_is_surrogate p n) (negb <$> mb_is_illegal p n)).

Ltac bool_cases :=
  repeat match goal with
  | |- context [?a <=? ?b] => destruct (Z.leb_spec a b)
  | |- context [?a <? ?b] => destruct (Z.ltb_spec a b)
  | |- context [?a =? ?b] => destruct (Z.eqb_spec a b)
  end; cbn [andb orb negb andM mbind option_bind fmap option_fmap option_map]; try done; try lia.

Lemma checks2 c0 c1 q : 0xC0 <= c0 < 0xE0 -> mb_is_cont c1 = true ->
  checks (c0 :: c1 :: q) 2 = Some (0xC2 <=? c0).
Proof.
  intros H0 H1%mb_is_cont_spec. unfold checks, mb_is_shortest, mb_is_surrogate, mb_is_illegal.
  cbn [Z.eqb Pos.eqb all_at]. rewrite !shr_is_range by lia. bool_cases.
Qed.

Lemma checks3 c0 c1 c2 q : 0xE0 <= c0 < 0xF0 -> mb_is_cont c1 = true -> mb_is_cont c2 = true ->
  checks (c0 :: c1 :: c2 :: q) 3 =
    Some (negb ((c0 =? 0xE0) && (c1 <? 0xA0)) && negb ((c0 =? 0xED) && (0xA0 <=? c1)) &&
          negb ((c0 =? 0xEF) && (c1 =? 0xBF) && (0xBE <=? c2))).
Proof.
  intros H0 H1%mb_is_cont_spec H2%mb_is_cont_spec.
  unfold checks, mb_is_shortest, mb_is_surrogate, mb_is_illegal.
  change (3 =? 2) with false. change (3 =? 3) with true. cbv iota. cbn [all_at].
  rewrite !shr_is_range, ?Z.geb_leb by lia.
  destruct (Z.eqb_spec 0xE0 c0), (Z.eqb_spec c0 0xE0), (Z.eqb_spec 0xED c0), (Z.eqb_spec c0 0xED),
    (Z.eqb_spec 0xEF c0), (Z.eqb_spec c0 0xEF); try lia; cbn [andb orb negb andM mbind option_bind fmap option_fmap option_map]; bool_cases.
Qed.

Lemma checks4 c0 c1 c2 c3 q : 0xF0 <= c0 < 0xF8 -> mb_is_cont c1 = true -> mb_is_cont c2 = true ->
  mb_is_cont c3 = true ->
  checks (c0 :: c1 :: c2 :: c3 :: q) 4 = Some (negb ((c0 =? 0xF0) && (c1 <? 0x90))).
Proof.
  intros H0 H1%mb_is_cont_spec H2%mb_is_cont_spec H3%mb_is_cont_spec.
  unfold checks, mb_is_shortest, mb_is_surrogate, mb_is_illegal.
  change (4 =? 2) with false. change (4 =? 3) with false. change (4 =? 4) with true. cbv iota.
  cbn [all_at]. rewrite !shr_is_range by lia.
  destruct (Z.eqb_spec 0xF0 c0), (Z.eqb_spec c0 0xF0); try lia; cbn [andb orb negb andM mbind option_bind fmap option_fmap option_map]; bool_cases.
Qed.

(** ** The tests accept exactly the encodings *)

Definition is_cont (c : Z) : Prop := mb_is_cont c = true.

Ltac div_lia := Z.to_euclidean_division_equations; lia.

Lemma enc_checks cp rest : accepted cp -> 0x80 <= cp ->
  exists c0 cs, utf8_enc cp = c0 :: cs /\ 0xC2 <= c0 < 0xF8 /\ Forall is_cont cs /\
    mb_num_chars c0 = Z.of_nat (S (length cs)) /\ (1 <= length cs <= 3)%nat /\
    checks (c0 :: cs ++ rest) (Z.of_nat (S (length cs))) = Some true.
Proof.
  intros (Hr & Hs & Hf) Hge. unfold utf8_enc. rewrite (proj2 (Z.ltb_ge _ _)) by lia.
  assert (forall x, is_cont (0x80 + x mod 64)) as Hc
    by (intros x; apply mb_is_cont_spec; pose proof (Z.mod_pos_bound x 64); lia).
  destruct (Z.ltb_spec cp 0x800) as [H1|H1]; [|destruct (Z.ltb_spec cp 0x10000) as [H2|H2]].
  - exists (0xC0 + cp / 64), [0x80 + cp mod 64]. split; [done|].
    assert (0xC2 <= 0xC0 + cp / 64 < 0xE0) as Hb by div_lia.
    split; [lia|]. split; [by repeat constructor|]. split.
    { rewrite mb_num_chars_range by (unfold byte; lia). bool_cases. }
    split; [simpl; lia|]. cbn [length app].
    change (Z.of_nat 2) with 2. rewrite checks2 by (lia || apply Hc).
    by rewrite (proj2 (Z.leb_le _ _)) by lia.
  - exists (0xE0 + cp / 4096), [0x80 + cp / 64 mod 64; 0x80 + cp mod 64]. split; [done|].
    assert (0xE0 <= 0xE0 + cp / 4096 < 0xF0) as Hb by div_lia.
    split; [lia|]. split; [by repeat constructor|]. split.
    { rewrite mb_num_chars_range by (unfold byte; lia). bool_cases. }
    split; [simpl; lia|]. cbn [length app].
    change (Z.of_nat 3) with 3. rewrite checks3 by (lia || apply Hc). f_equal.
    clear Hc. bool_cases; exfalso; div_lia.
  - exists (0xF0 + cp / 262144), [0x80 + cp / 4096 mod 64; 0x80 + cp / 64 mod 64; 0x80 + cp mod 64].
    split; [done|]. assert (0xF0 <= 0xF0 + cp / 262144 < 0xF8) as Hb by div_lia.
    split; [lia|]. split; [by repeat constructor|]. split.
    { rewrite mb_num_chars_range by (unfold byte; lia). bool_cases. }
    split; [simpl; lia|]. cbn [length app].
    change (Z.of_nat 4) with 4. rewrite checks4 by (lia || apply Hc). f_equal.
    clear Hc. bool_cases; exfalso; div_lia.
Qed.

(** Each lead byte with its continuation bytes is the encoding of a number. *)
Lemma enc2 c0 c1 : 0xC2 <= c0 < 0xE0 -> 0x80 <= c1 <= 0xBF ->
  let cp := (c0 - 0xC0) * 64 + (c1 - 0x80) in utf8_enc cp = [c0; c1] /\ 0x80 <= cp < 0x800.
Proof.
  intros H0 H1 cp. assert (0x80 <= cp < 0x800) as Hcp by (unfold cp; lia). split; [|done].
  unfold utf8_enc. rewrite (proj2 (Z.ltb_ge _ _)), (proj2 (Z.ltb_lt _ _)) by lia.
  f_equal; [|f_equal]; unfold cp; div_lia.
Qed.

Lemma enc3 c0 c1 c2 : 0xE0 <= c0 < 0xF0 -> 0x80 <= c1 <= 0xBF -> 0x80 <= c2 <= 0xBF ->
  ~ (c0 = 0xE0 /\ c1 < 0xA0) ->
  let cp := (c0 - 0xE0) * 4096 + (c1 - 0x80) * 64 + (c2 - 0x80) in
  utf8_enc cp = [c0; c1; c2] /\ 0x800 <= cp < 0x10000.
Proof.
  intros H0 H1 H2 Hn cp. assert (0x800 <= cp < 0x10000) as Hcp by (unfold cp; lia). split; [|done].
  unfold utf8_enc. rewrite !(proj2 (Z.ltb_ge _ _)), (proj2 (Z.ltb_lt _ _)) by lia.
  f_equal; [|f_equal; [|f_equal]]; unfold cp; div_lia.
Qed.

Lemma enc4 c0 c1 c2 c3 : 0xF0 <= c0 < 0xF8 -> 0x80 <= c1 <= 0xBF -> 0x80 <= c2 <= 0xBF ->
  0x80 <= c3 <= 0xBF -> ~ (c0 = 0xF0 /\ c1 < 0x90) ->
  let cp := (c0 - 0xF0) * 262144 + (c1 - 0x80) * 4096 + (c2 - 0x80) * 64 + (c3 - 0x80) in
  utf8_enc cp = [c0; c1; c2; c3] /\ 0x10000 <= cp < 0x200000.
Proof.
  intros H0 H1 H2 H3 Hn cp. assert (0x10000 <= cp < 0x200000) as Hcp by (unfold cp; lia).
  split; [|done]. unfold utf8_enc. rewrite !(proj2 (Z.ltb_ge _ _)) by lia.
  f_equal; [|f_equal; [|f_equal; [|f_equal]]]; unfold cp; div_lia.
Qed.

Lemma checks_enc c0 cs q : byte c0 -> Forall is_cont cs -> (1 <= length cs <= 3)%nat ->
  mb_num_chars c0 = Z.of_nat (S (length cs)) ->
  checks (c0 :: cs ++ q) (Z.of_nat (S (length cs))) = Some true ->
  exists cp, accepted cp /\ 0x80 <= cp /\ utf8_enc cp = c0 :: cs.
Proof.
  intros Hb Hcs Hl Hn Hc. rewrite mb_num_chars_range in Hn by done.
  destruct cs as [|c1 [|c2 [|c3 [|]]]]; simpl in Hl; try lia; cbn [length app] in *;
    repeat match goal with H : Forall _ (_ :: _) |- _ => inversion_clear H end;
    repeat match goal with H : is_cont _ |- _ => unfold is_cont in H end.
  - change (Z.of_nat 2) with 2 in *.
    assert (0xC0 <= c0 < 0xE0) as Hr0 by (revert Hn; bool_cases).
    rewrite checks2 in Hc by done. injection Hc as Hc%Z.leb_le. rewrite mb_is_cont_spec in *.
    destruct (enc2 c0 c1) as [He Hr]; [lia|done|].
    eexists. split; [|split; [|exact He]]; [unfold accepted|]; lia.
  - change (Z.of_nat 3) with 3 in *.
    assert (0xE0 <= c0 < 0xF0) as Hr0 by (revert Hn; bool_cases).
    rewrite checks3 in Hc by done. injection Hc as Hc. rewrite mb_is_cont_spec in *.
    destruct (enc3 c0 c1 c2) as [He Hr]; [lia|done|done|revert Hc; bool_cases|].
    eexists. split; [|split; [|exact He]]; [unfold accepted|lia].
    revert Hc; bool_cases.
  - change (Z.of_nat 4) with 4 in *.
    assert (0xF0 <= c0 < 0xF8) as Hr0 by (revert Hn; bool_cases).
    rewrite checks4 in Hc by done. injection Hc as Hc. rewrite mb_is_cont_spec in *.
    destruct (enc4 c0 c1 c2 c3) as [He Hr]; [lia|done|done|done|revert Hc; bool_cases|].
    eexists. split; [|split; [|exact He]]; [unfold accepted|]; lia.
Qed.

(** ** Continuation bytes *)

(** The number of continuation bytes at the start of [q], at most [k]. *)
Fixpoint conts (k : nat) (q : list Z) : nat :=
  match k, q with
  | S k', c :: q' => if mb_is_cont c then S (conts k' q') else O
  | _, _ => O
  end.

Lemma count_cont_spec k : forall p v, (v <= length p)%nat ->
  count_cont k p (Z.of_nat v) (Z.of_nat (length p)) = Some (Z.of_nat (v + conts k (drop v p))).
Proof.
  induction k as [|k IH]; intros p v Hv; simpl; [by rewrite Nat.add_0_r|].
  destruct (Z.ltb_spec (Z.of_nat v) (Z.of_nat (length p))) as [Hlt|Hge].
  - destruct (lookup_lt_is_Some_2 p v ltac:(lia)) as [c Hc]. rewrite Nat2Z.id, Hc.
    rewrite (drop_S _ _ _ Hc). simpl. destruct (mb_is_cont c); [|by rewrite Nat.add_0_r].
    replace (Z.of_nat v + 1) with (Z.of_nat (S v)) by lia. rewrite IH by lia. do 2 f_equal. lia.
  - rewrite drop_ge by lia. simpl. by rewrite Nat.add_0_r.
Qed.

Lemma conts_le k q : (conts k q <= k /\ conts k q <= length q)%nat.
Proof.
  revert q. induction k as [|k IH]; intros [|c q]; simpl; try lia.
  destruct (mb_is_cont c); [|lia]. specialize (IH q). lia.
Qed.

Lemma conts_take k q : Forall is_cont (take (conts k q) q).
Proof.
  revert q. induction k as [|k IH]; intros [|c q]; simpl; try constructor.
  destruct (mb_is_cont c) eqn:Hc; simpl; constructor; auto.
Qed.

Lemma conts_stop k q : (conts k q < k)%nat -> ~ cont_head (drop (conts k q) q).
Proof.
  revert q. induction k as [|k IH]; intros [|c q]; simpl; try lia.
  - intros _ (c & q & Hq & _). done.
  - destruct (mb_is_cont c) eqn:Hc; [intros ?; apply IH; lia|].
    intros _ (c' & q' & Hq & Hc'). cbn [drop] in Hq. simplify_eq. by rewrite Hc in Hc'.
Qed.

Lemma conts_app k cs rest : Forall is_cont cs -> ~ cont_head rest -> (length cs <= k)%nat ->
  conts k (cs ++ rest) = length cs.
Proof.
  intros Hcs Hr. revert k. induction Hcs as [|c cs Hc _ IH]; intros k Hk.
  - destruct k; [done|]. destruct rest as [|c q]; [done|]. simpl.
    destruct (mb_is_cont c) eqn:Hc; [|done]. exfalso. apply Hr. by exists c, q.
  - destruct k as [|k]; simpl in *; [lia|]. rewrite Hc. rewrite IH by lia. done.
Qed.

(** ** One call of [_validate_utf8] *)

(** What a call does: a legal sequence is copied, an illegal one becomes ['?'].
    [v] is the number of bytes consumed. *)
Inductive validated (p : list Z) (v : nat) : list Z -> Prop :=
| validated_legal cp :
    legal_head p cp (drop v p) -> 0x80 <= cp -> take v p = utf8_enc cp ->
    validated p v (utf8_enc cp)
| validated_illegal :
    (forall cp rest, ~ legal_head p cp rest) -> Forall is_cont (drop 1 (take v p)) ->
    validated p v [63].

Lemma legal_head_num c p' cp rest : legal_head (c :: p') cp rest -> ~ (1 <= c <= 0x7F) ->
  exists cs, p' = cs ++ rest /\ utf8_enc cp = c :: cs /\ Forall is_cont cs /\ ~ cont_head rest /\
    mb_num_chars c = Z.of_nat (S (length cs)) /\ (1 <= length cs <= 3)%nat /\
    checks (c :: p') (mb_num_chars c) = Some true.
Proof.
  intros (Hcp & Hp & Hr) Hc. destruct (Z.lt_ge_cases cp 0x80) as [Hlt|Hge].
  { unfold utf8_enc in Hp. rewrite (proj2 (Z.ltb_lt _ _)) in Hp by done. simplify_eq/=.
    destruct Hcp. lia. }
  destruct (enc_checks cp rest Hcp Hge) as (c0 & cs & He & Hb & Hcs & Hn & Hl & Hch).
  rewrite He in Hp. cbn [app] in Hp. injection Hp as -> ->. exists cs. rewrite Hn.
  destruct Hr; [lia|]. split_and!; (done || lia).
Qed.

Lemma checks_some c0 cs q : byte c0 -> Forall is_cont cs -> (1 <= length cs <= 3)%nat ->
  mb_num_chars c0 = Z.of_nat (S (length cs)) ->
  exists l, checks (c0 :: cs ++ q) (Z.of_nat (S (length cs))) = Some l.
Proof.
  intros Hb Hcs Hl Hn. rewrite mb_num_chars_range in Hn by done.
  destruct cs as [|c1 [|c2 [|c3 [|]]]]; simpl in Hl; try lia; cbn [length app] in *;
    repeat match goal with H : Forall _ (_ :: _) |- _ => inversion_clear H end.
  - change (Z.of_nat 2) with 2 in *. rewrite checks2; eauto. revert Hn; bool_cases.
  - change (Z.of_nat 3) with 3 in *. rewrite checks3; eauto. revert Hn; bool_cases.
  - change (Z.of_nat 4) with 4 in *. rewrite checks4; eauto. revert Hn; bool_cases.
Qed.

(** The result of the tests, as [_validate_utf8] combines them. *)
Definition legal_test (c : Z) (p' : list Z) : option bool :=
  let n := mb_num_chars c in
  if (n =? 6) || (n =? 5) then Some false
  else if Z.of_nat (S (conts (Z.to_nat n) p')) =? n then checks (c :: p') n else Some false.

Lemma legal_test_complete c p' cp rest :
  ~ (1 <= c <= 0x7F) -> legal_head (c :: p') cp rest -> legal_test c p' = Some true.
Proof.
  intros Hc Hlh.
  destruct (legal_head_num _ _ _ _ Hlh Hc) as (cs & -> & _ & Hcs & Hr & Hnum & Hl & Hch).
  unfold legal_test. rewrite !(proj2 (Z.eqb_neq (mb_num_chars c) _)) by lia. cbn [orb].
  rewrite conts_app by (done || lia). by rewrite (proj2 (Z.eqb_eq _ _)) by lia.
Qed.

Lemma legal_test_sound c p' : byte c -> 1 < mb_num_chars c ->
  let v := S (conts (Z.to_nat (mb_num_chars c)) p') in
  exists l, legal_test c p' = Some l /\
    (l = true -> Z.of_nat v = mb_num_chars c /\ exists cp, 0x80 <= cp /\
       take v (c :: p') = utf8_enc cp /\ legal_head (c :: p') cp (drop v (c :: p'))).
Proof.
  intros Hb Hn. unfold legal_test. set (n := mb_num_chars c) in *.
  set (k := conts (Z.to_nat n) p'). cbv zeta.
  destruct ((n =? 6) || (n =? 5)) eqn:H56; [by eexists|].
  destruct (Z.eqb_spec (Z.of_nat (S k)) n) as [Hv|]; [|by eexists].
  assert (n <= 4) as Hn4.
  { apply orb_false_iff in H56 as [Ha%Z.eqb_neq Hb'%Z.eqb_neq]. revert Ha Hb'. unfold n.
    rewrite mb_num_chars_range by done. bool_cases. }
  pose proof (conts_le (Z.to_nat n) p') as Hle. fold k in Hle.
  assert (length (take k p') = k) as Hcs by (rewrite length_take; lia).
  assert (c :: p' = c :: take k p' ++ drop k p') as Hsplit by (by rewrite take_drop).
  assert (Forall is_cont (take k p')) as Hcont by apply conts_take.
  assert (n = Z.of_nat (S (length (take k p')))) as Hlen by lia.
  destruct (checks_some c (take k p') (drop k p')) as (l & Hl); [done|done|lia|done|].
  exists l. rewrite <- Hsplit, <- Hlen in Hl. split; [done|]. intros ->. split; [done|].
  destruct (checks_enc c (take k p') (drop k p')) as (cp & Hcp & Hge & He); [done|done|lia|done| |].
  { by rewrite <- Hsplit, <- Hlen. }
  exists cp. split; [done|]. split; [by rewrite He|]. split; [done|]. cbn [drop].
  split; [by rewrite He|]. right. apply conts_stop. fold k. lia.
Qed.

(** A call on a byte that is not an ASCII character. *)
Lemma validate_ok c p' b t :
  byte c -> ~ (1 <= c <= 0x7F) -> holds b t -> Z.of_nat (length t) < MAXLEN ->
  let p := c :: p' in
  exists v out b', _validate_utf8 p (Z.of_nat (length p)) b = Some (Z.of_nat v, drop v p, b') /\
    (0 < v <= length p)%nat /\ validated p v out /\ (length out <= v)%nat /\ holds b' (t ++ out).
Proof.
  intros Hb Hc Hh Ht p. unfold _validate_utf8. change (p !! 0%nat) with (Some c).
  cbn [mbind option_bind]. rewrite Z.geb_leb.
  assert ((1 <=? c) && (c <=? 127) = false) as ->.
  { apply andb_false_iff. rewrite !Z.leb_gt. lia. }
  rewrite Z.gtb_ltb. destruct (buf_putchar_ok b t 63 Hh Ht) as (bq & Hput & Hq).
  destruct (Z.ltb_spec 1 (mb_num_chars c)) as [Hn|Hn].
  - change 1 with (Z.of_nat 1) at 1. rewrite count_cont_spec by (simpl; lia).
    cbn [mbind option_bind]. change (drop 1 p) with p'. cbn [Nat.add].
    set (v := S (conts (Z.to_nat (mb_num_chars c)) p')).
    pose proof (conts_le (Z.to_nat (mb_num_chars c)) p') as Hle.
    destruct (legal_test_sound c p' Hb Hn) as (l & Hl & Hsound). fold v in Hsound.
    change (if (mb_num_chars c =? 6) || (mb_num_chars c =? 5) then _ else _) with (legal_test c p').
    rewrite Hl. cbn [mbind option_bind]. rewrite Nat2Z.id. exists v. destruct l.
    + destruct (Hsound eq_refl) as (Hv & cp & Hge & Htake & Hlh).
      destruct (buf_append_ok b t p (mb_num_chars c) Hh Ht) as (b' & Happ & Hh').
      { unfold p. cbn [length]. lia. }
      { rewrite mb_num_chars_range by done. bool_cases. }
      rewrite Happ. rewrite <- Hv, Nat2Z.id in Hh'. unfold p in Hh'. rewrite Htake in Hh'.
      eexists _, _. split; [done|]. split; [unfold v, p; simpl; lia|].
      split; [by apply validated_legal|]. split; [|done].
      rewrite <- Htake, length_take. lia.
    + rewrite Hput. exists [63], bq. split; [done|]. split; [unfold v, p; simpl; lia|].
      split; [|split; [simpl; unfold v; lia|done]].
      apply validated_illegal; [|unfold v, p; cbn [take drop]; apply conts_take].
      intros cp rest Hlh%legal_test_complete; [|done]. congruence.
  - rewrite Hput. exists 1%nat, [63], bq. split; [done|]. split; [unfold p; simpl; lia|].
    split; [|split; [simpl; lia|done]]. apply validated_illegal; [|unfold p; simpl; constructor].
    intros cp rest Hlh. destruct (legal_head_num _ _ _ _ Hlh Hc) as (cs & _ & _ & _ & _ & Hnum & Hl & _).
    lia.
Qed.
