(* ===== verification/TemplateProps.v ===== *)
(** * Text output of the LuCI templates: theorems

    What [utf8], [pcdata], [striptags] and [luastr_escape] produce, for every
    input: text in which rejected sequences are replaced, escaped so that a reader of XML
    character data or of a Lua string literal gets the text back. *)
From stdpp Require Import options.
From S2P Require Import Prelude CLib Lmo TemplateUtils TemplateUtf8.

(** The string a C caller sees in a returned block. *)
Definition text_block (d : list (option Z)) (out : list Z) : Prop :=
  exists rest, d = map Some out ++ Some 0 :: rest.

Lemma holds_text b t : holds b t -> text_block (buf_destroy b) t.
Proof. by intros (_ & _ & _ & Hd). Qed.

Lemma s32_small n : 0 <= n -> s32 n < 2 ^ 32.
Proof.
  intros Hn. unfold s32, signed. pose proof (Z.mod_pos_bound n (2 ^ 32)). unfold wrap. case_match; lia.
Qed.

(** ** UTF-8 *)

(** Well-formed UTF-8 without NUL, U+FFFE and U+FFFF, and text the validator accepts. *)
Definition valid_text (s : list Z) : Prop :=
  exists cps, Forall codepoint cps /\ s = concat (map utf8_enc cps).
Definition accepted_text (s : list Z) : Prop :=
  exists cps, Forall accepted cps /\ s = concat (map utf8_enc cps).

Lemma valid_accepted s : valid_text s -> accepted_text s.
Proof.
  intros (cps & Hcps & ->). exists cps. split; [|done]. eapply Forall_impl; [exact Hcps|].
  by intros c [? _]%codepoint_accepted.
Qed.

Lemma valid_app cp out : codepoint cp -> valid_text out -> valid_text (utf8_enc cp ++ out).
Proof. intros Hc (cps & Hcps & ->). exists (cp :: cps). by split; [constructor|]. Qed.

(** [out] is the text of [p] with every sequence that is not accepted replaced. *)
Inductive sanitized : list Z -> list Z -> Prop :=
| san_nil : sanitized [] []
| san_ascii c p out : 1 <= c <= 0x7F -> sanitized p out -> sanitized (c :: p) (c :: out)
| san_multi c p v u out : ~ (1 <= c <= 0x7F) -> validated (c :: p) v u ->
    sanitized (drop v (c :: p)) out -> sanitized (c :: p) (u ++ out).

Lemma valid_cons cp out : accepted cp -> accepted_text out -> accepted_text (utf8_enc cp ++ out).
Proof. intros Hc (cps & Hcps & ->). exists (cp :: cps). by split; [constructor|]. Qed.

Lemma ascii_enc c : c <= 0x7F -> utf8_enc c = [c].
Proof. intros Hc. unfold utf8_enc. by rewrite (proj2 (Z.ltb_lt _ _)) by lia. Qed.

Lemma ascii_accepted c : 1 <= c <= 0x7F -> accepted c.
Proof. unfold accepted. lia. Qed.

Lemma validated_enc p v u : validated p v u -> exists cp, accepted cp /\ u = utf8_enc cp.
Proof.
  intros [cp (Hcp & _) _ _|_ _]; [eauto|]. exists 63. split; [apply ascii_accepted; lia|done].
Qed.

Lemma sanitized_valid p out : sanitized p out -> accepted_text out.
Proof.
  induction 1 as [|c p out Hc _ IH|c p v u out _ Hv _ IH].
  - by exists [].
  - change (c :: out) with ([c] ++ out). rewrite <- ascii_enc by lia.
    apply valid_cons; [by apply ascii_accepted|done].
  - destruct (validated_enc _ _ _ Hv) as (cp & Hcp & ->). by apply valid_cons.
Qed.

(** Without encodings above the code points, what is put out is well-formed. *)
Lemma validated_codepoint p v u : validated p v u -> no_high p -> exists cp, codepoint cp /\ u = utf8_enc cp.
Proof.
  intros [cp (Hcp & _) _ Ht|_ _] Hn; [|exists 63; split; [unfold codepoint; lia|done]].
  exists cp. split; [|done]. apply codepoint_accepted. split; [done|].
  apply (Hn [] cp (drop v p)); [|done]. by rewrite <- Ht, app_nil_l, take_drop.
Qed.

Lemma sanitized_wf p out : sanitized p out -> no_high p -> valid_text out.
Proof.
  induction 1 as [|c p out Hc _ IH|c p v u out _ Hv _ IH]; intros Hn.
  - by exists [].
  - change (c :: out) with ([c] ++ out). rewrite <- ascii_enc by lia.
    apply valid_app; [unfold codepoint; lia|]. by apply IH, (no_high_suffix [c]).
  - destruct (validated_codepoint _ _ _ Hv Hn) as (cp & Hcp & ->). apply valid_app; [done|].
    by apply IH, no_high_drop.
Qed.

Lemma enc_head cp : accepted cp -> exists c cs, utf8_enc cp = c :: cs /\ ~ is_cont c.
Proof.
  intros Hcp. destruct (Z.lt_ge_cases cp 0x80).
  - exists cp, []. rewrite ascii_enc by lia. split; [done|].
    unfold is_cont. rewrite mb_is_cont_spec. lia.
  - destruct (enc_checks cp [] Hcp) as (c & cs & He & Hr & _); [done|]. exists c, cs.
    split; [done|]. unfold is_cont. rewrite mb_is_cont_spec. lia.
Qed.

Lemma valid_no_cont s : accepted_text s -> ~ cont_head s.
Proof.
  intros ([|cp cps] & Hcps & ->) (c & q & Hq & Hc); [done|].
  inversion Hcps; subst. destruct (enc_head cp) as (c' & cs & He & Hn); [done|].
  simpl in Hq. rewrite He in Hq. by simplify_eq/=.
Qed.

(** At most one legal sequence starts at a position. *)
Lemma legal_head_unique p cp rest cp' rest' :
  legal_head p cp rest -> legal_head p cp' rest' -> utf8_enc cp = utf8_enc cp' /\ rest = rest'.
Proof.
  intros H H'. pose proof H as (Hcp & Hp & _). pose proof H' as (Hcp' & Hp' & _).
  destruct (enc_head cp Hcp) as (c & cs0 & He & _). rewrite He in Hp. simpl in Hp. subst p.
  destruct (decide (1 <= c <= 0x7F)) as [Hc|Hc].
  - assert (forall x r, accepted x -> c :: cs0 ++ rest = utf8_enc x ++ r -> utf8_enc x = [c]) as Hone.
    { intros x r Hx Heq. destruct (Z.lt_ge_cases x 0x80).
      - rewrite ascii_enc in * by lia. by simplify_eq/=.
      - destruct (enc_checks x [] Hx) as (c0 & cs & Hx' & Hr & _); [done|].
        rewrite Hx' in Heq. simplify_eq/=. lia. }
    pose proof (Hone cp rest Hcp ltac:(by rewrite He)) as H1.
    pose proof (Hone cp' rest' Hcp' Hp') as H2. rewrite H2 in Hp'. rewrite H1 in He.
    injection He as <-. injection Hp' as <-. by rewrite H1, H2.
  - destruct (legal_head_num _ _ _ _ H Hc) as (cs & Hcs & He1 & _ & _ & Hn & _).
    destruct (legal_head_num _ _ _ _ H' Hc) as (cs' & Hcs' & He2 & _ & _ & Hn' & _).
    rewrite Hcs in Hcs'. apply app_inj_1 in Hcs' as [-> ->]; [|lia]. by rewrite He1, He2.
Qed.

Lemma valid_tail_ascii c p : c <= 0x7F -> accepted_text (c :: p) -> accepted_text p.
Proof.
  intros Hc ([|cp cps] & Hcps & Hp); [done|]. inversion Hcps; subst. exists cps. split; [done|].
  cbn [map concat] in Hp. destruct (Z.lt_ge_cases cp 0x80).
  - rewrite ascii_enc in Hp by lia. by simplify_eq/=.
  - destruct (enc_checks cp [] ltac:(done)) as (c0 & cs0 & He' & Hr & _); [done|].
    rewrite He' in Hp. simplify_eq/=. lia.
Qed.

(** A sequence of an accepted text is found and copied. *)
Lemma valid_multi p v u :
  validated p v u -> accepted_text p -> p <> [] -> p = u ++ drop v p /\ accepted_text (drop v p).
Proof.
  intros Hv ([|cp cps] & Hcps & Hp) Hne; [done|]. inversion Hcps; subst p. cbn [map concat] in *.
  set (p := utf8_enc cp ++ concat (map utf8_enc cps)) in *.
  assert (legal_head p cp (concat (map utf8_enc cps))) as Hlh.
  { split; [done|]. split; [done|]. right. apply valid_no_cont. by exists cps. }
  destruct Hv as [cp' Hlh' Hge Htake|Hill _]; [|by destruct (Hill _ _ Hlh)].
  destruct (legal_head_unique _ _ _ _ _ Hlh Hlh') as [He Hr].
  split; [by rewrite <- Htake, take_drop|]. rewrite <- Hr. by exists cps.
Qed.

Lemma sanitized_id p out : sanitized p out -> accepted_text p -> out = p.
Proof.
  induction 1 as [|c p out Hc _ IH|c p v u out Hc Hv _ IH]; intros Hval; [done| |].
  - f_equal. apply IH. eapply valid_tail_ascii; [|done]. lia.
  - destruct (valid_multi _ _ _ Hv Hval) as [Hp Hd]; [done|]. by rewrite (IH Hd), <- Hp.
Qed.

Lemma utf8_loop_ok fuel : forall p o l b t,
  (length p <= fuel)%nat -> l - o = Z.of_nat (length p) -> Forall byte p -> holds b t ->
  Z.of_nat (length t) + Z.of_nat (length p) < MAXLEN ->
  exists b' out, utf8_loop fuel o l p b = Some b' /\ holds b' (t ++ out) /\ sanitized p out.
Proof.
  induction fuel as [|f IH]; intros p o l b t Hf Hl Hp Hh Hm.
  { destruct p; [|simpl in Hf; lia]. simpl in Hl. exists b, []. cbn [utf8_loop].
    rewrite (proj2 (Z.ltb_ge _ _)) by lia. rewrite app_nil_r. by split_and!; [..|constructor]. }
  cbn [utf8_loop]. destruct p as [|c p].
  { simpl in Hl. exists b, []. rewrite (proj2 (Z.ltb_ge _ _)) by lia. rewrite app_nil_r.
    by split_and!; [..|constructor]. }
  rewrite (proj2 (Z.ltb_lt _ _)) by (simpl in Hl; lia). change ((c :: p) !! 0%nat) with (Some c).
  cbn [mbind option_bind]. rewrite Z.geb_leb. inversion Hp as [|? ? Hc Hp']; subst.
  cbn [length] in *.
  destruct ((1 <=? c) && (c <=? 127)) eqn:Hasc.
  - apply andb_prop in Hasc as [H1%Z.leb_le H2%Z.leb_le].
    destruct (buf_putchar_ok b t c Hh ltac:(lia)) as (b1 & -> & Hh1). cbn [mbind option_bind].
    change (drop 1 (c :: p)) with p.
    destruct (IH p (o + 1) l b1 (t ++ [c])) as (b' & out & -> & Hh' & Hs);
      [lia|lia|done|done|rewrite length_app; simpl; lia|].
    exists b', (c :: out). rewrite <- app_assoc in Hh'. by split_and!; [..|constructor].
  - assert (~ (1 <= c <= 127)) as Hna.
    { intros [??]. apply andb_false_iff in Hasc as [?%Z.leb_gt|?%Z.leb_gt]; lia. }
    destruct (validate_ok c p b t Hc Hna Hh ltac:(lia)) as (v & u & b1 & Hv & Hvl & Hval & Hul & Hh1).
    replace (l - o) with (Z.of_nat (length (c :: p))) by (simpl; lia). rewrite Hv.
    cbn [mbind option_bind]. rewrite (proj2 (Z.eqb_neq _ _)) by lia. cbn [length] in Hvl.
    destruct (IH (drop v (c :: p)) (o + (Z.of_nat v - 1) + 1) l b1 (t ++ u)) as (b' & out & -> & Hh' & Hs);
      [rewrite length_drop; simpl; lia|rewrite length_drop; simpl; lia|by apply Forall_drop|done
      |rewrite length_app, length_drop; simpl; lia|].
    exists b', (u ++ out). rewrite <- app_assoc in Hh'. split_and!; [done|done|by econstructor].
Qed.

Lemma valid_no_nul s : accepted_text s -> no_nul s.
Proof.
  intros (cps & Hcps & ->). induction Hcps as [|cp cps Hcp _ IH]; [constructor|].
  apply Forall_app. split; [|exact IH]. destruct (Z.lt_ge_cases cp 0x80).
  - rewrite ascii_enc by lia. constructor; [destruct Hcp; lia|constructor].
  - destruct (enc_checks cp [] Hcp) as (c & cs & -> & Hr & Hcs & _); [done|]. constructor; [lia|].
    eapply Forall_impl; [exact Hcs|]. intros x Hx%mb_is_cont_spec. lia.
Qed.


Definition demo_text : list Z := [0x61; 0xC3; 0xA4; 0xC3; 0x28].


(** Sequences above U+10FFFF, here the encodings of 0x110000 and 0x1FFFFF, pass unchanged
    although they are no UTF-8. *)
Example high_sequences_pass :
  take 9 <$> utf8 [0xF4; 0x90; 0x80; 0x80; 0xF7; 0xBF; 0xBF; 0xBF] =
    Some (map Some [0xF4; 0x90; 0x80; 0x80; 0xF7; 0xBF; 0xBF; 0xBF; 0]) /\
  ~ valid_text [0xF4; 0x90; 0x80; 0x80].
Proof.
  split; [vm_compute; reflexivity|]. intros ([|cp cps] & Hcps & Hs); [done|].
  inversion Hcps as [|? ? (Hr & _) _]; subst. cbn [map concat] in Hs. unfold utf8_enc in Hs.
  repeat case_match; b2p; cbn [app] in Hs; injection Hs; intros; try lia;
    Z.to_euclidean_division_equations; lia.
Qed.

(** ** XML character data *)

(** Ampersand, quote, apostrophe, less-than and greater-than. *)
Definition markup (c : Z) : bool := bool_decide (c ∈ [38; 34; 39; 60; 62]).

(** The control characters, except tab, newline and carriage return. *)
Definition forbidden (c : Z) : bool :=
  bool_decide ((0 <= c < 32 /\ c ∉ [9; 10; 13]) \/ c = 127).

Lemma xml_special_markup c : xml_special c = markup c.
Proof.
  apply Bool.eq_iff_eq_true. unfold xml_special, markup.
  rewrite bool_decide_eq_true, !elem_of_cons, elem_of_nil, !orb_true_iff, !Z.eqb_eq. tauto.
Qed.

Lemma xml_invalid_forbidden c : xml_invalid c = forbidden c.
Proof.
  apply Bool.eq_iff_eq_true. unfold xml_invalid, forbidden.
  rewrite bool_decide_eq_true, !not_elem_of_cons, !Z.geb_leb, !orb_true_iff, !andb_true_iff, !Z.leb_le,
    !Z.eqb_eq. pose proof (not_elem_of_nil c). intuition lia.
Qed.

(** A reader of character data: decimal character references, and no raw
    markup character. *)
Inductive xml_state := Plain | Amp | Num (n : option Z).

Fixpoint xml_decode (st : xml_state) (s : list Z) : option (list Z) :=
  match s with
  | [] => match st with Plain => Some [] | _ => None end
  | c :: s' =>
      match st with
      | Plain =>
          if c =? 38 then xml_decode Amp s'
          else if markup c then None
          else cons c <$> xml_decode Plain s'
      | Amp => if c =? 35 then xml_decode (Num None) s' else None
      | Num n =>
          if isdigit c
          then xml_decode (Num (Some (10 * default 0 n + (c - 48)))) s'
          else if c =? 59
          then match n with Some v => cons v <$> xml_decode Plain s' | None => None end
          else None
      end
  end.

Lemma markup_cases c : markup c = true -> c ∈ [38; 39; 34; 60; 62].
Proof.
  unfold markup. rewrite bool_decide_eq_true, !elem_of_cons. tauto.
Qed.

Lemma esq_spec c : markup c = true ->
  length (esq c) = 5%nat /\ forall s, xml_decode Plain (esq c ++ s) = cons c <$> xml_decode Plain s.
Proof.
  intros Hc%markup_cases. rewrite !elem_of_cons, elem_of_nil in Hc.
  destruct Hc as [->|[->|[->|[->|[->|[]]]]]]; done.
Qed.

Lemma xml_plain c s : markup c = false ->
  xml_decode Plain (c :: s) = cons c <$> xml_decode Plain s.
Proof.
  intros Hc. cbn [xml_decode]. rewrite Hc. destruct (Z.eqb_spec c 38) as [->|]; [done|done].
Qed.

Lemma xml_plains u s : Forall (fun c => markup c = false) u ->
  xml_decode Plain (u ++ s) = app u <$> xml_decode Plain s.
Proof.
  induction 1 as [|c u Hc _ IH]; cbn [app]; [by destruct (xml_decode _ _)|].
  rewrite xml_plain, IH by done. by destruct (xml_decode Plain s).
Qed.

Lemma validated_plain p v u : validated p v u -> Forall (fun c => markup c = false) u.
Proof.
  intros [cp (Hcp & _) Hge _|_ _]; [|by repeat constructor].
  destruct (enc_checks cp [] Hcp Hge) as (c & cs & -> & Hr & Hcs & _).
  assert (forall x, 0x80 <= x -> markup x = false) as Hx.
  { intros x Hx. apply bool_decide_eq_false_2. rewrite !elem_of_cons, elem_of_nil. lia. }
  constructor; [apply Hx; lia|]. eapply Forall_impl; [exact Hcs|].
  intros x H%mb_is_cont_spec. apply Hx. lia.
Qed.

(** [txt] is the sanitised text of [p] without the characters XML forbids. *)
Inductive pc_text : list Z -> list Z -> Prop :=
| pct_nil : pc_text [] []
| pct_drop c p txt : forbidden c = true -> pc_text p txt -> pc_text (c :: p) txt
| pct_ascii c p txt : forbidden c = false -> c <= 0x7F -> pc_text p txt ->
    pc_text (c :: p) (c :: txt)
| pct_multi c p v u txt : 0x80 <= c -> validated (c :: p) v u ->
    pc_text (drop v (c :: p)) txt -> pc_text (c :: p) (u ++ txt).

(** [out] represents [txt]. *)
Definition represents (out txt : list Z) : Prop := xml_decode Plain out = Some txt.

Lemma represents_special c out txt :
  markup c = true -> represents out txt -> represents (esq c ++ out) (c :: txt).
Proof. intros Hc H. unfold represents. by rewrite (proj2 (esq_spec c Hc)), H. Qed.

Lemma represents_plain u out txt :
  Forall (fun c => markup c = false) u -> represents out txt -> represents (u ++ out) (u ++ txt).
Proof. intros Hu H. unfold represents in *. by rewrite xml_plains, H. Qed.

Lemma append_esq b t c : markup c = true -> holds b t -> Z.of_nat (length t) < MAXLEN ->
  exists b', buf_append b (esq c) (Z.of_nat (length (esq c))) = Some (true, b') /\
    holds b' (t ++ esq c).
Proof. intros Hc Hh Ht. destruct (esq_spec c Hc) as [Hl _]. apply append_all; [done|done|lia]. Qed.

Ltac loop_step :=
  match goal with
  | |- context [@mbind option _ _ _ _ (Some _)] => cbn [mbind option_bind]
  end.

Lemma pcdata_loop_ok fuel : forall p o l b t,
  (length p <= fuel)%nat -> l - o = Z.of_nat (length p) -> Forall byte p -> holds b t ->
  Z.of_nat (length t) + 5 * Z.of_nat (length p) < MAXLEN ->
  exists b' out txt, pcdata_loop fuel o l p b = Some b' /\ holds b' (t ++ out) /\
    represents out txt /\ pc_text p txt.
Proof.
  induction fuel as [|f IH]; intros p o l b t Hf Hl Hp Hh Hm.
  { destruct p; [|simpl in Hf; lia]. simpl in Hl. exists b, [], []. cbn [pcdata_loop].
    rewrite (proj2 (Z.ltb_ge _ _)) by lia. rewrite app_nil_r. by split_and!; [..|constructor]. }
  cbn [pcdata_loop]. destruct p as [|c p].
  { simpl in Hl. exists b, [], []. rewrite (proj2 (Z.ltb_ge _ _)) by lia. rewrite app_nil_r.
    by split_and!; [..|constructor]. }
  rewrite (proj2 (Z.ltb_lt _ _)) by (simpl in Hl; lia). change ((c :: p) !! 0%nat) with (Some c).
  loop_step. inversion Hp as [|? ? Hc Hp']; subst. cbn [length] in *.
  change (drop 1 (c :: p)) with p. rewrite xml_invalid_forbidden, xml_special_markup.
  destruct (forbidden c) eqn:Hinv; [|destruct (markup c) eqn:Hsp; [|destruct (Z.leb_spec c 127)]].
  - destruct (IH p (o + 1) l b t) as (b' & out & txt & -> & Hh' & Hr & Ht); [lia|lia|done|done|lia|].
    exists b', out, txt. split_and!; [done|done|done|by constructor].
  - destruct (append_esq b t c Hsp Hh ltac:(lia)) as (b1 & -> & Hh1). loop_step.
    destruct (IH p (o + 1) l b1 (t ++ esq c)) as (b' & out & txt & -> & Hh' & Hr & Ht);
      [lia|lia|done|done|rewrite length_app, (proj1 (esq_spec c Hsp)); lia|].
    exists b', (esq c ++ out), (c :: txt). rewrite <- app_assoc in Hh'.
    split_and!; [done|done|by apply represents_special|constructor; [done| |done]].
    apply markup_cases in Hsp. rewrite !elem_of_cons, elem_of_nil in Hsp. lia.
  - destruct (buf_putchar_ok b t c Hh ltac:(lia)) as (b1 & -> & Hh1). loop_step.
    destruct (IH p (o + 1) l b1 (t ++ [c])) as (b' & out & txt & -> & Hh' & Hr & Ht);
      [lia|lia|done|done|rewrite length_app; simpl; lia|].
    exists b', ([c] ++ out), ([c] ++ txt). rewrite <- app_assoc in Hh'.
    split_and!; [done|done|apply represents_plain; [by constructor|done]|by constructor].
  - destruct (validate_ok c p b t Hc ltac:(lia) Hh ltac:(lia)) as (v & u & b1 & Hv & Hvl & Hval & Hul & Hh1).
    replace (l - o) with (Z.of_nat (length (c :: p))) by (simpl; lia). rewrite Hv. loop_step.
    rewrite (proj2 (Z.eqb_neq _ _)) by lia. cbn [length] in Hvl.
    destruct (IH (drop v (c :: p)) (o + (Z.of_nat v - 1) + 1) l b1 (t ++ u))
      as (b' & out & txt & -> & Hh' & Hr & Ht);
      [rewrite length_drop; simpl; lia|rewrite length_drop; simpl; lia|by apply Forall_drop|done
      |rewrite length_app, length_drop; simpl; lia|].
    exists b', (u ++ out), (u ++ txt). rewrite <- app_assoc in Hh'.
    split_and!; [done|done|apply represents_plain; [by eapply validated_plain|done]|].
    econstructor; [lia|done|done].
Qed.

Lemma xml_valid_high x : 0x80 <= x -> forbidden x = false.
Proof.
  intros Hx. apply bool_decide_eq_false_2. lia.
Qed.

Lemma validated_xml_valid p v u : validated p v u -> Forall (fun c => forbidden c = false) u.
Proof.
  intros [cp (Hcp & _) Hge _|_ _]; [|by repeat constructor].
  destruct (enc_checks cp [] Hcp Hge) as (c0 & cs & -> & Hr & Hcs & _).
  constructor; [apply xml_valid_high; lia|]. eapply Forall_impl; [exact Hcs|].
  intros x Hc%mb_is_cont_spec. apply xml_valid_high. lia.
Qed.

Lemma filter_Forall {A} (P : A -> Prop) `{!forall x, Decision (P x)} l : Forall P l -> filter P l = l.
Proof. induction 1; [done|]. by rewrite filter_cons_True, IHForall. Qed.

Lemma pc_text_valid p txt : Forall byte p -> pc_text p txt ->
  accepted_text txt /\ Forall (fun c => forbidden c = false) txt.
Proof.
  intros Hp H. revert Hp.
  induction H as [|c p txt Hc _ IH|c p txt Hi Hc _ IH|c p v u txt Hc Hv _ IH]; intros Hp.
  - split; [by exists []|constructor].
  - inversion Hp; auto.
  - inversion Hp as [|? ? Hb Hp']; subst. destruct (IH Hp') as [Hvt Hf]. split; [|by constructor].
    change (c :: txt) with ([c] ++ txt). rewrite <- ascii_enc by lia. apply valid_cons; [|done].
    apply ascii_accepted. split; [|done]. destruct (decide (c = 0)) as [->|]; [done|].
    unfold byte in Hb. lia.
  - destruct (IH (Forall_drop _ _ _ Hp)) as [Hvt Hf].
    destruct (validated_enc _ _ _ Hv) as (cp & Hcp & Hu). split; [rewrite Hu; by apply valid_cons|].
    apply Forall_app. split; [by eapply validated_xml_valid|done].
Qed.

Lemma pc_text_wf p txt : Forall byte p -> pc_text p txt -> no_high p -> valid_text txt.
Proof.
  intros Hp H. revert Hp.
  induction H as [|c p txt Hc _ IH|c p txt Hi Hc _ IH|c p v u txt Hc Hv _ IH]; intros Hp Hn.
  - by exists [].
  - inversion Hp; subst. by apply IH, (no_high_suffix [c]).
  - inversion Hp as [|? ? Hb Hp']; subst. change (c :: txt) with ([c] ++ txt). rewrite <- ascii_enc by lia.
    apply valid_app; [|by apply IH, (no_high_suffix [c])].
    destruct (decide (c = 0)) as [->|]; [done|]. unfold byte in Hb. unfold codepoint. lia.
  - destruct (validated_codepoint _ _ _ Hv Hn) as (cp & Hcp & ->). apply valid_app; [done|].
    apply IH; [by apply Forall_drop|by apply no_high_drop].
Qed.

Lemma forbidden_ascii c : forbidden c = true -> c <= 0x7F.
Proof.
  intros Hc. destruct (Z.le_gt_cases c 0x7F) as [|Hgt]; [done|].
  rewrite xml_valid_high in Hc by lia. done.
Qed.

Lemma pc_text_filter p txt : pc_text p txt -> accepted_text p ->
  txt = filter (fun c => forbidden c = false) p.
Proof.
  induction 1 as [|c p txt Hc _ IH|c p txt Hi Hc _ IH|c p v u txt Hc Hv _ IH]; intros Hval; [done|..].
  - rewrite filter_cons_False by (by rewrite Hc). apply IH.
    eapply valid_tail_ascii; [by apply forbidden_ascii|done].
  - rewrite filter_cons_True by done. f_equal. apply IH. by eapply valid_tail_ascii.
  - destruct (valid_multi _ _ _ Hv Hval) as [Hp Hd]; [done|]. rewrite Hp, filter_app, <- IH by done.
    f_equal. symmetry. by eapply filter_Forall, validated_xml_valid.
Qed.

(** C23: pcdata is safe for every byte string shorter than 2^28 bytes: the result is inside the buffer, contains
    the characters ampersand, quote, apostrophe, less-than and greater-than only as
    character references, and a reader of XML character data decodes it to a text
    without the control characters XML forbids, in which the sequences that the byte tests of
    [_validate_utf8] reject have become '?'.  These tests pass encodings of numbers above
    U+10FFFF: when the input has none of them ([no_high]), the decoded text is well-formed
    UTF-8.  For a well-formed input free of NUL, U+FFFE and U+FFFF ([valid_text]), and more
    generally one of accepted sequences only, it is the input without the forbidden
    characters. *)
Theorem pcdata_correct s :
  Forall byte s -> Z.of_nat (length s) < 2 ^ 28 ->
  exists d out txt, pcdata s = Some d /\ text_block d out /\ xml_decode Plain out = Some txt /\
    pc_text s txt /\ accepted_text txt /\ Forall (fun c => forbidden c = false) txt /\
    (no_high s -> valid_text txt) /\
    (valid_text s \/ accepted_text s -> txt = filter (fun c => forbidden c = false) s).
Proof.
  intros Hs Hl. unfold pcdata.
  destruct (buf_init_ok (s32 (Z.of_nat (length s)))) as (b & -> & Hb); [apply s32_small; lia|].
  loop_step.
  destruct (pcdata_loop_ok (length s) s 0 (Z.of_nat (length s)) b [])
    as (b' & out & txt & -> & Hh & Hr & Ht); [lia|lia|done|done|unfold MAXLEN; simpl; lia|].
  exists (buf_destroy b'), out, txt. destruct (pc_text_valid _ _ Hs Ht) as [Hv Hf].
  split_and!; [done|by apply holds_text|done|done|done|done|by apply pc_text_wf|].
  intros [H%valid_accepted|H]; by apply pc_text_filter.
Qed.

Definition demo_data : list Z := str "<b>" ++ [7; 0xE2; 0x82; 0xAC].

Lemma pcdata_correct_witness :
  no_high demo_data /\ exists d out txt, pcdata demo_data = Some d /\ text_block d out /\
    xml_decode Plain out = Some txt /\ pc_text demo_data txt /\
    accepted_text txt /\ Forall (fun c => forbidden c = false) txt /\
    (no_high demo_data -> valid_text txt) /\
    (valid_text demo_data \/ accepted_text demo_data -> txt = filter (fun c => forbidden c = false) demo_data).
Proof.
  split; [apply no_high_bytes; unfold demo_data; repeat constructor; lia|]. apply (pcdata_correct demo_data).
  - unfold byte, demo_data. repeat constructor; lia.
  - simpl. lia.
Defined.

(** ** Removal of markup *)

Definition xml_out (c : Z) : list Z := if markup c then esq c else [c].
Definition xml_escape (txt : list Z) : list Z := concat (map xml_out txt).

Lemma xml_escape_represents txt : represents (xml_escape txt) txt.
Proof.
  induction txt as [|c txt IH]; [done|].
  change (xml_escape (c :: txt)) with (xml_out c ++ xml_escape txt).
  unfold xml_out. destruct (markup c) eqn:Hc; [by apply represents_special|].
  by apply (represents_plain [c]); [constructor|].
Qed.

Lemma put_xml_out b t c : holds b t -> Z.of_nat (length t) < MAXLEN ->
  exists b', (if markup c then buf_append b (esq c) (Z.of_nat (length (esq c)))
              else buf_putchar b c) = Some (true, b') /\ holds b' (t ++ xml_out c).
Proof.
  intros Hh Ht. unfold xml_out. destruct (markup c) eqn:Hc;
    [by apply append_esq|by apply buf_putchar_ok].
Qed.

Lemma length_xml_out c : (length (xml_out c) <= 5)%nat.
Proof.
  unfold xml_out. destruct (markup c) eqn:Hc; [by rewrite (proj1 (esq_spec c Hc))|simpl; lia].
Qed.

(** The text [striptags] keeps, before escaping. *)
Fixpoint strip_txt (fuel : nat) (prev : Z) (p : list Z) : list Z :=
  match fuel, p with
  | S f, c :: p' =>
      if starts_tag p then
        match skip_tag p with
        | Some rest => (if isspace prev then [] else [32]) ++ strip_txt f 32 rest
        | None => strip_txt f prev p'
        end
      else if isspace c then (if isspace prev then [] else [c]) ++ strip_txt f c p'
      else c :: strip_txt f c p'
  | _, _ => []
  end.

Lemma skip_tag_length p rest : skip_tag p = Some rest -> (length rest < length p)%nat.
Proof.
  induction p as [|c p IH]; simpl; [done|]. destruct (c =? 62); [intros; simplify_eq; lia|].
  intros H%IH. lia.
Qed.

Lemma space_not_special c : isspace c = true -> markup c = false.
Proof.
  unfold isspace. rewrite orb_true_iff, andb_true_iff, Z.eqb_eq, !Z.leb_le. intros Hc.
  apply bool_decide_eq_false_2. rewrite !elem_of_cons, elem_of_nil. lia.
Qed.

Lemma put_opt b t (skip : bool) c : holds b t -> Z.of_nat (length t) < MAXLEN ->
  exists r b', (if skip then Some (true, b) else buf_putchar b c) = Some (r, b') /\
    holds b' (t ++ if skip then [] else [c]).
Proof.
  intros Hh Ht. destruct skip; [eexists _, _; split; [done|by rewrite app_nil_r]|].
  destruct (buf_putchar_ok b t c Hh Ht) as (b' & -> & Hh'). eauto.
Qed.

Lemma xml_escape_app a b : xml_escape (a ++ b) = xml_escape a ++ xml_escape b.
Proof. unfold xml_escape. by rewrite map_app, concat_app. Qed.

Lemma xml_escape_opt (skip : bool) c : markup c = false ->
  xml_escape (if skip then [] else [c]) = (if skip then [] else [c]).
Proof.
  intros Hc. destruct skip; [done|]. unfold xml_escape, xml_out. cbn [map concat]. by rewrite Hc.
Qed.

Lemma striptags_loop_ok fuel : forall prev p b t,
  (length p <= fuel)%nat -> holds b t ->
  Z.of_nat (length t) + 5 * Z.of_nat (length p) < MAXLEN ->
  exists b', striptags_loop fuel prev p b = Some b' /\
    holds b' (t ++ xml_escape (strip_txt fuel prev p)).
Proof.
  induction fuel as [|f IH]; intros prev p b t Hf Hh Hm;
    (destruct p as [|c p]; [exists b; simpl; by rewrite app_nil_r|]); [simpl in Hf; lia|].
  cbn [striptags_loop strip_txt]. cbn [length] in *.
  destruct (starts_tag (c :: p)) eqn:Htag; [destruct (skip_tag (c :: p)) as [rest|] eqn:Hskip|].
  - apply skip_tag_length in Hskip. cbn [length] in Hskip.
    destruct (put_opt b t (isspace prev) 32 Hh ltac:(lia)) as (r & b1 & -> & Hh1). loop_step.
    destruct (IH 32 rest b1 _ ltac:(lia) Hh1) as (b' & -> & Hh').
    { rewrite length_app. destruct (isspace prev); simpl; lia. }
    exists b'. split; [done|]. rewrite xml_escape_app, xml_escape_opt by done.
    by rewrite app_assoc.
  - apply IH; [lia|done|lia].
  - destruct (isspace c) eqn:Hsp.
    + destruct (put_opt b t (isspace prev) c Hh ltac:(lia)) as (r & b1 & -> & Hh1). loop_step.
      destruct (IH c p b1 _ ltac:(lia) Hh1) as (b' & -> & Hh').
      { rewrite length_app. destruct (isspace prev); simpl; lia. }
      exists b'. split; [done|].
      rewrite xml_escape_app, xml_escape_opt by (by apply space_not_special). by rewrite app_assoc.
    + rewrite xml_special_markup. destruct (put_xml_out b t c Hh ltac:(lia)) as (b1 & -> & Hh1). loop_step.
      destruct (IH c p b1 _ ltac:(lia) Hh1) as (b' & -> & Hh').
      { rewrite length_app. pose proof (length_xml_out c). lia. }
      exists b'. split; [done|]. change (xml_escape (c :: ?x)) with (xml_out c ++ xml_escape x).
      by rewrite app_assoc.
Qed.

(** A document in pieces: text without ['<'], and tags. *)
Inductive segment := Text (a : list Z) | Tag (x : Z) (body : list Z).

Definition segment_ok (g : segment) : Prop :=
  match g with
  | Text a => ~ 60 ∈ a
  | Tag x body => (x = 47 \/ isalpha x = true) /\ ~ 62 ∈ body
  end.

Definition segment_bytes (g : segment) : list Z :=
  match g with Text a => a | Tag x body => 60 :: x :: body ++ [62] end.

(** White space collapsed to the first character of each run. *)
Fixpoint collapse (prev : Z) (a : list Z) : list Z :=
  match a with
  | [] => []
  | c :: a' => (if isspace c && isspace prev then [] else [c]) ++ collapse c a'
  end.

Fixpoint strip_segments (prev : Z) (gs : list segment) : list Z :=
  match gs with
  | [] => []
  | Text a :: gs' => collapse prev a ++ strip_segments (List.last a prev) gs'
  | Tag _ _ :: gs' => (if isspace prev then [] else [32]) ++ strip_segments 32 gs'
  end.

Lemma skip_tag_app body rest : ~ 62 ∈ body -> skip_tag (body ++ 62 :: rest) = Some rest.
Proof.
  induction body as [|c body IH]; intros Hn; [done|]. simpl.
  rewrite not_elem_of_cons in Hn. destruct Hn as [Hc Hn].
  rewrite (proj2 (Z.eqb_neq _ _)) by congruence. auto.
Qed.

Lemma last_cons_default (a : list Z) : forall c d, List.last (c :: a) d = List.last a c.
Proof.
  induction a as [|e a IH]; intros c d; [done|].
  change (List.last (e :: a) d = List.last (e :: a) c). by rewrite !IH.
Qed.

Lemma strip_txt_text a : forall fuel prev rest, ~ 60 ∈ a -> (length a + length rest <= fuel)%nat ->
  strip_txt fuel prev (a ++ rest) =
    collapse prev a ++ strip_txt (fuel - length a) (List.last a prev) rest.
Proof.
  induction a as [|c a IH]; intros fuel prev rest Hn Hf; [simpl; by rewrite Nat.sub_0_r|].
  destruct fuel as [|f]; [simpl in Hf; lia|]. rewrite not_elem_of_cons in Hn. destruct Hn as [Hc Hn].
  cbn [app strip_txt]. cbn [length] in *.
  assert (starts_tag (c :: a ++ rest) = false) as ->.
  { unfold starts_tag. rewrite (proj2 (Z.eqb_neq c 60)) by congruence. by destruct (a ++ rest) as [|? [|]]. }
  rewrite (IH f c rest Hn) by lia. cbn [collapse Nat.sub].
  rewrite last_cons_default.
  destruct (isspace c) eqn:Hs; [|done]. cbn [andb]. by rewrite app_assoc.
Qed.

Lemma strip_txt_segments gs : forall fuel prev, Forall segment_ok gs ->
  (length (concat (map segment_bytes gs)) <= fuel)%nat ->
  strip_txt fuel prev (concat (map segment_bytes gs)) = strip_segments prev gs.
Proof.
  induction gs as [|g gs IH]; intros fuel prev Hok Hf; [by destruct fuel|].
  inversion Hok as [|? ? Hg Hok']; subst. cbn [map concat] in *. rewrite length_app in Hf.
  destruct g as [a|x body]; cbn [segment_bytes segment_ok strip_segments] in *.
  - rewrite strip_txt_text by (done || lia). rewrite IH by (done || lia). done.
  - destruct Hg as [Hx Hn]. destruct fuel as [|f]; [simpl in Hf; lia|]. cbn [app strip_txt].
    rewrite <- app_assoc. cbn [app].
    assert (starts_tag (60 :: x :: body ++ 62 :: concat (map segment_bytes gs)) = true) as ->.
    { destruct body; simpl; destruct Hx as [->|Hx]; rewrite ?Hx, ?orb_true_r; done. }
    assert (x <> 62) as Hx62 by (intros ->; destruct Hx as [?|?]; done).
    change (60 :: x :: body ++ ?r) with ([60; x] ++ body ++ r). rewrite app_assoc.
    rewrite skip_tag_app by (rewrite elem_of_app, !elem_of_cons, elem_of_nil; naive_solver).
    rewrite IH; [done|done|]. cbn [length] in Hf. rewrite length_app in Hf. simpl in Hf. lia.
Qed.

(** Striptags is safe for every input (the result is in the buffer and
    contains markup characters only as character references), and removes the
    markup: for a document of texts and tags the result denotes the texts with
    runs of white space collapsed and a blank in place of a tag between words. *)
Theorem striptags_correct s :
  Z.of_nat (length s) < 2 ^ 28 ->
  exists d out txt, striptags s = Some d /\ text_block d out /\ xml_decode Plain out = Some txt /\
    forall gs, Forall segment_ok gs -> s = concat (map segment_bytes gs) -> txt = strip_segments 32 gs.
Proof.
  intros Hl. unfold striptags.
  destruct (buf_init_ok (s32 (Z.of_nat (length s)))) as (b & -> & Hb); [apply s32_small; lia|].
  loop_step.
  destruct (striptags_loop_ok (length s) 32 s b []) as (b' & -> & Hh);
    [lia|done|unfold MAXLEN; simpl; lia|].
  exists (buf_destroy b'), (xml_escape (strip_txt (length s) 32 s)), (strip_txt (length s) 32 s).
  split_and!; [done|by apply holds_text|apply xml_escape_represents|].
  intros gs Hok ->. by apply strip_txt_segments.
Qed.

Lemma striptags_correct_witness :
  let s := str "a  <br>c>&</b>" in
  exists d out txt, striptags s = Some d /\ text_block d out /\ xml_decode Plain out = Some txt /\
    forall gs, Forall segment_ok gs -> s = concat (map segment_bytes gs) -> txt = strip_segments 32 gs.
Proof. intros s. apply (striptags_correct s). unfold s. simpl. lia. Defined.

(** A document and the text it denotes. *)
Example strip_segments_demo :
  let gs := [Text (str "a  "); Tag 98 (str "r"); Text (str "c>&"); Tag 47 (str "b")] in
  concat (map segment_bytes gs) = str "a  <br>c>&</b>" /\ strip_segments 32 gs = str "a c>& ".
Proof. done. Qed.

(** ** Lua string literals *)

(** A reader of the rest of a literal in double quotes, after the Lua reference
    manual: a backslash, a quote and a newline inside are written with an escape
    sequence (of which these three are read), NUL and carriage return are not
    allowed raw either.  Returns the value and what follows the closing quote. *)
Fixpoint lua_string (s : list Z) : option (list Z * list Z) :=
  match s with
  | [] => None
  | c :: s' =>
      if c =? 34 then Some ([], s')
      else if c =? 92 then
        match s' with
        | e :: s'' =>
            v ← (if e =? 92 then Some 92 else if e =? 34 then Some 34
                 else if e =? 110 then Some 10 else None);
            '(t, r) ← lua_string s''; Some (v :: t, r)
        | [] => None
        end
      else if (c =? 10) || (c =? 13) || (c =? 0) then None
      else '(t, r) ← lua_string s'; Some (c :: t, r)
  end.

Definition luastr_out (escape_xml : bool) (c : Z) : list Z := default [c] (luastr_char escape_xml c).
Definition luastr_text (escape_xml : bool) (s : list Z) : list Z :=
  concat (map (luastr_out escape_xml) s).

(** The value of the literal. *)
Definition luastr_value (escape_xml : bool) (s : list Z) : list Z :=
  if escape_xml then xml_escape s else s.

Lemma luastr_char_cases x c : c ∈ [92; 34; 10; 39; 38; 60; 62] \/ luastr_char x c = None.
Proof.
  unfold luastr_char. rewrite !elem_of_cons.
  repeat match goal with |- context [?a =? ?b] => destruct (Z.eqb_spec a b) end; simpl; tauto.
Qed.

Lemma luastr_char_length x c e : luastr_char x c = Some e -> (1 <= length e <= 5)%nat.
Proof.
  destruct (luastr_char_cases x c) as [Hc| -> ]; [|done]. rewrite !elem_of_cons, elem_of_nil in Hc.
  intros He. destruct_or? Hc; try done; subst c; destruct x; vm_compute in He;
    first [discriminate He | injection He as <-; simpl; lia].
Qed.

Lemma luastr_escape_ok x s : forall b t, holds b t ->
  Z.of_nat (length t) + 5 * Z.of_nat (length s) < MAXLEN ->
  exists b', luastr_escape b s x = Some b' /\ holds b' (t ++ luastr_text x s).
Proof.
  induction s as [|c s IH]; intros b t Hh Hm; cbn [luastr_escape length] in *.
  { exists b. by rewrite app_nil_r. }
  change (luastr_text x (c :: s)) with (luastr_out x c ++ luastr_text x s). unfold luastr_out.
  destruct (luastr_char x c) as [e|] eqn:He; cbn [default].
  - apply luastr_char_length in He.
    destruct (append_all b t e Hh ltac:(lia) ltac:(lia)) as (b1 & -> & Hh1). loop_step.
    rewrite app_assoc. apply IH; [done|]. unfold id. rewrite length_app. lia.
  - destruct (buf_putchar_ok b t c Hh ltac:(lia)) as (b1 & -> & Hh1). loop_step.
    rewrite app_assoc. apply IH; [done|]. rewrite length_app. simpl. lia.
Qed.

Definition lua_safe (c : Z) : Prop := c <> 0 /\ c <> 13.

Definition lua_plain (c : Z) : bool :=
  negb ((c =? 34) || (c =? 92) || (c =? 10) || (c =? 13) || (c =? 0)).

Lemma lua_string_plain u s t r : forallb lua_plain u = true -> lua_string s = Some (t, r) ->
  lua_string (u ++ s) = Some (u ++ t, r).
Proof.
  intros Hu Hs. induction u as [|c u IH]; [done|].
  cbn [forallb] in Hu. apply andb_prop in Hu as [Hc Hu]. cbn [app lua_string].
  unfold lua_plain in Hc. apply negb_true_iff in Hc. rewrite !orb_false_iff in Hc.
  destruct Hc as ((((-> & ->) & ->) & ->) & ->). cbn [orb]. by rewrite IH.
Qed.

(** One character of the text. *)
Lemma lua_string_out x c s t r : lua_safe c -> lua_string s = Some (t, r) ->
  lua_string (luastr_out x c ++ s) = Some ((if x then xml_out c else [c]) ++ t, r).
Proof.
  intros [H0 H13] Hs. unfold luastr_out.
  assert (luastr_char x c = None /\ c <> 92 /\ c <> 34 /\ c <> 10 /\
            (x = true -> markup c = false) \/
          luastr_char x c <> None /\ (c ∈ [92; 34; 10] \/ x = true /\ c ∈ [39; 38; 60; 62])) as Hc.
  { rewrite <- xml_special_markup. unfold luastr_char, xml_special. rewrite !elem_of_cons.
    repeat match goal with |- context [?a =? ?b] => destruct (Z.eqb_spec a b) end; subst;
      destruct x; simpl; intuition congruence. }
  destruct Hc as [(-> & H92 & H34 & H10 & Hx)|[Hn Hc]].
  - cbn [default app lua_string].
    rewrite !(proj2 (Z.eqb_neq c _)) by done. cbn [orb]. rewrite Hs. cbn [mbind option_bind].
    destruct x; [|done]. unfold xml_out. by rewrite Hx.
  - rewrite !elem_of_cons, elem_of_nil in Hc. destruct Hc as [Hc|[-> Hc]]; destruct_or? Hc; try done;
      subst c; try (by apply (lua_string_plain (esq _))).
    + destruct x; cbn; by rewrite Hs.
    + destruct x; [by apply (lua_string_plain (esq 34))|cbn; by rewrite Hs].
    + destruct x; cbn; by rewrite Hs.
Qed.

(** C25: What luastr_escape writes between two double quotes is a Lua string
    literal: for every text without NUL and carriage return a reader of the
    literal ends exactly at the closing quote and gets the text back, or, with
    escape_xml, XML character data that decodes to the text.  The output is
    appended to the buffer within its bounds. *)
Theorem luastr_roundtrip b t s x rest :
  holds b t -> Forall lua_safe s -> Z.of_nat (length t) + 5 * Z.of_nat (length s) < MAXLEN ->
  exists b' out v, luastr_escape b s x = Some b' /\ holds b' (t ++ out) /\
    lua_string (out ++ 34 :: rest) = Some (v, rest) /\
    (if x then xml_decode Plain v = Some s else v = s).
Proof.
  intros Hh Hs Hm. destruct (luastr_escape_ok x s b t Hh Hm) as (b' & Hb & Hh').
  exists b', (luastr_text x s), (luastr_value x s). split_and!; [done|done| |].
  - clear -Hs. induction Hs as [|c s Hc _ IH]; [by destruct x|].
    change (luastr_text x (c :: s)) with (luastr_out x c ++ luastr_text x s). rewrite <- app_assoc.
    rewrite (lua_string_out x c _ _ _ Hc IH). by destruct x.
  - destruct x; [apply xml_escape_represents|done].
Qed.

Lemma luastr_roundtrip_witness :
  exists b0, buf_init 4 = Some b0 /\
  exists b' out v, luastr_escape b0 ([97; 34; 92; 10] ++ str "<b>") true = Some b' /\
    holds b' ([] ++ out) /\ lua_string (out ++ 34 :: [41]) = Some (v, [41]) /\
    xml_decode Plain v = Some ([97; 34; 92; 10] ++ str "<b>").
Proof.
  destruct (buf_init_ok 4) as (b0 & Hb & Hh); [lia|]. exists b0. split; [done|].
  apply (luastr_roundtrip b0 [] ([97; 34; 92; 10] ++ str "<b>") true [41]).
  - exact Hh.
  - apply (bool_decide_unpack (Forall (fun c => c <> 0 /\ c <> 13) _)). vm_compute. exact I.
  - unfold MAXLEN. simpl. lia.
Defined.
