(* ===== verification/TemplateParser.v ===== *)
(** * The LuCI template compiler: template_parser.c

    A template is text with tags between [<%] and [%>]; [template_reader] is
    called by Lua's loader and returns the Lua source of one piece after the
    other.  Positions are offsets from [data].  Reading the byte after the
    template gives [beyond]: the terminator of a string, the zero padding of a
    mapped page, or [None] when nothing is mapped there.  As in
    [TemplateUtils], an access outside the data is the result [None]. *)
From stdpp Require Import options.
From S2P Require Import Prelude CLib Lmo TemplateUtils.

Inductive chunk_type :=
| T_TYPE_INIT | T_TYPE_TEXT | T_TYPE_COMMENT | T_TYPE_EXPR | T_TYPE_INCLUDE
| T_TYPE_I18N | T_TYPE_I18N_RAW | T_TYPE_CODE | T_TYPE_EOF.
#[export] Instance chunk_type_eq_dec : EqDecision chunk_type.
Proof. solve_decision. Defined.

Record template_chunk := Chunk { c_s : Z; c_e : Z; c_type : chunk_type; c_line : Z }.

(** [gc], [fd] and [file] only serve to release memory and to report errors. *)
Record template_parser := Parser {
  pdata : list Z;
  beyond : option Z;
  off : Z;
  line : Z;
  in_expr : bool;
  strip_before : bool;
  strip_after : bool;
  prv_chunk : template_chunk;
  cur_chunk : template_chunk }.

Definition psize (p : template_parser) : Z := Z.of_nat (length (pdata p)).

(** The byte at [data + i]. *)
Definition peek (p : template_parser) (i : Z) : option Z :=
  if i =? psize p then beyond p
  else if 0 <=? i then pdata p !! Z.to_nat i else None.

(** Leading and trailing code; the quote is character 34. *)
Definition gen_code (ty : chunk_type) : option (list Z) * option (list Z) :=
  match ty with
  | T_TYPE_INIT | T_TYPE_COMMENT | T_TYPE_EOF => (None, None)
  | T_TYPE_TEXT | T_TYPE_I18N | T_TYPE_I18N_RAW => (Some (str "write(" ++ [34]), Some ([34] ++ str ")"))
  | T_TYPE_EXPR => (Some (str "write(tostring("), Some (str " or " ++ [34; 34] ++ str "))"))
  | T_TYPE_INCLUDE => (Some (str "include(" ++ [34]), Some ([34] ++ str ")"))
  | T_TYPE_CODE => (None, Some (str " "))
  end.

(** The loop over [j]: it stops at the end of the haystack. *)
Fixpoint tail_match (h needle : list Z) {struct needle} : bool :=
  match needle, h with
  | x :: n', y :: h' => if y =? x then tail_match h' n' else false
  | _, _ => true
  end.

(** The offset of the first match. *)
Fixpoint strfind (haystack needle : list Z) : option nat :=
  match haystack, needle with
  | c :: h', x :: n' =>
      if (c =? x) &&
         (bool_decide (length needle = 1%nat) || bool_decide (length needle <= length haystack)%nat) &&
         tail_match h' n'
      then Some O
      else S <$> strfind h' needle
  | _, _ => None
  end.

(** The parser on the bytes of a string or of a mapped file. *)
Definition template_string (s : list Z) (after : option Z) : template_parser :=
  Parser s after 0 0 false false false (Chunk 0 0 T_TYPE_INIT 0) (Chunk 0 0 T_TYPE_INIT 0).

Definition set_chunk (p : template_parser) (c : template_chunk) : template_parser :=
  Parser (pdata p) (beyond p) (off p) (line p) (in_expr p) (strip_before p) (strip_after p)
         (prv_chunk p) c.

(** Move [s] forward while [s <= e] and its character satisfies [f]. *)
Fixpoint skip_fwd (fuel : nat) (p : template_parser) (f : Z -> bool) (s e : Z) : option Z :=
  if s <=? e then
    match fuel with
    | O => None
    | S n => c ← peek p s; if f c then skip_fwd n p f (s + 1) e else Some s
    end
  else Some s.

(** Move [e] backward while [e >= s] and its character satisfies [f]. *)
Fixpoint skip_bwd (fuel : nat) (p : template_parser) (f : Z -> bool) (s e : Z) : option Z :=
  if e >=? s then
    match fuel with
    | O => None
    | S n => c ← peek p e; if f c then skip_bwd n p f s (e - 1) else Some e
    end
  else Some e.

Definition range_fuel (s e : Z) : nat := S (Z.to_nat (e + 1 - s)).

Definition template_text (p : template_parser) (e : Z) : option template_parser :=
  let s := off p in
  if s <? psize p then
    s ← (if strip_after p then skip_fwd (range_fuel s e) p isspace s e else Some s);
    Some (set_chunk p (Chunk s e T_TYPE_TEXT (line p)))
  else Some (set_chunk p (Chunk s e T_TYPE_EOF (line p))).

Definition blank (c : Z) : bool := (c =? 32) || (c =? 9).

(** The [switch] over the first character of the tag. *)
Definition code_type (c : Z) : chunk_type * Z :=
  if c =? 35 then (T_TYPE_COMMENT, 1)
  else if c =? 43 then (T_TYPE_INCLUDE, 1)
  else if c =? 58 then (T_TYPE_I18N, 1)
  else if c =? 95 then (T_TYPE_I18N_RAW, 1)
  else if c =? 61 then (T_TYPE_EXPR, 1)
  else (T_TYPE_CODE, 0).

Definition template_code (p : template_parser) (e : Z) : option template_parser :=
  let s := off p in
  c ← peek p s;
  let before := c =? 45 in
  s ← (if before then skip_fwd (range_fuel (s + 1) e) p blank (s + 1) e else Some s);
  c ← peek p (e - 1);
  let after := c =? 45 in
  e ← (if after then skip_bwd (range_fuel s (e - 1)) p blank s (e - 1) else Some e);
  c ← peek p s;
  let '(ty, n) := code_type c in
  Some (Parser (pdata p) (beyond p) (off p) (line p) (in_expr p) before after (prv_chunk p)
         (Chunk (s + n) e ty (line p))).

(** Move [c->e] backward over the white space before it, not beyond [c->s]. *)
Fixpoint strip_end (fuel : nat) (p : template_parser) (s e : Z) : option Z :=
  if e >? s then
    match fuel with
    | O => None
    | S n => c ← peek p (e - 1); if isspace c then strip_end n p s (e - 1) else Some e
    end
  else Some e.

(** The bytes between two pointers. *)
Definition slice (p : template_parser) (s e : Z) : option (list Z) :=
  if (0 <=? s) && (s <=? e) && (e <=? psize p)
  then Some (take (Z.to_nat (e - s)) (drop (Z.to_nat s) (pdata p))) else None.

Definition newlines (s : list Z) : Z := Z.of_nat (length (filter (fun c => c = 10) s)).

Definition set_prv (p : template_parser) (c : template_chunk) (l : Z) : template_parser :=
  Parser (pdata p) (beyond p) (off p) l (in_expr p) (strip_before p) (strip_after p) c (cur_chunk p).

Definition append_opt (b : template_buffer) (s : option (list Z)) : option template_buffer :=
  match s with
  | Some s => '(_, b) ← buf_append b s (Z.of_nat (length s)); Some b
  | None => Some b
  end.

(** The [switch] over the type: the buffer and the lines counted. *)
Definition format_body (active : option lmo_catalog) (p : template_parser) (b : template_buffer)
    (c : template_chunk) : option (template_buffer * Z) :=
  match c_type c with
  | T_TYPE_TEXT | T_TYPE_INCLUDE =>
      t ← slice p (c_s c) (c_e c); b ← luastr_escape b t false; Some (b, 0)
  | T_TYPE_EXPR | T_TYPE_CODE =>
      '(_, b) ← buf_append b (drop (Z.to_nat (c_s c)) (pdata p)) (c_e c - c_s c);
      t ← slice p (c_s c) (c_e c);
      Some (b, newlines t)
  | T_TYPE_I18N =>
      t ← slice p (c_s c) (c_e c); b ← luastr_translate active b t true; Some (b, 0)
  | T_TYPE_I18N_RAW =>
      t ← slice p (c_s c) (c_e c); b ← luastr_translate active b t false; Some (b, 0)
  | _ => Some (b, 0)
  end.

(** The first [n] bytes of a block. *)
Definition block_bytes (d : list (option Z)) (n : Z) : option (list Z) := mapM id (take (Z.to_nat n) d).

(** The Lua source of [prv_chunk]; the inner [None] is NULL. *)
Definition template_format_chunk (active : option lmo_catalog) (p : template_parser) :
    option (option (list Z) * template_parser) :=
  let c := prv_chunk p in
  e ← (if strip_before p && bool_decide (c_type c = T_TYPE_TEXT)
       then strip_end (range_fuel (c_s c) (c_e c)) p (c_s c) (c_e c) else Some (c_e c));
  let c := Chunk (c_s c) e (c_type c) (c_line c) in
  if c_s c =? c_e c then
    Some (if decide (c_type c = T_TYPE_EOF) then None else Some (str " "), set_prv p c (line p))
  else
    b ← buf_init (s32 (c_e c - c_s c));
    let '(head, tail) := gen_code (c_type c) in
    b ← append_opt b head;
    '(b, n) ← format_body active p b c;
    b ← append_opt b tail;
    t ← block_bytes (buf_destroy b) (buf_length b);
    Some (Some (if buf_length b =? 0 then str " " else t), set_prv p c (line p + n)).

Definition advance (p : template_parser) (o : Z) (inside : bool) : template_parser :=
  Parser (pdata p) (beyond p) o (line p) inside (strip_before p) (strip_after p)
         (prv_chunk p) (cur_chunk p).

(** The bytes from [off] on. *)
Definition rest_of (p : template_parser) : list Z := drop (Z.to_nat (off p)) (pdata p).

Definition template_reader (active : option lmo_catalog) (p : template_parser) :
    option (option (list Z) * template_parser) :=
  let p := set_prv p (cur_chunk p) (line p) in
  if negb (in_expr p) then
    match strfind (rest_of p) (str "<%") with
    | Some i =>
        let tag := off p + Z.of_nat i in
        p ← template_text p tag;
        template_format_chunk active (advance p (tag + 2) true)
    | None =>
        p ← template_text p (psize p);
        template_format_chunk active (advance p (psize p) (in_expr p))
    end
  else
    match strfind (rest_of p) (str "%>") with
    | Some i =>
        let tag := off p + Z.of_nat i in
        p ← template_code p tag;
        template_format_chunk active (advance p (tag + 2) false)
    | None =>
        p ← template_code p (psize p);
        Some (Some [27], p)
    end.
