(* ===== verification/TemplateParserProps.v ===== *)
(** * The LuCI template compiler: theorems

    The source the Lua loader reads from a template, piece by piece, is the
    translation of its texts and tags; the effect of the strip marks; a tag the
    compiler cannot process. *)
From stdpp Require Import options.
From S2P Require Import Prelude CLib Lmo TemplateUtils TemplateUtf8 TemplateProps.
From S2P Require Import TemplateParser.
Set Default Proof Using "Type*".

(** ** Searching and skipping *)

(** The first occurrence of a pair of different characters. *)
Lemma strfind_first x y t rest : x <> y -> strfind t [x; y] = None ->
  strfind (t ++ x :: y :: rest) [x; y] = Some (length t).
Proof.
  intros Hxy. induction t as [|c t IH]; intros Ht.
  - cbn. rewrite !Z.eqb_refl, (bool_decide_eq_true_2 (2 <= _)%nat) by lia. by rewrite orb_true_r.
  - cbn [app]. cbn [strfind] in Ht |- *.
    assert (strfind t [x; y] = None) as Ht'.
    { destruct (_ && _) in Ht; [done|]. by destruct (strfind t [x; y]). }
    rewrite (IH Ht').
    assert ((c =? x) && tail_match (t ++ x :: y :: rest) [y] = false) as Hf.
    { destruct (Z.eqb_spec c x); [|done]. destruct t as [|d t]; cbn [andb app tail_match].
      - by rewrite (proj2 (Z.eqb_neq x y)).
      - cbn [andb tail_match] in Ht. destruct (d =? y) eqn:Hd; [|done]. exfalso. revert Ht.
        rewrite (bool_decide_eq_true_2 (_ <= _)%nat) by (simpl; lia). by rewrite orb_true_r. }
    destruct (c =? x); cbn [andb] in *; [|done]. rewrite Hf, andb_false_r. done.
Qed.

Fixpoint takew (f : Z -> bool) (l : list Z) : list Z :=
  match l with c :: l' => if f c then c :: takew f l' else [] | [] => [] end.
Fixpoint dropw (f : Z -> bool) (l : list Z) : list Z :=
  match l with c :: l' => if f c then dropw f l' else l | [] => [] end.

Lemma takew_dropw f l : takew f l ++ dropw f l = l.
Proof. induction l as [|c l IH]; simpl; [done|]. destruct (f c); simpl; by rewrite ?IH. Qed.

Lemma takew_Forall f l : Forall (fun c => f c = true) (takew f l).
Proof. induction l as [|c l IH]; simpl; [constructor|]. destruct (f c) eqn:Hc; by constructor. Qed.

Lemma dropw_head f l c r : dropw f l = c :: r -> f c = false.
Proof.
  induction l as [|d l IH]; simpl; [done|]. destruct (f d) eqn:Hd; [done|]. intros ?. by simplify_eq.
Qed.

(** Text without the white space at its end. *)
Definition rstrip (l : list Z) : list Z := reverse (dropw isspace (reverse l)).

Lemma rstrip_split l : exists w, l = rstrip l ++ w /\ Forall (fun c => isspace c = true) w /\
  (rstrip l = [] \/ exists r c, rstrip l = r ++ [c] /\ isspace c = false).
Proof.
  exists (reverse (takew isspace (reverse l))). unfold rstrip. split; [|split].
  - rewrite <- reverse_app, takew_dropw. by rewrite reverse_involutive.
  - apply Forall_reverse, takew_Forall.
  - destruct (dropw isspace (reverse l)) as [|c r] eqn:Hd; [by left|]. right.
    exists (reverse r), c. split; [by rewrite reverse_cons|by eapply dropw_head].
Qed.

(** [w] is what the data holds from position [s] on. *)
Definition peeks (p : template_parser) (s : Z) (w : list Z) : Prop :=
  forall i c, w !! i = Some c -> peek p (s + Z.of_nat i) = Some c.

Lemma peeks_intro p pre w post : pdata p = pre ++ w ++ post -> peeks p (Z.of_nat (length pre)) w.
Proof.
  intros Hd i c Hi. unfold peek, psize. pose proof (lookup_lt_Some _ _ _ Hi).
  rewrite (proj2 (Z.eqb_neq _ _)) by (rewrite Hd, !length_app; lia).
  rewrite (proj2 (Z.leb_le _ _)) by lia. rewrite Hd.
  replace (Z.to_nat (Z.of_nat (length pre) + Z.of_nat i)) with (length pre + i)%nat by lia.
  rewrite lookup_app_r by lia. rewrite lookup_app_l by lia. by replace (length pre + i - length pre)%nat with i by lia.
Qed.

Lemma peeks_cons p s c w : peeks p s (c :: w) -> peek p s = Some c /\ peeks p (s + 1) w.
Proof.
  intros H. split; [specialize (H 0%nat c eq_refl); by rewrite Z.add_0_r in H|].
  intros i d Hi. specialize (H (S i) d Hi). by replace (s + 1 + Z.of_nat i) with (s + Z.of_nat (S i)) by lia.
Qed.

Lemma peeks_snoc p s w c : peeks p s (w ++ [c]) -> peek p (s + Z.of_nat (length w)) = Some c /\ peeks p s w.
Proof.
  intros H. split; [apply H; by rewrite lookup_app_r, Nat.sub_diag by lia|].
  intros i d Hi. apply H. by apply lookup_app_l_Some.
Qed.

(** Skipping stops at the first character that does not satisfy the test. *)
Lemma skip_fwd_ok p f w : forall fuel s e c, Forall (fun c => f c = true) w -> peeks p s (w ++ [c]) ->
  f c = false -> s + Z.of_nat (length w) <= e -> (length w < fuel)%nat ->
  skip_fwd fuel p f s e = Some (s + Z.of_nat (length w)).
Proof.
  induction w as [|d w IH]; intros fuel s e c Hw Hp Hc He Hf; (destruct fuel as [|n]; [simpl in Hf; lia|]);
    cbn [app] in Hp; apply peeks_cons in Hp as [Hd Hp]; cbn [skip_fwd length] in *;
    rewrite (proj2 (Z.leb_le _ _)) by lia; rewrite Hd; cbn [mbind option_bind].
  - rewrite Hc. f_equal. lia.
  - inversion Hw as [|? ? Hfd Hw']; subst. rewrite Hfd.
    rewrite (IH n (s + 1) e c) by (done || lia). f_equal. lia.
Qed.

Lemma strip_end_ok p l : forall w fuel s, Forall (fun c => isspace c = true) w -> peeks p s (l ++ w) ->
  (l = [] \/ exists r c, l = r ++ [c] /\ isspace c = false) -> (length w < fuel)%nat ->
  strip_end fuel p s (s + Z.of_nat (length (l ++ w))) = Some (s + Z.of_nat (length l)).
Proof.
  induction w as [|d w IH] using rev_ind; intros fuel s Hw Hp Hl Hf; (destruct fuel as [|n]; [simpl in Hf; lia|]);
    cbn [strip_end].
  - rewrite app_nil_r in *. destruct Hl as [->|(r & c & -> & Hc)].
    + rewrite Z.gtb_ltb, (proj2 (Z.ltb_ge _ _)) by (simpl; lia). done.
    + apply peeks_snoc in Hp as [Hp _]. rewrite length_app. cbn [length].
      rewrite Z.gtb_ltb, (proj2 (Z.ltb_lt _ _)) by lia.
      replace (s + Z.of_nat (length r + 1) - 1) with (s + Z.of_nat (length r)) by lia.
      rewrite Hp. cbn [mbind option_bind]. by rewrite Hc.
  - rewrite app_assoc in *. apply peeks_snoc in Hp as [Hd Hp]. apply Forall_app in Hw as [Hw Hd'].
    inversion Hd'; subst. rewrite length_app. cbn [length].
    rewrite Z.gtb_ltb, (proj2 (Z.ltb_lt _ _)) by lia.
    replace (s + Z.of_nat (length (l ++ w) + 1) - 1) with (s + Z.of_nat (length (l ++ w))) by lia.
    rewrite Hd. cbn [mbind option_bind]. rewrite length_app in Hf. cbn [length] in Hf.
    rewrite H1. apply IH; [done|done|done|lia].
Qed.

(** ** Reference translation *)

Section Compile.
Context (active : option lmo_catalog).

(** The translation of a tag [msgid|context], or the tag itself. *)
Definition translated (s : list Z) : list Z :=
  let '(msgid, ctxt) := match find_ctxt false s with
                        | Some i => (take i s, Some (drop (S i) s))
                        | None => (s, None)
                        end in
  match lmo_translate_ctxt active msgid ctxt with Some (0, Some t) => t | _ => s end.

(** The Lua code between the leading and the trailing part. *)
Definition body_text (ty : chunk_type) (body : list Z) : list Z :=
  match ty with
  | T_TYPE_TEXT | T_TYPE_INCLUDE => luastr_text false body
  | T_TYPE_EXPR | T_TYPE_CODE => body
  | T_TYPE_I18N => luastr_text true (translated body)
  | T_TYPE_I18N_RAW => luastr_text false (translated body)
  | _ => []
  end.

Definition render (ty : chunk_type) (body : list Z) : list Z :=
  match body with
  | [] => str " "
  | _ =>
      let '(head, tail) := gen_code ty in
      let t := default [] head ++ body_text ty body ++ default [] tail in
      match t with [] => str " " | _ => t end
  end.

(** Every lookup in the active catalogue succeeds, and translations are of
    moderate size. *)
Definition catalog_ok : Prop := forall msgid ctxt, exists r t,
  lmo_translate_ctxt active msgid ctxt = Some (r, t) /\
  forall tr, t = Some tr -> Z.of_nat (length tr) < 2 ^ 27.

Context (Hcat : catalog_ok).

Definition LIMIT : Z := 2 ^ 27.

Lemma translated_length s : Z.of_nat (length s) < LIMIT -> Z.of_nat (length (translated s)) < LIMIT.
Proof.
  intros Hs. unfold translated. destruct (match find_ctxt false s with Some _ => _ | None => _ end) as [m c].
  destruct (Hcat m c) as (r & t & -> & Ht). destruct r; [|done|done]. destruct t; [|done]. by apply Ht.
Qed.

Lemma luastr_translate_ok x b t s : holds b t -> Z.of_nat (length t) < 2 ^ 20 ->
  Z.of_nat (length s) < LIMIT ->
  exists b', luastr_translate active b s x = Some b' /\ holds b' (t ++ luastr_text x (translated s)).
Proof.
  intros Hh Ht Hs. pose proof (translated_length s Hs) as Hl. unfold luastr_translate, translated in *.
  destruct (match find_ctxt false s with Some _ => _ | None => _ end) as [m c].
  destruct (Hcat m c) as (r & tr & Hr & _). rewrite Hr in *. cbn [mbind option_bind].
  unfold LIMIT, MAXLEN in *.
  destruct r; [destruct tr|..]; apply luastr_escape_ok; try done; unfold MAXLEN; lia.
Qed.

(** ** Formatting *)

(** The chunk [c] of the data [D] is the text [body]. *)
Definition denotes (D : list Z) (c : template_chunk) (ty : chunk_type) (body : list Z) : Prop :=
  c_type c = ty /\ exists pre post, D = pre ++ body ++ post /\ c_s c = Z.of_nat (length pre) /\
    c_e c = Z.of_nat (length pre) + Z.of_nat (length body).

Lemma denotes_slice p c ty body : denotes (pdata p) c ty body ->
  slice p (c_s c) (c_e c) = Some body /\
  exists post, drop (Z.to_nat (c_s c)) (pdata p) = body ++ post.
Proof.
  intros (_ & pre & post & HD & Hs & He). unfold slice, psize. rewrite Hs, He, HD, !length_app.
  rewrite !(proj2 (Z.leb_le _ _)) by lia. cbn [andb].
  rewrite Nat2Z.id, drop_app_length. split; [|eauto]. f_equal.
  apply take_app_length'. lia.
Qed.

Lemma holds_bytes b t : holds b t ->
  block_bytes (buf_destroy b) (buf_length b) = Some t /\ buf_length b = Z.of_nat (length t).
Proof.
  intros (_ & Hf & _ & rest & Hd). unfold buf_length, buf_destroy, block_bytes. rewrite Hf, Hd.
  split; [|done]. rewrite Nat2Z.id, take_app_length' by (by rewrite length_map).
  clear. induction t as [|c t IH]; [done|]. cbn [map mapM id]. by rewrite IH.
Qed.

Lemma append_opt_ok b t s : holds b t -> Z.of_nat (length t) < MAXLEN ->
  (forall x, s = Some x -> 0 < Z.of_nat (length x) < 2 ^ 29) ->
  exists b', append_opt b s = Some b' /\ holds b' (t ++ default [] s).
Proof.
  intros Hh Ht Hs. destruct s as [s|]; cbn [append_opt default].
  - destruct (append_all b t s Hh Ht (Hs s eq_refl)) as (b' & -> & Hh'). by eexists.
  - exists b. by rewrite app_nil_r.
Qed.

Lemma luastr_text_length x s : Z.of_nat (length (luastr_text x s)) <= 5 * Z.of_nat (length s).
Proof.
  unfold luastr_text. induction s as [|c s IH]; [done|]. cbn [map concat]. rewrite length_app.
  unfold luastr_out at 1. destruct (luastr_char x c) as [e|] eqn:He; cbn [default length].
  - apply luastr_char_length in He. unfold id. lia.
  - simpl. lia.
Qed.

Lemma body_text_length ty body : Z.of_nat (length body) < LIMIT ->
  Z.of_nat (length (body_text ty body)) <= 5 * LIMIT.
Proof.
  intros Hb. pose proof (translated_length body Hb). unfold LIMIT in *.
  destruct ty; cbn [body_text]; try (simpl; lia);
    match goal with |- Z.of_nat (length (luastr_text ?x ?s)) <= _ =>
      pose proof (luastr_text_length x s); lia end.
Qed.

Lemma format_body_ok p b t c ty body :
  denotes (pdata p) c ty body -> body <> [] -> holds b t -> Z.of_nat (length t) < 2 ^ 20 ->
  Z.of_nat (length body) < LIMIT ->
  exists b' n, format_body active p b c = Some (b', n) /\ holds b' (t ++ body_text ty body).
Proof.
  intros Hd Hne Hh Ht Hb. pose proof (denotes_slice _ _ _ _ Hd) as [Hsl (post & Hdrop)].
  pose proof Hd as (Hty & pre & post' & HD & Hs & He). unfold format_body. rewrite Hty, Hsl, Hdrop.
  assert (0 < Z.of_nat (length body)) as Hpos by (destruct body; [done|simpl; lia]).
  assert (c_e c - c_s c = Z.of_nat (length body)) as -> by lia. unfold LIMIT in *.
  assert (exists b', luastr_escape b body false = Some b' /\ holds b' (t ++ luastr_text false body))
    as (be & Hbe & Hhe) by (apply luastr_escape_ok; [done|unfold MAXLEN; lia]).
  assert (exists b', buf_append b (body ++ post) (Z.of_nat (length body)) = Some (true, b') /\
    holds b' (t ++ body)) as (ba & Hba & Hha).
  { destruct (buf_append_ok b t (body ++ post) (Z.of_nat (length body)) Hh) as (ba & Hba & Hha);
      [unfold MAXLEN; lia|rewrite length_app; lia|lia|].
    rewrite Nat2Z.id, take_app_length in Hha. eauto. }
  destruct ty; cbn [mbind option_bind body_text]; rewrite ?Hbe, ?Hba; cbn [mbind option_bind];
    try (by eexists _, _; split; [done|]; rewrite ?app_nil_r).
  - destruct (luastr_translate_ok true b t body Hh Ht Hb) as (b' & -> & Hh'). by eexists _, _.
  - destruct (luastr_translate_ok false b t body Hh Ht Hb) as (b' & -> & Hh'). by eexists _, _.
Qed.

(** The text that is formatted: without its trailing white space when the next
    tag asks for it. *)
Definition stripped (strip : bool) (ty : chunk_type) (body : list Z) : list Z :=
  if strip && bool_decide (ty = T_TYPE_TEXT) then rstrip body else body.

Lemma strip_denotes p ty body : let c := prv_chunk p in
  denotes (pdata p) c ty body ->
  exists e, (if strip_before p && bool_decide (ty = T_TYPE_TEXT)
             then strip_end (range_fuel (c_s c) (c_e c)) p (c_s c) (c_e c) else Some (c_e c)) = Some e /\
    denotes (pdata p) (Chunk (c_s c) e ty (c_line c)) ty (stripped (strip_before p) ty body).
Proof.
  intros c (Hty & pre & post & Hdata & Hs & He). unfold stripped.
  destruct (strip_before p && _) eqn:Hstrip.
  - destruct (rstrip_split body) as (w & Hbody & Hw & Hlast).
    pose proof (fun fuel => strip_end_ok p (rstrip body) w fuel (Z.of_nat (length pre)) Hw) as Hse.
    rewrite <- Hbody in Hse. rewrite He, Hs, Hse; [|by eapply peeks_intro|done|].
    + eexists. split; [done|]. split; [done|]. exists pre, (w ++ post). cbn [c_s c_e].
      split_and!; [|done|done]. rewrite Hdata. rewrite Hbody at 1. by rewrite <- !app_assoc.
    + unfold range_fuel. pose proof (f_equal length Hbody) as Hlen. rewrite length_app in Hlen. lia.
  - eexists. split; [done|]. split; [done|]. exists pre, post. by split_and!.
Qed.

Lemma gen_code_length ty head tail x : gen_code ty = (head, tail) -> head = Some x \/ tail = Some x ->
  0 < Z.of_nat (length x) < 2 ^ 10.
Proof.
  intros Hgen Hx. destruct ty; vm_compute in Hgen; injection Hgen as <- <-; destruct Hx as [Hx|Hx];
    first [discriminate Hx | injection Hx as <-; simpl; lia].
Qed.

(** A chunk that is not empty after stripping. *)
Lemma format_filled p c ty body n :
  denotes (pdata p) c ty body -> body <> [] -> Z.of_nat (length body) < LIMIT -> 0 <= n ->
  exists b m,
    (b ← buf_init (s32 n);
     let '(head, tail) := gen_code ty in
     b ← append_opt b head;
     '(b, m) ← format_body active p b c;
     b ← append_opt b tail;
     Some (b, m)) = Some (b, m) /\
    holds b (default [] (fst (gen_code ty)) ++ body_text ty body ++ default [] (snd (gen_code ty))).
Proof.
  intros Hd Hb Hlim Hn.
  destruct (buf_init_ok (s32 n)) as (b & -> & Hh); [by apply s32_small|]. cbn [mbind option_bind].
  destruct (gen_code ty) as [head tail] eqn:Hgen. pose proof (fun x => gen_code_length _ _ _ x Hgen) as Hgl.
  destruct (append_opt_ok b [] head Hh) as (b1 & -> & Hh1);
    [done|intros x ->; specialize (Hgl x (or_introl eq_refl)); lia|].
  cbn [mbind option_bind app fst snd] in *.
  assert (Z.of_nat (length (default [] head)) < 2 ^ 10) as Hhead.
  { destruct head as [x|]; simpl; [specialize (Hgl x (or_introl eq_refl)); unfold id; lia|lia]. }
  destruct (format_body_ok p b1 _ _ ty body Hd Hb Hh1) as (b2 & m & -> & Hh2); [lia|done|].
  cbn [mbind option_bind].
  destruct (append_opt_ok b2 _ tail Hh2) as (b3 & -> & Hh3).
  { rewrite length_app. pose proof (body_text_length ty body Hlim). unfold MAXLEN, LIMIT in *. lia. }
  { intros x ->. specialize (Hgl x (or_intror eq_refl)). lia. }
  exists b3, m. split; [done|]. by rewrite <- app_assoc in Hh3.
Qed.

Lemma format_ok p ty body :
  denotes (pdata p) (prv_chunk p) ty body -> Z.of_nat (length (pdata p)) < LIMIT -> ty <> T_TYPE_EOF ->
  exists c l, template_format_chunk active p =
    Some (Some (render ty (stripped (strip_before p) ty body)), set_prv p c l).
Proof.
  intros Hd HD Hne. pose proof Hd as (Hty & _). unfold template_format_chunk. rewrite Hty.
  destruct (strip_denotes p ty body Hd) as (e & -> & Hd'). cbn [mbind option_bind c_s c_e c_type].
  set (body' := stripped (strip_before p) ty body) in *.
  pose proof Hd' as (_ & pre & post & Hdata & Hs & He). cbn [c_s c_e] in Hs, He.
  assert (Z.of_nat (length body') < LIMIT) as Hlim by (rewrite Hdata, !length_app in HD; lia).
  destruct (decide (body' = [])) as [->|Hb].
  { rewrite (proj2 (Z.eqb_eq _ _)) by (simpl in He; lia). rewrite decide_False by done. by eexists _, _. }
  assert (0 < Z.of_nat (length body')) as Hpos by (destruct body'; [done|simpl; lia]).
  rewrite (proj2 (Z.eqb_neq _ _)) by lia.
  destruct (format_filled p _ ty body' (e - c_s (prv_chunk p)) Hd' Hb Hlim ltac:(lia))
    as (b & m & Hf & Hh).
  destruct (buf_init _) as [b0|]; [|done]. cbn [mbind option_bind] in Hf |- *.
  destruct (gen_code ty) as [head tail] eqn:Hgen. cbn [fst snd] in Hh.
  destruct (append_opt b0 head) as [b1|]; [|done]. cbn [mbind option_bind] in Hf |- *.
  destruct (format_body active p b1 _) as [[b2 m2]|]; [|done]. cbn [mbind option_bind] in Hf |- *.
  destruct (append_opt b2 tail) as [b3|]; [|done]. cbn [mbind option_bind] in Hf |- *. simplify_eq.
  destruct (holds_bytes _ _ Hh) as [-> ->]. cbn [mbind option_bind].
  eexists _, _. do 3 f_equal. unfold render. destruct body'; [done|]. rewrite Hgen.
  match goal with |- _ = match ?l with [] => _ | _ => _ end => by destruct l end.
Qed.

(** ** Tags *)

(** Strip marks, type and contents of a tag. *)
Definition parse_tag (code : list Z) : bool * bool * chunk_type * list Z :=
  let '(sb, c1) := match code with
                   | c :: r => if c =? 45 then (true, dropw blank r) else (false, code)
                   | [] => (false, [])
                   end in
  let '(sa, c2) := match reverse c1 with
                   | c :: r => if c =? 45 then (true, reverse r) else (false, c1)
                   | [] => (false, [])
                   end in
  let '(ty, n) := match c2 with c :: _ => code_type c | [] => (T_TYPE_CODE, 0) end in
  (sb, sa, ty, drop (Z.to_nat n) c2).

End Compile.

(** The contents after the opening mark. *)
Definition tag_open (code : list Z) : list Z :=
  match code with
  | c :: r => if c =? 45 then dropw blank r else code
  | [] => []
  end.

Definition opens (code : list Z) : bool := match code with c :: _ => c =? 45 | [] => false end.
Definition closes (code : list Z) : bool := match reverse code with c :: _ => c =? 45 | [] => false end.

(** The contents without the closing mark. *)
Definition tag_close (c1 : list Z) : list Z := if closes c1 then take (length c1 - 1) c1 else c1.

Lemma closes_snoc l c : closes (l ++ [c]) = (c =? 45).
Proof. unfold closes. by rewrite reverse_snoc. Qed.

Lemma parse_tag_eq code : parse_tag code =
  let c2 := tag_close (tag_open code) in
  let '(ty, n) := match c2 with c :: _ => code_type c | [] => (T_TYPE_CODE, 0) end in
  (opens code, closes (tag_open code), ty, drop (Z.to_nat n) c2).
Proof.
  unfold parse_tag, tag_close.
  assert ((match code with c :: r => if c =? 45 then (true, dropw blank r) else (false, code)
           | [] => (false, []) end) = (opens code, tag_open code)) as ->.
  { destruct code as [|c r]; [done|]. cbn [opens tag_open]. by destruct (c =? 45). }
  set (c1 := tag_open code). clearbody c1. unfold closes.
  destruct c1 as [|d l _] using rev_ind; [done|]. rewrite reverse_snoc.
  destruct (d =? 45); [|done]. rewrite reverse_involutive, length_app. cbn [length].
  by rewrite Nat.add_sub, take_app_length.
Qed.

(** The part skipped at the start: nothing, or the mark and blanks. *)
Lemma tag_open_split code : exists w, code = w ++ tag_open code /\
  (if opens code then exists u, w = 45 :: u /\ Forall (fun c => blank c = true) u else w = []) /\
  (opens code = true -> forall c r, tag_open code = c :: r -> blank c = false).
Proof.
  destruct code as [|c r]; [by exists []|]. cbn [opens tag_open].
  destruct (Z.eqb_spec c 45) as [->|]; [|by exists []].
  exists (45 :: takew blank r). cbn [app]. rewrite takew_dropw. split; [done|].
  split; [eexists; split; [done|apply takew_Forall]|]. intros _ c r' H. by eapply dropw_head.
Qed.

Lemma closes_blank w : Forall (fun c => blank c = true) w -> closes w = false.
Proof.
  intros Hw. destruct w as [|c w _] using rev_ind; [done|]. rewrite closes_snoc.
  apply Forall_app in Hw as [_ Hw]. inversion Hw as [|? ? Hc _]; subst.
  destruct (Z.eqb_spec c 45) as [->|]; [done|done].
Qed.

(** The closing mark is looked for in the whole tag. *)
Lemma closes_tag_open code : code <> [45] -> closes code = closes (tag_open code).
Proof.
  intros Hne. destruct (tag_open_split code) as (w & Hc & Hw & _).
  destruct (tag_open code) as [|d l _] eqn:Ho using rev_ind.
  - rewrite app_nil_r in Hc. subst w. destruct (opens code) eqn:Hop; [|by subst].
    destruct Hw as (u & -> & Hu). destruct u as [|x u _] using rev_ind; [done|].
    change (45 :: u ++ [x]) with ((45 :: u) ++ [x]). rewrite closes_snoc.
    apply closes_blank in Hu. by rewrite closes_snoc in Hu.
  - rewrite Hc, app_assoc. by rewrite !closes_snoc.
Qed.

Definition head_or (l : list Z) (d : Z) : Z := match l with c :: _ => c | [] => d end.

Lemma peek_head p pre l post : pdata p = pre ++ l ++ 37 :: post ->
  peek p (Z.of_nat (length pre)) = Some (head_or l 37).
Proof.
  intros Hd. assert (peeks p (Z.of_nat (length pre)) (l ++ [37])) as Hp
    by (eapply peeks_intro; rewrite Hd; by rewrite <- app_assoc).
  destruct l as [|c l]; by apply peeks_cons in Hp as [? _].
Qed.

Lemma peek_last p q code post : pdata p = (q ++ [37]) ++ code ++ 37 :: post ->
  exists c, peek p (Z.of_nat (length (q ++ [37])) + Z.of_nat (length code) - 1) = Some c /\
    (c =? 45) = closes code.
Proof.
  intros Hd. destruct code as [|c code _] using rev_ind.
  - exists 37. split; [|done]. assert (peeks p (Z.of_nat (length q)) ([] ++ [37])) as Hp
      by (eapply peeks_intro; rewrite Hd; by rewrite <- app_assoc).
    apply peeks_snoc in Hp as [Hp _]. rewrite <- Hp. f_equal. rewrite length_app. simpl. lia.
  - exists c. split; [|by rewrite closes_snoc].
    assert (peeks p (Z.of_nat (length (q ++ [37]))) (code ++ [c])) as Hp by (by eapply peeks_intro).
    apply peeks_snoc in Hp as [Hp _]. rewrite <- Hp. f_equal. rewrite (length_app code). simpl. lia.
Qed.

(** Skipping the opening mark. *)
Lemma skip_open p pre code post : pdata p = pre ++ code ++ 37 :: post ->
  exists w, code = w ++ tag_open code /\
    (if opens code
     then skip_fwd (range_fuel (Z.of_nat (length pre) + 1) (Z.of_nat (length pre) + Z.of_nat (length code)))
            p blank (Z.of_nat (length pre) + 1) (Z.of_nat (length pre) + Z.of_nat (length code))
     else Some (Z.of_nat (length pre))) = Some (Z.of_nat (length (pre ++ w))).
Proof.
  intros Hd. destruct (tag_open_split code) as (w & Hc & Hw & Hnb). exists w. split; [done|].
  destruct (opens code) eqn:Ho; [|subst w; by rewrite app_nil_r].
  destruct Hw as (u & -> & Hu). pose proof (f_equal length Hc) as Hlen.
  rewrite length_app in Hlen. cbn [length] in Hlen.
  assert (peeks p (Z.of_nat (length pre) + 1) (u ++ [head_or (tag_open code) 37])) as Hp.
  { replace (Z.of_nat (length pre) + 1) with (Z.of_nat (length (pre ++ [45]))) by (rewrite length_app; simpl; lia).
    destruct (tag_open code) as [|c r] eqn:Ht; eapply (peeks_intro p (pre ++ [45]));
      rewrite Hd, Hc, <- !app_assoc; cbn [app head_or]; reflexivity. }
  rewrite (skip_fwd_ok p blank u _ _ _ _ Hu Hp).
  - f_equal. rewrite length_app. cbn [length]. lia.
  - destruct (tag_open code) as [|c r]; [done|]. by eapply Hnb.
  - lia.
  - unfold range_fuel. lia.
Qed.

Lemma tag_close_length c1 : closes c1 = true -> (length (tag_close c1) + 1 = length c1)%nat.
Proof.
  intros Hc. unfold tag_close. rewrite Hc. destruct c1 as [|d l _] using rev_ind; [done|].
  rewrite length_take, length_app. simpl. lia.
Qed.

(** The closing mark is removed; blanks before it stay. *)
Lemma skip_close p s c1 post : peeks p s (c1 ++ 37 :: post) ->
  (if closes c1
   then skip_bwd (range_fuel s (s + Z.of_nat (length c1) - 1)) p blank s (s + Z.of_nat (length c1) - 1)
   else Some (s + Z.of_nat (length c1))) = Some (s + Z.of_nat (length (tag_close c1))).
Proof.
  intros Hp. destruct (closes c1) eqn:Hc; [|unfold tag_close; by rewrite Hc].
  pose proof (tag_close_length c1 Hc) as Hl. destruct c1 as [|d l _] using rev_ind; [done|].
  rewrite closes_snoc in Hc. apply Z.eqb_eq in Hc. subst d.
  unfold range_fuel. cbn [skip_bwd]. rewrite length_app in *. cbn [length] in *.
  rewrite Z.geb_leb, (proj2 (Z.leb_le _ _)) by lia.
  replace (s + Z.of_nat (length l + 1) - 1) with (s + Z.of_nat (length l)) by lia.
  rewrite (Hp (length l) 45).
  - cbn [mbind option_bind]. change (blank 45) with false. cbv iota. f_equal. lia.
  - rewrite <- app_assoc. rewrite lookup_app_r by lia. by rewrite Nat.sub_diag.
Qed.

Lemma code_type_le c ty n : code_type c = (ty, n) -> n = 0 \/ n = 1.
Proof. unfold code_type. repeat case_match; intros ?; simplify_eq; auto. Qed.

Lemma tag_close_prefix c1 : exists r, c1 = tag_close c1 ++ r.
Proof.
  unfold tag_close. destruct (closes c1); [|exists []; by rewrite app_nil_r].
  exists (drop (length c1 - 1) c1). by rewrite take_drop.
Qed.

(** The character the type is read from. *)
Lemma tag_type_head c1 : code_type (head_or c1 37) =
  match tag_close c1 with c :: _ => code_type c | [] => (T_TYPE_CODE, 0) end.
Proof.
  destruct (tag_close_prefix c1) as [r Hr]. destruct (tag_close c1) as [|c l] eqn:Hc.
  - destruct (closes c1) eqn:Hcl.
    + pose proof (tag_close_length c1 Hcl) as Hl. rewrite Hc in Hl. destruct c1 as [|d [|]]; try done.
      change [d] with ([] ++ [d]) in Hcl. rewrite closes_snoc in Hcl. apply Z.eqb_eq in Hcl. by subst d.
    + unfold tag_close in Hc. rewrite Hcl in Hc. by subst c1.
  - rewrite Hr. done.
Qed.

Lemma template_code_ok p q code post :
  pdata p = (q ++ [37]) ++ code ++ 37 :: post -> off p = Z.of_nat (length (q ++ [37])) -> code <> [45] ->
  let '(sb, sa, ty, body) := parse_tag code in
  exists c, template_code p (off p + Z.of_nat (length code)) =
      Some (Parser (pdata p) (beyond p) (off p) (line p) (in_expr p) sb sa (prv_chunk p) c) /\
    denotes (pdata p) c ty body.
Proof.
  intros Hd Ho Hne. rewrite parse_tag_eq. cbv zeta. rewrite <- tag_type_head.
  unfold template_code. rewrite Ho, (peek_head _ _ _ _ Hd). cbn [mbind option_bind].
  assert ((head_or code 37 =? 45) = opens code) as -> by (by destruct code).
  destruct (skip_open p _ code post Hd) as (w & Hw & ->). cbn [mbind option_bind].
  destruct (peek_last p q code post Hd) as (c & -> & Hcl). cbn [mbind option_bind].
  rewrite Hcl, (closes_tag_open code) by done.
  assert (pdata p = ((q ++ [37]) ++ w) ++ tag_open code ++ 37 :: post) as Hd1.
  { rewrite Hd. rewrite Hw at 1. by rewrite <- !app_assoc. }
  set (c1 := tag_open code) in *. set (pre := (q ++ [37]) ++ w) in *.
  assert (Z.of_nat (length (q ++ [37])) + Z.of_nat (length code) = Z.of_nat (length pre) + Z.of_nat (length c1)) as ->.
  { unfold pre. rewrite Hw at 1. rewrite (length_app _ w), (length_app w). lia. }
  assert (peeks p (Z.of_nat (length pre)) (c1 ++ 37 :: post)) as Hp.
  { eapply peeks_intro. by rewrite Hd1, app_nil_r. }
  rewrite (skip_close _ _ _ _ Hp). cbn [mbind option_bind].
  rewrite (peek_head _ _ _ _ Hd1). cbn [mbind option_bind].
  pose proof (tag_type_head c1) as Hth. destruct (code_type (head_or c1 37)) as [ty n] eqn:Hty.
  eexists. split; [done|]. split; [done|]. destruct (tag_close_prefix c1) as [r Hr].
  assert (0 <= n /\ (Z.to_nat n <= length (tag_close c1))%nat) as [Hn Hnl].
  { destruct (code_type_le _ _ _ Hty) as [-> | -> ]; [lia|].
    destruct (tag_close c1); [simplify_eq|simpl; lia]. }
  exists (pre ++ take (Z.to_nat n) (tag_close c1)), (r ++ 37 :: post). cbn [c_s c_e].
  split; [|split].
  - rewrite Hd1, Hr at 1. rewrite <- !app_assoc. f_equal. rewrite !app_assoc. do 2 f_equal.
    by rewrite take_drop.
  - rewrite length_app, length_take. lia.
  - rewrite length_app, length_take, length_drop. lia.
Qed.

(** ** Texts *)

Definition lstrip (strip : bool) (t : list Z) : list Z := if strip then dropw isspace t else t.

Lemma peeks_end p pre t : pdata p = pre ++ t -> beyond p = Some 0 ->
  peeks p (Z.of_nat (length pre)) (t ++ [0]).
Proof.
  intros Hd Hb i c Hi. destruct (decide (i < length t)%nat) as [Hlt|Hge].
  - assert (peeks p (Z.of_nat (length pre)) t) as Hp by (eapply peeks_intro; by rewrite Hd, app_nil_r).
    apply Hp. by rewrite lookup_app_l in Hi.
  - rewrite lookup_app_r in Hi by lia. destruct (i - length t)%nat eqn:Hil; [|done].
    injection Hi as <-. unfold peek, psize. rewrite Hd, length_app.
    by rewrite (proj2 (Z.eqb_eq _ _)) by lia.
Qed.

Lemma template_text_ok p pre t post d :
  pdata p = pre ++ t ++ post -> peeks p (Z.of_nat (length pre)) (t ++ [d]) -> isspace d = false ->
  off p = Z.of_nat (length pre) -> off p < psize p ->
  exists c, template_text p (off p + Z.of_nat (length t)) = Some (set_chunk p c) /\
    denotes (pdata p) c T_TYPE_TEXT (lstrip (strip_after p) t).
Proof.
  intros Hd Hp Hsp Ho Hlt. unfold template_text. rewrite (proj2 (Z.ltb_lt _ _)) by done. rewrite Ho.
  unfold lstrip. destruct (strip_after p).
  - pose proof (takew_dropw isspace t) as Ht. set (w := takew isspace t) in *.
    assert (isspace (head_or (dropw isspace t) d) = false) as Hstop.
    { destruct (dropw isspace t) eqn:E; [done|]. by eapply dropw_head. }
    pose proof (f_equal length Ht) as Hlen. rewrite length_app in Hlen.
    rewrite (skip_fwd_ok p isspace w _ _ _ (head_or (dropw isspace t) d)).
    + cbn [mbind option_bind]. eexists. split; [done|]. split; [done|].
      exists (pre ++ w), post. cbn [c_s c_e]. rewrite length_app. split_and!; [|lia|lia].
      rewrite Hd. rewrite <- Ht at 1. by rewrite <- !app_assoc.
    + apply takew_Forall.
    + intros i c Hi. apply Hp. rewrite <- Ht, <- app_assoc.
      destruct (decide (i < length w)%nat); [rewrite lookup_app_l in Hi |- * by done; done|].
      rewrite lookup_app_r in Hi |- * by lia. destruct (i - length w)%nat; [|done].
      simplify_eq/=. by destruct (dropw isspace t).
    + done.
    + lia.
    + unfold range_fuel. lia.
  - cbn [mbind option_bind]. eexists. split; [done|]. split; [done|]. exists pre, post.
    by split_and!.
Qed.

(** ** Whole templates *)

(** A template: a text, and tags each followed by a text. *)
Definition tpl (t : list Z) (tags : list (list Z * list Z)) : list Z :=
  t ++ concat (map (fun '(code, t') => str "<%" ++ code ++ str "%>" ++ t') tags).

Definition text_ok (t : list Z) : Prop := strfind t (str "<%") = None.
Definition tag_ok (x : list Z * list Z) : Prop :=
  strfind (fst x) (str "%>") = None /\ fst x <> [45] /\ text_ok (snd x).

(** Everything the loader reads until it gets NULL. *)
Fixpoint lua_source (fuel : nat) (active : option lmo_catalog) (p : template_parser) : option (list Z) :=
  match fuel with
  | O => None
  | S f =>
      '(t, p) ← template_reader active p;
      match t with
      | None => Some []
      | Some t => r ← lua_source f active p; Some (t ++ r)
      end
  end.

(** The source of a template: [sa] and [sb] are the marks of the tag before
    [t].  The last text is stripped when the last tag has the opening mark. *)
Fixpoint compiled (active : option lmo_catalog) (sa sb : bool) (t : list Z)
    (tags : list (list Z * list Z)) : list Z :=
  match tags with
  | [] =>
      match t with
      | [] => []
      | _ => render active T_TYPE_TEXT (stripped sb T_TYPE_TEXT (lstrip sa t))
      end
  | (code, t') :: tags' =>
      let '(sb', sa', ty, body) := parse_tag code in
      render active T_TYPE_TEXT (stripped sb' T_TYPE_TEXT (lstrip sa t)) ++
      render active ty body ++ compiled active sa' sb' t' tags'
  end.

Section Reader.
Context (active : option lmo_catalog) (Hcat : catalog_ok active).
Context (D : list Z) (HD : Z.of_nat (length D) < LIMIT).

(** The parser has read up to position [o]; its current chunk is [body]. *)
Definition at_pos (p : template_parser) (o : nat) (inside sb sa : bool) (ty : chunk_type) (body : list Z) : Prop :=
  pdata p = D /\ beyond p = Some 0 /\ off p = Z.of_nat o /\ in_expr p = inside /\
  strip_before p = sb /\ strip_after p = sa /\ denotes D (cur_chunk p) ty body.

Lemma at_rest p o inside sb sa ty body pre rest :
  at_pos p o inside sb sa ty body -> D = pre ++ rest -> length pre = o -> rest_of p = rest.
Proof.
  intros (Hp & _ & Ho & _) Hd Hl. unfold rest_of. rewrite Hp, Ho, Hd, Nat2Z.id. by apply drop_app_length'.
Qed.

(** Formatting the chunk before the one just found. *)
Lemma format_prv p sb ty body o inside :
  pdata p = D -> strip_before p = sb -> denotes D (prv_chunk p) ty body -> ty <> T_TYPE_EOF ->
  exists c l, template_format_chunk active (advance p o inside) =
    Some (Some (render active ty (stripped sb ty body)), set_prv (advance p o inside) c l).
Proof.
  intros Hp <- Hd Hty. destruct (format_ok active Hcat (advance p o inside) ty body) as (c & l & H);
    cbn [advance pdata prv_chunk]; rewrite ?Hp; eauto.
Qed.

(** A text before a tag. *)
Lemma read_text p pre t rest sb sa ty body :
  D = pre ++ t ++ str "<%" ++ rest -> text_ok t -> ty <> T_TYPE_EOF ->
  at_pos p (length pre) false sb sa ty body ->
  exists p', template_reader active p = Some (Some (render active ty (stripped sb ty body)), p') /\
    at_pos p' (length pre + length t + 2) true sb sa T_TYPE_TEXT (lstrip sa t).
Proof.
  intros Hd Ht Hty Hat. pose proof Hat as (Hp & Hb & Ho & Hi & Hsb & Hsa & Hc).
  unfold template_reader. set (p0 := set_prv p (cur_chunk p) (line p)).
  change (in_expr p0) with (in_expr p). rewrite Hi. cbn [negb].
  change (rest_of p0) with (rest_of p). rewrite (at_rest _ _ _ _ _ _ _ _ _ Hat Hd eq_refl).
  change (str "<%" ++ rest) with (60 :: 37 :: rest) in *. change (str "<%") with [60; 37].
  rewrite strfind_first by done. change (off p0) with (off p).
  destruct (template_text_ok p0 pre t (60 :: 37 :: rest) 60) as (c & Htx & Hden).
  { by rewrite <- Hd. }
  { eapply (peeks_intro p0 pre (t ++ [60]) (37 :: rest)). change (pdata p0) with (pdata p).
    by rewrite Hp, Hd, <- app_assoc. }
  { done. } { done. }
  { change (off p0) with (off p). unfold psize. change (pdata p0) with (pdata p).
    rewrite Ho, Hp, Hd, !length_app. simpl. lia. }
  change (off p0) with (off p) in Htx. rewrite Htx. cbn [mbind option_bind].
  destruct (format_prv (set_chunk p0 c) sb ty body (off p + Z.of_nat (length t) + 2) true) as (c' & l & ->);
    [done|done|done|done|].
  eexists. split; [done|]. split; [done|]. split; [done|]. split; [cbn; lia|].
  split_and!; try done. change (pdata p0) with (pdata p) in Hden. rewrite Hp in Hden.
  change (strip_after p0) with (strip_after p) in Hden. by rewrite Hsa in Hden.
Qed.

(** A tag. *)
Lemma read_code p q code rest sb sa body :
  D = (q ++ [37]) ++ code ++ str "%>" ++ rest -> strfind code (str "%>") = None -> code <> [45] ->
  at_pos p (length (q ++ [37])) true sb sa T_TYPE_TEXT body ->
  let '(sb', sa', ty, body') := parse_tag code in
  exists p', template_reader active p =
      Some (Some (render active T_TYPE_TEXT (stripped sb' T_TYPE_TEXT body)), p') /\
    at_pos p' (length (q ++ [37]) + length code + 2) false sb' sa' ty body'.
Proof.
  intros Hd Hf Hne Hat. pose proof Hat as (Hp & Hb & Ho & Hi & Hsb & Hsa & Hc).
  unfold template_reader. set (p0 := set_prv p (cur_chunk p) (line p)).
  change (in_expr p0) with (in_expr p). rewrite Hi. cbn [negb].
  change (rest_of p0) with (rest_of p). rewrite (at_rest _ _ _ _ _ _ _ _ _ Hat Hd eq_refl).
  change (str "%>" ++ rest) with (37 :: 62 :: rest) in *. change (str "%>") with [37; 62] in *.
  rewrite strfind_first by done.
  pose proof (template_code_ok p0 q code (62 :: rest)) as Hcode.
  destruct (parse_tag code) as [[[sb' sa'] ty] body'].
  destruct Hcode as (c & -> & Hden); [by rewrite <- Hd|done|done|]. cbn [mbind option_bind].
  destruct (format_prv (Parser (pdata p0) (beyond p0) (off p0) (line p0) (in_expr p0) sb' sa' (prv_chunk p0) c)
    sb' T_TYPE_TEXT body (off p0 + Z.of_nat (length code) + 2) false) as (c' & l & ->); [done|done|done|done|].
  eexists. split; [done|]. split; [done|]. split; [done|].
  split; [cbn; change (off p0) with (off p); lia|]. split_and!; try done.
  change (pdata p0) with (pdata p) in Hden. by rewrite Hp in Hden.
Qed.

(** The last text, when it is not empty. *)
Lemma read_last p pre t sb sa ty body :
  D = pre ++ t -> text_ok t -> t <> [] -> ty <> T_TYPE_EOF ->
  at_pos p (length pre) false sb sa ty body ->
  exists p', template_reader active p = Some (Some (render active ty (stripped sb ty body)), p') /\
    at_pos p' (length D) false sb sa T_TYPE_TEXT (lstrip sa t).
Proof.
  intros Hd Ht Hne Hty Hat. pose proof Hat as (Hp & Hb & Ho & Hi & Hsb & Hsa & Hc).
  unfold template_reader. set (p0 := set_prv p (cur_chunk p) (line p)).
  change (in_expr p0) with (in_expr p). rewrite Hi. cbn [negb].
  change (rest_of p0) with (rest_of p). rewrite (at_rest _ _ _ _ _ _ _ _ _ Hat Hd eq_refl), Ht.
  assert (psize p0 = off p0 + Z.of_nat (length t)) as Hsz.
  { change (off p0) with (off p). unfold psize. change (pdata p0) with (pdata p).
    rewrite Ho, Hp, Hd, length_app. lia. }
  destruct (template_text_ok p0 pre t [] 0) as (c & Htx & Hden).
  { by rewrite app_nil_r, <- Hd. }
  { apply peeks_end; [by rewrite <- Hd|done]. }
  { done. } { done. }
  { rewrite Hsz. destruct t; [done|]. simpl. lia. }
  rewrite <- Hsz in Htx. rewrite Htx. cbn [mbind option_bind].
  destruct (format_prv (set_chunk p0 c) sb ty body (psize (set_chunk p0 c)) (in_expr (set_chunk p0 c)))
    as (c' & l & ->); [done|done|done|done|].
  eexists. split; [done|]. split; [done|]. split; [done|].
  split; [cbn; unfold psize; cbn; by rewrite Hp|]. split_and!; try done.
  change (pdata p0) with (pdata p) in Hden. rewrite Hp in Hden.
  change (strip_after p0) with (strip_after p) in Hden. by rewrite Hsa in Hden.
Qed.

(** At the end: the last chunk, then nothing. *)
Lemma read_end p sb sa ty body : ty <> T_TYPE_EOF ->
  at_pos p (length D) false sb sa ty body ->
  exists p', template_reader active p = Some (Some (render active ty (stripped sb ty body)), p') /\
    at_pos p' (length D) false sb sa T_TYPE_EOF [].
Proof.
  intros Hty Hat. pose proof Hat as (Hp & Hb & Ho & Hi & Hsb & Hsa & Hc).
  unfold template_reader. set (p0 := set_prv p (cur_chunk p) (line p)).
  change (in_expr p0) with (in_expr p). rewrite Hi. cbn [negb].
  change (rest_of p0) with (rest_of p).
  rewrite (at_rest _ _ _ _ _ _ _ D [] Hat) by (by rewrite ?app_nil_r).
  cbn [strfind]. unfold template_text. change (off p0) with (off p).
  assert (psize p0 = Z.of_nat (length D)) as Hsz by (unfold psize, p0; cbn; by rewrite Hp).
  rewrite Hsz, Ho, Z.ltb_irrefl. cbn [mbind option_bind].
  set (p1 := set_chunk p0 _).
  destruct (format_prv p1 sb ty body (psize p1) (in_expr p1)) as (c' & l & ->);
    [done|done|done|done|].
  eexists. split; [done|]. split; [done|]. split; [done|].
  split; [cbn; unfold psize; cbn; by rewrite Hp|]. split_and!; try done.
  split; [done|]. exists D, []. cbn. rewrite !app_nil_r. split_and!; [done|done|lia].
Qed.

Lemma read_null p sb sa : at_pos p (length D) false sb sa T_TYPE_EOF [] ->
  exists p', template_reader active p = Some (None, p').
Proof.
  intros Hat. pose proof Hat as (Hp & Hb & Ho & Hi & Hsb & Hsa & Hc).
  unfold template_reader. set (p0 := set_prv p (cur_chunk p) (line p)).
  change (in_expr p0) with (in_expr p). rewrite Hi. cbn [negb].
  change (rest_of p0) with (rest_of p).
  rewrite (at_rest _ _ _ _ _ _ _ D [] Hat) by (by rewrite ?app_nil_r).
  cbn [strfind]. unfold template_text. change (off p0) with (off p).
  assert (psize p0 = Z.of_nat (length D)) as Hsz by (unfold psize, p0; cbn; by rewrite Hp).
  rewrite Hsz, Ho, Z.ltb_irrefl. cbn [mbind option_bind].
  destruct Hc as (Hty & pre & post & _ & Hs & He). unfold template_format_chunk.
  cbn [advance set_chunk set_prv p0 prv_chunk strip_before]. rewrite Hty.
  rewrite bool_decide_eq_false_2 by done. rewrite andb_false_r. cbn [mbind option_bind c_s c_e c_type].
  rewrite (proj2 (Z.eqb_eq _ _)) by (simpl in He; lia). rewrite decide_True by done. by eexists.
Qed.

Lemma stripped_not_text sb ty body : ty <> T_TYPE_TEXT -> stripped sb ty body = body.
Proof. intros H. unfold stripped. by rewrite bool_decide_eq_false_2, andb_false_r. Qed.

Lemma code_type_not c ty n : code_type c = (ty, n) -> ty <> T_TYPE_TEXT /\ ty <> T_TYPE_EOF.
Proof. unfold code_type. repeat case_match; intros ?; by simplify_eq. Qed.

Lemma parse_tag_type code sb sa ty body : parse_tag code = (sb, sa, ty, body) ->
  ty <> T_TYPE_TEXT /\ ty <> T_TYPE_EOF.
Proof.
  rewrite parse_tag_eq. cbv zeta. rewrite <- tag_type_head.
  destruct (code_type _) as [ty' n] eqn:Hc. intros ?. simplify_eq. by eapply code_type_not.
Qed.

Lemma source_ok tags : forall p pre t sb sa ty body fuel,
  D = pre ++ tpl t tags -> text_ok t -> Forall tag_ok tags ->
  at_pos p (length pre) false sb sa ty body -> ty <> T_TYPE_TEXT -> ty <> T_TYPE_EOF ->
  (2 * length tags + 3 <= fuel)%nat ->
  lua_source fuel active p = Some (render active ty body ++ compiled active sa sb t tags).
Proof.
  induction tags as [|[code t'] tags IH]; intros p pre t sb sa ty body fuel Hd Ht Htags Hat Hty Heof Hf.
  - unfold tpl in Hd. cbn [map concat] in Hd. rewrite app_nil_r in Hd. cbn [compiled].
    destruct fuel as [|[|[|fuel]]]; try (simpl in Hf; lia). destruct t as [|c t].
    + rewrite app_nil_r in Hd. subst pre. destruct (read_end p sb sa ty body Heof Hat) as (p1 & H1 & Hat1).
      destruct (read_null p1 sb sa Hat1) as (p2 & H2). cbn [lua_source]. rewrite H1. cbn [mbind option_bind].
      rewrite H2. cbn [mbind option_bind]. by rewrite stripped_not_text.
    + destruct (read_last p pre (c :: t) sb sa ty body Hd Ht ltac:(done) Heof Hat) as (p1 & H1 & Hat1).
      destruct (read_end p1 sb sa T_TYPE_TEXT _ ltac:(done) Hat1) as (p2 & H2 & Hat2).
      destruct (read_null p2 sb sa Hat2) as (p3 & H3). cbn [lua_source]. rewrite H1. cbn [mbind option_bind].
      rewrite H2. cbn [mbind option_bind]. rewrite H3. cbn [mbind option_bind].
      by rewrite stripped_not_text, app_nil_r.
  - inversion Htags as [|? ? (Hfind & Hne & Ht') Htags']; subst. cbn [fst snd] in *.
    destruct fuel as [|[|fuel]]; try (simpl in Hf; lia). unfold tpl in Hd. cbn [map concat] in Hd.
    set (rest := t' ++ concat (map (fun '(code, t') => str "<%" ++ code ++ str "%>" ++ t') tags)) in *.
    assert (D = pre ++ t ++ str "<%" ++ code ++ str "%>" ++ rest) as Hd1
      by (rewrite Hd; unfold rest; by rewrite <- !app_assoc).
    destruct (read_text p pre t _ sb sa ty body Hd1 Ht Heof Hat) as (p1 & H1 & Hat1).
    assert (D = ((pre ++ t ++ [60]) ++ [37]) ++ code ++ str "%>" ++ rest) as Hd2
      by (rewrite Hd1; by rewrite <- !app_assoc).
    pose proof (read_code p1 (pre ++ t ++ [60]) code rest sb sa (lstrip sa t) Hd2 Hfind Hne) as Hcode.
    cbn [compiled]. destruct (parse_tag code) as [[[sb' sa'] ty'] body'] eqn:Hparse.
    destruct Hcode as (p2 & H2 & Hat2).
    { rewrite !length_app. cbn [length]. by replace (length pre + (length t + 1) + 1)%nat
        with (length pre + length t + 2)%nat by lia. }
    destruct (parse_tag_type _ _ _ _ _ Hparse) as [Hnt Hneof].
    assert (D = (((pre ++ t ++ [60]) ++ [37]) ++ code ++ str "%>") ++ tpl t' tags) as Hd3
      by (rewrite Hd2; unfold rest, tpl; by rewrite <- !app_assoc).
    cbn [lua_source]. rewrite H1. cbn [mbind option_bind]. rewrite H2. cbn [mbind option_bind].
    rewrite (IH p2 _ t' sb' sa' ty' body' fuel Hd3 Ht' Htags'); [|by rewrite !length_app in *; cbn [length] in *;
      rewrite <- Nat.add_assoc in Hat2|done|done|simpl in Hf; lia].
    cbn [mbind option_bind]. by rewrite stripped_not_text.
Qed.
End Reader.


Definition demo_tags : list (list Z * list Z) :=
  [(str "- =x -", str "  b"); (str ":hi|there", []); (str "# c", str "zz ")].


(** The texts of the compiled source are literals that denote the stripped
    text: what a loader of the source passes to [write]. *)
Lemma render_text_literal active t rest : t <> [] -> Forall lua_safe t ->
  exists lit, render active T_TYPE_TEXT t = str "write(" ++ 34 :: lit ++ str ")" /\
    lua_string (lit ++ rest) = Some (t, rest).
Proof.
  intros Hne Ht. exists (luastr_text false t ++ [34]). split.
  - unfold render. destruct t; [done|]. cbn [gen_code default]. unfold id. rewrite <- !app_assoc. done.
  - rewrite <- app_assoc. cbn [app].
    clear Hne. induction Ht as [|c t Hc _ IH]; [done|].
    change (luastr_text false (c :: t)) with (luastr_out false c ++ luastr_text false t).
    rewrite <- app_assoc. by rewrite (lua_string_out false c _ _ _ Hc IH).
Qed.

(** A chunk whose end is before its start. *)
Lemma format_negative active p s l :
  prv_chunk p = Chunk s (s - 1) T_TYPE_CODE l -> template_format_chunk active p = None.
Proof.
  intros Hc. unfold template_format_chunk. rewrite Hc. cbn [c_s c_e c_type].
  rewrite bool_decide_eq_false_2, andb_false_r by done. cbn [mbind option_bind c_s c_e c_type].
  rewrite (proj2 (Z.eqb_neq _ _)) by lia. replace (s - 1 - s) with (-1) by lia.
  destruct (buf_init_ok (s32 (-1))) as (b & -> & Hh); [vm_compute; done|].
  cbn [mbind option_bind gen_code append_opt format_body c_type c_s c_e].
  assert (slice p s (s - 1) = None) as ->
    by (unfold slice; by rewrite (proj2 (Z.leb_gt s (s - 1))), andb_false_r by lia).
  by destruct (buf_append _ _ _) as [[]|].
Qed.

Lemma template_text_prv p e p' : template_text p e = Some p' -> prv_chunk p' = prv_chunk p.
Proof.
  unfold template_text. destruct (_ <? _); [|intros ?; by simplify_eq].
  destruct (if strip_after p then _ else _); [|done]. cbn [mbind option_bind]. intros ?. by simplify_eq.
Qed.

(** [template_code] on a lone minus sign. *)
Lemma template_code_minus p q post :
  pdata p = (q ++ [37]) ++ 45 :: 37 :: post -> off p = Z.of_nat (length (q ++ [37])) ->
  template_code p (off p + 1) =
    Some (Parser (pdata p) (beyond p) (off p) (line p) (in_expr p) true true (prv_chunk p)
      (Chunk (off p + 1) (off p + 1 - 1) T_TYPE_CODE (line p))).
Proof.
  intros Hd Ho. assert (peeks p (off p) [45; 37]) as Hp
    by (rewrite Ho; eapply (peeks_intro p (q ++ [37]) [45; 37] post); by rewrite Hd).
  apply peeks_cons in Hp as [H45 Hp]. apply peeks_cons in Hp as [H37 _].
  unfold template_code. rewrite H45. cbn [mbind option_bind Z.eqb Pos.eqb].
  unfold range_fuel. cbn [skip_fwd]. rewrite (proj2 (Z.leb_le _ _)) by lia. rewrite H37.
  change (blank 37) with false. cbn [mbind option_bind].
  replace (off p + 1 - 1) with (off p) by lia. rewrite H45. cbn [mbind option_bind Z.eqb Pos.eqb skip_bwd].
  change (blank 37) with false. cbn [mbind option_bind].
  rewrite Z.geb_leb, (proj2 (Z.leb_gt _ _)) by lia. cbn [mbind option_bind]. rewrite H37.
  cbn [mbind option_bind]. change (code_type 37) with (T_TYPE_CODE, 0). cbv iota beta.
  by rewrite Z.add_0_r.
Qed.

(** A tag that consists of a single minus sign crashes the compiler: the sign
    is taken for both marks, the end of the contents moves before their start,
    and a copy of a negative number of bytes follows, whatever the catalogue,
    the text before the tag and what comes after it. *)
Theorem lone_minus_tag active t rest :
  catalog_ok active -> text_ok t -> Z.of_nat (length t + length rest) < 2 ^ 20 ->
  exists p1 p2,
    template_reader active (template_string (t ++ str "<%-%>" ++ rest) (Some 0)) = Some (Some (str " "), p1) /\
    template_reader active p1 = Some (Some (render active T_TYPE_TEXT (rstrip t)), p2) /\
    template_reader active p2 = None.
Proof.
  intros Hcat Ht Hl. set (D := t ++ str "<%-%>" ++ rest).
  assert (Z.of_nat (length D) < LIMIT) as HD.
  { unfold D, LIMIT. rewrite !length_app. change (length (str "<%-%>")) with 5%nat. lia. }
  destruct (read_text active Hcat D HD (template_string D (Some 0)) [] t (str "-%>" ++ rest) false false
    T_TYPE_INIT []) as (p1 & H1 & Hat); [done|done|done| |].
  { split_and!; try done. split; [done|]. by exists [], D. }
  exists p1. pose proof Hat as (Hp & Hb & Ho & Hi & Hsb & Hsa & Hc). cbn [length Nat.add] in Ho.
  assert (D = ((t ++ [60]) ++ [37]) ++ 45 :: 37 :: 62 :: rest) as Hd
    by (unfold D; by rewrite <- !app_assoc).
  assert (off p1 = Z.of_nat (length ((t ++ [60]) ++ [37]))) as Ho'
    by (rewrite Ho, !length_app; simpl; lia).
  pose proof (template_code_minus (set_prv p1 (cur_chunk p1) (line p1)) (t ++ [60]) (62 :: rest)) as Hcode.
  cbn [set_prv pdata off] in Hcode. rewrite Hp in Hcode. specialize (Hcode Hd Ho').
  assert (rest_of (set_prv p1 (cur_chunk p1) (line p1)) = [45] ++ 37 :: 62 :: rest) as Hrest.
  { unfold rest_of. cbn [set_prv pdata off]. rewrite Hp, Ho', Nat2Z.id, Hd. by rewrite drop_app_length. }
  set (p0 := set_prv p1 (cur_chunk p1) (line p1)) in *.
  assert (template_reader active p1 = template_format_chunk active
    (advance (Parser D (beyond p0) (off p1) (line p0) (in_expr p0) true true (prv_chunk p0)
      (Chunk (off p1 + 1) (off p1 + 1 - 1) T_TYPE_CODE (line p0))) (off p1 + 1 + 2) false)) as H2.
  { unfold template_reader. fold p0. change (in_expr p0) with (in_expr p1) at 1. rewrite Hi. cbn [negb].
    rewrite Hrest. change (str "%>") with [37; 62]. rewrite strfind_first by done.
    change (off p0 + Z.of_nat (length [45])) with (off p1 + 1). rewrite Hcode. done. }
  rewrite H2. clear H2.
  destruct (format_prv active Hcat D HD (Parser D (beyond p0) (off p1) (line p0) (in_expr p0) true true
    (prv_chunk p0) (Chunk (off p1 + 1) (off p1 + 1 - 1) T_TYPE_CODE (line p0))) true T_TYPE_TEXT t
    (off p1 + 1 + 2) false) as (c' & l & H2); [done|done|exact Hc|done|].
  eexists. split; [done|]. split; [rewrite H2; reflexivity|].
  unfold template_reader. cbn [set_prv advance in_expr negb cur_chunk].
  destruct (strfind _ _) as [i|].
  - destruct (template_text _ _) as [p3|] eqn:Htx; [|done]. apply template_text_prv in Htx.
    cbn [mbind option_bind]. eapply format_negative. cbn [advance prv_chunk]. by rewrite Htx.
  - destruct (template_text _ _) as [p3|] eqn:Htx; [|done]. apply template_text_prv in Htx.
    cbn [mbind option_bind]. eapply format_negative. cbn [advance prv_chunk]. by rewrite Htx.
Qed.

Lemma lone_minus_tag_witness :
  exists p1 p2,
    template_reader None (template_string (str "a" ++ str "<%-%>" ++ str "b") (Some 0)) =
      Some (Some (str " "), p1) /\
    template_reader None p1 = Some (Some (render None T_TYPE_TEXT (rstrip (str "a"))), p2) /\
    template_reader None p2 = None.
Proof.
  apply (lone_minus_tag None (str "a") (str "b")).
  - intros m c. eexists _, _. split; [reflexivity|done].
  - done.
  - simpl. lia.
Defined.

(** The opening mark of the last tag strips the end of the template. *)
Example trailing_text_stripped :
  lua_source 9 None (template_string (str "<%- x %>a  ") (Some 0)) =
    lua_source 9 None (template_string (str "<%- x %>a") (Some 0)).
Proof. vm_compute. reflexivity. Qed.
